(* ===== verification/_CoqProject ===== *)
-Q . S2P
Prelude.v
JsString.v
Json.v
JsNumber.v
Regex.v
Lock.v
Wildcard.v
Arity.v
Permission.v
PatchParse.v
PatchApply.v
EditReplace.v
RotationState.v
Backoff.v
RateLimits.v
Health.v
Guard.v
Rotation3d.v
Coalesce.v
Lanes.v
Schedule.v
Retry.v
SystemEvents.v
CronStore.v
Heartbeat.v
FreerunNode.v
FreerunTree.v
FreerunRender.v
FreerunCheck.v
FreerunEngine.v
FreerunShape.v
FreerunSteps.v
FreerunStore.v
FreerunRun.v
Tweaks.v
ToolBudget.v
TokenBucket.v
SessionCache.v
RebindEpoch.v
Todo.v
ErrorClass.v
RunQueue.v
Workflow.v
KillSwitch.v
Supervisor.v
Bytes.v
WebAuth.v
Identifier.v
Truncation.v
PromptRuntime.v
RequestMonitor.v
Judge.v
Dialog.v
Anchor.v
ToolIndex.v
AnchorText.v
MessageStream.v
ModelMessages.v
ContextBudget.v
CompactionRun.v
Skills.v
Question.v
Observe.v
