(* ===== verification/Prelude.v ===== *)
(** * Verification of the opencode daemon's decision-making core

    This library models the parts of [src/packages/opencode/src] (all paths
    below are relative to that directory) that decide things on their own: who
    may run a tool, what a patch does to a file, which account answers the next
    request when one hits its limit, what runs when.  It is a shallow
    embedding: a function of the source is a Rocq function with the same name
    and the same branches, mutable objects are explicit state, a thrown error is
    a value, and the clock, random numbers and the outside world are arguments.
    All definitions compute, so examples and witnesses run them.

    ** Layers

    - [Prelude] (this file): tactics, runs of transition functions ([run],
      [reachable] and induction over it), list lemmas, the error monad.
    - [JsString]: strings as lists of UTF-16 units, the methods of strings and
      arrays that the code uses, and a stable sort.
    - [Json]: [JSON.parse] and [JSON.stringify]; what is printed is read back,
      and what is read is well formed.
    - [Regex]: regular expressions as trees, with the places that backtracking
      finds.
    - [JsNumber]: parsing of numbers, rounded to doubles.
    - [Bytes]: UTF-8, base64 and the escapes of URIs, with their round trips.

    Permissions and patches

    - [Lock] ([util/lock.ts]): the reader/writer lock, as a machine over a heap
      of lock objects.  Mutual exclusion, no lost wake-up, who is woken by which
      disposal, and that every waiter is served.
    - [Wildcard] ([util/wildcard.ts]): [match], [all], [allStructured].  The
      regular expression that [match] builds is parsed and run, and accepts what
      the wildcard denotes.
    - [Arity] ([permission/arity.ts]): the command prefix a permission is for.
    - [Permission] ([permission/next.ts]; uses [Wildcard]): rules, [ask],
      [reply].  Each request is settled at most once, rejecting and approving
      reach exactly the requests they should, the last matching rule decides.
    - [PatchParse], [PatchApply] ([patch/index.ts]): the parser with its round
      trip through a printer, and the application of hunks.  [PatchApply] is
      written against the class [FileSystem], with laws in [FileSystemLaws] and
      a [gmap] as an instance.  In a file without a blank line at its end computed
      replacements do not overlap and their application is the simultaneous
      replacement; only named files change.
    - [EditReplace] ([tool/edit.ts]; uses [Wildcard]): the nine replacers and
      [replace].  What is replaced and where, that it is replaced everywhere or
      at its only place, that the search ends, the edit distance, the blocks
      of lines that are yielded.

    Account rotation: the modules below share one state file

    - [RotationState] ([account/rotation/types.ts], [state.ts]): the file, its
      migration, and the quota day.
    - [Backoff], [RateLimits], [Health], [Guard] ([account/rotation/]): the
      reason of a limit and its backoff; the tracker of limits, which refines an
      abstract table of entries however its operations interleave with reads
      and writes of the file; health scores, their range and recovery; the
      rotation guard and the account selector.
    - [Rotation3d] ([account/rotation3d.ts]; uses the four above): the candidate
      list, scores and selection, up to [findFallback].  A fallback is usable,
      the best by score, and stays in the family when the family has a free
      account.
    - [Coalesce] ([account/rotation/coalesce.ts]): concurrent calls as a step
      machine, one step from [await] to [await].  Single flight, the age of
      cached decisions, and the interval between rotations.

    - [RequestMonitor] ([account/monitor.ts]): requests of the last minute and of
      the quota day, and the limits of models.
    - [Judge] ([account/rate-limit-judge.ts]; uses [ErrorClass], [RequestMonitor]
      and the trackers): what an error leads to, in two steps around the fetch
      of a quota.  What is marked, what is promoted to a whole provider, and
      which row of failures a success leaves.

    The daemon

    - [Lanes] ([daemon/lanes.ts]): command lanes with queues, limits,
      generations and resets, over a heap of lanes.  Nothing enqueued is lost or
      settled twice, limits hold, stale results are not delivered.
    - [Schedule] ([cron/schedule.ts], [cron/active-hours.ts]): next run times of
      the three kinds of schedule and the active-hours gate, in a process whose
      zone keeps one offset.
    - [Retry] ([cron/retry.ts]): what follows a run; one-shot jobs terminate.
    - [SystemEvents] ([cron/system-events.ts]): bounded queues, refined to the
      list of the last events.
    - [CronStore] ([cron/store.ts], [cron/types.ts]): the jobs and their store;
      every sequence of operations refines a partial map from ids to jobs.
    - [Heartbeat] ([cron/heartbeat.ts]; uses the five above): recovery at boot
      and the tick.  Every tick moves every job on, a job runs only when it is
      due, one-shot jobs settle, and recovery never catches up on missed runs.

    The freerun engine ([freerun/]): a tree of tasks that a model plans and
    executes, one node file per task

    - [FreerunNode] ([types.ts], [storage/node-fs.ts]): schemas as decoders, node
      files.  Files of valid nodes are read back; what is read is valid.
    - [FreerunTree] ([storage/tree.ts], [policy/pick-next.ts]): traversals,
      relations, and which node is next.
    - [FreerunRender] ([render/]), [FreerunCheck] ([validation/], the reading of
      answers): the texts for the model, within their budget, and its answers.
    - [FreerunEngine] ([runtime/], [storage/meta-fs.ts],
      [session/freerun-bridge.ts]): iterations, consolidation, sessions, against
      the class [NodeStore] with its laws; the model called is a record of
      functions that answer or throw.
    - [FreerunShape], [FreerunSteps]: the shape of the trees that are built, the
      abstract steps [advance] and [collapse], and that the engine's operations
      are such steps and do not fail.
    - [FreerunStore]: text files as a store, which keeps the laws.
    - [FreerunRun]: a session ends without an error and loses no node; when it is
      done and summaries did not fail, the tree is consolidated into its root;
      failures block a node and change nothing else.

    Settings and sessions of the daemon

    - [Tweaks] ([config/tweaks.ts]): the operator's file of tunables.  Every value
      is in its range, a printed file is read back, other keys are ignored.
    - [ToolBudget] ([tool/budget.ts], [session/llm.ts]; uses [Tweaks]): budgets
      of tool output and of tool calls, and the estimate of tokens.
    - [TokenBucket] ([server/rate-limit.ts]; uses [Tweaks]): the rate limiter.
      What gets through in any window, and that a retry succeeds.
    - [SessionCache] ([server/session-cache.ts]; uses [Tweaks]): cached responses
      and their tags, with events between the two halves of a fetch.  When a
      response and a tag are current.
    - [RebindEpoch] ([session/rebind-epoch.ts]): epochs of sessions and the
      sliding window that limits them.
    - [Todo] ([session/todo.ts]): todo lists.  Progress is kept, reconciliation
      moves on, adopted proposals respect the gates.

    - [PromptRuntime] ([session/prompt-runtime.ts], [session/status.ts], the entry
      of [runLoop] in [session/prompt.ts], the disposal of [project/state.ts]):
      callers, runs and waiting for a slot.  One run of a session goes on, apart
      from those started while the registry is disposed of; a waiting prompt that
      is not stranded by a disposal runs; and who is shown busy.
    - [Identifier] ([id/id.ts]): identifiers with time and counter; their order
      and the time that is read back, within an epoch of 2^36 milliseconds.
    - [Truncation] ([tool/truncation.ts]; uses [ToolBudget], [Permission],
      [Identifier]): the preview of long output, and the removal of old files.

    Compacting a context: what is old is replaced by one message, the anchor

    - [Dialog] ([session/dialog-serializer.ts], the messages of
      [session/message-v2.ts]): rounds and their text.  Anchors that are built one
      from the other tell the whole dialog, when nothing said looks like a header.
    - [Anchor] ([session/anchor-sanitizer.ts], [session/compaction.ts]): the
      wrapper of an anchor, which stays a single one, and the cut to a budget.
    - [ToolIndex] ([session/tool-index.ts]; uses [Dialog]): the table of calls at
      the end of an anchor, read back and replaced by the next when its cells are
      clean.
    - [AnchorText] ([defaultWriteAnchor] of [session/compaction.ts]; uses [Anchor]
      and [ToolIndex]): the body that is stored.  An anchor that is extended again
      and again stays one text with one index.
    - [MessageStream] ([session/storage/sqlite.ts], [session/message-v2.ts],
      [session/compaction.ts]): the table of messages, the view from the newest
      anchor on with exactly the rounds that it left, the open question and asking
      it again.
    - [ModelMessages] ([session/compaction.ts]): pairs of calls and results, and
      the cut to a small window.
    - [ContextBudget] ([session/compaction.ts], [session/context-policy.ts],
      [session/compaction-manager.ts], [session/compaction-provider-strategy.ts],
      [session/cache-miss-diagnostic.ts]): budgets, causes, policies.  What is not
      over its budget leaves room, and each anchor is enriched once.
    - [CompactionRun] ([run] of [session/compaction.ts]; uses all of these): the
      chain of kinds, writing the anchor and what follows it.  For providers other
      than Claude's an open question survives, and no run changes anything within
      half a minute of an anchor.
    - [Observe] ([deriveObservedCondition] of [session/prompt.ts],
      [provider/chain-semantics.ts]; uses all of these): why a turn compacts.  A
      lost chain is reset once and compacts nothing, and a cause that is found is
      acted on.
    - [Skills] ([session/skill-layer-registry.ts] and what an anchor does to it):
      loading, use, fading and pins.  With narrative anchors alone a request
      carries as pinned the skills that the last anchor names.

    Questions to the user

    - [Question] ([question/index.ts], [sdk/js/src/v2/question-normalize.ts], the
      question tool): which inputs are taken, and that each question is settled
      once, whatever answers, dismissals and aborts come.

    Autonomous sessions

    - [ErrorClass] ([account/rotation/error-classifier.ts]; uses [Backoff]): which
      errors are rate limits or failures to authenticate, and when to retry.
    - [RunQueue] ([session/queue.ts], [lane-policy.ts], [trigger.ts]): the queue of
      continuations, which refines a map from sessions to entries, and its drain.
    - [Workflow] ([session/workflow-runner.ts]; uses [Todo], [RunQueue],
      [ErrorClass]): health, resumability, backoff, the choice of candidates, and
      when a session goes on with which todo.
    - [KillSwitch] ([server/killswitch/service.ts] and its routes): who may set it,
      what it blocks, and the order of the controls.
    - [Supervisor] ([session/workflow-runner.ts]; uses all of these): ticks, the
      ends of resumes and of turns over the shared state.  What a tick starts,
      what a failure leads to, and two ways in which a session does not do what
      was decided.

    The HTTP server's own login

    - [WebAuth] ([server/web-auth.ts], [server/web-auth-credentials.ts], the first
      middleware of [server/app.ts], the login routes of
      [server/routes/global.ts]; uses [Bytes]): signed tokens, cookies,
      revocation, the lockout, and the check of each request.  Why a request is
      let through, that a login opens a session and a logout ends it, how many
      passwords can be tried at the login, and the ways around these.

    ** Conventions

    Times and numbers are [Z]; no modelled computation leaves the range in which
    doubles are exact integers, except where a file's header says how fractions
    are scaled ([Guard], [Rotation3d]) or uses rationals ([Backoff], [TokenBucket],
    [ContextBudget]) or rounded doubles ([JsNumber]).  Hashes
    wrap around at 32 bits ([Schedule.to_int32]).  A JavaScript [Map] or an object
    used as one is a [gmap] where nothing depends on its order and a list of
    entries in insertion order where something does.  Every clock reading is an
    argument of its own, in the order of the readings; a theorem that needs the
    clock not to run backwards says so.  Objects that closures keep alive
    ([Lock], [Lanes]) live in a heap, so that an object that left its table is
    still there.  An asynchronous operation is a step machine whose steps are
    the stretches of code between two suspensions, and theorems quantify over
    all sequences of steps.

    Loops whose recursion is not structural take fuel, and get enough: a queue's
    length for [Lanes.pump_loop] and [Lock.wake_readers], a line count for the
    loops of [PatchParse] ([parse_chunks_fuel]), the binary length of a number
    for [JsString.show_digits], and for the cron search the number of minutes
    the code itself tries.  The traversals of a freerun tree take the number of
    names they meet ([FreerunTree.visits]), and are [None] where the code does
    not return, on a tree with cycles; the trees of the engine have none
    ([FreerunShape.shaped_graded]).  Wrappers of an anchor are taken off as often
    as the text has units ([Anchor.unwrap_finishes]), and a message is halved as
    often as its texts have units ([ModelMessages.shrink_settles]).

    ** What the model shows about the code

    Some behaviour differs from what the code or its comments intend; the
    examples next to the theorems exhibit it: [PatchParse.patch_eof_never_set],
    [PatchApply.patch_update_outcome], [PatchApply.addition_into_a_block],
    [Arity.prefix_inherited], [EditReplace.replace_dollar],
    [EditReplace.replace_blank], [EditReplace.block_anchor_single], [Backoff.second_daily_failure], [Guard.selector_best]
    (the switch threshold never decides), [Rotation3d.slash_truncated],
    [Rotation3d.rule_outweighs_family], [Coalesce.interval_not_kept],
    [Lanes.register_drops], [Lanes.finish_registers], [Schedule.zone_east],
    [Schedule.zone_west], [CronStore.create_over_unreadable],
    [Heartbeat.suppressed_one_shot_runs_again], [Heartbeat.failed_turn_is_ok],
    [Heartbeat.waiting_one_shot_never_runs], [FreerunNode.file_mark],
    [FreerunRender.budget_of_one], [FreerunRun.blocked_is_done],
    [FreerunRun.failed_summary], [FreerunRun.duplicate_names],
    [FreerunRun.dotted_name], [Tweaks.unknown_key_used],
    [Tweaks.soft_equals_hard], [Tweaks.failed_read_stays],
    [SessionCache.change_during_fetch], [SessionCache.tag_before_sweep],
    [SessionCache.tag_without_subscription], [SessionCache.misses_when_off],
    [SessionCache.messages_key_session], [RebindEpoch.outcome_of_overlap],
    [Todo.same_text_completed], [Todo.unreadable_replaced],
    [Workflow.preferred_twice], [Supervisor.approval_gate_overwritten],
    [Supervisor.completion_not_seen], [Supervisor.workspace_switch_stops_all],
    [Supervisor.caps_not_kept], [WebAuth.hint_forges_sessions],
    [WebAuth.unlisted_reads_public], [WebAuth.overlapping_logins_checked],
    [WebAuth.other_clients_checked], [WebAuth.basic_not_locked],
    [WebAuth.loopback_by_name],
    [WebAuth.cookie_throws], [Identifier.order_turns],
    [Identifier.counter_runs_over], [Truncation.new_file_removed],
    [Truncation.old_file_kept], [Truncation.foreign_file_stops],
    [Truncation.sessionless_kept], [PromptRuntime.fifth_aborts_fourth],
    [PromptRuntime.idle_with_subagent], [PromptRuntime.two_live_runs],
    [PromptRuntime.waits_for_ever], [Judge.success_keeps_failures],
    [Judge.judged_not_promoted], [Judge.counted_waits_for_reset],
    [Dialog.spoofed_round], [Anchor.newest_round_dropped],
    [Anchor.wrapper_cut_open], [Anchor.frames_add_up], [ToolIndex.bars_lost],
    [ToolIndex.pipe_forgotten], [ToolIndex.few_not_stripped],
    [ModelMessages.matched_result_dropped], [ModelMessages.content_not_cut],
    [ContextBudget.emergency_unreached], [ContextBudget.anchor_enriched_again],
    [CompactionRun.question_twice], [CompactionRun.raw_round_lost], [CompactionRun.claude_question_lost],
    [CompactionRun.stub_hides_history], [CompactionRun.continue_after_question],
    [CompactionRun.paid_twice], [Skills.reload_pins_forever],
    [Skills.manual_pin_lost], [Skills.paid_anchor_keeps_pins],
    [Question.list_made_an_object] and [Observe.claude_goes_round].

    ** Not modelled

    Logging, debug checkpoints and events that only inform; schema validation
    outside [FreerunNode] and [Question]; network, processes and the database; the rest of the
    session engine and of the HTTP server, the provider adapters, the user interfaces and the
    tools other than the patch and the replacement of the edit tool; of the
    freerun engine its telemetry, prompts, LLM client and triggers.  Of the
    compaction of contexts the hybrid enrichment and the reload of a session are left out,
    and of the clock the changes to daylight-saving time.  Candidates for extension: the text of rotation
    policies ([session/instruction-policy.ts]) and the retry of calls
    ([session/retry.ts]). *)

From Stdlib Require Export ZArith Lia.
From stdpp Require Export base option list gmap strings countable sorting.
#[export] Set Default Goal Selector "!".

(** ** Tactics and hint databases of the development *)

Create HintDb opencms.

(** Refutes a member of the empty list. *)
Ltac no_member :=
  match goal with H : _ ∈ [] |- _ => by apply not_elem_of_nil in H end.
#[export] Hint Extern 1 => no_member : opencms.

(** Proves a closed decidable proposition by evaluating its decision. *)
Ltac by_compute := refine (bool_decide_unpack _ _); vm_compute; exact I.

(** Case analysis on the scrutinee of the innermost match of the goal. *)
Ltac case_goal :=
  match goal with
  | |- context [match ?x with _ => _ end] =>
      lazymatch x with
      | context [match _ with _ => _ end] => fail
      | _ => destruct x eqn:?
      end
  end.

(** The same for a hypothesis. *)
Ltac case_hyp H :=
  match type of H with
  | context [match ?x with _ => _ end] =>
      lazymatch x with
      | context [match _ with _ => _ end] => fail
      | _ => destruct x eqn:?
      end
  end.

(** Turns the boolean tests of the context into propositions. *)
Ltac bool_to_prop :=
  repeat match goal with
  | H : (_ && _) = true |- _ => apply andb_true_iff in H as [? ?]
  | H : (_ || _) = false |- _ => apply orb_false_iff in H as [? ?]
  | H : negb _ = true |- _ => apply negb_true_iff in H
  | H : negb _ = false |- _ => apply negb_false_iff in H
  | H : bool_decide _ = true |- _ => apply bool_decide_eq_true_1 in H
  | H : bool_decide _ = false |- _ => apply bool_decide_eq_false_1 in H
  | H : (_ <? _)%Z = true |- _ => apply Z.ltb_lt in H
  | H : (_ <? _)%Z = false |- _ => apply Z.ltb_ge in H
  | H : (_ <=? _)%Z = true |- _ => apply Z.leb_le in H
  | H : (_ <=? _)%Z = false |- _ => apply Z.leb_gt in H
  | H : (_ =? _)%Z = true |- _ => apply Z.eqb_eq in H
  | H : (_ =? _)%Z = false |- _ => apply Z.eqb_neq in H
  | H : Nat.ltb _ _ = true |- _ => apply Nat.ltb_lt in H
  | H : Nat.ltb _ _ = false |- _ => apply Nat.ltb_ge in H
  | H : Nat.leb _ _ = true |- _ => apply Nat.leb_le in H
  | H : Nat.leb _ _ = false |- _ => apply Nat.leb_gt in H
  | H : Nat.eqb _ _ = true |- _ => apply Nat.eqb_eq in H
  | H : Nat.eqb _ _ = false |- _ => apply Nat.eqb_neq in H
  end.

(** ** Finite transition sequences *)

(** Zero or more steps of a labelled machine, given as a function from the
    state to the next state, [None] when the action is not enabled. *)
Section Runs.
Context {S A : Type} (step : A → S → option S).

Fixpoint run (acts : list A) (s : S) : option S :=
  match acts with
  | [] => Some s
  | a :: rest => match step a s with Some s' => run rest s' | None => None end
  end.

Inductive reachable (init : S) : S → Prop :=
| reach_init : reachable init init
| reach_step s a s' : reachable init s → step a s = Some s' → reachable init s'.

Lemma run_app acts1 acts2 s :
  run (acts1 ++ acts2) s = match run acts1 s with Some s' => run acts2 s' | None => None end.
Proof.
  revert s. induction acts1 as [|a acts1 IH]; intros s; simpl; [done|].
  destruct (step a s); [apply IH|done].
Qed.

Lemma run_reachable init acts s s' :
  reachable init s → run acts s = Some s' → reachable init s'.
Proof.
  revert s. induction acts as [|a acts IH]; intros s Hs Hr; simpl in Hr.
  - congruence.
  - destruct (step a s) as [s1|] eqn:E; [|done].
    eapply IH; [|exact Hr]. eauto using reach_step.
Qed.

(** An invariant of every step is an invariant of every reachable state. *)
Lemma reachable_ind_inv init (I : S → Prop) :
  I init → (∀ a s s', I s → step a s = Some s' → I s') →
  ∀ s, reachable init s → I s.
Proof. intros H0 Hs s Hr. induction Hr; eauto. Qed.
End Runs.
#[export] Hint Constructors reachable : opencms.

(** ** Lists *)

Lemma filter_all {A} (P : A → Prop) `{∀ x, Decision (P x)} (l : list A) :
  Forall P l → filter P l = l.
Proof. induction 1; [done|]. rewrite filter_cons, decide_True by done. by f_equal. Qed.

Lemma filter_none {A} (P : A → Prop) `{∀ x, Decision (P x)} (l : list A) :
  Forall (λ x, ¬ P x) l → filter P l = [].
Proof. induction 1; [done|]. by rewrite filter_cons, decide_False by done. Qed.

(** A list is, up to order, what satisfies [P] and what does not. *)
Lemma filter_split_perm {A} (P : A → Prop) `{∀ x, Decision (P x)} (l : list A) :
  l ≡ₚ filter (λ x, ¬ P x) l ++ filter P l.
Proof.
  induction l as [|x l IH]; [done|]. rewrite !filter_cons.
  destruct (decide (P x)); [rewrite (decide_False (P := ¬ P x)) by tauto|rewrite decide_True by done].
  - rewrite <- Permutation_middle. by constructor.
  - simpl. by constructor.
Qed.

Lemma NoDup_map_filter {A B} (f : A → B) (P : A → Prop) `{∀ x, Decision (P x)} (l : list A) :
  NoDup (map f l) → NoDup (map f (filter P l)).
Proof.
  induction l as [|x l IH]; simpl; [done|]. intros [Hx Hn]%NoDup_cons. rewrite filter_cons.
  case_decide; [|by apply IH]. simpl. apply NoDup_cons. split; [|by apply IH].
  intros (y & Hy & Hin)%list_elem_of_fmap. apply list_elem_of_filter in Hin as [_ Hin].
  apply Hx. rewrite Hy. by apply list_elem_of_fmap_2.
Qed.

Lemma elem_of_flat_map {A B} (f : A → list B) l y : y ∈ flat_map f l ↔ ∃ x, x ∈ l ∧ y ∈ f x.
Proof. rewrite !list_elem_of_In, in_flat_map. setoid_rewrite list_elem_of_In. tauto. Qed.

Lemma flat_map_nil_fn {A B} (f : A → list B) l : (∀ x, f x = []) → flat_map f l = [].
Proof. intros H. induction l as [|x l IH]; simpl; [done|]. by rewrite H. Qed.

Lemma list_filter_ext_in {A} (P Q : A → Prop) `{∀ x, Decision (P x), ∀ x, Decision (Q x)} (l : list A) :
  (∀ x, x ∈ l → P x ↔ Q x) → filter P l = filter Q l.
Proof.
  induction l as [|x l IH]; intros H'; [done|]. rewrite !filter_cons, IH.
  - pose proof (H' x (list_elem_of_here _ _)). repeat case_decide; tauto.
  - intros y Hy. apply H'. by right.
Qed.

(** ** Code that throws *)

(** The outcome of code that returns a value or throws. *)
Inductive result (E A : Type) := Throw (e : E) | Ret (a : A).
Arguments Throw {E A} e.
Arguments Ret {E A} a.

#[export] Instance result_ret {E} : MRet (result E) := λ A a, Ret a.
#[export] Instance result_bind {E} : MBind (result E) := λ A B f m,
  match m with Throw e => Throw e | Ret a => f a end.

Lemma bind_Ret {E A B} (m : result E A) (f : A → result E B) b :
  (m ≫= f) = Ret b ↔ ∃ a, m = Ret a ∧ f a = Ret b.
Proof. destruct m; simpl; [|naive_solver]. split; [done|]. by intros (? & ? & ?). Qed.

(** Code that throws and changes a state: what was done before a failure stays
    done. *)
Definition eff (E S A : Type) : Type := S → S * result E A.
#[export] Instance eff_ret {E S} : MRet (eff E S) := λ A a s, (s, Ret a).
#[export] Instance eff_bind {E S} : MBind (eff E S) := λ A B f m s,
  match m s with (s', Ret a) => f a s' | (s', Throw e) => (s', Throw e) end.
Definition fail {E S A} (e : E) : eff E S A := λ s, (s, Throw e).
Lemma eff_bind_inv {E S A B} (m : eff E S A) (f : A → eff E S B) s s' b :
  (m ≫= f) s = (s', Ret b) ↔ ∃ s1 a, m s = (s1, Ret a) ∧ f a s1 = (s', Ret b).
Proof. unfold mbind, eff_bind. destruct (m s) as [s1 [e|a]]; split; try naive_solver. Qed.

(** [invert_Ret H]: what a successful sequence of calls went through. *)
Ltac invert_Ret H :=
  match type of H with
  | (_ ≫= _) = Ret _ =>
      let a := fresh "a" in let E1 := fresh "E" in
      apply bind_Ret in H as (a & E1 & H); invert_Ret H
  | _ => idtac
  end.

(** [o ?? o']. *)
Definition some_or {A} (o o' : option A) : option A := match o with Some _ => o | None => o' end.

(** ** Files

    A file of data: absent, unreadable (or not what is expected there), or
    holding the data that was written. *)
Inductive file (A : Type) := Absent | Unreadable | Holds (a : A).
Arguments Absent {A}.
Arguments Unreadable {A}.
Arguments Holds {A} a.
