(* ===== verification/JsString.v ===== *)
(** Strings and arrays of the source language, as far as the modelled code uses
    them.  A string is the list of its UTF-16 code units ([jsstr]); an ASCII
    literal is written [js "..."].  The functions carry the names of the
    [String.prototype] and [Array.prototype] methods they stand for. *)

From S2P Require Import Prelude.

Notation jsstr := (list N).

(** An ASCII literal. *)
Definition js (s : string) : jsstr :=
  map Ascii.N_of_ascii (String.list_ascii_of_string s).

Definition newline : N := 10%N.

(** ** Searching *)

Definition startsWith (s p : jsstr) : bool := bool_decide (p `prefix_of` s).
Definition endsWith (s p : jsstr) : bool := bool_decide (p `suffix_of` s).

(** [s.indexOf(needle)]: the first offset at which [needle] occurs. *)
Fixpoint indexOf_from (i : nat) (s needle : jsstr) : option nat :=
  if startsWith s needle then Some i
  else match s with
       | [] => None
       | _ :: s' => indexOf_from (S i) s' needle
       end.
Definition indexOf (s needle : jsstr) : option nat := indexOf_from 0 s needle.

Definition includes (s needle : jsstr) : bool :=
  match indexOf s needle with Some _ => true | None => false end.

(** ** White space ([WhiteSpace] and [LineTerminator] of ECMA-262) *)

Definition is_space (c : N) : bool :=
  ((9 <=? c) && (c <=? 13) || (c =? 32) || (c =? 160) || (c =? 5760)
   || ((8192 <=? c) && (c <=? 8202)) || (c =? 8232) || (c =? 8233) || (c =? 8239)
   || (c =? 8287) || (c =? 12288) || (c =? 65279))%N.

Fixpoint trimStart (s : jsstr) : jsstr :=
  match s with
  | c :: s' => if is_space c then trimStart s' else s
  | [] => []
  end.
Definition trimEnd (s : jsstr) : jsstr := reverse (trimStart (reverse s)).
Definition trim (s : jsstr) : jsstr := trimEnd (trimStart s).

(** ** Splitting and joining on one code unit *)

Fixpoint split_on (c : N) (s : jsstr) : list jsstr :=
  match s with
  | [] => [[]]
  | x :: s' =>
      if (x =? c)%N then [] :: split_on c s'
      else match split_on c s' with
           | l :: ls => (x :: l) :: ls
           | [] => [[x]]
           end
  end.

Fixpoint join (sep : jsstr) (ls : list jsstr) : jsstr :=
  match ls with
  | [] => []
  | [l] => l
  | l :: ls' => l ++ sep ++ join sep ls'
  end.

(** ** Case mapping

    The ASCII letters and the other units whose image holds ASCII letters alone
    or first (the Kelvin sign and the dotted capital I; the sharp s, the dotless
    i, the long s and the Latin ligatures).  The remaining letters are left as
    they are: the code only compares the results with ASCII or Chinese text. *)

Definition lower_unit (c : N) : jsstr :=
  if ((65 <=? c) && (c <=? 90))%N then [(c + 32)%N]
  else if (c =? 8490)%N then js "k"
  else if (c =? 304)%N then [105%N; 775%N]
  else [c].
Definition upper_unit (c : N) : jsstr :=
  if ((97 <=? c) && (c <=? 122))%N then [(c - 32)%N]
  else if (c =? 223)%N then js "SS"
  else if (c =? 305)%N then js "I"
  else if (c =? 383)%N then js "S"
  else if (c =? 64256)%N then js "FF"
  else if (c =? 64257)%N then js "FI"
  else if (c =? 64258)%N then js "FL"
  else if (c =? 64259)%N then js "FFI"
  else if (c =? 64260)%N then js "FFL"
  else if ((c =? 64261) || (c =? 64262))%N then js "ST"
  else [c].
Definition toLowerCase (s : jsstr) : jsstr := flat_map lower_unit s.
Definition toUpperCase (s : jsstr) : jsstr := flat_map upper_unit s.

(** ** Digits *)

Definition is_digit (c : N) : bool := ((48 <=? c) && (c <=? 57))%N.

Fixpoint digits_value (acc : Z) (s : jsstr) : Z :=
  match s with
  | c :: s' => if is_digit c then digits_value (10 * acc + (Z.of_N c - 48)) s' else acc
  | [] => acc
  end.

(** The digits a text starts with, and the rest. *)
Fixpoint span_digits (s : jsstr) : jsstr * jsstr :=
  match s with
  | c :: s' => if is_digit c then let '(a, b) := span_digits s' in (c :: a, b) else ([], s)
  | [] => ([], [])
  end.

(** The value of a hexadecimal digit. *)
Definition hex_value (c : N) : option Z :=
  if is_digit c then Some (Z.of_N c - 48)%Z
  else if ((97 <=? c) && (c <=? 102))%N then Some (Z.of_N c - 87)%Z
  else if ((65 <=? c) && (c <=? 70))%N then Some (Z.of_N c - 55)%Z
  else None.

(** The decimal digits of a non-negative number, most significant first;
    [fuel] is at least the number of binary digits. *)
Fixpoint show_digits (fuel : nat) (n : Z) (acc : jsstr) : jsstr :=
  match fuel with
  | O => acc
  | S fuel =>
      let acc' := Z.to_N (48 + n mod 10) :: acc in
      if (n <? 10)%Z then acc' else show_digits fuel (n / 10) acc'
  end.
Definition show_Z (n : Z) : jsstr :=
  if (n <? 0)%Z then js "-" ++ show_digits (S (Z.to_nat (Z.log2 (- n)))) (- n) []
  else show_digits (S (Z.to_nat (Z.log2 n))) n [].

(** [\w], and the matches of a regular expression between two [\b]: [m] gives
    the length of a match at a place, of word characters; [before] says that
    the character before the place is a word character. *)
Definition is_word (c : N) : bool :=
  (is_digit c || ((65 <=? c) && (c <=? 90)) || ((97 <=? c) && (c <=? 122)) || (c =? 95))%N.
Fixpoint match_word (m : jsstr → option nat) (before : bool) (s : jsstr) : bool :=
  match s with
  | [] => false
  | c :: s' =>
      match m s with
      | Some n => negb before && negb (match s !! n with Some d => is_word d | None => false end)
      | None => false
      end || match_word m (is_word c) s'
  end.

(** Upper-case ASCII letters folded, as the [i] flag of a regular expression does. *)
Definition asciiLower (s : jsstr) : jsstr :=
  map (λ c, if ((65 <=? c) && (c <=? 90))%N then (c + 32)%N else c) s.

(** ** Arrays *)

(** [xs.findIndex(p)], [xs.find(p)] and [xs.findLast(p)]. *)
Fixpoint findIndex_from {A} (i : nat) (p : A → bool) (xs : list A) : option nat :=
  match xs with
  | [] => None
  | x :: xs' => if p x then Some i else findIndex_from (S i) p xs'
  end.
Definition findIndex {A} (p : A → bool) (xs : list A) : option nat := findIndex_from 0 p xs.

Fixpoint find {A} (p : A → bool) (xs : list A) : option A :=
  match xs with
  | [] => None
  | x :: xs' => if p x then Some x else find p xs'
  end.

Fixpoint findLast {A} (p : A → bool) (xs : list A) : option A :=
  match xs with
  | [] => None
  | x :: xs' =>
      match findLast p xs' with
      | Some y => Some y
      | None => if p x then Some x else None
      end
  end.

(** [xs.sort(cmp)] with a comparator that returns a number: the standard asks
    for a stable sort, which fixes the result for a consistent comparator.  An
    element is inserted before the first later one it compares at most equal to,
    so equal elements keep their order. *)
Section Sort.
Context {A : Type} (cmp : A → A → Z).

Fixpoint insert_by (x : A) (xs : list A) : list A :=
  match xs with
  | [] => [x]
  | y :: ys => if (cmp x y <=? 0)%Z then x :: xs else y :: insert_by x ys
  end.

Fixpoint sort_by (xs : list A) : list A :=
  match xs with
  | [] => []
  | x :: xs' => insert_by x (sort_by xs')
  end.
End Sort.

(** ** Lemmas *)

Lemma findLast_app {A} (p : A → bool) xs ys :
  findLast p (xs ++ ys) =
  match findLast p ys with Some y => Some y | None => findLast p xs end.
Proof.
  induction xs as [|x xs IH]; simpl; [by destruct (findLast p ys)|].
  rewrite IH. by destruct (findLast p ys).
Qed.

Lemma findLast_Some {A} (p : A → bool) xs x :
  findLast p xs = Some x → p x = true ∧ x ∈ xs.
Proof.
  revert x. induction xs as [|y xs IH]; intros x H; simpl in H; [done|].
  destruct (findLast p xs) as [z|] eqn:E.
  - injection H as ->. destruct (IH x eq_refl). split; [done|]. by right.
  - destruct (p y) eqn:Ey; [|done]. injection H as ->. split; [done|]. by left.
Qed.

Lemma findLast_None {A} (p : A → bool) xs :
  findLast p xs = None ↔ ∀ x, x ∈ xs → p x = false.
Proof.
  induction xs as [|y xs IH]; simpl.
  - split; [|done]. intros _ x Hx. no_member.
  - destruct (findLast p xs) as [z|] eqn:E.
    + split; [done|]. intros H. apply findLast_Some in E as [Hz Hin].
      rewrite (H z) in Hz; [done|]. by right.
    + destruct (p y) eqn:Ey.
      * split; [done|]. intros H. rewrite (H y) in Ey; [done|]. by left.
      * split; [|done]. intros _ x [->|Hx]%elem_of_cons; [done|]. by apply IH.
Qed.

Lemma find_Some {A} (p : A → bool) xs x :
  find p xs = Some x → p x = true ∧ x ∈ xs.
Proof.
  induction xs as [|y xs IH]; simpl; [done|].
  destruct (p y) eqn:Ey.
  - intros [= ->]. split; [done|]. by left.
  - intros [? ?]%IH. split; [done|]. by right.
Qed.

Lemma findIndex_from_Some {A} (p : A → bool) xs k i :
  findIndex_from k p xs = Some i → ∃ x, xs !! (i - k) = Some x ∧ k ≤ i ∧ p x = true.
Proof.
  revert k. induction xs as [|x xs IH]; intros k; simpl; [done|]. destruct (p x) eqn:E.
  - intros [= ->]. exists x. rewrite Nat.sub_diag. done.
  - intros (y & Hy & Hk & Hp)%IH. exists y. split; [|split; [lia|done]].
    replace (i - k) with (S (i - S k)) by lia. done.
Qed.

Lemma findIndex_Some {A} (p : A → bool) xs i : findIndex p xs = Some i → ∃ x, xs !! i = Some x ∧ p x = true.
Proof. intros (x & Hx & _ & Hp)%findIndex_from_Some. rewrite Nat.sub_0_r in Hx. eauto. Qed.

Lemma findIndex_None {A} (p : A → bool) xs x : findIndex p xs = None → x ∈ xs → p x = false.
Proof.
  unfold findIndex. generalize 0. induction xs as [|y xs IH]; intros k; simpl; [by intros _ ?%not_elem_of_nil|].
  destruct (p y) eqn:E; [done|]. intros H [->|Hx]%elem_of_cons; [done|by eapply IH].
Qed.

Lemma find_None {A} (p : A → bool) xs :
  find p xs = None ↔ ∀ x, x ∈ xs → p x = false.
Proof.
  induction xs as [|y xs IH]; simpl.
  - split; [|done]. intros _ x Hx. no_member.
  - destruct (p y) eqn:Ey.
    + split; [done|]. intros H. rewrite (H y) in Ey; [done|]. by left.
    + rewrite IH. split.
      * intros H x [->|Hx]%elem_of_cons; [done|]. by apply H.
      * intros H x Hx. apply H. by right.
Qed.

Section SortLemmas.
Context {A : Type} (cmp : A → A → Z).

Lemma insert_by_perm x xs : insert_by cmp x xs ≡ₚ x :: xs.
Proof.
  induction xs as [|y ys IH]; simpl; [done|].
  destruct (cmp x y <=? 0)%Z; [done|].
  rewrite IH. apply Permutation_swap.
Qed.

Lemma sort_by_perm xs : sort_by cmp xs ≡ₚ xs.
Proof. induction xs as [|x xs IH]; simpl; [done|]. by rewrite insert_by_perm, IH. Qed.

Lemma elem_of_sort_by x xs : x ∈ sort_by cmp xs ↔ x ∈ xs.
Proof. by rewrite sort_by_perm. Qed.

Lemma length_sort_by xs : length (sort_by cmp xs) = length xs.
Proof. apply Permutation_length, sort_by_perm. Qed.

(** Comparators that are total preorders. *)
Definition le_by (x y : A) : Prop := (cmp x y <= 0)%Z.

Hypothesis cmp_total : ∀ x y, (cmp x y <= 0)%Z ∨ (cmp y x <= 0)%Z.
Hypothesis cmp_trans : ∀ x y z, le_by x y → le_by y z → le_by x z.

Lemma insert_by_sorted x xs : StronglySorted le_by xs → StronglySorted le_by (insert_by cmp x xs).
Proof.
  induction 1 as [|y ys Hs IH Hy]; simpl; [by repeat constructor|].
  destruct (cmp x y <=? 0)%Z eqn:E; bool_to_prop.
  - constructor; [by constructor|]. constructor; [done|].
    eapply Forall_impl; [exact Hy|]. intros z Hz. by eapply cmp_trans.
  - constructor; [done|]. rewrite insert_by_perm. constructor; [|done].
    unfold le_by. destruct (cmp_total x y); [lia|done].
Qed.

Lemma sort_by_sorted xs : StronglySorted le_by (sort_by cmp xs).
Proof. induction xs; simpl; [constructor|]. by apply insert_by_sorted. Qed.

(** The first element of a sorted array is minimal. *)
Lemma sort_by_head xs x rest y :
  sort_by cmp xs = x :: rest → y ∈ xs → le_by x y.
Proof.
  intros E Hy. pose proof (sort_by_sorted xs) as Hs. rewrite E in Hs.
  apply elem_of_sort_by in Hy. rewrite E in Hy.
  apply elem_of_cons in Hy as [->|Hy].
  - unfold le_by. by destruct (cmp_total x x).
  - apply StronglySorted_inv in Hs as [_ Hf]. by eapply Forall_forall in Hf.
Qed.

(** An array that is already in order is left alone. *)
Lemma sort_by_id xs : StronglySorted le_by xs → sort_by cmp xs = xs.
Proof.
  induction 1 as [|x xs Hs IH Hx]; simpl; [done|]. rewrite IH.
  destruct xs as [|y ys]; simpl; [done|].
  inversion Hx; subst. destruct (Z.leb_spec (cmp x y) 0); [done|].
  unfold le_by in *; lia.
Qed.
End SortLemmas.

Lemma startsWith_app (p s : jsstr) : startsWith (p ++ s) p = true.
Proof. apply bool_decide_eq_true. by apply prefix_app_r. Qed.

(** [indexOf] finds an occurrence and no earlier one. *)
Lemma indexOf_from_Some i s needle k :
  indexOf_from i s needle = Some k →
  ∃ j, k = i + j ∧ j <= length s ∧ needle `prefix_of` drop j s
       ∧ ∀ j', j' < j → ¬ needle `prefix_of` drop j' s.
Proof.
  revert i. induction s as [|c s IH]; intros i H; simpl in H.
  - case_hyp H; simplify_eq. unfold startsWith in *. bool_to_prop.
    exists 0. simpl. split_and!; [lia|lia|done|lia].
  - destruct (startsWith (c :: s) needle) eqn:E.
    + simplify_eq. unfold startsWith in *. bool_to_prop.
      exists 0. simpl. split_and!; [lia|lia|done|lia].
    + apply IH in H as (j & -> & Hj & Hp & Hn). unfold startsWith in *. bool_to_prop.
      exists (S j). simpl. split_and!; [lia|lia|done|].
      intros [|j'] Hlt; [done|]. apply Hn. lia.
Qed.

Lemma indexOf_from_None i s needle :
  indexOf_from i s needle = None → ∀ j, j <= length s → ¬ needle `prefix_of` drop j s.
Proof.
  revert i. induction s as [|c s IH]; intros i H j Hj; simpl in *.
  - case_hyp H; [done|]. unfold startsWith in *. bool_to_prop.
    by assert (j = 0) as -> by lia.
  - destruct (startsWith (c :: s) needle) eqn:E; [done|].
    unfold startsWith in *. bool_to_prop.
    destruct j as [|j]; [done|]. simpl. eapply IH; [exact H|lia].
Qed.

Lemma includes_spec s needle :
  includes s needle = true ↔ ∃ a b, s = a ++ needle ++ b.
Proof.
  unfold includes, indexOf. destruct (indexOf_from 0 s needle) as [k|] eqn:E.
  - split; [|done]. intros _.
    apply indexOf_from_Some in E as (j & _ & _ & [b Hb] & _).
    exists (take j s), b. rewrite <- Hb. by rewrite take_drop.
  - split; [done|]. intros (a & b & ->).
    exfalso. eapply (indexOf_from_None _ _ _ E (length a)).
    + rewrite length_app. lia.
    + rewrite drop_app_length. by apply prefix_app_r.
Qed.

Lemma split_on_nonempty c s : split_on c s ≠ [].
Proof. destruct s; simpl; [done|]. by repeat case_goal. Qed.

(** Joining what splitting made gives the string back. *)
Lemma join_split c s : join [c] (split_on c s) = s.
Proof.
  induction s as [|x s IH]; simpl; [done|].
  pose proof (split_on_nonempty c s) as Hne.
  destruct (N.eqb_spec x c) as [->|Hx].
  - destruct (split_on c s) as [|l ls]; [done|]. simpl. by rewrite <- IH.
  - destruct (split_on c s) as [|l ls]; [done|]. destruct ls; simpl in *; by rewrite <- IH.
Qed.

Lemma split_no_sep c s l : l ∈ split_on c s → c ∉ l.
Proof.
  revert l. induction s as [|x s IH]; intros l Hl; simpl in Hl.
  - apply list_elem_of_singleton in Hl as ->. by apply not_elem_of_nil.
  - destruct (N.eqb_spec x c) as [->|Hx].
    + apply elem_of_cons in Hl as [->|Hl]; [by apply not_elem_of_nil|by apply IH].
    + destruct (split_on c s) as [|l0 ls].
      * apply list_elem_of_singleton in Hl as ->. by intros ->%list_elem_of_singleton.
      * apply elem_of_cons in Hl as [->|Hl]; [|apply IH; by right].
        intros [->|Hc]%elem_of_cons; [done|]. revert Hc. apply IH. by left.
Qed.

(** Splitting what joining made gives the pieces back. *)
Lemma split_app_no_sep c l s :
  c ∉ l → split_on c (l ++ c :: s) = l :: split_on c s.
Proof.
  induction l as [|x l IH]; intros Hl; simpl.
  - by rewrite N.eqb_refl.
  - apply not_elem_of_cons in Hl as [Hx Hl]. rewrite IH by done.
    destruct (N.eqb_spec x c); [by subst|done].
Qed.

Lemma split_no_sep_id c l : c ∉ l → split_on c l = [l].
Proof.
  induction l as [|x l IH]; intros Hl; simpl; [done|].
  apply not_elem_of_cons in Hl as [Hx Hl]. rewrite IH by done.
  destruct (N.eqb_spec x c); [by subst|done].
Qed.

Lemma split_join c ls :
  ls ≠ [] → Forall (λ l, c ∉ l) ls → split_on c (join [c] ls) = ls.
Proof.
  intros Hne H. induction H as [|l ls Hl H IH]; [done|].
  destruct ls as [|l' ls]; [by apply split_no_sep_id|].
  change (split_on c (l ++ c :: join [c] (l' :: ls)) = l :: l' :: ls).
  rewrite split_app_no_sep by done. f_equal. by apply IH.
Qed.

(** ** Trimming *)

Lemma trimStart_nonspace c s : is_space c = false → trimStart (c :: s) = c :: s.
Proof. intros H. simpl. by rewrite H. Qed.

Lemma trimEnd_nonspace c s : is_space c = false → trimEnd (s ++ [c]) = s ++ [c].
Proof.
  intros H. unfold trimEnd. rewrite reverse_app. simpl. rewrite H. simpl.
  by rewrite reverse_cons, reverse_involutive.
Qed.

Lemma trimStart_suffix s : trimStart s `suffix_of` s.
Proof.
  induction s as [|c s IH]; simpl; [done|].
  destruct (is_space c); [by apply suffix_cons_r|done].
Qed.

Lemma trimEnd_prefix s : trimEnd s `prefix_of` s.
Proof.
  unfold trimEnd. destruct (trimStart_suffix (reverse s)) as [k Hk].
  exists (reverse k). rewrite <- reverse_app, <- Hk. by rewrite reverse_involutive.
Qed.

(** Trimming keeps a line whose ends are not white space. *)
Lemma trim_id c s d : is_space c = false → is_space d = false → trim (c :: s ++ [d]) = c :: s ++ [d].
Proof.
  intros Hc Hd. unfold trim. rewrite trimStart_nonspace by done.
  by rewrite (app_comm_cons s [d] c), trimEnd_nonspace.
Qed.

Lemma trim_space c s : is_space c = true → trim (c :: s) = trim s.
Proof. intros H. unfold trim. simpl. by rewrite H. Qed.

Lemma trim_prefix c s : is_space c = false → trim (c :: s) `prefix_of` c :: s.
Proof. intros H. unfold trim. rewrite trimStart_nonspace by done. apply trimEnd_prefix. Qed.

Lemma trimStart_app_space p s : Forall (λ c, is_space c = true) p → trimStart (p ++ s) = trimStart s.
Proof. induction 1 as [|c p Hc _ IH]; simpl; [done|]. by rewrite Hc. Qed.

Lemma trimEnd_app_space s p : Forall (λ c, is_space c = true) p → trimEnd (s ++ p) = trimEnd s.
Proof.
  intros Hp. unfold trimEnd. rewrite reverse_app, trimStart_app_space; [done|].
  by rewrite reverse_Permutation.
Qed.

Lemma trimStart_app s t : trimStart (s ++ t) = match trimStart s with [] => trimStart t | s' => s' ++ t end.
Proof. induction s as [|c s IH]; simpl; [done|]. by destruct (is_space c). Qed.

Lemma trimEnd_app_nonspace s c t : is_space c = false → trimEnd (s ++ c :: t) = s ++ c :: trimEnd t.
Proof.
  intros Hc. unfold trimEnd. rewrite reverse_app, reverse_cons, trimStart_app, trimStart_app.
  simpl. rewrite Hc. destruct (trimStart (reverse t)) as [|d r].
  - simpl. by rewrite reverse_cons, reverse_involutive.
  - change (d :: (r ++ [c]) ++ reverse s) with (((d :: r) ++ [c]) ++ reverse s).
    by rewrite !reverse_app, reverse_involutive.
Qed.

Lemma trimEnd_split s : ∃ q, s = trimEnd s ++ q ∧ Forall (λ c, is_space c = true) q.
Proof.
  assert (H : ∀ t, ∃ q, t = q ++ trimStart t ∧ Forall (λ c, is_space c = true) q).
  { induction t as [|c t (q & Hq & Hf)]; simpl; [by exists []|]. destruct (is_space c) eqn:E; [|by exists []].
    exists (c :: q). split; [by rewrite Hq at 1|by constructor]. }
  destruct (H (reverse s)) as (q & Hq & Hf). exists (reverse q). split; [|by rewrite reverse_Permutation].
  unfold trimEnd. by rewrite <- reverse_app, <- Hq, reverse_involutive.
Qed.

(** White space around a text does not change what trimming gives. *)
Lemma trim_pad p s q :
  Forall (λ c, is_space c = true) p → Forall (λ c, is_space c = true) q → trim (p ++ s ++ q) = trim s.
Proof.
  intros Hp Hq. unfold trim. rewrite trimStart_app_space, trimStart_app by done.
  destruct (trimStart s) as [|c r]; [|by apply trimEnd_app_space].
  rewrite <- (app_nil_r q), trimStart_app_space by done. done.
Qed.

Lemma trim_trimEnd s : trim (trimEnd s) = trim s.
Proof.
  destruct (trimEnd_split s) as (q & Hs & Hq). rewrite Hs at 2. symmetry.
  exact (trim_pad [] (trimEnd s) q (Forall_nil_2 _) Hq).
Qed.

Lemma trim_length s : length (trim s) <= length s.
Proof.
  etransitivity; [apply prefix_length, trimEnd_prefix|apply suffix_length, trimStart_suffix].
Qed.

(** A marker that the line does not start with is not what trimming gives. *)
Lemma trim_ne c s m : is_space c = false → startsWith (c :: s) m = false → trim (c :: s) ≠ m.
Proof.
  intros Hc H <-. unfold startsWith in H. bool_to_prop. by apply H, trim_prefix.
Qed.

(** ** Occurrences *)

(** [needle] occurs in [s] after [pre]. *)
Definition occurs (s needle pre : jsstr) : Prop := ∃ post, s = pre ++ needle ++ post.
Definition occurs_once (s needle : jsstr) : Prop :=
  ∃ pre, occurs s needle pre ∧ ∀ pre', occurs s needle pre' → pre' = pre.

Lemma occurs_drop s needle pre : occurs s needle pre → length pre ≤ length s ∧ needle `prefix_of` drop (length pre) s.
Proof. intros [post ->]. rewrite drop_app_length, length_app. split; [lia|]. by exists post. Qed.

Lemma drop_occurs s needle k : k ≤ length s → needle `prefix_of` drop k s → occurs s needle (take k s).
Proof. intros Hk [post Hp]. exists post. rewrite <- Hp. by rewrite take_drop. Qed.

Lemma occurs_cons s needle c pre : occurs (c :: s) needle (c :: pre) ↔ occurs s needle pre.
Proof. unfold occurs. simpl. naive_solver. Qed.

Lemma indexOf_occurs s needle k :
  indexOf s needle = Some k →
  k ≤ length s ∧ occurs s needle (take k s) ∧ ∀ pre, occurs s needle pre → k ≤ length pre.
Proof.
  intros (j & -> & Hj & Hp & Hn)%indexOf_from_Some. simpl. split; [done|]. split; [by apply drop_occurs|].
  intros pre Hpre. apply occurs_drop in Hpre as [Hl Hd]. destruct (decide (j ≤ length pre)); [done|].
  destruct (Hn (length pre)); [lia|done].
Qed.

Lemma indexOf_none s needle pre : indexOf s needle = None → ¬ occurs s needle pre.
Proof. intros H Hpre. apply occurs_drop in Hpre as [Hl Hd]. by apply (indexOf_from_None _ _ _ H (length pre)). Qed.

Lemma occurs_indexOf s needle pre : occurs s needle pre → ∃ k, indexOf s needle = Some k.
Proof. intros H. destruct (indexOf s needle) as [k|] eqn:E; [eauto|]. by destruct (indexOf_none _ _ _ E H). Qed.

(** The first place of a unit. *)
Lemma indexOf_unit c a b : c ∉ a → indexOf (a ++ c :: b) [c] = Some (length a).
Proof.
  intros Ha. unfold indexOf. cut (∀ i, indexOf_from i (a ++ c :: b) [c] = Some (i + length a)); [by intros H; rewrite H|].
  induction a as [|d a IH]; intros i; simpl; unfold startsWith.
  - rewrite bool_decide_eq_true_2 by (by exists b). f_equal. lia.
  - apply not_elem_of_cons in Ha as [Hd Ha]. rewrite bool_decide_eq_false_2.
    + rewrite IH by done. f_equal. lia.
    + by intros ?%prefix_cons_inv_1.
Qed.

(** ** Line starts *)

(** Every line after the first starts with a unit of [P]. *)
Section LineStarts.
Context (P : N → Prop).
Fixpoint line_starts (s : jsstr) : Prop :=
  match s with
  | [] => True
  | c :: s' => (c = newline → match s' with d :: _ => P d | [] => False end) ∧ line_starts s'
  end.
Lemma line_starts_app a b : line_starts a → line_starts b → line_starts (a ++ b).
Proof.
  induction a as [|c a IH]; [done|]. simpl. intros [Hc Ha] Hb. split; [|by apply IH].
  intros ->. destruct a as [|d a]; [by destruct Hc|by apply Hc].
Qed.
Lemma line_starts_flat s : newline ∉ s → line_starts s.
Proof. induction s as [|c s IH]; [done|]. intros [Hc Hs]%not_elem_of_cons. simpl. split; [congruence|by apply IH]. Qed.
Lemma line_starts_unit c : c ≠ newline → line_starts [c].
Proof. by split. Qed.
End LineStarts.
Lemma line_starts_impl (P Q : N → Prop) s : (∀ d, P d → Q d) → line_starts P s → line_starts Q s.
Proof.
  intros HPQ. induction s as [|c s IH]; [done|]. simpl. intros [Hc Hs]. split; [|by apply IH].
  intros ->. destruct s; [by apply Hc|]. by apply HPQ, Hc.
Qed.

(** A line that starts unlike all lines before it is where it is found. *)
Lemma indexOf_line (P : N → Prop) a s x needle :
  line_starts P a → ¬ P x → newline :: x :: needle `prefix_of` s →
  indexOf (a ++ s) (newline :: x :: needle) = Some (length a).
Proof.
  intros Ha Hx Hs. destruct (indexOf (a ++ s) (newline :: x :: needle)) as [k|] eqn:E.
  - apply indexOf_occurs in E as (Hk & [post Hp] & Hf).
    assert (Hle : k ≤ length a) by (destruct Hs as [post' ->]; apply (Hf a); by exists post').
    destruct (decide (k = length a)) as [->|Hne]; [done|exfalso].
    assert (Hpre : take k (a ++ s) = take k a) by (rewrite take_app_le by lia; done).
    rewrite Hpre in Hp. assert (Hdrop : drop k a ++ s = newline :: x :: needle ++ post).
    { apply (app_inv_head (take k a)). by rewrite app_assoc, take_drop, Hp. }
    assert (Hst : line_starts P (drop k a)).
    { clear -Ha. revert k. induction a as [|c a IH]; intros [|k]; try done. simpl. apply IH, Ha. }
    destruct (drop k a) as [|c [|d r]] eqn:Ed.
    + apply (f_equal length) in Ed. rewrite length_drop in Ed. simpl in Ed. lia.
    + injection Hdrop as -> _. by apply Hst.
    + injection Hdrop as -> -> _. by apply Hx, Hst.
  - exfalso. destruct Hs as [post ->]. by apply (indexOf_none _ _ a E); exists post.
Qed.
