(* ===== verification/Json.v ===== *)
(** JSON values, [JSON.stringify] and [JSON.parse].

    An object is the list of its properties in their order of enumeration.  A
    number without fraction and exponent is its exact value; another literal is
    kept as its text.  The parser keeps the order of the text and lets a later
    duplicate overwrite the value in place, as an object does whose keys are not
    array indices. *)

From S2P Require Import Prelude JsString.
Open Scope nat_scope.

Inductive json :=
| JNull
| JBool (b : bool)
| JNum (n : Z)
| JDec (literal : jsstr)
| JStr (s : jsstr)
| JArr (l : list json)
| JObj (l : list (jsstr * json)).

(** ** Printing *)

Definition hex_char (d : N) : N := if (d <? 10)%N then (48 + d)%N else (87 + d)%N.
Definition unicode_escape (c : N) : jsstr :=
  92%N :: 117%N :: map hex_char [c / 4096; (c / 256) mod 16; (c / 16) mod 16; c mod 16]%N.
Definition is_high (c : N) : bool := ((55296 <=? c) && (c <=? 56319))%N.
Definition is_low (c : N) : bool := ((56320 <=? c) && (c <=? 57343))%N.

(** A unit that is not part of a surrogate pair. *)
Definition quote_unit (c : N) : jsstr :=
  if (c =? 34)%N || (c =? 92)%N then [92%N; c]
  else if (c =? 8)%N then js "\b" else if (c =? 9)%N then js "\t" else if (c =? 10)%N then js "\n"
  else if (c =? 12)%N then js "\f" else if (c =? 13)%N then js "\r"
  else if (c <? 32)%N || is_high c || is_low c then unicode_escape c
  else [c].
Fixpoint quote_units (s : jsstr) : jsstr :=
  match s with
  | [] => []
  | c :: s' =>
      match s' with
      | d :: s'' => if is_high c && is_low d then c :: d :: quote_units s'' else quote_unit c ++ quote_units s'
      | [] => quote_unit c
      end
  end.
Definition quote (s : jsstr) : jsstr := 34%N :: quote_units s ++ [34%N].

(** [JSON.stringify(v)] and, when [pretty], [JSON.stringify(v, null, 2)], of a
    value at a depth. *)
Definition line_break (pretty : bool) (level : nat) : jsstr :=
  if pretty then newline :: replicate (2 * level) 32%N else [].
Definition colon (pretty : bool) : jsstr := if pretty then js ": " else js ":".
Fixpoint stringify_at (pretty : bool) (level : nat) (v : json) : jsstr :=
  match v with
  | JNull => js "null"
  | JBool b => js (if b then "true" else "false")
  | JNum n => show_Z n
  | JDec s => s
  | JStr s => quote s
  | JArr [] => js "[]"
  | JArr l =>
      let br := line_break pretty (S level) in
      js "[" ++ join (js ",") (map (λ x, br ++ stringify_at pretty (S level) x) l) ++
      line_break pretty level ++ js "]"
  | JObj [] => js "{}"
  | JObj l =>
      let br := line_break pretty (S level) in
      js "{" ++ join (js ",")
        (map (λ kv, br ++ quote kv.1 ++ colon pretty ++ stringify_at pretty (S level) kv.2) l) ++
      line_break pretty level ++ js "}"
  end.
Definition stringify (v : json) : jsstr := stringify_at false 0 v.
Definition stringify_pretty (v : json) : jsstr := stringify_at true 0 v.

(** ** Parsing *)

Definition is_ws (c : N) : bool := ((c =? 32) || (c =? 9) || (c =? 10) || (c =? 13))%N.
Fixpoint skip_ws (s : jsstr) : jsstr :=
  match s with c :: s' => if is_ws c then skip_ws s' else s | [] => [] end.

Definition unescape (c : N) : option N :=
  if (c =? 34)%N || (c =? 92)%N || (c =? 47)%N then Some c
  else if (c =? 98)%N then Some 8%N else if (c =? 102)%N then Some 12%N
  else if (c =? 110)%N then Some 10%N else if (c =? 114)%N then Some 13%N
  else if (c =? 116)%N then Some 9%N else None.
Definition hex4 (a b c d : N) : option N :=
  a ← hex_value a; b ← hex_value b; c ← hex_value c; d ← hex_value d;
  Some (Z.to_N (((a * 16 + b) * 16 + c) * 16 + d)).

(** A string after its opening quote. *)
Fixpoint parse_string (s : jsstr) : option (jsstr * jsstr) :=
  match s with
  | [] => None
  | c :: r =>
      if (c =? 34)%N then Some ([], r)
      else if (c =? 92)%N then
        match r with
        | e :: r1 =>
            if (e =? 117)%N then
              match r1 with
              | h1 :: h2 :: h3 :: h4 :: r2 =>
                  u ← hex4 h1 h2 h3 h4; p ← parse_string r2; Some (u :: p.1, p.2)
              | _ => None
              end
            else u ← unescape e; p ← parse_string r1; Some (u :: p.1, p.2)
        | [] => None
        end
      else if (c <? 32)%N then None
      else p ← parse_string r; Some (c :: p.1, p.2)
  end.

(** A fraction and an exponent, possibly empty. *)
Definition parse_frac (s : jsstr) : option (jsstr * jsstr) :=
  match s with
  | 46%N :: r => match span_digits r with ([], _) => None | (ds, r') => Some (46%N :: ds, r') end
  | _ => Some ([], s)
  end.
Definition parse_exp (s : jsstr) : option (jsstr * jsstr) :=
  match s with
  | c :: r =>
      if (c =? 101)%N || (c =? 69)%N then
        let '(sign, r1) := match r with d :: r' => if (d =? 43)%N || (d =? 45)%N then ([d], r') else ([], r) | [] => ([], r) end in
        match span_digits r1 with ([], _) => None | (ds, r') => Some (c :: sign ++ ds, r') end
      else Some ([], s)
  | [] => Some ([], s)
  end.
Definition parse_number (s : jsstr) : option (json * jsstr) :=
  let '(sign, s1) := match s with 45%N :: r => (js "-", r) | _ => ([], s) end in
  let '(ds, s2) := span_digits s1 in
  match ds with
  | [] => None
  | 48%N :: _ :: _ => None
  | _ =>
      f ← parse_frac s2; e ← parse_exp f.2;
      Some (match f.1, e.1 with
            | [], [] => JNum (match sign with [] => digits_value 0 ds | _ => - digits_value 0 ds end)
            | _, _ => JDec (sign ++ ds ++ f.1 ++ e.1)
            end, e.2)
  end.

(** A later property of the same name overwrites the value. *)
Fixpoint set_key (k : jsstr) (v : json) (l : list (jsstr * json)) : list (jsstr * json) :=
  match l with
  | [] => [(k, v)]
  | kv :: l' => if bool_decide (kv.1 = k) then (k, v) :: l' else kv :: set_key k v l'
  end.
Definition build_object (l : list (jsstr * json)) : json := JObj (foldl (λ o kv, set_key kv.1 kv.2 o) [] l).

(** What follows the unit [c]. *)
Definition after (c : N) (s : jsstr) : option jsstr :=
  match s with d :: r => if (d =? c)%N then Some r else None | [] => None end.
Fixpoint parse_value (fuel : nat) (s : jsstr) : option (json * jsstr) :=
  match fuel with
  | O => None
  | S fuel =>
      match skip_ws s with
      | [] => None
      | c :: r =>
          if (c =? 34)%N then p ← parse_string r; Some (JStr p.1, p.2)
          else if (c =? 91)%N then
            match after 93%N (skip_ws r) with
            | Some r' => Some (JArr [], r')
            | None => p ← parse_elems fuel (skip_ws r); Some (JArr p.1, p.2)
            end
          else if (c =? 123)%N then
            match after 125%N (skip_ws r) with
            | Some r' => Some (JObj [], r')
            | None => p ← parse_members fuel (skip_ws r); Some (build_object p.1, p.2)
            end
          else if startsWith (c :: r) (js "null") then Some (JNull, drop 4 (c :: r))
          else if startsWith (c :: r) (js "true") then Some (JBool true, drop 4 (c :: r))
          else if startsWith (c :: r) (js "false") then Some (JBool false, drop 5 (c :: r))
          else parse_number (c :: r)
      end
  end
with parse_elems (fuel : nat) (s : jsstr) : option (list json * jsstr) :=
  match fuel with
  | O => None
  | S fuel =>
      v ← parse_value fuel s;
      match skip_ws v.2 with
      | 44%N :: r => p ← parse_elems fuel r; Some (v.1 :: p.1, p.2)
      | 93%N :: r => Some ([v.1], r)
      | _ => None
      end
  end
with parse_members (fuel : nat) (s : jsstr) : option (list (jsstr * json) * jsstr) :=
  match fuel with
  | O => None
  | S fuel =>
      match skip_ws s with
      | 34%N :: r =>
          k ← parse_string r;
          match skip_ws k.2 with
          | 58%N :: r1 =>
              v ← parse_value fuel r1;
              match skip_ws v.2 with
              | 44%N :: r2 => p ← parse_members fuel r2; Some ((k.1, v.1) :: p.1, p.2)
              | 125%N :: r2 => Some ([(k.1, v.1)], r2)
              | _ => None
              end
          | _ => None
          end
      | _ => None
      end
  end.

(** [JSON.parse(s)], [None] when it throws. *)
Definition parse (s : jsstr) : option json :=
  p ← parse_value (S (length s)) s;
  match skip_ws p.2 with [] => Some p.1 | _ => None end.

Definition demo_json : json :=
  JObj [(js "a b", JArr [JNum 0; JNum (-120); JBool true; JNull]); (js "c", JObj []); (js "d", JStr (10%N :: 34%N :: 31%N :: js "x\"))].
Example parse_demo : parse (stringify demo_json) = Some demo_json ∧ parse (stringify_pretty demo_json) = Some demo_json.
Proof. by vm_compute. Qed.
Example parse_duplicate : parse (123%N :: quote (js "a") ++ js ":1.5," ++ quote (js "a") ++ js ":2e3}") = Some (JObj [(js "a", JDec (js "2e3"))]).
Proof. by vm_compute. Qed.

(** ** Induction over nested values *)

Section JsonInd.
Context (P : json → Prop)
  (Hnull : P JNull) (Hbool : ∀ b, P (JBool b)) (Hnum : ∀ n, P (JNum n)) (Hdec : ∀ s, P (JDec s)) (Hstr : ∀ s, P (JStr s))
  (Harr : ∀ l, Forall P l → P (JArr l)) (Hobj : ∀ l, Forall (λ kv, P kv.2) l → P (JObj l)).
Fixpoint json_nested_ind (v : json) : P v :=
  match v with
  | JNull => Hnull | JBool b => Hbool b | JNum n => Hnum n | JDec s => Hdec s | JStr s => Hstr s
  | JArr l => Harr l ((fix go l : Forall P l :=
      match l with [] => List.Forall_nil _ | x :: l' => List.Forall_cons _ x l' (json_nested_ind x) (go l') end) l)
  | JObj l => Hobj l ((fix go l : Forall (λ kv, P kv.2) l :=
      match l with [] => List.Forall_nil _ | x :: l' => List.Forall_cons _ x l' (json_nested_ind x.2) (go l') end) l)
  end.
End JsonInd.

(** ** Strings *)

Lemma hex_value_char d : (d < 16)%N → hex_value (hex_char d) = Some (Z.of_N d).
Proof.
  intros Hd. unfold hex_value, hex_char, is_digit.
  destruct (N.ltb_spec d 10).
  - rewrite (proj2 (N.leb_le 48 (48 + d))), (proj2 (N.leb_le (48 + d) 57)) by lia. simpl. f_equal. lia.
  - rewrite (proj2 (N.leb_gt (87 + d) 57)), andb_false_r by lia.
    rewrite (proj2 (N.leb_le 97 (87 + d))), (proj2 (N.leb_le (87 + d) 102)) by lia. simpl. f_equal. lia.
Qed.

Lemma hex4_escape c : (c < 65536)%N →
  hex4 (hex_char (c / 4096)) (hex_char ((c / 256) mod 16)) (hex_char ((c / 16) mod 16)) (hex_char (c mod 16)) = Some c.
Proof.
  intros Hc. unfold hex4.
  assert (c / 4096 < 16)%N by (apply N.Div0.div_lt_upper_bound; lia).
  rewrite !hex_value_char by (done || (apply N.mod_lt; done)). simpl. f_equal.
  rewrite !N2Z.inj_mod, !N2Z.inj_div. change (Z.of_N 4096) with (16 * (16 * 16))%Z. change (Z.of_N 256) with (16 * 16)%Z.
  change (Z.of_N 16) with 16%Z. rewrite <- !Z.div_div by lia. apply Z2N.inj_iff || idtac.
  set (z := Z.of_N c). replace c with (Z.to_N z) by (subst z; apply N2Z.id). f_equal.
  pose proof (Z.div_mod z 16). pose proof (Z.div_mod (z / 16) 16). pose proof (Z.div_mod (z / 16 / 16) 16). lia.
Qed.

Lemma parse_string_unit c s : (is_high c || is_low c = true → (c < 65536)%N) →
  parse_string (quote_unit c ++ s) = (p ← parse_string s; Some (c :: p.1, p.2)).
Proof.
  intros Hs. unfold quote_unit.
  destruct (N.eqb_spec c 34) as [->|]; [done|]. destruct (N.eqb_spec c 92) as [->|]; [done|].
  cbn [orb]. repeat (match goal with |- context [(c =? ?k)%N] => destruct (N.eqb_spec c k) as [->|]; [done|] end).
  destruct (_ || _ || _) eqn:E.
  - assert (Hc : (c < 65536)%N).
    { destruct (N.ltb_spec c 32); [lia|]. apply Hs. done. }
    unfold unicode_escape. simpl. rewrite hex4_escape by done. done.
  - apply orb_false_iff in E as [[E _]%orb_false_iff _]. simpl.
    rewrite (proj2 (N.eqb_neq c 34)), (proj2 (N.eqb_neq c 92)), E by done. done.
Qed.

Lemma surrogate_bound c : is_high c || is_low c = true → (c < 65536)%N.
Proof. unfold is_high, is_low. rewrite orb_true_iff, !andb_true_iff, !N.leb_le. lia. Qed.

Lemma parse_string_plain c s : (93 < c)%N → parse_string (c :: s) = (p ← parse_string s; Some (c :: p.1, p.2)).
Proof.
  intros Hc. simpl. rewrite (proj2 (N.eqb_neq c 34)), (proj2 (N.eqb_neq c 92)), (proj2 (N.ltb_ge c 32)) by lia. done.
Qed.

(** What [JSON.stringify] prints for a string is read back. *)
Lemma parse_string_quote s rest : parse_string (quote_units s ++ 34%N :: rest) = Some (s, rest).
Proof.
  remember (length s) as n eqn:Hn. revert s Hn. induction n as [n IH] using lt_wf_ind. intros s ->.
  destruct s as [|c s]; [done|]. simpl. destruct s as [|d s].
  - rewrite parse_string_unit by apply surrogate_bound. done.
  - destruct (is_high c && is_low d) eqn:E.
    + apply andb_true_iff in E as [Hc Hd]. unfold is_high, is_low in Hc, Hd.
      apply andb_true_iff in Hc as [?%N.leb_le ?], Hd as [?%N.leb_le ?]. cbn [app].
      rewrite !parse_string_plain by lia. rewrite (IH (length s)) by (simpl; lia || done). done.
    + rewrite <- app_assoc, parse_string_unit by apply surrogate_bound. rewrite (IH (length (d :: s))) by (simpl; lia || done). done.
Qed.

(** ** Numbers *)

(** What may follow a number. *)
Definition num_end (rest : jsstr) : Prop :=
  match rest with
  | c :: _ => is_digit c = false ∧ c ≠ 46%N ∧ c ≠ 101%N ∧ c ≠ 69%N
  | [] => True
  end.

Lemma span_digits_app s rest :
  match rest with c :: _ => is_digit c = false | [] => True end →
  span_digits (s ++ rest) = ((span_digits s).1, (span_digits s).2 ++ rest).
Proof.
  intros Hr. induction s as [|c s IH]; simpl.
  - destruct rest as [|c rest]; [done|]. simpl. by rewrite Hr.
  - destruct (is_digit c); [|done]. rewrite IH. by destruct (span_digits s).
Qed.

Lemma span_digits_all ds : Forall (λ c, is_digit c = true) ds → span_digits ds = (ds, []).
Proof. induction 1 as [|c ds Hc _ IH]; [done|]. simpl. by rewrite Hc, IH. Qed.

(** The digits of [n], without a leading zero, have the value of [n]. *)
Lemma show_digits_spec fuel n acc :
  (0 <= n < 2 ^ Z.of_nat fuel)%Z → 0 < fuel →
  ∃ ds, show_digits fuel n acc = ds ++ acc ∧ Forall (λ c, is_digit c = true) ds ∧
    (∀ m t, digits_value m (ds ++ t) = digits_value (10 ^ Z.of_nat (length ds) * m + n) t) ∧
    (match ds with [] => False | [c] => True | c :: _ => c ≠ 48%N end) ∧ (0 < n → match ds with c :: _ => c ≠ 48%N | [] => False end)%Z.
Proof.
  revert n acc. induction fuel as [|fuel IH]; intros n acc Hn Hf; [lia|]. simpl.
  pose proof (Z.mod_pos_bound n 10 ltac:(lia)) as Hm. pose proof (Z.div_mod n 10 ltac:(lia)) as Hd.
  assert (Hdig : is_digit (Z.to_N (48 + n mod 10)) = true) by (unfold is_digit; rewrite andb_true_iff, !N.leb_le; lia).
  assert (Hval : (Z.of_N (Z.to_N (48 + n mod 10)) - 48 = n mod 10)%Z) by lia.
  destruct (Z.ltb_spec n 10).
  - exists [Z.to_N (48 + n mod 10)]. split; [done|]. split; [by repeat constructor|]. split; [|split; [done|]].
    + intros m t. simpl. rewrite Hdig, Hval. f_equal. rewrite Z.mod_small by lia. lia.
    + intros H0. rewrite Z.mod_small by lia. lia.
  - assert (0 < fuel) by (destruct fuel; [simpl in Hn; lia|lia]).
    destruct (IH (n / 10)%Z (Z.to_N (48 + n mod 10) :: acc)) as (ds & He & Hf' & Hv & Hz & Hp); [|done|].
    { split; [apply Z.div_pos; lia|]. apply Z.div_lt_upper_bound; [lia|]. rewrite Nat2Z.inj_succ, Z.pow_succ_r in Hn by lia. lia. }
    exists (ds ++ [Z.to_N (48 + n mod 10)]). split; [by rewrite He, <- app_assoc|].
    split; [apply Forall_app; by repeat constructor|].
    assert (Hp' : match ds with c :: _ => c ≠ 48%N | [] => False end) by (apply Hp; lia).
    split; [|split].
    + intros m t. rewrite <- app_assoc, Hv. simpl. rewrite Hdig, Hval, length_app. simpl.
      rewrite Nat2Z.inj_add, Z.pow_add_r by lia. f_equal. lia.
    + destruct ds as [|c ds]; [done|]. simpl. destruct (ds ++ _); done.
    + intros _. by destruct ds.
Qed.

Lemma show_nonneg n : (0 <= n)%Z → ∃ ds, show_digits (S (Z.to_nat (Z.log2 n))) n [] = ds ∧
  Forall (λ c, is_digit c = true) ds ∧ digits_value 0 ds = n ∧
  match ds with [] => False | [c] => True | c :: _ => c ≠ 48%N end.
Proof.
  intros Hn. destruct (show_digits_spec (S (Z.to_nat (Z.log2 n))) n []) as (ds & He & Hf & Hv & Hz & _); [|lia|].
  - split; [done|]. rewrite Nat2Z.inj_succ, Z2Nat.id by apply Z.log2_nonneg.
    destruct (Z.eq_dec n 0%Z) as [->|]; [done|]. apply Z.log2_spec. lia.
  - exists ds. rewrite He, app_nil_r. split; [done|]. split; [done|]. split; [|done].
    specialize (Hv 0%Z []). rewrite app_nil_r, Z.mul_0_r in Hv. done.
Qed.

Lemma parse_frac_end rest : num_end rest → parse_frac rest = Some ([], rest).
Proof.
  destruct rest as [|c rest]; [done|]. intros (_ & H & _). unfold parse_frac.
  destruct c as [|p]; [done|]. by repeat (destruct p as [p|p|]; try done).
Qed.
Lemma parse_exp_end rest : num_end rest → parse_exp rest = Some ([], rest).
Proof.
  destruct rest as [|c rest]; [done|]. intros (_ & _ & H & H'). unfold parse_exp.
  by rewrite (proj2 (N.eqb_neq c 101)), (proj2 (N.eqb_neq c 69)).
Qed.

Lemma parse_digits ds rest :
  Forall (λ c, is_digit c = true) ds → match ds with [] => False | [c] => True | c :: _ => c ≠ 48%N end →
  num_end rest → parse_number (ds ++ rest) = Some (JNum (digits_value 0 ds), rest) ∧
  parse_number (45%N :: ds ++ rest) = Some (JNum (- digits_value 0 ds), rest).
Proof.
  intros Hf Hz Hr.
  assert (Hs : span_digits (ds ++ rest) = (ds, rest)).
  { rewrite span_digits_app by (destruct rest; [done|apply Hr]). by rewrite span_digits_all. }
  destruct ds as [|c ds]; [done|].
  assert (Hc : is_digit c = true) by (by inversion Hf). 
  unfold parse_number. cbn [app].
  assert (Hsign : (match c :: ds ++ rest with 45%N :: r => (js "-", r) | _ => ([], c :: ds ++ rest) end) = ([], c :: ds ++ rest)).
  { unfold is_digit in Hc. apply andb_true_iff in Hc as [Hc _]. apply N.leb_le in Hc.
    destruct c as [|p]; [done|]. repeat (destruct p as [p|p|]; try done; try lia). }
  rewrite Hsign. change (c :: ds ++ rest) with ((c :: ds) ++ rest). rewrite Hs.
  assert (Hz' : ∀ A (a b : A), (match c :: ds with [] => a | 48%N :: _ :: _ => a | _ => b end) = b).
  { intros A a b. destruct ds as [|d ds]; [destruct c as [|p]; [done|]; by repeat (destruct p as [p|p|]; try done)|].
    destruct c as [|p]; [done|]; by repeat (destruct p as [p|p|]; try done). }
  rewrite !Hz', (parse_frac_end _ Hr). cbn [mbind option_bind fst snd]. rewrite (parse_exp_end _ Hr). done.
Qed.

Lemma parse_show_Z n rest : num_end rest → parse_number (show_Z n ++ rest) = Some (JNum n, rest).
Proof.
  intros Hr. unfold show_Z. destruct (Z.ltb_spec n 0).
  - destruct (show_nonneg (- n)%Z) as (ds & -> & Hf & Hv & Hz); [lia|]. cbn [app js].
    destruct (parse_digits ds rest Hf Hz Hr) as [_ Hp]. change (js "-" ++ ds) with (45%N :: ds). cbn [app].
    rewrite Hp, Hv. do 3 f_equal. lia.
  - destruct (show_nonneg n) as (ds & -> & Hf & Hv & Hz); [lia|]. destruct (parse_digits ds rest Hf Hz Hr) as [Hp _].
    by rewrite Hp, Hv.
Qed.

(** A literal of its own is read the same before what may follow a number. *)
Lemma parse_frac_app s rest f r : parse_frac s = Some (f, r) → num_end rest → parse_frac (s ++ rest) = Some (f, r ++ rest).
Proof.
  intros Hs Hr. assert (Hd : match rest with c :: _ => is_digit c = false | [] => True end) by (destruct rest; [done|apply Hr]).
  destruct s as [|c s]; [injection Hs as <- <-; by apply parse_frac_end|].
  destruct (N.eqb_spec c 46) as [->|Hc].
  - simpl in *. rewrite span_digits_app by done. destruct (span_digits s) as [[|d ds] r']; [done|]. by injection Hs as <- <-.
  - assert (Hn : ∀ t, parse_frac (c :: t) = Some ([], c :: t)).
    { intros t. unfold parse_frac. destruct c as [|p]; [done|]. by repeat (destruct p as [p|p|]; try done). }
    rewrite Hn in Hs. injection Hs as <- <-. apply Hn.
Qed.
Lemma parse_exp_app s rest f r : parse_exp s = Some (f, r) → num_end rest → parse_exp (s ++ rest) = Some (f, r ++ rest).
Proof.
  intros Hs Hr. assert (Hd : match rest with c :: _ => is_digit c = false | [] => True end) by (destruct rest; [done|apply Hr]).
  destruct s as [|c s]; [injection Hs as <- <-; by apply parse_exp_end|]. simpl in *.
  destruct (_ || _); [|by injection Hs as <- <-]. destruct s as [|d s]; [done|]. simpl.
  destruct (_ || _).
  - rewrite span_digits_app by done. destruct (span_digits s) as [[|x ds] r']; [done|]. by injection Hs as <- <-.
  - change (d :: s ++ rest) with ((d :: s) ++ rest). rewrite span_digits_app by done.
    destruct (span_digits (d :: s)) as [[|x ds] r']; [done|]. by injection Hs as <- <-.
Qed.
Lemma parse_number_app s rest v : parse_number s = Some (v, []) → num_end rest → parse_number (s ++ rest) = Some (v, rest).
Proof.
  intros Hs Hr. assert (Hd : match rest with c :: _ => is_digit c = false | [] => True end) by (destruct rest; [done|apply Hr]).
  destruct s as [|c s]; [done|]. unfold parse_number in *. cbn [app].
  assert (Hsign : ∃ sg s1, (∀ t, (match c :: s ++ t with 45%N :: r => (js "-", r) | _ => ([], c :: s ++ t) end) = (sg, s1 ++ t))).
  { destruct (N.eqb_spec c 45) as [->|Hc]; [exists (js "-"), s; done|]. exists [], (c :: s). intros t.
    destruct c as [|p]; [done|]. by repeat (destruct p as [p|p|]; try done). }
  destruct Hsign as (sg & s1 & Hsign). rewrite Hsign. specialize (Hsign []). rewrite !app_nil_r in Hsign. rewrite Hsign in Hs.
  rewrite span_digits_app by done. destruct (span_digits s1) as [ds s2]. cbn [fst snd] in *.
  destruct ds as [|d ds]; [done|].
  assert (Hz : (∀ A (a b : A), (match d :: ds with [] => a | 48%N :: _ :: _ => a | _ => b end) = b) ∨
               (∀ A (a b : A), (match d :: ds with [] => a | 48%N :: _ :: _ => a | _ => b end) = a)).
  { destruct (N.eqb_spec d 48) as [->|Hc]; [destruct ds; [by left|by right]|left]. intros A a b.
    destruct d as [|p]; [done|]. by repeat (destruct p as [p|p|]; try done). }
  destruct Hz as [Hz|Hz]; rewrite Hz in *; [|done].
  destruct (parse_frac s2) as [[f s3]|] eqn:Ef; [|done]. simpl in Hs.
  destruct (parse_exp s3) as [[e s4]|] eqn:Ee; [|done]. simpl in Hs. injection Hs as <- ->.
  rewrite (parse_frac_app _ _ _ _ Ef Hr). simpl. by rewrite (parse_exp_app _ _ _ _ Ee Hr).
Qed.

(** ** Values *)

(** What is not a number literal made up: decimals are literals, and the
    properties of an object have different names. *)
Fixpoint json_ok (v : json) : Prop :=
  match v with
  | JDec s => parse_number s = Some (JDec s, [])
  | JArr l => foldr (λ x P, json_ok x ∧ P) True l
  | JObj l => NoDup (map fst l) ∧ foldr (λ kv P, json_ok kv.2 ∧ P) True l
  | _ => True
  end.

Lemma foldr_and {A} (P : A → Prop) l : foldr (λ x Q, P x ∧ Q) True l ↔ Forall P l.
Proof. induction l as [|x l IH]; simpl; [by rewrite Forall_nil|]. by rewrite Forall_cons, IH. Qed.

Lemma json_ok_obj l : json_ok (JObj l) ↔ NoDup (map fst l) ∧ Forall (λ kv, json_ok kv.2) l.
Proof. simpl. by rewrite (foldr_and (λ kv, json_ok kv.2)). Qed.

Lemma set_key_fresh k v l : k ∉ map fst l → set_key k v l = l ++ [(k, v)].
Proof.
  induction l as [|kv l IH]; simpl; [done|]. intros [Hk Hl]%not_elem_of_cons.
  rewrite bool_decide_eq_false_2 by congruence. by rewrite IH.
Qed.
Lemma build_object_id l : NoDup (map fst l) → build_object l = JObj l.
Proof.
  intros Hl. unfold build_object. f_equal.
  assert (H : ∀ o, NoDup (map fst (o ++ l)) → foldl (λ o kv, set_key kv.1 kv.2 o) o l = o ++ l); [|by apply (H [])].
  clear Hl. induction l as [|[k v] l IH]; intros o Ho; simpl; [by rewrite app_nil_r|].
  assert (Hk : k ∉ map fst o).
  { rewrite map_app in Ho. apply NoDup_app in Ho as (_ & Ho & _). intros Hin. apply (Ho k Hin). left. }
  rewrite set_key_fresh by done. rewrite IH; rewrite <- app_assoc; done.
Qed.

Lemma skip_ws_app w s : Forall (λ c, is_ws c = true) w → skip_ws (w ++ s) = skip_ws s.
Proof. induction 1 as [|c w Hc _ IH]; [done|]. simpl. by rewrite Hc. Qed.
Lemma line_break_ws pretty level : Forall (λ c, is_ws c = true) (line_break pretty level).
Proof. destruct pretty; [|constructor]. constructor; [done|]. by apply Forall_replicate. Qed.
Lemma skip_ws_id c s : is_ws c = false → skip_ws (c :: s) = c :: s.
Proof. intros H. simpl. by rewrite H. Qed.

Lemma skip_ws_idemp s : skip_ws (skip_ws s) = skip_ws s.
Proof. induction s as [|c s IH]; [done|]. simpl. destruct (is_ws c) eqn:E; [done|]. simpl. by rewrite E. Qed.
Lemma parse_value_skip fuel s : parse_value fuel (skip_ws s) = parse_value fuel s.
Proof. destruct fuel; [done|]. simpl. by rewrite skip_ws_idemp. Qed.
Lemma parse_elems_skip fuel s : parse_elems fuel (skip_ws s) = parse_elems fuel s.
Proof. destruct fuel; [done|]. simpl. by rewrite parse_value_skip. Qed.
Lemma parse_members_skip fuel s : parse_members fuel (skip_ws s) = parse_members fuel s.
Proof. destruct fuel; [done|]. simpl. by rewrite skip_ws_idemp. Qed.
Lemma parse_value_ws fuel w s : Forall (λ c, is_ws c = true) w → parse_value fuel (w ++ s) = parse_value fuel s.
Proof. intros H. by rewrite <- parse_value_skip, skip_ws_app, parse_value_skip. Qed.

(** How a number starts. *)
Lemma number_head s v : parse_number s = Some v → ∃ c t, s = c :: t ∧ (c = 45%N ∨ is_digit c = true).
Proof.
  intros H. destruct s as [|c s]; [done|]. exists c, s. split; [done|].
  destruct (N.eqb_spec c 45) as [->|Hc]; [by left|]. right. unfold parse_number in H.
  assert (Hs : (match c :: s with 45%N :: r => (js "-", r) | _ => ([], c :: s) end) = ([], c :: s)).
  { destruct c as [|p]; [done|]. by repeat (destruct p as [p|p|]; try done). }
  rewrite Hs in H. simpl in H. by destruct (is_digit c).
Qed.
Lemma number_head_plain c : c = 45%N ∨ is_digit c = true → (45 <= c <= 57)%N.
Proof. intros [->|H]; [lia|]. unfold is_digit in H. apply andb_true_iff in H as [?%N.leb_le ?%N.leb_le]. lia. Qed.

Lemma parse_value_number fuel s v : parse_number s = Some v → parse_value (S fuel) s = Some v.
Proof.
  intros H. destruct (number_head s v H) as (c & t & -> & Hc%number_head_plain). cbn [parse_value].
  assert (Hw : is_ws c = false) by (unfold is_ws; rewrite !orb_false_iff, !N.eqb_neq; lia). rewrite skip_ws_id by done.
  rewrite (proj2 (N.eqb_neq c 34)), (proj2 (N.eqb_neq c 91)), (proj2 (N.eqb_neq c 123)) by lia.
  assert (Hp : ∀ d r, (57 < d)%N → startsWith (c :: t) (d :: r) = false).
  { intros d r Hd. apply bool_decide_eq_false_2. intros [k [= -> _]]. lia. }
  change (js "null") with (110%N :: js "ull"). change (js "true") with (116%N :: js "rue"). change (js "false") with (102%N :: js "alse").
  by rewrite !Hp by lia.
Qed.

Lemma parse_show_Z_nil n : parse_number (show_Z n) = Some (JNum n, []).
Proof. pose proof (parse_show_Z n [] I) as H. by rewrite app_nil_r in H. Qed.

(** The first unit of a printed value. *)
Lemma stringify_head pretty level v : json_ok v →
  ∃ c t, stringify_at pretty level v = c :: t ∧ is_ws c = false ∧ c ≠ 93%N ∧ c ≠ 125%N.
Proof.
  intros Hv. assert (Hnum : ∀ s w, parse_number s = Some w → ∃ c t, s = c :: t ∧ is_ws c = false ∧ c ≠ 93%N ∧ c ≠ 125%N).
  { intros s w H. destruct (number_head s w H) as (c & t & -> & Hc%number_head_plain). exists c, t. split; [done|].
    split; [unfold is_ws; rewrite !orb_false_iff, !N.eqb_neq|]; lia. }
  destruct v as [|[]|n|s|s|[|x l]|[|x l]]; try (by do 2 eexists).
  - simpl. eapply Hnum, parse_show_Z_nil.
  - simpl. by eapply Hnum.
Qed.

Definition reads_back (pretty : bool) (level : nat) (v : json) : Prop :=
  ∀ fuel rest, num_end rest → length (stringify_at pretty level v) ≤ fuel →
  parse_value fuel (stringify_at pretty level v ++ rest) = Some (v, rest).

Lemma num_end_break pretty level c rest : c = 93%N ∨ c = 125%N → num_end (line_break pretty level ++ c :: rest).
Proof. intros [-> | ->]; by destruct pretty. Qed.
Lemma skip_break pretty level c rest : is_ws c = false → skip_ws (line_break pretty level ++ c :: rest) = c :: rest.
Proof. intros H. rewrite skip_ws_app by apply line_break_ws. by apply skip_ws_id. Qed.

Lemma join_cons_ne sep x (l : list jsstr) : l ≠ [] → join sep (x :: l) = x ++ sep ++ join sep l.
Proof. by destruct l. Qed.

Lemma skip_key pretty level k r :
  skip_ws (line_break pretty level ++ quote k ++ r) = 34%N :: quote_units k ++ 34%N :: r.
Proof. rewrite skip_ws_app by apply line_break_ws. unfold quote. cbn [app]. by rewrite <- app_assoc. Qed.
#[local] Opaque quote.
#[local] Arguments line_break : simpl never.
#[local] Arguments colon : simpl never.

Lemma parse_elems_spec pretty level out l rest fuel :
  l ≠ [] → Forall (reads_back pretty level) l →
  S (length (join (js ",") (map (λ x, line_break pretty level ++ stringify_at pretty level x) l))) ≤ fuel →
  parse_elems fuel (join (js ",") (map (λ x, line_break pretty level ++ stringify_at pretty level x) l) ++
    line_break pretty out ++ 93%N :: rest) = Some (l, rest).
Proof.
  intros Hne Hf. revert fuel. induction Hf as [|x l Hx Hl IH]; intros fuel Hlen; [done|]. destruct fuel as [|fuel]; [lia|].
  destruct (decide (l = [])) as [->|Hl0].
  - simpl in *. rewrite <- app_assoc, parse_value_ws by apply line_break_ws.
    rewrite Hx by (apply num_end_break; by left) || (rewrite length_app in Hlen; lia). simpl. by rewrite skip_break.
  - simpl map in *. rewrite join_cons_ne in * by (by destruct l). rewrite !length_app in Hlen. simpl in Hlen.
    cbn [parse_elems]. rewrite <- !app_assoc, parse_value_ws by apply line_break_ws. rewrite Hx by done || lia. simpl.
    rewrite IH by done || lia. done.
Qed.

Lemma parse_members_spec pretty level out l rest fuel :
  l ≠ [] → Forall (λ kv, reads_back pretty level kv.2) l →
  S (length (join (js ",") (map (λ kv, line_break pretty level ++ quote kv.1 ++ colon pretty ++ stringify_at pretty level kv.2) l))) ≤ fuel →
  parse_members fuel (join (js ",") (map (λ kv, line_break pretty level ++ quote kv.1 ++ colon pretty ++ stringify_at pretty level kv.2) l) ++
    line_break pretty out ++ 125%N :: rest) = Some (l, rest).
Proof.
  intros Hne Hf. revert fuel. induction Hf as [|[k v] l Hx Hl IH]; intros fuel Hlen; [done|]. destruct fuel as [|fuel]; [lia|].
  assert (Hcol : ∀ r, ∃ w, skip_ws (colon pretty ++ r) = 58%N :: w ++ r ∧ Forall (λ c, is_ws c = true) w).
  { intros r. destruct pretty; [exists [32%N]|exists []]; (split; [done|by repeat constructor]). }
  destruct (decide (l = [])) as [->|Hl0].
  - simpl map in *. simpl join in *. rewrite !length_app in Hlen. cbn [parse_members fst snd] in *. rewrite <- !app_assoc, skip_key.
    rewrite parse_string_quote. cbn [mbind option_bind fst snd]. destruct (Hcol (stringify_at pretty level v ++ line_break pretty out ++ 125%N :: rest)) as (w & -> & Hw).
    rewrite parse_value_ws by done. rewrite Hx by (apply num_end_break; by right) || lia. simpl. by rewrite skip_break.
  - simpl map in *. rewrite join_cons_ne in * by (by destruct l). rewrite !length_app in Hlen. cbn [parse_members fst snd] in *. simpl in Hlen.
    rewrite <- !app_assoc, skip_key. rewrite parse_string_quote. cbn [mbind option_bind fst snd].
    match goal with |- context [skip_ws (colon pretty ++ ?r)] => destruct (Hcol r) as (w & -> & Hw) end.
    rewrite parse_value_ws by done. rewrite Hx by done || lia. simpl. rewrite IH by done || lia. done.
Qed.
#[local] Transparent quote.

Lemma stringify_arr pretty level x l :
  stringify_at pretty level (JArr (x :: l)) = 91%N :: join (js ",")
    (map (λ x, line_break pretty (S level) ++ stringify_at pretty (S level) x) (x :: l)) ++ line_break pretty level ++ [93%N].
Proof. done. Qed.
Lemma stringify_obj pretty level x l :
  stringify_at pretty level (JObj (x :: l)) = 123%N :: join (js ",")
    (map (λ kv, line_break pretty (S level) ++ quote kv.1 ++ colon pretty ++ stringify_at pretty (S level) kv.2) (x :: l)) ++
    line_break pretty level ++ [125%N].
Proof. done. Qed.

(** A list of items printed on lines of their own starts with a unit that is
    no white space after the line break. *)
Lemma skip_items pretty level (c : N) (t : jsstr) (items : list jsstr) r :
  is_ws c = false → ∃ t', skip_ws (join (js ",") ((line_break pretty level ++ c :: t) :: items) ++ r) = c :: t'.
Proof.
  intros Hc. assert (H : ∃ t', join (js ",") ((line_break pretty level ++ c :: t) :: items) = line_break pretty level ++ c :: t').
  { destruct items as [|i items]; [by exists t|]. rewrite join_cons_ne by done. exists (t ++ js "," ++ join (js ",") (i :: items)).
    by rewrite <- app_assoc. }
  destruct H as (t' & ->). rewrite <- app_assoc, skip_ws_app by apply line_break_ws. exists (t' ++ r). cbn [app]. by apply skip_ws_id.
Qed.

Lemma reads_back_arr pretty level x l :
  Forall json_ok (x :: l) → Forall (reads_back pretty (S level)) (x :: l) → reads_back pretty level (JArr (x :: l)).
Proof.
  intros Hok Hb fuel rest Hr Hf. destruct fuel as [|fuel]; [simpl in Hf; lia|].
  rewrite stringify_arr in *. cbn [length] in Hf. rewrite !length_app in Hf. cbn [length] in Hf. cbn [app parse_value]. rewrite skip_ws_id by done.
  cbn [N.eqb Pos.eqb]. rewrite <- app_assoc. apply Forall_cons in Hok as [Hx _].
  destruct (stringify_head pretty (S level) x Hx) as (c & t & Hs & Hc & Hc1 & _).
  match goal with |- context [skip_ws ?r] => assert (Hsk : after 93%N (skip_ws r) = None) end.
  { rewrite map_cons, Hs.
    match goal with |- context [skip_ws (join _ (_ :: ?m) ++ ?r)] => destruct (skip_items pretty (S level) c t m r Hc) as (t' & ->) end.
    simpl. by rewrite (proj2 (N.eqb_neq c 93)). }
  rewrite Hsk, parse_elems_skip, <- app_assoc. cbn [app].
  rewrite parse_elems_spec; [done|done|done|]. lia.
Qed.

Lemma reads_back_obj pretty level kv l :
  NoDup (map fst (kv :: l)) → Forall (λ kv, reads_back pretty (S level) kv.2) (kv :: l) → reads_back pretty level (JObj (kv :: l)).
Proof.
  intros Hnd Hb fuel rest Hr Hf. destruct fuel as [|fuel]; [simpl in Hf; lia|].
  rewrite stringify_obj in *. cbn [length] in Hf. rewrite !length_app in Hf. cbn [length] in Hf. cbn [app parse_value]. rewrite skip_ws_id by done.
  cbn [N.eqb Pos.eqb]. rewrite <- app_assoc.
  match goal with |- context [skip_ws ?r] => assert (Hsk : after 125%N (skip_ws r) = None) end.
  { rewrite map_cons. unfold quote at 1. cbn [app].
    match goal with |- context [skip_ws (join _ ((_ ++ ?c :: ?t) :: ?m) ++ ?r)] => destruct (skip_items pretty (S level) c t m r) as (t' & ->) end; done. }
  rewrite Hsk, parse_members_skip, <- app_assoc. cbn [app].
  rewrite parse_members_spec; [simpl; by rewrite build_object_id|done|done|]. lia.
Qed.

Lemma reads_back_nonempty pretty level v :
  json_ok v → (∀ fuel rest, num_end rest → parse_value (S fuel) (stringify_at pretty level v ++ rest) = Some (v, rest)) →
  reads_back pretty level v.
Proof.
  intros Hv H [|fuel] rest Hr Hf; [|by apply H].
  destruct (stringify_head pretty level _ Hv) as (? & ? & Hs & _). rewrite Hs in Hf. simpl in Hf. lia.
Qed.
Lemma parse_value_stringify pretty v : ∀ level, json_ok v → reads_back pretty level v.
Proof.
  induction v as [|b|n|s|s|l IH|l IH] using json_nested_ind; intros level Hv.
  - by apply reads_back_nonempty.
  - apply reads_back_nonempty; [done|]. by destruct b.
  - apply reads_back_nonempty; [done|]. intros fuel rest Hr. apply parse_value_number. simpl. by apply parse_show_Z.
  - apply reads_back_nonempty; [done|]. intros fuel rest Hr. apply parse_value_number. by apply parse_number_app.
  - apply reads_back_nonempty; [done|]. intros fuel rest Hr. cbn [stringify_at]. unfold quote. cbn [app].
    rewrite <- app_assoc. cbn [parse_value]. rewrite skip_ws_id by done. cbn [N.eqb Pos.eqb app]. by rewrite parse_string_quote.
  - destruct l as [|x l]; [by apply reads_back_nonempty|]. destruct Hv as [Hx Hl].
    assert (Hok : Forall json_ok (x :: l)) by (constructor; [done|by apply foldr_and]).
    apply reads_back_arr; [done|]. rewrite Forall_forall in *. intros y Hy. apply IH; [done|by apply Hok].
  - destruct l as [|kv l]; [by apply reads_back_nonempty|]. destruct Hv as [Hnd [Hx Hl]].
    assert (Hok : Forall (λ kv, json_ok kv.2) (kv :: l)) by (constructor; [done|by apply (foldr_and (λ kv, json_ok kv.2))]).
    apply reads_back_obj; [done|]. rewrite Forall_forall in *. intros y Hy. apply IH; [done|by apply Hok].
Qed.

(** What [JSON.stringify] prints, compactly or indented, is read back. *)
Lemma parse_stringify pretty v : json_ok v → parse (stringify_at pretty 0 v) = Some v.
Proof.
  intros Hv. unfold parse. pose proof (parse_value_stringify pretty v 0 Hv (S (length (stringify_at pretty 0 v))) [] I) as H.
  rewrite app_nil_r in H. by rewrite H by lia.
Qed.

(** ** Line breaks in printed values *)

Lemma quote_units_no_newline s : newline ∉ quote_units s.
Proof.
  assert (Hd : ∀ d, (d < 16)%N → hex_char d ≠ newline).
  { intros d Hd. unfold hex_char, newline. destruct (N.ltb_spec d 10); lia. }
  assert (Hu : ∀ c, newline ∉ quote_unit c).
  { intros c. unfold quote_unit.
    destruct (N.eqb_spec c 10) as [->|]; [set_solver|]. unfold newline in *.
    repeat case_match; try set_solver; bool_to_prop. unfold unicode_escape.
    assert ((c < 65536)%N) by (match goal with H : _ || _ || _ = true |- _ => rewrite !orb_true_iff, N.ltb_lt in H;
      destruct H as [[?|H]|H]; [lia| |]; apply surrogate_bound; rewrite H; by rewrite ?orb_true_r end).
    assert (c / 4096 < 16)%N by (apply N.Div0.div_lt_upper_bound; lia).
    simpl map. rewrite !not_elem_of_cons.
    repeat split; try done; try (apply not_eq_sym, Hd; done || (apply N.mod_lt; done)). apply not_elem_of_nil. }
  remember (length s) as n eqn:Hn. revert s Hn. induction n as [n IH] using lt_wf_ind. intros s ->.
  destruct s as [|c s]; [apply not_elem_of_nil|]. simpl. destruct s as [|d s]; [apply Hu|].
  destruct (is_high c && is_low d) eqn:E.
  - apply andb_true_iff in E as [Hc Hd']. unfold is_high, is_low in Hc, Hd'.
    apply andb_true_iff in Hc as [?%N.leb_le ?], Hd' as [?%N.leb_le ?]. rewrite !not_elem_of_cons. unfold newline.
    split; [lia|]. split; [lia|]. eapply IH; [|done]. simpl. lia.
  - rewrite not_elem_of_app. split; [apply Hu|]. eapply IH; [|done]. simpl. lia.
Qed.
Lemma quote_no_newline s : newline ∉ quote s.
Proof.
  unfold quote. rewrite not_elem_of_cons, not_elem_of_app. split; [done|]. split; [apply quote_units_no_newline|].
  by intros ?%list_elem_of_singleton.
Qed.

Lemma span_digits_split s : s = (span_digits s).1 ++ (span_digits s).2 ∧ Forall (λ c, is_digit c = true) (span_digits s).1.
Proof.
  induction s as [|c s [IH Hf]]; [done|]. simpl. destruct (is_digit c) eqn:Ec; [|done].
  destruct (span_digits s) as [a b]. simpl in *. split; [by rewrite IH at 1|by constructor].
Qed.
Lemma digits_no_newline ds : Forall (λ c, is_digit c = true) ds → newline ∉ ds.
Proof. rewrite Forall_forall. by intros H Hin%H. Qed.
Lemma span_digits_newline s ds r : span_digits s = (ds, r) → newline ∈ s → newline ∈ r.
Proof.
  intros E. destruct (span_digits_split s) as [Hs Hf]. rewrite E in Hs, Hf. simpl in *. rewrite Hs, elem_of_app.
  intros [H|H]; [by apply digits_no_newline in H|done].
Qed.
Lemma parse_frac_newline s f r : parse_frac s = Some (f, r) → newline ∈ s → newline ∈ r.
Proof.
  intros H Hs. destruct s as [|c s]; [by apply not_elem_of_nil in Hs|]. destruct (N.eqb_spec c 46) as [->|Hc].
  - simpl in H. destruct (span_digits s) as [[|d ds] r'] eqn:E; [done|]. injection H as <- <-.
    apply elem_of_cons in Hs as [?|Hs]; [done|]. by eapply span_digits_newline.
  - assert (Hn : parse_frac (c :: s) = Some ([], c :: s)).
    { unfold parse_frac. destruct c as [|p]; [done|]. by repeat (destruct p as [p|p|]; try done). }
    rewrite Hn in H. by injection H as <- <-.
Qed.
Lemma parse_exp_newline s f r : parse_exp s = Some (f, r) → newline ∈ s → newline ∈ r.
Proof.
  intros H Hs. destruct s as [|c s]; [by apply not_elem_of_nil in Hs|]. simpl in H.
  destruct (_ || _) eqn:Ec; [|by injection H as <- <-].
  apply elem_of_cons in Hs as [<-|Hs]; [done|].
  destruct s as [|d s]; [by apply not_elem_of_nil in Hs|]. destruct ((d =? 43)%N || (d =? 45)%N) eqn:Ed.
  - apply elem_of_cons in Hs as [<-|Hs]; [done|]. destruct (span_digits s) as [[|x ds] r'] eqn:E; [done|].
    injection H as <- <-. by eapply span_digits_newline.
  - destruct (span_digits (d :: s)) as [[|x ds] r'] eqn:E; [done|]. injection H as <- <-. by eapply span_digits_newline.
Qed.
Lemma number_no_newline s v : parse_number s = Some (v, []) → newline ∉ s.
Proof.
  intros H Hin. destruct s as [|c s]; [by apply not_elem_of_nil in Hin|]. unfold parse_number in H.
  assert (Hsign : ∃ sg s1, (match c :: s with 45%N :: r => (js "-", r) | _ => ([], c :: s) end) = (sg, s1) ∧ newline ∈ s1).
  { destruct (N.eqb_spec c 45) as [->|Hc]; [exists (js "-"), s; split; [done|]; by apply elem_of_cons in Hin as [?|?]|].
    exists [], (c :: s). split; [|done]. destruct c as [|p]; [done|]. by repeat (destruct p as [p|p|]; try done). }
  destruct Hsign as (sg & s1 & Hsg & H1). rewrite Hsg in H. destruct (span_digits s1) as [ds s2] eqn:Ed.
  apply (span_digits_newline _ _ _ Ed) in H1.
  assert (H' : (f ← parse_frac s2; e ← parse_exp f.2; Some (match f.1, e.1 with
            | [], [] => JNum (match sg with [] => digits_value 0 ds | _ => - digits_value 0 ds end)
            | _, _ => JDec (sg ++ ds ++ f.1 ++ e.1)
            end, e.2)) = Some (v, [])) by (repeat (case_match; try done)).
  destruct (parse_frac s2) as [[f s3]|] eqn:Ef; [|done]. simpl in H'. apply (parse_frac_newline _ _ _ Ef) in H1.
  destruct (parse_exp s3) as [[e s4]|] eqn:Ee; [|done]. simpl in H'. apply (parse_exp_newline _ _ _ Ee) in H1.
  injection H' as _ ->. by apply not_elem_of_nil in H1.
Qed.

(** A space or a closing bracket. *)
Definition indent_unit (d : N) : Prop := d = 32%N ∨ d = 93%N ∨ d = 125%N.
Notation indented := (line_starts indent_unit).
Lemma indented_break pretty level : indented (line_break pretty (S level)).
Proof.
  destruct pretty; [|done]. split; [by left|]. apply line_starts_flat. intros H%elem_of_replicate_inv. done.
Qed.
Lemma indented_close pretty level c : c = 93%N ∨ c = 125%N → indented (line_break pretty level ++ [c]).
Proof.
  intros Hc. destruct level as [|level].
  - assert (Hn : c ≠ newline) by (unfold newline; destruct Hc; lia).
    destruct pretty; simpl; [split; [unfold indent_unit; tauto|]|]; by split.
  - apply line_starts_app; [apply indented_break|]. simpl. split; [|done]. intros ->. by destruct Hc.
Qed.
#[local] Ltac concrete := repeat (split; [by intros [=]|]); done.
Lemma indented_join items : Forall indented items → indented (join (js ",") items).
Proof.
  induction 1 as [|x items Hx Hi IH]; [done|]. destruct items as [|y items]; [done|].
  rewrite join_cons_ne by done. apply line_starts_app; [done|]. apply line_starts_app; [by apply line_starts_unit|done].
Qed.

Lemma stringify_indented pretty v : ∀ level, json_ok v → indented (stringify_at pretty level v).
Proof.
  induction v as [|b|n|s|s|l IH|l IH] using json_nested_ind; intros level Hv.
  - concrete.
  - destruct b; concrete.
  - apply line_starts_flat. eapply number_no_newline, parse_show_Z_nil.
  - apply line_starts_flat. by eapply number_no_newline.
  - apply line_starts_flat, quote_no_newline.
  - destruct l as [|x l]; [concrete|]. destruct Hv as [Hx Hl]. apply foldr_and in Hl. rewrite stringify_arr.
    change (91%N :: ?t) with ([91%N] ++ t). apply line_starts_app; [by apply line_starts_unit|].
    apply line_starts_app; [|apply indented_close; by left]. apply indented_join, Forall_map.
    rewrite Forall_forall in IH |- *. intros y Hy. apply line_starts_app; [apply indented_break|]. apply IH; [done|].
    apply elem_of_cons in Hy as [->|Hy]; [done|]. rewrite Forall_forall in Hl. by apply Hl.
  - destruct l as [|kv l]; [concrete|]. destruct Hv as [_ [Hx Hl]]. apply (foldr_and (λ kv, json_ok kv.2)) in Hl.
    rewrite stringify_obj. change (123%N :: ?t) with ([123%N] ++ t). apply line_starts_app; [by apply line_starts_unit|].
    apply line_starts_app; [|apply indented_close; by right]. apply indented_join, Forall_map.
    rewrite Forall_forall in IH |- *. intros y Hy. apply line_starts_app; [apply indented_break|].
    apply line_starts_app; [apply line_starts_flat, quote_no_newline|]. apply line_starts_app; [destruct pretty; concrete|].
    apply IH; [done|]. apply elem_of_cons in Hy as [->|Hy]; [done|]. rewrite Forall_forall in Hl. by apply Hl.
Qed.

(** Printed compactly, a value is one line. *)
Lemma join_no_newline items : Forall (λ i, newline ∉ i) items → newline ∉ join (js ",") items.
Proof.
  induction 1 as [|x items Hx Hi IH]; [apply not_elem_of_nil|]. destruct items as [|y items]; [done|].
  rewrite join_cons_ne, !not_elem_of_app by done. split; [done|]. split; [|done]. by intros ?%list_elem_of_singleton.
Qed.
Lemma stringify_one_line v : ∀ level, json_ok v → newline ∉ stringify_at false level v.
Proof.
  induction v as [|b|n|s|s|l IH|l IH] using json_nested_ind; intros level Hv; try (by destruct b; vm_compute; set_solver).
  - vm_compute. set_solver.
  - eapply number_no_newline, parse_show_Z_nil.
  - by eapply number_no_newline.
  - apply quote_no_newline.
  - destruct l as [|x l]; [vm_compute; set_solver|]. destruct Hv as [Hx Hl]. apply foldr_and in Hl. rewrite stringify_arr.
    rewrite not_elem_of_cons, !not_elem_of_app. split; [done|]. split; [|set_solver]. apply join_no_newline, Forall_map.
    rewrite Forall_forall in IH |- *. intros y Hy. apply IH; [done|].
    apply elem_of_cons in Hy as [->|Hy]; [done|]. rewrite Forall_forall in Hl. by apply Hl.
  - destruct l as [|kv l]; [vm_compute; set_solver|]. destruct Hv as [_ [Hx Hl]]. apply (foldr_and (λ kv, json_ok kv.2)) in Hl.
    rewrite stringify_obj. rewrite not_elem_of_cons, !not_elem_of_app. split; [done|]. split; [|set_solver].
    apply join_no_newline, Forall_map. rewrite Forall_forall in IH |- *. intros y Hy.
    rewrite !not_elem_of_app. split; [apply not_elem_of_nil|]. split; [apply quote_no_newline|]. split; [by intros ?%list_elem_of_singleton|].
    apply IH; [done|]. apply elem_of_cons in Hy as [->|Hy]; [done|]. rewrite Forall_forall in Hl. by apply Hl.
Qed.

(** ** What is read is well formed *)

Lemma span_digits_eq s ds r : span_digits s = (ds, r) → s = ds ++ r ∧ Forall (λ c, is_digit c = true) ds.
Proof. intros E. pose proof (span_digits_split s) as H. by rewrite E in H. Qed.
Definition not_digit (r : jsstr) : Prop := match r with c :: _ => is_digit c = false ∧ c ≠ 46%N | [] => True end.
Lemma span_digits_exact ds r : Forall (λ c, is_digit c = true) ds → not_digit r → span_digits (ds ++ r) = (ds, r).
Proof. intros Hd Hr. rewrite span_digits_app by (destruct r; [done|apply Hr]). by rewrite span_digits_all. Qed.
Lemma parse_frac_plain c s : c ≠ 46%N → parse_frac (c :: s) = Some ([], c :: s).
Proof. intros Hc. unfold parse_frac. destruct c as [|p]; [done|]. by repeat (destruct p as [p|p|]; try done). Qed.
Lemma parse_frac_prefix s f r : parse_frac s = Some (f, r) →
  s = f ++ r ∧ (∀ r', not_digit r' → parse_frac (f ++ r') = Some (f, r')) ∧ match f with c :: _ => c = 46%N | [] => True end.
Proof.
  assert (Hnil : ∀ r', not_digit r' → parse_frac r' = Some ([], r')).
  { intros [|c r']; [done|]. intros [_ Hc]. by apply parse_frac_plain. }
  destruct s as [|c s]; [intros [= <- <-]; done|]. destruct (N.eqb_spec c 46) as [->|Hc].
  - simpl. destruct (span_digits s) as [[|d ds] r1] eqn:E; [done|]. apply span_digits_eq in E as [-> Hd]. intros [= <- <-].
    split; [done|]. split; [|done]. intros r' Hr. change (parse_frac ((46%N :: d :: ds) ++ r')) with
      (match span_digits ((d :: ds) ++ r') with ([], _) => None | (ds, r') => Some (46%N :: ds, r') end).
    by rewrite span_digits_exact.
  - rewrite parse_frac_plain by done. intros [= <- <-]. done.
Qed.
Lemma parse_exp_prefix s e r : parse_exp s = Some (e, r) → s = e ++ r ∧ parse_exp e = Some (e, []) ∧ not_digit e.
Proof.
  destruct s as [|c s]; [intros [= <- <-]; done|]. simpl. destruct ((c =? 101)%N || (c =? 69)%N) eqn:Ec; [|intros [= <- <-]; done].
  assert (Hh : is_digit c = false ∧ c ≠ 46%N) by (apply orb_true_iff in Ec as [->%N.eqb_eq | ->%N.eqb_eq]; done).
  set (p := match s with d :: r' => if (d =? 43)%N || (d =? 45)%N then ([d], r') else ([], s) | [] => ([], s) end).
  assert (Hp : s = p.1 ++ p.2 ∧ ∀ d ds, is_digit d = true →
    match p.1 ++ d :: ds with x :: r' => if (x =? 43)%N || (x =? 45)%N then ([x], r') else ([], p.1 ++ d :: ds) | [] => ([], p.1 ++ d :: ds) end
    = (p.1, d :: ds)).
  { assert (Hd : ∀ d, is_digit d = true → (d =? 43)%N || (d =? 45)%N = false).
    { intros d Hd. apply orb_false_iff. rewrite !N.eqb_neq. split; intros ->; done. }
    unfold p. destruct s as [|x s]; [split; [done|]; intros d ds H; simpl; by rewrite Hd|].
    destruct ((x =? 43)%N || (x =? 45)%N) eqn:Ex; (split; [done|]; intros d ds H; simpl); [by rewrite Ex|by rewrite Hd]. }
  destruct p as [sg s1]. cbn [fst snd] in Hp. destruct Hp as [-> Hp]. destruct (span_digits s1) as [[|d ds] r1] eqn:E; [done|].
  apply span_digits_eq in E as [-> Hd]. intros [= <- <-]. split; [simpl; by rewrite <- app_assoc|]. split; [|done].
  cbn [parse_exp]. rewrite Ec, Hp by (by inversion Hd). by rewrite span_digits_all.
Qed.

(** A number after its sign. *)
Definition parse_unsigned (sign s1 : jsstr) : option (json * jsstr) :=
  let '(ds, s2) := span_digits s1 in
  match ds with
  | [] => None
  | 48%N :: _ :: _ => None
  | _ =>
      f ← parse_frac s2; e ← parse_exp f.2;
      Some (match f.1, e.1 with
            | [], [] => JNum (match sign with [] => digits_value 0 ds | _ => - digits_value 0 ds end)
            | _, _ => JDec (sign ++ ds ++ f.1 ++ e.1)
            end, e.2)
  end.
Lemma parse_number_unsigned c s : c ≠ 45%N → parse_number (c :: s) = parse_unsigned [] (c :: s).
Proof.
  intros Hc. unfold parse_number. destruct c as [|p]; [done|]. by repeat (destruct p as [p|p|]; try done).
Qed.
Lemma parse_unsigned_ok sign s v r : parse_unsigned sign s = Some (v, r) →
  (∃ n, v = JNum n) ∨
  ∃ d p, is_digit d = true ∧ v = JDec (sign ++ d :: p) ∧ parse_unsigned sign (d :: p) = Some (v, []).
Proof.
  unfold parse_unsigned at 1. destruct (span_digits s) as [[|d ds] s2] eqn:Es; [done|].
  apply span_digits_eq in Es as [-> Hd]. set (k := λ X : option (json * jsstr), match d :: ds with [] => None | 48%N :: _ :: _ => None | _ => X end).
  assert (Hk : (∀ X, k X = X) ∨ (∀ X, k X = None)).
  { unfold k. destruct (N.eqb_spec d 48) as [->|Hn]; [destruct ds; [by left|by right]|left]. intros X.
    destruct d as [|p]; [done|]. by repeat (destruct p as [p|p|]; try done). }
  match goal with |- ?X = _ → _ => change X with (k ltac:(let Y := eval cbv beta iota in (f ← parse_frac s2; e ← parse_exp f.2;
      Some (match f.1, e.1 with
            | [], [] => JNum (match sign with [] => digits_value 0 (d :: ds) | _ => - digits_value 0 (d :: ds) end)
            | _, _ => JDec (sign ++ (d :: ds) ++ f.1 ++ e.1)
            end, e.2)) in exact Y)) end.
  destruct Hk as [Hk|Hk]; rewrite Hk; [|done].
  destruct (parse_frac s2) as [[f s3]|] eqn:Ef; [|done]. cbn [mbind option_bind fst snd].
  destruct (parse_exp s3) as [[e s4]|] eqn:Ee; [|done]. cbn [mbind option_bind fst snd]. intros [= Hval <-].
  destruct (parse_frac_prefix _ _ _ Ef) as (-> & Hf & Hh). destruct (parse_exp_prefix _ _ _ Ee) as (-> & He & Hnd).
  destruct (decide (f = [] ∧ e = [])) as [[-> ->]|Hne]; [left; by eexists|right].
  assert (v = JDec (sign ++ (d :: ds) ++ f ++ e)) as Hv by (destruct f; [|done]; destruct e; [|done]; by destruct Hne).
  exists d, (ds ++ f ++ e). split; [by inversion Hd|]. split; [done|].
  unfold parse_unsigned. change (d :: ds ++ f ++ e) with ((d :: ds) ++ f ++ e).
  rewrite span_digits_app, span_digits_all by (done || (destruct f as [|x f]; [by destruct e; [|apply Hnd]|by rewrite Hh])).
  cbn [fst snd app].
  match goal with |- ?X = _ => change X with (k ltac:(let Y := eval cbv beta iota in (f ← parse_frac (f ++ e); e ← parse_exp f.2;
      Some (match f.1, e.1 with
            | [], [] => JNum (match sign with [] => digits_value 0 (d :: ds) | _ => - digits_value 0 (d :: ds) end)
            | _, _ => JDec (sign ++ (d :: ds) ++ f.1 ++ e.1)
            end, e.2)) in exact Y)) end.
  rewrite Hk, Hf by done. cbn [mbind option_bind fst snd]. rewrite He. cbn [mbind option_bind fst snd]. by rewrite <- Hval.
Qed.

Lemma parse_number_ok s v r : parse_number s = Some (v, r) → json_ok v.
Proof.
  assert (Hc : ∀ sign t, (∀ d p, is_digit d = true → parse_number (sign ++ d :: p) = parse_unsigned sign (d :: p)) →
    parse_unsigned sign t = Some (v, r) → json_ok v).
  { intros sign t Hp Ht. destruct (parse_unsigned_ok _ _ _ _ Ht) as [[n ->]|(d & p & Hd & -> & Hu)]; [done|].
    simpl. by rewrite Hp. }
  destruct s as [|c s]; [done|]. destruct (N.eqb_spec c 45) as [->|Hn].
  - apply (Hc (js "-")). done.
  - rewrite parse_number_unsigned by done. apply (Hc []). intros d p Hd. apply parse_number_unsigned. intros ->. done.
Qed.
Lemma set_key_keys k v l : NoDup (map fst l) → NoDup (map fst (set_key k v l)) ∧ ∀ x, x ∈ map fst (set_key k v l) → x = k ∨ x ∈ map fst l.
Proof.
  induction l as [|kv l IH]; simpl; intros Hl; [split; [apply NoDup_singleton|]; intros x Hx; left; by apply list_elem_of_singleton|].
  apply NoDup_cons in Hl as [Hk Hl]. case_bool_decide as E; simpl; [subst; split; [by apply NoDup_cons|]; set_solver|].
  destruct (IH Hl) as [Hn Hi]. split; [|set_solver]. apply NoDup_cons. split; [|done]. intros [?|?]%Hi; [by subst|done].
Qed.
Lemma set_key_values (P : json → Prop) k v l : P v → Forall (λ kv, P kv.2) l → Forall (λ kv, P kv.2) (set_key k v l).
Proof. intros Hv. induction 1 as [|kv l Hx Hl IH]; simpl; [by repeat constructor|]. case_bool_decide; by constructor. Qed.
Lemma build_object_ok l : Forall (λ kv, json_ok kv.2) l → json_ok (build_object l).
Proof.
  intros Hl. unfold build_object. apply json_ok_obj.
  assert (H : ∀ o, NoDup (map fst o) → Forall (λ kv, json_ok kv.2) o →
    NoDup (map fst (foldl (λ o kv, set_key kv.1 kv.2 o) o l)) ∧ Forall (λ kv, json_ok kv.2) (foldl (λ o kv, set_key kv.1 kv.2 o) o l)).
  { induction Hl as [|[k v] l Hv Hl IH]; intros o Ho Hok; [done|]. apply IH; [by apply set_key_keys|by apply set_key_values]. }
  apply H; [apply NoDup_nil_2|constructor].
Qed.

Definition reads_ok (fuel : nat) : Prop :=
  (∀ s v r, parse_value fuel s = Some (v, r) → json_ok v) ∧
  (∀ s l r, parse_elems fuel s = Some (l, r) → Forall json_ok l) ∧
  (∀ s l r, parse_members fuel s = Some (l, r) → Forall (λ kv, json_ok kv.2) l).
(** A match on two units, as tests. *)
Lemma match_unit2 {A} (c : N) (x y z : A) :
  match c with 44%N => x | 93%N => y | _ => z end = if (c =? 44)%N then x else if (c =? 93)%N then y else z.
Proof. destruct c as [|p]; [done|]. by repeat (destruct p as [p|p|]; try done). Qed.
Lemma match_unit2' {A} (c : N) (x y z : A) :
  match c with 44%N => x | 125%N => y | _ => z end = if (c =? 44)%N then x else if (c =? 125)%N then y else z.
Proof. destruct c as [|p]; [done|]. by repeat (destruct p as [p|p|]; try done). Qed.
Lemma match_unit {A} (k c : N) (x z : A) : k = 34%N ∨ k = 58%N →
  (if (c =? k)%N then x else z) = match k with 34%N => match c with 34%N => x | _ => z end | _ => match c with 58%N => x | _ => z end end.
Proof. intros [-> | ->]; (destruct c as [|p]; [done|]; by repeat (destruct p as [p|p|]; try done)). Qed.
Lemma parse_value_reads fuel : reads_ok fuel → ∀ s v r, parse_value (S fuel) s = Some (v, r) → json_ok v.
Proof.
  intros (_ & He & Hm) s v r H. cbn [parse_value] in H. destruct (skip_ws s) as [|c t]; [done|].
  destruct (c =? 34)%N; [destruct (parse_string t); by simplify_eq/=|].
  destruct (c =? 91)%N.
  { destruct (after 93 (skip_ws t)); [by simplify_eq/=|]. destruct (parse_elems _ _) as [[l r']|] eqn:E; [|done].
    injection H as <- <-. apply foldr_and. by eapply He. }
  destruct (c =? 123)%N.
  { destruct (after 125 (skip_ws t)); [simplify_eq/=; split; [apply NoDup_nil_2|done]|].
    destruct (parse_members _ _) as [[l r']|] eqn:E; [|done]. injection H as <- <-. by eapply build_object_ok, Hm. }
  repeat (destruct (startsWith (c :: t) _); [by simplify_eq/=|]). by eapply parse_number_ok.
Qed.
Lemma parse_elems_reads fuel : reads_ok fuel → ∀ s l r, parse_elems (S fuel) s = Some (l, r) → Forall json_ok l.
Proof.
  intros (Hv & He & _) s l r H. cbn [parse_elems] in H. destruct (parse_value fuel s) as [[v r1]|] eqn:E; [|done].
  apply Hv in E. cbn [mbind option_bind fst snd] in H. destruct (skip_ws r1) as [|c t]; [done|].
  rewrite match_unit2 in H. destruct (c =? 44)%N; [|destruct (c =? 93)%N; simplify_eq; by repeat constructor].
  destruct (parse_elems fuel t) as [[l' r']|] eqn:El; [|done]. injection H as <- <-. constructor; [done|]. by eapply He.
Qed.
Lemma parse_members_reads fuel : reads_ok fuel → ∀ s l r, parse_members (S fuel) s = Some (l, r) → Forall (λ kv, json_ok kv.2) l.
Proof.
  intros (Hv & _ & Hm) s l r H. cbn [parse_members] in H. destruct (skip_ws s) as [|c t]; [done|].
  rewrite <- (match_unit 34) in H by auto. destruct (c =? 34)%N; [|done].
  destruct (parse_string t) as [[k r1]|]; [|done]. cbn [mbind option_bind fst snd] in H. destruct (skip_ws r1) as [|c2 t2]; [done|].
  rewrite <- (match_unit 58) in H by auto. destruct (c2 =? 58)%N; [|done].
  destruct (parse_value fuel t2) as [[v r2]|] eqn:E; [|done]. apply Hv in E. cbn [mbind option_bind fst snd] in H.
  destruct (skip_ws r2) as [|c3 t3]; [done|]. rewrite match_unit2' in H.
  destruct (c3 =? 44)%N; [|destruct (c3 =? 125)%N; simplify_eq; by repeat constructor].
  destruct (parse_members fuel t3) as [[l' r']|] eqn:El; [|done]. injection H as <- <-. constructor; [done|]. by eapply Hm.
Qed.
Lemma reads_all fuel : reads_ok fuel.
Proof.
  induction fuel as [|fuel IH]; [done|]. split_and!; [by apply parse_value_reads|by apply parse_elems_reads|by apply parse_members_reads].
Qed.
Lemma parse_ok s v : parse s = Some v → json_ok v.
Proof.
  unfold parse. destruct (parse_value _ s) as [[v' r]|] eqn:E; [|done]. simpl. destruct (skip_ws r); [|done]. intros [= <-].
  by eapply (proj1 (reads_all _)).
Qed.
