(* ===== verification/JsNumber.v ===== *)
(** * Numbers: doubles and the parsing of numbers

    A finite double is its exact value, an integer ([Z]) or a rational ([Q]);
    what is not finite is [None].  [parseInt] and [parseFloat] read the longest
    prefix that is a number and round to nearest, ties to even, as ECMA-262
    prescribes.  A negative zero is zero. *)
From Stdlib Require Export QArith.
From stdpp Require Import base option list.
From S2P Require Import Prelude JsString Json.
Open Scope Z_scope.

(** ** Rounding to a double *)

(** The integer nearest to [n / d], for positive [d]. *)
Definition round_half_even (n d : Z) : Z :=
  let q := n / d in
  match 2 * (n mod d) ?= d with
  | Lt => q
  | Gt => q + 1
  | Eq => if Z.even q then q else q + 1
  end.

(** The exponent of the last of the 53 binary digits of a number whose first
    digit has exponent [k], not below [low]. *)
Definition last_exponent (low k : Z) : Z := Z.max (k - 52) low.

Definition overflows (v : Z) : bool := 2 ^ 1024 <=? v.

(** An integer as a double. *)
Definition round_Z (z : Z) : option Z :=
  let e := last_exponent 0 (Z.log2 (Z.abs z)) in
  let v := round_half_even (Z.abs z) (2 ^ e) * 2 ^ e in
  if overflows v then None else Some (Z.sgn z * v).

(** The exponent of the first binary digit of the positive [n / d]. *)
Definition first_exponent (n d : Z) : Z :=
  let k := Z.log2 n - Z.log2 d in
  if 2 ^ Z.max k 0 * d <=? n * 2 ^ Z.max (- k) 0 then k else k - 1.

(** [n / d] as a double, for natural [n] and positive [d]. *)
Definition round_ratio (n d : Z) : option Q :=
  if n =? 0 then Some 0%Q
  else
    let e := last_exponent (-1074) (first_exponent n d) in
    let m := round_half_even (n * 2 ^ Z.max (- e) 0) (d * 2 ^ Z.max e 0) in
    if overflows (m * 2 ^ Z.max e 0) then None
    else Some (Qred (m * 2 ^ Z.max e 0 # Z.to_pos (2 ^ Z.max (- e) 0))).

(** ** Parsing *)

(** A sign, if there is one. *)
Definition parse_sign (s : jsstr) : Z * jsstr :=
  match s with
  | 45%N :: r => (-1, r)
  | 43%N :: r => (1, r)
  | _ => (1, s)
  end.

(** [Number.parseInt(s, 10)]; [None] for [NaN] and infinities. *)
Definition parseInt (s : jsstr) : option Z :=
  let '(sign, r) := parse_sign (trimStart s) in
  match span_digits r with
  | ([], _) => None
  | (ds, _) => round_Z (sign * digits_value 0 ds)
  end.

(** The exponent that follows a mantissa, zero when there is none. *)
Definition parse_exponent (s : jsstr) : Z :=
  match s with
  | c :: r =>
      if ((c =? 101) || (c =? 69))%N then
        let '(sign, r') := parse_sign r in
        sign * digits_value 0 (span_digits r').1
      else 0
  | [] => 0
  end.

(** [m * 10 ^ e]. *)
Definition round_decimal (m e : Z) : option Q := round_ratio (m * 10 ^ Z.max e 0) (10 ^ Z.max (- e) 0).

(** An unsigned decimal literal at the start of a text. *)
Definition parse_unsigned (s : jsstr) : option Q :=
  let '(ds, r) := span_digits s in
  let '(fs, r') := match r with 46%N :: t => span_digits t | _ => ([], r) end in
  match ds ++ fs with
  | [] => None
  | _ => round_decimal (digits_value 0 (ds ++ fs)) (parse_exponent r' - Z.of_nat (length fs))
  end.

(** [Number.parseFloat(s)]; [None] for [NaN] and infinities. *)
Definition parseFloat (s : jsstr) : option Q :=
  let '(sign, r) := parse_sign (trimStart s) in
  match parse_unsigned r with
  | Some q => Some (if sign =? 1 then q else (- q)%Q)
  | None => None
  end.

(** The number that a literal of the source denotes. *)
Definition num (s : string) : Q := default 0%Q (parseFloat (js s)).

(** ** Comparison of numbers *)

Definition Qltb (a b : Q) : bool := negb (Qle_bool b a).

Lemma Qltb_lt a b : Qltb a b = true ↔ (a < b)%Q.
Proof.
  unfold Qltb. rewrite negb_true_iff, <- not_true_iff_false, Qle_bool_iff.
  split; [apply Qnot_le_lt|apply Qlt_not_le].
Qed.

Lemma Qltb_ge a b : Qltb a b = false ↔ (b <= a)%Q.
Proof. rewrite <- not_true_iff_false, Qltb_lt. split; [apply Qnot_lt_le|apply Qle_not_lt]. Qed.

(** ** Lemmas *)

Lemma round_half_even_1 n : round_half_even n 1 = n.
Proof. unfold round_half_even. rewrite Z.mod_1_r, Z.div_1_r. done. Qed.

(** Integers of at most 53 binary digits are doubles. *)
Lemma round_Z_exact z : Z.abs z < 2 ^ 53 → round_Z z = Some z.
Proof.
  intros Hz. unfold round_Z.
  assert (He : last_exponent 0 (Z.log2 (Z.abs z)) = 0).
  { unfold last_exponent. destruct (decide (z = 0)) as [->|Hn]; [done|].
    assert (Z.log2 (Z.abs z) < 53) by (apply Z.log2_lt_pow2; lia). lia. }
  rewrite He, Z.pow_0_r, round_half_even_1, Z.mul_1_r. unfold overflows.
  destruct (Z.leb_spec (2 ^ 1024) (Z.abs z)) as [Ho|_].
  - pose proof (Z.pow_lt_mono_r 2 53 1024 ltac:(lia) ltac:(lia) ltac:(lia)). lia.
  - f_equal. lia.
Qed.

Lemma parse_sign_digit c s : is_digit c = true → parse_sign (c :: s) = (1, c :: s).
Proof.
  intros Hc. unfold parse_sign. unfold is_digit in Hc. apply andb_true_iff in Hc as [Hc _].
  apply N.leb_le in Hc. repeat case_goal; try done; lia.
Qed.

Lemma is_digit_space c : is_digit c = true → is_space c = false.
Proof.
  unfold is_digit, is_space. intros [H1%N.leb_le H2%N.leb_le]%andb_true_iff.
  repeat first
    [ match goal with |- context [(?a <=? ?b)%N] =>
        first [rewrite (proj2 (N.leb_le a b)) by lia | rewrite (proj2 (N.leb_gt a b)) by lia] end
    | match goal with |- context [(?a =? ?b)%N] => rewrite (proj2 (N.eqb_neq a b)) by lia end ].
  done.
Qed.

(** A number that is printed is read back. *)
Lemma parseInt_show z : Z.abs z < 2 ^ 53 → parseInt (show_Z z) = Some z.
Proof.
  intros Hz. unfold parseInt, show_Z. destruct (Z.ltb_spec z 0) as [Hn|Hn].
  - destruct (show_nonneg (- z)) as (ds & -> & Hf & Hv & Hnz); [lia|].
    change (js "-" ++ ds) with (45%N :: ds). rewrite trimStart_nonspace by done. simpl.
    rewrite span_digits_all by done.
    assert (Hr : round_Z (-1 * digits_value 0 ds) = Some z) by (rewrite Hv, round_Z_exact; [f_equal|]; lia).
    destruct ds; [done|exact Hr].
  - destruct (show_nonneg z) as (ds & -> & Hf & Hv & Hnz); [lia|].
    destruct ds as [|c ds]; [done|]. pose proof (Forall_inv Hf) as Hc.
    rewrite trimStart_nonspace, parse_sign_digit, span_digits_all by auto using is_digit_space.
    rewrite Hv, round_Z_exact by lia. f_equal. lia.
Qed.

(** ** Examples *)

Example parse_int_junk : parseInt (js " 12px") = Some 12 ∧ parseInt (js "px") = None ∧ parseInt (js "1e3") = Some 1.
Proof. by vm_compute. Qed.
Example parse_int_rounds : parseInt (js "9007199254740993") = Some 9007199254740992.
Proof. by vm_compute. Qed.
Example parse_float_forms :
  map parseFloat [js ".5"; js "5."; js "-2.5e1x"; js "1e400"; js "1e-400"; js "e5"; js "Infinity"]
  = [Some (1 # 2); Some (5 # 1); Some (-25 # 1); None; Some 0; None; None]%Q.
Proof. by vm_compute. Qed.
Example tenth_is_a_double : num "0.1" = (3602879701896397 # 36028797018963968)%Q.
Proof. by vm_compute. Qed.
