(* ===== verification/Regex.v ===== *)
(** Regular expressions as the code writes them: what follows the matches of an
    expression at a place, in the order in which backtracking finds them. *)

From S2P Require Import Prelude JsString.
Open Scope nat_scope.

(** A place in a text: the unit before it, and what follows. *)
Definition place : Type := option N * jsstr.

Inductive rx :=
| RUnit (p : N → bool)
| REmpty
| RSeq (a b : rx)
| RAlt (a b : rx)
| RStar (p : N → bool)
| RBound.

(** A greedy repetition of a class. *)
Fixpoint star_places (p : N → bool) (before : option N) (s : jsstr) : list place :=
  match s with
  | c :: s' => if p c then star_places p (Some c) s' ++ [(before, s)] else [(before, s)]
  | [] => [(before, [])]
  end.
Definition word_at (o : option N) : bool := match o with Some c => is_word c | None => false end.
Fixpoint places (r : rx) (x : place) : list place :=
  match r with
  | RUnit p => match x.2 with c :: s' => if p c then [(Some c, s')] else [] | [] => [] end
  | REmpty => [x]
  | RSeq a b => flat_map (places b) (places a x)
  | RAlt a b => places a x ++ places b x
  | RStar p => star_places p x.1 x.2
  | RBound => if Bool.eqb (word_at x.1) (word_at (head x.2)) then [] else [x]
  end.

(** [r.test(s)]: a match somewhere. *)
Fixpoint test_from (r : rx) (before : option N) (s : jsstr) : bool :=
  negb (bool_decide (places r (before, s) = [])) ||
  match s with c :: s' => test_from r (Some c) s' | [] => false end.
Definition test (r : rx) (s : jsstr) : bool := test_from r None s.

(** ** Abbreviations *)

Definition ropt (a : rx) : rx := RAlt a REmpty.
Definition rplus (p : N → bool) : rx := RSeq (RUnit p) (RStar p).
Definition spaces1 : rx := rplus is_space.
(** A letter with the [i] flag. *)
Definition lower_ascii (c : N) : N := if ((65 <=? c) && (c <=? 90))%N then (c + 32)%N else c.
Definition same_letter (c d : N) : bool := (lower_ascii c =? lower_ascii d)%N.
Definition rword (s : string) : rx := foldr (λ c r, RSeq (RUnit (same_letter c)) r) REmpty (js s).
Definition rseq (l : list rx) : rx := foldr RSeq REmpty l.
Definition ralt (a : rx) (l : list rx) : rx := foldl RAlt a l.
Definition rwords (s : string) (l : list string) : rx := ralt (rword s) (map rword l).

Lemma last_step (c : N) pre before :
  match last (c :: pre) with Some d => Some d | None => before end = match last pre with Some d => Some d | None => Some c end.
Proof. destruct pre as [|d pre]; [done|]. rewrite last_cons_cons. destruct (last (d :: pre)) eqn:E; [done|]. by apply last_None in E. Qed.
Lemma test_spec r before s :
  test_from r before s = true ↔ ∃ pre post, s = pre ++ post ∧ places r (match last pre with Some c => Some c | None => before end, post) ≠ [].
Proof.
  revert before. induction s as [|c s IH]; intros before; simpl.
  - rewrite orb_false_r, negb_true_iff, bool_decide_eq_false. split; [intros H; by exists [], []|].
    intros (pre & post & E & H). symmetry in E. apply app_eq_nil in E as [-> ->]. done.
  - rewrite orb_true_iff, negb_true_iff, bool_decide_eq_false, IH. split.
    + intros [H|(pre & post & -> & H)]; [by exists [], (c :: s)|]. exists (c :: pre), post. split; [done|].
      by rewrite last_step.
    + intros ([|d pre] & post & E & H); [by left; rewrite E|]. injection E as <- ->. right. exists pre, post. split; [done|].
      by rewrite last_step in H.
Qed.
