(* ===== verification/Lock.v ===== *)
(** The reader/writer lock of [util/lock.ts].

    Lock objects live in a heap because the closures that [read] and [write]
    hand out keep the object they were created for, while the table [locks]
    may meanwhile delete the key.  A call of [read] or [write] carries an
    identity ([id]), the identity of the promise it returns; the promise is
    resolved when a [handle] with that identity is granted.  Disposing a handle
    runs its [Symbol.dispose] method, once. *)

From S2P Require Import Prelude JsString.

Inductive mode := Read | Write.
#[export] Instance mode_eq_dec : EqDecision mode.
Proof. solve_decision. Defined.

(** The object literal that [get] stores; a queued closure is known by the
    identity of the call that pushed it. *)
Record lock := Lock {
  readers : Z;
  writer : bool;
  waitingReaders : list nat;
  waitingWriters : list nat
}.

(** A granted disposable: what its closure captured. *)
Record handle := Handle { h_id : nat; h_mode : mode; h_key : jsstr; h_loc : nat }.

Record state := State {
  heap : gmap nat lock;
  next_loc : nat;
  locks : gmap jsstr nat;
  granted : list handle
}.

Definition init : state := State ∅ 0 ∅ [].

Definition new_lock : lock := Lock 0 false [] [].

(** [get(key)]: the lock object of the key, created on demand. *)
Definition get (key : jsstr) (s : state) : nat * state :=
  match locks s !! key with
  | Some l => (l, s)
  | None =>
      (next_loc s,
       State (<[next_loc s := new_lock]> (heap s)) (S (next_loc s))
             (<[key := next_loc s]> (locks s)) (granted s))
  end.

Definition set_lock (l : nat) (lk : lock) (s : state) : state :=
  State (<[l := lk]> (heap s)) (next_loc s) (locks s) (granted s).

Definition grant (h : handle) (s : state) : state :=
  State (heap s) (next_loc s) (locks s) (h :: granted s).

(** The closure that [read] runs at once or queues: [lock.readers++; resolve]. *)
Definition grant_read (id : nat) (key : jsstr) (l : nat) (s : state) : state :=
  match heap s !! l with
  | Some lk =>
      grant (Handle id Read key l)
        (set_lock l (Lock (readers lk + 1) (writer lk) (waitingReaders lk) (waitingWriters lk)) s)
  | None => s
  end.

(** The closure that [write] runs at once or queues: [lock.writer = true; resolve]. *)
Definition grant_write (id : nat) (key : jsstr) (l : nat) (s : state) : state :=
  match heap s !! l with
  | Some lk =>
      grant (Handle id Write key l)
        (set_lock l (Lock (readers lk) true (waitingReaders lk) (waitingWriters lk)) s)
  | None => s
  end.

(** The loop that wakes up all waiting readers: [shift] one, run it, repeat. *)
Fixpoint wake_readers (fuel : nat) (key : jsstr) (l : nat) (s : state) : state :=
  match fuel with
  | O => s
  | S fuel =>
      match heap s !! l with
      | Some (Lock r w (id :: rest) ww) =>
          wake_readers fuel key l (grant_read id key l (set_lock l (Lock r w rest ww) s))
      | _ => s
      end
  end.

(** [process(key)].  The reader loop removes one waiter a round, so the number
    of waiters is fuel enough. *)
Definition process (key : jsstr) (s : state) : state :=
  match locks s !! key with
  | None => s
  | Some l =>
      match heap s !! l with
      | None => s
      | Some lk =>
          if writer lk || (0 <? readers lk)%Z then s
          else match waitingWriters lk with
               | id :: rest =>
                   grant_write id key l
                     (set_lock l (Lock (readers lk) (writer lk) (waitingReaders lk) rest) s)
               | [] =>
                   let s1 := wake_readers (length (waitingReaders lk)) key l s in
                   match heap s1 !! l with
                   | Some (Lock 0 false [] []) =>
                       State (heap s1) (next_loc s1) (delete key (locks s1)) (granted s1)
                   | _ => s1
                   end
               end
      end
  end.

(** [Lock.read(key)]. *)
Definition read (id : nat) (key : jsstr) (s : state) : state :=
  let '(l, s1) := get key s in
  match heap s1 !! l with
  | None => s1
  | Some lk =>
      if negb (writer lk) && Nat.eqb (length (waitingWriters lk)) 0
      then grant_read id key l s1
      else set_lock l (Lock (readers lk) (writer lk) (waitingReaders lk ++ [id]) (waitingWriters lk)) s1
  end.

(** [Lock.write(key)]. *)
Definition write (id : nat) (key : jsstr) (s : state) : state :=
  let '(l, s1) := get key s in
  match heap s1 !! l with
  | None => s1
  | Some lk =>
      if negb (writer lk) && (readers lk =? 0)%Z
      then grant_write id key l s1
      else set_lock l (Lock (readers lk) (writer lk) (waitingReaders lk) (waitingWriters lk ++ [id])) s1
  end.

(** What the [Symbol.dispose] closures do to the lock they captured:
    [lock.readers--] and [lock.writer = false]. *)
Definition release (m : mode) (lk : lock) : lock :=
  match m with
  | Read => Lock (readers lk - 1) (writer lk) (waitingReaders lk) (waitingWriters lk)
  | Write => Lock (readers lk) false (waitingReaders lk) (waitingWriters lk)
  end.

(** [handle[Symbol.dispose]()]. *)
Definition dispose (h : handle) (s : state) : state :=
  match heap s !! h_loc h with
  | None => s
  | Some lk => process (h_key h) (set_lock (h_loc h) (release (h_mode h) lk) s)
  end.

Inductive action :=
| Call (m : mode) (id : nat) (key : jsstr)
| Dispose (n : nat).

(** One step of the process: a call, or the disposal of the [n]-th outstanding
    handle, which is outstanding no more. *)
Definition step (a : action) (s : state) : option state :=
  match a with
  | Call Read id key => Some (read id key s)
  | Call Write id key => Some (write id key s)
  | Dispose n =>
      match granted s !! n with
      | Some h => Some (dispose h (State (heap s) (next_loc s) (locks s) (delete n (granted s))))
      | None => None
      end
  end.

(** ** The invariant *)

(** Outstanding handles of a mode on a lock object. *)
Definition count (m : mode) (l : nat) (hs : list handle) : nat :=
  length (filter (λ h, h_mode h = m ∧ h_loc h = l) hs).

(** What holds of a lock object with [r] read and [w] write handles outstanding.
    [settled] is false only inside an operation, between a change and the call
    of [process] that reacts to it. *)
Record lock_inv (settled : bool) (r w : nat) (lk : lock) : Prop := {
  li_readers : readers lk = Z.of_nat r;
  li_writer : writer lk = bool_decide (w = 1);
  li_one : w ≤ 1;
  li_excl : w = 1 → r = 0;
  li_busy : settled = true → 0 < r + w;
  li_wait : 0 < r + w → waitingReaders lk ≠ [] → writer lk = true ∨ waitingWriters lk ≠ []
}.

Record Inv (unsettled : option jsstr) (s : state) : Prop := {
  inv_lock k l : locks s !! k = Some l →
    l < next_loc s ∧ ∃ lk, heap s !! l = Some lk ∧
    lock_inv (bool_decide (unsettled ≠ Some k))
      (count Read l (granted s)) (count Write l (granted s)) lk;
  inv_handle h : h ∈ granted s → locks s !! h_key h = Some (h_loc h);
  inv_inj k k' l : locks s !! k = Some l → locks s !! k' = Some l → k = k'
}.

Lemma count_cons m l h hs :
  count m l (h :: hs) =
  (if decide (h_mode h = m ∧ h_loc h = l) then 1 else 0) + count m l hs.
Proof. unfold count. rewrite filter_cons. by case_decide. Qed.

Lemma count_app m l hs hs' : count m l (hs ++ hs') = count m l hs + count m l hs'.
Proof. unfold count. by rewrite filter_app, length_app. Qed.

Lemma count_pos m l hs h : h ∈ hs → h_mode h = m → h_loc h = l → 0 < count m l hs.
Proof.
  intros Hin <- <-. unfold count.
  assert (h ∈ filter (λ h', h_mode h' = h_mode h ∧ h_loc h' = h_loc h) hs) as Hf
    by by apply list_elem_of_filter.
  destruct (filter _ hs); simpl; [no_member|lia].
Qed.

Lemma count_exists m l hs : 0 < count m l hs → ∃ h, h ∈ hs ∧ h_mode h = m ∧ h_loc h = l.
Proof.
  unfold count. destruct (filter _ hs) as [|h hs'] eqn:E; simpl; [lia|]. intros _.
  exists h. assert (h ∈ filter (λ h, h_mode h = m ∧ h_loc h = l) hs) as Hf
    by (rewrite E; by left).
  apply list_elem_of_filter in Hf. tauto.
Qed.

Lemma Inv_weaken k s : Inv None s → Inv (Some k) s.
Proof.
  intros [H1 H2 H3]. split; [|done|done].
  intros k' l Hl. destruct (H1 k' l Hl) as (? & lk & ? & [? ? ? ? Hb Hw]).
  split; [done|]. exists lk. split; [done|]. split; try done.
  intros _. by apply Hb.
Qed.

(** Changing one lock object and the handles on it. *)
Lemma Inv_update u k l lk gs s :
  Inv (Some k) s → locks s !! k = Some l → u = None ∨ u = Some k →
  (∀ m l', l' ≠ l → count m l' gs = count m l' (granted s)) →
  (∀ h, h ∈ gs → h ∈ granted s ∨ (h_key h = k ∧ h_loc h = l)) →
  lock_inv (bool_decide (u ≠ Some k)) (count Read l gs) (count Write l gs) lk →
  Inv u (State (<[l := lk]> (heap s)) (next_loc s) (locks s) gs).
Proof.
  intros [H1 H2 H3] Hk Hu Hc Hg Hl. split; simpl.
  - intros k' l' Hk'. destruct (H1 k' l' Hk') as (Hlt & lk' & Hh & Hinv). split; [done|].
    destruct (decide (l' = l)) as [->|Hne].
    + rewrite (H3 k' k l Hk' Hk). exists lk. by rewrite lookup_insert_eq.
    + exists lk'. rewrite lookup_insert_ne by done. split; [done|].
      rewrite !Hc by done. assert (k' ≠ k) by congruence.
      assert (bool_decide (u ≠ Some k') = bool_decide (Some k ≠ Some k')) as ->; [|done].
      apply bool_decide_ext. destruct Hu; subst; intuition congruence.
  - intros h Hin. destruct (Hg h Hin) as [?|[-> ->]]; [by apply H2|done].
  - done.
Qed.

Lemma Inv_get key s l s1 :
  Inv None s → get key s = (l, s1) →
  Inv (Some key) s1 ∧ locks s1 !! key = Some l ∧ granted s1 = granted s ∧
  ∃ lk, heap s1 !! l = Some lk ∧
    lock_inv false (count Read l (granted s)) (count Write l (granted s)) lk ∧
    (count Read l (granted s) + count Write l (granted s) = 0 → lk = new_lock).
Proof.
  intros HI Hg.
  assert (Inv (Some key) s1 ∧ locks s1 !! key = Some l ∧ granted s1 = granted s ∧
    ∀ lk, heap s1 !! l = Some lk →
    count Read l (granted s) + count Write l (granted s) = 0 → lk = new_lock)
    as (HI1 & Hk & Hgr & Hnew).
  2:{ destruct (inv_lock _ _ HI1 key l Hk) as (_ & lk & Hh & Hi).
      rewrite bool_decide_eq_false_2 in Hi by (intros Hf; by apply Hf). rewrite Hgr in Hi.
      split_and!; [done..|]. exists lk. split_and!; eauto. }
  revert Hg. unfold get. destruct (locks s !! key) as [l0|] eqn:E.
  - intros [= <- <-]. split_and!; [by apply Inv_weaken|done|done|].
    intros lk Hh. destruct (inv_lock _ _ HI key l0 E) as (_ & lk' & ? & [_ _ _ _ Hb _]).
    rewrite bool_decide_eq_true_2 in Hb by done. specialize (Hb eq_refl). lia.
  - intros [= <- <-]. simpl. rewrite !lookup_insert_eq.
    split_and!; [|done|done|by intros lk [= <-]].
    destruct HI as [H1 H2 H3].
    assert (∀ m, count m (next_loc s) (granted s) = 0) as Hz.
    { intros m. destruct (count m (next_loc s) (granted s)) eqn:Ec; [done|].
      destruct (count_exists m (next_loc s) (granted s)) as (h & Hh & _ & Hl); [lia|].
      apply H2 in Hh. rewrite Hl in Hh. apply H1 in Hh as [? _]. lia. }
    split; simpl.
    + intros k l0 Hl. rewrite lookup_insert in Hl. case_decide as Hk.
      * injection Hl as <-. split; [lia|]. exists new_lock.
        rewrite lookup_insert_eq. subst k. rewrite !Hz.
        split; [done|]. rewrite bool_decide_eq_false_2 by (intros Hf; by apply Hf). split; simpl; (done || lia).
      * destruct (H1 k l0 Hl) as (? & lk & ? & [? ? ? ? Hb Hw]). split; [lia|].
        exists lk. rewrite lookup_insert_ne by lia. split; [done|].
        split; try done. intros _. by apply Hb.
    + intros h Hh. pose proof (H2 h Hh). rewrite lookup_insert_ne; congruence.
    + intros k k' l0. rewrite !lookup_insert.
      repeat case_decide; try congruence.
      * intros [= <-] Hl. apply H1 in Hl as [? _]. lia.
      * intros Hl [= <-]. apply H1 in Hl as [? _]. lia.
      * by apply H3.
Qed.

(** ** The operations on states that satisfy the invariant *)

Lemma grant_read_eq id k l s lk :
  heap s !! l = Some lk →
  grant_read id k l s =
  State (<[l := Lock (readers lk + 1) (writer lk) (waitingReaders lk) (waitingWriters lk)]> (heap s))
        (next_loc s) (locks s) (Handle id Read k l :: granted s).
Proof. intros H. unfold grant_read. by rewrite H. Qed.

Lemma grant_write_eq id k l s lk :
  heap s !! l = Some lk →
  grant_write id k l s =
  State (<[l := Lock (readers lk) true (waitingReaders lk) (waitingWriters lk)]> (heap s))
        (next_loc s) (locks s) (Handle id Write k l :: granted s).
Proof. intros H. unfold grant_write. by rewrite H. Qed.

(** The handles that waking the readers [ids] grants, last one first. *)
Definition read_handles (k : jsstr) (l : nat) (ids : list nat) : list handle :=
  reverse (map (λ id, Handle id Read k l) ids).

Lemma read_handles_cons k l id ids :
  read_handles k l (id :: ids) = read_handles k l ids ++ [Handle id Read k l].
Proof. unfold read_handles. simpl. by rewrite reverse_cons. Qed.

(** The loop grants every waiting reader and leaves the lock's other fields. *)
Lemma wake_readers_eq k l s r w ids ww :
  heap s !! l = Some (Lock r w ids ww) →
  wake_readers (length ids) k l s =
  State (<[l := Lock (r + Z.of_nat (length ids)) w [] ww]> (heap s))
        (next_loc s) (locks s) (read_handles k l ids ++ granted s).
Proof.
  revert s r. induction ids as [|id ids IH]; intros s r Hl.
  - simpl. rewrite Z.add_0_r, insert_id by done. by destruct s.
  - cbn [wake_readers length]. rewrite Hl.
    rewrite (grant_read_eq _ _ _ _ (Lock r w ids ww)) by (simpl; apply lookup_insert_eq).
    erewrite IH by (simpl; apply lookup_insert_eq). simpl.
    rewrite !insert_insert_eq, read_handles_cons, <- app_assoc. do 2 f_equal. f_equal. lia.
Qed.

Lemma count_read_handles m k l l' ids :
  count m l' (read_handles k l ids) =
  if decide (m = Read ∧ l' = l) then length ids else 0.
Proof.
  induction ids as [|id ids IH]; [by case_decide|].
  rewrite read_handles_cons, count_app, IH, count_cons. simpl.
  change (count m l' []) with 0.
  repeat case_decide; simpl in *; first [lia | naive_solver].
Qed.

Lemma elem_of_read_handles h k l ids :
  h ∈ read_handles k l ids ↔ ∃ id, id ∈ ids ∧ h = Handle id Read k l.
Proof.
  unfold read_handles. rewrite elem_of_reverse, list_elem_of_fmap. naive_solver.
Qed.

(** The lock object of a key, when the table has one. *)
Definition lock_of (k : jsstr) (s : state) : option lock :=
  match locks s !! k with Some l => heap s !! l | None => None end.

Lemma state_heap_id l lk s :
  heap s !! l = Some lk →
  State (<[l := lk]> (heap s)) (next_loc s) (locks s) (granted s) = s.
Proof. intros H. rewrite insert_id by done. by destruct s. Qed.

(** Deleting the entry of a lock nobody holds. *)
Lemma Inv_delete k l lk s :
  Inv (Some k) s → locks s !! k = Some l →
  count Read l (granted s) = 0 → count Write l (granted s) = 0 →
  Inv None (State (<[l := lk]> (heap s)) (next_loc s) (delete k (locks s)) (granted s)).
Proof.
  intros [H1 H2 H3] Hk Hr Hw. split; simpl.
  - intros k' l' [Hne Hk']%lookup_delete_Some. destruct (H1 k' l' Hk') as (? & lk' & ? & Hi).
    split; [done|]. exists lk'. rewrite lookup_insert_ne by naive_solver. split; [done|].
    by rewrite bool_decide_eq_true_2 in Hi by congruence.
  - intros h Hh. rewrite lookup_delete_ne; [by apply H2|]. intros ->.
    pose proof (H2 h Hh) as Hl. assert (h_loc h = l) as <- by congruence.
    destruct (h_mode h) eqn:Em.
    + pose proof (count_pos Read _ _ h Hh Em eq_refl). lia.
    + pose proof (count_pos Write _ _ h Hh Em eq_refl). lia.
  - intros k1 k2 l' [_ ?]%lookup_delete_Some [_ ?]%lookup_delete_Some. eauto.
Qed.

(** [process] settles the lock it is called for. *)
Lemma process_Inv k s : Inv (Some k) s → Inv None (process k s).
Proof.
  intros HI. unfold process. destruct (locks s !! k) as [l|] eqn:Hk.
  2:{ destruct HI as [H1 H2 H3]. split; [|done|done]. intros k' l Hl.
      destruct (H1 k' l Hl) as (? & lk & ? & Hi). split; [done|]. exists lk. split; [done|].
      assert (k' ≠ k) by congruence.
      rewrite bool_decide_eq_true_2 in Hi |- * by congruence. done. }
  destruct (inv_lock _ _ HI k l Hk) as (_ & lk & Hh & [Hr Hw Ho He _ Hwt]). rewrite Hh.
  assert (∀ gs lk', (∀ m l', l' ≠ l → count m l' gs = count m l' (granted s)) →
    (∀ h, h ∈ gs → h ∈ granted s ∨ h_key h = k ∧ h_loc h = l) →
    lock_inv true (count Read l gs) (count Write l gs) lk' →
    Inv None (State (<[l := lk']> (heap s)) (next_loc s) (locks s) gs)) as Hup.
  { intros gs lk' Hc Hg Hl. eapply Inv_update; eauto. }
  destruct lk as [nr wf wr ww]. cbn [readers writer waitingReaders waitingWriters] in *. subst nr wf.
  destruct (bool_decide _ || _) eqn:Eb.
  - (* still held: nothing to do, waiters stay behind the holder *)
    rewrite <- (state_heap_id l _ s Hh). apply Hup; [done|tauto|]. split; try done.
    intros _. apply orb_true_iff in Eb as [Eb|Eb]; bool_to_prop; lia.
  - bool_to_prop. assert (count Read l (granted s) = 0) as Hr0 by lia.
    assert (count Write l (granted s) = 0) as Hw0 by lia.
    destruct ww as [|id ww].
    + erewrite wake_readers_eq by done. cbn [heap]. rewrite lookup_insert_eq, Hr0.
      rewrite bool_decide_eq_false_2 by lia.
      destruct wr as [|id wr].
      * exact (Inv_delete k l _ s HI Hk Hr0 Hw0).
      * destruct (0 + Z.of_nat (length (id :: wr)))%Z eqn:Ez; [simpl in Ez; lia| |simpl in Ez; lia].
        apply Hup.
        -- intros m l' Hne. by rewrite count_app, count_read_handles, decide_False by tauto.
        -- intros h [Hh'|?]%elem_of_app; [|by left].
           apply elem_of_read_handles in Hh' as (? & _ & ->). by right.
        -- rewrite !count_app, !count_read_handles, Hr0, Hw0.
           rewrite decide_True, decide_False by naive_solver.
           split; simpl; (done || lia || naive_solver).
    + erewrite grant_write_eq by (simpl; apply lookup_insert_eq). simpl.
      rewrite insert_insert_eq. apply Hup.
      * intros m l' Hne. by rewrite count_cons, decide_False by naive_solver.
      * intros h [->|?]%elem_of_cons; [by right|by left].
      * rewrite !count_cons, Hr0, Hw0. rewrite decide_False, decide_True by naive_solver.
        split; simpl; (done || lia || naive_solver).
Qed.

Lemma init_Inv : Inv None init.
Proof.
  split; simpl.
  - intros k l. by rewrite lookup_empty.
  - intros h Hh. no_member.
  - intros k k' l. by rewrite lookup_empty.
Qed.

(** Only the queues of a held lock change. *)
Lemma Inv_queue k l s lk :
  Inv (Some k) s → locks s !! k = Some l →
  lock_inv true (count Read l (granted s)) (count Write l (granted s)) lk →
  Inv None (set_lock l lk s).
Proof. intros HI Hk Hl. eapply Inv_update; eauto. Qed.

(** Granting a handle on a lock object that is otherwise as described. *)
Lemma Inv_grant k l s lk m id :
  Inv (Some k) s → locks s !! k = Some l →
  lock_inv true (count Read l (Handle id m k l :: granted s))
    (count Write l (Handle id m k l :: granted s)) lk →
  Inv None (State (<[l := lk]> (heap s)) (next_loc s) (locks s) (Handle id m k l :: granted s)).
Proof.
  intros HI Hk Hl. eapply Inv_update; eauto.
  - intros m' l' Hne. by rewrite count_cons, decide_False by naive_solver.
  - intros h [->|?]%elem_of_cons; [by right|by left].
Qed.

Lemma read_Inv id key s : Inv None s → Inv None (read id key s).
Proof.
  intros HI. unfold read. destruct (get key s) as [l s1] eqn:Eg.
  destruct (Inv_get _ _ _ _ HI Eg) as (HI1 & Hk & <- & lk & Hh & [Hr Hw Ho He _ Hwt] & Hnew).
  rewrite Hh. destruct (negb (writer lk) && _) eqn:Eb.
  - erewrite grant_read_eq by done. bool_to_prop. rewrite Hw in *. bool_to_prop.
    assert (waitingWriters lk = []) as Hww by (by apply length_zero_iff_nil).
    apply Inv_grant; [done|done|]. rewrite !count_cons, decide_True, decide_False by naive_solver.
    split; simpl; try lia.
    + by rewrite bool_decide_eq_false_2 by done.
    + intros _ Hwr. exfalso. rewrite Hww in Hwt.
      destruct (decide (count Read l (granted s1) + count Write l (granted s1) = 0)) as [E|E].
      * by rewrite (Hnew E) in Hwr.
      * destruct (Hwt ltac:(lia) Hwr) as [Hf|Hf]; [|done]. by bool_to_prop.
  - assert (writer lk = true ∨ waitingWriters lk ≠ []) as Hq.
    { apply andb_false_iff in Eb as [Eb|Eb]; bool_to_prop; [by left|right].
      by destruct (waitingWriters lk). }
    apply Inv_queue with (k := key); [done|done|]. split; simpl; try done.
    intros _. destruct (decide (count Read l (granted s1) + count Write l (granted s1) = 0)); [|lia].
    rewrite Hnew in Hq by done. by destruct Hq.
Qed.

Lemma write_Inv id key s : Inv None s → Inv None (write id key s).
Proof.
  intros HI. unfold write. destruct (get key s) as [l s1] eqn:Eg.
  destruct (Inv_get _ _ _ _ HI Eg) as (HI1 & Hk & <- & lk & Hh & [Hr Hw Ho He _ Hwt] & Hnew).
  rewrite Hh. destruct (negb (writer lk) && _) eqn:Eb.
  - erewrite grant_write_eq by done. bool_to_prop. rewrite Hw in *. bool_to_prop.
    assert (count Read l (granted s1) = 0) by lia. assert (count Write l (granted s1) = 0) by lia.
    rewrite Hnew by lia.
    apply Inv_grant; [done|done|]. rewrite !count_cons, decide_False, decide_True by naive_solver.
    split; simpl; (lia || done || idtac). by rewrite bool_decide_eq_true_2 by lia.
  - apply Inv_queue with (k := key); [done|done|]. split; simpl; try done.
    + intros _. apply andb_false_iff in Eb as [Eb|Eb]; rewrite ?Hw in Eb; bool_to_prop; lia.
    + intros _ _. right. by destruct (waitingWriters lk).
Qed.

Lemma count_perm m l hs hs' : hs ≡ₚ hs' → count m l hs = count m l hs'.
Proof. intros H. unfold count. by rewrite H. Qed.

(** A released lock object counts the handles that are left. *)
Lemma release_spec n s h :
  Inv None s → granted s !! n = Some h →
  let hs := delete n (granted s) in
  locks s !! h_key h = Some (h_loc h) ∧
  ∃ lk, heap s !! h_loc h = Some lk ∧
    lock_inv false (count Read (h_loc h) hs) (count Write (h_loc h) hs) (release (h_mode h) lk) ∧
    waitingReaders (release (h_mode h) lk) = waitingReaders lk ∧
    waitingWriters (release (h_mode h) lk) = waitingWriters lk.
Proof.
  intros HI Hn hs. apply delete_Permutation in Hn as Hp. fold hs in Hp.
  assert (h ∈ granted s) as Hin by (rewrite Hp; by left).
  pose proof (inv_handle _ _ HI h Hin) as Hk. split; [done|].
  destruct (inv_lock _ _ HI _ _ Hk) as (_ & lk & Hh & [Hr Hw Ho He _ Hwt]).
  exists lk. split; [done|].
  pose proof (count_perm Read (h_loc h) _ _ Hp) as ER.
  pose proof (count_perm Write (h_loc h) _ _ Hp) as EW.
  rewrite count_cons in ER, EW. rewrite ER in Hr, He, Hwt. rewrite EW in Hw, Ho, He, Hwt. clear ER EW.
  destruct (h_mode h) eqn:Em; simpl; (split; [|done]).
  - rewrite decide_True in Hr, He, Hwt by done. rewrite decide_False in Hw, Ho, He, Hwt by naive_solver.
    split; simpl; try done; try lia. intros ? Hwr. apply Hwt; [lia|done].
  - rewrite decide_False in Hr, He, Hwt by naive_solver. rewrite decide_True in Hw, Ho, He, Hwt by done.
    split; simpl; try done; try lia. by rewrite bool_decide_eq_false_2 by lia.
Qed.

Lemma dispose_Inv n s h :
  Inv None s → granted s !! n = Some h →
  Inv None (dispose h (State (heap s) (next_loc s) (locks s) (delete n (granted s)))).
Proof.
  intros HI Hn. destruct (release_spec n s h HI Hn) as (Hk & lk & Hh & Hl & _).
  apply delete_Permutation in Hn as Hp.
  unfold dispose. simpl. rewrite Hh. apply process_Inv.
  eapply Inv_update with (s := s); [by apply Inv_weaken|done|by right| | |].
  - intros m l' Hne. rewrite (count_perm _ _ _ _ Hp), count_cons.
    by rewrite decide_False by naive_solver.
  - intros h' Hh'. left. rewrite Hp. by right.
  - by rewrite bool_decide_eq_false_2 by (intros Hf; by apply Hf).
Qed.

Lemma step_Inv a s s' : Inv None s → step a s = Some s' → Inv None s'.
Proof.
  intros HI. destruct a as [[] id key|n]; simpl.
  - intros [= <-]. by apply read_Inv.
  - intros [= <-]. by apply write_Inv.
  - destruct (granted s !! n) as [h|] eqn:E; [|done].
    intros [= <-]. by apply dispose_Inv.
Qed.

Lemma reachable_Inv s : reachable step init s → Inv None s.
Proof. apply reachable_ind_inv; [apply init_Inv|apply step_Inv]. Qed.

(** ** What the lock promises *)

(** The call [id] waits in a queue of the key's lock. *)
Definition waits (k : jsstr) (s : state) (id : nat) : Prop :=
  ∃ lk, lock_of k s = Some lk ∧ (id ∈ waitingReaders lk ∨ id ∈ waitingWriters lk).

(** No handle on the lock object of [h] is left in [hs]. *)
Definition last_on (h : handle) (hs : list handle) : Prop :=
  count Read (h_loc h) hs + count Write (h_loc h) hs = 0.

#[export] Instance last_on_dec h hs : Decision (last_on h hs) := Nat.eq_dec _ _.

(** What disposing [h] does to the holders and the queues: nobody is woken while
    another handle is left; else the oldest waiting writer gets the lock, and
    only without a waiting writer all waiting readers do, or the entry goes. *)
Lemma dispose_spec n s h lk :
  Inv None s → granted s !! n = Some h → lock_of (h_key h) s = Some lk →
  let hs := delete n (granted s) in
  let s' := dispose h (State (heap s) (next_loc s) (locks s) hs) in
  (¬ last_on h hs → granted s' = hs ∧
    ∃ lk', lock_of (h_key h) s' = Some lk' ∧
    waitingReaders lk' = waitingReaders lk ∧ waitingWriters lk' = waitingWriters lk) ∧
  (last_on h hs →
    match waitingWriters lk, waitingReaders lk with
    | id :: ww, wr =>
        granted s' = Handle id Write (h_key h) (h_loc h) :: hs ∧
        lock_of (h_key h) s' = Some (Lock 0 true wr ww)
    | [], [] => granted s' = hs ∧ locks s' !! h_key h = None
    | [], wr =>
        granted s' = read_handles (h_key h) (h_loc h) wr ++ hs ∧
        lock_of (h_key h) s' = Some (Lock (Z.of_nat (length wr)) false [] [])
    end).
Proof.
  intros HI Hn Hlk hs s'.
  destruct (release_spec n s h HI Hn) as (Hk & lk0 & Hh & [Hr Hw Ho _ _ _] & Er & Ew).
  fold hs in Hr, Hw, Ho. unfold lock_of in Hlk. rewrite Hk, Hh in Hlk. injection Hlk as ->.
  unfold s', dispose, last_on. simpl. rewrite Hh. unfold process, lock_of. simpl.
  rewrite Hk, lookup_insert_eq.
  destruct (release (h_mode h) lk) as [r1 w1 wr1 ww1]. simpl in *. subst r1 w1 wr1 ww1.
  split; intros Hlast.
  - replace (bool_decide _ || _) with true.
    2:{ symmetry. apply orb_true_iff. destruct (decide (count Write (h_loc h) hs = 1)).
        - left. by apply bool_decide_eq_true_2.
        - right. apply Z.ltb_lt. lia. }
    simpl. rewrite Hk, lookup_insert_eq. by eauto.
  - assert (count Read (h_loc h) hs = 0) as -> by lia.
    rewrite bool_decide_eq_false_2 by lia. simpl.
    destruct (waitingWriters lk) as [|id ww].
    + erewrite wake_readers_eq by (simpl; apply lookup_insert_eq). simpl. rewrite lookup_insert_eq.
      destruct (waitingReaders lk) as [|id wr]; simpl; [by rewrite lookup_delete_eq|].
      by rewrite Hk, lookup_insert_eq.
    + erewrite grant_write_eq by (simpl; apply lookup_insert_eq). simpl.
      by rewrite Hk, lookup_insert_eq.
Qed.

(** C9. Mutual exclusion: in every reachable state, while a write handle on a
    key is outstanding, no other handle on that key is. *)
Theorem lock_mutual_exclusion s n h h' :
  reachable step init s → granted s !! n = Some h → h_mode h = Write →
  h' ∈ delete n (granted s) → h_key h' ≠ h_key h.
Proof.
  intros Hs%reachable_Inv Hn Hm Hh' Hk.
  destruct (release_spec n s h Hs Hn) as (Hl & lk & Hh & [_ Hw _ _ _ _] & _).
  assert (h' ∈ granted s) as Hin' by (rewrite (delete_Permutation _ _ _ Hn); by right).
  pose proof (inv_handle _ _ Hs h' Hin') as Hl'.
  assert (h_loc h' = h_loc h) as El by congruence.
  destruct (inv_lock _ _ Hs _ _ Hl) as (_ & lk' & Hlk' & [_ _ Ho He _ _]).
  apply delete_Permutation in Hn. rewrite (count_perm _ _ _ _ Hn), count_cons, decide_True in Ho, He by done.
  rewrite (count_perm _ _ _ _ Hn), count_cons in He.
  destruct (h_mode h') eqn:Em.
  - pose proof (count_pos Read _ _ _ Hh' Em El). lia.
  - pose proof (count_pos Write _ _ _ Hh' Em El). lia.
Qed.

(** A key with an entry in the table has an outstanding handle. *)
Lemma held_entry k l s :
  Inv None s → locks s !! k = Some l → ∃ h, h ∈ granted s ∧ h_key h = k.
Proof.
  intros Hs Hk. destruct (inv_lock _ _ Hs k l Hk) as (_ & lk & _ & [_ _ _ _ Hb _]).
  rewrite bool_decide_eq_true_2 in Hb by done. specialize (Hb eq_refl).
  assert (∃ h, h ∈ granted s ∧ h_loc h = l) as (h & Hh & Hl).
  { destruct (decide (0 < count Read l (granted s))) as [Hc|Hc].
    - apply count_exists in Hc. naive_solver.
    - assert (0 < count Write l (granted s)) as Hc' by lia.
      apply count_exists in Hc'. naive_solver. }
  exists h. split; [done|]. pose proof (inv_handle _ _ Hs h Hh) as Hk'.
  apply (inv_inj _ _ Hs _ _ l); congruence.
Qed.

(** No lost wake-up: in every reachable state the table has an entry for a
    key exactly when a handle on it is outstanding, so every queued call waits
    for a holder that will run [process]; and a reader only ever queues behind
    a writer that holds the lock or waits for it. *)
Theorem lock_no_lost_wakeup s k :
  reachable step init s →
  (is_Some (locks s !! k) ↔ ∃ h, h ∈ granted s ∧ h_key h = k) ∧
  (∀ id, waits k s id → ∃ h, h ∈ granted s ∧ h_key h = k) ∧
  (∀ lk id, lock_of k s = Some lk → id ∈ waitingReaders lk →
     writer lk = true ∨ waitingWriters lk ≠ []).
Proof.
  intros Hs%reachable_Inv.
  split_and!.
  - split; [intros [l Hl]; by eapply held_entry|]. intros (h & Hh & <-). by rewrite (inv_handle _ _ Hs h Hh).
  - intros id (lk & Hlk & _). unfold lock_of in Hlk.
    destruct (locks s !! k) eqn:E; [by eapply held_entry|done].
  - intros lk id Hlk Hid. unfold lock_of in Hlk. destruct (locks s !! k) as [l|] eqn:E; [|done].
    destruct (inv_lock _ _ Hs k l E) as (_ & lk' & Hh & [_ _ _ _ Hb Hwt]). simplify_eq.
    rewrite bool_decide_eq_true_2 in Hb by done. apply Hwt; [by apply Hb|].
    intros Hnil. rewrite Hnil in Hid. no_member.
Qed.

(** Hand-over: in every reachable state, disposing a handle wakes nobody
    while another handle on the lock is left; disposing the last one grants the
    oldest waiting writer and leaves the readers queued, grants all the waiting
    readers when no writer waits, and deletes the table entry when nobody does. *)
Theorem lock_handover s n h lk :
  reachable step init s → granted s !! n = Some h → lock_of (h_key h) s = Some lk →
  let hs := delete n (granted s) in
  ∃ s', step (Dispose n) s = Some s' ∧
  (¬ last_on h hs → granted s' = hs ∧
    ∃ lk', lock_of (h_key h) s' = Some lk' ∧
    waitingReaders lk' = waitingReaders lk ∧ waitingWriters lk' = waitingWriters lk) ∧
  (last_on h hs →
    match waitingWriters lk, waitingReaders lk with
    | id :: ww, wr =>
        granted s' = Handle id Write (h_key h) (h_loc h) :: hs ∧
        lock_of (h_key h) s' = Some (Lock 0 true wr ww)
    | [], [] => granted s' = hs ∧ locks s' !! h_key h = None
    | [], wr =>
        granted s' = read_handles (h_key h) (h_loc h) wr ++ hs ∧
        lock_of (h_key h) s' = Some (Lock (Z.of_nat (length wr)) false [] [])
    end).
Proof.
  intros Hs%reachable_Inv Hn Hlk hs. simpl. rewrite Hn. eexists. split; [done|].
  by apply dispose_spec.
Qed.

(** The outstanding handles on a key. *)
Definition held (k : jsstr) (hs : list handle) : nat := length (filter (λ h, h_key h = k) hs).

(** The waiting calls weigh two, the handles on the key one: every disposal of
    a handle on it makes the weight smaller. *)
Definition weight (k : jsstr) (s : state) : nat :=
  held k (granted s) +
  match lock_of k s with
  | Some lk => 2 * (length (waitingReaders lk) + length (waitingWriters lk))
  | None => 0
  end.

Lemma held_cons k h hs : held k (h :: hs) = (if decide (h_key h = k) then 1 else 0) + held k hs.
Proof. unfold held. rewrite filter_cons. by case_decide. Qed.

Lemma held_app k hs hs' : held k (hs ++ hs') = held k hs + held k hs'.
Proof. unfold held. by rewrite filter_app, length_app. Qed.

Lemma held_perm k hs hs' : hs ≡ₚ hs' → held k hs = held k hs'.
Proof. intros H. unfold held. by rewrite H. Qed.

Lemma held_read_handles k l ids : held k (read_handles k l ids) = length ids.
Proof.
  induction ids as [|id ids IH]; [done|].
  rewrite read_handles_cons, held_app, IH, held_cons, decide_True by done. simpl.
  change (held k []) with 0. lia.
Qed.

(** A disposal on the key makes the weight smaller, and grants the calls that
    leave the queues. *)
Lemma dispose_progress s n h id :
  Inv None s → granted s !! n = Some h → waits (h_key h) s id →
  ∃ s', step (Dispose n) s = Some s' ∧ Inv None s' ∧ weight (h_key h) s' < weight (h_key h) s ∧
    (waits (h_key h) s' id ∨ ∃ h', h' ∈ granted s' ∧ h_id h' = id ∧ h_key h' = h_key h).
Proof.
  intros Hs Hn (lk & Hlk & Hid).
  pose proof (dispose_spec n s h lk Hs Hn Hlk) as [Hleft Hlast].
  assert (step (Dispose n) s = Some (dispose h
    (State (heap s) (next_loc s) (locks s) (delete n (granted s))))) as Hstep
    by (simpl; by rewrite Hn).
  pose proof (step_Inv _ _ _ Hs Hstep) as Hs'.
  assert (held (h_key h) (granted s) = 1 + held (h_key h) (delete n (granted s))) as Hheld.
  { apply delete_Permutation in Hn. rewrite (held_perm _ _ _ Hn).
    by rewrite held_cons, decide_True. }
  set (s' := dispose h _) in *. set (hs := delete n (granted s)) in *.
  exists s'. split; [done|]. split; [done|]. unfold weight, waits. rewrite Hlk, Hheld. clear Hheld.
  destruct (decide (last_on h hs)) as [Hl|Hl].
  - specialize (Hlast Hl). destruct (waitingWriters lk) as [|id0 ww].
    + destruct (waitingReaders lk) as [|id0 wr] eqn:Ewr.
      { exfalso. destruct Hid as [Hid|Hid]; no_member. }
      destruct Hlast as [-> ->]. rewrite held_app, held_read_handles. simpl. split; [lia|]. right.
      destruct Hid as [Hid|Hid]; [|no_member].
      exists (Handle id Read (h_key h) (h_loc h)). split; [|done].
      apply elem_of_app. left. apply elem_of_read_handles. eauto.
    + destruct Hlast as [-> ->]. rewrite held_cons, decide_True by done. simpl. split; [lia|].
      destruct Hid as [Hid|[->|Hid]%elem_of_cons]; [left; eauto| |left; eauto].
      right. eexists. split; [by left|done].
  - destruct (Hleft Hl) as (-> & lk' & Elk & Er & Ew). rewrite Elk, Er, Ew. split; [lia|].
    left. exists lk'. by rewrite Er, Ew.
Qed.

(** [drain k j s s']: [j] disposals of handles on [k] lead from [s] to [s']. *)
Inductive drain (k : jsstr) : nat → state → state → Prop :=
| drain_refl s : drain k 0 s s
| drain_step j s n h s1 s2 :
    granted s !! n = Some h → h_key h = k → step (Dispose n) s = Some s1 →
    drain k j s1 s2 → drain k (S j) s s2.

(** Starvation freedom of the queues: from every reachable state in which a
    call waits for a key, disposing handles on that key, and nothing else, leads
    to a state where the call has its handle, in at most [weight] disposals. *)
Theorem lock_waiter_served s k id :
  reachable step init s → waits k s id →
  ∃ j s', drain k j s s' ∧ j <= weight k s ∧ ∃ h, h ∈ granted s' ∧ h_id h = id ∧ h_key h = k.
Proof.
  intros Hs%reachable_Inv. remember (weight k s) as w eqn:Ew. assert (weight k s ≤ w) as Hw by lia.
  clear Ew. revert s Hs Hw. induction w as [w IH] using lt_wf_ind. intros s Hs Hw Hwait.
  assert (∃ n h, granted s !! n = Some h ∧ h_key h = k) as (n & h & Hn & <-).
  { destruct Hwait as (lk & Hlk & _). unfold lock_of in Hlk.
    destruct (locks s !! k) as [l|] eqn:E; [|done].
    destruct (held_entry k l s Hs E) as (h & Hh & Hk).
    apply list_elem_of_lookup in Hh as [n Hn]. eauto. }
  destruct (dispose_progress s n h id Hs Hn Hwait) as (s1 & Hst & Hs1 & Hlt & [Hw1|Hg]).
  - destruct (IH (weight (h_key h) s1)) with (s := s1) as (j & s' & Hd & Hj & Hg); [lia|done|lia|done|].
    exists (S j), s'. split; [by eapply drain_step|]. split; [lia|done].
  - exists 1, s1. split; [eapply drain_step; [done|done|done|constructor]|]. split; [lia|done].
Qed.

(** A session in which a writer overtakes a later reader. *)
Definition demo : list action :=
  [Call Read 1 (js "s"); Call Write 2 (js "s"); Call Read 3 (js "s")].

Example lock_demo_queues :
  (s ← run step demo init; lock_of (js "s") s) = Some (Lock 1 false [3] [2]).
Proof. by vm_compute. Qed.

Lemma demo_reachable acts s : run step acts init = Some s → reachable step init s.
Proof. intros H. eapply run_reachable; [constructor|exact H]. Qed.

Lemma lock_mutual_exclusion_witness :
  let s := default init (run step [Call Write 1 (js "s"); Call Read 2 (js "t")] init) in
  ∃ h h', granted s !! 1 = Some h ∧ h_mode h = Write ∧ h' ∈ delete 1 (granted s) ∧ h_key h' ≠ h_key h.
Proof.
  eexists _, _. split; [vm_compute; reflexivity|]. split; [reflexivity|].
  split; [apply list_elem_of_singleton; reflexivity|].
  eapply (lock_mutual_exclusion _ 1 _ _).
  - apply (demo_reachable [Call Write 1 (js "s"); Call Read 2 (js "t")]). vm_compute. reflexivity.
  - vm_compute. reflexivity.
  - reflexivity.
  - apply list_elem_of_singleton. reflexivity.
Defined.

Lemma lock_no_lost_wakeup_witness :
  let s := default init (run step demo init) in
  is_Some (locks s !! js "s") ↔ ∃ h, h ∈ granted s ∧ h_key h = js "s".
Proof.
  apply (lock_no_lost_wakeup _ (js "s")). apply (demo_reachable demo). vm_compute. reflexivity.
Defined.

Lemma lock_handover_witness :
  let s := default init (run step demo init) in
  ∃ s', step (Dispose 0) s = Some s' ∧ map h_id (granted s') = [2].
Proof.
  edestruct (lock_handover (default init (run step demo init)) 0) as (s' & Hs & _ & Hl).
  - apply (demo_reachable demo). vm_compute. reflexivity.
  - vm_compute. reflexivity.
  - vm_compute. reflexivity.
  - exists s'. split; [exact Hs|]. destruct Hl as [-> _]; reflexivity.
Defined.

Lemma lock_waiter_served_witness :
  let s := default init (run step demo init) in
  ∃ j s', drain (js "s") j s s' ∧ j <= weight (js "s") s ∧
          ∃ h, h ∈ granted s' ∧ h_id h = 3 ∧ h_key h = js "s".
Proof.
  apply (lock_waiter_served _ (js "s") 3).
  - apply (demo_reachable demo). vm_compute. reflexivity.
  - eexists. split; [vm_compute; reflexivity|]. left. by left.
Defined.
