(* ===== verification/Wildcard.v ===== *)
(** Wildcard patterns ([util/wildcard.ts]).

    [match] rewrites a pattern to the text of a regular expression and runs it;
    here that text is built the same way, read back by [parse_regex], which
    knows the fragment of the regular expression syntax the rewriting can
    produce, and run by [regex_test].  The model is the one of a platform other
    than win32: the flags are [s], so a dot matches every code unit. *)

From S2P Require Import Prelude JsString.

Definition u_star : N := 42.       (* * *)
Definition u_qmark : N := 63.      (* ? *)
Definition u_slash : N := 47.
Definition u_backslash : N := 92.
Definition u_dot : N := 46.
Definition u_space : N := 32.

(** [s.replaceAll] of the backslash by the slash. *)
Definition normalize_slashes (s : jsstr) : jsstr :=
  map (λ c, if (c =? u_backslash)%N then u_slash else c) s.

(** The class [.+^${}()|[\]\\] of the first replacement. *)
Definition special_units : jsstr := js ".+^${}()|[]\".
Definition is_special (c : N) : bool := bool_decide (c ∈ special_units).

Definition replace_unit (c : N) (by_ s : jsstr) : jsstr :=
  flat_map (λ x, if (x =? c)%N then by_ else [x]) s.

(** The three [replace] calls of [match], in order. *)
Definition escape_special (s : jsstr) : jsstr :=
  flat_map (λ x, if is_special x then [u_backslash; x] else [x]) s.
Definition escaped (pattern : jsstr) : jsstr :=
  replace_unit u_qmark [u_dot] (replace_unit u_star [u_dot; u_star] (escape_special pattern)).

(** The optional trailing part. *)
Definition regex_source (pattern : jsstr) : jsstr :=
  let e := escaped pattern in
  if endsWith e (js " .*") then take (length e - 3) e ++ js "( .*)?" else e.

(** ** The fragment of the regular expression syntax *)

Inductive tok := TLit (c : N) | TAny | TStar.

(** The atoms between ^ and $, and whether the group ( .* )? ends them. *)
Fixpoint parse_regex (fuel : nat) (s : jsstr) : option (list tok * bool) :=
  match fuel with
  | O => None
  | S fuel =>
      let add t r := match r with Some (ts, o) => Some (t :: ts, o) | None => None end in
      match s with
      | [] => Some ([], false)
      | c :: s1 =>
          if bool_decide (s = js "( .*)?") then Some ([], true)
          else if (c =? u_backslash)%N then
            match s1 with
            | c' :: s2 => add (TLit c') (parse_regex fuel s2)
            | [] => None
            end
          else if (c =? u_dot)%N then
            match s1 with
            | c' :: s2 => if (c' =? u_star)%N then add TStar (parse_regex fuel s2)
                          else add TAny (parse_regex fuel s1)
            | [] => Some ([TAny], false)
            end
          else if is_special c || (c =? u_star)%N || (c =? u_qmark)%N then None
          else add (TLit c) (parse_regex fuel s1)
      end
  end.

(** Backtracking over the lengths a star can take. *)
Fixpoint some_suffix (p : jsstr → bool) (s : jsstr) : bool :=
  p s || match s with [] => false | _ :: s' => some_suffix p s' end.

Fixpoint run_toks (ts : list tok) (s : jsstr) : bool :=
  match ts with
  | [] => match s with [] => true | _ => false end
  | TLit c :: ts' => match s with x :: s' => (x =? c)%N && run_toks ts' s' | [] => false end
  | TAny :: ts' => match s with _ :: s' => run_toks ts' s' | [] => false end
  | TStar :: ts' => some_suffix (run_toks ts') s
  end.

(** [new RegExp("^" + source + "$", "s").test(str)]; an unparsed source would
    throw, which [regex_source_parses] excludes. *)
Definition regex_test (source str : jsstr) : bool :=
  match parse_regex (S (length source)) source with
  | Some (ts, false) => run_toks ts str
  | Some (ts, true) => run_toks ts str || run_toks (ts ++ [TLit u_space; TStar]) str
  | None => false
  end.

Definition match_ (str pattern : jsstr) : bool :=
  regex_test (regex_source (normalize_slashes pattern)) (normalize_slashes str).

(** ** Tables of patterns *)

(** The order of [<] on strings, by code units. *)
Fixpoint str_compare (a b : jsstr) : comparison :=
  match a, b with
  | [], [] => Eq
  | [], _ :: _ => Lt
  | _ :: _, [] => Gt
  | x :: a', y :: b' => match (x ?= y)%N with Eq => str_compare a' b' | c => c end
  end.

(** The keys [key.length] and [key] of [sortBy], both ascending. *)
Definition pattern_cmp {T} (a b : jsstr * T) : Z :=
  match Nat.compare (length a.1) (length b.1) with
  | Lt => -1
  | Gt => 1
  | Eq => match str_compare a.1 b.1 with Lt => -1 | Eq => 0 | Gt => 1 end
  end.

(** [all(input, patterns)]: the value of the last match in sorted order. *)
Definition all_step {T} (input : jsstr) (result : option T) (e : jsstr * T) : option T :=
  if match_ input e.1 then Some e.2 else result.
Definition all {T} (input : jsstr) (patterns : list (jsstr * T)) : option T :=
  foldl (all_step input) None (sort_by pattern_cmp patterns).

(** [pattern.split(/\s+/)]. *)
Fixpoint skip_spaces (s : jsstr) : jsstr :=
  match s with c :: s' => if is_space c then skip_spaces s' else s | [] => [] end.
Fixpoint split_spaces (fuel : nat) (cur s : jsstr) : list jsstr :=
  match fuel with
  | O => [reverse cur]
  | S fuel =>
      match s with
      | [] => [reverse cur]
      | c :: s' => if is_space c then reverse cur :: split_spaces fuel [] (skip_spaces s')
                   else split_spaces fuel (c :: cur) s'
      end
  end.
Definition split_ws (s : jsstr) : list jsstr := split_spaces (S (length s)) [] s.

Fixpoint some_split {A} (p : A → list A → bool) (items : list A) : bool :=
  match items with
  | [] => false
  | x :: rest => p x rest || some_split p rest
  end.

Fixpoint matchSequence (items patterns : list jsstr) {struct patterns} : bool :=
  match patterns with
  | [] => true
  | pattern :: rest =>
      if bool_decide (pattern = js "*") then matchSequence items rest
      else some_split (λ x items', match_ x pattern && matchSequence items' rest) items
  end.

(** [allStructured({head, tail}, patterns)]. *)
Definition structured_step {T} (head : jsstr) (tail : list jsstr)
    (result : option T) (e : jsstr * T) : option T :=
  match split_ws e.1 with
  | [] => result
  | p0 :: ps =>
      if negb (match_ head p0) then result
      else if Nat.eqb (length (p0 :: ps)) 1 || matchSequence tail ps then Some e.2 else result
  end.
Definition allStructured {T} (head : jsstr) (tail : list jsstr) (patterns : list (jsstr * T)) : option T :=
  foldl (structured_step head tail) None (sort_by pattern_cmp patterns).

Example match_ls : map (λ s, match_ (js s) (js "ls *")) ["ls"; "ls -la"; "lsx"]%string = [true; true; false].
Proof. by vm_compute. Qed.
Example match_dot : map (λ s, match_ (js s) (js "a.b?")) ["a.bc"; "axbc"]%string = [true; false].
Proof. by vm_compute. Qed.

(** ** The rewriting means the glob *)

(** The tokens a pattern stands for, unit by unit. *)
Definition tok_of (c : N) : tok :=
  if (c =? u_star)%N then TStar else if (c =? u_qmark)%N then TAny else TLit c.
Definition glob_of (p : jsstr) : list tok := map tok_of p.

(** The strings a list of tokens denotes. *)
Inductive denotes : list tok → jsstr → Prop :=
| den_nil : denotes [] []
| den_lit c ts s : denotes ts s → denotes (TLit c :: ts) (c :: s)
| den_any c ts s : denotes ts s → denotes (TAny :: ts) (c :: s)
| den_star s0 ts s : denotes ts s → denotes (TStar :: ts) (s0 ++ s).

Lemma some_suffix_spec p s : some_suffix p s = true ↔ ∃ s0 s1, s = s0 ++ s1 ∧ p s1 = true.
Proof.
  induction s as [|c s IH]; simpl; rewrite orb_true_iff.
  - split; [intros [?|?]; [by exists [], []|done]|].
    intros (s0 & s1 & E & H). symmetry in E. apply app_nil in E as [-> ->]. by left.
  - rewrite IH. split.
    + intros [?|(s0 & s1 & -> & ?)]; [by exists [], (c :: s)|by exists (c :: s0), s1].
    + intros (s0 & s1 & E & H). destruct s0 as [|c' s0]; simplify_eq/=; [by left|right; eauto].
Qed.

Lemma run_toks_spec ts s : run_toks ts s = true ↔ denotes ts s.
Proof.
  revert s. induction ts as [|t ts IH]; intros s; simpl.
  - split; [by destruct s; intros; simplify_eq; constructor|by inversion 1].
  - destruct t as [c| |].
    + split.
      * destruct s as [|x s]; [done|]. intros H. bool_to_prop.
        match goal with H : (_ =? _)%N = true |- _ => apply N.eqb_eq in H; subst x end.
        constructor. by apply IH.
      * inversion 1; subst. rewrite N.eqb_refl. by apply IH.
    + split; [destruct s as [|x s]; [done|]; intros; constructor; by apply IH|].
      inversion 1; subst. by apply IH.
    + rewrite some_suffix_spec. split.
      * intros (s0 & s1 & -> & H). constructor. by apply IH.
      * inversion 1; subst. eexists _, _. split; [done|]. by apply IH.
Qed.

Lemma denotes_app ts1 ts2 s :
  denotes (ts1 ++ ts2) s ↔ ∃ s1 s2, s = s1 ++ s2 ∧ denotes ts1 s1 ∧ denotes ts2 s2.
Proof.
  revert s. induction ts1 as [|t ts1 IH]; intros s; simpl.
  - split; [intros; exists [], s; by repeat constructor|].
    intros (s1 & s2 & -> & H & ?). by inversion H.
  - split.
    + inversion 1 as [|c ? s' Hd|c ? s' Hd|s0 ? s' Hd]; subst; apply IH in Hd as (s1 & s2 & -> & ? & ?).
      * exists (c :: s1), s2. split; [done|]. split; [by constructor|done].
      * exists (c :: s1), s2. split; [done|]. split; [by constructor|done].
      * exists (s0 ++ s1), s2. split; [by rewrite app_assoc|]. split; [by constructor|done].
    + intros (s1 & s2 & -> & H & ?). inversion H; subst; rewrite <- ?app_assoc; constructor; apply IH; eauto.
Qed.

(** The text that stands for one unit of the pattern. *)
Definition esc_unit (c : N) : jsstr :=
  if is_special c then [u_backslash; c]
  else if (c =? u_star)%N then [u_dot; u_star]
  else if (c =? u_qmark)%N then [u_dot] else [c].

Lemma is_special_cases c :
  is_special c = true → c ≠ u_star ∧ c ≠ u_qmark.
Proof. intros H. split; intros ->; by vm_compute in H. Qed.

Lemma escaped_cons c p : escaped (c :: p) = esc_unit c ++ escaped p.
Proof.
  unfold escaped, escape_special, replace_unit, esc_unit. simpl.
  destruct (is_special c) eqn:Hs; simpl.
  - destruct (is_special_cases c Hs) as [H1 H2].
    destruct (N.eqb_spec c u_star); [done|]. simpl. by destruct (N.eqb_spec c u_qmark).
  - destruct (N.eqb_spec c u_star) as [->|]; simpl; [done|]. by destruct (N.eqb_spec c u_qmark).
Qed.

Lemma escaped_app p q : escaped (p ++ q) = escaped p ++ escaped q.
Proof. induction p as [|c p IH]; [done|]. simpl. by rewrite !escaped_cons, IH, app_assoc. Qed.

Lemma esc_unit_head c : ∃ x s, esc_unit c = x :: s ∧ x ≠ u_star.
Proof.
  unfold esc_unit. destruct (is_special c); [by eexists _, _|].
  destruct (N.eqb_spec c u_star); [by eexists _, _|].
  destruct (c =? u_qmark)%N; by eexists _, _.
Qed.

(** No text of a pattern starts with a star, so a dot before it stays alone. *)
Lemma escaped_head p (opt : bool) c s :
  escaped p ++ (if opt then js "( .*)?" else []) = c :: s → c ≠ u_star.
Proof.
  destruct p as [|c0 p].
  - destruct opt; [|done]. by intros [= <- <-].
  - rewrite escaped_cons. destruct (esc_unit_head c0) as (x & s0 & -> & Hx). by intros [= <- _].
Qed.

(** A unit that is not special is none of the units with a meaning. *)
Lemma not_special c x : is_special c = false → is_special x = true → c ≠ x.
Proof. congruence. Qed.

(** Reading back the text of a pattern, with or without the optional tail. *)
Lemma parse_escaped p (opt : bool) fuel :
  let tail := if opt then js "( .*)?" else [] in
  length (escaped p) < fuel →
  parse_regex fuel (escaped p ++ tail) = Some (glob_of p, opt).
Proof.
  intros tail. revert fuel. induction p as [|c p IH]; intros fuel Hf.
  - destruct fuel as [|fuel]; [simpl in Hf; lia|]. by destruct opt.
  - rewrite escaped_cons in *. rewrite length_app in Hf.

    unfold esc_unit in *. simpl glob_of. unfold tok_of at 1.
    destruct (is_special c) eqn:Hs; [|destruct (N.eqb_spec c u_star) as [->|Hst];
      [|destruct (N.eqb_spec c u_qmark) as [->|Hq]]]; simpl in Hf;
      (destruct fuel as [|fuel]; [lia|]); cbn [app].
    + destruct (is_special_cases c Hs) as [H1 H2].
      destruct (N.eqb_spec c u_star); [done|]. destruct (N.eqb_spec c u_qmark); [done|].
      cbn -[js u_backslash]. rewrite bool_decide_eq_false_2 by done. simpl. by rewrite IH by lia.
    + cbn -[js u_backslash]. rewrite bool_decide_eq_false_2 by done. simpl. by rewrite IH by lia.
    + cbn -[js u_backslash]. rewrite bool_decide_eq_false_2 by done. simpl.
      destruct (escaped p ++ tail) as [|c' s2] eqn:E.
      * apply app_nil in E as [E1 E2].
        destruct p as [|c' p]; [by destruct opt|].
        rewrite escaped_cons in E1. destruct (esc_unit_head c') as (? & ? & Eh & _). by rewrite Eh in E1.
      * apply escaped_head in E as Hc'. destruct (N.eqb_spec c' u_star); [done|].
        by rewrite IH by lia.
    + assert (c ≠ 40%N ∧ c ≠ u_backslash ∧ c ≠ u_dot) as (H1 & H2 & H3)
        by (split_and!; by apply not_special).
      cbn -[js u_backslash]. rewrite bool_decide_eq_false_2 by (intros [= ? _]; done).
      rewrite (proj2 (N.eqb_neq _ _) H2), (proj2 (N.eqb_neq _ _) H3).
      rewrite Hs, (proj2 (N.eqb_neq _ _) Hst), (proj2 (N.eqb_neq _ _) Hq). simpl. by rewrite IH by lia.
Qed.

Lemma esc_unit_last c : ∃ i, esc_unit c = i ++ [if (c =? u_qmark)%N then u_dot else c].
Proof.
  unfold esc_unit. destruct (is_special c) eqn:Hs.
  - destruct (is_special_cases c Hs) as [_ H]. destruct (N.eqb_spec c u_qmark); [done|].
    by exists [u_backslash].
  - destruct (N.eqb_spec c u_star) as [->|]; [by exists [u_dot]|].
    destruct (N.eqb_spec c u_qmark); by exists [].
Qed.

Lemma escaped_last p k x :
  escaped p = k ++ [x] →
  ∃ q c, p = q ++ [c] ∧ k ++ [x] = escaped q ++ esc_unit c ∧ (if (c =? u_qmark)%N then u_dot else c) = x.
Proof.
  destruct p as [|c p _] using rev_ind; intros E; [by destruct k|].
  rewrite escaped_app in E. assert (escaped [c] = esc_unit c) as Ec
    by (rewrite escaped_cons; by rewrite app_nil_r).
  rewrite Ec in E. exists p, c. split; [done|]. split; [done|].
  destruct (esc_unit_last c) as [i Ei]. rewrite Ei, app_assoc in E. by apply app_inj_tail in E as [_ ->].
Qed.

(** The text ends with a space and a starred dot exactly when the pattern ends
    with a space and a star. *)
Lemma escaped_ends p : endsWith (escaped p) (js " .*") = true ↔ ∃ q, p = q ++ js " *".
Proof.
  unfold endsWith. rewrite bool_decide_eq_true. split.
  - intros [k E]. change (js " .*") with ([u_space] ++ [u_dot] ++ [u_star]) in E.
    rewrite !app_assoc in E.
    apply escaped_last in E as (p1 & c1 & -> & E1 & H1).
    assert (c1 = u_star) as -> by (by destruct (N.eqb_spec c1 u_qmark)).
    change (esc_unit u_star) with ([u_dot] ++ [u_star]) in E1. rewrite app_assoc in E1.
    apply app_inj_tail in E1 as [E1 _]. apply app_inj_tail in E1 as [E1 _]. symmetry in E1.
    apply escaped_last in E1 as (p2 & c2 & -> & _ & H2).
    assert (c2 = u_space) as -> by (by destruct (N.eqb_spec c2 u_qmark)).
    exists p2. by rewrite <- app_assoc.
  - intros [q ->]. rewrite escaped_app. by exists (escaped q).
Qed.

Lemma escaped_endsWith p : endsWith (escaped p) (js " .*") = endsWith p (js " *").
Proof.
  apply eq_true_iff_eq. rewrite escaped_ends. unfold endsWith. by rewrite bool_decide_eq_true.
Qed.

(** Every pattern's text parses, to the glob it was made from. *)
Lemma regex_source_parses p :
  parse_regex (S (length (regex_source p))) (regex_source p) =
  Some (if endsWith p (js " *") then (glob_of (take (length p - 2) p), true)
        else (glob_of p, false)).
Proof.
  unfold regex_source. rewrite escaped_endsWith. destruct (endsWith p (js " *")) eqn:E.
  - unfold endsWith in E. bool_to_prop. destruct E as [q ->].
    rewrite escaped_app, !length_app. change (escaped (js " *")) with (js " .*").
    rewrite (take_app_length' q) by (simpl; lia).
    rewrite (take_app_length' (escaped q)) by (simpl; lia).
    rewrite (parse_escaped q true); [done|]. rewrite ?length_app. simpl. lia.
  - rewrite <- (app_nil_r (escaped p)) at 2. rewrite (parse_escaped p false); [done|]. lia.
Qed.

Lemma glob_of_app p q : glob_of (p ++ q) = glob_of p ++ glob_of q.
Proof. apply map_app. Qed.

Lemma regex_test_spec p s :
  regex_test (regex_source p) s = true ↔
  denotes (glob_of p) s ∨ ∃ q, p = q ++ js " *" ∧ denotes (glob_of q) s.
Proof.
  unfold regex_test. rewrite regex_source_parses. destruct (endsWith p (js " *")) eqn:E;
    unfold endsWith in E; bool_to_prop.
  - destruct E as [q ->]. rewrite length_app, (take_app_length' q) by (simpl; lia).
    rewrite orb_true_iff, !run_toks_spec, glob_of_app.
    change (glob_of (js " *")) with [TLit u_space; TStar]. split.
    + intros [?|?]; [right; eauto|by left].
    + intros [?|(q' & E & ?)]; [by right|]. left. by apply app_inv_tail in E as ->.
  - rewrite run_toks_spec. split; [by left|]. intros [?|(q & -> & _)]; [done|].
    exfalso. apply E. by exists q.
Qed.

(** C37. Pattern matching: the regular expression that [match] builds accepts
    exactly the strings the glob denotes, a star standing for any string and a
    question mark for any code unit, every other unit for itself; and a pattern
    that ends with a space and a star also accepts what the part before them
    denotes. *)
Theorem wildcard_match_spec str pattern :
  match_ str pattern = true ↔
  denotes (glob_of (normalize_slashes pattern)) (normalize_slashes str) ∨
  ∃ q, normalize_slashes pattern = q ++ js " *" ∧ denotes (glob_of q) (normalize_slashes str).
Proof. apply regex_test_spec. Qed.

(** Patterns without wildcards. *)
Lemma denotes_literal p s :
  u_star ∉ p → u_qmark ∉ p → denotes (glob_of p) s ↔ s = p.
Proof.
  revert s. induction p as [|c p IH]; intros s Hs Hq; simpl.
  - split; [by inversion 1|intros ->; constructor].
  - apply not_elem_of_cons in Hs as [Hs1 Hs2], Hq as [Hq1 Hq2].
    unfold tok_of. destruct (N.eqb_spec c u_star); [congruence|].
    destruct (N.eqb_spec c u_qmark); [congruence|]. split.
    + inversion 1; subst. f_equal. by apply IH.
    + intros ->. constructor. by apply IH.
Qed.

(** The star accepts everything. *)
Lemma match_star str : match_ str (js "*") = true.
Proof.
  apply regex_test_spec. left. change (glob_of _) with [TStar].
  rewrite <- (app_nil_r (normalize_slashes str)). repeat constructor.
Qed.

(** A pattern without wildcards accepts itself only. *)
Lemma match_literal str pattern :
  u_star ∉ normalize_slashes pattern → u_qmark ∉ normalize_slashes pattern →
  match_ str pattern = true ↔ normalize_slashes str = normalize_slashes pattern.
Proof.
  intros Hs Hq. unfold match_. rewrite regex_test_spec, denotes_literal by done. split; [|by left].
  intros [?|(q & E & _)]; [done|]. exfalso. apply Hs. rewrite E. apply elem_of_app. right.
  by vm_compute; right; left.
Qed.

(** ** The longest pattern wins *)

Lemma str_compare_refl a : str_compare a a = Eq.
Proof. induction a as [|x a IH]; simpl; [done|]. by rewrite N.compare_refl. Qed.

Lemma str_compare_eq a b : str_compare a b = Eq → a = b.
Proof.
  revert b. induction a as [|x a IH]; intros [|y b]; simpl; try done.
  destruct (N.compare_spec x y); [|done|done]. intros Hab. subst. f_equal. by apply IH.
Qed.

Lemma str_compare_antisym a b : str_compare b a = CompOpp (str_compare a b).
Proof.
  revert b. induction a as [|x a IH]; intros [|y b]; simpl; try done.
  rewrite (N.compare_antisym x y). destruct (x ?= y)%N; simpl; [apply IH|done|done].
Qed.

Lemma str_compare_trans a b c :
  str_compare a b ≠ Gt → str_compare b c ≠ Gt → str_compare a c ≠ Gt.
Proof.
  revert b c. induction a as [|x a IH]; intros [|y b] [|z c]; simpl; try done.
  destruct (N.compare_spec x y), (N.compare_spec y z), (N.compare_spec x z); subst; try done; try lia.
  apply IH.
Qed.

Section PatternOrder.
Context {T : Type}.
Implicit Types a b c : jsstr * T.

Definition pattern_le a b : Prop :=
  length a.1 < length b.1 ∨ (length a.1 = length b.1 ∧ str_compare a.1 b.1 ≠ Gt).

Lemma pattern_cmp_le a b : (pattern_cmp a b <= 0)%Z ↔ pattern_le a b.
Proof.
  unfold pattern_cmp, pattern_le.
  destruct (Nat.compare_spec (length a.1) (length b.1)) as [E|E|E].
  - destruct (str_compare a.1 b.1); intuition (congruence || lia).
  - intuition lia.
  - intuition lia.
Qed.

Lemma pattern_cmp_total a b : (pattern_cmp a b <= 0)%Z ∨ (pattern_cmp b a <= 0)%Z.
Proof.
  rewrite !pattern_cmp_le. unfold pattern_le. rewrite (str_compare_antisym a.1 b.1).
  destruct (decide (length a.1 < length b.1)); [tauto|].
  destruct (decide (length b.1 < length a.1)); [tauto|].
  destruct (str_compare a.1 b.1); simpl; intuition (congruence || lia).
Qed.

Lemma pattern_cmp_trans a b c :
  le_by pattern_cmp a b → le_by pattern_cmp b c → le_by pattern_cmp a c.
Proof.
  unfold le_by. rewrite !pattern_cmp_le. unfold pattern_le.
  pose proof (str_compare_trans a.1 b.1 c.1). intuition lia.
Qed.
End PatternOrder.

Lemma foldl_all_step {T} input (l : list (jsstr * T)) acc :
  foldl (all_step input) acc l =
  match findLast (λ e, match_ input e.1) l with Some e => Some e.2 | None => acc end.
Proof.
  revert acc. induction l as [|e l IH]; intros acc; simpl; [done|].
  rewrite IH. destruct (findLast _ l); [done|]. unfold all_step. by destruct (match_ input e.1).
Qed.

(** The last match of a sorted array is its greatest. *)
Lemma findLast_sorted {A} (R : A → A → Prop) (p : A → bool) l x y :
  StronglySorted R l → findLast p l = Some x → y ∈ l → p y = true → y = x ∨ R y x.
Proof.
  intros Hs. revert x y. induction Hs as [|z l Hs IH Hz]; intros x y Hl Hy Hp; simpl in Hl; [done|].
  destruct (findLast p l) as [w|] eqn:E.
  - injection Hl as ->. apply elem_of_cons in Hy as [->|Hy]; [|by apply IH].
    right. apply findLast_Some in E as [_ Hin]. by eapply Forall_forall in Hz.
  - destruct (p z) eqn:Ez; [|done]. injection Hl as ->. left.
    apply elem_of_cons in Hy as [->|Hy]; [done|].
    rewrite findLast_None in E. by rewrite E in Hp.
Qed.

(** Table lookup: [all] gives the value of a matching pattern that no other
    matching pattern beats, first in length and then in the order of code
    units, and nothing exactly when no pattern matches. *)
Theorem wildcard_all_longest {T} input (patterns : list (jsstr * T)) :
  match all input patterns with
  | Some v => ∃ k, (k, v) ∈ patterns ∧ match_ input k = true ∧
      ∀ k' v', (k', v') ∈ patterns → match_ input k' = true →
        length k' < length k ∨ (length k' = length k ∧ str_compare k' k ≠ Gt)
  | None => ∀ k v, (k, v) ∈ patterns → match_ input k = false
  end.
Proof.
  unfold all. rewrite foldl_all_step.
  destruct (findLast _ _) as [[k v]|] eqn:E; simpl.
  - pose proof (findLast_Some _ _ _ E) as [Hm Hin]. exists k.
    rewrite elem_of_sort_by in Hin. split; [done|]. split; [done|].
    intros k' v' Hin' Hm'. rewrite <- (elem_of_sort_by pattern_cmp) in Hin'.
    eapply (findLast_sorted (le_by pattern_cmp) _ _ _ (k', v')) in E; [|apply sort_by_sorted|done|done].
    + destruct E as [[= -> ->]|Hle].
      * right. split; [done|]. by rewrite str_compare_refl.
      * by apply pattern_cmp_le in Hle.
    + apply pattern_cmp_total.
    + apply pattern_cmp_trans.
  - intros k v Hin. apply (proj1 (findLast_None _ _) E (k, v)). by apply elem_of_sort_by.
Qed.

(** ** Sequences *)

Lemma some_split_spec {A} (p : A → list A → bool) items :
  some_split p items = true ↔ ∃ before x after, items = before ++ x :: after ∧ p x after = true.
Proof.
  induction items as [|x items IH]; simpl.
  - split; [done|]. intros (b & y & a & E & _). by destruct b.
  - rewrite orb_true_iff, IH. split.
    + intros [?|(b & y & a & -> & ?)]; [by exists [], x, items|by exists (x :: b), y, a].
    + intros (b & y & a & E & ?). destruct b as [|z b]; simplify_eq/=; [by left|right; eauto].
Qed.

Definition not_star (p : jsstr) : Prop := p ≠ js "*".
#[export] Instance not_star_dec p : Decision (not_star p).
Proof. unfold not_star. apply _. Defined.

(** Argument sequences: [matchSequence] succeeds exactly when some of the
    items, taken in order, match the patterns other than a lone star one by
    one; a lone star asks for no item. *)
Theorem matchSequence_spec items patterns :
  matchSequence items patterns = true ↔
  ∃ picked, picked `sublist_of` items ∧
    Forall2 (λ x p, match_ x p = true) picked (filter not_star patterns).
Proof.
  revert items. induction patterns as [|p ps IH]; intros items; simpl.
  - split; [|done]. intros _. exists []. split; [apply sublist_nil_l|]. by constructor.
  - rewrite filter_cons. destruct (bool_decide (p = js "*")) eqn:E; bool_to_prop.
    + rewrite decide_False by (unfold not_star; tauto). apply IH.
    + rewrite decide_True by done. rewrite some_split_spec. split.
      * intros (b & x & a & -> & H). bool_to_prop.
        match goal with H : matchSequence _ _ = true |- _ => apply IH in H as (pk & Hs & Hf) end.
        exists (x :: pk). split; [|by constructor].
        apply (sublist_inserts_l b), sublist_skip, Hs.
      * intros (pk & Hs & Hf). inversion Hf as [|x ? pk' ? Hx Hf']; subst.
        apply sublist_cons_l in Hs as (b & a & -> & Hs). exists b, x, a. split; [done|].
        rewrite Hx. apply IH. eauto.
Qed.

Example allStructured_git :
  allStructured (js "git") [js "push"; js "--force"]
    [(js "git *", 1); (js "git push --force", 2); (js "*", 0)] = Some 2.
Proof. by vm_compute. Qed.

(** Every string matches itself, read as a pattern. *)
Lemma match_refl s : match_ s s = true.
Proof.
  apply regex_test_spec. left. induction (normalize_slashes s) as [|c p IH]; simpl; [constructor|].
  unfold tok_of. destruct (c =? u_star)%N; [by apply (den_star [c])|].
  destruct (c =? u_qmark)%N; by constructor.
Qed.

#[export] Hint Resolve match_refl match_star : opencms.
