(* ===== verification/Arity.v ===== *)
(** The arity of shell command prefixes ([permission/arity.ts]): how many of a
    command's tokens name the command that a permission is granted for. *)

From S2P Require Import Prelude JsString.

(** The literal [ARITY]. *)
Definition ARITY : list (jsstr * nat) :=
  [
   (js "cat", 1); (js "cd", 1); (js "chmod", 1); (js "chown", 1);
   (js "cp", 1); (js "echo", 1); (js "env", 1); (js "export", 1);
   (js "grep", 1); (js "kill", 1); (js "killall", 1); (js "ln", 1);
   (js "ls", 1); (js "mkdir", 1); (js "mv", 1); (js "ps", 1);
   (js "pwd", 1); (js "rm", 1); (js "rmdir", 1); (js "sleep", 1);
   (js "source", 1); (js "tail", 1); (js "touch", 1); (js "unset", 1);
   (js "which", 1); (js "aws", 3); (js "az", 3); (js "bazel", 2);
   (js "brew", 2); (js "bun", 2); (js "bun run", 3); (js "bun x", 3);
   (js "cargo", 2); (js "cargo add", 3); (js "cargo run", 3); (js "cdk", 2);
   (js "cf", 2); (js "cmake", 2); (js "composer", 2); (js "consul", 2);
   (js "consul kv", 3); (js "crictl", 2); (js "deno", 2); (js "deno task", 3);
   (js "doctl", 3); (js "docker", 2); (js "docker builder", 3); (js "docker compose", 3);
   (js "docker container", 3); (js "docker image", 3); (js "docker network", 3); (js "docker volume", 3);
   (js "eksctl", 2); (js "eksctl create", 3); (js "firebase", 2); (js "flyctl", 2);
   (js "gcloud", 3); (js "gh", 3); (js "git", 2); (js "git config", 3);
   (js "git remote", 3); (js "git stash", 3); (js "go", 2); (js "gradle", 2);
   (js "helm", 2); (js "heroku", 2); (js "hugo", 2); (js "ip", 2);
   (js "ip addr", 3); (js "ip link", 3); (js "ip netns", 3); (js "ip route", 3);
   (js "kind", 2); (js "kind create", 3); (js "kubectl", 2); (js "kubectl kustomize", 3);
   (js "kubectl rollout", 3); (js "kustomize", 2); (js "make", 2); (js "mc", 2);
   (js "mc admin", 3); (js "minikube", 2); (js "mongosh", 2); (js "mysql", 2);
   (js "mvn", 2); (js "ng", 2); (js "npm", 2); (js "npm exec", 3);
   (js "npm init", 3); (js "npm run", 3); (js "npm view", 3); (js "nvm", 2);
   (js "nx", 2); (js "openssl", 2); (js "openssl req", 3); (js "openssl x509", 3);
   (js "pip", 2); (js "pipenv", 2); (js "pnpm", 2); (js "pnpm dlx", 3);
   (js "pnpm exec", 3); (js "pnpm run", 3); (js "poetry", 2); (js "podman", 2);
   (js "podman container", 3); (js "podman image", 3); (js "psql", 2); (js "pulumi", 2);
   (js "pulumi stack", 3); (js "pyenv", 2); (js "python", 2); (js "rake", 2);
   (js "rbenv", 2); (js "redis-cli", 2); (js "rustup", 2); (js "serverless", 2);
   (js "sfdx", 3); (js "skaffold", 2); (js "sls", 2); (js "sst", 2);
   (js "swift", 2); (js "systemctl", 2); (js "terraform", 2); (js "terraform workspace", 3);
   (js "tmux", 2); (js "turbo", 2); (js "ufw", 2); (js "vault", 2);
   (js "vault auth", 3); (js "vault kv", 3); (js "vercel", 2); (js "volta", 2);
   (js "wp", 2); (js "yarn", 2); (js "yarn dlx", 3); (js "yarn run", 3)].

(** The names every object inherits from [Object.prototype].  Reading one off
    the literal yields a function or an object, which [slice] takes for 0. *)
Definition object_prototype : list jsstr :=
  [js "constructor"; js "__proto__"; js "hasOwnProperty"; js "isPrototypeOf";
   js "propertyIsEnumerable"; js "toLocaleString"; js "toString"; js "valueOf";
   js "__defineGetter__"; js "__defineSetter__"; js "__lookupGetter__"; js "__lookupSetter__"].

(** [ARITY[prefix]], as the end that [slice(0, arity)] makes of it. *)
Definition arity_value (prefix : jsstr) : option nat :=
  match find (λ e, bool_decide (e.1 = prefix)) ARITY with
  | Some e => Some e.2
  | None => if bool_decide (prefix ∈ object_prototype) then Some 0 else None
  end.

(** [tokens.slice(0, len).join(" ")]. *)
Definition prefix_key (tokens : list jsstr) (len : nat) : jsstr := join (js " ") (take len tokens).

(** The loop of [prefix], from [len] down to 1. *)
Fixpoint prefix_loop (tokens : list jsstr) (len : nat) : option nat :=
  match len with
  | O => None
  | S l =>
      match arity_value (prefix_key tokens len) with
      | Some arity => Some arity
      | None => prefix_loop tokens l
      end
  end.

Definition prefix (tokens : list jsstr) : list jsstr :=
  match prefix_loop tokens (length tokens) with
  | Some arity => take arity tokens
  | None => if Nat.eqb (length tokens) 0 then [] else take 1 tokens
  end.

Example prefix_git : prefix [js "git"; js "checkout"; js "main"] = [js "git"; js "checkout"].
Proof. by vm_compute. Qed.
Example prefix_npm_run : prefix [js "npm"; js "run"; js "dev"; js "-x"] = [js "npm"; js "run"; js "dev"].
Proof. by vm_compute. Qed.

Lemma prefix_loop_Some tokens len a :
  prefix_loop tokens len = Some a →
  ∃ l, 0 < l <= len ∧ arity_value (prefix_key tokens l) = Some a ∧
    ∀ l', l < l' <= len → arity_value (prefix_key tokens l') = None.
Proof.
  induction len as [|len IH]; cbn [prefix_loop]; [done|].
  destruct (arity_value _) as [a'|] eqn:E.
  - intros [= ->]. exists (S len). split; [lia|]. split; [done|lia].
  - intros (l & ? & ? & Hl)%IH. exists l. split; [lia|]. split; [done|]. intros l' Hl'.
    destruct (decide (l' = S len)) as [->|]; [done|]. apply Hl. lia.
Qed.

Lemma prefix_loop_None tokens len :
  prefix_loop tokens len = None → ∀ l, 0 < l <= len → arity_value (prefix_key tokens l) = None.
Proof.
  induction len as [|len IH]; cbn [prefix_loop]; [lia|].
  destruct (arity_value _) eqn:E; [done|]. intros H l Hl.
  destruct (decide (l = S len)) as [->|]; [done|]. apply IH; [done|lia].
Qed.

Lemma arity_positive : Forall (λ e, 1 <= e.2) ARITY.
Proof. repeat (constructor; [vm_compute; lia|]). constructor. Qed.

Lemma arity_not_inherited e : e ∈ ARITY → e.1 ∉ object_prototype.
Proof.
  intros He. pose proof (proj1 (Forall_forall (λ e, e.1 ∉ object_prototype) ARITY)) as H.
  apply H; [|done]. apply (bool_decide_unpack _). by vm_compute.
Qed.

(** Longest listed prefix: the command named by the tokens is as many of
    them as the longest listed prefix asks for, and the first token when none is
    listed; it is a non-empty prefix of the tokens, unless that longest listed
    prefix is a name inherited from [Object.prototype], and then it is empty. *)
Theorem arity_prefix_longest tokens :
  tokens ≠ [] →
  (∃ l a, 0 < l <= length tokens ∧ arity_value (prefix_key tokens l) = Some a ∧
     (∀ l', l < l' <= length tokens → arity_value (prefix_key tokens l') = None) ∧
     prefix tokens = take a tokens ∧
     (prefix tokens = [] ↔ prefix_key tokens l ∈ object_prototype)) ∨
  ((∀ l, 0 < l <= length tokens → arity_value (prefix_key tokens l) = None) ∧
     prefix tokens = take 1 tokens).
Proof.
  intros Hne. unfold prefix. destruct (prefix_loop tokens (length tokens)) as [a|] eqn:E.
  - left. apply prefix_loop_Some in E as (l & Hl & Ha & Hmax). exists l, a.
    split_and!; [lia|lia|done|done|done|].
    unfold arity_value in Ha. destruct (find _ _) as [e|] eqn:Ef.
    + injection Ha as <-. apply find_Some in Ef as [He Hin]. bool_to_prop.
      pose proof (proj1 (Forall_forall _ _) arity_positive _ Hin) as Hpos. simpl in Hpos.
      split; intros H; exfalso.
      * destruct tokens; [done|]. by destruct e as [k [|n]]; simpl in *; [lia|].
      * rewrite <- He in H. revert H. by apply arity_not_inherited.
    + case_bool_decide; [|done]. injection Ha as <-. done.
  - right. split; [by apply prefix_loop_None|]. destruct tokens; done.
Qed.

Lemma arity_prefix_longest_witness :
  [js "git"; js "stash"; js "pop"] ≠ [] ∧ prefix [js "git"; js "stash"; js "pop"] = [js "git"; js "stash"; js "pop"].
Proof.
  split; [discriminate|].
  destruct (arity_prefix_longest [js "git"; js "stash"; js "pop"]) as [(l & a & _ & _ & _ & _ & _)|[_ H]].
  - discriminate.
  - vm_compute. reflexivity.
  - vm_compute. reflexivity.
Defined.

(** The command [toString] is named by no token at all. *)
Example prefix_inherited : prefix [js "toString"; js "x"] = [].
Proof. by vm_compute. Qed.
