(* ===== verification/Permission.v ===== *)
(** Tool permissions ([permission/next.ts]).

    The state is the one [createState] builds: the pending requests, an object
    keyed by request id (its entries in insertion order), and the approved
    rules.  The promises that [ask] returns and the events that the operations
    publish are the effects: a list of them, in order, next to the new state. *)

From S2P Require Import Prelude JsString Wildcard.

Inductive Action := allow | deny | ask_.
#[export] Instance Action_eq_dec : EqDecision Action.
Proof. solve_decision. Defined.

Record Rule := MkRule { permission : jsstr; pattern : jsstr; action : Action }.
#[export] Instance Rule_eq_dec : EqDecision Rule.
Proof. solve_decision. Defined.

(** A ruleset is an array of rules. *)
Notation Ruleset := (list Rule).

(** [expand(pattern)], given [os.homedir()]. *)
Definition expand (home p : jsstr) : jsstr :=
  if startsWith p (js "~/") then home ++ drop 1 p
  else if bool_decide (p = js "~") then home
  else if startsWith p (js "$HOME/") then home ++ drop 5 p
  else if startsWith p (js "$HOME") then home ++ drop 5 p
  else p.

(** A value of the permission configuration: an action for the whole
    permission, or actions by pattern. *)
Inductive config_value := CAction (a : Action) | CPatterns (ps : list (jsstr * Action)).

Definition fromConfig (home : jsstr) (cfg : list (jsstr * config_value)) : Ruleset :=
  flat_map (λ '(key, value),
    match value with
    | CAction a => [MkRule key (js "*") a]
    | CPatterns ps => map (λ '(p, a), MkRule key (expand home p) a) ps
    end) cfg.

Definition merge (rulesets : list Ruleset) : Ruleset := concat rulesets.

(** The test of [findLast] in [evaluate]. *)
Definition rule_matches (perm pat : jsstr) (r : Rule) : bool :=
  match_ perm (permission r) && match_ pat (pattern r).

Definition evaluate (perm pat : jsstr) (rulesets : list Ruleset) : Rule :=
  match findLast (rule_matches perm pat) (merge rulesets) with
  | Some r => r
  | None => MkRule perm (js "*") ask_
  end.

Definition EDIT_TOOLS : list jsstr := [js "edit"; js "write"; js "patch"; js "multiedit"].

(** [disabled(tools, ruleset)]: the tools of the resulting set, in order. *)
Definition tool_disabled (ruleset : Ruleset) (tool : jsstr) : bool :=
  let perm := if bool_decide (tool ∈ EDIT_TOOLS) then js "edit" else tool in
  match findLast (λ r, match_ perm (permission r)) ruleset with
  | None => false
  | Some r => bool_decide (pattern r = js "*") && bool_decide (action r = deny)
  end.
Definition disabled (tools : list jsstr) (ruleset : Ruleset) : list jsstr :=
  filter (λ t, tool_disabled ruleset t = true) tools.

(** ** Requests *)

Record Request := MkRequest {
  r_id : jsstr;
  r_sessionID : jsstr;
  r_permission : jsstr;
  r_patterns : list jsstr;
  r_always : list jsstr
}.

Inductive Reply := once | always | reject.

Inductive error := RejectedError | CorrectedError (message : jsstr) | DeniedError (rules : Ruleset).

(** What an operation does besides changing the state: events published, the
    promises of pending requests settled, and the approved rules written. *)
Inductive effect :=
| PublishAsked (info : Request)
| PublishReplied (sessionID requestID : jsstr) (reply : Reply)
| Resolve (info : Request)
| Reject (info : Request) (e : error)
| SaveApproved (rules : Ruleset).

Record state := State { pending : list Request; approved : Ruleset }.

(** [s.pending[id] = entry]: in place for a present key, last for a new one. *)
Fixpoint put_pending (info : Request) (ps : list Request) : list Request :=
  match ps with
  | [] => [info]
  | p :: ps' => if bool_decide (r_id p = r_id info) then info :: ps' else p :: put_pending info ps'
  end.
Definition remove_pending (id : jsstr) (ps : list Request) : list Request :=
  filter (λ p, r_id p ≠ id) ps.
Definition lookup_pending (id : jsstr) (ps : list Request) : option Request :=
  find (λ p, bool_decide (r_id p = id)) ps.

(** The outcome of the promise that [ask] returns: settled at once, or pending. *)
Inductive ask_result := Allowed | Denied (e : error) | Pending.

(** [ask]: the loop over the patterns.  [auto] is [cfg.permissionMode ===
    "auto"]; the id is the caller's or a fresh one, in the request already. *)
Fixpoint ask_loop (auto : bool) (info : Request) (ruleset : Ruleset) (pats : list jsstr) (s : state)
    : ask_result * state * list effect :=
  match pats with
  | [] => (Allowed, s, [])
  | pat :: rest =>
      let rule := evaluate (r_permission info) pat [ruleset; approved s] in
      match action rule with
      | deny =>
          (Denied (DeniedError (filter (λ r, match_ (r_permission info) (permission r) = true) ruleset)), s, [])
      | ask_ =>
          if auto then ask_loop auto info ruleset rest s
          else (Pending, State (put_pending info (pending s)) (approved s), [PublishAsked info])
      | allow => ask_loop auto info ruleset rest s
      end
  end.
Definition ask (auto : bool) (info : Request) (ruleset : Ruleset) (s : state) :=
  ask_loop auto info ruleset (r_patterns info) s.

(** The loop of the reject branch: every other request of the session. *)
Fixpoint reject_session (sessionID : jsstr) (entries : list Request) (s : state) : state * list effect :=
  match entries with
  | [] => (s, [])
  | p :: rest =>
      if bool_decide (r_sessionID p = sessionID) then
        let '(s', eff) := reject_session sessionID rest
          (State (remove_pending (r_id p) (pending s)) (approved s)) in
        (s', PublishReplied (r_sessionID p) (r_id p) reject :: Reject p RejectedError :: eff)
      else reject_session sessionID rest s
  end.

(** The test of the always branch: every pattern is allowed by the approved
    rules alone. *)
Definition covered (rules : Ruleset) (p : Request) : bool :=
  forallb (λ pat, bool_decide (action (evaluate (r_permission p) pat [rules]) = allow)) (r_patterns p).

Fixpoint approve_session (sessionID : jsstr) (entries : list Request) (s : state) : state * list effect :=
  match entries with
  | [] => (s, [])
  | p :: rest =>
      if bool_decide (r_sessionID p ≠ sessionID) then approve_session sessionID rest s
      else if negb (covered (approved s) p) then approve_session sessionID rest s
      else
        let '(s', eff) := approve_session sessionID rest
          (State (remove_pending (r_id p) (pending s)) (approved s)) in
        (s', PublishReplied (r_sessionID p) (r_id p) always :: Resolve p :: eff)
  end.

(** The rules that an "always" reply approves. *)
Definition always_rules (info : Request) : Ruleset :=
  map (λ pat, MkRule (r_permission info) pat allow) (r_always info).

(** [reply({requestID, reply, message})].  An empty message counts as none. *)
Definition reply (requestID : jsstr) (rep : Reply) (message : jsstr) (s : state) : state * list effect :=
  match lookup_pending requestID (pending s) with
  | None => (s, [])
  | Some info =>
      let s1 := State (remove_pending requestID (pending s)) (approved s) in
      let replied := PublishReplied (r_sessionID info) (r_id info) rep in
      match rep with
      | reject =>
          let err := match message with [] => RejectedError | _ => CorrectedError message end in
          let '(s2, eff) := reject_session (r_sessionID info) (pending s1) s1 in
          (s2, replied :: Reject info err :: eff)
      | once => (s1, [replied; Resolve info])
      | always =>
          let s2 := State (pending s1) (approved s1 ++ always_rules info) in
          let '(s3, eff) := approve_session (r_sessionID info) (pending s2) s2 in
          (s3, replied :: Resolve info :: eff ++ [SaveApproved (approved s3)])
      end
  end.

(** [list()]. *)
Definition list_pending (s : state) : list Request := pending s.

Example evaluate_last :
  action (evaluate (js "bash") (js "git push")
    [[MkRule (js "*") (js "*") allow; MkRule (js "bash") (js "git *") ask_]; [MkRule (js "bash") (js "git push") deny]])
  = deny.
Proof. by vm_compute. Qed.

(** ** Evaluation *)

(** The rule decides, or is the default. *)
Definition decides (perm pat : jsstr) (rules : Ruleset) (r : Rule) : Prop :=
  (∃ before after, rules = before ++ r :: after ∧ rule_matches perm pat r = true ∧
     ∀ r', r' ∈ after → rule_matches perm pat r' = false) ∨
  ((∀ r', r' ∈ rules → rule_matches perm pat r' = false) ∧ r = MkRule perm (js "*") ask_).

Lemma findLast_split {A} (p : A → bool) xs x :
  findLast p xs = Some x →
  ∃ before after, xs = before ++ x :: after ∧ p x = true ∧ ∀ y, y ∈ after → p y = false.
Proof.
  revert x. induction xs as [|z xs IH]; intros x H; simpl in H; [done|].
  destruct (findLast p xs) as [w|] eqn:E.
  - injection H as ->. destruct (IH x eq_refl) as (b & a & -> & ? & ?). by exists (z :: b), a.
  - destruct (p z) eqn:Ez; [|done]. injection H as ->. exists [], xs.
    split; [done|]. split; [done|]. by apply findLast_None.
Qed.

(** Precedence: the action for a permission and a pattern is that of the
    last rule, over all the rulesets in the order given, that matches both, and
    to ask when none does. *)
Theorem evaluate_last_match_wins perm pat rulesets :
  decides perm pat (merge rulesets) (evaluate perm pat rulesets).
Proof.
  unfold evaluate. destruct (findLast _ _) as [r|] eqn:E.
  - left. by apply findLast_split.
  - right. split; [|done]. by apply findLast_None.
Qed.

(** Later rulesets come last. *)
Lemma evaluate_app perm pat rs rules :
  evaluate perm pat [rs; rules] =
  match findLast (rule_matches perm pat) rules with
  | Some r => r
  | None => evaluate perm pat [rs]
  end.
Proof.
  unfold evaluate, merge. simpl. rewrite !app_nil_r, findLast_app. by destruct (findLast _ rules).
Qed.

(** ** Asking *)

(** The pattern lets the loop of [ask] go on. *)
Definition passes (auto : bool) (info : Request) (ruleset : Ruleset) (s : state) (pat : jsstr) : Prop :=
  let a := action (evaluate (r_permission info) pat [ruleset; approved s]) in
  a = allow ∨ (a = ask_ ∧ auto = true).

(** Asking: the tool call proceeds at once, with nothing published and the
    state as it was, exactly when every pattern is allowed, or to be asked for in
    auto mode; else the first pattern for which neither holds settles it: a
    denied one throws and changes nothing, one to be asked for makes the request
    pending and publishes it. *)
Theorem ask_first_obstacle auto info ruleset s :
  (ask auto info ruleset s = (Allowed, s, []) ∧ Forall (passes auto info ruleset s) (r_patterns info)) ∨
  (∃ before pat after,
     r_patterns info = before ++ pat :: after ∧ Forall (passes auto info ruleset s) before ∧
     ¬ passes auto info ruleset s pat ∧
     match action (evaluate (r_permission info) pat [ruleset; approved s]) with
     | deny => ∃ rules, ask auto info ruleset s = (Denied (DeniedError rules), s, []) ∧
         ∀ r, r ∈ rules ↔ r ∈ ruleset ∧ match_ (r_permission info) (permission r) = true
     | _ => ask auto info ruleset s =
         (Pending, State (put_pending info (pending s)) (approved s), [PublishAsked info])
     end).
Proof.
  unfold ask. induction (r_patterns info) as [|pat pats IH]; simpl; [by left|].
  destruct (action (evaluate (r_permission info) pat [ruleset; approved s])) eqn:E.
  - destruct IH as [[-> H]|(b & p & a & -> & Hb & Hp & H)].
    + left. split; [done|]. constructor; [by left|done].
    + right. exists (pat :: b), p, a. split; [done|]. split; [constructor; [by left|done]|done].
  - right. exists [], pat, pats. split; [done|]. split; [done|].
    split; [intros [?|[? _]]; congruence|]. rewrite E. eexists. split; [done|].
    intros r. rewrite list_elem_of_filter. tauto.
  - destruct auto.
    + destruct IH as [[-> H]|(b & p & a & -> & Hb & Hp & H)].
      * left. split; [done|]. constructor; [by right|done].
      * right. exists (pat :: b), p, a. split; [done|]. split; [constructor; [by right|done]|done].
    + right. exists [], pat, pats. split; [done|]. split; [done|].
      split; [intros [?|[_ ?]]; congruence|]. by rewrite E.
Qed.

(** ** Replying *)

(** The keys of an object are distinct. *)
Definition wf (s : state) : Prop := NoDup (r_id <$> pending s).

Lemma put_pending_ids info ps :
  r_id <$> put_pending info ps =
  if decide (r_id info ∈ (r_id <$> ps)) then r_id <$> ps else (r_id <$> ps) ++ [r_id info].
Proof.
  induction ps as [|p ps IH]; csimpl; [done|].
  case_bool_decide as E; csimpl.
  - rewrite decide_True by (rewrite E; by left). by rewrite E.
  - rewrite IH. destruct (decide (r_id info ∈ r_id <$> ps)) as [Hin|Hin].
    + by rewrite decide_True by by right.
    + rewrite decide_False; [done|]. rewrite elem_of_cons. intuition congruence.
Qed.

Lemma ask_state auto info ruleset s :
  (ask auto info ruleset s).1.2 = s ∨
  (ask auto info ruleset s).1.2 = State (put_pending info (pending s)) (approved s).
Proof.
  unfold ask. induction (r_patterns info) as [|pat pats IH]; simpl; [by left|].
  destruct (action _); [done|by left|]. destruct auto; [done|by right].
Qed.

Lemma ask_wf auto info ruleset s : wf s → wf (ask auto info ruleset s).1.2.
Proof.
  intros Hs. destruct (ask_state auto info ruleset s) as [->| ->]; [done|].
  unfold wf. simpl. rewrite put_pending_ids. case_decide; [done|].
  apply NoDup_app. split; [done|]. split; [set_solver|apply NoDup_singleton].
Qed.

(** The requests whose promise an effect list settles. *)
Definition settled_by (e : effect) : option Request :=
  match e with Resolve i => Some i | Reject i _ => Some i | _ => None end.
Definition settled (eff : list effect) : list Request := omap settled_by eff.

Definition of_session (sid : jsstr) (p : Request) : Prop := r_sessionID p = sid.
#[export] Instance of_session_dec sid p : Decision (of_session sid p).
Proof. unfold of_session. apply _. Defined.

(** Requests of the entries that satisfy [P] are removed, one after the other. *)
Definition kept (P : Request → Prop) `{∀ p, Decision (P p)} (entries ps : list Request) : list Request :=
  filter (λ q, Forall (λ p, P p → r_id q ≠ r_id p) entries) ps.

Lemma reject_session_eq sid entries s :
  reject_session sid entries s =
  (State (kept (of_session sid) entries (pending s)) (approved s),
   flat_map (λ p, [PublishReplied sid (r_id p) reject; Reject p RejectedError])
     (filter (of_session sid) entries)).
Proof.
  revert s. induction entries as [|p entries IH]; intros s; simpl.
  - unfold kept. rewrite filter_all by (apply Forall_true; by constructor). by destruct s.
  - rewrite filter_cons. case_bool_decide as E.
    + rewrite (decide_True (P := of_session sid p)) by done. rewrite IH. simpl. rewrite E.
      f_equal. f_equal. unfold kept, remove_pending. rewrite list_filter_filter. apply list_filter_iff.
      intros q. rewrite Forall_cons. unfold of_session. naive_solver.
    + rewrite (decide_False (P := of_session sid p)) by done. rewrite IH.
      f_equal. f_equal. unfold kept. apply list_filter_iff.
      intros q. rewrite Forall_cons. unfold of_session. naive_solver.
Qed.

Lemma approve_session_eq sid entries s :
  approve_session sid entries s =
  (State (kept (λ p, of_session sid p ∧ covered (approved s) p = true) entries (pending s)) (approved s),
   flat_map (λ p, [PublishReplied sid (r_id p) always; Resolve p])
     (filter (λ p, of_session sid p ∧ covered (approved s) p = true) entries)).
Proof.
  revert s. induction entries as [|p entries IH]; intros s; simpl.
  - unfold kept. rewrite filter_all by (apply Forall_true; by constructor). by destruct s.
  - rewrite filter_cons. case_bool_decide as E; [|destruct (covered (approved s) p) eqn:Ec]; simpl.
    + rewrite decide_False by (unfold of_session; naive_solver). rewrite IH.
      f_equal. f_equal. unfold kept. apply list_filter_iff.
      intros q. rewrite Forall_cons. unfold of_session. naive_solver.
    + rewrite decide_True by done. rewrite IH. simpl. rewrite E.
      f_equal. f_equal. unfold kept, remove_pending. rewrite list_filter_filter. apply list_filter_iff.
      intros q. rewrite Forall_cons. unfold of_session. naive_solver.
    + rewrite decide_False by (intros [_ ?]; congruence). rewrite IH.
      f_equal. f_equal. unfold kept. apply list_filter_iff.
      intros q. rewrite Forall_cons. split; [intros ?; split; [intros [_ ?]; congruence|done]|by intros [_ ?]].
Qed.

(** With distinct keys, the session's entries are the ones removed. *)
Lemma kept_entries (P : Request → Prop) `{∀ p, Decision (P p)} ps :
  NoDup (r_id <$> ps) → kept P ps ps = filter (λ p, ¬ P p) ps.
Proof.
  intros Hnd. unfold kept. apply list_filter_ext_in. intros q Hq. rewrite Forall_forall. split.
  - intros HP Hq'. by apply (HP q).
  - intros HP p Hp HPp Hid. apply HP. cut (q = p); [by intros ->|].
    apply list_elem_of_lookup in Hq as [i Hi], Hp as [j Hj].
    assert (i = j) as ->; [|congruence].
    eapply (NoDup_lookup _ i j (r_id q)); [exact Hnd| |]; rewrite list_lookup_fmap.
    + by rewrite Hi.
    + by rewrite Hj, Hid.
Qed.

Lemma remove_pending_wf id s : wf s → wf (State (remove_pending id (pending s)) (approved s)).
Proof.
  unfold wf, remove_pending. simpl. intros Hnd.
  eapply sublist_NoDup; [exact Hnd|apply fmap_sublist, sublist_filter].
Qed.

Lemma settled_flat_map (f : Request → list effect) l :
  (∀ p, settled (f p) = [p]) → settled (flat_map f l) = l.
Proof.
  intros Hf. unfold settled in *. induction l as [|p l IH]; simpl; [done|].
  rewrite omap_app, IH. by rewrite Hf.
Qed.

Lemma lookup_pending_perm id s info :
  wf s → lookup_pending id (pending s) = Some info →
  r_id info = id ∧ pending s ≡ₚ info :: remove_pending id (pending s).
Proof.
  unfold wf, lookup_pending, remove_pending. induction (pending s) as [|p ps IH]; simpl; [done|].
  intros Hnd H. apply NoDup_cons in Hnd as [Hp Hnd]. rewrite filter_cons.
  case_bool_decide as E.
  - injection H as <-. split; [done|]. rewrite decide_False by tauto. constructor.
    rewrite filter_all; [done|]. apply Forall_forall. intros q Hq <-.
    apply Hp. rewrite E. by apply list_elem_of_fmap_2.
  - destruct (IH Hnd H) as [? Hperm]. split; [done|]. rewrite decide_True by done.
    rewrite Hperm at 1. apply Permutation_swap.
Qed.

(** The three replies to a pending request, in closed form. *)
Lemma reply_once_eq id msg s info :
  lookup_pending id (pending s) = Some info →
  reply id once msg s =
  (State (remove_pending id (pending s)) (approved s),
   [PublishReplied (r_sessionID info) (r_id info) once; Resolve info]).
Proof. intros H. unfold reply. by rewrite H. Qed.

Definition reject_error (msg : jsstr) : error :=
  match msg with [] => RejectedError | _ => CorrectedError msg end.

Lemma reply_reject_eq id msg s info :
  wf s → lookup_pending id (pending s) = Some info →
  let sid := r_sessionID info in
  let rest := remove_pending id (pending s) in
  reply id reject msg s =
  (State (filter (λ p, ¬ of_session sid p) rest) (approved s),
   PublishReplied sid (r_id info) reject :: Reject info (reject_error msg) ::
   flat_map (λ p, [PublishReplied sid (r_id p) reject; Reject p RejectedError])
     (filter (of_session sid) rest)).
Proof.
  intros Hwf H. unfold reply. rewrite H, reject_session_eq. simpl.
  rewrite kept_entries by (by apply (remove_pending_wf id s)). by destruct msg.
Qed.

(** The requests of a session that the rules cover. *)
Definition covered_in (sid : jsstr) (rules : Ruleset) (p : Request) : Prop :=
  of_session sid p ∧ covered rules p = true.
#[export] Instance covered_in_dec sid rules p : Decision (covered_in sid rules p).
Proof. unfold covered_in. apply _. Defined.

Lemma reply_always_eq id msg s info :
  wf s → lookup_pending id (pending s) = Some info →
  let sid := r_sessionID info in
  let rest := remove_pending id (pending s) in
  let rules := approved s ++ always_rules info in
  reply id always msg s =
  (State (filter (λ p, ¬ covered_in sid rules p) rest) rules,
   PublishReplied sid (r_id info) always :: Resolve info ::
   flat_map (λ p, [PublishReplied sid (r_id p) always; Resolve p]) (filter (covered_in sid rules) rest)
   ++ [SaveApproved rules]).
Proof.
  intros Hwf H. unfold reply. rewrite H, approve_session_eq. simpl.
  rewrite kept_entries by (by apply (remove_pending_wf id s)). done.
Qed.

Lemma reply_wf id rep msg s : wf s → wf (reply id rep msg s).1.
Proof.
  intros Hwf. destruct (lookup_pending id (pending s)) as [info|] eqn:E.
  2:{ unfold reply. by rewrite E. }
  pose proof (remove_pending_wf id s Hwf) as Hr. destruct rep.
  - by rewrite (reply_once_eq _ _ _ _ E).
  - rewrite reply_always_eq with (info := info) by done.
    eapply sublist_NoDup; [exact Hr|apply fmap_sublist, sublist_filter].
  - rewrite reply_reject_eq with (info := info) by done.
    eapply sublist_NoDup; [exact Hr|apply fmap_sublist, sublist_filter].
Qed.

(** The keys of the pending requests stay distinct, whatever the caller does. *)
Inductive call := CAsk (auto : bool) (info : Request) (ruleset : Ruleset) | CReply (id : jsstr) (rep : Reply) (msg : jsstr).
Definition perm_step (c : call) (s : state) : option state :=
  Some match c with
       | CAsk auto info ruleset => (ask auto info ruleset s).1.2
       | CReply id rep msg => (reply id rep msg s).1
       end.

Lemma reachable_wf rules s : reachable perm_step (State [] rules) s → wf s.
Proof.
  apply reachable_ind_inv; [apply NoDup_nil_2|].
  intros [auto info rs|id rep msg] s1 s2 Hw [= <-]; [by apply ask_wf|by apply reply_wf].
Qed.

(** C3. Conservation: in every state the operations reach, a reply splits the
    pending requests into those that stay pending and those whose promise it
    settles, each of these exactly once. *)
Theorem reply_settles_once rules s id rep msg :
  reachable perm_step (State [] rules) s →
  pending s ≡ₚ pending (reply id rep msg s).1 ++ settled (reply id rep msg s).2.
Proof.
  intros Hwf%reachable_wf. destruct (lookup_pending id (pending s)) as [info|] eqn:E.
  2:{ unfold reply. rewrite E. simpl. by rewrite app_nil_r. }
  destruct (lookup_pending_perm _ _ _ Hwf E) as [_ Hp]. rewrite Hp at 1. destruct rep.
  - rewrite (reply_once_eq _ _ _ _ E). simpl. by rewrite Permutation_app_comm.
  - rewrite reply_always_eq with (info := info) by done. cbn [fst snd pending]. unfold settled. simpl.
    rewrite omap_app. fold settled. fold (settled (flat_map
      (λ p, [PublishReplied (r_sessionID info) (r_id p) always; Resolve p])
      (filter (covered_in (r_sessionID info) (approved s ++ always_rules info)) (remove_pending id (pending s))))).
    rewrite settled_flat_map by done. simpl. rewrite app_nil_r, <- Permutation_middle.
    constructor. apply filter_split_perm.
  - rewrite reply_reject_eq with (info := info) by done. cbn [fst snd pending]. unfold settled. simpl.
    fold (settled (flat_map (λ p, [PublishReplied (r_sessionID info) (r_id p) reject; Reject p RejectedError])
      (filter (of_session (r_sessionID info)) (remove_pending id (pending s))))).
    rewrite settled_flat_map by done. rewrite <- Permutation_middle.
    constructor. apply filter_split_perm.
Qed.

(** Rejection: rejecting a request of a reachable state leaves of the
    session nothing pending, touches no other session's requests and no rule, and
    rejects the other requests of the session without a message. *)
Theorem reply_reject_session rules s id msg info :
  reachable perm_step (State [] rules) s → lookup_pending id (pending s) = Some info →
  let '(s', eff) := reply id reject msg s in
  pending s' = filter (λ p, ¬ of_session (r_sessionID info) p) (pending s) ∧
  approved s' = approved s ∧
  (∀ p e, Reject p e ∈ eff ↔
     (p = info ∧ e = reject_error msg) ∨
     (p ∈ remove_pending id (pending s) ∧ of_session (r_sessionID info) p ∧ e = RejectedError)).
Proof.
  intros Hwf%reachable_wf H. destruct (lookup_pending_perm _ _ _ Hwf H) as [<- Hp].
  rewrite reply_reject_eq with (info := info) by done. split_and!; [|done|].
  - simpl. unfold remove_pending. rewrite list_filter_filter. apply list_filter_ext_in.
    intros p Hin. split; [by intros [? _]|]. intros Hn. split; [done|].
    rewrite Hp in Hin. apply elem_of_cons in Hin as [->|Hin]; [by destruct Hn|].
    by apply list_elem_of_filter in Hin as [? _].
  - intros p e. rewrite !elem_of_cons, list_elem_of_In, in_flat_map. split.
    + intros [?|[[= -> ->]|(q & Hq & Hin)]]; [done|by left|]. right.
      apply list_elem_of_In, list_elem_of_filter in Hq as [? ?].
      by destruct Hin as [?|[[= -> ->]|[]]].
    + intros [[-> ->]|(Hq & Hs & ->)]; [by right; left|]. right; right. exists p.
      split; [by apply list_elem_of_In, list_elem_of_filter|]. by right; left.
Qed.

Lemma findLast_app_true {A} (p : A → bool) xs ys y :
  y ∈ ys → p y = true → ∃ z, findLast p (xs ++ ys) = Some z ∧ z ∈ ys ∧ p z = true.
Proof.
  intros Hin Hy. rewrite findLast_app. destruct (findLast p ys) as [z|] eqn:E.
  - exists z. by apply findLast_Some in E as [? ?].
  - rewrite findLast_None in E. by rewrite E in Hy.
Qed.

(** An "always" reply is effective: after it, for the permission it was
    given for, the tool call proceeds at once when each of its patterns matches
    one of the approved patterns, whatever the caller's ruleset says; and no
    request of the session stays pending that the approved rules cover. *)
Theorem reply_always_grants rules s id msg info :
  reachable perm_step (State [] rules) s → lookup_pending id (pending s) = Some info →
  let s' := (reply id always msg s).1 in
  (∀ auto info' ruleset, r_permission info' = r_permission info →
     Forall (λ pat, ∃ a, a ∈ r_always info ∧ match_ pat a = true) (r_patterns info') →
     ask auto info' ruleset s' = (Allowed, s', [])) ∧
  (∀ p, p ∈ pending s' → of_session (r_sessionID info) p → covered (approved s') p = false).
Proof.
  intros Hwf%reachable_wf H. rewrite reply_always_eq with (info := info) by done. simpl. split.
  - intros auto info' ruleset Hperm Hpats. unfold ask.
    set (s' := State _ _). assert (approved s' = approved s ++ always_rules info) as Ha by done.
    clearbody s'. induction Hpats as [|pat pats (a & Hin & Hm) _ IH]; simpl; [done|].
    enough (action (evaluate (r_permission info') pat [ruleset; approved s']) = allow) as -> by done.
    rewrite Hperm, Ha. unfold evaluate, merge. simpl. rewrite app_nil_r, app_assoc.
    destruct (findLast_app_true (rule_matches (r_permission info) pat) (ruleset ++ approved s)
      (always_rules info) (MkRule (r_permission info) a allow)) as (z & -> & Hz & _).
    + apply list_elem_of_fmap. eauto.
    + unfold rule_matches. simpl. by rewrite match_refl, Hm.
    + by apply list_elem_of_fmap in Hz as (? & -> & _).
  - intros p Hin Hs. apply list_elem_of_filter in Hin as [Hn _].
    destruct (covered _ p) eqn:E; [|done]. by destruct Hn.
Qed.

Definition demo_req (id sid : string) (pats : list jsstr) : Request :=
  MkRequest (js id) (js sid) (js "bash") pats pats.
Definition demo_asks : list call :=
  [CAsk false (demo_req "per_1" "ses_a" [js "git push"]) []; CAsk false (demo_req "per_2" "ses_a" [js "ls"]) [];
   CAsk false (demo_req "per_3" "ses_b" [js "ls"]) []].
Definition demo_state : state := default (State [] []) (run perm_step demo_asks (State [] [])).

Lemma demo_state_reachable : reachable perm_step (State [] []) demo_state.
Proof. eapply run_reachable with (acts := demo_asks); [constructor|]. by vm_compute. Qed.

Lemma reply_settles_once_witness :
  pending demo_state ≡ₚ
  pending (reply (js "per_1") reject [] demo_state).1 ++ settled (reply (js "per_1") reject [] demo_state).2.
Proof. exact (reply_settles_once [] _ _ _ _ demo_state_reachable). Defined.

Lemma reply_reject_session_witness :
  r_id <$> pending (reply (js "per_1") reject [] demo_state).1 = [js "per_3"].
Proof.
  pose proof (reply_reject_session [] demo_state (js "per_1") []
    (demo_req "per_1" "ses_a" [js "git push"]) demo_state_reachable ltac:(vm_compute; reflexivity)) as H.
  destruct (reply (js "per_1") reject [] demo_state) as [s' eff] eqn:E.
  destruct H as [H _]. simpl. rewrite H. vm_compute. reflexivity.
Defined.

Lemma reply_always_grants_witness :
  let s' := (reply (js "per_2") always [] demo_state).1 in
  ask false (demo_req "per_9" "ses_b" [js "ls"]) [MkRule (js "*") (js "*") deny] s' = (Allowed, s', []).
Proof.
  apply (reply_always_grants [] demo_state (js "per_2") []
    (demo_req "per_2" "ses_a" [js "ls"]) demo_state_reachable).
  - vm_compute. reflexivity.
  - reflexivity.
  - constructor; [|constructor]. exists (js "ls"). split; [by left|vm_compute; reflexivity].
Defined.
