(* ===== verification/PatchParse.v ===== *)
(** The parser of [patch/index.ts]: from the text of a patch to its hunks, and
    the recognition of [apply_patch] invocations.

    The parsing loops of the source walk an index [i] through the array [lines].
    Here the loops walk the array's tail: the argument [ls] stands for
    [lines.slice(i)], and what is left of it for the [nextIdx] a function
    returns. *)

From S2P Require Import Prelude JsString.

Record UpdateFileChunk := Chunk {
  old_lines : list jsstr;
  new_lines : list jsstr;
  change_context : option jsstr;
  is_end_of_file : bool
}.

Inductive Hunk :=
| HAdd (path contents : jsstr)
| HDelete (path : jsstr)
| HUpdate (path : jsstr) (move_path : option jsstr) (chunks : list UpdateFileChunk).

(** A path is taken for absent when it is the empty string. *)
Definition truthy (p : option jsstr) : option jsstr :=
  match p with Some [] => None | _ => p end.

Definition add_prefix : jsstr := js "*** Add File:".
Definition delete_prefix : jsstr := js "*** Delete File:".
Definition update_prefix : jsstr := js "*** Update File:".
Definition move_prefix : jsstr := js "*** Move to:".
Definition beginMarker : jsstr := js "*** Begin Patch".
Definition endMarker : jsstr := js "*** End Patch".
Definition eof_marker : jsstr := js "*** End of File".
Definition stars : jsstr := js "***".
Definition ats : jsstr := js "@@".

(** [line.slice(prefix.length).trim()]. *)
Definition after (prefix line : jsstr) : jsstr := trim (drop (length prefix) line).

(** [parsePatchHeader(lines, i)]: file path, move path, and the tail from
    [nextIdx] on. *)
Definition parsePatchHeader (ls : list jsstr) : option (jsstr * option jsstr * list jsstr) :=
  match ls with
  | [] => None
  | line :: ls' =>
      let found (p : jsstr) (m : option jsstr) (rest : list jsstr) :=
        match p with [] => None | _ => Some (p, m, rest) end in
      if startsWith line add_prefix then found (after add_prefix line) None ls'
      else if startsWith line delete_prefix then found (after delete_prefix line) None ls'
      else if startsWith line update_prefix then
        match ls' with
        | next :: ls'' =>
            if startsWith next move_prefix
            then found (after update_prefix line) (Some (after move_prefix next)) ls''
            else found (after update_prefix line) None ls'
        | [] => found (after update_prefix line) None ls'
        end
      else None
  end.

(** The inner loop of [parseUpdateFileChunks]: old lines, new lines, whether the
    end-of-file marker was read, and the tail. *)
Fixpoint parse_changes (ls : list jsstr) : list jsstr * list jsstr * bool * list jsstr :=
  match ls with
  | [] => ([], [], false, [])
  | changeLine :: ls' =>
      if startsWith changeLine ats || startsWith changeLine stars then ([], [], false, ls)
      else if bool_decide (changeLine = eof_marker) then ([], [], true, ls')
      else
        let '(olds, news, eof, rest) := parse_changes ls' in
        if startsWith changeLine (js " ") then (drop 1 changeLine :: olds, drop 1 changeLine :: news, eof, rest)
        else if startsWith changeLine (js "-") then (drop 1 changeLine :: olds, news, eof, rest)
        else if startsWith changeLine (js "+") then (olds, drop 1 changeLine :: news, eof, rest)
        else (olds, news, eof, rest)
  end.

(** [parseUpdateFileChunks(lines, i)].  Every round consumes a line. *)
Fixpoint parse_chunks (fuel : nat) (ls : list jsstr) : list UpdateFileChunk * list jsstr :=
  match fuel, ls with
  | S fuel, line :: ls' =>
      if startsWith line stars then ([], ls)
      else if startsWith line ats then
        let context := trim (drop 2 line) in
        let '(olds, news, eof, rest) := parse_changes ls' in
        let '(chunks, rest') := parse_chunks fuel rest in
        (Chunk olds news (truthy (Some context)) eof :: chunks, rest')
      else parse_chunks fuel ls'
  | _, _ => ([], ls)
  end.
Definition parseUpdateFileChunks (ls : list jsstr) : list UpdateFileChunk * list jsstr :=
  parse_chunks (length ls) ls.

(** The loop of [parseAddFileContent]: every added line with its line feed. *)
Fixpoint add_content (ls : list jsstr) : jsstr * list jsstr :=
  match ls with
  | [] => ([], [])
  | line :: ls' =>
      if startsWith line stars then ([], ls)
      else
        let '(content, rest) := add_content ls' in
        if startsWith line (js "+") then (drop 1 line ++ newline :: content, rest) else (content, rest)
  end.
Definition parseAddFileContent (ls : list jsstr) : jsstr * list jsstr :=
  let '(content, rest) := add_content ls in
  (if endsWith content [newline] then take (length content - 1) content else content, rest).

(** ** Here-documents

    The two regular expressions of the file, as the backtracking they specify.
    [\w+] can only end at the end of its run, because a quote or white space must
    follow; [\s*\n] may end at any line feed of the white space, the last one is
    tried first; the body [\[\s\S\]*?] ends at the first place that lets the rest
    match. *)

Definition is_quote (c : N) : bool := ((c =? 39) || (c =? 34))%N.

Fixpoint span (p : N → bool) (s : jsstr) : jsstr * jsstr :=
  match s with
  | c :: s' => if p c then let '(a, b) := span p s' in (c :: a, b) else ([], s)
  | [] => ([], [])
  end.

(** [(\[\s\S\]*?)\n\1], followed by [\s*$] when [anchored]: the body. *)
Fixpoint heredoc_body (anchored : bool) (tag s : jsstr) : option jsstr :=
  if startsWith s (newline :: tag) && (negb anchored || forallb is_space (drop (S (length tag)) s))
  then Some []
  else match s with
       | [] => None
       | c :: s' => match heredoc_body anchored tag s' with Some b => Some (c :: b) | None => None end
       end.

(** [\s*\n(body)]: line feeds of the leading white space, the last one first. *)
Fixpoint heredoc_lines (anchored : bool) (tag s : jsstr) : option jsstr :=
  match s with
  | c :: s' =>
      if is_space c then
        match heredoc_lines anchored tag s' with
        | Some b => Some b
        | None => if (c =? newline)%N then heredoc_body anchored tag s' else None
        end
      else None
  | [] => None
  end.

(** A quote: required, or skipped when present. *)
Definition quote (required : bool) (s : jsstr) : option jsstr :=
  match s with
  | c :: s' => if is_quote c then Some s' else if required then None else Some s
  | [] => if required then None else Some []
  end.

(** What follows [<<]. *)
Definition heredoc (required anchored : bool) (s : jsstr) : option jsstr :=
  match quote required s with
  | None => None
  | Some s1 =>
      let '(tag, s2) := span is_word s1 in
      match tag with
      | [] => None
      | _ => match quote required s2 with
             | None => None
             | Some s3 => heredoc_lines anchored tag s3
             end
      end
  end.

Definition stripHeredoc (input : jsstr) : jsstr :=
  let s :=
    if startsWith input (js "cat") then
      let '(sp, rest) := span is_space (drop 3 input) in
      match sp with [] => input | _ => rest end
    else input in
  if startsWith s (js "<<")
  then match heredoc false true (drop 2 s) with Some body => body | None => input end
  else input.

(** [script.match(/apply_patch\s*<<.../)]: the first place that matches. *)
Fixpoint script_heredoc (script : jsstr) : option jsstr :=
  let here :=
    if startsWith script (js "apply_patch") then
      let '(_, rest) := span is_space (drop 11 script) in
      if startsWith rest (js "<<") then heredoc true false (drop 2 rest) else None
    else None in
  match here with
  | Some body => Some body
  | None => match script with [] => None | _ :: script' => script_heredoc script' end
  end.

(** ** Patches *)

(** The main loop of [parsePatch]: it runs while more than [stop] lines are left,
    and consumes at least one a round. *)
Fixpoint parse_hunks (fuel : nat) (stop : nat) (ls : list jsstr) : list Hunk :=
  match fuel with
  | O => []
  | S fuel =>
      if Nat.leb (length ls) stop then []
      else
        match ls, parsePatchHeader ls with
        | [], _ => []
        | _ :: ls', None => parse_hunks fuel stop ls'
        | line :: ls', Some (filePath, movePath, next) =>
            if startsWith line add_prefix then
              let '(content, rest) := parseAddFileContent next in
              HAdd filePath content :: parse_hunks fuel stop rest
            else if startsWith line delete_prefix then
              HDelete filePath :: parse_hunks fuel stop next
            else if startsWith line update_prefix then
              let '(chunks, rest) := parseUpdateFileChunks next in
              HUpdate filePath movePath chunks :: parse_hunks fuel stop rest
            else parse_hunks fuel stop ls'
        end
  end.

Definition missing_markers : jsstr := js "Invalid patch format: missing Begin/End markers".

Definition parsePatch (patchText : jsstr) : result jsstr (list Hunk) :=
  let cleaned := stripHeredoc (trim patchText) in
  let lines := split_on newline cleaned in
  match findIndex (λ line, bool_decide (trim line = beginMarker)) lines,
        findIndex (λ line, bool_decide (trim line = endMarker)) lines with
  | Some beginIdx, Some endIdx =>
      if Nat.leb endIdx beginIdx then Throw missing_markers
      else Ret (parse_hunks (length lines) (length lines - endIdx) (drop (S beginIdx) lines))
  | _, _ => Throw missing_markers
  end.

Record ApplyPatchArgs := Args { patch : jsstr; hunks : list Hunk; workdir : option jsstr }.

Inductive MaybeApplyPatch :=
| Body (args : ApplyPatchArgs)
| PatchParseError (error : jsstr)
| NotApplyPatch.

Definition parse_body (text : jsstr) : MaybeApplyPatch :=
  match parsePatch text with
  | Ret hs => Body (Args text hs None)
  | Throw e => PatchParseError e
  end.

Definition maybeParseApplyPatch (argv : list jsstr) : MaybeApplyPatch :=
  match argv with
  | [cmd; text] =>
      if bool_decide (cmd ∈ [js "apply_patch"; js "applypatch"]) then parse_body text else NotApplyPatch
  | [cmd; flag; script] =>
      if bool_decide (cmd = js "bash") && bool_decide (flag = js "-lc") then
        match script_heredoc script with
        | Some text => parse_body text
        | None => NotApplyPatch
        end
      else NotApplyPatch
  | _ => NotApplyPatch
  end.

Definition lines_of (ls : list string) : jsstr := join [newline] (map js ls).

Example parsePatch_demo :
  parsePatch (lines_of
    ["<<'EOF'"; "*** Begin Patch"; "*** Add File: a.txt"; "+one"; "+two";
     "*** Update File: b.txt"; "*** Move to: c.txt"; "@@ def f"; " x"; "-y"; "+z";
     "*** Delete File: d"; "*** End Patch"; "EOF"]%string) =
  Ret [HAdd (js "a.txt") (lines_of ["one"; "two"]%string);
       HUpdate (js "b.txt") (Some (js "c.txt"))
         [Chunk [js "x"; js "y"] [js "x"; js "z"] (Some (js "def f")) false];
       HDelete (js "d")].
Proof. by vm_compute. Qed.

Example bash_heredoc_demo :
  maybeParseApplyPatch (map js ["bash"; "-lc"]%string ++
    [lines_of ["cd x; apply_patch <<'E'"; "*** Begin Patch"; "*** End Patch"; "E"]%string])
  = Body (Args (lines_of ["*** Begin Patch"; "*** End Patch"]%string) [] None).
Proof. by vm_compute. Qed.

(** ** Every loop consumes its input *)

Lemma parse_changes_length ls olds news eof rest :
  parse_changes ls = (olds, news, eof, rest) → length rest ≤ length ls.
Proof.
  revert olds news eof rest. induction ls as [|l ls IH]; intros olds news eof rest H; simpl in H; [by simplify_eq|].
  destruct (_ || _); [by simplify_eq|]. case_bool_decide; [simplify_eq; simpl; lia|].
  destruct (parse_changes ls) as [[[o n] e] r] eqn:E. specialize (IH _ _ _ _ eq_refl).
  repeat case_match; simplify_eq; simpl; lia.
Qed.

Lemma parse_chunks_length fuel ls chunks rest :
  parse_chunks fuel ls = (chunks, rest) → length rest ≤ length ls.
Proof.
  revert ls chunks rest. induction fuel as [|fuel IH]; intros ls chunks rest H; simpl in H; [by simplify_eq|].
  destruct ls as [|l ls]; [by simplify_eq|]. simpl.
  destruct (startsWith l stars); [by simplify_eq|].
  destruct (startsWith l ats).
  - destruct (parse_changes ls) as [[[o n] e] r] eqn:E. apply parse_changes_length in E.
    destruct (parse_chunks fuel r) as [c r'] eqn:E'. apply IH in E'. simplify_eq. lia.
  - apply IH in H. lia.
Qed.

Lemma add_content_length ls content rest : add_content ls = (content, rest) → length rest ≤ length ls.
Proof.
  revert content rest. induction ls as [|l ls IH]; intros content rest H; simpl in *; [by simplify_eq|].
  destruct (startsWith l stars); [by simplify_eq|].
  destruct (add_content ls) as [c r]. specialize (IH _ _ eq_refl).
  destruct (startsWith l _); simplify_eq; lia.
Qed.

(** The loops' results do not depend on the fuel once there is one unit a line. *)
Lemma parse_chunks_fuel fuel ls : length ls ≤ fuel → parse_chunks fuel ls = parseUpdateFileChunks ls.
Proof.
  unfold parseUpdateFileChunks.
  enough (∀ n m ls, length ls ≤ n → length ls ≤ m → parse_chunks n ls = parse_chunks m ls) by auto.
  intros n. clear. induction n as [|n IH]; intros m ls Hn Hm; destruct ls as [|l ls]; simpl in *;
    try lia; [by destruct m..|].
  destruct m as [|m]; [lia|]. simpl.
  destruct (startsWith l stars); [done|]. destruct (startsWith l ats); [|apply IH; lia].
  destruct (parse_changes ls) as [[[o nw] e] r] eqn:E. apply parse_changes_length in E.
  by rewrite (IH m) by lia.
Qed.

(** ** Printing *)

(** A chunk as its author writes it. *)
Inductive change := Keep (l : jsstr) | Remove (l : jsstr) | Insert (l : jsstr).
Record src_chunk := SrcChunk { sc_context : option jsstr; sc_changes : list change }.
Inductive src_hunk :=
| SAdd (path : jsstr) (content : list jsstr)
| SDelete (path : jsstr)
| SUpdate (path : jsstr) (move : option jsstr) (chunks : list src_chunk).

Definition change_line (c : change) : jsstr := match c with Keep l | Remove l | Insert l => l end.
Definition old_of (c : change) : option jsstr := match c with Keep l | Remove l => Some l | Insert _ => None end.
Definition new_of (c : change) : option jsstr := match c with Keep l | Insert l => Some l | Remove _ => None end.

Definition chunk_of (c : src_chunk) : UpdateFileChunk :=
  Chunk (omap old_of (sc_changes c)) (omap new_of (sc_changes c)) (sc_context c) false.
Definition hunk_of (h : src_hunk) : Hunk :=
  match h with
  | SAdd p ls => HAdd p (join [newline] ls)
  | SDelete p => HDelete p
  | SUpdate p m cs => HUpdate p m (map chunk_of cs)
  end.

Definition print_change (c : change) : jsstr :=
  match c with Keep l => 32%N :: l | Remove l => 45%N :: l | Insert l => 43%N :: l end.
Definition print_chunk (c : src_chunk) : list jsstr :=
  (ats ++ match sc_context c with Some ctx => 32%N :: ctx | None => [] end) :: map print_change (sc_changes c).
Definition print_hunk (h : src_hunk) : list jsstr :=
  match h with
  | SAdd p ls => (add_prefix ++ 32%N :: p) :: map (λ l, 43%N :: l) ls
  | SDelete p => [delete_prefix ++ 32%N :: p]
  | SUpdate p m cs =>
      (update_prefix ++ 32%N :: p) ::
      match m with Some d => [move_prefix ++ 32%N :: d] | None => [] end ++ flat_map print_chunk cs
  end.
Definition print_lines (hs : list src_hunk) : list jsstr :=
  beginMarker :: flat_map print_hunk hs ++ [endMarker].
Definition print_patch (hs : list src_hunk) : jsstr := join [newline] (print_lines hs).

(** Names fit on a line and have no white space at their ends. *)
Definition name_ok (p : jsstr) : Prop := p ≠ [] ∧ trim p = p ∧ newline ∉ p.
(** A change fits on a line, and a kept line does not read as the end marker. *)
Definition change_ok (c : change) : Prop :=
  newline ∉ change_line c ∧ match c with Keep l => trim l ≠ endMarker | _ => True end.
Definition opt_ok (p : option jsstr) : Prop := match p with Some p => name_ok p | None => True end.
Definition chunk_ok (c : src_chunk) : Prop := opt_ok (sc_context c) ∧ Forall change_ok (sc_changes c).
Definition hunk_ok (h : src_hunk) : Prop :=
  match h with
  | SAdd p ls => name_ok p ∧ Forall (λ l, newline ∉ l) ls
  | SDelete p => name_ok p
  | SUpdate p m cs => name_ok p ∧ opt_ok m ∧ Forall chunk_ok cs
  end.
#[export] Instance name_ok_dec p : Decision (name_ok p).
Proof. apply _. Defined.
#[export] Instance opt_ok_dec p : Decision (opt_ok p).
Proof. destruct p; apply _. Defined.
#[export] Instance change_ok_dec c : Decision (change_ok c).
Proof. destruct c; apply _. Defined.
#[export] Instance chunk_ok_dec c : Decision (chunk_ok c).
Proof. apply _. Defined.
#[export] Instance hunk_ok_dec h : Decision (hunk_ok h).
Proof. destruct h; apply _. Defined.

(** ** Parsing what was printed *)

(** What stops the parse of a hunk: a line that starts with three stars and is
    not a move directive. *)
Definition boundary (ls : list jsstr) : Prop :=
  ∃ l ls', ls = l :: ls' ∧ startsWith l stars = true ∧ startsWith l move_prefix = false.
(** What stops the parse of a chunk. *)
Definition chunk_boundary (ls : list jsstr) : Prop :=
  ∃ l ls', ls = l :: ls' ∧ startsWith l ats || startsWith l stars = true.

Lemma boundary_chunk ls : boundary ls → chunk_boundary ls.
Proof. intros (l & ls' & -> & H & _). exists l, ls'. by rewrite H, orb_true_r. Qed.

Lemma print_chunks_boundary cs rest :
  chunk_boundary rest → chunk_boundary (flat_map print_chunk cs ++ rest).
Proof. destruct cs as [|c cs]; [done|]. intros _. by eexists _, _. Qed.

Lemma print_hunks_boundary hs rest : boundary rest → boundary (flat_map print_hunk hs ++ rest).
Proof. destruct hs as [|[p ls|p|p m cs] hs]; [done|..]; intros _; by eexists _, _. Qed.

Lemma after_print prefix p : trim p = p → after prefix (prefix ++ 32%N :: p) = p.
Proof. intros H. unfold after. by rewrite drop_app_length, trim_space. Qed.

Lemma parse_print_changes cs rest :
  chunk_boundary rest →
  parse_changes (map print_change cs ++ rest) = (omap old_of cs, omap new_of cs, false, rest).
Proof.
  intros Hb. induction cs as [|c cs IH]; simpl.
  - destruct Hb as (l & ls & -> & H). simpl. by rewrite H.
  - rewrite IH. by destruct c.
Qed.

Lemma parse_print_chunks cs rest :
  boundary rest → Forall chunk_ok cs →
  parseUpdateFileChunks (flat_map print_chunk cs ++ rest) = (map chunk_of cs, rest).
Proof.
  intros Hb Hcs. induction Hcs as [|c cs [Hctx _] Hcs IH].
  - destruct Hb as (l & ls & -> & H & _). unfold parseUpdateFileChunks. simpl. by rewrite H.
  - cbn [flat_map map]. unfold parseUpdateFileChunks. rewrite <- app_assoc. cbn [print_chunk app length parse_chunks].
    replace (startsWith _ stars) with false by done. replace (startsWith _ ats) with true by done.
    rewrite parse_print_changes by (by apply print_chunks_boundary, boundary_chunk).
    rewrite parse_chunks_fuel by (rewrite !length_app; lia). rewrite IH.
    f_equal. f_equal. unfold chunk_of. f_equal. destruct (sc_context c) as [ctx|]; [|done].
    destruct Hctx as (Hne & Ht & _). rewrite drop_app_length', trim_space, Ht by done. by destruct ctx.
Qed.

Lemma add_print_content ls rest :
  boundary rest → add_content (map (λ l, 43%N :: l) ls ++ rest) = (flat_map (λ l, l ++ [newline]) ls, rest).
Proof.
  intros Hb. induction ls as [|l ls IH]; simpl.
  - destruct Hb as (x & xs & -> & H & _). simpl. by rewrite H.
  - rewrite IH. by rewrite <- app_assoc.
Qed.

Lemma join_terminated c ls : ls ≠ [] → flat_map (λ l, l ++ [c]) ls = join [c] ls ++ [c].
Proof.
  induction ls as [|l ls IH]; intros H; [done|]. destruct ls as [|l' ls]; [simpl; by rewrite app_nil_r|].
  cbn [flat_map] in *. rewrite IH by done. simpl. by rewrite <- !app_assoc.
Qed.

Lemma parse_print_add ls rest :
  boundary rest → parseAddFileContent (map (λ l, 43%N :: l) ls ++ rest) = (join [newline] ls, rest).
Proof.
  intros Hb. unfold parseAddFileContent. rewrite add_print_content by done.
  destruct (decide (ls = [])) as [->|Hne]; [done|]. rewrite join_terminated by done.
  unfold endsWith. rewrite bool_decide_eq_true_2 by (by apply suffix_app_r).
  by rewrite length_app, Nat.add_sub, take_app_length.
Qed.

(** A printed name is there for the parser. *)
Lemma header_found {B} p prefix (x y : B) :
  name_ok p → match after prefix (prefix ++ 32%N :: p) with [] => x | _ => y end = y.
Proof. intros (Hne & Ht & _). rewrite after_print by done. by destruct p. Qed.

Lemma parse_print_hunks hs rest stop fuel :
  boundary rest → length rest = stop → Forall hunk_ok hs →
  length (flat_map print_hunk hs) ≤ fuel → parse_hunks fuel stop (flat_map print_hunk hs ++ rest) = map hunk_of hs.
Proof.
  intros Hb Hstop Hhs. revert fuel. induction Hhs as [|h hs Hh Hhs IH]; intros fuel Hf.
  - simpl. destruct fuel; [done|]. simpl. by rewrite (proj2 (Nat.leb_le _ _)) by lia.
  - pose proof (print_hunks_boundary hs rest Hb) as Hb'.
    destruct fuel as [|fuel]; [destruct h; simpl in Hf; lia|].
    cbn [flat_map map] in *. rewrite length_app in Hf. rewrite <- app_assoc.
    set (tl := flat_map print_hunk hs ++ rest) in *.
    assert (Hlen : length tl ≥ stop) by (unfold tl; rewrite length_app; lia).
    cbn [parse_hunks]. rewrite (proj2 (Nat.leb_gt _ _)) by (destruct h; simpl; rewrite ?length_app; lia).
    destruct h as [p ls|p|p m cs]; cbn [print_hunk app hunk_of] in *; unfold parsePatchHeader.
    + destruct Hh as [Hp Hls]. rewrite !startsWith_app.
      rewrite header_found, after_print, parse_print_add by (done || apply Hp).
      f_equal. apply IH. simpl in Hf. lia.
    + replace (startsWith _ add_prefix) with false by done. rewrite startsWith_app.
      rewrite header_found, after_print by (done || apply Hh).
      f_equal. apply IH. simpl in Hf. lia.
    + destruct Hh as (Hp & Hm & Hcs).
      replace (startsWith _ add_prefix) with false by done.
      replace (startsWith _ delete_prefix) with false by done. rewrite startsWith_app.
      destruct m as [d|]; cbn [app].
      * rewrite startsWith_app, header_found by apply Hp.
        destruct Hm as (_ & Hd & _). rewrite !after_print by (done || apply Hp).
        rewrite parse_print_chunks by done. f_equal. apply IH. simpl in Hf. lia.
      * destruct (flat_map print_chunk cs ++ tl) as [|x xs] eqn:E.
        { destruct Hb' as (? & ? & Hb' & _). rewrite Hb' in E. by destruct (flat_map print_chunk cs). }
        replace (startsWith x move_prefix) with false.
        -- rewrite header_found, after_print, <- E by apply Hp.
           rewrite parse_print_chunks by done. f_equal. apply IH. simpl in Hf. lia.
        -- destruct cs as [|c cs]; simpl in E; [|by injection E as <- _].
           destruct Hb' as (? & ? & Hb' & _ & Hx). rewrite E in Hb'. injection Hb' as -> _. by rewrite Hx.
Qed.

(** The printed lines, apart from the two markers: no line feeds, and none that
    reads as the end marker. *)
Definition line_ok (l : jsstr) : Prop := newline ∉ l ∧ trim l ≠ endMarker.

Lemma line_ok_lit prefix p :
  newline ∉ prefix → newline ∉ p → (trim (prefix ++ 32%N :: p) ≠ endMarker) → line_ok (prefix ++ 32%N :: p).
Proof.
  intros ? ? ?. split; [|done]. rewrite not_elem_of_app, not_elem_of_cons. by repeat split.
Qed.

Lemma change_line_ok c : change_ok c → line_ok (print_change c).
Proof.
  intros [Hl Hk]. split; [destruct c; by apply not_elem_of_cons|].
  destruct c; simpl in *; [by rewrite trim_space|by apply trim_ne..].
Qed.

Lemma chunk_lines_ok c : chunk_ok c → Forall line_ok (print_chunk c).
Proof.
  intros [Hctx Hcs]. constructor.
  - destruct (sc_context c) as [ctx|]; [|by apply (bool_decide_unpack _); vm_compute].
    destruct Hctx as (_ & _ & ?). apply line_ok_lit; [by apply (bool_decide_unpack _)|done|by apply trim_ne].
  - apply Forall_map. by eapply Forall_impl; [|apply change_line_ok].
Qed.

(** A header or move line. *)
Lemma name_line_ok prefix p :
  name_ok p → bool_decide (newline ∉ prefix) = true →
  match prefix with c :: _ => is_space c = false | [] => False end →
  startsWith (prefix ++ 32%N :: p) endMarker = false → line_ok (prefix ++ 32%N :: p).
Proof.
  intros (_ & _ & Hp) Hpre Hc Hs. bool_to_prop. apply line_ok_lit; [done..|].
  destruct prefix; [done|]. by apply trim_ne.
Qed.

Lemma hunk_lines_ok h : hunk_ok h → Forall line_ok (print_hunk h).
Proof.
  destruct h as [p ls|p|p m cs]; cbn [hunk_ok print_hunk].
  - intros [Hp Hls]. constructor; [by apply name_line_ok|].
    apply Forall_map. eapply Forall_impl; [exact Hls|]. intros l Hl. by apply (change_line_ok (Insert l)).
  - intros Hp. constructor; [by apply name_line_ok|constructor].
  - intros (Hp & Hm & Hcs). constructor; [by apply name_line_ok|].
    apply Forall_app. split.
    + destruct m as [d|]; [|done]. constructor; [by apply name_line_ok|constructor].
    + induction Hcs as [|c cs Hc Hcs IH]; [done|]. apply Forall_app. split; [by apply chunk_lines_ok|done].
Qed.

Lemma print_lines_ok hs : Forall hunk_ok hs → Forall line_ok (flat_map print_hunk hs).
Proof.
  induction 1 as [|h hs Hh Hhs IH]; [done|]. apply Forall_app. split; [by apply hunk_lines_ok|done].
Qed.

Lemma findIndex_from_skip {A} (p : A → bool) i xs ys :
  Forall (λ x, p x = false) xs → findIndex_from i p (xs ++ ys) = findIndex_from (i + length xs) p ys.
Proof.
  intros H. revert i. induction H as [|x xs Hx H IH]; intros i; simpl; [by rewrite Nat.add_0_r|].
  rewrite Hx, IH. f_equal. lia.
Qed.

Lemma join_last sep l ls : join sep (ls ++ [l]) = match ls with [] => l | _ => join sep ls ++ sep ++ l end.
Proof.
  induction ls as [|x ls IH]; [done|]. simpl in *. destruct ls as [|y ls]; [done|].
  simpl in *. rewrite IH. by rewrite <- !app_assoc.
Qed.

Lemma trim_print hs : stripHeredoc (trim (print_patch hs)) = print_patch hs.
Proof.
  assert (H : ∃ s, print_patch hs = 42%N :: 42%N :: s ++ [104%N]).
  { unfold print_patch, print_lines. rewrite app_comm_cons, join_last.
    destruct (flat_map print_hunk hs) as [|l ls].
    - eexists (drop 2 beginMarker ++ [newline] ++ take 12 endMarker). by vm_compute.
    - eexists (drop 2 beginMarker ++ [newline] ++ join [newline] (l :: ls) ++ [newline] ++ take 12 endMarker).
      simpl. by rewrite <- !app_assoc. }
  destruct H as [s Hs]. rewrite Hs. pose proof (trim_id 42 (42%N :: s) 104 eq_refl eq_refl) as Ht. simpl app in Ht. by rewrite Ht.
Qed.

(** C38. Round trip: parsing a printed patch gives its hunks back, for every
    list of hunks whose names and lines fit on a line and keep no line that
    reads as the end marker. *)
Theorem patch_parse_print (hs : list src_hunk) :
  Forall hunk_ok hs → parsePatch (print_patch hs) = Ret (map hunk_of hs).
Proof.
  intros Hhs. pose proof (print_lines_ok hs Hhs) as Hl. unfold parsePatch.
  rewrite trim_print. unfold print_patch. rewrite split_join; [|done|].
  2:{ constructor; [by apply (bool_decide_unpack _)|]. apply Forall_app. split.
      - eapply Forall_impl; [exact Hl|]. by intros l [? _].
      - constructor; [by apply (bool_decide_unpack _)|constructor]. }
  unfold print_lines. set (body := flat_map print_hunk hs) in *.
  replace (findIndex _ (beginMarker :: body ++ [endMarker])) with (Some 0) by done.
  replace (findIndex (λ line, bool_decide (trim line = endMarker)) _) with (Some (S (length body))).
  - cbn [Nat.leb drop length]. f_equal. apply parse_print_hunks.
    + by exists endMarker, [].
    + rewrite length_app. simpl. lia.
    + done.
    + rewrite length_app. fold body. lia.
  - unfold findIndex. cbn [findIndex_from]. rewrite bool_decide_eq_false_2 by by vm_compute.
    rewrite findIndex_from_skip; [by simpl|].
    eapply Forall_impl; [exact Hl|]. intros l [_ ?]. by apply bool_decide_eq_false_2.
Qed.

Definition demo_hunks : list src_hunk :=
  [SAdd (js "a") [js "one"; []];
   SUpdate (js "b") (Some (js "c")) [SrcChunk (Some (js "f")) [Keep (js "x"); Remove []; Insert (js "*** z")]];
   SDelete (js "d")].
Lemma patch_parse_print_witness :
  Forall hunk_ok demo_hunks ∧ parsePatch (print_patch demo_hunks) = Ret (map hunk_of demo_hunks).
Proof.
  assert (H : Forall hunk_ok demo_hunks) by (apply (bool_decide_unpack _); by vm_compute).
  split; [exact H|]. exact (patch_parse_print demo_hunks H).
Defined.

(** ** The end-of-file marker

    The marker starts with the three stars that end the loop over a chunk's
    lines, so the test for it inside the loop never succeeds. *)

Definition no_eof (h : Hunk) : Prop :=
  match h with HUpdate _ _ cs => Forall (λ c, is_end_of_file c = false) cs | _ => True end.

Lemma parse_changes_no_eof ls olds news eof rest :
  parse_changes ls = (olds, news, eof, rest) → eof = false.
Proof.
  revert olds news eof rest. induction ls as [|l ls IH]; intros olds news eof rest H; simpl in H; [by simplify_eq|].
  destruct (_ || _) eqn:Eb; [by simplify_eq|].
  rewrite bool_decide_eq_false_2 in H by (intros ->; by vm_compute in Eb).
  destruct (parse_changes ls) as [[[o n] e] r]. specialize (IH _ _ _ _ eq_refl).
  repeat case_match; by simplify_eq.
Qed.

Lemma parse_chunks_no_eof fuel ls chunks rest :
  parse_chunks fuel ls = (chunks, rest) → Forall (λ c, is_end_of_file c = false) chunks.
Proof.
  revert ls chunks rest. induction fuel as [|fuel IH]; intros ls chunks rest H; simpl in H; [by simplify_eq|].
  destruct ls as [|l ls]; [by simplify_eq|].
  destruct (startsWith l stars); [by simplify_eq|]. destruct (startsWith l ats); [|by eapply IH].
  destruct (parse_changes ls) as [[[o n] e] r] eqn:E. destruct (parse_chunks fuel r) as [c r'] eqn:E'.
  simplify_eq. constructor; [by eapply parse_changes_no_eof|by eapply IH].
Qed.

(** The end-of-file anchor is never set: whatever the text of a patch, no
    chunk of the hunks it parses to carries it. *)
Theorem patch_eof_never_set (text : jsstr) :
  match parsePatch text with Ret hs => Forall no_eof hs | Throw e => e = missing_markers end.
Proof.
  unfold parsePatch. do 2 (destruct (findIndex _ _); [|done]). destruct (Nat.leb _ _); [done|].
  generalize (length (split_on newline (stripHeredoc (trim text)))) at 1. intros fuel.
  generalize (drop (S n) (split_on newline (stripHeredoc (trim text)))).
  induction fuel as [|fuel IH]; intros ls; cbn [parse_hunks]; [constructor|].
  destruct (Nat.leb _ _); [constructor|]. destruct ls as [|l ls]; [constructor|].
  destruct (parsePatchHeader (l :: ls)) as [[[p m] next]|]; [|apply IH].
  destruct (startsWith l add_prefix); [destruct (parseAddFileContent next); by constructor|].
  destruct (startsWith l delete_prefix); [by constructor|].
  destruct (startsWith l update_prefix); [|apply IH].
  destruct (parseUpdateFileChunks next) as [cs rest] eqn:E. constructor; [by eapply parse_chunks_no_eof|apply IH].
Qed.

(** A chunk after the marker is dropped without an error. *)
Example chunk_after_eof_dropped :
  parsePatch (lines_of
    ["*** Begin Patch"; "*** Update File: a"; "@@"; "-x"; "*** End of File"; "@@"; "-y"; "*** End Patch"]%string)
  = Ret [HUpdate (js "a") None [Chunk [js "x"] [] None false]].
Proof. by vm_compute. Qed.
