(* ===== verification/PatchApply.v ===== *)
(** Applying patches ([patch/index.ts]): locating the old lines of a chunk,
    replacing them, and running the hunks against the file system.

    Line numbers are [nat]; [-1] for "not found" is [None].  The file system is
    an interface, the operations of [fs] and [fs/promises] that the code calls;
    an operation returns the file system it leaves behind also when it fails.
    The similarity scores ([findBestApproxMatch]) only feed a log line and are
    left out, like the other log calls. *)

From S2P Require Import Prelude JsString PatchParse.

(** ** Comparing lines *)

(** [normalizeUnicode(str)]. *)
Definition normalize_unit (c : N) : jsstr :=
  if ((8216 <=? c) && (c <=? 8219))%N then [39%N]
  else if ((8220 <=? c) && (c <=? 8223))%N then [34%N]
  else if ((8208 <=? c) && (c <=? 8213))%N then [45%N]
  else if (c =? 8230)%N then js "..."
  else if (c =? 160)%N then [32%N]
  else [c].
Definition normalizeUnicode (s : jsstr) : jsstr := flat_map normalize_unit s.

Definition comparator := jsstr → jsstr → bool.

Definition same_after (f : jsstr → jsstr) : comparator := λ a b, bool_decide (f a = f b).

(** The passes of [seekSequence], strictest first. *)
Definition passes : list comparator :=
  [same_after id; same_after trimEnd; same_after trim; same_after (λ l, normalizeUnicode (trim l))].

(** The inner loop of [tryMatch]: the lines start with the pattern. *)
Fixpoint lines_match (compare : comparator) (ls pat : list jsstr) {struct pat} : bool :=
  match pat, ls with
  | [], _ => true
  | p :: pat', l :: ls' => compare l p && lines_match compare ls' pat'
  | _ :: _, [] => false
  end.

(** The forward search: [n] candidates from [i] on. *)
Fixpoint search (compare : comparator) (lines pat : list jsstr) (n i : nat) : option nat :=
  match n with
  | O => None
  | S n => if lines_match compare (drop i lines) pat then Some i else search compare lines pat n (S i)
  end.

Definition tryMatch (lines pat : list jsstr) (startIndex : nat) (compare : comparator) (eof : bool) : option nat :=
  let fromEnd := length lines - length pat in
  if eof && Nat.leb (startIndex + length pat) (length lines)
     && lines_match compare (drop fromEnd lines) pat
  then Some fromEnd
  else search compare lines pat (S (length lines) - length pat - startIndex) startIndex.

(** The first pass that finds the pattern. *)
Fixpoint first_pass (lines pat : list jsstr) (startIndex : nat) (eof : bool) (cs : list comparator) : option nat :=
  match cs with
  | [] => None
  | c :: cs' =>
      match tryMatch lines pat startIndex c eof with
      | Some i => Some i
      | None => first_pass lines pat startIndex eof cs'
      end
  end.

Definition seekSequence (lines pat : list jsstr) (startIndex : nat) (eof : bool) : option nat :=
  match pat with
  | [] => None
  | _ => first_pass lines pat startIndex eof passes
  end.

(** ** Replacements *)

(** [[startIdx, oldLen, newSegment]]. *)
Record replacement := Rep { rp_start : nat; rp_len : nat; rp_new : list jsstr }.

Definition ends_blank (ls : list jsstr) : bool :=
  match last ls with Some [] => true | _ => false end.
Definition drop_last {A} (ls : list A) : list A := take (length ls - 1) ls.

Definition context_error (ctx file : jsstr) : jsstr :=
  js "Failed to find context '" ++ ctx ++ js "' in " ++ file.
Definition lines_error (old : list jsstr) (file : jsstr) : jsstr :=
  js "Failed to find expected lines in " ++ file ++ js ":" ++ newline :: default (js "undefined") (head old).

(** The line after the chunk's context, if it has one. *)
Definition seek_context (lines : list jsstr) (filePath : jsstr) (chunk : UpdateFileChunk) (lineIndex : nat)
    : result jsstr nat :=
  match truthy (change_context chunk) with
  | None => Ret lineIndex
  | Some ctx =>
      match seekSequence lines [ctx] lineIndex false with
      | Some contextIdx => Ret (S contextIdx)
      | None => Throw (context_error ctx filePath)
      end
  end.

(** Where the chunk's old lines are, retried without a trailing empty line:
    start, number of lines, and their replacement. *)
Definition locate (lines : list jsstr) (chunk : UpdateFileChunk) (lineIndex : nat) : option replacement :=
  let pattern := old_lines chunk in
  let newSlice := new_lines chunk in
  match seekSequence lines pattern lineIndex (is_end_of_file chunk) with
  | Some found => Some (Rep found (length pattern) newSlice)
  | None =>
      if ends_blank pattern then
        let pattern' := drop_last pattern in
        let newSlice' := if ends_blank newSlice then drop_last newSlice else newSlice in
        match seekSequence lines pattern' lineIndex (is_end_of_file chunk) with
        | Some found => Some (Rep found (length pattern') newSlice')
        | None => None
        end
      else None
  end.

(** The loop of [computeReplacements]: the replacements, in the order of the
    chunks. *)
Fixpoint chunk_replacements (lines : list jsstr) (filePath : jsstr) (chunks : list UpdateFileChunk)
    (lineIndex : nat) : result jsstr (list replacement) :=
  match chunks with
  | [] => Ret []
  | chunk :: rest =>
      lineIndex' ← seek_context lines filePath chunk lineIndex;
      match old_lines chunk with
      | [] =>
          let insertionIdx := if ends_blank lines then length lines - 1 else length lines in
          rs ← chunk_replacements lines filePath rest lineIndex';
          Ret (Rep insertionIdx 0 (new_lines chunk) :: rs)
      | _ =>
          match locate lines chunk lineIndex' with
          | Some r =>
              rs ← chunk_replacements lines filePath rest (rp_start r + rp_len r);
              Ret (r :: rs)
          | None => Throw (lines_error (old_lines chunk) filePath)
          end
      end
  end.

Definition by_start (a b : replacement) : Z := Z.of_nat (rp_start a) - Z.of_nat (rp_start b).

Definition computeReplacements (lines : list jsstr) (filePath : jsstr) (chunks : list UpdateFileChunk)
    : result jsstr (list replacement) :=
  rs ← chunk_replacements lines filePath chunks 0;
  Ret (sort_by by_start rs).

(** [result.splice(startIdx, oldLen)], then the new lines one by one. *)
Definition splice (ls : list jsstr) (start len : nat) (ins : list jsstr) : list jsstr :=
  take start ls ++ ins ++ drop (start + len) ls.
Fixpoint insert_lines (ls : list jsstr) (pos : nat) (ins : list jsstr) : list jsstr :=
  match ins with
  | [] => ls
  | l :: ins' => insert_lines (splice ls pos 0 [l]) (S pos) ins'
  end.
Definition replace_one (ls : list jsstr) (r : replacement) : list jsstr :=
  insert_lines (splice ls (rp_start r) (rp_len r) []) (rp_start r) (rp_new r).

(** [applyReplacements]: from the last replacement to the first. *)
Definition applyReplacements (lines : list jsstr) (rs : list replacement) : list jsstr :=
  foldr (λ r ls, replace_one ls r) lines rs.

(** ** New contents of a file *)

(** [generateUnifiedDiff]: one round of its loop a pair of lines, an absent line
    counting as empty; the diff so far and whether there were changes. *)
Definition diff_line (oldLine newLine : jsstr) : jsstr * bool :=
  if bool_decide (oldLine = newLine)
  then (match oldLine with [] => [] | _ => js " " ++ oldLine ++ [newline] end, false)
  else (match oldLine with [] => [] | _ => js "-" ++ oldLine ++ [newline] end ++
        match newLine with [] => [] | _ => js "+" ++ newLine ++ [newline] end, true).
Fixpoint diff_lines (n i : nat) (oldLines newLines : list jsstr) : jsstr * bool :=
  match n with
  | O => ([], false)
  | S n =>
      let '(d, c) := diff_line (default [] (oldLines !! i)) (default [] (newLines !! i)) in
      let '(ds, cs) := diff_lines n (S i) oldLines newLines in
      (d ++ ds, c || cs)
  end.
Definition generateUnifiedDiff (oldContent newContent : jsstr) : jsstr :=
  let oldLines := split_on newline oldContent in
  let newLines := split_on newline newContent in
  let '(d, hasChanges) := diff_lines (Nat.max (length oldLines) (length newLines)) 0 oldLines newLines in
  if hasChanges then js "@@ -1 +1 @@" ++ newline :: d else [].

(** The lines of a file, less the empty one after a final line feed. *)
Definition file_lines (content : jsstr) : list jsstr :=
  let ls := split_on newline content in
  if ends_blank ls then drop_last ls else ls.

Record ApplyPatchFileUpdate := FileUpdate { unified_diff : jsstr; content : jsstr }.

(** [deriveNewContentsFromChunks] after reading the file. *)
Definition new_contents (filePath originalContent : jsstr) (chunks : list UpdateFileChunk)
    : result jsstr ApplyPatchFileUpdate :=
  let originalLines := file_lines originalContent in
  rs ← computeReplacements originalLines filePath chunks;
  let newLines := applyReplacements originalLines rs in
  let newLines' := if ends_blank newLines then newLines else newLines ++ [[]] in
  let newContent := join [newline] newLines' in
  Ret (FileUpdate (generateUnifiedDiff originalContent newContent) newContent).

(** ** The file system *)

Class FileSystem (fs : Type) := {
  readFile : jsstr → fs → result jsstr jsstr;
  writeFile : jsstr → jsstr → fs → fs * result jsstr unit;
  unlink : jsstr → fs → fs * result jsstr unit;
  mkdir : jsstr → fs → fs * result jsstr unit;
  dirname : jsstr → jsstr;
  resolve : jsstr → jsstr → jsstr
}.

(** What is relied on, where [same] says that two paths name the same file. *)
Class FileSystemLaws (fs : Type) `{FileSystem fs} (same : jsstr → jsstr → Prop) := {
  same_equiv :: Equivalence same;
  read_same p q s c : same p q → readFile p s = Ret c → readFile q s = Ret c;
  write_read p c s s' : writeFile p c s = (s', Ret tt) → readFile p s' = Ret c;
  write_other p c s q : ¬ same p q → readFile q (writeFile p c s).1 = readFile q s;
  unlink_read p s s' : unlink p s = (s', Ret tt) → ∀ c, readFile p s' ≠ Ret c;
  unlink_other p s q : ¬ same p q → readFile q (unlink p s).1 = readFile q s;
  mkdir_read p s q : readFile q (mkdir p s).1 = readFile q s
}.

(** Code that awaits file operations. *)
Notation io := (eff jsstr).

Record AffectedPaths := Affected { added : list jsstr; modified : list jsstr; deleted : list jsstr }.
Definition no_paths : AffectedPaths := Affected [] [] [].

Section Apply.
Context {fs : Type} `{FileSystem fs}.

Definition deriveNewContentsFromChunks (filePath : jsstr) (chunks : list UpdateFileChunk) (s : fs)
    : result jsstr ApplyPatchFileUpdate :=
  match readFile filePath s with
  | Throw e => Throw (js "Failed to read file " ++ filePath ++ js ": " ++ e)
  | Ret originalContent => new_contents filePath originalContent chunks
  end.

(** [mkdir] of the parent, unless it is the current or the root directory. *)
Definition make_parent (path : jsstr) : io fs unit :=
  let dir := dirname path in
  if bool_decide (dir = js ".") || bool_decide (dir = js "/") then mret tt else mkdir dir.

(** One case of the switch: the paths affected so far, with the hunk's. *)
Definition apply_hunk (hunk : Hunk) (acc : AffectedPaths) : io fs AffectedPaths :=
  match hunk with
  | HAdd path contents =>
      _ ← make_parent path; _ ← writeFile path contents;
      mret (Affected (added acc ++ [path]) (modified acc) (deleted acc))
  | HDelete path =>
      _ ← unlink path;
      mret (Affected (added acc) (modified acc) (deleted acc ++ [path]))
  | HUpdate path move_path chunks =>
      fileUpdate ← (λ s, (s, deriveNewContentsFromChunks path chunks s));
      match truthy move_path with
      | Some dest =>
          _ ← make_parent dest; _ ← writeFile dest (content fileUpdate); _ ← unlink path;
          mret (Affected (added acc) (modified acc ++ [dest]) (deleted acc))
      | None =>
          _ ← writeFile path (content fileUpdate);
          mret (Affected (added acc) (modified acc ++ [path]) (deleted acc))
      end
  end.
Fixpoint apply_hunks (hs : list Hunk) (acc : AffectedPaths) : io fs AffectedPaths :=
  match hs with
  | [] => mret acc
  | h :: hs' => acc' ← apply_hunk h acc; apply_hunks hs' acc'
  end.
Definition applyHunksToFiles (hs : list Hunk) : io fs AffectedPaths :=
  match hs with
  | [] => λ s, (s, Throw (js "No files were modified."))
  | _ => apply_hunks hs no_paths
  end.

Definition applyPatch (patchText : jsstr) : io fs AffectedPaths :=
  hs ← (λ s, (s, parsePatch patchText)); applyHunksToFiles hs.

(** [isChunksAlreadyApplied]: its loop, then the whole. *)
Fixpoint chunks_present (lines : list jsstr) (chunks : list UpdateFileChunk) (lineIndex : nat) : bool :=
  match chunks with
  | [] => true
  | chunk :: rest =>
      match new_lines chunk with
      | [] => chunks_present lines rest lineIndex
      | news =>
          match seek_context lines [] chunk lineIndex with
          | Throw _ => false
          | Ret lineIndex' =>
              match seekSequence lines news lineIndex' (is_end_of_file chunk) with
              | None => false
              | Some found => chunks_present lines rest (found + length news)
              end
          end
      end
  end.
Definition isChunksAlreadyApplied (filePath : jsstr) (chunks : list UpdateFileChunk) (s : fs) : bool :=
  match readFile filePath s with
  | Throw _ => false
  | Ret content => chunks_present (file_lines content) chunks 0
  end.

(** ** Verified invocations *)

Inductive ApplyPatchFileChange :=
| CAdd (content : jsstr)
| CDelete (content : jsstr)
| CUpdate (unified_diff : jsstr) (move_path : option jsstr) (new_content : jsstr).
Record ApplyPatchAction := PatchAction {
  changes : gmap jsstr ApplyPatchFileChange; action_patch : jsstr; action_cwd : jsstr }.
Inductive MaybeApplyPatchVerified :=
| VBody (action : ApplyPatchAction)
| VCorrectnessError (error : jsstr)
| VNotApplyPatch.

Definition hunk_target (hunk : Hunk) : jsstr :=
  match hunk with
  | HAdd path _ | HDelete path => path
  | HUpdate path move_path _ => default path (truthy move_path)
  end.

(** The change that a hunk stands for, in the directory [cwd]. *)
Definition hunk_change (cwd : jsstr) (hunk : Hunk) (s : fs) : result jsstr ApplyPatchFileChange :=
  match hunk with
  | HAdd _ contents => Ret (CAdd contents)
  | HDelete path =>
      match readFile (resolve cwd path) s with
      | Ret content => Ret (CDelete content)
      | Throw _ => Throw (js "Failed to read file for deletion: " ++ resolve cwd path)
      end
  | HUpdate path move_path chunks =>
      fileUpdate ← deriveNewContentsFromChunks (resolve cwd path) chunks s;
      Ret (CUpdate (unified_diff fileUpdate) (resolve cwd <$> truthy move_path) (content fileUpdate))
  end.
Fixpoint hunk_changes (cwd : jsstr) (hs : list Hunk) (m : gmap jsstr ApplyPatchFileChange) (s : fs)
    : result jsstr (gmap jsstr ApplyPatchFileChange) :=
  match hs with
  | [] => Ret m
  | h :: hs' =>
      c ← hunk_change cwd h s;
      hunk_changes cwd hs' (<[resolve cwd (hunk_target h) := c]> m) s
  end.

Definition verify_body (argv : list jsstr) (cwd : jsstr) (s : fs) : MaybeApplyPatchVerified :=
  match maybeParseApplyPatch argv with
  | Body args =>
      let effectiveCwd := match truthy (workdir args) with Some w => resolve cwd w | None => cwd end in
      match hunk_changes effectiveCwd (hunks args) ∅ s with
      | Ret m => VBody (PatchAction m (patch args) effectiveCwd)
      | Throw e => VCorrectnessError e
      end
  | PatchParseError e => VCorrectnessError e
  | NotApplyPatch => VNotApplyPatch
  end.
Definition maybeParseApplyPatchVerified (argv : list jsstr) (cwd : jsstr) (s : fs) : MaybeApplyPatchVerified :=
  match argv with
  | [text] =>
      match parsePatch text with
      | Ret _ => VCorrectnessError (js "ImplicitInvocation")
      | Throw _ => verify_body argv cwd s
      end
  | _ => verify_body argv cwd s
  end.
End Apply.

(** ** Seeking *)

(** The pattern is found at line [i], line by line up to [c]. *)
Definition matches_at (c : comparator) (lines pat : list jsstr) (i : nat) : Prop :=
  ∃ pre block post, lines = pre ++ block ++ post ∧ length pre = i ∧ Forall2 (λ l p, c l p = true) block pat.

Lemma lines_match_spec c ls pat :
  lines_match c ls pat = true ↔ ∃ block post, ls = block ++ post ∧ Forall2 (λ l p, c l p = true) block pat.
Proof.
  revert ls. induction pat as [|p pat IH]; intros ls; simpl.
  - split; [|done]. intros _. exists [], ls. split; [done|constructor].
  - destruct ls as [|l ls].
    + split; [done|]. intros (block & post & E & Hf). inversion Hf; subst. done.
    + rewrite andb_true_iff, IH. split.
      * intros (? & block & post & -> & ?). exists (l :: block), post. split; [done|by constructor].
      * intros (block & post & E & Hf). inversion Hf; subst. simplify_eq/=. eauto.
Qed.

Lemma lines_match_at c lines pat i :
  i ≤ length lines → lines_match c (drop i lines) pat = true ↔ matches_at c lines pat i.
Proof.
  intros Hi. rewrite lines_match_spec. split.
  - intros (block & post & E & Hf). exists (take i lines), block, post.
    rewrite <- E, take_drop. rewrite length_take. split; [done|]. split; [lia|done].
  - intros (pre & block & post & -> & <- & Hf). rewrite drop_app_length. eauto.
Qed.

Lemma matches_at_bound c lines pat i : matches_at c lines pat i → i + length pat ≤ length lines.
Proof.
  intros (pre & block & post & -> & <- & Hf). apply Forall2_length in Hf. rewrite !length_app. lia.
Qed.

Lemma search_spec c lines pat n i k :
  i + n ≤ S (length lines) →
  search c lines pat n i = Some k ↔
  i ≤ k < i + n ∧ matches_at c lines pat k ∧ ∀ j, i ≤ j < k → ¬ matches_at c lines pat j.
Proof.
  revert i. induction n as [|n IH]; intros i Hn; simpl; [split; [done|intros ([? ?] & _); lia]|].
  destruct (lines_match c (drop i lines) pat) eqn:E.
  - apply lines_match_at in E; [|lia]. split.
    + intros [= <-]. split; [lia|]. split; [done|]. intros; lia.
    + intros ([? ?] & Hk & Hmin). f_equal. destruct (decide (i = k)); [done|]. destruct (Hmin i); [lia|done].
  - assert (Hi : ¬ matches_at c lines pat i) by (rewrite <- lines_match_at by lia; by rewrite E).
    rewrite IH by lia. split.
    + intros ([? ?] & Hk & Hmin). split; [lia|]. split; [done|]. intros j Hj.
      destruct (decide (j = i)) as [->|]; [done|]. apply Hmin. lia.
    + intros ([? ?] & Hk & Hmin). assert (i ≠ k) by (by intros ->).
      split; [lia|]. split; [done|]. intros j Hj. apply Hmin. lia.
Qed.

Lemma tryMatch_spec lines pat start c k :
  tryMatch lines pat start c false = Some k ↔
  start ≤ k ∧ matches_at c lines pat k ∧ ∀ j, start ≤ j < k → ¬ matches_at c lines pat j.
Proof.
  unfold tryMatch. cbn [andb]. destruct (decide (start + length pat ≤ length lines)) as [Hle|Hgt].
  - rewrite search_spec by lia. split.
    + intros ([? ?] & ? & ?). by repeat split.
    + intros (? & Hk & ?). pose proof (matches_at_bound _ _ _ _ Hk). repeat split; [lia|lia|done|done].
  - replace (S (length lines) - length pat - start) with 0 by lia. split; [done|].
    intros (? & Hk & _). apply matches_at_bound in Hk. lia.
Qed.

Lemma tryMatch_eof lines pat start c k :
  tryMatch lines pat start c true = Some k → start ≤ k ∧ matches_at c lines pat k.
Proof.
  unfold tryMatch. destruct (_ && _) eqn:E.
  - intros [= <-]. bool_to_prop. split; [lia|]. apply lines_match_at; [lia|done].
  - intros H. apply (proj1 (tryMatch_spec lines pat start c k)) in H. tauto.
Qed.

Lemma tryMatch_None lines pat start c eof :
  tryMatch lines pat start c eof = None → ∀ j, start ≤ j → ¬ matches_at c lines pat j.
Proof.
  intros H j Hj Hm. assert (H' : tryMatch lines pat start c false = None).
  { unfold tryMatch in *. cbn [andb]. by destruct (_ && _). }
  clear H. assert (∀ n j, j < n → start ≤ j → ¬ matches_at c lines pat j) as Hno; [|apply (Hno (S j) j); [lia|done|done]].
  clear j Hj Hm. induction n as [|n IH]; intros j Hjn Hj Hm; [lia|].
  assert (tryMatch lines pat start c false = Some j) as E; [|congruence].
  apply tryMatch_spec. split; [done|]. split; [done|]. intros k Hk. apply IH; lia.
Qed.

Lemma first_pass_spec lines pat start eof cs k :
  first_pass lines pat start eof cs = Some k ↔
  ∃ before c after, cs = before ++ c :: after ∧ tryMatch lines pat start c eof = Some k ∧
    ∀ c', c' ∈ before → tryMatch lines pat start c' eof = None.
Proof.
  induction cs as [|c cs IH]; simpl.
  - split; [done|]. by intros ([|] & ? & ? & ? & _).
  - destruct (tryMatch lines pat start c eof) as [i|] eqn:E.
    + split.
      * intros [= <-]. exists [], c, cs. split; [done|]. split; [done|]. intros c' Hc'. no_member.
      * intros ([|b before] & c' & after & Hcs & Hk & Hb); simplify_eq/=; [congruence|].
        rewrite (Hb b) in E by left. done.
    + rewrite IH. split.
      * intros (before & c' & after & -> & ? & Hb). exists (c :: before), c', after.
        split; [done|]. split; [done|]. intros c'' [->|]%elem_of_cons; eauto.
      * intros ([|b before] & c' & after & Hcs & Hk & Hb); simplify_eq/=.
        exists before, c', after. split; [done|]. split; [done|]. intros c'' ?. apply Hb. by right.
Qed.

(** Seeking: the pattern is found by the strictest comparison under which
    it occurs at or after the start line, at the first such line; it is not
    found when no comparison finds it, or when it is empty. *)
Theorem patch_seek_strictest (lines pat : list jsstr) (start k : nat) :
  seekSequence lines pat start false = Some k ↔
  pat ≠ [] ∧ ∃ before c after, passes = before ++ c :: after ∧
    start ≤ k ∧ matches_at c lines pat k ∧
    (∀ j, start ≤ j < k → ¬ matches_at c lines pat j) ∧
    (∀ c' j, c' ∈ before → start ≤ j → ¬ matches_at c' lines pat j).
Proof.
  unfold seekSequence. destruct pat as [|p pat]; [split; [done|by intros [? _]]|].
  rewrite first_pass_spec. split.
  - intros (before & c & after & Hp & Hk & Hb). split; [done|]. exists before, c, after.
    apply tryMatch_spec in Hk as (? & ? & ?). repeat split; [done..|].
    intros c' j Hc' Hj. by apply (tryMatch_None _ _ start c' false); [apply Hb|].
  - intros (_ & before & c & after & Hp & ? & ? & ? & Hb). exists before, c, after.
    split; [done|]. split; [by apply tryMatch_spec|].
    intros c' Hc'. destruct (tryMatch _ _ _ c' false) as [j|] eqn:E; [|done].
    apply tryMatch_spec in E as (? & ? & _). by destruct (Hb c' j).
Qed.

(** ** Replacing *)

Definition rp_end (r : replacement) : nat := rp_start r + rp_len r.

Lemma insert_lines_eq ls pos ins :
  pos ≤ length ls → insert_lines ls pos ins = take pos ls ++ ins ++ drop pos ls.
Proof.
  revert ls pos. induction ins as [|l ins IH]; intros ls pos H; simpl; [by rewrite take_drop|].
  unfold splice. rewrite Nat.add_0_r, IH by (rewrite !length_app, length_take, length_drop; simpl; lia).
  rewrite take_app_ge, drop_app_ge by (rewrite length_take; lia).
  rewrite length_take, Nat.min_l by lia. replace (S pos - pos) with 1 by lia. simpl.
  rewrite take_0, drop_0. by rewrite <- app_assoc.
Qed.

Lemma replace_one_eq ls r :
  rp_end r ≤ length ls → replace_one ls r = take (rp_start r) ls ++ rp_new r ++ drop (rp_end r) ls.
Proof.
  unfold rp_end, replace_one, splice. intros H.
  rewrite insert_lines_eq by (rewrite !length_app, length_take, length_drop; simpl; lia). simpl.
  rewrite take_app_le, take_take, Nat.min_id by (rewrite length_take; lia).
  rewrite drop_app_ge by (rewrite length_take; lia). by rewrite length_take, Nat.min_l, Nat.sub_diag, drop_0 by lia.
Qed.

(** The reference: all replacements at once, the lines between them kept;
    [ls] are the lines from number [pos] on. *)
Fixpoint weave (pos : nat) (ls : list jsstr) (rs : list replacement) : list jsstr :=
  match rs with
  | [] => ls
  | r :: rs' =>
      take (rp_start r - pos) ls ++ rp_new r ++ weave (rp_end r) (drop (rp_end r - pos) ls) rs'
  end.

Definition apart (r r' : replacement) : Prop := rp_end r ≤ rp_start r'.

Lemma applyReplacements_weave lines rs pos :
  StronglySorted apart rs → Forall (λ r, pos ≤ rp_start r ∧ rp_end r ≤ length lines) rs →
  applyReplacements lines rs = take pos lines ++ weave pos (drop pos lines) rs.
Proof.
  intros Hs. revert pos. induction Hs as [|r rs Hs IH Hr]; intros pos Hb; simpl; [by rewrite take_drop|].
  apply Forall_cons in Hb as [[Hpos Hend] Hb].
  rewrite (IH (rp_end r)) by (rewrite Forall_forall in *; intros r' Hr'; split; [by apply Hr|by apply Hb]).
  assert (rp_start r ≤ rp_end r) by (unfold rp_end; lia).
  rewrite replace_one_eq by (rewrite length_app, length_take; lia).
  rewrite take_app_le, take_take, Nat.min_l by (rewrite ?length_take; lia).
  rewrite drop_app_ge by (rewrite length_take; lia). rewrite length_take, Nat.min_l, Nat.sub_diag, drop_0 by lia.
  rewrite drop_drop. replace (pos + (rp_end r - pos)) with (rp_end r) by lia.
  rewrite (app_assoc (take pos lines)). f_equal.
  rewrite <- (take_drop pos (take (rp_start r) lines)), take_take, Nat.min_l by lia. f_equal.
  rewrite take_drop_commute. do 2 f_equal. lia.
Qed.

(** What each replacement of the loop is: the lines of an insertion at the end,
    or new lines for a block that matches the chunk's old ones. *)
Definition replaces (lines : list jsstr) (chunk : UpdateFileChunk) (r : replacement) : Prop :=
  (old_lines chunk = [] ∧ r = Rep (length lines) 0 (new_lines chunk)) ∨
  (∃ c olds, c ∈ passes ∧ matches_at c lines olds (rp_start r) ∧ rp_len r = length olds ∧ olds ≠ [] ∧
     (olds = old_lines chunk ∧ rp_new r = new_lines chunk ∨
      old_lines chunk = olds ++ [[]] ∧
        (new_lines chunk = rp_new r ∧ ends_blank (rp_new r) = false ∨ new_lines chunk = rp_new r ++ [[]]))).

Lemma ends_blank_snoc ls : ends_blank ls = true → ls = drop_last ls ++ [[]].
Proof.
  unfold ends_blank. destruct ls as [|l ls _] using rev_ind; [done|]. rewrite last_snoc. unfold drop_last.
  rewrite length_app, Nat.add_sub, take_app_length. by destruct l.
Qed.

Lemma first_pass_matches lines pat start eof k :
  seekSequence lines pat start eof = Some k → pat ≠ [] ∧ start ≤ k ∧ ∃ c, c ∈ passes ∧ matches_at c lines pat k.
Proof.
  unfold seekSequence. destruct pat as [|p pat]; [done|]. intros H. split; [done|].
  apply first_pass_spec in H as (before & c & after & Hp & Hk & _).
  assert (Hc : c ∈ passes) by (rewrite Hp, elem_of_app, elem_of_cons; auto).
  destruct eof; [apply tryMatch_eof in Hk|apply tryMatch_spec in Hk]; naive_solver.
Qed.

Lemma locate_spec lines chunk start r :
  locate lines chunk start = Some r → start ≤ rp_start r ∧ replaces lines chunk r.
Proof.
  unfold locate. destruct (seekSequence lines (old_lines chunk) _ _) as [k|] eqn:E.
  - intros [= <-]. apply first_pass_matches in E as (? & ? & c & ? & ?). split; [done|].
    right. exists c, (old_lines chunk). repeat split; auto.
  - destruct (ends_blank (old_lines chunk)) eqn:Eb; [|done].
    destruct (seekSequence lines (drop_last _) _ _) as [k|] eqn:E'; [|done]. intros [= <-].
    apply first_pass_matches in E' as (? & ? & c & ? & ?). split; [done|].
    right. exists c, (drop_last (old_lines chunk)). repeat split; auto. right.
    split; [by apply ends_blank_snoc|]. simpl. destruct (ends_blank (new_lines chunk)) eqn:En; [|by left].
    right. by apply ends_blank_snoc.
Qed.

Lemma replaces_bounds lines chunk r :
  replaces lines chunk r →
  rp_end r ≤ length lines ∧ (rp_len r = 0 → rp_start r = length lines).
Proof.
  unfold rp_end. intros [(_ & ->)|(c & olds & _ & Hm & Hlen & Hne & _)]; [simpl; lia|].
  apply matches_at_bound in Hm. destruct olds; [done|]. simpl in *. lia.
Qed.

Definition disjoint_reps (r r' : replacement) : Prop := apart r r' ∨ apart r' r.

Lemma ord_pairs_perm {A} (R : A → A → Prop) (l l' : list A) :
  (∀ x y, R x y → R y x) → l ≡ₚ l' → ForallOrdPairs R l → ForallOrdPairs R l'.
Proof.
  intros Hsym Hp. induction Hp as [|x l l' Hp IH|x y l|l l' l'' _ IH1 _ IH2]; intros H; [done|..|auto].
  - inversion H; subst. constructor; [by rewrite <- Hp|auto].
  - inversion H as [|? ? Hy Hl]; subst. inversion Hl; subst. inversion Hy; subst.
    repeat constructor; auto.
Qed.

Lemma seek_context_ge lines file chunk k k' :
  seek_context lines file chunk k = Ret k' → k ≤ k'.
Proof.
  unfold seek_context. destruct (truthy _) as [ctx|]; [|intros [= ->]; lia].
  destruct (seekSequence _ _ _ _) as [i|] eqn:E; [|done]. intros [= <-].
  apply first_pass_matches in E as (_ & ? & _). lia.
Qed.

Lemma chunk_replacements_spec lines file chunks k rs :
  ends_blank lines = false → chunk_replacements lines file chunks k = Ret rs →
  Forall2 (replaces lines) chunks rs ∧ ForallOrdPairs disjoint_reps rs ∧
  Forall (λ r, k ≤ rp_start r ∨ rp_start r = length lines) rs.
Proof.
  intros Hnb. revert k rs. induction chunks as [|chunk chunks IH]; intros k rs H; cbn [chunk_replacements] in H.
  { simplify_eq. repeat constructor. }
  apply bind_Ret in H as (k' & Hk' & H). apply seek_context_ge in Hk'.
  assert (∃ r rs', rs = r :: rs' ∧ replaces lines chunk r ∧ (k ≤ rp_start r ∨ rp_start r = length lines) ∧
    ∃ k2, chunk_replacements lines file chunks k2 = Ret rs' ∧
    (k ≤ k2 ∧ rp_end r ≤ k2 ∨ k ≤ k2 ∧ rp_start r = length lines)) as (r & rs' & -> & Hr & Hk & k2 & E & Hk2).
  { destruct (old_lines chunk) as [|o os] eqn:Eo.
    - apply bind_Ret in H as (rs' & E & H). injection H as <-. rewrite Hnb.
      eexists _, rs'. split; [done|]. split; [by left|]. split; [by right|]. exists k'. split; [done|]. by right.
    - destruct (locate lines chunk k') as [r|] eqn:El; [|done].
      apply bind_Ret in H as (rs' & E & H). injection H as <-. apply locate_spec in El as [? ?].
      eexists r, rs'. split; [done|]. split; [done|]. split; [left; lia|].
      exists (rp_start r + rp_len r). split; [done|]. left. unfold rp_end. lia. }
  apply IH in E as (H2 & Hd & Hb). split; [by constructor|]. split.
  - constructor; [|done]. rewrite Forall_forall in *. intros r' Hr'.
    apply replaces_bounds in Hr as [Hr Hr0].
    assert (rp_end r' ≤ length lines).
    { apply list_elem_of_lookup in Hr' as [i Hi]. eapply Forall2_lookup_r in H2 as (c & _ & Hc); [|exact Hi].
      by apply replaces_bounds in Hc as [? _]. }
    destruct Hk2 as [[_ Hk2]|[_ Hk2]]; [left|right]; unfold apart; [|lia].
    destruct (Hb r' Hr'); lia.
  - constructor; [done|]. eapply Forall_impl; [exact Hb|]. simpl. intros; lia.
Qed.

Lemma sorted_apart (lines : list jsstr) rs :
  Forall (λ r, rp_end r ≤ length lines ∧ (rp_len r = 0 → rp_start r = length lines)) rs →
  ForallOrdPairs disjoint_reps rs → StronglySorted (le_by by_start) rs → StronglySorted apart rs.
Proof.
  intros Hb. induction 1 as [|r rs Hr Hd IH]; intros Hs; inversion Hs; subst; [constructor|].
  apply Forall_cons in Hb as [[Hr1 Hr2] Hb]. constructor; [auto|].
  rewrite Forall_forall in *. intros r' Hr'. destruct (Hb r' Hr') as [Hb1 Hb2].
  match goal with H : ∀ x, x ∈ rs → le_by _ _ _ |- _ => specialize (H r' Hr'); unfold le_by, by_start in H end.
  destruct (Hr r' Hr') as [?|Ha]; [done|]. unfold apart, rp_end in *.
  destruct (decide (rp_len r = 0)); [|lia]. destruct (decide (rp_len r' = 0)); lia.
Qed.

(** C12. Replacing: in a file whose lines do not end with an empty one, the
    replacements that the chunks ask for come one per chunk, each for a block
    that matches its old lines or at the end of the file; in file order they
    do not overlap, and applying them gives the file with every block replaced
    at once and all other lines kept. *)
Theorem patch_replacements (lines : list jsstr) (file : jsstr) (chunks : list UpdateFileChunk)
    (rs : list replacement) :
  ends_blank lines = false → computeReplacements lines file chunks = Ret rs →
  (∃ rs0, rs ≡ₚ rs0 ∧ Forall2 (replaces lines) chunks rs0) ∧
  StronglySorted apart rs ∧ Forall (λ r, rp_end r ≤ length lines) rs ∧
  applyReplacements lines rs = weave 0 lines rs.
Proof.
  intros Hnb H. apply bind_Ret in H as (rs0 & E & H). injection H as <-.
  apply chunk_replacements_spec in E as (H2 & Hd & _); [|done].
  pose proof (sort_by_perm by_start rs0) as Hp.
  assert (Hb0 : Forall (λ r, rp_end r ≤ length lines ∧ (rp_len r = 0 → rp_start r = length lines)) rs0).
  { clear -H2. induction H2; constructor; [by eapply replaces_bounds|done]. }
  assert (Hb := Hb0). rewrite <- Hp in Hb.
  assert (Ha : StronglySorted apart (sort_by by_start rs0)).
  { eapply sorted_apart; [exact Hb| |apply sort_by_sorted; unfold le_by, by_start; intros; lia].
    eapply ord_pairs_perm; [|symmetry; exact Hp|done]. unfold disjoint_reps. tauto. }
  assert (Hend : Forall (λ r, rp_end r ≤ length lines) (sort_by by_start rs0)) by
    (eapply Forall_impl; [exact Hb|]; by intros r [? _]).
  split; [by exists rs0|]. split; [done|]. split; [done|].
  rewrite (applyReplacements_weave lines _ 0); [by rewrite take_0, drop_0|done|].
  eapply Forall_impl; [exact Hend|]. intros r ?. split; [lia|done].
Qed.

Definition demo_lines : list jsstr := map js ["a"; "b "; "c"; "d"]%string.
Definition demo_chunks : list UpdateFileChunk :=
  [Chunk [] [js "end"] None false; Chunk [js "b"; []] [js "B"; []] (Some (js "a")) false].
Lemma patch_replacements_witness :
  let rs := [Rep 1 1 [js "B"]; Rep 4 0 [js "end"]] in
  computeReplacements demo_lines (js "f") demo_chunks = Ret rs ∧ StronglySorted apart rs ∧
  applyReplacements demo_lines rs = map js ["a"; "B"; "c"; "d"; "end"]%string.
Proof.
  intros rs. assert (E : computeReplacements demo_lines (js "f") demo_chunks = Ret rs) by (by vm_compute).
  split; [exact E|].
  destruct (patch_replacements demo_lines (js "f") demo_chunks rs eq_refl E) as (_ & Hs & _ & Ha).
  split; [exact Hs|]. rewrite Ha. by vm_compute.
Defined.

(** When the file ends with a blank line, an addition goes before that line,
    into a block that another chunk may replace: a line of the addition is then
    removed in the block's place. *)
Example addition_into_a_block :
  let lines := [js "x"; []] in
  let chunks := [Chunk [] [js "added"] None false; Chunk [js "x"; []] [js "y"; []] None false] in
  computeReplacements lines (js "f") chunks = Ret [Rep 0 2 [js "y"; []]; Rep 1 0 [js "added"]] ∧
  applyReplacements lines [Rep 0 2 [js "y"; []]; Rep 1 0 [js "added"]] = [js "y"; []; []].
Proof. by vm_compute. Qed.

(** ** Files *)

Section Files.
Context {fs : Type} `{FileSystem fs} (same : jsstr → jsstr → Prop) `{!FileSystemLaws fs same}.

(** A sequence leaves alone what its parts leave alone. *)
Definition leaves {A} (q : jsstr) (m : io fs A) : Prop := ∀ s, readFile q (m s).1 = readFile q s.

Lemma leaves_bind {A B} q (m : io fs A) (f : A → io fs B) :
  leaves q m → (∀ a, leaves q (f a)) → leaves q (m ≫= f).
Proof.
  intros Hm Hf s. unfold mbind, eff_bind. specialize (Hm s).
  destruct (m s) as [s1 [e|a]]; simpl in *; [done|]. by rewrite Hf.
Qed.

Lemma leaves_ret {A} q (a : A) : leaves q (mret a).
Proof. done. Qed.

Lemma leaves_get {A} q (f : fs → result jsstr A) : leaves q (λ s, (s, f s)).
Proof. done. Qed.

Lemma leaves_parent q p : leaves q (make_parent p).
Proof. unfold make_parent. destruct (_ || _); [done|]. intros s. apply mkdir_read. Qed.

Definition hunk_paths (h : Hunk) : list jsstr :=
  match h with
  | HAdd p _ | HDelete p => [p]
  | HUpdate p m _ => p :: match truthy m with Some d => [d] | None => [] end
  end.

Lemma leaves_hunk q h acc : Forall (λ p, ¬ same p q) (hunk_paths h) → leaves q (apply_hunk h acc).
Proof.
  intros Hp. destruct h as [p c|p|p m cs]; cbn [hunk_paths apply_hunk] in *;
    [| |destruct (truthy m) as [d|]]; apply Forall_cons in Hp as [Hp Hp'];
    repeat (apply leaves_bind; [|intros ?]);
    try apply leaves_ret; try apply leaves_get; try apply leaves_parent;
    intros s; try (by apply write_other); try (by apply unlink_other).
  apply write_other. by apply Forall_cons in Hp' as [? _].
Qed.

(** Frame: applying hunks, whether it succeeds or stops at a failing hunk,
    leaves every file alone that no hunk names. *)
Theorem patch_apply_frame (q : jsstr) (hs : list Hunk) (s : fs) :
  Forall (λ h, Forall (λ p, ¬ same p q) (hunk_paths h)) hs →
  readFile q (applyHunksToFiles hs s).1 = readFile q s.
Proof.
  intros Hhs. assert (∀ acc, leaves q (apply_hunks hs acc)) as Hl.
  { induction Hhs as [|h hs Hh Hhs IH]; intros acc; [apply leaves_ret|].
    apply leaves_bind; [by apply leaves_hunk|done]. }
  destruct hs as [|h hs]; [done|]. apply Hl.
Qed.

(** Updating: when an update hunk succeeds, the file it leads to holds the
    new contents computed from the old file; a move to another file removes the
    old one, and a move of a file to itself removes the file, new contents and
    all. *)
Theorem patch_update_outcome (path : jsstr) (move : option jsstr) (chunks : list UpdateFileChunk)
    (acc acc' : AffectedPaths) (s s' : fs) :
  apply_hunk (HUpdate path move chunks) acc s = (s', Ret acc') →
  ∃ u, deriveNewContentsFromChunks path chunks s = Ret u ∧
  match truthy move with
  | None => readFile path s' = Ret (content u)
  | Some dest =>
      (∀ c, readFile path s' ≠ Ret c) ∧
      (¬ same path dest → readFile dest s' = Ret (content u)) ∧
      (same path dest → ∀ c, readFile dest s' ≠ Ret c)
  end.
Proof.
  cbn [apply_hunk]. intros E. apply eff_bind_inv in E as (s1 & u & Hu & E). injection Hu as <- Hu.
  exists u. split; [done|]. destruct (truthy move) as [dest|].
  - apply eff_bind_inv in E as (s2 & [] & _ & E). apply eff_bind_inv in E as (s3 & [] & Hw & E).
    apply eff_bind_inv in E as (s4 & [] & Hx & E). injection E as <- _.
    pose proof (unlink_read (same := same) _ _ _ Hx) as Hgone.
    split; [done|]. split.
    + intros Hne. pose proof (unlink_other path s3 dest Hne) as Ho. rewrite Hx in Ho. simpl in Ho.
      rewrite Ho. by apply (write_read (same := same) _ _ _ _ Hw).
    + intros Hsame c Hc. apply (Hgone c). eapply read_same; [|exact Hc]. by symmetry.
  - apply eff_bind_inv in E as (s2 & [] & Hw & E). injection E as <- _.
    by apply (write_read (same := same) _ _ _ _ Hw).
Qed.
End Files.

(** ** A file system in memory

    Every path names a file of its own in a single directory, so the laws can
    hold. *)

Notation mem_fs := (gmap jsstr jsstr).
#[export] Instance mem_FileSystem : FileSystem mem_fs := {
  readFile p s := match s !! p with Some c => Ret c | None => Throw (js "ENOENT") end;
  writeFile p c s := (<[p := c]> s, Ret tt);
  unlink p s := match s !! p with Some _ => (delete p s, Ret tt) | None => (s, Throw (js "ENOENT")) end;
  mkdir p s := (s, Ret tt);
  dirname p := js ".";
  resolve cwd p := cwd ++ js "/" ++ p
}.

#[export] Instance mem_laws : FileSystemLaws mem_fs eq.
Proof.
  split.
  - apply _.
  - by intros p q s c ->.
  - intros p c s s' [= <-]. simpl. by rewrite lookup_insert_eq.
  - intros p c s q Hne. simpl. by rewrite lookup_insert_ne.
  - intros p s s' E c. simpl in *. destruct (s !! p); [|done]. injection E as <-. by rewrite lookup_delete_eq.
  - intros p s q Hne. simpl. destruct (s !! p); [|done]. simpl. by rewrite lookup_delete_ne.
  - done.
Qed.

Definition demo_fs : mem_fs := <[js "f" := lines_of ["a"; "b"; ""]%string]> (<[js "g" := js "keep"]> ∅).
Definition demo_update : UpdateFileChunk := Chunk [js "b"] [js "c"] None false.
Definition demo_apply : list Hunk := [HAdd (js "n") (js "new"); HUpdate (js "f") None [demo_update]].

Lemma patch_apply_frame_witness :
  readFile (js "g") (applyHunksToFiles demo_apply demo_fs).1 = Ret (js "keep").
Proof.
  rewrite (patch_apply_frame eq (js "g") demo_apply demo_fs).
  - by vm_compute.
  - apply (bool_decide_unpack _). by vm_compute.
Defined.

Lemma patch_update_outcome_witness :
  let s' := (apply_hunk (HUpdate (js "f") (Some (js "f")) [demo_update]) no_paths demo_fs).1 in
  (∀ c, readFile (js "f") s' ≠ Ret c) ∧
  ∃ u, readFile (js "f") (apply_hunk (HUpdate (js "f") None [demo_update]) no_paths demo_fs).1 = Ret (content u)
       ∧ content u = lines_of ["a"; "c"; ""]%string.
Proof.
  intros s'. split.
  - destruct (patch_update_outcome eq (js "f") (Some (js "f")) [demo_update] no_paths
      (Affected [] [js "f"] []) demo_fs s') as (u & _ & H & _); [by vm_compute|exact H].
  - destruct (patch_update_outcome eq (js "f") None [demo_update] no_paths (Affected [] [js "f"] []) demo_fs
      (apply_hunk (HUpdate (js "f") None [demo_update]) no_paths demo_fs).1) as (u & Hu & H); [by vm_compute|].
    exists u. split; [exact H|]. vm_compute in Hu. injection Hu as <-. by vm_compute.
Defined.
