(* ===== verification/EditReplace.v ===== *)
(** The edit tool's replacement ([replace] and the replacers of [tool/edit.ts]).

    A generator is the list of what it yields.  Similarities are exact rational
    numbers; the code adds the same quotients in floating point.  [\s] is
    [is_space], the white space that [trim] removes. *)

From Stdlib Require Import QArith.
From S2P Require Import Prelude JsString Wildcard.
Open Scope nat_scope.

Definition nl : jsstr := [newline].
Definition lines_of (s : jsstr) : list jsstr := split_on newline s.

(** [s.substring(a, b)] for [a <= b]. *)
Definition substring (s : jsstr) (a b : nat) : jsstr := take (b - a) (drop a s).

(** [s.lastIndexOf(needle)]. *)
Fixpoint lastIndexOf (s needle : jsstr) : option nat :=
  match s with
  | [] => if bool_decide (needle = []) then Some 0 else None
  | c :: s' =>
      match lastIndexOf s' needle with
      | Some i => Some (S i)
      | None => if startsWith s needle then Some 0 else None
      end
  end.

(** ** Edit distance *)

(** A row of the matrix from the one above: [above] and [left] are the cells
    over and before the next one, [prev] the rest of the row above. *)
Fixpoint row_cells (ca : N) (left diagonal : nat) (prev : list nat) (b : jsstr) : list nat :=
  match prev, b with
  | above :: prev', cb :: b' =>
      let cost := if (ca =? cb)%N then 0 else 1 in
      let cell := Nat.min (Nat.min (above + 1) (left + 1)) (diagonal + cost) in
      cell :: row_cells ca cell above prev' b'
  | _, _ => []
  end.
Definition next_row (ca : N) (i : nat) (prev : list nat) (b : jsstr) : list nat :=
  match prev with
  | [] => []
  | d :: prev' => i :: row_cells ca i d prev' b
  end.
Fixpoint rows (i : nat) (a : jsstr) (prev : list nat) (b : jsstr) : list nat :=
  match a with
  | [] => prev
  | ca :: a' => rows (S i) a' (next_row ca i prev b) b
  end.
Definition levenshtein (a b : jsstr) : nat :=
  match a, b with
  | [], _ | _, [] => Nat.max (length a) (length b)
  | _, _ => default 0 (last (rows 1 a (seq 0 (S (length b))) b))
  end.

(** ** Blocks of lines *)

(** The last line is dropped when it is empty. *)
Definition pop_empty (ls : list jsstr) : list jsstr :=
  match last ls with Some [] => removelast ls | _ => ls end.

Definition sum_lengths (ls : list jsstr) : nat := foldr (λ l n, length l + n) 0 ls.
(** [matchStartIndex] and [matchEndIndex] of [count] lines from line [i]. *)
Definition match_start (ls : list jsstr) (i : nat) : nat := sum_lengths (take i ls) + i.
Definition match_end (ls : list jsstr) (i count : nat) : nat :=
  match_start ls i + sum_lengths (take count (drop i ls)) + (count - 1).
Definition block_of (content : jsstr) (ls : list jsstr) (i count : nat) : jsstr :=
  substring content (match_start ls i) (match_end ls i count).

(** The starts of the blocks of [n] lines: [i <= ls.length - n]. *)
Definition starts_of (ls : list jsstr) (n : nat) : list nat :=
  if Nat.leb n (length ls) then seq 0 (S (length ls - n)) else [].
Definition slice_lines (ls : list jsstr) (i n : nat) : list jsstr := take n (drop i ls).

(** ** The replacers *)

Definition SimpleReplacer (content find : jsstr) : list jsstr := [find].

Fixpoint same_trimmed (original search : list jsstr) : bool :=
  match search, original with
  | [], _ => true
  | s :: search', o :: original' => bool_decide (trim o = trim s) && same_trimmed original' search'
  | _ :: _, [] => false
  end.
Definition LineTrimmedReplacer (content find : jsstr) : list jsstr :=
  let originalLines := lines_of content in
  let searchLines := pop_empty (lines_of find) in
  flat_map (λ i, if same_trimmed (drop i originalLines) searchLines
                 then [block_of content originalLines i (length searchLines)] else [])
    (starts_of originalLines (length searchLines)).

Definition SINGLE_CANDIDATE_SIMILARITY_THRESHOLD : Q := 0.
Definition MULTIPLE_CANDIDATES_SIMILARITY_THRESHOLD : Q := 3 # 10.

(** The first line from [j] on that equals [t] when trimmed, with its number. *)
Fixpoint find_trimmed (j : nat) (ls : list jsstr) (t : jsstr) : option nat :=
  match ls with
  | [] => None
  | l :: ls' => if bool_decide (trim l = t) then Some j else find_trimmed (S j) ls' t
  end.
Definition anchors (ls : list jsstr) (first lst : jsstr) (i : nat) : list (nat * nat) :=
  match ls !! i with
  | Some l =>
      if bool_decide (trim l = first)
      then match find_trimmed (i + 2) (drop (i + 2) ls) lst with Some j => [(i, j)] | None => [] end
      else []
  | None => []
  end.
Definition candidates (ls : list jsstr) (first lst : jsstr) : list (nat * nat) :=
  flat_map (anchors ls first lst) (seq 0 (length ls)).

(** The similarity of two lines, [None] when both are blank. *)
Definition line_similarity (o s : jsstr) : option Q :=
  let a := trim o in let b := trim s in
  let maxLen := Nat.max (length a) (length b) in
  if Nat.eqb maxLen 0 then None
  else Some (1 - (Z.of_nat (levenshtein a b) # Pos.of_nat maxLen))%Q.

(** The middle lines that are compared. *)
Definition middle (ls search : list jsstr) (start stop : nat) : list (jsstr * jsstr) :=
  zip (slice_lines ls (start + 1) (stop - start - 1)) (slice_lines search 1 (length search - 2)).

Fixpoint single_similarity (n : nat) (ps : list (jsstr * jsstr)) (similarity : Q) : Q :=
  match ps with
  | [] => similarity
  | (o, s) :: ps' =>
      match line_similarity o s with
      | None => single_similarity n ps' similarity
      | Some x =>
          let similarity' := (similarity + x / inject_Z (Z.of_nat n))%Q in
          if Qle_bool SINGLE_CANDIDATE_SIMILARITY_THRESHOLD similarity' then similarity'
          else single_similarity n ps' similarity'
      end
  end.
Definition candidate_single (ls search : list jsstr) (c : nat * nat) : Q :=
  let ps := middle ls search c.1 c.2 in
  if Nat.eqb (length ps) 0 then 1 else single_similarity (length ps) ps 0.
Definition candidate_similarity (ls search : list jsstr) (c : nat * nat) : Q :=
  let ps := middle ls search c.1 c.2 in
  if Nat.eqb (length ps) 0 then 1
  else ((foldl (λ q p, match line_similarity p.1 p.2 with Some x => q + x | None => q end) 0 ps)
        / inject_Z (Z.of_nat (length ps)))%Q.
Definition better (ls search : list jsstr) (best : option (nat * nat) * Q) (c : nat * nat) : option (nat * nat) * Q :=
  let q := candidate_similarity ls search c in
  if Qle_bool q best.2 then best else (Some c, q).

Definition BlockAnchorReplacer (content find : jsstr) : list jsstr :=
  let originalLines := lines_of content in
  if Nat.ltb (length (lines_of find)) 3 then [] else
  let searchLines := pop_empty (lines_of find) in
  let firstLineSearch := trim (default [] (head searchLines)) in
  let lastLineSearch := trim (default [] (last searchLines)) in
  match candidates originalLines firstLineSearch lastLineSearch with
  | [] => []
  | [c] =>
      if Qle_bool SINGLE_CANDIDATE_SIMILARITY_THRESHOLD (candidate_single originalLines searchLines c)
      then [block_of content originalLines c.1 (c.2 - c.1 + 1)] else []
  | cs =>
      let '(bestMatch, maxSimilarity) := foldl (better originalLines searchLines) (None, (- (1))%Q) cs in
      match bestMatch with
      | Some c =>
          if Qle_bool MULTIPLE_CANDIDATES_SIMILARITY_THRESHOLD maxSimilarity
          then [block_of content originalLines c.1 (c.2 - c.1 + 1)] else []
      | None => []
      end
  end.

(** [text.replace(/\s+/g, " ").trim()]. *)
Fixpoint collapse_spaces (inside : bool) (s : jsstr) : jsstr :=
  match s with
  | [] => []
  | c :: s' =>
      if is_space c then (if inside then collapse_spaces true s' else 32%N :: collapse_spaces true s')
      else c :: collapse_spaces false s'
  end.
Definition normalizeWhitespace (text : jsstr) : jsstr := trim (collapse_spaces false text).

(** The regular expression of the words, escaped and joined by [\s+], matched
    at the start of [s]: the length of the match.  White space is matched as
    far as it goes, and no word starts with any. *)
Fixpoint match_words (words : list jsstr) (s : jsstr) : option nat :=
  match words with
  | [] => Some 0
  | [w] => if startsWith s w then Some (length w) else None
  | w :: ws =>
      if startsWith s w then
        let rest := drop (length w) s in
        let gap := length rest - length (skip_spaces rest) in
        if Nat.eqb gap 0 then None
        else (λ n, length w + gap + n) <$> match_words ws (skip_spaces rest)
      else None
  end.
(** [line.match(regex)]: the leftmost match. *)
Fixpoint find_words (words : list jsstr) (s : jsstr) : option jsstr :=
  match match_words words s with
  | Some n => Some (take n s)
  | None => match s with [] => None | _ :: s' => find_words words s' end
  end.

Definition whitespace_line (find line : jsstr) : list jsstr :=
  let normalizedFind := normalizeWhitespace find in
  if bool_decide (normalizeWhitespace line = normalizedFind) then [line]
  else if includes (normalizeWhitespace line) normalizedFind
       then match find_words (split_ws (trim find)) line with Some m => [m] | None => [] end
       else [].
Definition blocks (ls : list jsstr) (n : nat) : list jsstr :=
  map (λ i, join nl (slice_lines ls i n)) (starts_of ls n).
Definition WhitespaceNormalizedReplacer (content find : jsstr) : list jsstr :=
  let ls := lines_of content in
  let findLines := lines_of find in
  flat_map (whitespace_line find) ls ++
  (if Nat.ltb 1 (length findLines)
   then filter (λ b, normalizeWhitespace b = normalizeWhitespace find) (blocks ls (length findLines)) else []).

Definition is_blank (line : jsstr) : bool := bool_decide (trim line = []).
Definition indent (line : jsstr) : nat := length line - length (skip_spaces line).
Definition min_list (ns : list nat) : nat := match ns with [] => 0 | n :: ns' => foldl Nat.min n ns' end.
Definition removeIndentation (text : jsstr) : jsstr :=
  let ls := lines_of text in
  match filter (λ l, is_blank l = false) ls with
  | [] => text
  | nonEmptyLines =>
      let minIndent := min_list (map indent nonEmptyLines) in
      join nl (map (λ l, if is_blank l then l else drop minIndent l) ls)
  end.
Definition IndentationFlexibleReplacer (content find : jsstr) : list jsstr :=
  filter (λ b, removeIndentation b = removeIndentation find) (blocks (lines_of content) (length (lines_of find))).

(** [unescapeString]. *)
Definition unescape_unit (c : N) : option N :=
  if (c =? 110)%N then Some 10%N            (* n *)
  else if (c =? 116)%N then Some 9%N        (* t *)
  else if (c =? 114)%N then Some 13%N       (* r *)
  else if (c =? 39)%N || (c =? 34)%N || (c =? 96)%N || (c =? 92)%N || (c =? 10)%N || (c =? 36)%N then Some c
  else None.
Fixpoint unescapeString (s : jsstr) : jsstr :=
  match s with
  | [] => []
  | c :: s' =>
      if (c =? 92)%N then
        match s' with
        | d :: s'' => match unescape_unit d with Some u => u :: unescapeString s'' | None => c :: unescapeString s' end
        | [] => [c]
        end
      else c :: unescapeString s'
  end.
Definition EscapeNormalizedReplacer (content find : jsstr) : list jsstr :=
  let unescapedFind := unescapeString find in
  (if includes content unescapedFind then [unescapedFind] else []) ++
  filter (λ b, unescapeString b = unescapedFind) (blocks (lines_of content) (length (lines_of unescapedFind))).

(** Every occurrence after the one before; [find] is not empty. *)
Fixpoint occurrences (fuel : nat) (content find : jsstr) : nat :=
  match fuel with
  | O => 0
  | S fuel =>
      match indexOf content find with
      | Some i => S (occurrences fuel (drop (i + length find) content) find)
      | None => 0
      end
  end.
Definition MultiOccurrenceReplacer (content find : jsstr) : list jsstr :=
  replicate (occurrences (S (length content)) content find) find.

Definition TrimmedBoundaryReplacer (content find : jsstr) : list jsstr :=
  let trimmedFind := trim find in
  if bool_decide (trimmedFind = find) then [] else
  (if includes content trimmedFind then [trimmedFind] else []) ++
  filter (λ b, trim b = trimmedFind) (blocks (lines_of content) (length (lines_of find))).

(** The lines between the anchors that are not blank on both sides, and those
    of them that agree. *)
Definition compared (block find : list jsstr) : nat * nat :=
  foldl (λ n p, let a := trim p.1 in let b := trim p.2 in
      if Nat.ltb 0 (length a) || Nat.ltb 0 (length b)
      then (n.1 + (if bool_decide (a = b) then 1 else 0), n.2 + 1) else n)
    (0, 0) (zip (slice_lines block 1 (length block - 2)) (slice_lines find 1 (length block - 2))).
Definition context_block (contentLines findLines : list jsstr) (c : nat * nat) : list jsstr :=
  let block := slice_lines contentLines c.1 (c.2 + 1 - c.1) in
  if Nat.eqb (length block) (length findLines) then
    let '(matchingLines, totalNonEmptyLines) := compared block findLines in
    if Nat.eqb totalNonEmptyLines 0 || Nat.leb totalNonEmptyLines (2 * matchingLines) then [join nl block] else []
  else [].
Definition ContextAwareReplacer (content find : jsstr) : list jsstr :=
  if Nat.ltb (length (lines_of find)) 3 then [] else
  let findLines := pop_empty (lines_of find) in
  let contentLines := lines_of content in
  let firstLine := trim (default [] (head findLines)) in
  let lastLine := trim (default [] (last findLines)) in
  flat_map (context_block contentLines findLines) (candidates contentLines firstLine lastLine).

(** ** Replacing *)

(** The expansion of [$] in a replacement text, without capture groups. *)
Fixpoint expand (before matched after replacement : jsstr) : jsstr :=
  match replacement with
  | [] => []
  | c :: r =>
      if (c =? 36)%N then
        match r with
        | d :: r' =>
            if (d =? 36)%N then 36%N :: expand before matched after r'
            else if (d =? 38)%N then matched ++ expand before matched after r'
            else if (d =? 96)%N then before ++ expand before matched after r'
            else if (d =? 39)%N then after ++ expand before matched after r'
            else c :: expand before matched after r
        | [] => [c]
        end
      else c :: expand before matched after r
  end.

(** [content.replaceAll(search, newString)]: [before] is what has been passed,
    [rest] what is left; an empty search advances by one unit. *)
Fixpoint replaceAll_from (fuel : nat) (before rest search newString : jsstr) : jsstr :=
  match fuel with
  | O => rest
  | S fuel =>
      match indexOf rest search with
      | None => rest
      | Some i =>
          let pre := before ++ take i rest in
          let post := drop (i + length search) rest in
          take i rest ++ expand pre search post newString ++
          match search, post with
          | [], [] => []
          | [], c :: post' => c :: replaceAll_from fuel (pre ++ [c]) post' search newString
          | _, _ => replaceAll_from fuel (pre ++ search) post search newString
          end
      end
  end.
Definition replaceAll_ (content search newString : jsstr) : jsstr :=
  replaceAll_from (S (length content)) [] content search newString.

Definition replacers : list (jsstr → jsstr → list jsstr) :=
  [SimpleReplacer; LineTrimmedReplacer; BlockAnchorReplacer; WhitespaceNormalizedReplacer;
   IndentationFlexibleReplacer; EscapeNormalizedReplacer; TrimmedBoundaryReplacer; ContextAwareReplacer;
   MultiOccurrenceReplacer].

(** The loop over the yielded texts: the result, or whether one was found. *)
Fixpoint try_searches (content newString : jsstr) (all : bool) (searches : list jsstr) (notFound : bool)
    : jsstr + bool :=
  match searches with
  | [] => inr notFound
  | search :: rest =>
      match indexOf content search with
      | None => try_searches content newString all rest notFound
      | Some index =>
          if all then inl (replaceAll_ content search newString)
          else if bool_decide (Some index = lastIndexOf content search)
          then inl (take index content ++ newString ++ drop (index + length search) content)
          else try_searches content newString all rest false
      end
  end.

Definition NO_CHANGES : jsstr := js "No changes to apply: oldString and newString are identical.".
Definition NOT_FOUND : jsstr :=
  js "Could not find oldString in the file. It must match exactly, including whitespace, indentation, and line endings.".
Definition MULTIPLE : jsstr :=
  js "Found multiple matches for oldString. Provide more surrounding context to make the match unique.".

Definition searches (content find : jsstr) : list jsstr := flat_map (λ r, r content find) replacers.

(** [None] when the code does not return: with an empty [oldString] the
    generator of [MultiOccurrenceReplacer] never ends, so the loop over it is
    only left from inside. *)
Definition replace (content oldString newString : jsstr) (all : bool) : option (result jsstr jsstr) :=
  if bool_decide (oldString = newString) then Some (Throw NO_CHANGES) else
  match try_searches content newString all (searches content oldString) true with
  | inl r => Some (Ret r)
  | inr notFound =>
      if bool_decide (oldString = []) then None
      else Some (Throw (if notFound then NOT_FOUND else MULTIPLE))
  end.

Example lev : levenshtein (js "kitten") (js "sitting") = 3.
Proof. by vm_compute. Qed.
Example replace_indent :
  replace (js "if x:" ++ nl ++ js "    y = 1" ++ nl) (js "y = 1 ") (js "y = 2") false =
  Some (Ret (js "if x:" ++ nl ++ js "y = 2" ++ nl)).
Proof. by vm_compute. Qed.
(** In [replaceAll], [$&] in the new text stands for the old one. *)
Example replace_dollar :
  (replace (js "a") (js "a") (js "$&$") false, replace (js "a") (js "a") (js "$&$") true) =
  (Some (Ret (js "$&$")), Some (Ret (js "a$"))).
Proof. by vm_compute. Qed.
(** A blank text to replace everywhere ends up matching between all units. *)
Example replace_blank :
  replace (js "ab" ++ nl ++ nl ++ js "c") (js "  ") (js "X") true =
  Some (Ret (js "XaXbX" ++ nl ++ js "X" ++ nl ++ js "XcX")).
Proof. by vm_compute. Qed.

(** ** Occurrences *)

Lemma lastIndexOf_occurs s needle :
  match lastIndexOf s needle with
  | Some k => k ≤ length s ∧ occurs s needle (take k s) ∧ ∀ pre, occurs s needle pre → length pre ≤ k
  | None => ∀ pre, ¬ occurs s needle pre
  end.
Proof.
  induction s as [|c s IH]; simpl.
  - case_bool_decide as E.
    + subst. split; [done|]. split; [by exists []|]. intros pre Hp. apply occurs_drop in Hp as [? _]. simpl in *. lia.
    + intros pre [post Hp]. symmetry in Hp. apply app_eq_nil in Hp as [_ Hp]. by apply app_eq_nil in Hp as [? _].
  - destruct (lastIndexOf s needle) as [k|].
    + destruct IH as (Hk & Ho & Hm). split; [lia|]. split; [by apply occurs_cons|].
      intros [|d pre] Hp; [simpl; lia|]. assert (d = c) as -> by (destruct Hp as [post Hp]; simpl in Hp; congruence).
      apply occurs_cons, Hm in Hp. simpl. lia.
    + destruct (startsWith (c :: s) needle) eqn:E.
      * unfold startsWith in E. bool_to_prop. split; [lia|]. split; [by apply (drop_occurs _ _ 0); [simpl; lia|]|].
        intros [|d pre] Hp; [done|]. assert (d = c) as -> by (destruct Hp as [post Hp]; simpl in Hp; congruence).
        apply occurs_cons in Hp. by apply IH in Hp.
      * intros [|d pre] Hp.
        { unfold startsWith in E. bool_to_prop. apply E. apply occurs_drop in Hp as [_ Hp]. done. }
        assert (d = c) as -> by (destruct Hp as [post Hp]; simpl in Hp; congruence).
        apply occurs_cons in Hp. by apply IH in Hp.
Qed.

Lemma occurs_take s needle pre : occurs s needle pre → pre = take (length pre) s.
Proof. intros [post ->]. by rewrite take_app_length. Qed.

(** The two indices agree exactly when there is one occurrence. *)
Lemma index_unique s needle k :
  indexOf s needle = Some k → lastIndexOf s needle = Some k ↔ occurs_once s needle.
Proof.
  intros Hk. pose proof (indexOf_occurs _ _ _ Hk) as (Hl & Ho & Hf). pose proof (lastIndexOf_occurs s needle) as Hlast.
  split.
  - intros E. rewrite E in Hlast. destruct Hlast as (_ & _ & Hm). exists (take k s). split; [done|].
    intros pre Hp. rewrite (occurs_take _ _ _ Hp). f_equal. pose proof (Hf _ Hp). pose proof (Hm _ Hp). lia.
  - intros (pre & Hp & Hu). destruct (lastIndexOf s needle) as [m|]; [|by destruct (Hlast pre)].
    destruct Hlast as (Hm & Hom & _). f_equal. apply Hu in Ho, Hom.
    assert (length (take k s) = length (take m s)) by congruence. rewrite !length_take in *. lia.
Qed.

(** ** Which text is replaced *)

Lemma try_searches_single content newString ss notFound :
  match try_searches content newString false ss notFound with
  | inl r => ∃ before s after pre post, ss = before ++ s :: after ∧ content = pre ++ s ++ post ∧
      r = pre ++ newString ++ post ∧ occurs_once content s ∧ Forall (λ s', ¬ occurs_once content s') before
  | inr nf => Forall (λ s, ¬ occurs_once content s) ss ∧
      (nf = true ↔ notFound = true ∧ Forall (λ s, ∀ pre, ¬ occurs content s pre) ss)
  end.
Proof.
  revert notFound. induction ss as [|s ss IH]; intros notFound; simpl; [split; [done|naive_solver]|].
  destruct (indexOf content s) as [k|] eqn:Ek.
  - case_bool_decide as Eu.
    + pose proof (indexOf_occurs _ _ _ Ek) as (Hk & [post Hp] & _).
      exists [], s, ss, (take k content), post. split; [done|]. split; [done|]. split; [|split; [|done]].
      * do 2 f_equal. rewrite Hp, (app_assoc (take k content)).
        apply drop_app_length'. rewrite length_app, length_take. lia.
      * by apply (index_unique _ _ k).
    + assert (Hn : ¬ occurs_once content s) by (intros Ho; apply Eu; symmetry; by apply (index_unique _ _ k)).
      specialize (IH false). destruct (try_searches _ _ _ _ _) as [r|nf].
      * destruct IH as (before & s' & after & pre & post & -> & Hc & Hr & Ho & Hf).
        exists (s :: before), s', after, pre, post. split; [done|]. split; [done|]. split; [done|]. split; [done|]. by constructor.
      * destruct IH as [Hf Hnf]. split; [by constructor|]. rewrite Hnf, Forall_cons. split; [by intros [? _]|].
        intros (_ & Hno & _). pose proof (indexOf_occurs _ _ _ Ek) as (_ & Ho & _). by apply Hno in Ho.
  - assert (Hno : ∀ pre, ¬ occurs content s pre) by (intros pre; by apply indexOf_none).
    assert (Hn : ¬ occurs_once content s) by (intros (pre & Hp & _); by apply Hno in Hp).
    specialize (IH notFound). destruct (try_searches _ _ _ _ _) as [r|nf].
    + destruct IH as (before & s' & after & pre & post & -> & Hc & Hr & Ho & Hf).
      exists (s :: before), s', after, pre, post. split; [done|]. split; [done|]. split; [done|]. split; [done|]. by constructor.
    + destruct IH as [Hf Hnf]. split; [by constructor|]. rewrite Hnf, Forall_cons. naive_solver.
Qed.

Lemma occurs_once_nil : occurs_once [] [].
Proof. exists []. split; [by exists []|]. intros pre [post E]. by destruct pre. Qed.

(** A single replacement: the result replaces the first yielded text that
    occurs exactly once, at its only place, and nothing else; it is an error
    that no yielded text occurs, or that none occurs exactly once; a unique
    [oldString] is replaced itself.  It always returns, but for an empty
    [oldString] and a content that is not empty. *)
Theorem edit_replace_single (content oldString newString : jsstr) :
  match replace content oldString newString false with
  | None => oldString = [] ∧ newString ≠ [] ∧ content ≠ []
  | Some (Ret r) => oldString ≠ newString ∧ ∃ before s after pre post, searches content oldString = before ++ s :: after ∧
      content = pre ++ s ++ post ∧ r = pre ++ newString ++ post ∧ occurs_once content s ∧
      Forall (λ s', ¬ occurs_once content s') before ∧ (occurs_once content oldString → s = oldString)
  | Some (Throw e) =>
      (e = NO_CHANGES ∧ oldString = newString) ∨
      (oldString ≠ [] ∧ Forall (λ s, ¬ occurs_once content s) (searches content oldString) ∧
       ((e = NOT_FOUND ∧ Forall (λ s, ∀ pre, ¬ occurs content s pre) (searches content oldString)) ∨
        (e = MULTIPLE ∧ ¬ Forall (λ s, ∀ pre, ¬ occurs content s pre) (searches content oldString))))
  end.
Proof.
  unfold replace. case_bool_decide as Eq; [by left|].
  pose proof (try_searches_single content newString (searches content oldString) true) as H.
  destruct (try_searches _ _ _ _ _) as [r|nf].
  - split; [done|]. destruct H as (before & s & after & pre & post & Hs & Hc & Hr & Ho & Hf).
    exists before, s, after, pre, post. split; [done|]. split; [done|]. split; [done|]. split; [done|]. split; [done|].
    intros Hone. destruct before as [|b before]; [simpl in Hs; by injection Hs as <- _|].
    injection Hs as <- _. apply Forall_cons in Hf as [Hf _]. done.
  - destruct H as [Hf Hnf]. case_bool_decide as Ee.
    + subst oldString. split; [done|]. split; [done|]. intros ->. apply Forall_cons in Hf as [Hf _]. apply Hf, occurs_once_nil.
    + right. split; [done|]. split; [done|]. destruct nf; [left|right]; (split; [done|]).
      * by apply Hnf.
      * intros Hno. assert (false = true) by by apply Hnf. done.
Qed.

(** ** Edit distance *)

(** [n] units kept for nothing, or replaced, deleted or inserted for one each. *)
Inductive edits : jsstr → jsstr → nat → Prop :=
| edits_nil : edits [] [] 0
| edits_keep a b c n : edits a b n → edits (a ++ [c]) (b ++ [c]) n
| edits_replace a b c d n : edits a b n → edits (a ++ [c]) (b ++ [d]) (S n)
| edits_delete a b c n : edits a b n → edits (a ++ [c]) b (S n)
| edits_insert a b c n : edits a b n → edits a (b ++ [c]) (S n).

Definition is_distance (a b : jsstr) (n : nat) : Prop := edits a b n ∧ ∀ m, edits a b m → n ≤ m.

Lemma snoc_inv (a b : jsstr) x y : a ++ [x] = b ++ [y] → a = b ∧ x = y.
Proof. apply app_inj_tail. Qed.
Lemma snoc_nil (a : jsstr) x : a ++ [x] ≠ [].
Proof. by destruct a. Qed.

Lemma edits_inv a x b y m :
  edits (a ++ [x]) (b ++ [y]) m →
  (x = y ∧ edits a b m) ∨ ∃ n, m = S n ∧ (edits a b n ∨ edits a (b ++ [y]) n ∨ edits (a ++ [x]) b n).
Proof.
  intros H. remember (a ++ [x]) as s eqn:Es. remember (b ++ [y]) as t eqn:Et. destruct H as [|a' b' c n|a' b' c d n|a' b' c n|a' b' c n].
  - by destruct (snoc_nil _ _ (eq_sym Es)).
  - apply snoc_inv in Es as [-> ->], Et as [-> ->]. by left.
  - apply snoc_inv in Es as [-> ->], Et as [-> ->]. right. eauto.
  - apply snoc_inv in Es as [-> ->]. subst. right. eauto.
  - apply snoc_inv in Et as [-> ->]. subst. right. eauto 6.
Qed.

Lemma edits_lengths a b n : edits a b n → length a ≤ length b + n ∧ length b ≤ length a + n.
Proof. induction 1; rewrite ?length_app; simpl in *; lia. Qed.

Lemma edits_delete_all a : edits a [] (length a).
Proof. induction a as [|x a IH] using rev_ind; [constructor|]. rewrite length_app, Nat.add_comm. by constructor. Qed.
Lemma edits_insert_all b : edits [] b (length b).
Proof. induction b as [|x b IH] using rev_ind; [constructor|]. rewrite length_app, Nat.add_comm. by constructor. Qed.

Lemma distance_nil_r a : is_distance a [] (length a).
Proof. split; [apply edits_delete_all|]. intros m H%edits_lengths. simpl in H. lia. Qed.
Lemma distance_nil_l b : is_distance [] b (length b).
Proof. split; [apply edits_insert_all|]. intros m H%edits_lengths. simpl in H. lia. Qed.

Lemma distance_step a b x y above left diagonal :
  is_distance a (b ++ [y]) above → is_distance (a ++ [x]) b left → is_distance a b diagonal →
  is_distance (a ++ [x]) (b ++ [y])
    (Nat.min (Nat.min (above + 1) (left + 1)) (diagonal + if (x =? y)%N then 0 else 1)).
Proof.
  intros [E1 M1] [E2 M2] [E3 M3]. split.
  - destruct (Nat.min_spec (Nat.min (above + 1) (left + 1)) (diagonal + if (x =? y)%N then 0 else 1)) as [[_ ->]|[_ ->]].
    + destruct (Nat.min_spec (above + 1) (left + 1)) as [[_ ->]|[_ ->]]; rewrite Nat.add_1_r; by constructor.
    + destruct (N.eqb_spec x y) as [->|]; [rewrite Nat.add_0_r|rewrite Nat.add_1_r]; by constructor.
  - intros m [[-> H]|(n & -> & [H|[H|H]])]%edits_inv.
    + rewrite N.eqb_refl. apply M3 in H. lia.
    + apply M3 in H. destruct (x =? y)%N; lia.
    + apply M1 in H. lia.
    + apply M2 in H. lia.
Qed.

(** The cells of a row after the first: the distances of [a] to the prefixes
    [bp ++ take (S j) b]. *)
Definition row_ok (a bp b : jsstr) (row : list nat) : Prop :=
  length row = length b ∧ ∀ j d, row !! j = Some d → is_distance a (bp ++ take (S j) b) d.

Lemma row_cells_ok a ca bp b prev left diagonal :
  row_ok a bp b prev → is_distance (a ++ [ca]) bp left → is_distance a bp diagonal →
  row_ok (a ++ [ca]) bp b (row_cells ca left diagonal prev b).
Proof.
  revert bp prev left diagonal. induction b as [|cb b IH]; intros bp prev left diagonal [Hl Hr] H1 H2;
    destruct prev as [|above prev]; try done; simpl in Hl.
  assert (Ha : is_distance a (bp ++ [cb]) above) by apply (Hr 0 above eq_refl).
  pose proof (distance_step a bp ca cb above left diagonal Ha H1 H2) as Hc.
  destruct (IH (bp ++ [cb]) prev (Nat.min (Nat.min (above + 1) (left + 1)) (diagonal + if (ca =? cb)%N then 0 else 1)) above)
    as [IHl IHr]; [|done|done|].
  { split; [lia|]. intros j d Hd. specialize (Hr (S j) d Hd). by rewrite <- app_assoc. }
  simpl. split; [simpl; lia|]. intros [|j] d Hd; simpl in *.
  - injection Hd as <-. exact Hc.
  - apply IHr in Hd. by rewrite <- app_assoc in Hd.
Qed.

(** The whole row: first the distance to the empty prefix. *)
Definition full_row (a b : jsstr) (row : list nat) : Prop :=
  ∃ d rest, row = d :: rest ∧ is_distance a [] d ∧ row_ok a [] b rest.

Lemma rows_ok a0 a b prev :
  full_row a0 b prev → full_row (a0 ++ a) b (rows (S (length a0)) a prev b).
Proof.
  revert a0 prev. induction a as [|ca a IH]; intros a0 prev H; simpl; [by rewrite app_nil_r|].
  replace (a0 ++ ca :: a) with ((a0 ++ [ca]) ++ a) by (by rewrite <- app_assoc).
  replace (S (S (length a0))) with (S (length (a0 ++ [ca]))) by (rewrite length_app; simpl; lia).
  apply IH. destruct H as (d & rest & -> & Hd & Hr). unfold next_row.
  assert (Hnil : is_distance (a0 ++ [ca]) [] (S (length a0))).
  { replace (S (length a0)) with (length (a0 ++ [ca])) by (rewrite length_app; simpl; lia). apply distance_nil_r. }
  eexists _, _. split; [done|]. split; [done|]. by apply row_cells_ok.
Qed.

Lemma first_row b : full_row [] b (seq 0 (S (length b))).
Proof.
  exists 0, (seq 1 (length b)). split; [done|]. split; [apply (distance_nil_l [])|]. split; [apply length_seq|].
  intros j d [-> Hj]%lookup_seq. replace (1 + j) with (length (take (S j) b)) by (rewrite length_take; lia).
  apply distance_nil_l.
Qed.

Lemma levenshtein_correct (a b : jsstr) : is_distance a b (levenshtein a b).
Proof.
  destruct a as [|x a]; [apply distance_nil_l|]. destruct b as [|y b].
  { change (levenshtein (x :: a) []) with (Nat.max (length (x :: a)) 0). rewrite Nat.max_0_r. apply distance_nil_r. }
  pose proof (rows_ok [] (x :: a) (y :: b) _ (first_row (y :: b))) as (d & rest & E & _ & Hl & Hr).
  assert (Hlev : levenshtein (x :: a) (y :: b) = default 0 (last (d :: rest))) by by rewrite <- E.
  rewrite Hlev, last_lookup. cbn [length pred]. rewrite Hl. cbn [length lookup list_lookup].
  destruct (rest !! length b) as [z|] eqn:Ez; [|apply lookup_ge_None in Ez; simpl in Hl; lia].
  apply Hr in Ez. simpl in Ez. by rewrite take_ge in Ez by lia.
Qed.

Lemma edits_sym a b n : edits a b n → edits b a n.
Proof. induction 1; by constructor. Qed.

Lemma edits_zero a b : edits a b 0 → a = b.
Proof. remember 0 as n eqn:En. induction 1; try done. by rewrite IHedits. Qed.
Lemma edits_refl a : edits a a 0.
Proof. induction a using rev_ind; by constructor. Qed.

Lemma edits_max a b : ∃ n, edits a b n ∧ n ≤ Nat.max (length a) (length b).
Proof.
  revert b. induction a as [|x a IH] using rev_ind; intros b; [exists (length b); split; [apply edits_insert_all|lia]|].
  destruct b as [|y b _] using rev_ind.
  - exists (length (a ++ [x])). split; [apply edits_delete_all|lia].
  - destruct (IH b) as (n & Hn & Hl). exists (S n). split; [by constructor|]. rewrite !length_app. simpl. lia.
Qed.

Lemma levenshtein_max a b : levenshtein a b ≤ Nat.max (length a) (length b).
Proof.
  destruct (edits_max a b) as (n & Hn & Hl). destruct (levenshtein_correct a b) as [_ Hm]. apply Hm in Hn. lia.
Qed.

(** The matrix of [levenshtein] computes the edit distance: so many single
    insertions, deletions and replacements turn one text into the other, and no
    fewer do.  It is symmetric, zero for equal texts only, and at most the
    longer length. *)
Theorem levenshtein_distance (a b : jsstr) :
  is_distance a b (levenshtein a b) ∧ levenshtein b a = levenshtein a b ∧ (levenshtein a b = 0 ↔ a = b) ∧
  levenshtein a b ≤ Nat.max (length a) (length b).
Proof.
  destruct (levenshtein_correct a b) as [E1 M1], (levenshtein_correct b a) as [E2 M2].
  split; [by split|]. split; [apply edits_sym in E1, E2; apply M1 in E2; apply M2 in E1; lia|].
  split; [|apply levenshtein_max]. split.
  - intros E. rewrite E in E1. by apply edits_zero.
  - intros ->. pose proof (M1 0 (edits_refl b)). lia.
Qed.

(** ** Blocks of lines are substrings *)

Lemma length_join ls : length (join nl ls) = sum_lengths ls + (length ls - 1).
Proof.
  induction ls as [|l ls IH]; [done|]. destruct ls as [|l' ls]; [simpl; lia|].
  change (join nl (l :: l' :: ls)) with (l ++ nl ++ join nl (l' :: ls)). rewrite !length_app, IH. simpl. lia.
Qed.

Lemma join_app l1 l2 : l1 ≠ [] → l2 ≠ [] → join nl (l1 ++ l2) = join nl l1 ++ nl ++ join nl l2.
Proof.
  intros H1 H2. induction l1 as [|l l1 IH]; [done|]. destruct l1 as [|l' l1].
  - destruct l2; [done|]. done.
  - simpl app in *. change (join nl (l :: l' :: l1 ++ l2)) with (l ++ nl ++ join nl (l' :: l1 ++ l2)).
    rewrite IH by done. change (join nl (l :: l' :: l1)) with (l ++ nl ++ join nl (l' :: l1)). by rewrite <- !app_assoc.
Qed.

Lemma join_middle l1 l2 l3 :
  l2 ≠ [] → ∃ p q, join nl (l1 ++ l2 ++ l3) = p ++ join nl l2 ++ q ∧ length p = sum_lengths l1 + length l1.
Proof.
  intros H2.
  assert (H23 : ∃ q, join nl (l2 ++ l3) = join nl l2 ++ q).
  { destruct l3 as [|l l3]; [exists []; by rewrite !app_nil_r|]. rewrite join_app by done. eauto. }
  destruct H23 as [q Hq]. destruct l1 as [|l l1]; [exists [], q; done|].
  exists (join nl (l :: l1) ++ nl), q. split.
  - rewrite join_app by (by destruct l2). by rewrite Hq, <- !app_assoc.
  - rewrite length_app, length_join. simpl. lia.
Qed.

Lemma block_join content i n :
  1 ≤ n → i + n ≤ length (lines_of content) →
  block_of content (lines_of content) i n = join nl (slice_lines (lines_of content) i n) ∧
  ∃ pre, occurs content (join nl (slice_lines (lines_of content) i n)) pre.
Proof.
  intros Hn Hi. set (ls := lines_of content) in *.
  assert (Hls : ls = take i ls ++ slice_lines ls i n ++ drop n (drop i ls)).
  { unfold slice_lines. by rewrite !take_drop. }
  assert (Hne : slice_lines ls i n ≠ []).
  { intros E. apply (f_equal length) in E. unfold slice_lines in E. rewrite length_take, length_drop in E. simpl in E. lia. }
  destruct (join_middle (take i ls) (slice_lines ls i n) (drop n (drop i ls)) Hne) as (p & q & Hj & Hp).
  rewrite <- Hls in Hj. unfold ls in Hj at 1. unfold lines_of in Hj at 1. unfold nl in Hj at 1. rewrite join_split in Hj.
  rewrite length_take, Nat.min_l in Hp by lia. split; [|by exists p, q].
  unfold block_of, substring, match_end, match_start. rewrite Hj. rewrite drop_app_length' by lia.
  apply take_app_length'. rewrite length_join. unfold slice_lines. rewrite length_take, length_drop. lia.
Qed.

Lemma elem_starts ls n i : i ∈ starts_of ls n ↔ i + n ≤ length ls.
Proof.
  unfold starts_of. destruct (Nat.leb_spec n (length ls)).
  - rewrite elem_of_seq. lia.
  - split; [by intros ?%not_elem_of_nil|lia].
Qed.

Lemma same_trimmed_spec original search :
  same_trimmed original search = true ↔
  length search ≤ length original ∧ map trim (take (length search) original) = map trim search.
Proof.
  revert original. induction search as [|s search IH]; intros original; simpl.
  - destruct original; simpl; (split; [split; [lia|done]|done]).
  - destruct original as [|o original]; simpl; [split; [done|lia]|]. rewrite andb_true_iff, bool_decide_eq_true, IH.
    split; [intros [-> [? ->]]; split; [lia|done]|]. intros [? [= -> ->]]. split; [done|]. split; [lia|done].
Qed.

(** The line-trimmed replacer yields exactly the runs of lines of the
    content that equal the searched lines when every line is trimmed; each is
    part of the content. *)
Theorem line_trimmed_blocks (content find b : jsstr) :
  let search := pop_empty (lines_of find) in
  search ≠ [] →
  (b ∈ LineTrimmedReplacer content find ↔
   ∃ i, i + length search ≤ length (lines_of content) ∧
     b = join nl (slice_lines (lines_of content) i (length search)) ∧
     map trim (slice_lines (lines_of content) i (length search)) = map trim search) ∧
  (b ∈ LineTrimmedReplacer content find → ∃ pre, occurs content b pre).
Proof.
  intros search Hne. assert (Hn : 1 ≤ length search) by (destruct search; [done|simpl; lia]).
  assert (Hiff : b ∈ LineTrimmedReplacer content find ↔
    ∃ i, i + length search ≤ length (lines_of content) ∧
     b = join nl (slice_lines (lines_of content) i (length search)) ∧
     map trim (slice_lines (lines_of content) i (length search)) = map trim search).
  { unfold LineTrimmedReplacer. cbv zeta. fold search. rewrite elem_of_flat_map. split.
    - intros (i & Hi%elem_starts & Hb). destruct (same_trimmed _ search) eqn:Es; [|no_member].
      apply list_elem_of_singleton in Hb as ->. apply same_trimmed_spec in Es as [_ Es].
      exists i. split; [done|]. split; [by apply block_join|done].
    - intros (i & Hi & -> & Ht). exists i. split; [by apply elem_starts|].
      assert (Hs : same_trimmed (drop i (lines_of content)) search = true).
      { apply same_trimmed_spec. rewrite length_drop. split; [lia|done]. }
      rewrite Hs. apply list_elem_of_singleton. symmetry. by apply block_join. }
  split; [done|]. intros (i & Hi & -> & _)%Hiff. by apply block_join.
Qed.

(** ** A single pair of anchors *)

Lemma line_similarity_pos o s x : line_similarity o s = Some x → (0 <= x)%Q.
Proof.
  unfold line_similarity. cbv zeta. destruct (Nat.eqb_spec (Nat.max (length (trim o)) (length (trim s))) 0) as [E|E]; [done|].
  intros [= <-]. pose proof (levenshtein_max (trim o) (trim s)) as Hl.
  set (m := Nat.max _ _) in *. set (l := levenshtein _ _) in *. clearbody m l.
  assert (Hq : (Z.of_nat l # Pos.of_nat m <= 1)%Q).
  { unfold Qle. cbn [Qnum Qden]. rewrite Z.mul_1_r, Z.mul_1_l, <- positive_nat_Z, Nat2Pos.id by done. lia. }
  unfold Qminus. by apply Qle_minus_iff in Hq.
Qed.

Lemma single_similarity_pos n ps q : (0 <= q)%Q → (0 <= single_similarity n ps q)%Q.
Proof.
  revert q. induction ps as [|[o s] ps IH]; intros q Hq; simpl; [done|].
  destruct (line_similarity o s) as [x|] eqn:Ex; [|by apply IH].
  destruct (Qle_bool _ _) eqn:E; [by apply Qle_bool_iff in E|]. apply IH.
  apply (Qplus_le_compat 0 q 0); [done|]. unfold Qdiv. apply Qmult_le_0_compat; [by eapply line_similarity_pos|].
  apply Qinv_le_0_compat. unfold Qle. simpl. lia.
Qed.

Lemma find_trimmed_spec j ls t k :
  find_trimmed j ls t = Some k → j ≤ k < j + length ls ∧ option_map trim (ls !! (k - j)) = Some t.
Proof.
  revert j. induction ls as [|l ls IH]; intros j; simpl; [done|]. case_bool_decide as E.
  - intros [= ->]. split; [lia|]. by rewrite Nat.sub_diag, <- E.
  - intros H%IH. split; [lia|]. replace (k - j) with (S (k - S j)) by lia. apply H.
Qed.

Lemma candidates_spec ls first lst c :
  c ∈ candidates ls first lst →
  c.1 + 2 ≤ c.2 < length ls ∧ option_map trim (ls !! c.1) = Some first ∧ option_map trim (ls !! c.2) = Some lst.
Proof.
  unfold candidates. rewrite elem_of_flat_map. intros (i & _ & H). unfold anchors in H.
  destruct (ls !! i) as [l|] eqn:El; [|no_member]. case_bool_decide as Ef; [|no_member].
  destruct (find_trimmed _ _ _) as [j|] eqn:Ej; [|no_member]. apply list_elem_of_singleton in H as ->.
  apply find_trimmed_spec in Ej as [Hj Hl]. rewrite length_drop in Hj. rewrite lookup_drop in Hl. simpl.
  split; [lia|]. split; [by rewrite El, <- Ef|]. by replace (i + 2 + (j - (i + 2))) with j in Hl by lia.
Qed.

(** Anchors: when the content has one block that starts and ends like the
    searched text, that block is yielded whatever is between: the similarity
    that a single candidate needs is zero. *)
Theorem block_anchor_single (content find : jsstr) (c : nat * nat) :
  let ls := lines_of content in
  let search := pop_empty (lines_of find) in
  3 ≤ length (lines_of find) →
  candidates ls (trim (default [] (head search))) (trim (default [] (last search))) = [c] →
  c.1 + 2 ≤ c.2 < length ls ∧
  BlockAnchorReplacer content find = [join nl (slice_lines ls c.1 (c.2 - c.1 + 1))] ∧
  option_map trim (ls !! c.1) = Some (trim (default [] (head search))) ∧
  option_map trim (ls !! c.2) = Some (trim (default [] (last search))).
Proof.
  intros ls search H3 Hc.
  destruct (candidates_spec ls (trim (default [] (head search))) (trim (default [] (last search))) c) as (Hb & Hf & Hl);
    [rewrite Hc; left|]. split; [done|]. split; [|done].
  unfold BlockAnchorReplacer. cbv zeta. fold search. rewrite (proj2 (Nat.ltb_ge _ _) H3). fold ls. rewrite Hc.
  assert (Hq : Qle_bool SINGLE_CANDIDATE_SIMILARITY_THRESHOLD (candidate_single ls search c) = true).
  { apply Qle_bool_iff. unfold candidate_single. cbv zeta. destruct (Nat.eqb _ _); [done|]. by apply single_similarity_pos. }
  rewrite Hq. f_equal. apply block_join; fold ls; lia.
Qed.

(** ** Replacing all *)

Definition plain_text (s : jsstr) : Prop := 36%N ∉ s.

Lemma expand_plain before matched after s : plain_text s → expand before matched after s = s.
Proof.
  unfold plain_text. induction s as [|c s IH]; simpl; [done|]. intros [Hc Hs]%not_elem_of_cons.
  destruct (N.eqb_spec c 36) as [->|]; [done|]. by rewrite IH.
Qed.

(** No occurrence of [s] in any piece. *)
Definition free_of (s : jsstr) (pieces : list jsstr) : Prop := Forall (λ p, ∀ pre, ¬ occurs p s pre) pieces.

Lemma replaceAll_pieces fuel before rest s newString :
  s ≠ [] → plain_text newString → length rest < fuel →
  ∃ pieces, pieces ≠ [] ∧ rest = join s pieces ∧ replaceAll_from fuel before rest s newString = join newString pieces ∧
    free_of s pieces.
Proof.
  intros Hs Hp. revert before rest. induction fuel as [|fuel IH]; intros before rest Hf; [lia|]. simpl.
  destruct (indexOf rest s) as [i|] eqn:Ei.
  - pose proof (indexOf_occurs _ _ _ Ei) as (Hi & [post Ho] & Hfirst). rewrite expand_plain by done.
    assert (Hpost : drop (i + length s) rest = post).
    { rewrite Ho, (app_assoc (take i rest)). apply drop_app_length'. rewrite length_app, length_take. lia. }
    rewrite Hpost. destruct s as [|c s]; [done|].
    destruct (IH ((before ++ take i rest) ++ c :: s) post) as (pieces & Hne & Hj & Hr & Hfree).
    { apply (f_equal length) in Ho. rewrite !length_app, length_take in Ho. simpl in Ho. lia. }
    exists (take i rest :: pieces). split; [done|]. split; [|split].
    + destruct pieces; [done|]. rewrite Ho at 1. by rewrite Hj.
    + rewrite Hr. by destruct pieces.
    + constructor; [|done]. intros pre [q Hq].
      assert (Hpre : occurs rest (c :: s) pre).
      { exists (q ++ drop i rest). rewrite <- (take_drop i rest) at 1. by rewrite Hq, <- !app_assoc. }
      apply Hfirst in Hpre. apply (f_equal length) in Hq. rewrite !length_app, length_take in Hq. simpl in Hq. lia.
  - exists [rest]. split; [done|]. split; [done|]. split; [done|]. constructor; [|constructor].
    intros pre. by apply indexOf_none.
Qed.

Definition absent (content s : jsstr) : Prop := ∀ pre, ¬ occurs content s pre.

Lemma try_searches_all content newString ss notFound :
  match try_searches content newString true ss notFound with
  | inl r => ∃ before s after, ss = before ++ s :: after ∧ ¬ absent content s ∧
      r = replaceAll_ content s newString ∧ Forall (absent content) before
  | inr nf => nf = notFound ∧ Forall (absent content) ss
  end.
Proof.
  induction ss as [|s ss IH]; simpl; [done|]. destruct (indexOf content s) as [k|] eqn:Ek.
  - exists [], s, ss. split; [done|]. split; [|done]. intros Ha. apply indexOf_occurs in Ek as (_ & Ho & _). by apply Ha in Ho.
  - assert (Ha : absent content s) by (intros pre; by apply indexOf_none).
    destruct (try_searches _ _ _ _ _) as [r|nf].
    + destruct IH as (before & s' & after & -> & Ho & Hr & Hf). exists (s :: before), s', after.
      split; [done|]. split; [done|]. split; [done|]. by constructor.
    + destruct IH as [? ?]. split; [done|]. by constructor.
Qed.

(** Replacing all: the first yielded text that occurs is replaced at every
    place, so that the result is the content with the new text between the
    pieces, when that text is not empty and the new one has no dollar sign; it
    is an error exactly that no yielded text occurs.  It always returns. *)
Theorem edit_replace_all (content oldString newString : jsstr) :
  match replace content oldString newString true with
  | None => False
  | Some (Ret r) => oldString ≠ newString ∧ ∃ before s after, searches content oldString = before ++ s :: after ∧
      ¬ absent content s ∧ Forall (absent content) before ∧
      (s ≠ [] → plain_text newString →
       ∃ pieces, content = join s pieces ∧ r = join newString pieces ∧ free_of s pieces)
  | Some (Throw e) =>
      (e = NO_CHANGES ∧ oldString = newString) ∨
      (e = NOT_FOUND ∧ Forall (absent content) (searches content oldString))
  end.
Proof.
  unfold replace. case_bool_decide as Eq; [by left|].
  pose proof (try_searches_all content newString (searches content oldString) true) as H.
  destruct (try_searches _ _ _ _ _) as [r|nf].
  - split; [done|]. destruct H as (before & s & after & Hs & Ho & -> & Hf). exists before, s, after.
    split; [done|]. split; [done|]. split; [done|]. intros Hne Hp.
    destruct (replaceAll_pieces (S (length content)) [] content s newString Hne Hp) as (pieces & _ & Hj & Hr & Hfree); [lia|].
    exists pieces. split; [done|]. split; [done|]. done.
  - destruct H as [-> Hf]. case_bool_decide as Ee; [|by right].
    subst oldString. apply Forall_cons in Hf as [Hf _]. apply (Hf []). by exists content.
Qed.

(** ** Witnesses *)

Definition demo_text : jsstr := js "f() {" ++ nl ++ js "  x" ++ nl ++ js "}".

Lemma line_trimmed_blocks_witness :
  pop_empty (lines_of (js "x ")) ≠ [] ∧ js "  x" ∈ LineTrimmedReplacer demo_text (js "x ").
Proof.
  assert (Hne : pop_empty (lines_of (js "x ")) ≠ []) by (by vm_compute). split; [exact Hne|].
  apply (line_trimmed_blocks demo_text (js "x ") (js "  x") Hne). exists 1. split; [vm_compute; lia|].
  split; by vm_compute.
Defined.

Lemma block_anchor_single_witness :
  BlockAnchorReplacer demo_text (js "f() {" ++ nl ++ js "anything" ++ nl ++ js "}") = [demo_text].
Proof.
  pose proof (block_anchor_single demo_text (js "f() {" ++ nl ++ js "anything" ++ nl ++ js "}") (0, 2)) as H.
  destruct H as (_ & H & _); [vm_compute; lia|by vm_compute|]. rewrite H. by vm_compute.
Defined.
