(* ===== verification/RotationState.v ===== *)
(** The shared state of account rotation: [account/rotation/types.ts] and
    [account/rotation/state.ts].

    Milliseconds since the epoch are [Z]; code that reads the clock takes the
    time as an argument, one for every reading.  A file is absent, unreadable
    (or not valid JSON), or holds the data that [JSON.stringify] wrote, which
    [JSON.parse] gives back.  Objects used as maps are [gmap]s: nothing depends
    on the order of their keys. *)

From S2P Require Import Prelude JsString.

(** ** Quota days *)

Definition ms_per_day : Z := 86400000.
Definition resetHourUTC : Z := 8.

(** [date.setUTCHours(8, 0, 0, 0)]: the same UTC day at eight. *)
Definition setUTCHours (now : Z) : Z := (now / ms_per_day) * ms_per_day + resetHourUTC * 3600000.

Definition getNextQuotaReset (now : Z) : Z :=
  let nextReset := setUTCHours now in
  if (nextReset <=? now)%Z then (nextReset + ms_per_day)%Z else nextReset.

Definition getQuotaDayStart (now : Z) : Z :=
  let todayReset := setUTCHours now in
  if (now <? todayReset)%Z then (todayReset - ms_per_day)%Z else todayReset.

(** ** The state *)

Inductive RateLimitReason :=
| QUOTA_EXHAUSTED | RATE_LIMIT_EXCEEDED | RATE_LIMIT_SHORT | RATE_LIMIT_LONG
| SERVICE_UNAVAILABLE_503 | SITE_OVERLOADED_529 | MODEL_CAPACITY_EXHAUSTED
| SERVER_ERROR | AUTH_FAILED | TOKEN_REFRESH_FAILED | BAD_REQUEST | UNKNOWN
| HTTP (status : Z).
#[export] Instance RateLimitReason_eq_dec : EqDecision RateLimitReason.
Proof. solve_decision. Defined.

Record HealthScoreState := HealthScore {
  score : Z; lastUpdated : Z; lastSuccess : Z; consecutiveFailures : Z }.

Record RateLimitState := RateLimit { resetTime : Z; reason : RateLimitReason; model : option jsstr }.

Record SameProviderRotationCooldownState := Cooldown {
  until : Z; rotatedAt : Z; fromAccountId : jsstr; toAccountId : jsstr; modelID : jsstr }.

Record daily_count := DailyCount { count : Z; lastReset : Z }.

Notation rate_limits := (gmap jsstr (gmap jsstr RateLimitState)).
Notation health_map := (gmap jsstr HealthScoreState).

Record UnifiedRotationState := Unified {
  version : Z;
  accountHealth : health_map;
  rateLimits : rate_limits;
  dailyRateLimitCounts : gmap jsstr daily_count;
  sameProviderRotationCooldowns : gmap jsstr SameProviderRotationCooldownState
}.

Definition empty_state : UnifiedRotationState := Unified 1 ∅ ∅ ∅ ∅.

(** What the unified file may hold: every field may be missing. *)
Record raw_state := Raw {
  raw_version : option Z;
  raw_health : option health_map;
  raw_limits : option rate_limits;
  raw_daily : option (gmap jsstr daily_count);
  raw_cooldowns : option (gmap jsstr SameProviderRotationCooldownState)
}.

(** The three state files, and whether the unified one can be written. *)
Record disk := Disk {
  unified_file : file raw_state;
  legacy_rate_limits : file rate_limits;
  legacy_account_health : file health_map;
  writable : bool
}.

Definition raw_of (s : UnifiedRotationState) : raw_state :=
  Raw (Some (version s)) (Some (accountHealth s)) (Some (rateLimits s))
      (Some (dailyRateLimitCounts s)) (Some (sameProviderRotationCooldowns s)).

(** [writeUnifiedState(state)]: errors are ignored. *)
Definition writeUnifiedState (s : UnifiedRotationState) (d : disk) : disk :=
  if writable d
  then Disk (Holds (raw_of s)) (legacy_rate_limits d) (legacy_account_health d) (writable d)
  else d.

Definition legacy_data {K} `{Countable K} {A} (f : file (gmap K A)) : gmap K A :=
  match f with Holds m => m | _ => ∅ end.

(** [readUnifiedState()]: the state, and the disk after a migration. *)
Definition readUnifiedState (d : disk) : UnifiedRotationState * disk :=
  match unified_file d with
  | Holds r =>
      (Unified (default 1%Z (raw_version r)) (default ∅ (raw_health r)) (default ∅ (raw_limits r))
               (default ∅ (raw_daily r)) (default ∅ (raw_cooldowns r)), d)
  | Unreadable => (empty_state, d)
  | Absent =>
      let s := Unified 1 (legacy_data (legacy_account_health d)) (legacy_data (legacy_rate_limits d)) ∅ ∅ in
      if bool_decide (rateLimits s = ∅) && bool_decide (accountHealth s = ∅)
      then (s, d) else (s, writeUnifiedState s d)
  end.

(** What the next reader sees. *)
Definition seen (d : disk) : UnifiedRotationState := (readUnifiedState d).1.

(** ** Lemmas *)

Lemma quota_day (now : Z) :
  (getQuotaDayStart now <= now < getNextQuotaReset now
  ∧ getNextQuotaReset now = getQuotaDayStart now + ms_per_day
  ∧ getQuotaDayStart now mod ms_per_day = 28800000)%Z.
Proof.
  unfold getQuotaDayStart, getNextQuotaReset, setUTCHours, ms_per_day, resetHourUTC.
  pose proof (Z.div_mod now 86400000 ltac:(lia)). pose proof (Z.mod_pos_bound now 86400000 ltac:(lia)).
  set (q := (now / 86400000)%Z) in *.
  destruct (Z.leb_spec (q * 86400000 + 8 * 3600000) now); destruct (Z.ltb_spec now (q * 86400000 + 8 * 3600000));
    try lia; (split; [lia|]; split; [lia|]).
  - symmetry. apply (Z.mod_unique _ _ q); lia.
  - symmetry. apply (Z.mod_unique _ _ (q - 1)); lia.
Qed.

(** The quota day is determined by its start. *)
Lemma quota_day_unique (start now : Z) :
  (start mod ms_per_day = 28800000)%Z → (start <= now < start + ms_per_day)%Z → getQuotaDayStart now = start.
Proof.
  intros Hm Hb. destruct (quota_day now) as (Hs & Hn & Hm'). rewrite Hn in Hs. unfold ms_per_day in *.
  pose proof (Z.div_mod start 86400000 ltac:(lia)). pose proof (Z.div_mod (getQuotaDayStart now) 86400000 ltac:(lia)).
  lia.
Qed.

Lemma seen_write (s : UnifiedRotationState) (d : disk) :
  writable d = true → seen (writeUnifiedState s d) = s.
Proof. intros H. unfold seen, writeUnifiedState. rewrite H. by destruct s. Qed.

Lemma writable_write s d : writable (writeUnifiedState s d) = writable d.
Proof. unfold writeUnifiedState. by destruct (writable d) eqn:E; simpl; rewrite ?E. Qed.

Lemma writable_read d : writable (readUnifiedState d).2 = writable d.
Proof. unfold readUnifiedState. repeat case_match; simpl; rewrite ?writable_write; done. Qed.

(** Reading is stable: the migration leaves on disk what it returned. *)
Lemma seen_read d : seen (readUnifiedState d).2 = seen d.
Proof.
  unfold seen. destruct (readUnifiedState d) as [s d'] eqn:E. simpl. unfold readUnifiedState in E.
  destruct (unified_file d) eqn:Ef; simplify_eq; [|by unfold readUnifiedState; rewrite Ef..].
  destruct (_ && _) eqn:Eb; simplify_eq.
  - unfold readUnifiedState. rewrite Ef. by rewrite Eb.
  - destruct (writable d) eqn:Ew.
    + by apply seen_write.
    + unfold writeUnifiedState. rewrite Ew. unfold readUnifiedState. rewrite Ef. cbn zeta. by rewrite Eb.
Qed.
