(* ===== verification/Backoff.v ===== *)
(** Rate limit reasons and backoff times ([account/rotation/backoff.ts]).

    Backoff times are rationals: the jittered tier is not a whole number of
    milliseconds.  [Math.random()] is an argument. *)

From Stdlib Require Import QArith Qminmax Lqa.
From S2P Require Import Prelude JsString RotationState.

Definition FIVE_HOUR_BACKOFF : Z := 18000000.
Definition QUOTA_EXHAUSTED_BACKOFFS : list Z := [FIVE_HOUR_BACKOFF; FIVE_HOUR_BACKOFF; 86400000%Z].
Definition RATE_LIMIT_PROBE_BACKOFF : Z := 60000.
Definition SERVICE_UNAVAILABLE_503_BACKOFF : Z := 300000.
Definition SITE_OVERLOADED_529_BACKOFF : Z := 300000.
Definition MODEL_CAPACITY_EXHAUSTED_BACKOFFS : list Z := [15000; 30000; 60000; 90000]%Z.
Definition MODEL_CAPACITY_EXHAUSTED_JITTER_FRACTION : Q := 2 # 10.
Definition SERVER_ERROR_BACKOFF : Z := 20000.
Definition AUTH_FAILED_BACKOFF : Z := 3600000.
Definition TOKEN_REFRESH_FAILED_BACKOFF : Z := FIVE_HOUR_BACKOFF.
Definition UNKNOWN_BACKOFF : Z := 300000.
Definition MIN_BACKOFF_MS : Z := 2000.

Definition generateJitter (random maxJitterMs : Q) : Q := (random * maxJitterMs - maxJitterMs / 2)%Q.

(** ** Reasons *)

(** The [switch] on the upper-cased reason. *)
Definition explicit_reason (r : jsstr) : option RateLimitReason :=
  let u := toUpperCase r in
  if bool_decide (u ∈ [js "QUOTA_EXHAUSTED"; js "USAGE_LIMIT_REACHED"; js "INSUFFICIENT_QUOTA"])
  then Some QUOTA_EXHAUSTED
  else if bool_decide (u = js "RATE_LIMIT_EXCEEDED") then Some RATE_LIMIT_EXCEEDED
  else if bool_decide (u = js "SERVICE_UNAVAILABLE_503") then Some SERVICE_UNAVAILABLE_503
  else if bool_decide (u = js "SITE_OVERLOADED_529") then Some SITE_OVERLOADED_529
  else if bool_decide (u = js "MODEL_CAPACITY_EXHAUSTED") then Some MODEL_CAPACITY_EXHAUSTED
  else None.

Definition includes_any (s : jsstr) (ps : list jsstr) : bool := existsb (includes s) ps.

Definition capacity_phrases : list jsstr := map js ["capacity"; "overloaded"; "resource exhausted"]%string.
Definition short_phrases : list jsstr := map js
  ["per minute"; "per second"; "requests per minute"; "tokens per minute"; "minute limit"; "rpm"; "tpm"; "tps"]%string.
Definition long_phrases : list jsstr := map js ["per day"; "daily"; "limit reached for the day"; "rpd"]%string.
(** The three Chinese phrases, by their code units. *)
Definition billing_phrases : list jsstr :=
  [[38971; 29575; 38480; 21046]; [37197; 38989]; [38989; 24230]]%N.
Definition window_phrases : list jsstr := map js
  ["5 hour limit"; "5-hour limit"; "five hour limit"; "response_time_window_exhausted";
   "response time window exhausted"; "usage limit reached"; "usage limit has been reached";
   "usage limit exceeded"; "weekly limit"; "weekly usage"]%string.
Definition exceeded_phrases : list jsstr := map js ["rate limit"; "too many requests"; "token refresh failed"]%string.

(** The scan of the message text: the first test that succeeds. *)
Definition message_reason (message : jsstr) : option RateLimitReason :=
  let lower := toLowerCase message in
  if includes lower (js "token refresh failed") && includes lower (js "invalid_scope")
  then Some TOKEN_REFRESH_FAILED
  else if includes_any lower capacity_phrases then Some MODEL_CAPACITY_EXHAUSTED
  else if includes_any lower short_phrases then Some RATE_LIMIT_SHORT
  else if includes_any lower long_phrases then Some RATE_LIMIT_LONG
  else if includes_any lower billing_phrases then Some QUOTA_EXHAUSTED
  else if includes lower (js "quota") then Some QUOTA_EXHAUSTED
  else if includes_any lower window_phrases then Some QUOTA_EXHAUSTED
  else if includes_any lower exceeded_phrases then Some RATE_LIMIT_EXCEEDED
  else None.



(** [parseRateLimitReason]; an empty string is no reason and no message. *)
Definition parseRateLimitReason (reason message : option jsstr) (status : option Z) : RateLimitReason :=
  if bool_decide (status = Some 503%Z) then SERVICE_UNAVAILABLE_503
  else if bool_decide (status = Some 529%Z) then SITE_OVERLOADED_529
  else if bool_decide (status = Some 500%Z) then SERVER_ERROR
  else default UNKNOWN
    (some_or (match reason with Some (c :: s) => explicit_reason (c :: s) | _ => None end)
             (match message with Some (c :: s) => message_reason (c :: s) | _ => None end)).

(** ** Backoff *)

(** [table[Math.min(n, table.length - 1)]]; a negative index gives [undefined]. *)
Definition tier (table : list Z) (n : Z) : option Z :=
  let index := Z.min n (Z.of_nat (length table) - 1) in
  if (index <? 0)%Z then None else table !! Z.to_nat index.

(** The [switch] on the reason; [BAD_REQUEST] and [HTTP_n] take the default
    branch.  [now1] is the clock of [getNextQuotaReset], [now2] the one
    subtracted. *)
Definition backoff_by_reason (reason : RateLimitReason) (failures dailyFailures now1 now2 : Z) (random : Q) : Q :=
  match reason with
  | QUOTA_EXHAUSTED => inject_Z (default UNKNOWN_BACKOFF (tier QUOTA_EXHAUSTED_BACKOFFS failures))
  | RATE_LIMIT_SHORT => inject_Z 300000
  | RATE_LIMIT_LONG => inject_Z (Z.max (getNextQuotaReset now1 - now2) 60000)
  | SERVICE_UNAVAILABLE_503 => inject_Z SERVICE_UNAVAILABLE_503_BACKOFF
  | SITE_OVERLOADED_529 => inject_Z SITE_OVERLOADED_529_BACKOFF
  | MODEL_CAPACITY_EXHAUSTED =>
      let base := inject_Z (default 90000%Z (tier MODEL_CAPACITY_EXHAUSTED_BACKOFFS failures)) in
      (base + generateJitter random (base * MODEL_CAPACITY_EXHAUSTED_JITTER_FRACTION))%Q
  | SERVER_ERROR => inject_Z SERVER_ERROR_BACKOFF
  | AUTH_FAILED => inject_Z AUTH_FAILED_BACKOFF
  | TOKEN_REFRESH_FAILED => inject_Z TOKEN_REFRESH_FAILED_BACKOFF
  | RATE_LIMIT_EXCEEDED | UNKNOWN | BAD_REQUEST | HTTP _ =>
      inject_Z (if (dailyFailures <=? 1)%Z then RATE_LIMIT_PROBE_BACKOFF else FIVE_HOUR_BACKOFF)
  end.

Definition calculateBackoffMs (reason : RateLimitReason) (failures : Z) (retryAfterMs : option Q)
    (dailyFailures now1 now2 : Z) (random : Q) : Q :=
  match retryAfterMs with
  | Some r =>
      if Qlt_le_dec 0 r then Qmax r (inject_Z MIN_BACKOFF_MS)
      else backoff_by_reason reason failures dailyFailures now1 now2 random
  | None => backoff_by_reason reason failures dailyFailures now1 now2 random
  end.

Example parse_overloaded :
  parseRateLimitReason None (Some (js "Overloaded: try again")) (Some 429%Z) = MODEL_CAPACITY_EXHAUSTED.
Proof. by vm_compute. Qed.

(** ** Precedence of the reasons *)

(** The table of the message scan, in order. *)
Definition message_table : list (list jsstr * RateLimitReason) :=
  [(capacity_phrases, MODEL_CAPACITY_EXHAUSTED); (short_phrases, RATE_LIMIT_SHORT);
   (long_phrases, RATE_LIMIT_LONG); (billing_phrases, QUOTA_EXHAUSTED); ([js "quota"], QUOTA_EXHAUSTED);
   (window_phrases, QUOTA_EXHAUSTED); (exceeded_phrases, RATE_LIMIT_EXCEEDED)].

(** A phrase occurs in the message, in any mix of cases. *)
Definition mentions (message phrase : jsstr) : Prop := ∃ a b, toLowerCase message = a ++ phrase ++ b.

Lemma includes_mentions m p : includes (toLowerCase m) p = true ↔ mentions m p.
Proof. apply includes_spec. Qed.

Lemma includes_any_spec m ps :
  includes_any (toLowerCase m) ps = true ↔ ∃ p, p ∈ ps ∧ mentions m p.
Proof.
  unfold includes_any. rewrite existsb_exists. split; intros (p & Hp & H); exists p.
  - split; [by apply list_elem_of_In|by apply includes_mentions].
  - split; [by apply list_elem_of_In|by apply includes_mentions].
Qed.

(** The first entry of a table that the message mentions. *)
Definition first_mentioned (m : jsstr) (table : list (list jsstr * RateLimitReason)) (r : RateLimitReason) : Prop :=
  ∃ before ps after, table = before ++ (ps, r) :: after ∧ (∃ p, p ∈ ps ∧ mentions m p) ∧
    ∀ ps' r' p, (ps', r') ∈ before → p ∈ ps' → ¬ mentions m p.
Definition none_mentioned (m : jsstr) (table : list (list jsstr * RateLimitReason)) : Prop :=
  ∀ ps r p, (ps, r) ∈ table → p ∈ ps → ¬ mentions m p.

Definition scan_table (m : jsstr) (table : list (list jsstr * RateLimitReason)) : option RateLimitReason :=
  snd <$> find (λ e, includes_any (toLowerCase m) e.1) table.

Lemma scan_table_spec m table :
  match scan_table m table with
  | Some r => first_mentioned m table r
  | None => none_mentioned m table
  end.
Proof.
  unfold scan_table. induction table as [|[ps r] table IH]; simpl.
  - intros ps r p H. inversion H.
  - destruct (includes_any _ ps) eqn:E; simpl.
    + exists [], ps, table. split; [done|]. split; [by apply includes_any_spec|].
      intros ps' r' p H. inversion H.
    + assert (Hno : ∀ p, p ∈ ps → ¬ mentions m p).
      { intros p Hp Hm. assert (includes_any (toLowerCase m) ps = true) by (apply includes_any_spec; eauto). congruence. }
      destruct (find _ table) as [e|]; simpl in *.
      * destruct IH as (before & ps' & after & -> & Hm & Hb). exists ((ps, r) :: before), ps', after.
        split; [done|]. split; [done|]. intros ps'' r' p Hin. apply elem_of_cons in Hin as [?|?]; [|by eauto].
        simplify_eq. apply Hno.
      * intros ps' r' p Hin. apply elem_of_cons in Hin as [?|?]; [|by eauto]. simplify_eq. apply Hno.
Qed.

Lemma message_reason_scan m :
  ¬ (mentions m (js "token refresh failed") ∧ mentions m (js "invalid_scope")) →
  message_reason m = scan_table m message_table.
Proof.
  intros H. unfold message_reason.
  destruct (_ && _) eqn:E; [bool_to_prop; destruct H; split; by apply includes_mentions|].
  unfold scan_table, message_table. cbn [find fst].
  replace (includes_any (toLowerCase m) [js "quota"]) with (includes (toLowerCase m) (js "quota"))
    by (unfold includes_any; cbn [existsb]; by rewrite orb_false_r).
  by repeat (destruct (includes_any _ _) || destruct (includes _ _)).
Qed.

(** Precedence of the evidence: the status codes 503, 529 and 500 decide
    alone; then a known reason string decides; then the message does, by the
    first of the phrase groups it mentions (token refresh with an invalid scope
    before all groups); nothing else is [UNKNOWN]. *)
Theorem parse_reason_precedence (reason message : option jsstr) (status : option Z) :
  let out := parseRateLimitReason reason message status in
  (status = Some 503%Z → out = SERVICE_UNAVAILABLE_503) ∧
  (status = Some 529%Z → out = SITE_OVERLOADED_529) ∧
  (status = Some 500%Z → out = SERVER_ERROR) ∧
  (status ≠ Some 503%Z → status ≠ Some 529%Z → status ≠ Some 500%Z →
   (∀ c s r, reason = Some (c :: s) → explicit_reason (c :: s) = Some r → out = r) ∧
   ((∀ c s, reason = Some (c :: s) → explicit_reason (c :: s) = None) →
    (∀ c s, message = Some (c :: s) → let m := c :: s in
      let token := mentions m (js "token refresh failed") ∧ mentions m (js "invalid_scope") in
      (token → out = TOKEN_REFRESH_FAILED) ∧
      (¬ token → first_mentioned m message_table out ∨ none_mentioned m message_table ∧ out = UNKNOWN)) ∧
    (default [] message = [] → out = UNKNOWN))).
Proof.
  intros out. unfold out, parseRateLimitReason.
  split; [intros ->; done|]. split; [intros ->; done|]. split; [intros ->; done|].
  intros H1 H2 H3. rewrite !bool_decide_eq_false_2 by done. split.
  { intros c s r -> Hr. by rewrite Hr. }
  intros Hno. assert (Hr : match reason with Some (c :: s) => explicit_reason (c :: s) | _ => None end = None)
    by (destruct reason as [[|c s]|]; auto).
  rewrite Hr. cbn [some_or]. split.
  - intros c s ->. set (m := c :: s). split.
    + intros [Ht Hi]. unfold message_reason. apply includes_mentions in Ht, Hi. by rewrite Ht, Hi.
    + intros Ht. rewrite (message_reason_scan m Ht). pose proof (scan_table_spec m message_table) as Hs.
      destruct (scan_table m message_table); auto.
  - by destruct message as [[|c s]|].
Qed.

(** ** Bounds *)

Lemma tier_bounds table n lo hi :
  (0 <= n)%Z → table ≠ [] → Forall (λ b, (lo <= b <= hi)%Z) table →
  ∃ b, tier table n = Some b ∧ (lo <= b <= hi)%Z.
Proof.
  intros Hn Hne Hf. unfold tier. assert (1 ≤ length table) by (destruct table; [done|simpl; lia]).
  destruct (Z.ltb_spec (Z.min n (Z.of_nat (length table) - 1)) 0); [lia|].
  destruct (lookup_lt_is_Some_2 table (Z.to_nat (Z.min n (Z.of_nat (length table) - 1)))) as [b Hb]; [lia|].
  exists b. split; [done|]. by apply (Forall_lookup_1 _ _ _ _ Hf Hb).
Qed.

Lemma inject_bounds (lo hi z : Z) : (lo <= z <= hi)%Z → (inject_Z lo <= inject_Z z <= inject_Z hi)%Q.
Proof. intros [? ?]. by rewrite <- !Zle_Qle. Qed.

Lemma jitter_bounds (random : Q) (lo hi b : Z) :
  (0 <= random <= 1)%Q → (0 <= lo <= b)%Z → (b <= hi)%Z →
  (inject_Z lo * (9 # 10) <= inject_Z b + generateJitter random (inject_Z b * MODEL_CAPACITY_EXHAUSTED_JITTER_FRACTION)
   <= inject_Z hi * (11 # 10))%Q.
Proof.
  intros [Hr0 Hr1] [Hlo Hlb] Hhi. rewrite Zle_Qle in Hlo, Hlb, Hhi. change (inject_Z 0) with 0%Q in Hlo.
  unfold generateJitter, MODEL_CAPACITY_EXHAUSTED_JITTER_FRACTION.
  assert (0 <= inject_Z b)%Q as Hb by lra.
  pose proof (Qmult_le_0_compat _ _ Hr0 Hb). pose proof (Qmult_le_compat_r _ _ _ Hr1 Hb).
  assert (random * (inject_Z b * (2 # 10)) - inject_Z b * (2 # 10) / 2
    == (random * inject_Z b) * (2 # 10) - inject_Z b * (1 # 10))%Q as E by field.
  split; rewrite E; lra.
Qed.

(** Bounds: a backoff is never shorter than two seconds, whatever the
    provider asks for; without a positive retry-after it lies between 13.5
    seconds and 24 hours, for every reason, count of failures and clock that
    does not run backwards. *)
Theorem backoff_bounds (reason : RateLimitReason) (failures dailyFailures now1 now2 : Z)
    (retryAfterMs : option Q) (random : Q) :
  (0 <= failures)%Z → (now1 <= now2)%Z → (0 <= random <= 1)%Q →
  (2000 <= calculateBackoffMs reason failures retryAfterMs dailyFailures now1 now2 random)%Q ∧
  ((∀ r, retryAfterMs = Some r → (r <= 0)%Q) →
   (13500 <= calculateBackoffMs reason failures retryAfterMs dailyFailures now1 now2 random <= 86400000)%Q).
Proof.
  intros Hf Hn Hr.
  assert (H : (13500 <= backoff_by_reason reason failures dailyFailures now1 now2 random <= 86400000)%Q).
  { change 13500%Q with (inject_Z 13500). change 86400000%Q with (inject_Z 86400000).
    destruct reason; unfold backoff_by_reason;
      lazymatch goal with
      | |- (_ <= inject_Z (if ?b then _ else _) <= _)%Q => destruct b; apply inject_bounds; by vm_compute
      | |- (_ <= inject_Z (default _ _) <= _)%Q => idtac
      | |- (_ <= inject_Z (Z.max _ _) <= _)%Q => idtac
      | |- (_ <= inject_Z _ <= _)%Q => apply inject_bounds; by vm_compute
      | _ => idtac
      end.
    - destruct (tier_bounds QUOTA_EXHAUSTED_BACKOFFS failures 13500 86400000) as (b & -> & Hb); [done..| |].
      + repeat constructor; by vm_compute.
      + by apply inject_bounds.
    - apply inject_bounds. pose proof (quota_day now1) as (? & ? & _). unfold ms_per_day in *. lia.
    - destruct (tier_bounds MODEL_CAPACITY_EXHAUSTED_BACKOFFS failures 15000 90000) as (b & -> & Hb); [done..| |].
      + repeat constructor; by vm_compute.
      + pose proof (jitter_bounds random 15000 90000 b Hr ltac:(lia) ltac:(lia)) as [Hlo Hhi].
        change (default 90000%Z (Some b)) with b. cbn zeta. change (inject_Z 13500) with 13500%Q. change (inject_Z 86400000) with 86400000%Q.
        change (inject_Z 15000) with 15000%Q in Hlo. change (inject_Z 90000) with 90000%Q in Hhi. split; lra. }
  unfold calculateBackoffMs. destruct retryAfterMs as [r|]; [destruct (Qlt_le_dec 0 r)|].
  - split; [apply Q.le_max_r|]. intros Hno. specialize (Hno r eq_refl). lra.
  - split; [lra|by intros _].
  - split; [lra|by intros _].
Qed.

Lemma backoff_bounds_witness :
  (13500 <= calculateBackoffMs MODEL_CAPACITY_EXHAUSTED 0 None 0 0 0 0 <= 86400000)%Q ∧
  (calculateBackoffMs MODEL_CAPACITY_EXHAUSTED 0 None 0 0 0 0 == 13500)%Q.
Proof.
  split; [|by vm_compute].
  refine (proj2 (backoff_bounds MODEL_CAPACITY_EXHAUSTED 0 0 0 0 None 0 _ _ _) _); [by vm_compute..|done].
Defined.

(** The second failure of a quota day backs off for five hours. *)
Example second_daily_failure : (calculateBackoffMs UNKNOWN 2 None 2 0 0 0 == inject_Z (5 * 3600000))%Q.
Proof. by vm_compute. Qed.
