(* ===== verification/RateLimits.v ===== *)
(** [RateLimitTracker] ([account/rotation/rate-limit-tracker.ts]).

    A tracker is the map of the object and the state file it shares with other
    processes.  Clock readings are arguments, in the order the code makes them. *)

From S2P Require Import Prelude JsString RotationState.

Record tracker := Tracker { limits : rate_limits; store : disk }.

Definition persistToFile (t : tracker) : tracker :=
  let '(s, d) := readUnifiedState (store t) in
  Tracker (limits t)
    (writeUnifiedState
       (Unified (version s) (accountHealth s) (limits t) (dailyRateLimitCounts s) (sameProviderRotationCooldowns s)) d).

Definition loadFromFile (t : tracker) : tracker :=
  let '(s, d) := readUnifiedState (store t) in Tracker (rateLimits s) d.

Definition colon : jsstr := js ":".

(** [makeKey]: an account id that already names the provider is the key. *)
Definition makeKey (provider accountId : jsstr) : jsstr :=
  if startsWith accountId (provider ++ colon) || startsWith accountId (provider ++ js "-")
  then accountId else provider ++ colon ++ accountId.

(** The inner key; an empty model counts as none. *)
Definition given (m : option jsstr) : option jsstr := match m with Some [] => None | _ => m end.
Definition modelKey (provider : jsstr) (m : option jsstr) : jsstr :=
  match given m with Some x => provider ++ colon ++ x | None => provider end.

Definition markRateLimited (accountId provider : jsstr) (why : RateLimitReason) (backoffMs : Z)
    (m : option jsstr) (now : Z) (t : tracker) : tracker :=
  let t1 := loadFromFile t in
  let key := makeKey provider accountId in
  let providerLimits := default ∅ (limits t1 !! key) in
  persistToFile
    (Tracker (<[key := <[modelKey provider m := RateLimit (now + backoffMs) why m]> providerLimits]> (limits t1))
             (store t1)).

(** [clearExpired(key)]: whether it changed anything, and the tracker. *)
Definition live (now : Z) (l : RateLimitState) : bool := (now <? resetTime l)%Z.
Definition clearExpired (key : jsstr) (now : Z) (t : tracker) : bool * tracker :=
  match limits t !! key with
  | None => (false, t)
  | Some pl =>
      let pl' := filter (λ kv, live now kv.2 = true) pl in
      let changed := negb (Nat.eqb (size pl') (size pl)) || Nat.eqb (size pl') 0 in
      if changed
      then (true, persistToFile (Tracker (if Nat.eqb (size pl') 0 then delete key (limits t) else <[key := pl']> (limits t)) (store t)))
      else (false, t)
  end.

(** A live entry under the inner key. *)
Definition live_at (pl : gmap jsstr RateLimitState) (inner : jsstr) (now : Z) : option RateLimitState :=
  match pl !! inner with
  | Some l => if live now l then Some l else None
  | None => None
  end.

(** [isRateLimited]: clock readings for the clean-up, the model and the provider. *)
Definition isRateLimited (accountId provider : jsstr) (m : option jsstr) (now1 now2 now3 : Z) (t : tracker)
    : bool * tracker :=
  let key := makeKey provider accountId in
  let t1 := (clearExpired key now1 (loadFromFile t)).2 in
  match limits t1 !! key with
  | None => (false, t1)
  | Some pl =>
      match given m with
      | Some _ =>
          if bool_decide (is_Some (live_at pl (modelKey provider m) now2)) then (true, t1)
          else (bool_decide (is_Some (live_at pl provider now3)), t1)
      | None => (bool_decide (is_Some (live_at pl provider now3)), t1)
      end
  end.

Definition getReason (accountId provider : jsstr) (m : option jsstr) (now1 now2 : Z) (t : tracker)
    : option RateLimitReason * tracker :=
  let key := makeKey provider accountId in
  let t1 := (clearExpired key now1 (loadFromFile t)).2 in
  match limits t1 !! key with
  | None => (None, t1)
  | Some pl =>
      let of_provider := reason <$> live_at pl provider now2 in
      match given m with
      | Some _ =>
          match live_at pl (modelKey provider m) now2 with
          | Some l => (Some (reason l), t1)
          | None => (of_provider, t1)
          end
      | None => (of_provider, t1)
      end
  end.

Definition wait_of (o : option RateLimitState) (now acc : Z) : Z :=
  match o with Some l => Z.max acc (resetTime l - now) | None => acc end.
Definition getWaitTime (accountId provider : jsstr) (m : option jsstr) (now1 now2 : Z) (t : tracker) : Z * tracker :=
  let key := makeKey provider accountId in
  let t1 := (clearExpired key now1 (loadFromFile t)).2 in
  match limits t1 !! key with
  | None => (0%Z, t1)
  | Some pl =>
      let w := match given m with Some _ => wait_of (pl !! modelKey provider m) now2 0 | None => 0%Z end in
      (Z.max 0 (wait_of (pl !! provider) now2 w), t1)
  end.

Definition clear (accountId provider : jsstr) (m : option jsstr) (t : tracker) : tracker :=
  let t1 := loadFromFile t in
  let key := makeKey provider accountId in
  match limits t1 !! key with
  | None => t1
  | Some pl => persistToFile (Tracker (<[key := delete (modelKey provider m) pl]> (limits t1)) (store t1))
  end.

Definition clearAccount (accountId provider : jsstr) (t : tracker) : tracker :=
  let t1 := loadFromFile t in
  let key := makeKey provider accountId in
  match limits t1 !! key with
  | None => t1
  | Some _ => persistToFile (Tracker (delete key (limits t1)) (store t1))
  end.

Definition clearAll (t : tracker) : tracker := persistToFile (Tracker ∅ (store t)).

(** ** Daily counters *)

Definition countKey (accountId provider : jsstr) (m : option jsstr) : jsstr :=
  match given m with
  | Some x => provider ++ colon ++ accountId ++ colon ++ x
  | None => provider ++ colon ++ accountId
  end.

(** [now1] is the clock of [getQuotaDayStart]. *)
Definition getDailyFailureCount (accountId provider : jsstr) (m : option jsstr) (now1 : Z) (t : tracker) : Z * tracker :=
  let '(s, d) := readUnifiedState (store t) in
  (match dailyRateLimitCounts s !! countKey accountId provider m with
   | Some c => if (lastReset c <? getQuotaDayStart now1)%Z then 0%Z else count c
   | None => 0%Z
   end, Tracker (limits t) d).

Definition incrementDailyFailureCount (accountId provider : jsstr) (m : option jsstr) (now1 now2 : Z) (t : tracker)
    : Z * tracker :=
  let '(s, d) := readUnifiedState (store t) in
  let key := countKey accountId provider m in
  let counter :=
    match dailyRateLimitCounts s !! key with
    | Some c => if (lastReset c <? getQuotaDayStart now1)%Z then DailyCount 1 now2 else DailyCount (count c + 1) now2
    | None => DailyCount 1 now2
    end in
  (count counter,
   Tracker (limits t)
     (writeUnifiedState
        (Unified (version s) (accountHealth s) (rateLimits s) (<[key := counter]> (dailyRateLimitCounts s))
                 (sameProviderRotationCooldowns s)) d)).

(** [getSnapshot3D]: the entries alive at [now], where an expired one also stays
    away because [clearExpired] removed it from the map it iterates over. *)
Record snapshot_row := Row {
  row_account : jsstr; row_provider : jsstr; row_model : option jsstr; row_wait : Z; row_reason : RateLimitReason }.
Definition split_colon (s : jsstr) : option (jsstr * jsstr) :=
  match indexOf s colon with Some i => Some (take i s, drop (S i) s) | None => None end.
Definition snapshot_row_of (key inner : jsstr) (l : RateLimitState) (now : Z) : snapshot_row :=
  let '(providerId, rowModel) :=
    match split_colon inner with Some (p, x) => (p, Some x) | None => (inner, model l) end in
  Row (match split_colon key with Some (_, a) => a | None => key end)
      providerId rowModel (resetTime l - now) (reason l).
Fixpoint snapshot_keys (keys : list (jsstr * gmap jsstr RateLimitState)) (now : Z) (clocks : nat → Z) (t : tracker)
    : list snapshot_row * tracker :=
  match keys with
  | [] => ([], t)
  | (key, pl) :: rest =>
      let now1 := clocks (length rest) in
      let t1 := (clearExpired key now1 t).2 in
      let rows := map (λ kv, snapshot_row_of key kv.1 kv.2 now)
                    (map_to_list (filter (λ kv, live now1 kv.2 && live now kv.2 = true) pl)) in
      let '(more, t2) := snapshot_keys rest now clocks t1 in
      (rows ++ more, t2)
  end.
Definition getSnapshot3D (now : Z) (clocks : nat → Z) (t : tracker) : list snapshot_row * tracker :=
  let t1 := loadFromFile t in snapshot_keys (map_to_list (limits t1)) now clocks t1.

(** ** What a tracker shows

    The abstract state: the entry under an outer and an inner key, as it was
    marked last and not cleared since.  Expired entries do not show. *)

Definition entries : Type := jsstr → jsstr → option RateLimitState.
Definition look (rl : rate_limits) : entries := λ k i, rl !! k ≫= λ pl, pl !! i.
Definition alive (now : Z) (o : option RateLimitState) : option RateLimitState :=
  o ≫= λ l, if live now l then Some l else None.

Inductive op :=
| OMark (accountId provider : jsstr) (why : RateLimitReason) (backoffMs : Z) (m : option jsstr) (now : Z)
| OCheck (accountId provider : jsstr) (m : option jsstr) (now1 now2 now3 : Z)
| OReason (accountId provider : jsstr) (m : option jsstr) (now1 now2 : Z)
| OWait (accountId provider : jsstr) (m : option jsstr) (now1 now2 : Z)
| OClear (accountId provider : jsstr) (m : option jsstr)
| OClearAccount (accountId provider : jsstr)
| OClearAll.
Inductive obs := Done | Limited (b : bool) | Why (r : option RateLimitReason) | Wait (ms : Z).

Definition exec (o : op) (t : tracker) : obs * tracker :=
  match o with
  | OMark a p w b m now => (Done, markRateLimited a p w b m now t)
  | OCheck a p m n1 n2 n3 => let '(b, t') := isRateLimited a p m n1 n2 n3 t in (Limited b, t')
  | OReason a p m n1 n2 => let '(r, t') := getReason a p m n1 n2 t in (Why r, t')
  | OWait a p m n1 n2 => let '(w, t') := getWaitTime a p m n1 n2 t in (Wait w, t')
  | OClear a p m => (Done, clear a p m t)
  | OClearAccount a p => (Done, clearAccount a p t)
  | OClearAll => (Done, clearAll t)
  end.

Definition put (k i : jsstr) (o : option RateLimitState) (A : entries) : entries :=
  λ k' i', if bool_decide (k' = k ∧ i' = i) then o else A k' i'.
Definition spec_after (o : op) (A : entries) : entries :=
  match o with
  | OMark a p w b m now => put (makeKey p a) (modelKey p m) (Some (RateLimit (now + b) w m)) A
  | OClear a p m => put (makeKey p a) (modelKey p m) None A
  | OClearAccount a p => λ k i, if bool_decide (k = makeKey p a) then None else A k i
  | OClearAll => λ _ _, None
  | _ => A
  end.
(** The live entry of the model, when one is asked for. *)
Definition spec_model (a p : jsstr) (m : option jsstr) (now : Z) (A : entries) : option RateLimitState :=
  match given m with Some _ => alive now (A (makeKey p a) (modelKey p m)) | None => None end.
Definition spec_obs (o : op) (A : entries) : obs :=
  match o with
  | OCheck a p m _ n2 n3 =>
      Limited (bool_decide (is_Some (spec_model a p m n2 A)) || bool_decide (is_Some (alive n3 (A (makeKey p a) p))))
  | OReason a p m _ n2 => Why (reason <$> some_or (spec_model a p m n2 A) (alive n2 (A (makeKey p a) p)))
  | OWait a p m _ n2 =>
      Wait (wait_of (alive n2 (A (makeKey p a) p)) n2 (wait_of (spec_model a p m n2 A) n2 0))
  | _ => Done
  end.

(** The clock readings of an operation, in order. *)
Definition clocks_of (o : op) : list Z :=
  match o with
  | OMark _ _ _ _ _ n => [n]
  | OCheck _ _ _ n1 n2 n3 => [n1; n2; n3]
  | OReason _ _ _ n1 n2 | OWait _ _ _ n1 n2 => [n1; n2]
  | _ => []
  end.

(** ** The tracker refines it *)

(** Map and file agree, and the file can be written. *)
Definition synced (t : tracker) : Prop := rateLimits (seen (store t)) = limits t ∧ writable (store t) = true.

(** The same entries are alive from [now] on. *)
Definition agree (now : Z) (B A : entries) : Prop :=
  ∀ k i now', (now <= now')%Z → alive now' (B k i) = alive now' (A k i).

(** The file shows the abstract state. *)
Definition shows (now : Z) (t : tracker) (A : entries) : Prop :=
  writable (store t) = true ∧ agree now (look (rateLimits (seen (store t)))) A.

Lemma loadFromFile_synced t :
  writable (store t) = true → synced (loadFromFile t) ∧ limits (loadFromFile t) = rateLimits (seen (store t)).
Proof.
  intros Hw. unfold synced, loadFromFile. pose proof (seen_read (store t)) as Hs. pose proof (writable_read (store t)) as Hwr.
  unfold seen in *. destruct (readUnifiedState (store t)) as [s d]. simpl in *. rewrite Hs, Hwr. done.
Qed.

Lemma persistToFile_synced t :
  writable (store t) = true → synced (persistToFile t) ∧ limits (persistToFile t) = limits t.
Proof.
  intros Hw. unfold synced, persistToFile. pose proof (writable_read (store t)) as Hwr.
  destruct (readUnifiedState (store t)) as [s d]. simpl in *.
  rewrite seen_write by congruence. rewrite writable_write. by rewrite Hwr.
Qed.

Lemma synced_shows now t A : synced t → agree now (look (limits t)) A → shows now t A.
Proof. intros [Hs Hw] Ha. split; [done|]. by rewrite Hs. Qed.

Lemma agree_weaken now now' B A : (now <= now')%Z → agree now B A → agree now' B A.
Proof. intros Hn H k i n' ?. apply H. lia. Qed.

Lemma look_insert rl k pl k' i' :
  look (<[k := pl]> rl) k' i' = if bool_decide (k' = k) then pl !! i' else look rl k' i'.
Proof.
  unfold look. case_bool_decide as E; [by rewrite E, lookup_insert_eq|]. by rewrite lookup_insert_ne.
Qed.

Lemma look_delete rl k k' i' :
  look (delete k rl) k' i' = if bool_decide (k' = k) then None else look rl k' i'.
Proof.
  unfold look. case_bool_decide as E; [by rewrite E, lookup_delete_eq|]. by rewrite lookup_delete_ne.
Qed.

Lemma alive_filter (now now' : Z) (pl : gmap jsstr RateLimitState) i :
  (now <= now')%Z → alive now' (filter (λ kv, live now kv.2 = true) pl !! i) = alive now' (pl !! i).
Proof.
  intros Hn. rewrite map_lookup_filter. unfold alive, live. destruct (pl !! i) as [l|]; simpl; [|done].
  unfold guard. case_decide as E; simpl; [done|]. apply not_true_iff_false in E. bool_to_prop.
  destruct (Z.ltb_spec now' (resetTime l)); [lia|done].
Qed.

Lemma size_filter_same (P : jsstr * RateLimitState → Prop) `{∀ x, Decision (P x)} (pl : gmap jsstr RateLimitState) :
  size (filter P pl) = size pl → filter P pl = pl.
Proof. intros E. apply map_subseteq_size_eq; [apply map_filter_subseteq|by rewrite E]. Qed.

Lemma clearExpired_spec key now t A :
  synced t → agree now (look (limits t)) A →
  let t' := (clearExpired key now t).2 in
  synced t' ∧ agree now (look (limits t')) A ∧
  (∀ pl i l, limits t' !! key = Some pl → pl !! i = Some l → live now l = true).
Proof.
  intros Hs Ha. unfold clearExpired. destruct (limits t !! key) as [pl|] eqn:E.
  2:{ cbn. split; [done|]. split; [done|]. intros pl i l Hk. congruence. }
  set (pl' := filter _ pl).
  assert (Hlive : ∀ i l, pl' !! i = Some l → live now l = true).
  { intros i l Hl. by apply map_lookup_filter_Some in Hl as [_ ?]. }
  destruct (negb (Nat.eqb (size pl') (size pl)) || Nat.eqb (size pl') 0) eqn:Ec; cbn [snd].
  - destruct (persistToFile_synced (Tracker (if Nat.eqb (size pl') 0 then delete key (limits t)
      else <[key := pl']> (limits t)) (store t))) as [Hs' Hl]; [apply Hs|]. rewrite Hl. cbn [limits].
    split; [done|]. destruct (Nat.eqb_spec (size pl') 0) as [E0|E0].
    + apply map_size_empty_inv in E0. split.
      * intros k i n Hn. rewrite look_delete, <- Ha by done. case_bool_decide as Ek; [|done]. subst k.
        unfold look. rewrite E. simpl. rewrite <- (alive_filter now n) by done. fold pl'. by rewrite E0, lookup_empty.
      * intros pl2 i l Hk. by rewrite lookup_delete_eq in Hk.
    + split.
      * intros k i n Hn. rewrite look_insert, <- Ha by done. case_bool_decide as Ek; [|done]. subst k.
        unfold look. rewrite E. simpl. by apply alive_filter.
      * intros pl2 i l Hk. rewrite lookup_insert_eq in Hk. simplify_eq. apply Hlive.
  - apply orb_false_iff in Ec as [Ec _]. apply negb_false_iff, Nat.eqb_eq in Ec. apply size_filter_same in Ec.
    split; [done|]. split; [done|]. intros pl2 i l Hk. rewrite E in Hk. injection Hk as <-. rewrite <- Ec. apply Hlive.
Qed.

Lemma live_at_alive pl i now : live_at pl i now = alive now (pl !! i).
Proof. unfold live_at, alive. by destruct (pl !! i). Qed.

Lemma load_shows now t A :
  shows now t A → synced (loadFromFile t) ∧ agree now (look (limits (loadFromFile t))) A.
Proof. intros [Hw Ha]. destruct (loadFromFile_synced t Hw) as [Hs Hl]. by rewrite Hl. Qed.

Lemma persist_shows now t A :
  writable (store t) = true → agree now (look (limits t)) A → shows now (persistToFile t) A.
Proof.
  intros Hw Ha. destruct (persistToFile_synced t Hw) as [Hs Hl]. apply synced_shows; [done|]. by rewrite Hl.
Qed.

(** What the reading operations see after their clean-up at [n1]. *)
Lemma reload_spec key now n1 t A :
  shows now t A → (now <= n1)%Z →
  let t1 := (clearExpired key n1 (loadFromFile t)).2 in
  shows n1 t1 A ∧
  ∀ i n, (n1 <= n)%Z → alive n (A key i) = alive n (limits t1 !! key ≫= λ pl, pl !! i).
Proof.
  intros Hsh Hn t1. apply load_shows in Hsh as [Hs Ha].
  apply (agree_weaken now n1) in Ha; [|done].
  destruct (clearExpired_spec key n1 _ A Hs Ha) as (Hs1 & Ha1 & _). split; [by apply synced_shows|].
  intros i n Hni. symmetry. by apply Ha1.
Qed.

(** The clean-up that a read begins with leaves the rest of the file alone. *)
Lemma reload_health key now t :
  accountHealth (seen (store (clearExpired key now (loadFromFile t)).2)) = accountHealth (seen (store t)).
Proof.
  assert (Hl : accountHealth (seen (store (loadFromFile t))) = accountHealth (seen (store t))).
  { unfold loadFromFile. pose proof (seen_read (store t)) as Hs.
    destruct (readUnifiedState (store t)) as [s d]. simpl in *. by rewrite Hs. }
  rewrite <- Hl. generalize (loadFromFile t) as t'. clear. intros t.
  assert (Hp : ∀ l, accountHealth (seen (store (persistToFile (Tracker l (store t))))) = accountHealth (seen (store t))).
  { intros l. unfold persistToFile. cbn [store limits]. pose proof (seen_read (store t)) as Hs.
    unfold seen in Hs at 2. destruct (readUnifiedState (store t)) as [s d] eqn:E. simpl in *.
    destruct (writable d) eqn:Ew.
    - rewrite seen_write by done. unfold seen. by rewrite E.
    - unfold writeUnifiedState. rewrite Ew. rewrite Hs. unfold seen. by rewrite E. }
  unfold clearExpired. destruct (limits t !! key); [|done]. destruct (_ || _); [apply Hp|done].
Qed.

Lemma agree_put now B A k i o :
  agree now B A → agree now (put k i o B) (put k i o A).
Proof. intros H k' i' n Hn. unfold put. case_bool_decide; [done|by apply H]. Qed.

Lemma agree_ext now B B' A : (∀ k i, B k i = B' k i) → agree now B' A → agree now B A.
Proof. intros E H k i n Hn. rewrite E. by apply H. Qed.

Lemma mark_shows now a p w b m n t A :
  shows now t A → (now <= n)%Z →
  shows n (markRateLimited a p w b m n t) (spec_after (OMark a p w b m n) A).
Proof.
  intros Hsh Hn. apply load_shows in Hsh as [[_ Hw] Ha]. unfold markRateLimited. apply persist_shows; [done|].
  cbn [limits spec_after]. eapply agree_ext; [|apply agree_put, (agree_weaken now n); [done|exact Ha]].
  intros k i. rewrite look_insert. unfold put, look. case_bool_decide as Ek.
  - subst k. destruct (decide (i = modelKey p m)) as [->|Hi].
    + by rewrite lookup_insert_eq, bool_decide_eq_true_2.
    + rewrite lookup_insert_ne, bool_decide_eq_false_2 by naive_solver.
      by destruct (limits (loadFromFile t) !! makeKey p a); simpl; rewrite ?lookup_empty.
  - by rewrite bool_decide_eq_false_2 by naive_solver.
Qed.

Lemma clear_shows now a p m t A :
  shows now t A → shows now (clear a p m t) (spec_after (OClear a p m) A).
Proof.
  intros Hsh. apply load_shows in Hsh as [Hs Ha]. unfold clear. cbn [spec_after].
  assert (Hput : agree now (put (makeKey p a) (modelKey p m) None (look (limits (loadFromFile t))))
    (put (makeKey p a) (modelKey p m) None A)) by by apply agree_put.
  destruct (limits (loadFromFile t) !! makeKey p a) as [pl|] eqn:E.
  - apply persist_shows; [apply Hs|]. cbn [limits]. eapply agree_ext; [|exact Hput].
    intros k i. rewrite look_insert. unfold put. case_bool_decide as Ek.
    + subst k. unfold look. rewrite E. simpl. destruct (decide (i = modelKey p m)) as [->|Hi].
      * by rewrite lookup_delete_eq, bool_decide_eq_true_2.
      * by rewrite lookup_delete_ne, bool_decide_eq_false_2 by naive_solver.
    + by rewrite bool_decide_eq_false_2 by naive_solver.
  - apply synced_shows; [done|]. eapply agree_ext; [|exact Hput]. intros k i. unfold put.
    case_bool_decide as Ek; [|done]. destruct Ek as [-> ->]. unfold look. by rewrite E.
Qed.

Lemma clearAccount_shows now a p t A :
  shows now t A → shows now (clearAccount a p t) (spec_after (OClearAccount a p) A).
Proof.
  intros Hsh. apply load_shows in Hsh as [Hs Ha]. unfold clearAccount. cbn [spec_after].
  destruct (limits (loadFromFile t) !! makeKey p a) as [pl|] eqn:E.
  - apply persist_shows; [apply Hs|]. cbn [limits]. intros k i n Hn. rewrite look_delete.
    case_bool_decide; [done|by apply Ha].
  - apply synced_shows; [done|]. intros k i n Hn. case_bool_decide as Ek; [|by apply Ha].
    subst k. unfold look. by rewrite E.
Qed.

Lemma check_spec now a p m n1 n2 n3 t A :
  shows now t A → (now <= n1)%Z → (n1 <= n2)%Z → (n1 <= n3)%Z →
  Limited (isRateLimited a p m n1 n2 n3 t).1 = spec_obs (OCheck a p m n1 n2 n3) A ∧
  shows n1 (isRateLimited a p m n1 n2 n3 t).2 A.
Proof.
  intros Hsh H1 H2 H3. destruct (reload_spec (makeKey p a) now n1 t A Hsh H1) as [Hs Ha].
  unfold isRateLimited. cbn [spec_obs]. unfold spec_model.
  rewrite !Ha by done. destruct (limits _ !! makeKey p a) as [pl|]; simpl.
  - rewrite !live_at_alive. destruct (given m); [|done].
    by destruct (bool_decide (is_Some (alive n2 (pl !! modelKey p m)))).
  - destruct (given m); [|done]. done.
Qed.

Lemma reason_spec now a p m n1 n2 t A :
  shows now t A → (now <= n1)%Z → (n1 <= n2)%Z →
  Why (getReason a p m n1 n2 t).1 = spec_obs (OReason a p m n1 n2) A ∧
  shows n1 (getReason a p m n1 n2 t).2 A.
Proof.
  intros Hsh H1 H2. destruct (reload_spec (makeKey p a) now n1 t A Hsh H1) as [Hs Ha].
  unfold getReason. cbn [spec_obs]. unfold spec_model.
  rewrite !Ha by done. destruct (limits _ !! makeKey p a) as [pl|]; simpl.
  - rewrite !live_at_alive. destruct (given m); [|done]. by destruct (alive n2 (pl !! modelKey p m)).
  - by destruct (given m).
Qed.

(** An entry that has expired since the clean-up does not lengthen the wait. *)
Lemma wait_of_alive o now acc : (0 <= acc)%Z → wait_of o now acc = wait_of (alive now o) now acc.
Proof.
  intros Hacc. destruct o as [l|]; [|done]. unfold alive, live. simpl.
  destruct (Z.ltb_spec now (resetTime l)); [done|]. simpl. lia.
Qed.

Lemma wait_of_nonneg o now acc : (0 <= acc)%Z → (0 <= wait_of o now acc)%Z.
Proof. intros H. destruct o; simpl; lia. Qed.

Lemma wait_spec now a p m n1 n2 t A :
  shows now t A → (now <= n1)%Z → (n1 <= n2)%Z →
  Wait (getWaitTime a p m n1 n2 t).1 = spec_obs (OWait a p m n1 n2) A ∧
  shows n1 (getWaitTime a p m n1 n2 t).2 A.
Proof.
  intros Hsh H1 H2. destruct (reload_spec (makeKey p a) now n1 t A Hsh H1) as [Hs Ha].
  unfold getWaitTime. cbn [spec_obs]. unfold spec_model.
  rewrite !Ha by done. destruct (limits _ !! makeKey p a) as [pl|]; cbn [mbind option_bind fst snd].
  - split; [|done]. f_equal. destruct (given m).
    + pose proof (wait_of_nonneg (pl !! modelKey p m) n2 0 ltac:(lia)) as Hw.
      rewrite Z.max_r by (apply wait_of_nonneg; lia).
      rewrite (wait_of_alive (pl !! p)) by lia. by rewrite (wait_of_alive (pl !! modelKey p m)) by lia.
    + rewrite Z.max_r by (apply wait_of_nonneg; lia). by rewrite (wait_of_alive (pl !! p)) by lia.
  - by destruct (given m).
Qed.

(** Operations at clock readings that never run backwards. *)
Inductive timed : Z → list op → Prop :=
| timed_nil now : timed now []
| timed_cons now o now' ops :
    StronglySorted Z.le (now :: clocks_of o ++ [now']) → timed now' ops → timed now (o :: ops).

Fixpoint exec_all (ops : list op) (t : tracker) : list obs :=
  match ops with
  | [] => []
  | o :: ops' => let '(b, t') := exec o t in b :: exec_all ops' t'
  end.
Fixpoint spec_all (ops : list op) (A : entries) : list obs :=
  match ops with
  | [] => []
  | o :: ops' => spec_obs o A :: spec_all ops' (spec_after o A)
  end.

Lemma shows_weaken now now' t A : (now <= now')%Z → shows now t A → shows now' t A.
Proof. intros Hn [? ?]. split; [done|]. by eapply agree_weaken. Qed.

Lemma exec_refines now now' o t A :
  shows now t A → StronglySorted Z.le (now :: clocks_of o ++ [now']) →
  (exec o t).1 = spec_obs o A ∧ shows now' (exec o t).2 (spec_after o A).
Proof.
  intros Hsh Hc. destruct o as [a p w b m n|a p m n1 n2 n3|a p m n1 n2|a p m n1 n2|a p m|a p|];
    cbn [clocks_of app] in Hc; repeat (apply StronglySorted_inv in Hc as [Hc ?]);
    repeat match goal with H : Forall _ (_ :: _) |- _ => apply Forall_cons in H as [? H] end;
    cbn [exec spec_after].
  - split; [done|]. eapply shows_weaken; [|by eapply mark_shows]. done.
  - pose proof (check_spec now a p m n1 n2 n3 t A Hsh) as H'. destruct (isRateLimited _ _ _ _ _ _ _). simpl in *.
    destruct H' as [? ?]; [done..|]. split; [done|]. eapply shows_weaken; [|eassumption]; done.
  - pose proof (reason_spec now a p m n1 n2 t A Hsh) as H'. destruct (getReason _ _ _ _ _ _). simpl in *.
    destruct H' as [? ?]; [done..|]. split; [done|]. eapply shows_weaken; [|eassumption]; done.
  - pose proof (wait_spec now a p m n1 n2 t A Hsh) as H'. destruct (getWaitTime _ _ _ _ _ _). simpl in *.
    destruct H' as [? ?]; [done..|]. split; [done|]. eapply shows_weaken; [|eassumption]; done.
  - split; [done|]. eapply shows_weaken; [|by apply clear_shows]. done.
  - split; [done|]. eapply shows_weaken; [|by apply clearAccount_shows]. done.
  - split; [done|]. eapply shows_weaken; [done|]. destruct Hsh as [Hw _].
    unfold clearAll. apply persist_shows; [done|]. intros k i n _. unfold look. simpl. by rewrite lookup_empty.
Qed.

(** Refinement: while the state file can be written and the clock does not
    run backwards, every sequence of operations of a tracker shows what the
    abstract table of marked and cleared entries shows: expired entries never
    block, a provider-wide entry blocks every model, and neither the cleaning
    of expired entries nor the trip through the file loses or revives one. *)
Theorem tracker_refinement (now : Z) (t : tracker) (A : entries) (ops : list op) :
  shows now t A → timed now ops → exec_all ops t = spec_all ops A.
Proof.
  intros Hsh Ht. revert t A Hsh. induction Ht as [now|now o now' ops Hc Ht IH]; intros t A Hsh; [done|].
  cbn [exec_all spec_all]. destruct (exec_refines now now' o t A Hsh Hc) as [Ho Hs].
  destruct (exec o t) as [b t']. simpl in *. by rewrite Ho, (IH t' (spec_after o A)).
Qed.

Definition demo_tracker : tracker := Tracker ∅ (Disk Absent Absent Absent true).
Definition demo_ops : list op :=
  [OMark (js "a1") (js "openai") QUOTA_EXHAUSTED 500 None 10;
   OMark (js "a1") (js "openai") RATE_LIMIT_SHORT 50 (Some (js "gpt")) 20;
   OCheck (js "a1") (js "openai") (Some (js "other")) 30 30 31;
   OWait (js "a1") (js "openai") (Some (js "gpt")) 69 71;
   OReason (js "a1") (js "openai") (Some (js "gpt")) 71 72;
   OClear (js "a1") (js "openai") None; OCheck (js "a1") (js "openai") None 80 80 80].

Lemma tracker_refinement_witness :
  exec_all demo_ops demo_tracker = spec_all demo_ops (λ _ _, None) ∧
  exec_all demo_ops demo_tracker =
    [Done; Done; Limited true; Wait 439; Why (Some QUOTA_EXHAUSTED); Done; Limited false].
Proof.
  split; [|by vm_compute]. apply (tracker_refinement 0).
  - split; [done|]. intros k i n _. unfold look. by vm_compute.
  - apply timed_cons with 20%Z; [repeat constructor; by vm_compute|].
    apply timed_cons with 30%Z; [repeat constructor; by vm_compute|].
    apply timed_cons with 31%Z; [repeat constructor; by vm_compute|].
    apply timed_cons with 71%Z; [repeat constructor; by vm_compute|].
    apply timed_cons with 72%Z; [repeat constructor; by vm_compute|].
    apply timed_cons with 72%Z; [repeat constructor; by vm_compute|].
    apply timed_cons with 80%Z; [repeat constructor; by vm_compute|].
    constructor.
Defined.

(** ** Daily counters *)

(** Daily counters: an increment returns one more than the count of the
    quota day, that is what later reads of the day return, reads after the
    next reset return zero, and other counters keep their values. *)
Theorem daily_counter (a p a' p' : jsstr) (m m' : option jsstr) (now1 now2 now3 : Z) (t : tracker) :
  writable (store t) = true → (now1 <= now2 <= now3)%Z → getQuotaDayStart now2 = getQuotaDayStart now1 →
  let '(c, t') := incrementDailyFailureCount a p m now1 now2 t in
  c = ((getDailyFailureCount a p m now1 t).1 + 1)%Z ∧
  (getQuotaDayStart now3 = getQuotaDayStart now1 → (getDailyFailureCount a p m now3 t').1 = c) ∧
  ((getNextQuotaReset now1 <= now3)%Z → (getDailyFailureCount a p m now3 t').1 = 0%Z) ∧
  (countKey a' p' m' ≠ countKey a p m →
   (getDailyFailureCount a' p' m' now3 t').1 = (getDailyFailureCount a' p' m' now3 t).1).
Proof.
  intros Hw Hn Hday. unfold incrementDailyFailureCount, getDailyFailureCount.
  pose proof (writable_read (store t)) as Hwr. destruct (readUnifiedState (store t)) as [s d] eqn:E. cbn [snd fst] in *.
  set (counter := match dailyRateLimitCounts s !! countKey a p m with Some _ => _ | None => _ end).
  assert (Hc : lastReset counter = now2) by (unfold counter; by repeat case_match).
  cbn [store]. set (s' := Unified _ _ _ _ _).
  pose proof (seen_write s' d ltac:(congruence)) as Hs. unfold seen in Hs.
  destruct (readUnifiedState (writeUnifiedState s' d)) as [s2 d2]. cbn [fst] in *. subst s2.
  unfold s'. cbn [dailyRateLimitCounts]. rewrite lookup_insert_eq, Hc.
  destruct (quota_day now1) as (Hd1 & Hnext & Hm1). destruct (quota_day now2) as (Hd2 & _).
  split; [unfold counter; by repeat case_match|]. split; [|split].
  - intros E3. rewrite E3, <- Hday. destruct (Z.ltb_spec now2 (getQuotaDayStart now2)); [lia|done].
  - intros H3. destruct (quota_day now3) as (Hd3 & Hn3 & Hm3).
    assert (now2 < getQuotaDayStart now3)%Z; [|by destruct (Z.ltb_spec now2 (getQuotaDayStart now3)); [|lia]].
    destruct (quota_day now2) as (_ & Hn2 & _). unfold ms_per_day in *.
    pose proof (Z.div_mod (getQuotaDayStart now3) 86400000 ltac:(lia)).
    pose proof (Z.div_mod (getQuotaDayStart now1) 86400000 ltac:(lia)). lia.
  - intros Hk. by rewrite lookup_insert_ne by done.
Qed.

Lemma daily_counter_witness :
  (getDailyFailureCount (js "a") (js "p") None 50 (incrementDailyFailureCount (js "a") (js "p") None 40 41 demo_tracker).2).1 = 1%Z
  ∧ writable (store demo_tracker) = true.
Proof.
  pose proof (daily_counter (js "a") (js "p") (js "a") (js "p") None None 40 41 50 demo_tracker eq_refl
    ltac:(lia) eq_refl) as H.
  destruct (incrementDailyFailureCount _ _ _ _ _ _) as [c t'] eqn:E. destruct H as (_ & H & _).
  split; [|reflexivity]. cbn [snd]. rewrite H by reflexivity. vm_compute in E. by injection E as <- _.
Defined.
