(* ===== verification/Health.v ===== *)
(** [HealthScoreTracker] ([account/rotation/health-tracker.ts]).

    Clock readings are arguments, in the order the code makes them.  The
    configuration and the scores are integers, and the recovered points are
    computed exactly, as the floating-point quotient of milliseconds and hours
    gives them for intervals below 2^40 milliseconds. *)

From S2P Require Import Prelude JsString RotationState RateLimits.

Record HealthScoreConfig := Config {
  initial : Z; successReward : Z; rateLimitPenalty : Z; failurePenalty : Z;
  recoveryRatePerHour : Z; minUsable : Z; maxScore : Z }.
Definition DEFAULT_HEALTH_SCORE_CONFIG : HealthScoreConfig := Config 70 1 (-10) (-20) 2 50 100.

(** The object: its map, and the file it shares. *)
Record health := Health { scores : health_map; file_of : disk }.

Definition persist (h : health) : health :=
  let '(s, d) := readUnifiedState (file_of h) in
  Health (scores h)
    (writeUnifiedState
       (Unified (version s) (scores h) (rateLimits s) (dailyRateLimitCounts s) (sameProviderRotationCooldowns s)) d).
Definition load (h : health) : health :=
  let '(s, d) := readUnifiedState (file_of h) in Health (accountHealth s) d.

(** [makeKey]: with a model the key always names the provider. *)
Definition healthKey (provider accountId : jsstr) (m : option jsstr) : jsstr :=
  match given m with
  | Some x => provider ++ colon ++ accountId ++ colon ++ x
  | None => makeKey provider accountId
  end.

Section Tracker.
Context (config : HealthScoreConfig).

Definition recoveredPoints (now : Z) (s : HealthScoreState) : Z :=
  ((now - lastUpdated s) * recoveryRatePerHour config) / 3600000.
Definition score_at (now : Z) (o : option HealthScoreState) : Z :=
  match o with
  | None => initial config
  | Some s => Z.min (maxScore config) (score s + recoveredPoints now s)
  end.

Definition getScore (accountId provider : jsstr) (m : option jsstr) (now : Z) (h : health) : Z * health :=
  let h1 := load h in
  (score_at now (scores h1 !! healthKey provider accountId m), h1).

(** [now] stamps the entry, [now'] is the clock of [getScore]. *)
Definition recordSuccess (accountId provider : jsstr) (m : option jsstr) (now now' : Z) (h : health) : health :=
  let h1 := load h in
  let '(current, h2) := getScore accountId provider m now' h1 in
  persist (Health (<[healthKey provider accountId m :=
    HealthScore (Z.min (maxScore config) (current + successReward config)) now now 0]> (scores h2)) (file_of h2)).

(** [recordRateLimit] and [recordFailure] differ in the penalty. *)
Definition record_penalty (penalty : Z) (accountId provider : jsstr) (m : option jsstr) (now now' : Z) (h : health)
    : health :=
  let h1 := load h in
  let key := healthKey provider accountId m in
  let st := scores h1 !! key in
  let '(current, h2) := getScore accountId provider m now' h1 in
  let newScore := Z.max 0 (current + penalty) in
  let newFailures := (match st with Some s => consecutiveFailures s | None => 0 end + 1)%Z in
  persist (Health (<[key := HealthScore newScore now (match st with Some s => lastSuccess s | None => 0%Z end) newFailures]>
    (scores h2)) (file_of h2)).
Definition recordRateLimit := record_penalty (rateLimitPenalty config).
Definition recordFailure := record_penalty (failurePenalty config).

Definition isUsable (accountId provider : jsstr) (m : option jsstr) (now : Z) (h : health) : bool * health :=
  let '(s, h1) := getScore accountId provider m now h in ((minUsable config <=? s)%Z, h1).

Definition getConsecutiveFailures (accountId provider : jsstr) (m : option jsstr) (h : health) : Z * health :=
  let h1 := load h in
  (match scores h1 !! healthKey provider accountId m with Some s => consecutiveFailures s | None => 0%Z end, h1).

Definition reset (accountId provider : jsstr) (m : option jsstr) (h : health) : health :=
  let h1 := load h in
  persist (Health (delete (healthKey provider accountId m) (scores h1)) (file_of h1)).

Definition getSnapshot (h : health) : gmap jsstr (Z * Z) * health :=
  let h1 := load h in ((λ s, (score s, consecutiveFailures s)) <$> scores h1, h1).

(** ** Steps *)

Inductive event :=
| Success (accountId provider : jsstr) (m : option jsstr) (now now' : Z)
| Limit (accountId provider : jsstr) (m : option jsstr) (now now' : Z)
| Failure (accountId provider : jsstr) (m : option jsstr) (now now' : Z)
| Reset (accountId provider : jsstr) (m : option jsstr).

Definition record (e : event) (h : health) : health :=
  match e with
  | Success a p m now now' => recordSuccess a p m now now' h
  | Limit a p m now now' => recordRateLimit a p m now now' h
  | Failure a p m now now' => recordFailure a p m now now' h
  | Reset a p m => reset a p m h
  end.

(** ** What the file shows *)

Definition on_file (h : health) : health_map := accountHealth (seen (file_of h)).

Lemma load_on_file h :
  scores (load h) = on_file h ∧ on_file (load h) = on_file h ∧ writable (file_of (load h)) = writable (file_of h).
Proof.
  unfold load, on_file. pose proof (seen_read (file_of h)) as Hs. pose proof (writable_read (file_of h)) as Hw.
  unfold seen in *. destruct (readUnifiedState (file_of h)) as [s d]. simpl in *. by rewrite Hs, Hw.
Qed.

Lemma persist_on_file h :
  writable (file_of h) = true → on_file (persist h) = scores h ∧ writable (file_of (persist h)) = true.
Proof.
  intros Hw. unfold persist, on_file. pose proof (writable_read (file_of h)) as Hwr.
  destruct (readUnifiedState (file_of h)) as [s d]. simpl in *.
  rewrite seen_write by congruence. rewrite writable_write. by rewrite Hwr.
Qed.

(** The entry that an event leaves under its key. *)
Definition key_of (e : event) : jsstr :=
  match e with Success a p m _ _ | Limit a p m _ _ | Failure a p m _ _ | Reset a p m => healthKey p a m end.
Definition penalised (penalty now now' : Z) (o : option HealthScoreState) : HealthScoreState :=
  HealthScore (Z.max 0 (score_at now' o + penalty)) now
    (match o with Some s => lastSuccess s | None => 0%Z end)
    (match o with Some s => consecutiveFailures s | None => 0%Z end + 1).
Definition entry_after (e : event) (o : option HealthScoreState) : option HealthScoreState :=
  match e with
  | Success _ _ _ now now' =>
      Some (HealthScore (Z.min (maxScore config) (score_at now' o + successReward config)) now now 0)
  | Limit _ _ _ now now' => Some (penalised (rateLimitPenalty config) now now' o)
  | Failure _ _ _ now now' => Some (penalised (failurePenalty config) now now' o)
  | Reset _ _ _ => None
  end.

Lemma record_penalty_on_file penalty a p m now now' h :
  writable (file_of h) = true →
  on_file (record_penalty penalty a p m now now' h) =
    <[healthKey p a m := penalised penalty now now' (on_file h !! healthKey p a m)]> (on_file h)
  ∧ writable (file_of (record_penalty penalty a p m now now' h)) = true.
Proof.
  intros Hw. unfold record_penalty, getScore. destruct (load_on_file h) as (H1 & H2 & H3).
  destruct (load_on_file (load h)) as (H4 & H5 & H6). rewrite H4, H2, H1.
  match goal with |- on_file (persist ?x) = _ ∧ _ => destruct (persist_on_file x) as [Hp ?] end.
  { cbn [file_of]. by rewrite H6, H3. }
  rewrite Hp. done.
Qed.

(** The other keys keep their entries. *)
Lemma record_on_file e h :
  writable (file_of h) = true →
  on_file (record e h) = partial_alter (λ _, entry_after e (on_file h !! key_of e)) (key_of e) (on_file h)
  ∧ writable (file_of (record e h)) = true.
Proof.
  intros Hw. destruct e as [a p m now now'|a p m now now'|a p m now now'|a p m]; cbn [record key_of entry_after];
    try (by apply record_penalty_on_file).
  - unfold recordSuccess, getScore. destruct (load_on_file h) as (H1 & H2 & H3).
    destruct (load_on_file (load h)) as (H4 & H5 & H6). rewrite H4, H2.
    match goal with |- on_file (persist ?x) = _ ∧ _ => destruct (persist_on_file x) as [Hp ?] end.
    { cbn [file_of]. by rewrite H6, H3. }
    rewrite Hp. done.
  - unfold reset. destruct (load_on_file h) as (H1 & H2 & H3). rewrite H1.
    match goal with |- on_file (persist ?x) = _ ∧ _ => destruct (persist_on_file x) as [Hp ?] end.
    { cbn [file_of]. by rewrite H3. }
    rewrite Hp. done.
Qed.

(** ** The invariant *)

Definition sane : Prop :=
  (0 <= initial config <= maxScore config ∧ 0 <= successReward config ∧ rateLimitPenalty config <= 0 ∧
   failurePenalty config <= 0 ∧ 0 <= recoveryRatePerHour config)%Z.

Definition good (now : Z) (s : HealthScoreState) : Prop :=
  (0 <= score s <= maxScore config ∧ 0 <= consecutiveFailures s ∧ lastUpdated s <= now)%Z.
Definition all_good (now : Z) (h : health) : Prop :=
  writable (file_of h) = true ∧ ∀ k s, on_file h !! k = Some s → good now s.

Lemma score_at_bounds now (o : option HealthScoreState) :
  sane → (∀ s, o = Some s → good now s) → (0 <= score_at now o <= maxScore config)%Z.
Proof.
  intros (? & _ & _ & _ & Hr) Hg. unfold score_at. destruct o as [s|]; [|lia].
  destruct (Hg s eq_refl) as (? & _ & ?). unfold recoveredPoints.
  pose proof (Z.div_pos ((now - lastUpdated s) * recoveryRatePerHour config) 3600000). nia.
Qed.

(** The clocks of an event, not before [t0] and not after [t1]. *)
Definition during (t0 t1 : Z) (e : event) : Prop :=
  match e with
  | Success _ _ _ now now' | Limit _ _ _ now now' | Failure _ _ _ now now' => (t0 <= now <= now' ∧ now' <= t1)%Z
  | Reset _ _ _ => (t0 <= t1)%Z
  end.

Lemma record_good t0 t1 e h : sane → all_good t0 h → during t0 t1 e → all_good t1 (record e h).
Proof.
  intros Hc [Hw Hg] Hd. destruct (record_on_file e h Hw) as [Ho Hw']. split; [done|].
  assert (Hweak : ∀ t s, (t0 <= t)%Z → good t0 s → good t s) by (unfold good; intros; lia).
  assert (H01 : (t0 <= t1)%Z) by (destruct e; simpl in Hd; lia).
  intros k s Hk. rewrite Ho in Hk. destruct (decide (k = key_of e)) as [->|Hne].
  2:{ rewrite lookup_partial_alter_ne in Hk by done. eauto. }
  rewrite lookup_partial_alter_eq in Hk.
  assert (Hb : ∀ now', (t0 <= now')%Z → (0 <= score_at now' (on_file h !! key_of e) <= maxScore config)%Z).
  { intros now' ?. apply score_at_bounds; [done|]. intros s' Hs'. eauto. }
  assert (Hf : (0 <= match on_file h !! key_of e with Some s => consecutiveFailures s | None => 0 end)%Z).
  { destruct (on_file h !! key_of e) as [s'|] eqn:E; [|lia]. apply (Hg _ _ E). }
  destruct Hc as (? & ? & ? & ? & ?).
  destruct e as [a p m now now'|a p m now now'|a p m now now'|a p m]; cbn [key_of] in *; simpl in Hk, Hd; simplify_eq;
    specialize (Hb now' ltac:(lia)); unfold good; simpl; split; lia.
Qed.

Fixpoint record_all (es : list event) (h : health) : health :=
  match es with [] => h | e :: es' => record_all es' (record e h) end.

(** Events in the order of their clocks, between two times. *)
Inductive history : Z → Z → list event → Prop :=
| history_nil t0 t1 : (t0 <= t1)%Z → history t0 t1 []
| history_cons t0 t t1 e es : during t0 t e → history t t1 es → history t0 t1 (e :: es).

Lemma record_all_good t0 t1 es h : sane → all_good t0 h → history t0 t1 es → all_good t1 (record_all es h).
Proof.
  intros Hc Hg Hh. revert h Hg. induction Hh as [t0 t1 Ht|t0 t t1 e es Hd Hh IH]; intros h Hg; simpl.
  - destruct Hg as [? Hg]. split; [done|]. intros k s Hk. specialize (Hg k s Hk). unfold good in *. lia.
  - apply IH. by eapply record_good.
Qed.

Lemma getScore_eq a p m now h : (getScore a p m now h).1 = score_at now (on_file h !! healthKey p a m).
Proof. unfold getScore. simpl. by destruct (load_on_file h) as [-> _]. Qed.

(** Scores stay in range: whatever is recorded, in the order of the clock,
    every score read afterwards lies between zero and the maximum. *)
Theorem health_score_range (t0 t1 : Z) (es : list event) (h : health) (a p : jsstr) (m : option jsstr) (now : Z) :
  sane → all_good t0 h → history t0 t1 es → (t1 <= now)%Z →
  (0 <= (getScore a p m now (record_all es h)).1 <= maxScore config)%Z.
Proof.
  intros Hc Hg Hh Hn. rewrite getScore_eq. apply score_at_bounds; [done|]. intros s Hs.
  destruct (record_all_good t0 t1 es h Hc Hg Hh) as [_ Hg']. specialize (Hg' _ _ Hs). unfold good in *. lia.
Qed.

(** Recovery: whatever was recorded, an account left alone long enough is
    usable again; [wait] milliseconds are long enough when a score of zero
    recovers the usable minimum in them. *)
Theorem health_recovers (t0 t1 : Z) (es : list event) (h : health) (a p : jsstr) (m : option jsstr) (wait now : Z) :
  sane → (minUsable config <= initial config)%Z → (0 <= wait)%Z →
  (minUsable config * 3600000 <= wait * recoveryRatePerHour config)%Z →
  all_good t0 h → history t0 t1 es → (t1 + wait <= now)%Z →
  (isUsable a p m now (record_all es h)).1 = true.
Proof.
  intros Hc Hmin Hw0 Hwait Hg Hh Hn. unfold isUsable.
  pose proof (getScore_eq a p m now (record_all es h)) as Hs.
  destruct (getScore a p m now (record_all es h)) as [s h']. cbn [fst] in *. subst s. apply Z.leb_le.
  destruct (record_all_good t0 t1 es h Hc Hg Hh) as [_ Hg'].
  destruct (on_file (record_all es h) !! healthKey p a m) as [st|] eqn:E; simpl; [|lia].
  destruct (Hg' _ _ E) as (? & _ & ?). destruct Hc as (? & _ & _ & _ & ?). unfold recoveredPoints.
  assert (minUsable config <= (now - lastUpdated st) * recoveryRatePerHour config / 3600000)%Z; [|lia].
  apply Z.div_le_lower_bound; nia.
Qed.

(** Effect of an event: the entry of its account becomes the one of the
    specification (a success clears the failure count, a limit or a failure
    adds one to it and lowers the score to no less than zero, a reset removes
    the entry), and all other entries stay. *)
Theorem health_record_effect (e : event) (h : health) (k : jsstr) :
  writable (file_of h) = true →
  on_file (record e h) !! k =
    if bool_decide (k = key_of e) then entry_after e (on_file h !! k) else on_file h !! k.
Proof.
  intros Hw. destruct (record_on_file e h Hw) as [-> _]. case_bool_decide as E.
  - subst k. by rewrite lookup_partial_alter_eq.
  - by rewrite lookup_partial_alter_ne.
Qed.
End Tracker.

Definition demo_health : health := Health ∅ (Disk Absent Absent Absent true).
Definition demo_events : list event :=
  [Failure (js "a") (js "p") None 10 10; Failure (js "a") (js "p") None 20 21; Limit (js "a") (js "p") None 30 30;
   Failure (js "a") (js "p") None 40 40; Failure (js "a") (js "p") None 50 50].
Notation cfg := DEFAULT_HEALTH_SCORE_CONFIG.

Lemma demo_sane : sane cfg.
Proof. unfold sane. simpl. lia. Qed.
Lemma demo_good : all_good cfg 0 demo_health.
Proof. split; [done|]. intros k s H. by vm_compute in H. Qed.
Lemma demo_history : history 0 60 demo_events.
Proof.
  apply history_cons with 10%Z; [simpl; lia|]. apply history_cons with 25%Z; [simpl; lia|].
  apply history_cons with 30%Z; [simpl; lia|]. apply history_cons with 40%Z; [simpl; lia|].
  apply history_cons with 50%Z; [simpl; lia|]. constructor. lia.
Qed.

Lemma health_score_range_witness :
  (0 <= (getScore cfg (js "a") (js "p") None 60 (record_all cfg demo_events demo_health)).1 <= 100)%Z ∧
  (getScore cfg (js "a") (js "p") None 60 (record_all cfg demo_events demo_health)).1 = 0%Z.
Proof.
  split; [|by vm_compute].
  exact (health_score_range cfg 0 60 demo_events demo_health (js "a") (js "p") None 60 demo_sane demo_good
    demo_history ltac:(lia)).
Defined.

Lemma health_recovers_witness :
  (isUsable cfg (js "a") (js "p") None 60 (record_all cfg demo_events demo_health)).1 = false ∧
  (isUsable cfg (js "a") (js "p") None (60 + 90000000) (record_all cfg demo_events demo_health)).1 = true.
Proof.
  split; [by vm_compute|].
  exact (health_recovers cfg 0 60 demo_events demo_health (js "a") (js "p") None 90000000 (60 + 90000000) demo_sane
    ltac:(simpl; lia) ltac:(lia) ltac:(simpl; lia) demo_good demo_history ltac:(lia)).
Defined.

Lemma health_record_effect_witness :
  on_file (record cfg (Limit (js "a") (js "p") None 10 10) demo_health) !! js "p:a" = Some (HealthScore 60 10 0 1).
Proof. rewrite health_record_effect by reflexivity. by vm_compute. Defined.
