(* ===== verification/Guard.v ===== *)
(** [SameProviderRotationGuard] ([account/rotation/same-provider-rotation-guard.ts])
    and the account selector ([account/rotation/account-selector.ts]).

    The guard is a value without fields: its state is the shared state file.
    Clock readings are arguments, in the order the code makes them. *)

From S2P Require Import Prelude JsString RotationState.

Definition SAME_PROVIDER_ROTATE_COOLDOWN_MS : Z := 5 * 60 * 1000.

Definition guardKey (providerId accountId : jsstr) : jsstr := providerId ++ js ":" ++ accountId.

Notation cooldowns := (gmap jsstr SameProviderRotationCooldownState).

Definition with_cooldowns (s : UnifiedRotationState) (c : cooldowns) : UnifiedRotationState :=
  Unified (version s) (accountHealth s) (rateLimits s) (dailyRateLimitCounts s) c.

Definition cooling (now : Z) (c : SameProviderRotationCooldownState) : bool := (now <? until c)%Z.

(** [clearExpired(state)]: the state without expired entries, and the disk. *)
Definition clearExpiredCooldowns (now : Z) (s : UnifiedRotationState) (d : disk) : UnifiedRotationState * disk :=
  let kept := filter (λ kv, cooling now kv.2 = true) (sameProviderRotationCooldowns s) in
  let s' := with_cooldowns s kept in
  if Nat.eqb (size kept) (size (sameProviderRotationCooldowns s)) then (s', d) else (s', writeUnifiedState s' d).
Definition readCleared (now : Z) (d : disk) : UnifiedRotationState * disk :=
  let '(s, d1) := readUnifiedState d in clearExpiredCooldowns now s d1.

Definition mark (providerId from to model : jsstr) (cooldownMs now1 now2 : Z) (d : disk) : disk :=
  let '(s, d1) := readCleared now1 d in
  writeUnifiedState
    (with_cooldowns s (<[guardKey providerId from := Cooldown (now2 + cooldownMs) now2 from to model]>
                         (sameProviderRotationCooldowns s))) d1.

Definition getCooldownWait (providerId accountId : jsstr) (now1 now2 : Z) (d : disk) : Z * disk :=
  let '(s, d1) := readCleared now1 d in
  (match sameProviderRotationCooldowns s !! guardKey providerId accountId with
   | None => 0
   | Some entry => Z.max 0 (until entry - now2)
   end%Z, d1).

(** The longest wait of a provider's entries; the loop keeps a maximum, so the
    order of the entries does not matter. *)
Definition provider_wait (providerId : jsstr) (now : Z) (c : cooldowns) : Z :=
  map_fold (λ key entry maxWait,
    if startsWith key (providerId ++ js ":") then Z.max maxWait (until entry - now) else maxWait) 0%Z c.
Definition getProviderWaitTime (providerId : jsstr) (now1 now2 : Z) (d : disk) : Z * disk :=
  let '(s, d1) := readCleared now1 d in
  (Z.max 0 (provider_wait providerId now2 (sameProviderRotationCooldowns s)), d1).

Definition isCoolingDown (providerId accountId : jsstr) (now1 now2 : Z) (d : disk) : bool * disk :=
  let '(w, d1) := getCooldownWait providerId accountId now1 now2 d in ((0 <? w)%Z, d1).

Definition guardSnapshot (now1 now2 : Z) (d : disk) : gmap jsstr (SameProviderRotationCooldownState * Z) * disk :=
  let '(s, d1) := readCleared now1 d in
  ((λ e, (e, Z.max 0 (until e - now2))) <$> sameProviderRotationCooldowns s, d1).

Definition clearCooldown (providerId accountId : jsstr) (d : disk) : disk :=
  let '(s, d1) := readUnifiedState d in
  let key := guardKey providerId accountId in
  match sameProviderRotationCooldowns s !! key with
  | None => d1
  | Some _ => writeUnifiedState (with_cooldowns s (delete key (sameProviderRotationCooldowns s))) d1
  end.

Definition clearAllCooldowns (d : disk) : disk :=
  let '(s, d1) := readUnifiedState d in writeUnifiedState (with_cooldowns s ∅) d1.

(** ** Lemmas *)

Definition cooldowns_of (d : disk) : cooldowns := sameProviderRotationCooldowns (seen d).

Lemma readCleared_spec now d :
  writable d = true →
  let '(s, d1) := readCleared now d in
  writable d1 = true ∧
  sameProviderRotationCooldowns s = filter (λ kv, cooling now kv.2 = true) (cooldowns_of d) ∧
  cooldowns_of d1 = sameProviderRotationCooldowns s.
Proof.
  intros Hw. unfold readCleared, cooldowns_of. pose proof (seen_read d) as Hs. pose proof (writable_read d) as Hwr.
  unfold seen in *. destruct (readUnifiedState d) as [s d1]. cbn [fst snd] in *. unfold clearExpiredCooldowns.
  set (kept := filter _ _). destruct (Nat.eqb_spec (size kept) (size (sameProviderRotationCooldowns s))) as [E|E].
  - split; [congruence|]. cbn [sameProviderRotationCooldowns with_cooldowns]. split; [done|]. rewrite Hs.
    symmetry. apply map_subseteq_size_eq; [apply map_filter_subseteq|]. fold kept. by rewrite E.
  - split; [by rewrite writable_write; congruence|]. split; [done|].
    change (sameProviderRotationCooldowns (seen (writeUnifiedState (with_cooldowns s kept) d1)) = kept).
    by rewrite seen_write by congruence.
Qed.

Lemma provider_wait_spec p now c w :
  (0 <= w)%Z →
  (provider_wait p now c <= w ↔
   ∀ k e, c !! k = Some e → startsWith k (p ++ js ":") = true → until e - now <= w)%Z.
Proof.
  intros Hw. unfold provider_wait. induction c as [|k e c Hk Hfirst IH] using map_first_key_ind.
  - rewrite map_fold_empty. split; [|lia]. intros _ k e H. by rewrite lookup_empty in H.
  - rewrite map_fold_insert_first_key by done.
    assert (Hsplit : (∀ k' e', <[k:=e]> c !! k' = Some e' → startsWith k' (p ++ js ":") = true → (until e' - now <= w)%Z) ↔
      (startsWith k (p ++ js ":") = true → (until e - now <= w)%Z) ∧
      (∀ k' e', c !! k' = Some e' → startsWith k' (p ++ js ":") = true → (until e' - now <= w)%Z)).
    { split.
      - intros H. split; [apply H; by rewrite lookup_insert_eq|]. intros k' e' Hk'. apply H.
        rewrite lookup_insert_ne; [done|]. intros ->. congruence.
      - intros [H1 H2] k' e' H. apply lookup_insert_Some in H as [[-> ->]|[? ?]]; eauto. }
    rewrite Hsplit, <- IH. destruct (startsWith k _); [|naive_solver].
    split; [intros; split; lia|]. intros [H1 H2]. specialize (H1 eq_refl). lia.
Qed.

Lemma cooling_lookup now d k :
  filter (λ kv, cooling now kv.2 = true) (cooldowns_of d) !! k =
  match cooldowns_of d !! k with Some e => if cooling now e then Some e else None | None => None end.
Proof.
  rewrite map_lookup_filter. destruct (cooldowns_of d !! k) as [e|]; simpl; [|done].
  unfold guard. case_decide as E; simpl in E; [by rewrite E|]. by apply not_true_is_false in E as ->.
Qed.

Lemma getCooldownWait_spec p a now1 now2 d :
  writable d = true → (now1 <= now2)%Z →
  (getCooldownWait p a now1 now2 d).1 =
    match cooldowns_of d !! guardKey p a with Some e => Z.max 0 (until e - now2) | None => 0%Z end.
Proof.
  intros Hw Hn. unfold getCooldownWait. pose proof (readCleared_spec now1 d Hw) as H.
  destruct (readCleared now1 d) as [s d1]. destruct H as (_ & -> & _). simpl. rewrite cooling_lookup.
  destruct (cooldowns_of d !! _) as [e|]; [|done]. unfold cooling.
  destruct (Z.ltb_spec now1 (until e)); [done|]. lia.
Qed.

Lemma mark_cooldowns p from to mdl cd now1 now2 d :
  writable d = true →
  writable (mark p from to mdl cd now1 now2 d) = true ∧
  cooldowns_of (mark p from to mdl cd now1 now2 d) =
    <[guardKey p from := Cooldown (now2 + cd) now2 from to mdl]> (filter (λ kv, cooling now1 kv.2 = true) (cooldowns_of d)).
Proof.
  intros Hw. unfold mark. pose proof (readCleared_spec now1 d Hw) as H.
  destruct (readCleared now1 d) as [s d1]. destruct H as (Hw1 & Hs & _). rewrite writable_write. split; [done|].
  unfold cooldowns_of at 1. rewrite seen_write by done. simpl. by rewrite Hs.
Qed.

(** The guard: after a rotation away from an account is marked, the account
    cools down exactly until the cooldown ends, and the provider's wait covers
    the rest of it; other accounts cool down as before. *)
Theorem guard_cooldown (p from to mdl p' a' : jsstr) (cd now1 now2 n1 n2 : Z) (d : disk) :
  writable d = true → (now1 <= now2 <= n1)%Z → (n1 <= n2)%Z →
  let d' := mark p from to mdl cd now1 now2 d in
  (isCoolingDown p from n1 n2 d').1 = (n2 <? now2 + cd)%Z ∧
  (now2 + cd - n2 <= (getProviderWaitTime p n1 n2 d').1)%Z ∧
  (guardKey p' a' ≠ guardKey p from → (isCoolingDown p' a' n1 n2 d').1 = (isCoolingDown p' a' n1 n2 d).1).
Proof.
  intros Hw [H1 H2] H3 d'. destruct (mark_cooldowns p from to mdl cd now1 now2 d Hw) as [Hw' Hc]. fold d' in Hw', Hc.
  assert (Hcool : ∀ p a d, writable d = true → (isCoolingDown p a n1 n2 d).1 =
    match cooldowns_of d !! guardKey p a with Some e => (0 <? Z.max 0 (until e - n2))%Z | None => false end).
  { intros q a d0 Hd0. unfold isCoolingDown. pose proof (getCooldownWait_spec q a n1 n2 d0 Hd0 H3) as Hg.
    destruct (getCooldownWait q a n1 n2 d0) as [w d1]. cbn [fst] in *. subst w. by case_match. }
  split; [|split].
  - rewrite Hcool, Hc, lookup_insert_eq by done. cbn [until].
    destruct (Z.ltb_spec 0 (Z.max 0 (now2 + cd - n2))), (Z.ltb_spec n2 (now2 + cd)); lia || done.
  - unfold getProviderWaitTime. pose proof (readCleared_spec n1 d' Hw') as Hr.
    destruct (readCleared n1 d') as [s d1]. destruct Hr as (_ & Hs & _). cbn [fst].
    set (w := provider_wait p n2 _). pose proof (proj1 (provider_wait_spec p n2 (sameProviderRotationCooldowns s) (Z.max 0 w) ltac:(lia)) ltac:(lia)) as Hle.
    destruct (Z.le_gt_cases (now2 + cd) n1); [lia|].
    apply (Hle (guardKey p from) (Cooldown (now2 + cd) now2 from to mdl)).
    + rewrite Hs, cooling_lookup, Hc, lookup_insert_eq. unfold cooling. cbn [until].
      by destruct (Z.ltb_spec n1 (now2 + cd)); [|lia].
    + unfold guardKey. rewrite app_assoc. apply startsWith_app.
  - intros Hk. rewrite !Hcool, Hc, lookup_insert_ne by done. rewrite cooling_lookup.
    destruct (cooldowns_of d !! guardKey p' a') as [e|]; [|done]. unfold cooling.
    destruct (Z.ltb_spec now1 (until e)); [done|]. symmetry. apply Z.ltb_ge. lia.
Qed.

Lemma guard_cooldown_witness :
  let d := Disk Absent Absent Absent true in
  let d' := mark (js "openai") (js "a") (js "b") (js "gpt") SAME_PROVIDER_ROTATE_COOLDOWN_MS 10 10 d in
  (isCoolingDown (js "openai") (js "a") 20 300009 d').1 = true ∧
  (isCoolingDown (js "openai") (js "a") 20 300010 d').1 = false ∧
  (280000 <= (getProviderWaitTime (js "openai") 20 30 d').1)%Z.
Proof.
  intros d d'. pose proof (λ n1 n2, guard_cooldown (js "openai") (js "a") (js "b") (js "gpt") (js "x") (js "y")
    SAME_PROVIDER_ROTATE_COOLDOWN_MS 10 10 n1 n2 d eq_refl) as H.
  split; [|split].
  - destruct (H 20%Z 300009%Z ltac:(lia) ltac:(lia)) as [E _]. exact E.
  - destruct (H 20%Z 300010%Z ltac:(lia) ltac:(lia)) as [E _]. exact E.
  - destruct (H 20%Z 30%Z ltac:(lia) ltac:(lia)) as (_ & E & _). etransitivity; [|exact E]. by vm_compute.
Defined.

(** ** Account selection

    Scores are in ten-thousandths: a point of health counts 20,000 and a
    millisecond since the last use counts one, up to an hour. *)

Record AccountCandidate := Candidate {
  id : jsstr; lastUsed : Z; healthScore : Z; isRateLimited : bool; isCoolingDown_ : bool }.

Definition available (minHealthScore : Z) (acc : AccountCandidate) : bool :=
  negb (isRateLimited acc) && negb (isCoolingDown_ acc) && (minHealthScore <=? healthScore acc)%Z.

Definition lru_cmp (a b : AccountCandidate) : Z :=
  let lruDiff := (lastUsed a - lastUsed b)%Z in
  if (lruDiff =? 0)%Z then (healthScore b - healthScore a)%Z else lruDiff.
Definition sortByLruWithHealth (accounts : list AccountCandidate) (minHealthScore : Z) : list AccountCandidate :=
  sort_by lru_cmp (filter (λ a, available minHealthScore a = true) accounts).

Definition STICKINESS_BONUS : Z := 150 * 10000.
Definition SWITCH_THRESHOLD : Z := 100 * 10000.

Record scored := Scored { s_id : jsstr; baseScore : Z; s_score : Z; isCurrent : bool }.
Definition score_account (current : option jsstr) (now : Z) (acc : AccountCandidate) : scored :=
  let healthComponent := (healthScore acc * 20000)%Z in
  let freshnessComponent := Z.min (now - lastUsed acc) 3600000 in
  let base := Z.max 0 (healthComponent + freshnessComponent) in
  let cur := bool_decide (current = Some (id acc)) in
  Scored (id acc) base (base + (if cur then STICKINESS_BONUS else 0)) cur.

(** [clocks i] is the clock reading for the [i]-th candidate. *)
Definition score_all (current : option jsstr) (clocks : nat → Z) (cs : list AccountCandidate) : list scored :=
  sort_by (λ a b, s_score b - s_score a)%Z (imap (λ i, score_account current (clocks i)) cs).

Definition selectBestAccount (accounts : list AccountCandidate) (current : option jsstr) (minHealthScore : Z)
    (clocks : nat → Z) : option jsstr :=
  let cs := score_all current clocks (filter (λ a, available minHealthScore a = true) accounts) in
  match cs with
  | [] => None
  | best :: _ =>
      match find isCurrent cs with
      | Some cur =>
          if negb (isCurrent best) && (baseScore best - baseScore cur <? SWITCH_THRESHOLD)%Z
          then Some (s_id cur) else Some (s_id best)
      | None => Some (s_id best)
      end
  end.

(** The score with the stickiness bonus. *)
Definition sticky_score (current : option jsstr) (now : Z) (acc : AccountCandidate) : Z :=
  s_score (score_account current now acc).

Lemma score_all_elem current now cs s :
  s ∈ score_all current (λ _, now) cs ↔ ∃ acc, acc ∈ cs ∧ s = score_account current now acc.
Proof.
  unfold score_all. rewrite elem_of_sort_by. change (imap _ cs) with (imap (const (score_account current now)) cs). rewrite imap_const, list_elem_of_fmap. naive_solver.
Qed.

Lemma score_all_head current now cs best rest acc :
  score_all current (λ _, now) cs = best :: rest → acc ∈ cs → (sticky_score current now acc <= s_score best)%Z.
Proof.
  intros E Ha. assert (Hin : score_account current now acc ∈ score_all current (λ _, now) cs)
    by (apply score_all_elem; eauto).
  unfold score_all in E, Hin. apply elem_of_sort_by in Hin.
  assert (Hle : le_by (λ a b, s_score b - s_score a)%Z best (score_account current now acc)).
  { eapply sort_by_head; [|..|exact E|exact Hin]; unfold le_by; intros; lia. }
  unfold le_by in Hle. unfold sticky_score. lia.
Qed.

(** A better score than the current account's outweighs the bonus, which is
    above the switch threshold. *)
Lemma advantage_large current now a c :
  isCurrent (score_account current now a) = false → isCurrent (score_account current now c) = true →
  (s_score (score_account current now c) <= s_score (score_account current now a))%Z →
  (SWITCH_THRESHOLD < baseScore (score_account current now a) - baseScore (score_account current now c))%Z.
Proof. unfold score_account. simpl. intros -> ->. unfold STICKINESS_BONUS, SWITCH_THRESHOLD. lia. Qed.

(** Selection: no account is selected exactly when none is available;
    otherwise the selected one is available and has the highest score with the
    stickiness bonus.  The switch threshold, being below the bonus, never
    decides. *)
Theorem selector_best (accounts : list AccountCandidate) (current : option jsstr) (minHealthScore now : Z) :
  match selectBestAccount accounts current minHealthScore (λ _, now) with
  | None => ∀ acc, acc ∈ accounts → available minHealthScore acc = false
  | Some i => ∃ acc, acc ∈ accounts ∧ available minHealthScore acc = true ∧ id acc = i ∧
      ∀ acc', acc' ∈ accounts → available minHealthScore acc' = true →
        (sticky_score current now acc' <= sticky_score current now acc)%Z
  end.
Proof.
  unfold selectBestAccount. set (cs := filter _ accounts).
  assert (Hcs : ∀ acc, acc ∈ cs ↔ acc ∈ accounts ∧ available minHealthScore acc = true).
  { intros acc. unfold cs. rewrite list_elem_of_filter. tauto. }
  destruct (score_all current (λ _, now) cs) as [|best rest] eqn:E.
  - intros acc Ha. apply not_true_is_false. intros Hav.
    assert (score_account current now acc ∈ score_all current (λ _, now) cs) as Hin
      by (apply score_all_elem; exists acc; split; [by apply Hcs|done]).
    rewrite E in Hin. inversion Hin.
  - assert (Hb : best ∈ score_all current (λ _, now) cs) by (rewrite E; left).
    apply score_all_elem in Hb as (acc & Ha & ->). apply Hcs in Ha as [Ha Hav].
    assert (Hgoal : ∃ acc0, acc0 ∈ accounts ∧ available minHealthScore acc0 = true ∧ id acc0 = s_id (score_account current now acc) ∧
      ∀ acc', acc' ∈ accounts → available minHealthScore acc' = true →
        (sticky_score current now acc' <= sticky_score current now acc0)%Z) by
      (exists acc; repeat split; [done..|]; intros acc' ? ?; eapply score_all_head; [exact E|by apply Hcs]).
    rewrite <- E. destruct (find isCurrent _) as [cur|] eqn:Ef; [|exact Hgoal].
    apply find_Some in Ef as [Hcur Hin]. apply score_all_elem in Hin as (c & Hc & ->).
    destruct (isCurrent (score_account current now acc)) eqn:Eb; [exact Hgoal|].
    pose proof (score_all_head _ _ _ _ _ _ E Hc) as Hle.
    pose proof (advantage_large current now acc c Eb Hcur Hle).
    destruct (Z.ltb_spec (baseScore (score_account current now acc) - baseScore (score_account current now c)) SWITCH_THRESHOLD);
      [lia|exact Hgoal].
Qed.

Example selector_sticky :
  selectBestAccount [Candidate (js "a") 0 70 false false; Candidate (js "b") 0 80 false false] (Some (js "a")) 50 (λ _, 1000%Z)
  = Some (js "a").
Proof. by vm_compute. Qed.
