(* ===== verification/Rotation3d.v ===== *)
(** Rotation in the space of provider, account and model
    ([account/rotation3d.ts]).

    Scores are in thousandths, so that the penalty [waitTimeMs / 1000] is
    exact; the code adds the same numbers in floating point, where the sums of
    terms below 2^40 differ from the exact ones by less than a thousandth.
    Objects used as records of providers, accounts and models are lists of
    entries in the order of [Object.entries]. *)

From S2P Require Import Prelude JsString Wildcard RotationState RateLimits Health Guard.

(** ** Vectors, candidates and configuration *)

Record ModelVector := Vector { providerId : jsstr; accountId : jsstr; modelID : jsstr }.
#[export] Instance ModelVector_eq_dec : EqDecision ModelVector.
Proof. solve_decision. Defined.

Inductive candidate_reason :=
| same_model_diff_account | diff_model_same_account | diff_provider | fallback | capability | task.

Record capability_set := Caps {
  image : bool; audio : bool; video : bool; pdf : bool; reasoning : bool; coding : bool; longContext : bool }.

(** The capabilities of an unknown model are the empty object, [None]. *)
Record FallbackCandidate := Fallback {
  vector : ModelVector;
  healthScore : Z;
  limited : bool;
  waitTimeMs : Z;
  priority : Z;
  why : candidate_reason;
  from : option ModelVector;
  capabilities : option capability_set
}.

Inductive RotationPurpose :=
| for_coding | for_reasoning | for_image | for_docs | for_audio | for_video | for_long_context | generic.

Inductive FallbackStrategy := account_first | model_first | provider_first | any_available.

Record RotationPriorityRule := Rule {
  rule_provider : jsstr; rule_account : option jsstr; rule_model : option jsstr;
  providerTokens : option (list jsstr); accountTokens : option (list jsstr); modelTokens : option (list jsstr) }.

(** [providerPriorityWeight] is in thousandths. *)
Record Rotation3DConfig := Config3D {
  strategy : FallbackStrategy;
  allowSameProviderFallback : bool;
  allowTierDowngrade : bool;
  maxCandidates : Z;
  minHealthScore : Z;
  providerPriority : list jsstr;
  providerPriorityWeight : Z;
  priorityRules : option (list RotationPriorityRule)
}.

Definition DEFAULT_ROTATION3D_CONFIG : Rotation3DConfig :=
  Config3D account_first true true 50 30 [] (120 * 1000) None.

(** [Partial<Rotation3DConfig>]: the fields that are present. *)
Record PartialConfig := Partial3D {
  p_strategy : option FallbackStrategy;
  p_allowSameProviderFallback : option bool;
  p_allowTierDowngrade : option bool;
  p_maxCandidates : option Z;
  p_minHealthScore : option Z;
  p_providerPriority : option (list jsstr);
  p_providerPriorityWeight : option Z;
  p_priorityRules : option (option (list RotationPriorityRule))
}.
Definition no_overrides : PartialConfig := Partial3D None None None None None None None None.

(** [{...config, ...overrides}]. *)
Definition override (config : Rotation3DConfig) (o : PartialConfig) : Rotation3DConfig :=
  Config3D (default (strategy config) (p_strategy o))
    (default (allowSameProviderFallback config) (p_allowSameProviderFallback o))
    (default (allowTierDowngrade config) (p_allowTierDowngrade o))
    (default (maxCandidates config) (p_maxCandidates o))
    (default (minHealthScore config) (p_minHealthScore o))
    (default (providerPriority config) (p_providerPriority o))
    (default (providerPriorityWeight config) (p_providerPriorityWeight o))
    (default (priorityRules config) (p_priorityRules o)).

Definition ROTATION_POLICY_CACHE_TTL_MS : Z := 10000.
Record policy_cache := PolicyCache { cached_policy : option PartialConfig; cached_at : Z }.

(** [resolveRotation3DConfig]: [load] is what reading the instruction files
    gives, when they are read. *)
Definition resolveRotation3DConfig (load : option PartialConfig) (overrides : PartialConfig) (now : Z)
    (cache : policy_cache) : Rotation3DConfig * policy_cache :=
  let cache' :=
    match cached_policy cache with
    | Some _ => if (ROTATION_POLICY_CACHE_TTL_MS <? now - cached_at cache)%Z then PolicyCache load now else cache
    | None => PolicyCache load now
    end in
  (override (override DEFAULT_ROTATION3D_CONFIG (default no_overrides (cached_policy cache'))) overrides, cache').

Definition vectorKey (v : ModelVector) : jsstr :=
  providerId v ++ js ":" ++ accountId v ++ js ":" ++ modelID v.

Definition isVectorRateLimited (v : ModelVector) (n1 n2 n3 : Z) (t : tracker) : bool * tracker :=
  RateLimits.isRateLimited (accountId v) (providerId v) (Some (modelID v)) n1 n2 n3 t.
Definition getVectorWaitTime (v : ModelVector) (n1 n2 : Z) (t : tracker) : Z * tracker :=
  getWaitTime (accountId v) (providerId v) (Some (modelID v)) n1 n2 t.

(** ** Quotas *)

Definition WHAM_USAGE_FAMILIES : list jsstr := [js "openai"; js "codex"].

Record usage_quota := Quota { hourlyRemaining : Z; weeklyRemaining : Z }.

(** [evaluateWhamUsageQuota]: whether the quota is exhausted, and the quota. *)
Definition evaluateWhamUsageQuota (provider account : jsstr) (quotas : jsstr → option usage_quota)
    : bool * option usage_quota :=
  if negb (bool_decide (provider ∈ WHAM_USAGE_FAMILIES)) then (false, None) else
  match quotas account with
  | None => (false, None)
  | Some q => ((hourlyRemaining q <=? 0)%Z || (weeklyRemaining q <=? 0)%Z, Some q)
  end.

(** ** Scores *)

(** [normalizeTokens]: runs of other characters separate the tokens. *)
Definition is_token_unit (c : N) : bool := (((97 <=? c) && (c <=? 122)) || is_digit c)%N.
Fixpoint replace_runs (inside : bool) (s : jsstr) : jsstr :=
  match s with
  | [] => []
  | c :: s' =>
      if is_token_unit c then c :: replace_runs false s'
      else if inside then replace_runs true s' else 32%N :: replace_runs true s'
  end.
Definition normalizeTokens (value : jsstr) : list jsstr :=
  filter (λ t, t ≠ []) (split_on 32 (trim (replace_runs false (toLowerCase value)))).

Definition all_in (tokens ofs : list jsstr) : bool := forallb (λ t, bool_decide (t ∈ ofs)) tokens.

(** The tokens a rule asks for: the given ones, or those of its text. *)
Definition rule_providerTokens (r : RotationPriorityRule) : list jsstr :=
  match providerTokens r with Some ts => ts | None => normalizeTokens (rule_provider r) end.
Definition asked (tokens : option (list jsstr)) (text : option jsstr) : option (list jsstr) :=
  match tokens with Some ts => Some ts | None => normalizeTokens <$> given text end.
Definition rule_matches (r : RotationPriorityRule) (v : ModelVector) : bool :=
  all_in (rule_providerTokens r) (normalizeTokens (providerId v)) &&
  match asked (accountTokens r) (rule_account r) with
  | Some ts => all_in ts (normalizeTokens (accountId v)) | None => true end &&
  match asked (modelTokens r) (rule_model r) with
  | Some ts => all_in ts (normalizeTokens (modelID v)) | None => true end.
Definition specificity (r : RotationPriorityRule) : Z :=
  (if asked (accountTokens r) (rule_account r) then 1 else 0) +
  (if asked (modelTokens r) (rule_model r) then 1 else 0).

(** The loop over the rules: the first that matches counts; [left] is
    [priorityRules.length - i]. *)
Fixpoint rules_score (left : Z) (rules : list RotationPriorityRule) (v : ModelVector) : Z :=
  match rules with
  | [] => 0
  | r :: rest =>
      if rule_matches r v then left * 1000 * 1000 + specificity r * 250 * 1000
      else rules_score (left - 1) rest v
  end.

Definition purposeMatch (purpose : RotationPurpose) (caps : option capability_set) : bool :=
  match caps with
  | None => false
  | Some caps =>
      match purpose with
      | generic => false
      | for_coding => coding caps
      | for_reasoning => reasoning caps
      | for_image => image caps
      | for_docs => longContext caps || pdf caps
      | for_long_context => longContext caps
      | for_audio => audio caps
      | for_video => video caps
      end
  end.

Definition dimension_score (st : FallbackStrategy) (isSameProvider isSameAccount isSameModel : bool) : Z :=
  match st with
  | account_first =>
      if isSameModel && negb isSameAccount && isSameProvider then 300
      else if isSameProvider && negb isSameModel then 200
      else if negb isSameProvider then 100 else 0
  | model_first =>
      if negb isSameModel && isSameAccount && isSameProvider then 300
      else if isSameProvider && negb isSameAccount then 200
      else if negb isSameProvider then 100 else 0
  | provider_first =>
      if negb isSameProvider then 300
      else if isSameProvider && negb isSameAccount then 200
      else if isSameProvider && negb isSameModel then 100 else 0
  | any_available => 0
  end.

(** The rank of a provider in the priority list, from its length down to one. *)
Definition provider_rank (provider : jsstr) (ps : list jsstr) : Z :=
  match findIndex (λ p, bool_decide (p = provider)) ps with
  | Some i => Z.of_nat (length ps) - Z.of_nat i
  | None => 0
  end.
Definition provider_priority_score (config : Rotation3DConfig) (provider : jsstr) : Z :=
  if (0 <? Z.of_nat (length (providerPriority config)))%Z && (0 <? providerPriorityWeight config)%Z
  then provider_rank provider (providerPriority config) * providerPriorityWeight config else 0.

Definition scoreCandidateByStrategy (c : FallbackCandidate) (current : ModelVector) (config : Rotation3DConfig)
    (purpose : RotationPurpose) : Z :=
  let v := vector c in
  let isSameProvider := bool_decide (providerId v = providerId current) in
  let isSameAccount := bool_decide (accountId v = accountId current) in
  let isSameModel := bool_decide (modelID v = modelID current) in
  healthScore c * 1000
  + (if isSameProvider && negb isSameAccount then 1000 * 1000 else 0)
  + dimension_score (strategy config) isSameProvider isSameAccount isSameModel * 1000
  + (if purposeMatch purpose (capabilities c) then 500 * 1000 else 0)
  - waitTimeMs c
  + provider_priority_score config (providerId v)
  + match priorityRules config with
    | Some rules => rules_score (Z.of_nat (length rules)) rules v
    | None => 0
    end.

(** ** Selection *)

(** The test of the filter; [tried] is [triedKeys], empty when it is absent. *)
Definition eligible (current : ModelVector) (config : Rotation3DConfig) (tried : gset jsstr) (c : FallbackCandidate)
    : bool :=
  let v := vector c in
  if bool_decide (vectorKey v ∈ tried) then false else
  let isSameProvider := bool_decide (providerId v = providerId current) in
  let meetsHealth := if isSameProvider then (minHealthScore config <=? healthScore c)%Z else true in
  let isExactCurrent :=
    isSameProvider && bool_decide (accountId v = accountId current) && bool_decide (modelID v = modelID current) in
  let isSameProviderRotateCandidate :=
    isSameProvider && negb isExactCurrent &&
    (negb (bool_decide (accountId v = accountId current)) || negb (bool_decide (modelID v = modelID current))) in
  if negb (allowSameProviderFallback config) && isSameProviderRotateCandidate then false
  else negb (limited c) && meetsHealth && negb isExactCurrent.

(** [xs.slice(0, n)]. *)
Definition slice0 {A} (n : Z) (xs : list A) : list A :=
  if (n <? 0)%Z then take (length xs - Z.to_nat (- n)) xs else take (Z.to_nat n) xs.

Definition with_priority (p : Z) (c : FallbackCandidate) : FallbackCandidate :=
  Fallback (vector c) (healthScore c) (limited c) (waitTimeMs c) p (why c) (from c) (capabilities c).
Definition with_from (v : ModelVector) (c : FallbackCandidate) : FallbackCandidate :=
  Fallback (vector c) (healthScore c) (limited c) (waitTimeMs c) (priority c) (why c) (Some v) (capabilities c).

Definition by_priority (a b : FallbackCandidate) : Z := priority b - priority a.

(** The candidates with their scores, best first. *)
Definition scored_list (current : ModelVector) (config : Rotation3DConfig) (purpose : RotationPurpose)
    (cs : list FallbackCandidate) : list FallbackCandidate :=
  sort_by by_priority (map (λ c, with_priority (scoreCandidateByStrategy c current config purpose) c) cs).

(** [selectBestFallback], after the guard has been read. *)
Definition choose (candidates : list FallbackCandidate) (current : ModelVector) (config : Rotation3DConfig)
    (tried : gset jsstr) (purpose : RotationPurpose) : option FallbackCandidate :=
  let available := filter (λ c, eligible current config tried c = true) candidates in
  match available with
  | [] => None
  | _ =>
      match slice0 (maxCandidates config) (scored_list current config purpose available) with
      | best :: _ => Some (with_from current best)
      | [] => None
      end
  end.

(** [selectBestFallback]: the wait of the guard is only logged, but reading it
    clears expired cooldowns in the state file. *)
Definition selectBestFallback (candidates : list FallbackCandidate) (current : ModelVector) (config : Rotation3DConfig)
    (tried : gset jsstr) (purpose : RotationPurpose) (n1 n2 : Z) (d : disk) : option FallbackCandidate * disk :=
  let '(_, d1) := getProviderWaitTime (providerId current) n1 n2 d in
  (choose candidates current config tried purpose, d1).

(** ** What candidates are built from

    The answers of the provider registry, the account store, the quota cache
    and the model preferences, as data: [model_json] is read twice. *)

Record ModelInfo := Model {
  m_id : jsstr;
  modalities_input : option (list jsstr);
  m_reasoning : bool;
  limit_context : Z;
  deprecated : bool;
  cost_input : Z; cost_output : Z }.
Notation ProviderInfo := (option (list (jsstr * ModelInfo))).

Record Favorite := Fav { fav_provider : jsstr; fav_model : jsstr; fav_tags : list jsstr }.
Record model_file := ModelFile {
  favorite : list Favorite; hidden : list (jsstr * jsstr); hiddenProviders : list jsstr }.
Definition no_preferences : model_file := ModelFile [] [] [].

Record registry := Registry {
  providers : list (jsstr * ProviderInfo);
  quotas : jsstr → option usage_quota;
  model_json : model_file;
  model_json_again : model_file;
  known_families : list jsstr;
  accounts : jsstr → list jsstr;
  getActive : jsstr → option jsstr }.

(** [extractCapabilities]. *)
Definition extractCapabilities (m : option ModelInfo) : option capability_set :=
  match m with
  | None => None
  | Some m =>
      let input := default [] (modalities_input m) in
      let id := toLowerCase (m_id m) in
      Some (Caps (bool_decide (js "image" ∈ input)) (bool_decide (js "audio" ∈ input))
        (bool_decide (js "video" ∈ input)) (bool_decide (js "pdf" ∈ input))
        (m_reasoning m || includes id (js "deepseek-r") || includes id (js "o1") || includes id (js "o3"))
        (includes id (js "codex") || includes id (js "coder") || includes id (js "coding"))
        (128000 <=? limit_context m)%Z)
  end.

(** A manual tag sets the capability of its name, if there is one. *)
Definition apply_tag (caps : capability_set) (tag : jsstr) : capability_set :=
  let named name := bool_decide (tag = js name) in
  Caps (image caps || named "image"%string) (audio caps || named "audio"%string) (video caps || named "video"%string)
    (pdf caps || named "pdf"%string) (reasoning caps || named "reasoning"%string) (coding caps || named "coding"%string)
    (longContext caps || named "longContext"%string).

(** [Object] lookups; a registry has one entry for each key. *)
Definition entry {A} (k : jsstr) (es : list (jsstr * A)) : option A :=
  snd <$> find (λ e, bool_decide (e.1 = k)) es.

(** [new Set(xs)], in insertion order. *)
Fixpoint set_from (seen : gset jsstr) (xs : list jsstr) : list jsstr :=
  match xs with
  | [] => []
  | x :: xs' => if bool_decide (x ∈ seen) then set_from seen xs' else x :: set_from ({[x]} ∪ seen) xs'
  end.
Definition new_set (xs : list jsstr) : list jsstr := set_from ∅ xs.

(** [Account.resolveFamilyFromKnown]. *)
Definition line_terminator (c : N) : bool := ((c =? 10) || (c =? 13) || (c =? 8232) || (c =? 8233))%N.
(** [/^(.+)-(api|subscription)-/]: the longest prefix first. *)
Fixpoint account_prefix (n : nat) (s : jsstr) : option jsstr :=
  match n with
  | O => None
  | S n' =>
      if negb (existsb line_terminator (take n s)) &&
         (startsWith (drop n s) (js "-api-") || startsWith (drop n s) (js "-subscription-"))
      then Some (take n s) else account_prefix n' s
  end.
Definition longer_first (a b : jsstr) : Z := Z.of_nat (length b) - Z.of_nat (length a).
Definition resolveFamilyFromKnown (provider : jsstr) (known : list jsstr) : option jsstr :=
  if bool_decide (provider = []) then None else
  let unique := new_set (filter (λ f, f ≠ []) known) in
  if bool_decide (provider ∈ unique) then Some provider else
  let by_prefix := find (λ f, startsWith provider (f ++ js "-")) (sort_by longer_first unique) in
  match account_prefix (length provider) provider with
  | Some f => if bool_decide (f ∈ unique) then Some f else by_prefix
  | None => by_prefix
  end.

(** [Provider.sort]. *)
Definition sort_priority : list jsstr := [js "gpt-5"; js "claude-sonnet-4"; js "big-pickle"; js "gemini-3-pro"].
Definition priority_index (m : ModelInfo) : Z :=
  match findIndex (λ f, includes (m_id m) f) sort_priority with Some i => Z.of_nat i | None => -1 end.
Definition latest_key (m : ModelInfo) : Z := if includes (m_id m) (js "latest") then 0 else 1.
Definition model_cmp (a b : ModelInfo) : Z :=
  if negb (priority_index a =? priority_index b)%Z then priority_index b - priority_index a
  else if negb (latest_key a =? latest_key b)%Z then latest_key a - latest_key b
  else match str_compare (m_id a) (m_id b) with Lt => 1 | Eq => 0 | Gt => -1 end.

(** ** The steps *)

Record request := Request { q_vector : ModelVector; q_why : candidate_reason; q_tags : list jsstr }.

Section Build.
Context (reg : registry) (current : ModelVector).

Definition slash (p m : jsstr) : jsstr := p ++ js "/" ++ m.
Definition isHidden (v : ModelVector) : bool :=
  bool_decide (providerId v ∈ hiddenProviders (model_json reg)) ||
  bool_decide (slash (providerId v) (modelID v) ∈ map (λ h, slash h.1 h.2) (hidden (model_json reg))).
Definition resolveFamily (provider : jsstr) : option jsstr := resolveFamilyFromKnown provider (known_families reg).

(** A candidate is pushed unless it is hidden. *)
Definition push (v : ModelVector) (w : candidate_reason) (tags : list jsstr) : list request :=
  if isHidden v then [] else [Request v w tags].

Definition step1 : list request :=
  match resolveFamily (providerId current) with
  | None => []
  | Some family =>
      flat_map (λ a, if bool_decide (a = accountId current) then []
                     else push (Vector (providerId current) a (modelID current)) same_model_diff_account [])
        (accounts reg family)
  end.

Definition allowedModels : list jsstr :=
  new_set (map (λ f, slash (fav_provider f) (fav_model f)) (favorite (model_json reg))).

(** [const [providerId, modelId] = fav.split("/")]. *)
Definition step2_one (fav : jsstr) : list request :=
  match split_on 47 fav with
  | p :: m :: _ =>
      if negb (bool_decide (p = providerId current)) then []
      else if bool_decide (m = modelID current) then []
      else push (Vector (providerId current) (accountId current) m) diff_model_same_account []
  | _ => []
  end.
Definition step2 : list request := flat_map step2_one allowedModels.

Definition step3_one (f : Favorite) : list request :=
  if bool_decide (fav_provider f = []) then [] else
  if bool_decide (fav_provider f ∈ hiddenProviders (model_json_again reg)) then [] else
  if bool_decide (slash (fav_provider f) (fav_model f) ∈ map (λ h, slash h.1 h.2) (hidden (model_json_again reg)))
  then [] else
  if bool_decide (fav_provider f = providerId current) && bool_decide (fav_model f = modelID current) then [] else
  match resolveFamily (fav_provider f) with
  | None => []
  | Some family =>
      flat_map (λ a, push (Vector (fav_provider f) a (fav_model f))
          (if bool_decide (fav_provider f = providerId current) then diff_model_same_account else diff_provider)
          (fav_tags f))
        (accounts reg family)
  end.
Definition step3 : list request := flat_map step3_one (favorite (model_json_again reg)).

Definition CROSS_PROVIDER_MODELS_PER_PROVIDER : nat := 3.
Definition step3b_models (models : list ModelInfo) : list ModelInfo :=
  take CROSS_PROVIDER_MODELS_PER_PROVIDER (filter (λ m, deprecated m = false) (sort_by model_cmp models)).
Definition step3b_one (p : jsstr * ProviderInfo) : list request :=
  if bool_decide (p.1 = []) || bool_decide (p.1 = providerId current) then [] else
  if bool_decide (p.1 ∈ hiddenProviders (model_json reg)) then [] else
  match resolveFamily p.1 with
  | None => []
  | Some family =>
      flat_map (λ m, flat_map (λ a, push (Vector p.1 a (m_id m)) diff_provider []) (accounts reg family))
        (step3b_models (map snd (default [] p.2)))
  end.
Definition step3b : list request := flat_map step3b_one (providers reg).

Definition opencode_account : jsstr :=
  match resolveFamily (js "opencode") with
  | None => js "public"
  | Some family => match given (getActive reg family) with Some a => a | None => js "public" end
  end.
Definition step4_one (m : jsstr * ModelInfo) : list request :=
  if (0 <? cost_input m.2)%Z || (0 <? cost_output m.2)%Z then [] else
  let v := Vector (js "opencode") opencode_account m.1 in
  if isHidden v then [] else
  if bool_decide (v = current) then [] else [Request v fallback []].
Definition step4 : list request :=
  match entry (js "opencode") (providers reg) with
  | Some (Some models) => flat_map step4_one models
  | _ => []
  end.

Definition requests : list request := step1 ++ step2 ++ step3 ++ step3b ++ step4.

(** ** Enrichment

    The trackers: their maps, and the state file they share. *)

Record rotation := Rotation { r_limits : rate_limits; r_scores : health_map; r_disk : disk }.

Definition on_limits {A} (f : tracker → A * tracker) (r : rotation) : A * rotation :=
  let '(a, t) := f (Tracker (r_limits r) (r_disk r)) in (a, Rotation (limits t) (r_scores r) (store t)).
Definition on_health {A} (f : health → A * health) (r : rotation) : A * rotation :=
  let '(a, h) := f (Health (r_scores r) (r_disk r)) in (a, Rotation (r_limits r) (scores h) (file_of h)).

Definition model_info (v : ModelVector) : option ModelInfo :=
  match entry (providerId v) (providers reg) with Some (Some models) => entry (modelID v) models | _ => None end.

Section Clock.
(** The clock: reading [k] is [clock k]; a candidate takes six. *)
Context (clock : nat → Z).

Definition enrich (k : nat) (q : request) (r : rotation) : FallbackCandidate * rotation :=
  let v := q_vector q in
  let '(isQuotaLimited, _) := evaluateWhamUsageQuota (providerId v) (accountId v) (quotas reg) in
  let '(baseWaitTime, r1) := on_limits (getVectorWaitTime v (clock k) (clock (k + 1))) r in
  let '(score, r2) :=
    on_health (getScore DEFAULT_HEALTH_SCORE_CONFIG (accountId v) (providerId v) None (clock (k + 2))) r1 in
  let '(rateLimited, r3) := on_limits (isVectorRateLimited v (clock (k + 3)) (clock (k + 4)) (clock (k + 5))) r2 in
  let caps := (λ c, foldl apply_tag c (q_tags q)) <$> extractCapabilities (model_info v) in
  (Fallback v score (rateLimited || isQuotaLimited) baseWaitTime 0 (q_why q) None caps, r3).

Fixpoint enrich_all (k : nat) (qs : list request) (r : rotation) : list FallbackCandidate * rotation :=
  match qs with
  | [] => ([], r)
  | q :: qs' =>
      let '(c, r1) := enrich k q r in
      let '(cs, r2) := enrich_all (k + 6) qs' r1 in (c :: cs, r2)
  end.

Fixpoint unique_from (seen : gset jsstr) (cs : list FallbackCandidate) : list FallbackCandidate :=
  match cs with
  | [] => []
  | c :: cs' =>
      let key := vectorKey (vector c) in
      if bool_decide (key ∈ seen) then unique_from seen cs' else c :: unique_from ({[key]} ∪ seen) cs'
  end.

Definition buildFallbackCandidates (r : rotation) : list FallbackCandidate * rotation :=
  let '(cs, r1) := enrich_all 0 requests r in (unique_from ∅ cs, r1).
End Clock.

(** [findFallback]: [n1] is the clock for the policy cache, [n2] and [n3] are
    those of the guard. *)
Definition findFallback (clock : nat → Z) (load : option PartialConfig) (overrides : PartialConfig)
    (purpose : RotationPurpose) (tried : gset jsstr) (n1 n2 n3 : Z) (cache : policy_cache) (r : rotation)
    : option FallbackCandidate * policy_cache * rotation :=
  let '(config, cache') := resolveRotation3DConfig load overrides n1 cache in
  let '(cs, r1) := buildFallbackCandidates clock r in
  let '(best, d) := selectBestFallback cs current config tried purpose n2 n3 (r_disk r1) in
  (best, cache', Rotation (r_limits r1) (r_scores r1) d).

(** [getNextAvailableVector]: [c1], [c2] and [c3] are the clocks of the check. *)
Definition getNextAvailableVector (c1 c2 c3 : Z) (clock : nat → Z) (load : option PartialConfig)
    (overrides : PartialConfig) (n1 n2 n3 : Z) (cache : policy_cache) (r : rotation)
    : option ModelVector * policy_cache * rotation :=
  let '(lim, r1) := on_limits (isVectorRateLimited current c1 c2 c3) r in
  if negb lim then (Some current, cache, r1) else
  let '(best, cache', r2) := findFallback clock load overrides generic ∅ n1 n2 n3 cache r1 in
  (vector <$> best, cache', r2).
End Build.

Definition demo_model (i : string) : ModelInfo := Model (js i) None false 200000 false 0 0.
Definition demo_registry : registry :=
  Registry
    [(js "openai", Some [(js "gpt-5", demo_model "gpt-5")]);
     (js "anthropic", Some [(js "claude-sonnet-4", demo_model "claude-sonnet-4")])]
    (λ _, None)
    (ModelFile [Fav (js "openai") (js "org/mini") []] [] [])
    (ModelFile [Fav (js "openai") (js "org/mini") []] [] [])
    [js "openai"; js "anthropic"]
    (λ f, if bool_decide (f = js "openai") then [js "a"; js "b"] else [js "c"])
    (λ _, None).
Definition demo_current : ModelVector := Vector (js "openai") (js "a") (js "gpt-5").
Definition demo_rotation : rotation := Rotation ∅ ∅ (Disk Absent Absent Absent true).

Example demo_candidates :
  map vector (buildFallbackCandidates demo_registry demo_current (λ _, 100%Z) demo_rotation).1 =
  [Vector (js "openai") (js "b") (js "gpt-5"); Vector (js "openai") (js "a") (js "org");
   Vector (js "openai") (js "a") (js "org/mini"); Vector (js "openai") (js "b") (js "org/mini");
   Vector (js "anthropic") (js "c") (js "claude-sonnet-4")].
Proof. by vm_compute. Qed.

(** ** Selection is optimal *)

Lemma slice0_head {A} n (xs : list A) : (1 <= n)%Z → head (slice0 n xs) = head xs.
Proof.
  intros Hn. unfold slice0. destruct (Z.ltb_spec n 0); [lia|].
  destruct (Z.to_nat n) eqn:E; [lia|]. by destruct xs.
Qed.

Lemma scored_list_elem current config purpose cs b :
  b ∈ scored_list current config purpose cs ↔
  ∃ c, c ∈ cs ∧ b = with_priority (scoreCandidateByStrategy c current config purpose) c.
Proof. unfold scored_list. rewrite elem_of_sort_by, list_elem_of_fmap. naive_solver. Qed.

Lemma scored_list_best current config purpose cs b rest c :
  scored_list current config purpose cs = b :: rest → c ∈ cs →
  (scoreCandidateByStrategy c current config purpose <= priority b)%Z.
Proof.
  intros E Hc.
  assert (Hin : with_priority (scoreCandidateByStrategy c current config purpose) c ∈ b :: rest)
    by (rewrite <- E; apply scored_list_elem; eauto).
  rewrite <- E in Hin. unfold scored_list in E, Hin. apply elem_of_sort_by in Hin.
  assert (Hle : le_by by_priority b (with_priority (scoreCandidateByStrategy c current config purpose) c)).
  { eapply sort_by_head; [|..|exact E|exact Hin]; unfold le_by, by_priority; intros; lia. }
  unfold le_by, by_priority in Hle. simpl in Hle. lia.
Qed.

(** What a selection promises of its result. *)
Definition best_of (candidates : list FallbackCandidate) (current : ModelVector) (config : Rotation3DConfig)
    (tried : gset jsstr) (purpose : RotationPurpose) (o : option FallbackCandidate) : Prop :=
  match o with
  | None => ∀ c, c ∈ candidates → eligible current config tried c = false
  | Some b => ∃ c, c ∈ candidates ∧ eligible current config tried c = true ∧
      b = with_from current (with_priority (scoreCandidateByStrategy c current config purpose) c) ∧
      ∀ c', c' ∈ candidates → eligible current config tried c' = true →
        (scoreCandidateByStrategy c' current config purpose <= scoreCandidateByStrategy c current config purpose)%Z
  end.

Lemma choose_best candidates current config tried purpose :
  (1 <= maxCandidates config)%Z →
  best_of candidates current config tried purpose (choose candidates current config tried purpose).
Proof.
  intros Hm. unfold choose, best_of. cbv zeta.
  destruct (filter _ candidates) as [|a av] eqn:Ef.
  - intros c Hc. destruct (eligible current config tried c) eqn:E; [|done].
    assert (Hin : c ∈ filter (λ c, eligible current config tried c = true) candidates)
      by (apply list_elem_of_filter; done).
    rewrite Ef in Hin. no_member.
  - pose proof (slice0_head _ (scored_list current config purpose (a :: av)) Hm) as Hh.
    destruct (scored_list current config purpose (a :: av)) as [|b' rest'] eqn:Es.
    { assert (Hin : with_priority (scoreCandidateByStrategy a current config purpose) a ∈
        scored_list current config purpose (a :: av)) by (apply scored_list_elem; exists a; split; [left|done]).
      rewrite Es in Hin. no_member. }
    destruct (slice0 _ _) as [|b rest]; simpl in Hh; [done|]. injection Hh as ->.
    destruct (proj1 (scored_list_elem current config purpose (a :: av) b')) as (c & Hc & ->); [rewrite Es; left|].
    rewrite <- Ef in Hc. apply list_elem_of_filter in Hc as [He Hc]. exists c. split; [done|]. split; [done|].
    split; [done|]. intros c' Hc' He'.
    apply (scored_list_best _ _ _ _ _ _ c' Es). rewrite <- Ef. by apply list_elem_of_filter.
Qed.

(** An eligible candidate is untried, not limited and not the current vector,
    and within the provider healthy and allowed. *)
Lemma eligible_spec current config tried c :
  eligible current config tried c = true ↔
  vectorKey (vector c) ∉ tried ∧ limited c = false ∧ vector c ≠ current ∧
  (providerId (vector c) = providerId current →
   (minHealthScore config <= healthScore c)%Z ∧ allowSameProviderFallback config = true).
Proof.
  unfold eligible. destruct (vector c) as [p a m], current as [p' a' m']; simpl.
  repeat case_bool_decide; destruct (allowSameProviderFallback config), (limited c);
    destruct (Z.leb_spec (minHealthScore config) (healthScore c)); simpl; naive_solver lia.
Qed.

(** ** The current family comes first *)

(** A score without priority lists, in terms of the relation to [current]. *)
Definition plain (config : Rotation3DConfig) : Prop :=
  providerPriority config = [] ∧ default [] (priorityRules config) = [].

Lemma dimension_bound st a b c : (0 <= dimension_score st a b c <= 300)%Z.
Proof. destruct st, a, b, c; simpl; lia. Qed.

(** The scores stay on their side of a thousand points. *)
Lemma family_score c current config purpose :
  plain config → (0 <= healthScore c <= 100)%Z → waitTimeMs c = 0%Z → vector c ≠ current →
  if bool_decide (providerId (vector c) = providerId current ∧ accountId (vector c) ≠ accountId current)
  then (1000 * 1000 <= scoreCandidateByStrategy c current config purpose)%Z
  else (scoreCandidateByStrategy c current config purpose <= 900 * 1000)%Z.
Proof.
  intros [Hp Hr] Hh Hw Hv. unfold scoreCandidateByStrategy, provider_priority_score. rewrite Hp, Hw. simpl length.
  assert (Hrules : match priorityRules config with
    | Some rules => rules_score (Z.of_nat (length rules)) rules (vector c) | None => 0%Z end = 0%Z)
    by (destruct (priorityRules config) as [rs|]; simpl in Hr; subst; done).
  rewrite Hrules. replace (0 <? Z.of_nat 0)%Z with false by done. simpl andb. cbv iota.
  pose proof (dimension_bound (strategy config)) as Hd.
  destruct (purposeMatch purpose (capabilities c)); repeat case_bool_decide; simpl andb; cbv iota;
    match goal with |- context [dimension_score ?st ?a ?b ?c] => specialize (Hd a b c) end; naive_solver lia.
Qed.

(** ** What enrichment reads *)

(** The file shows the entries [A] and the health scores [H]. *)
Definition rot_shows (now : Z) (r : rotation) (A : entries) (H : health_map) : Prop :=
  shows now (Tracker (r_limits r) (r_disk r)) A ∧ accountHealth (seen (r_disk r)) = H.

(** A live entry of the model or of the provider. *)
Definition blocked (A : entries) (v : ModelVector) (now : Z) : bool :=
  bool_decide (is_Some (spec_model (accountId v) (providerId v) (Some (modelID v)) now A)) ||
  bool_decide (is_Some (alive now (A (RateLimits.makeKey (providerId v) (accountId v)) (providerId v)))).
Definition account_score (H : health_map) (v : ModelVector) (now : Z) : Z :=
  score_at DEFAULT_HEALTH_SCORE_CONFIG now (H !! healthKey (providerId v) (accountId v) None).
Definition exhausted (reg : registry) (v : ModelVector) : bool :=
  (evaluateWhamUsageQuota (providerId v) (accountId v) (quotas reg)).1.

Lemma alive_later now now' o : (now <= now')%Z → is_Some (alive now' o) → is_Some (alive now o).
Proof.
  intros Hn. unfold alive, live. destruct o as [l|]; simpl; [|done].
  destruct (Z.ltb_spec now' (resetTime l)), (Z.ltb_spec now (resetTime l)); naive_solver lia.
Qed.

Lemma blocked_later A v now now' : (now <= now')%Z → blocked A v now = false → blocked A v now' = false.
Proof.
  unfold blocked, spec_model. intros Hn Hb. apply orb_false_iff in Hb as [H1 H2]. bool_to_prop.
  apply orb_false_iff. split; apply bool_decide_eq_false_2; intros Hs.
  - apply H1. destruct (given _); [by eapply alive_later|done].
  - apply H2. by eapply alive_later.
Qed.

Lemma check_limits v A H now n1 n2 n3 r :
  rot_shows now r A H → (now <= n1 <= n2)%Z → (n2 <= n3)%Z →
  let '(b, r') := on_limits (isVectorRateLimited v n1 n2 n3) r in
  (blocked A v n3 = true → b = true) ∧ (blocked A v n2 = false → b = false) ∧ rot_shows n1 r' A H.
Proof.
  intros [Hs Hh] H1 H2. unfold on_limits, isVectorRateLimited.
  pose proof (check_spec now (accountId v) (providerId v) (Some (modelID v)) n1 n2 n3 _ A Hs
    ltac:(lia) ltac:(lia) ltac:(lia)) as [Hb Hs'].
  assert (Hf : accountHealth (seen (store (RateLimits.isRateLimited (accountId v) (providerId v) (Some (modelID v)) n1 n2 n3
    (Tracker (r_limits r) (r_disk r))).2)) = H).
  { etransitivity; [|exact (eq_trans (reload_health (RateLimits.makeKey (providerId v) (accountId v)) n1 (Tracker (r_limits r) (r_disk r))) Hh)].
    unfold RateLimits.isRateLimited. by repeat case_match. }
  destruct (RateLimits.isRateLimited _ _ _ _ _ _ _) as [b t]. cbn [fst snd] in *. injection Hb as Hb.
  split; [|split].
  - intros Hbl. rewrite Hb. unfold blocked in Hbl. apply orb_true_iff in Hbl as [Hbl|Hbl]; apply bool_decide_eq_true_1 in Hbl;
      apply orb_true_iff; [left|right]; apply bool_decide_eq_true_2; [|done].
    unfold spec_model in *. destruct (given _); [by eapply alive_later|done].
  - intros Hbl. rewrite Hb. unfold blocked in Hbl. apply orb_false_iff in Hbl as [H3 H4]. rewrite H3. simpl.
    apply bool_decide_eq_false_2. bool_to_prop. intros Ha. apply H4. by eapply alive_later.
  - split; [|done]. by destruct t.
Qed.

Lemma wait_limits v A H now n1 n2 r :
  rot_shows now r A H → (now <= n1 <= n2)%Z →
  let '(w, r') := on_limits (getVectorWaitTime v n1 n2) r in
  (0 <= w)%Z ∧ (blocked A v n2 = false → w = 0%Z) ∧ rot_shows n1 r' A H.
Proof.
  intros [Hs Hh] H1. unfold on_limits, getVectorWaitTime.
  pose proof (wait_spec now (accountId v) (providerId v) (Some (modelID v)) n1 n2 _ A Hs ltac:(lia) ltac:(lia)) as [Hb Hs'].
  assert (Hf : accountHealth (seen (store (getWaitTime (accountId v) (providerId v) (Some (modelID v)) n1 n2
    (Tracker (r_limits r) (r_disk r))).2)) = H).
  { etransitivity; [|exact (eq_trans (reload_health (RateLimits.makeKey (providerId v) (accountId v)) n1 (Tracker (r_limits r) (r_disk r))) Hh)].
    unfold getWaitTime. by repeat case_match. }
  destruct (getWaitTime _ _ _ _ _ _) as [w t]. cbn [fst snd] in *. injection Hb as ->.
  split; [|split].
  - apply wait_of_nonneg, wait_of_nonneg. done.
  - unfold blocked. intros Hbl. apply orb_false_iff in Hbl as [H3 H4].
    destruct (spec_model _ _ _ _ _); [by rewrite bool_decide_eq_true_2 in H3|].
    destruct (alive n2 _); [by rewrite bool_decide_eq_true_2 in H4|]. done.
  - split; [|done]. by destruct t.
Qed.

Lemma score_health v A H now n r :
  rot_shows now r A H →
  let '(s, r') := on_health (getScore DEFAULT_HEALTH_SCORE_CONFIG (accountId v) (providerId v) None n) r in
  s = account_score H v n ∧ rot_shows now r' A H.
Proof.
  intros [[Hw Ha] Hh]. unfold on_health, getScore, load. cbn [file_of scores]. cbn [store] in *.
  pose proof (seen_read (r_disk r)) as Hs. pose proof (writable_read (r_disk r)) as Hwr.
  assert (E : (readUnifiedState (r_disk r)).1 = seen (r_disk r)) by done.
  destruct (readUnifiedState (r_disk r)) as [s d]. cbn [fst snd] in *. subst s. cbn [scores file_of].
  split; [by rewrite Hh|]. split; [|cbn; by rewrite Hs]. split; cbn; [by rewrite Hwr|by rewrite Hs].
Qed.

(** A clock that starts at [t0], never runs backwards, and is at most [T]. *)
Definition clock_between (t0 T : Z) (clock : nat → Z) : Prop :=
  ∀ i j, i ≤ j → (t0 <= clock i <= clock j)%Z ∧ (clock j <= T)%Z.

(** What a candidate says of its request, whatever the readings were. *)
Definition enriched (reg : registry) (A : entries) (H : health_map) (t0 T : Z) (q : request) (c : FallbackCandidate)
    : Prop :=
  let v := q_vector q in
  vector c = v ∧ why c = q_why q ∧
  (blocked A v T || exhausted reg v = true → limited c = true) ∧
  (blocked A v t0 || exhausted reg v = false → limited c = false) ∧
  (0 <= waitTimeMs c)%Z ∧ (blocked A v t0 = false → waitTimeMs c = 0%Z) ∧
  ∃ n, (t0 <= n)%Z ∧ healthScore c = account_score H v n.

Lemma rot_shows_weaken now now' r A H : (now <= now')%Z → rot_shows now r A H → rot_shows now' r A H.
Proof. intros Hn [Hs Hh]. split; [by eapply shows_weaken|done]. Qed.

Lemma enrich_spec reg A H t0 T clock now k q r :
  clock_between t0 T clock → (now <= clock k)%Z → rot_shows now r A H →
  let '(c, r') := enrich reg clock k q r in
  enriched reg A H t0 T q c ∧ rot_shows (clock (k + 3)) r' A H.
Proof.
  intros Hc Hn Hr. unfold enrich.
  assert (Hcl : ∀ i j, i ≤ j → (t0 <= clock i)%Z ∧ (clock i <= clock j)%Z ∧ (clock j <= T)%Z) by (intros; by specialize (Hc i j); intuition).
  destruct (evaluateWhamUsageQuota _ _ _) as [ex u] eqn:Ee.
  assert (Hex : exhausted reg (q_vector q) = ex) by (unfold exhausted; by rewrite Ee).
  pose proof (Hcl k (k + 1) ltac:(lia)). pose proof (Hcl (k + 3) (k + 4) ltac:(lia)).
  pose proof (Hcl (k + 4) (k + 5) ltac:(lia)). pose proof (Hcl k (k + 3) ltac:(lia)). pose proof (Hcl k (k + 2) ltac:(lia)).
  pose proof (wait_limits (q_vector q) A H now (clock k) (clock (k + 1)) r Hr ltac:(lia)) as Hw.
  destruct (on_limits _ r) as [w r1]. destruct Hw as (Hw0 & Hw1 & Hr1).
  pose proof (score_health (q_vector q) A H _ (clock (k + 2)) r1 Hr1) as Hsc.
  destruct (on_health _ r1) as [s r2]. destruct Hsc as [-> Hr2].
  pose proof (check_limits (q_vector q) A H (clock k) (clock (k + 3)) (clock (k + 4)) (clock (k + 5)) r2 Hr2
    ltac:(lia) ltac:(lia)) as Hl.
  destruct (on_limits _ r2) as [b r3]. destruct Hl as (Hl1 & Hl2 & Hr3).
  split; [|done]. unfold enriched. cbn [vector why limited waitTimeMs healthScore]. rewrite Hex.
  split; [done|]. split; [done|]. split; [|split; [|split; [done|split]]].
  - intros Hb. apply orb_true_iff in Hb as [Hb| ->]; [|by rewrite orb_true_r].
    rewrite Hl1; [done|]. destruct (blocked A (q_vector q) (clock (k + 5))) eqn:E; [done|].
    by rewrite (blocked_later A _ (clock (k + 5)) T ltac:(lia) E) in Hb.
  - intros Hb. apply orb_false_iff in Hb as [Hb ->]. rewrite orb_false_r. apply Hl2.
    by apply (blocked_later _ _ t0); [lia|].
  - intros Hb. apply Hw1. by apply (blocked_later _ _ t0); [lia|].
  - exists (clock (k + 2)). split; [lia|done].
Qed.

Lemma enrich_all_spec reg A H t0 T clock now k qs r :
  clock_between t0 T clock → (now <= clock k)%Z → rot_shows now r A H →
  let '(cs, r') := enrich_all reg clock k qs r in
  Forall2 (enriched reg A H t0 T) qs cs ∧ rot_shows T r' A H.
Proof.
  intros Hc. revert now k r. induction qs as [|q qs IH]; intros now k r Hn Hr; cbn [enrich_all].
  - split; [done|]. eapply rot_shows_weaken; [|done]. specialize (Hc k k (le_n _)). lia.
  - pose proof (enrich_spec reg A H t0 T clock now k q r Hc Hn Hr) as He.
    destruct (enrich reg clock k q r) as [c r1]. destruct He as [He Hr1].
    specialize (IH (clock (k + 3)) (k + 6) r1). destruct (enrich_all reg clock (k + 6) qs r1) as [cs r2].
    destruct IH as [IH Hr2]; [apply Hc; lia|done|]. split; [by constructor|done].
Qed.

(** ** Removing duplicates *)

Lemma unique_from_elem seen cs c : c ∈ unique_from seen cs → c ∈ cs ∧ vectorKey (vector c) ∉ seen.
Proof.
  revert seen. induction cs as [|d cs IH]; intros seen; simpl; [by intros ?%not_elem_of_nil|]. case_bool_decide as Hd.
  - intros H. apply IH in H. set_solver.
  - intros H. apply elem_of_cons in H as [->|H]; [split; [left|done]|]. apply IH in H. set_solver.
Qed.

Lemma unique_from_NoDup seen cs : NoDup (map (λ c, vectorKey (vector c)) (unique_from seen cs)).
Proof.
  revert seen. induction cs as [|d cs IH]; intros seen; simpl; [constructor|]. case_bool_decide as Hd; [done|].
  simpl. constructor; [|done]. intros H. apply list_elem_of_fmap in H as (c & Hk & Hc).
  apply unique_from_elem in Hc as [_ Hc]. set_solver.
Qed.

(** Each candidate is represented by one that is not after it. *)
Lemma unique_from_first seen l1 c l2 :
  vectorKey (vector c) ∉ seen →
  ∃ c', c' ∈ unique_from seen (l1 ++ c :: l2) ∧ c' ∈ l1 ++ [c] ∧ vectorKey (vector c') = vectorKey (vector c).
Proof.
  revert seen. induction l1 as [|d l1 IH]; intros seen Hs; simpl.
  - rewrite bool_decide_eq_false_2 by done. exists c. split; [left|]. split; [left|done].
  - case_bool_decide as Hd.
    + destruct (IH seen Hs) as (c' & ? & ? & ?). exists c'. split; [done|]. split; [by right|done].
    + destruct (decide (vectorKey (vector d) = vectorKey (vector c))) as [E|E].
      * exists d. split; [left|]. split; [left|done].
      * destruct (IH ({[vectorKey (vector d)]} ∪ seen)) as (c' & ? & ? & ?); [set_solver|].
        exists c'. split; [by right|]. split; [by right|done].
Qed.

(** ** The requests *)

Section Requests.
Context (reg : registry) (current : ModelVector).

Lemma push_elem q v w tags : q ∈ push reg v w tags ↔ isHidden reg v = false ∧ q = Request v w tags.
Proof. unfold push. destruct (isHidden reg v); [|]; rewrite ?list_elem_of_singleton; [|tauto]. split; [|naive_solver]. by intros ?%not_elem_of_nil. Qed.

Lemma step1_elem q :
  q ∈ step1 reg current ↔
  ∃ family a, resolveFamily reg (providerId current) = Some family ∧ a ∈ accounts reg family ∧ a ≠ accountId current ∧
    isHidden reg (Vector (providerId current) a (modelID current)) = false ∧
    q = Request (Vector (providerId current) a (modelID current)) same_model_diff_account [].
Proof.
  unfold step1. destruct (resolveFamily reg (providerId current)) as [f|]; [|split; [by intros ?%not_elem_of_nil|naive_solver]].
  rewrite elem_of_flat_map. split.
  - intros (a & Ha & Hq). case_bool_decide; [no_member|]. apply push_elem in Hq as [? ?]. eauto 10.
  - intros (f' & a & [= <-] & Ha & Hne & Hh & ->). exists a. split; [done|]. rewrite bool_decide_eq_false_2 by done.
    by apply push_elem.
Qed.

(** No request is hidden or names the current vector. *)
Lemma requests_sound q : q ∈ requests reg current → isHidden reg (q_vector q) = false ∧ q_vector q ≠ current.
Proof.
  unfold requests. rewrite !elem_of_app. intros [H|[H|[H|[H|H]]]].
  - apply step1_elem in H as (f & a & _ & _ & Ha & Hh & ->). split; [done|]. destruct current; simpl in *; naive_solver.
  - unfold step2 in H. apply elem_of_flat_map in H as (fav & _ & H). unfold step2_one in H.
    destruct (split_on 47 fav) as [|p [|m rest]]; try no_member.
    repeat case_bool_decide; simpl in H; try no_member.
    apply push_elem in H as [Hh ->]. split; [done|]. destruct current; simpl in *; naive_solver.
  - unfold step3 in H. apply elem_of_flat_map in H as (f & _ & H). unfold step3_one in H.
    do 3 (case_bool_decide; [no_member|]).
    destruct (_ && _) eqn:Eb; [no_member|].
    destruct (resolveFamily reg _) as [fam|]; [|no_member].
    apply elem_of_flat_map in H as (a & _ & H). apply push_elem in H as [Hh ->]. split; [done|].
    apply andb_false_iff in Eb as [Eb|Eb]; bool_to_prop; destruct current; simpl in *; naive_solver.
  - unfold step3b in H. apply elem_of_flat_map in H as (p & _ & H). unfold step3b_one in H.
    destruct (_ || _) eqn:Eb; [no_member|]. bool_to_prop.
    case_bool_decide; [no_member|].
    destruct (resolveFamily reg _) as [fam|]; [|no_member].
    apply elem_of_flat_map in H as (m & _ & H). apply elem_of_flat_map in H as (a & _ & H).
    apply push_elem in H as [Hh ->]. split; [done|]. destruct current; simpl in *; naive_solver.
  - unfold step4 in H. destruct (entry _ _) as [[ms|]|]; try no_member.
    apply elem_of_flat_map in H as (m & _ & H). unfold step4_one in H. cbv zeta in H.
    repeat case_match; try no_member. apply list_elem_of_singleton in H as ->. simpl.
    split; [done|]. by bool_to_prop.
Qed.
End Requests.

(** ** The built candidates *)

Lemma build_spec reg current A H t0 T clock r :
  rot_shows t0 r A H → clock_between t0 T clock →
  let '(cs, r') := buildFallbackCandidates reg current clock r in
  NoDup (map (λ c, vectorKey (vector c)) cs) ∧
  (∀ c, c ∈ cs → ∃ q, q ∈ requests reg current ∧ enriched reg A H t0 T q c) ∧
  (∀ q, q ∈ step1 reg current → ∃ c, c ∈ cs ∧ enriched reg A H t0 T q c) ∧ rot_shows T r' A H.
Proof.
  intros Hr Hc. unfold buildFallbackCandidates.
  pose proof (enrich_all_spec reg A H t0 T clock t0 0 (requests reg current) r Hc ltac:(apply (Hc 0 0); lia) Hr) as He.
  destruct (enrich_all reg clock 0 (requests reg current) r) as [cs r1]. destruct He as [He Hr1].
  split; [apply unique_from_NoDup|]. split; [|split; [|done]].
  - intros c Hin. apply unique_from_elem in Hin as [Hin _]. apply list_elem_of_lookup in Hin as [i Hi].
    destruct (Forall2_lookup_r _ _ _ _ _ He Hi) as (q & Hq & ?). exists q. split; [|done].
    by apply list_elem_of_lookup_2 in Hq.
  - intros q Hq. unfold requests in He. apply Forall2_app_inv_l in He as (cs1 & cs2 & He1 & _ & ->).
    pose proof Hq as Hq'. apply list_elem_of_lookup in Hq' as [i Hi].
    destruct (Forall2_lookup_l _ _ _ _ _ He1 Hi) as (c & Hci & Hec).
    rewrite <- (take_drop_middle cs1 i c Hci), <- app_assoc. simpl app.
    destruct (unique_from_first ∅ (take i cs1) c (drop (S i) cs1 ++ cs2)) as (c' & Hin & Hfirst & Hkey); [set_solver|].
    exists c'. split; [done|].
    assert (Hin1 : c' ∈ cs1).
    { rewrite <- (take_drop_middle cs1 i c Hci). set_solver. }
    apply list_elem_of_lookup in Hin1 as [j Hj]. destruct (Forall2_lookup_r _ _ _ _ _ He1 Hj) as (q' & Hq' & Hec').
    apply list_elem_of_lookup_2 in Hq'. apply step1_elem in Hq as (f & a & _ & _ & _ & _ & ->).
    apply step1_elem in Hq' as (f' & a' & _ & _ & _ & _ & ->). destruct Hec as (Hv & _). destruct Hec' as (Hv' & Hrest).
    rewrite Hv, Hv' in Hkey. unfold vectorKey in Hkey. simpl in Hkey.
    apply app_inv_head in Hkey. injection Hkey as Hkey. apply app_inv_tail in Hkey as ->. by split.
Qed.

Lemma find_unfold reg current clock load overrides purpose tried n1 n2 n3 cache r :
  (findFallback reg current clock load overrides purpose tried n1 n2 n3 cache r).1.1 =
  choose (buildFallbackCandidates reg current clock r).1 current (resolveRotation3DConfig load overrides n1 cache).1
    tried purpose.
Proof.
  unfold findFallback, selectBestFallback. destruct (resolveRotation3DConfig _ _ _ _) as [config cache'].
  destruct (buildFallbackCandidates _ _ _ _) as [cs r1]. by destruct (getProviderWaitTime _ _ _ _) as [w d].
Qed.

Lemma account_score_range H t0 v n :
  (∀ k s, H !! k = Some s → good DEFAULT_HEALTH_SCORE_CONFIG t0 s) → (t0 <= n)%Z → (0 <= account_score H v n <= 100)%Z.
Proof.
  intros Hg Hn. unfold account_score.
  apply (score_at_bounds DEFAULT_HEALTH_SCORE_CONFIG n); [by repeat split|].
  intros s Hs. destruct (Hg _ _ Hs) as (? & ? & ?). split; [done|]. split; [done|]. lia.
Qed.

(** Selection: no candidate is selected exactly when none is eligible;
    otherwise the selected one is an eligible candidate of the highest score,
    and an eligible candidate is untried, not rate limited and not the current
    vector, and healthy enough if it is of the current provider. *)
Theorem select_best (candidates : list FallbackCandidate) (current : ModelVector) (config : Rotation3DConfig)
    (tried : gset jsstr) (purpose : RotationPurpose) (n1 n2 : Z) (d : disk) :
  (1 <= maxCandidates config)%Z →
  let best := (selectBestFallback candidates current config tried purpose n1 n2 d).1 in
  best_of candidates current config tried purpose best ∧
  (∀ b, best = Some b → vectorKey (vector b) ∉ tried ∧ limited b = false ∧ vector b ≠ current ∧
    (providerId (vector b) = providerId current →
     (minHealthScore config <= healthScore b)%Z ∧ allowSameProviderFallback config = true)).
Proof.
  intros Hm best. unfold best, selectBestFallback. destruct (getProviderWaitTime _ _ _ _) as [w d1]. cbn [fst].
  pose proof (choose_best candidates current config tried purpose Hm) as Hb. split; [done|].
  intros b E. rewrite E in Hb. destruct Hb as (c & _ & He & -> & _). by apply eligible_spec in He.
Qed.

(** Candidates: no two have the same key, none is hidden or the current
    vector, one whose limit lasts or whose quota is exhausted is marked as
    limited, and every other visible account of the current family is among
    them with the current model. *)
Theorem candidates_built (reg : registry) (current : ModelVector) (A : entries) (H : health_map) (t0 T : Z)
    (clock : nat → Z) (r : rotation) :
  rot_shows t0 r A H → clock_between t0 T clock →
  let cs := (buildFallbackCandidates reg current clock r).1 in
  NoDup (map (λ c, vectorKey (vector c)) cs) ∧
  (∀ c, c ∈ cs → isHidden reg (vector c) = false ∧ vector c ≠ current ∧
    (blocked A (vector c) T || exhausted reg (vector c) = true → limited c = true)) ∧
  (∀ family a, resolveFamily reg (providerId current) = Some family → a ∈ accounts reg family →
    a ≠ accountId current → isHidden reg (Vector (providerId current) a (modelID current)) = false →
    ∃ c, c ∈ cs ∧ vector c = Vector (providerId current) a (modelID current)).
Proof.
  intros Hr Hc. pose proof (build_spec reg current A H t0 T clock r Hr Hc) as Hb.
  destruct (buildFallbackCandidates _ _ _ _) as [cs r']. destruct Hb as (Hn & Hs & H1 & _). cbn [fst].
  split; [done|]. split.
  - intros c Hin. destruct (Hs c Hin) as (q & Hq & Hv & _ & Hl & _). rewrite Hv.
    destruct (requests_sound reg current q Hq) as [? ?]. done.
  - intros f a Hf Ha Hne Hh. destruct (H1 (Request (Vector (providerId current) a (modelID current)) same_model_diff_account []))
      as (c & Hin & Hv & _); [apply step1_elem; eauto 10|]. exists c. by split.
Qed.

(** A fallback is usable: it is visible, untried and not the current
    vector, no rate limit of its model or provider outlasts the search, and its
    quota is not exhausted. *)
Theorem fallback_usable (reg : registry) (current : ModelVector) (A : entries) (H : health_map) (t0 T : Z)
    (clock : nat → Z) load overrides purpose tried n1 n2 n3 cache (r : rotation) (b : FallbackCandidate) :
  rot_shows t0 r A H → clock_between t0 T clock →
  (1 <= maxCandidates (resolveRotation3DConfig load overrides n1 cache).1)%Z →
  (findFallback reg current clock load overrides purpose tried n1 n2 n3 cache r).1.1 = Some b →
  isHidden reg (vector b) = false ∧ vectorKey (vector b) ∉ tried ∧ vector b ≠ current ∧ from b = Some current ∧
  blocked A (vector b) T = false ∧ exhausted reg (vector b) = false.
Proof.
  intros Hr Hc Hm E. rewrite find_unfold in E.
  pose proof (build_spec reg current A H t0 T clock r Hr Hc) as Hb. destruct (buildFallbackCandidates _ _ _ _) as [cs r'].
  destruct Hb as (_ & Hs & _). pose proof (choose_best cs current _ tried purpose Hm) as Hbest. cbn [fst] in E.
  rewrite E in Hbest. destruct Hbest as (c & Hin & He & -> & _). apply eligible_spec in He as (Ht & Hl & Hv & _).
  destruct (Hs c Hin) as (q & Hq & Hvq & _ & Hlim & _). destruct (requests_sound reg current q Hq) as [Hh _].
  cbn [vector with_from with_priority from]. rewrite Hvq in *.
  split; [done|]. split; [done|]. split; [done|]. split; [done|].
  apply orb_false_iff. destruct (_ || _); [|done]. rewrite Hlim in Hl by done. done.
Qed.

(** Rotation stays in the family: without priority lists, when another
    visible account of the current family is free, healthy, has quota and was
    not tried, a fallback is found and it is an account of that family, for
    every strategy and purpose. *)
Theorem fallback_stays_in_family (reg : registry) (current : ModelVector) (A : entries) (H : health_map) (t0 T : Z)
    (clock : nat → Z) load overrides purpose tried n1 n2 n3 cache (r : rotation) (family a : jsstr) :
  let config := (resolveRotation3DConfig load overrides n1 cache).1 in
  let v := Vector (providerId current) a (modelID current) in
  rot_shows t0 r A H → clock_between t0 T clock → (∀ k s, H !! k = Some s → good DEFAULT_HEALTH_SCORE_CONFIG t0 s) →
  (1 <= maxCandidates config)%Z → plain config → allowSameProviderFallback config = true →
  resolveFamily reg (providerId current) = Some family → a ∈ accounts reg family → a ≠ accountId current →
  isHidden reg v = false → vectorKey v ∉ tried → blocked A v t0 || exhausted reg v = false →
  (∀ n, (t0 <= n)%Z → (minHealthScore config <= account_score H v n)%Z) →
  ∃ b, (findFallback reg current clock load overrides purpose tried n1 n2 n3 cache r).1.1 = Some b ∧
    providerId (vector b) = providerId current ∧ accountId (vector b) ≠ accountId current.
Proof.
  intros config v Hr Hc Hg Hm Hp Hallow Hf Ha Hne Hh Ht Hbl Hmin. rewrite find_unfold. fold config.
  pose proof (build_spec reg current A H t0 T clock r Hr Hc) as Hb. destruct (buildFallbackCandidates _ _ _ _) as [cs r'].
  destruct Hb as (_ & Hs & H1 & _). cbn [fst].
  destruct (H1 (Request v same_model_diff_account [])) as (c & Hin & Hv & _ & _ & Hl & _ & Hw & n & Hn & Hsc);
    [apply step1_elem; eauto 10|]. cbn [q_vector] in *.
  assert (Hvc : v ≠ current) by (unfold v; destruct current; simpl in *; naive_solver).
  assert (Hel : eligible current config tried c = true).
  { apply eligible_spec. rewrite Hv, Hl, Hsc by done. eauto 10. }
  pose proof (choose_best cs current config tried purpose Hm) as Hbest.
  destruct (choose cs current config tried purpose) as [b|]; [|by rewrite (Hbest c Hin) in Hel].
  destruct Hbest as (d & Hd & Hed & -> & Hmax). eexists. split; [done|]. cbn [vector with_from with_priority].
  specialize (Hmax c Hin Hel).
  assert (Hcs : (1000 * 1000 <= scoreCandidateByStrategy c current config purpose)%Z).
  { pose proof (family_score c current config purpose Hp) as Hfs. rewrite Hv, Hsc in Hfs.
    rewrite bool_decide_eq_true_2 in Hfs by done. apply Hfs; [by eapply account_score_range| |done].
    apply Hw. by apply orb_false_iff in Hbl as [? _]. }
  destruct (Hs d Hd) as (q & Hq & Hvq & _ & _ & _ & Hw0 & _ & n' & Hn' & Hsd).
  apply eligible_spec in Hed as (_ & _ & Hdc & _).
  pose proof (family_score (Fallback (vector d) (healthScore d) (limited d) 0 (priority d) (why d) (from d) (capabilities d))
    current config purpose Hp) as Hfs. cbn [healthScore vector waitTimeMs] in Hfs. rewrite Hsd in Hfs.
  specialize (Hfs (account_score_range H t0 _ n' Hg Hn') eq_refl Hdc). case_bool_decide; [done|].
  assert (Hle : (scoreCandidateByStrategy d current config purpose <= 900 * 1000)%Z); [|lia].
  etransitivity; [|exact Hfs]. unfold scoreCandidateByStrategy. cbn [healthScore vector waitTimeMs capabilities]. rewrite Hsd. lia.
Qed.

(** ** Witnesses *)

Definition free_entries : entries := λ _ _, None.
Lemma demo_shows : rot_shows 100 demo_rotation free_entries ∅.
Proof. split; [|done]. split; [done|]. intros k i n _. unfold look. by vm_compute. Qed.
Lemma demo_clock : clock_between 100 100 (λ _, 100%Z).
Proof. intros i j _. lia. Qed.
Definition demo_find (tried : gset jsstr) : option FallbackCandidate :=
  (findFallback demo_registry demo_current (λ _, 100%Z) None no_overrides generic tried 100 100 100
    (PolicyCache None 0) demo_rotation).1.1.

Definition demo_best : option FallbackCandidate :=
  (selectBestFallback (buildFallbackCandidates demo_registry demo_current (λ _, 100%Z) demo_rotation).1
    demo_current DEFAULT_ROTATION3D_CONFIG ∅ generic 100 100 (r_disk demo_rotation)).1.
Lemma select_best_witness :
  ∃ b, demo_best = Some b ∧ vector b = Vector (js "openai") (js "b") (js "gpt-5") ∧ limited b = false.
Proof.
  eexists. split; [by vm_compute|]. split; [done|].
  destruct (select_best (buildFallbackCandidates demo_registry demo_current (λ _, 100%Z) demo_rotation).1
    demo_current DEFAULT_ROTATION3D_CONFIG ∅ generic 100 100 (r_disk demo_rotation) ltac:(by vm_compute)) as [_ H].
  destruct (H _ ltac:(by vm_compute)) as (_ & H1 & _). exact H1.
Defined.

Lemma candidates_built_witness :
  ∃ c, c ∈ (buildFallbackCandidates demo_registry demo_current (λ _, 100%Z) demo_rotation).1 ∧
    vector c = Vector (js "openai") (js "b") (js "gpt-5").
Proof.
  destruct (candidates_built demo_registry demo_current free_entries ∅ 100 100 (λ _, 100%Z) demo_rotation
    demo_shows demo_clock) as (_ & _ & H).
  apply (H (js "openai") (js "b")); [by vm_compute| |by vm_compute|by vm_compute].
  vm_compute. right. left.
Defined.

Lemma fallback_usable_witness :
  ∃ b, demo_find ∅ = Some b ∧ blocked free_entries (vector b) 100 = false ∧ vector b ≠ demo_current.
Proof.
  eexists. split; [by vm_compute|].
  destruct (fallback_usable demo_registry demo_current free_entries ∅ 100 100 (λ _, 100%Z) None no_overrides generic ∅
    100 100 100 (PolicyCache None 0) demo_rotation _ demo_shows demo_clock ltac:(by vm_compute) ltac:(by vm_compute))
    as (_ & _ & H1 & _ & H2 & _). split; [exact H2|exact H1].
Defined.

Lemma fallback_stays_in_family_witness :
  ∃ b, demo_find ∅ = Some b ∧ providerId (vector b) = js "openai" ∧ accountId (vector b) ≠ js "a".
Proof.
  apply (fallback_stays_in_family demo_registry demo_current free_entries ∅ 100 100 (λ _, 100%Z) None no_overrides generic ∅
    100 100 100 (PolicyCache None 0) demo_rotation (js "openai") (js "b"));
    first [exact demo_shows | exact demo_clock | (intros k s Hk; by rewrite lookup_empty in Hk)
          | (vm_compute; right; left) | by vm_compute].
Defined.

(** A rule or a long priority list outweighs the thousand points of the family. *)
Example rule_outweighs_family :
  vector <$> choose (buildFallbackCandidates demo_registry demo_current (λ _, 100%Z) demo_rotation).1 demo_current
    (override DEFAULT_ROTATION3D_CONFIG (Partial3D None None None None None None None
      (Some (Some [Rule (js "anthropic") (Some (js "c")) None None None None])))) ∅ generic =
  Some (Vector (js "anthropic") (js "c") (js "claude-sonnet-4")).
Proof. by vm_compute. Qed.

(** The candidate of step 2 for a model whose id has a slash names no model. *)
Example slash_truncated :
  map q_vector (step2 demo_registry demo_current) = [Vector (js "openai") (js "a") (js "org")].
Proof. by vm_compute. Qed.
