(* ===== verification/Coalesce.v ===== *)
(** Rotation coalescing ([account/rotation/coalesce.ts]).

    The calls of [withRotationCoalesce] that have been made are in [calls],
    each at the place where it waits; one action runs the code from one
    [await] to the next.  The three Maps of the module are the rest of the
    state, and every reading of the clock is an argument of its action. *)

From S2P Require Import Prelude JsString.

(** [readIntEnv]: [n] is [Number(raw)], [None] when it is not finite. *)
Definition readIntEnv (raw : jsstr) (number : jsstr → option Z) (default_ : Z) : Z :=
  if bool_decide (raw = []) then default_ else
  match number raw with
  | Some n => if (n <? 0)%Z then default_ else n
  | None => default_
  end.

Section Coalesce.
Context {R : Type} (COALESCE_WINDOW_MS MIN_INTERVAL_MS : Z).

Record CoalesceInput := Input {
  coalesceKey : jsstr;
  providerId : jsstr;
  eligibleForCoalesce : bool;
  shouldCache : R → bool
}.

(** Where a call waits: in [setTimeout], in [work()], before the callback of
    [then], before that of [finally] with the outcome, settled, answered from
    the cache, or for the promise of another call. *)
Inductive phase :=
| Sleeping (wakeAt : Z) | Working | Settling (r : R) | Releasing (o : option R)
| Done (o : option R) | Cached (r : R) | Joined (owner : nat).

Record state := State {
  calls : gmap nat (CoalesceInput * phase);
  inflight : gmap jsstr nat;
  recentDecisions : gmap jsstr (R * Z);
  lastRotationByProvider : gmap jsstr Z
}.
Definition init : state := State ∅ ∅ ∅ ∅.

Definition set_phase (id : nat) (i : CoalesceInput) (p : phase) (s : state) : state :=
  State (<[id := (i, p)]> (calls s)) (inflight s) (recentDecisions s) (lastRotationByProvider s).
Definition set_inflight (m : gmap jsstr nat) (s : state) : state :=
  State (calls s) m (recentDecisions s) (lastRotationByProvider s).
Definition set_recent (m : gmap jsstr (R * Z)) (s : state) : state :=
  State (calls s) (inflight s) m (lastRotationByProvider s).

Definition fresh (now : Z) (kv : jsstr * (R * Z)) : bool := negb (COALESCE_WINDOW_MS <? now - kv.2.2)%Z.
Definition gcRecentDecisions (now : Z) (s : state) : state :=
  set_recent (filter (λ kv, fresh now kv = true) (recentDecisions s)) s.

(** The start of [runWithGuard]: asleep, or at work at once. *)
Definition waitMs (provider : jsstr) (now : Z) (s : state) : Z :=
  default 0%Z (lastRotationByProvider s !! provider) + MIN_INTERVAL_MS - now.
Definition runWithGuard (i : CoalesceInput) (now : Z) (s : state) : phase :=
  if (0 <? waitMs (providerId i) now s)%Z then Sleeping (now + waitMs (providerId i) now s) else Working.

(** [withRotationCoalesce] up to its first [await]. *)
Definition withRotationCoalesce (id : nat) (i : CoalesceInput) (now now' : Z) (s : state) : state :=
  if eligibleForCoalesce i then
    let s1 := gcRecentDecisions now s in
    match recentDecisions s1 !! coalesceKey i with
    | Some (r, _) => set_phase id i (Cached r) s1
    | None =>
        match inflight s1 !! coalesceKey i with
        | Some owner => set_phase id i (Joined owner) s1
        | None => set_inflight (<[coalesceKey i := id]> (inflight s1)) (set_phase id i (runWithGuard i now' s1) s1)
        end
    end
  else set_phase id i (runWithGuard i now' s) s.

(** The work of a call has resolved. *)
Definition finish (id : nat) (i : CoalesceInput) (r : R) (now : Z) (s : state) : state :=
  let s1 := if shouldCache i r
            then State (calls s) (inflight s) (recentDecisions s)
                   (<[providerId i := now]> (lastRotationByProvider s))
            else s in
  set_phase id i (if eligibleForCoalesce i then Settling r else Done (Some r)) s1.

Definition settle (id : nat) (i : CoalesceInput) (r : R) (now : Z) (s : state) : state :=
  let s1 := if shouldCache i r then set_recent (<[coalesceKey i := (r, now)]> (recentDecisions s)) s else s in
  set_phase id i (Releasing (Some r)) s1.

Definition release (id : nat) (i : CoalesceInput) (o : option R) (s : state) : state :=
  set_phase id i (Done o) (set_inflight (delete (coalesceKey i) (inflight s)) s).

Inductive action :=
| Call (id : nat) (i : CoalesceInput) (now now' : Z)
| Wake (id : nat) (now : Z)
| Finish (id : nat) (r : R) (now : Z)
| Reject (id : nat)
| Settle (id : nat) (now : Z)
| Release (id : nat).

Definition step (a : action) (s : state) : option state :=
  match a with
  | Call id i now now' =>
      match calls s !! id with None => Some (withRotationCoalesce id i now now' s) | Some _ => None end
  | Wake id now =>
      match calls s !! id with
      | Some (i, Sleeping w) => if (w <=? now)%Z then Some (set_phase id i Working s) else None
      | _ => None
      end
  | Finish id r now =>
      match calls s !! id with Some (i, Working) => Some (finish id i r now s) | _ => None end
  | Reject id =>
      match calls s !! id with
      | Some (i, Working) => Some (set_phase id i (if eligibleForCoalesce i then Releasing None else Done None) s)
      | _ => None
      end
  | Settle id now =>
      match calls s !! id with Some (i, Settling r) => Some (settle id i r now s) | _ => None end
  | Release id =>
      match calls s !! id with Some (i, Releasing o) => Some (release id i o s) | _ => None end
  end.

(** The result a settled call gives: a joined call gives its owner's. *)
Definition outcome (id : nat) (s : state) : option (option R) :=
  match calls s !! id with
  | Some (_, Done o) => Some o
  | Some (_, Cached r) => Some (Some r)
  | Some (_, Joined owner) => match calls s !! owner with Some (_, Done o) => Some o | _ => None end
  | _ => None
  end.

(** ** Invariants *)

Definition running (p : phase) : bool :=
  match p with Sleeping _ | Working | Settling _ | Releasing _ => true | _ => false end.

Definition settles (p : phase) : bool := match p with Settling _ | Releasing _ => true | _ => false end.

(** The call runs the rotation of [k] for others to share. *)
Definition runs (s : state) (k : jsstr) (id : nat) : Prop :=
  ∃ i p, calls s !! id = Some (i, p) ∧ eligibleForCoalesce i = true ∧ coalesceKey i = k ∧ running p = true.
(** The call ran it itself, now or before. *)
Definition ran (s : state) (k : jsstr) (id : nat) (r : R) : Prop :=
  ∃ i, eligibleForCoalesce i = true ∧ coalesceKey i = k ∧ shouldCache i r = true ∧
    (calls s !! id = Some (i, Releasing (Some r)) ∨ calls s !! id = Some (i, Done (Some r))).

Record inv (s : state) : Prop := Inv {
  inv_inflight : ∀ k id, inflight s !! k = Some id ↔ runs s k id;
  inv_joined : ∀ id i owner, calls s !! id = Some (i, Joined owner) →
    eligibleForCoalesce i = true ∧ ∃ i' p, calls s !! owner = Some (i', p) ∧ coalesceKey i' = coalesceKey i ∧
      eligibleForCoalesce i' = true ∧ (running p = true ∨ ∃ o, p = Done o);
  inv_settling : ∀ id i p, calls s !! id = Some (i, p) → settles p = true → eligibleForCoalesce i = true;
  inv_cached : ∀ id i r, calls s !! id = Some (i, Cached r) → ∃ id', ran s (coalesceKey i) id' r;
  inv_recent : ∀ k r t, recentDecisions s !! k = Some (r, t) → ∃ id, ran s k id r
}.

(** What a step leaves as it was: the calls that were made keep their inputs,
    those that ran keep their results, and nobody stops running unsettled. *)
Definition keeps (s s' : state) : Prop :=
  (∀ k id r, ran s k id r → ran s' k id r) ∧
  (∀ id i p, calls s !! id = Some (i, p) → running p = true ∨ (∃ o, p = Done o) →
    ∃ p', calls s' !! id = Some (i, p') ∧ (running p' = true ∨ ∃ o, p' = Done o)).

Lemma inv_init : inv init.
Proof.
  split; cbn; try (intros *; by rewrite lookup_empty). intros k id. rewrite lookup_empty. split; [done|].
  intros (i & p & H & _). cbn in H. by rewrite lookup_empty in H.
Qed.

(** A new call that neither runs for others nor joins. *)
Lemma keeps_new s s' id i p :
  calls s !! id = None → calls s' = <[id := (i, p)]> (calls s) → keeps s s'.
Proof.
  intros Hn Hc. split.
  - intros k id' r (i' & He & Hk & Hs & Hp). exists i'. rewrite Hc. split; [done|]. split; [done|]. split; [done|].
    destruct (decide (id' = id)) as [->|]; [naive_solver|]. by rewrite lookup_insert_ne.
  - intros id' i' p' H Hp. rewrite Hc. rewrite lookup_insert_ne by congruence. eauto.
Qed.

(** A running call moves on. *)
Lemma keeps_move s s' id i p p' :
  calls s !! id = Some (i, p) → running p = true → (running p' = true ∨ ∃ o, p' = Done o) →
  (∀ r, p = Releasing (Some r) → p' = Done (Some r)) → calls s' = <[id := (i, p')]> (calls s) → keeps s s'.
Proof.
  intros Hi Hp Hp' Hr Hc. split.
  - intros k id' r (i' & He & Hk & Hs & Ho). exists i'. rewrite Hc. split; [done|]. split; [done|]. split; [done|].
    destruct (decide (id' = id)) as [->|]; [|by rewrite lookup_insert_ne].
    rewrite lookup_insert_eq. destruct Ho as [Ho|Ho]; rewrite Ho in Hi; simplify_eq. right. by rewrite (Hr r).
  - intros id' i' q H Hq. rewrite Hc. destruct (decide (id' = id)) as [->|].
    + rewrite lookup_insert_eq. rewrite Hi in H. simplify_eq. eauto.
    + rewrite lookup_insert_ne by done. eauto.
Qed.

Lemma runs_insert s s' id i p k id' :
  calls s' = <[id := (i, p)]> (calls s) →
  runs s' k id' ↔ (id' = id ∧ eligibleForCoalesce i = true ∧ coalesceKey i = k ∧ running p = true) ∨ (id' ≠ id ∧ runs s k id').
Proof.
  intros Hc. unfold runs. rewrite Hc. destruct (decide (id' = id)) as [->|]; [rewrite lookup_insert_eq|rewrite lookup_insert_ne by done]; naive_solver.
Qed.

(** The invariant holds again when the step keeps what it must and the rest
    is checked. *)
Lemma inv_joined_keeps s s' id (i : CoalesceInput) owner :
  inv s → keeps s s' → calls s !! id = Some (i, Joined owner) →
  eligibleForCoalesce i = true ∧ ∃ i' p, calls s' !! owner = Some (i', p) ∧ coalesceKey i' = coalesceKey i ∧
    eligibleForCoalesce i' = true ∧ (running p = true ∨ ∃ o, p = Done o).
Proof.
  intros Hi [_ Hk] Hj. destruct (inv_joined s Hi id i owner Hj) as (He & i' & p & Ho & Hck & He' & Hp).
  split; [done|]. destruct (Hk owner i' p Ho Hp) as (p' & ? & ?). eauto 10.
Qed.

Lemma inv_next s s' id i p :
  inv s → keeps s s' → calls s' = <[id := (i, p)]> (calls s) →
  (∀ k id', inflight s' !! k = Some id' ↔ runs s' k id') →
  (∀ owner, p = Joined owner → eligibleForCoalesce i = true ∧ inflight s !! coalesceKey i = Some owner ∧ owner ≠ id) →
  (settles p = true → eligibleForCoalesce i = true) →
  (∀ r, p = Cached r → ∃ id', ran s (coalesceKey i) id' r) →
  (∀ k r t, recentDecisions s' !! k = Some (r, t) → recentDecisions s !! k = Some (r, t) ∨ ran s' k id r) →
  inv s'.
Proof.
  intros Hi Hk Hc Hf Hj Hst Hca Hr. split; [done|..].
  - intros id' i' owner H. rewrite Hc in H. destruct (decide (id' = id)) as [->|Hne].
    + rewrite lookup_insert_eq in H. simplify_eq. destruct (Hj _ eq_refl) as (He & Hin & Hno). split; [done|].
      apply (inv_inflight s Hi) in Hin as (i0 & p0 & H0 & He0 & Hk0 & Hp0).
      exists i0, p0. rewrite Hc, lookup_insert_ne by done. auto.
    + rewrite lookup_insert_ne in H by done. by eapply inv_joined_keeps.
  - intros id' i' q H Hq. rewrite Hc in H. destruct (decide (id' = id)) as [->|Hne].
    + rewrite lookup_insert_eq in H. simplify_eq. by apply Hst.
    + rewrite lookup_insert_ne in H by done. by eapply inv_settling.
  - intros id' i' r H. rewrite Hc in H. destruct (decide (id' = id)) as [->|Hne].
    + rewrite lookup_insert_eq in H. simplify_eq. destruct (Hca _ eq_refl) as (id' & ?). exists id'. by apply Hk.
    + rewrite lookup_insert_ne in H by done. destruct (inv_cached s Hi _ _ _ H) as (id'' & ?). exists id''. by apply Hk.
  - intros k r t H. destruct (Hr k r t H) as [H'|H']; [|eauto]. destruct (inv_recent s Hi _ _ _ H') as (id' & ?).
    exists id'. by apply Hk.
Qed.

Lemma gc_subseteq now s k r t :
  recentDecisions (gcRecentDecisions now s) !! k = Some (r, t) →
  recentDecisions s !! k = Some (r, t) ∧ (now - t <= COALESCE_WINDOW_MS)%Z.
Proof.
  cbn. intros H. apply map_lookup_filter_Some in H as [H Hf]. split; [done|]. unfold fresh in Hf. simpl in Hf.
  apply negb_true_iff in Hf. bool_to_prop. lia.
Qed.

Lemma running_guard i now s : running (runWithGuard i now s) = true.
Proof. unfold runWithGuard. by destruct (_ <? _)%Z. Qed.

(** A running call that goes on running changes neither the runs nor the table. *)
Lemma runs_move s s' id i p p' :
  inv s → calls s !! id = Some (i, p) → calls s' = <[id := (i, p')]> (calls s) → inflight s' = inflight s →
  eligibleForCoalesce i = false ∨ (running p = true ∧ running p' = true) →
  ∀ k id', inflight s' !! k = Some id' ↔ runs s' k id'.
Proof.
  intros Hi H Hc Hf Hor k id'. rewrite Hf, (inv_inflight s Hi), (runs_insert s s' id i p') by done.
  destruct (decide (id' = id)) as [->|]; [|naive_solver].
  unfold runs. rewrite H. split.
  - intros (? & ? & [= <- <-] & He & Hk & _). left. destruct Hor as [?|[_ ?]]; [congruence|done].
  - intros [(_ & He & Hk & _)|[? _]]; [|done]. destruct Hor as [?|[? _]]; [congruence|]. eauto 10.
Qed.

Lemma runs_skip s id k id' (P : Prop) :
  ¬ runs s k id → ¬ P → runs s k id' ↔ (id' = id ∧ P) ∨ (id' ≠ id ∧ runs s k id').
Proof. intros Hr HP. destruct (decide (id' = id)) as [->|]; tauto. Qed.

Lemma step_call id i now now' s :
  inv s → calls s !! id = None → inv (withRotationCoalesce id i now now' s).
Proof.
  intros Hi Hn. unfold withRotationCoalesce. pose proof (running_guard i now') as Hg.
  assert (Hruns : ∀ k, ¬ runs s k id) by (intros k (? & ? & ? & _); congruence).
  destruct (eligibleForCoalesce i) eqn:He; cbv zeta.
  - destruct (recentDecisions (gcRecentDecisions now s) !! coalesceKey i) as [[r t]|] eqn:Er;
      [|destruct (inflight (gcRecentDecisions now s) !! coalesceKey i) as [owner|] eqn:Eo].
    + apply gc_subseteq in Er as [Er _].
      eapply (inv_next s _ id i (Cached r)); [done|by eapply keeps_new|done| |done|done| |].
      * intros k id'. cbn [inflight set_phase gcRecentDecisions set_recent].
        rewrite (runs_insert s _ id i (Cached r)), (inv_inflight s Hi) by done.
        apply runs_skip; [done|]. by intros (_ & _ & ?).
      * intros r' [= <-]. by eapply inv_recent.
      * intros k r' t' H. left. by apply gc_subseteq in H as [? _].
    + eapply (inv_next s _ id i (Joined owner)); [done|by eapply keeps_new|done| | |done|done|].
      * intros k id'. cbn [inflight set_phase gcRecentDecisions set_recent].
        rewrite (runs_insert s _ id i (Joined owner)), (inv_inflight s Hi) by done.
        apply runs_skip; [done|]. by intros (_ & _ & ?).
      * intros o [= <-]. split; [done|]. split; [exact Eo|]. intros ->. apply (inv_inflight s Hi) in Eo. naive_solver.
      * intros k r' t' H. left. by apply gc_subseteq in H as [? _].
    + eapply (inv_next s _ id i); [done|by eapply keeps_new|cbn; reflexivity|..].
      * intros k id'. rewrite (runs_insert s _ id i) by (cbn; reflexivity).
        specialize (Hg (gcRecentDecisions now s)). cbn [inflight set_phase gcRecentDecisions set_recent set_inflight] in *.
        destruct (decide (k = coalesceKey i)) as [->|Hk].
        -- rewrite lookup_insert_eq. split; [intros [= ->]; naive_solver|].
           intros [?|[_ Hr]]; [naive_solver|]. apply (inv_inflight s Hi) in Hr. congruence.
        -- rewrite lookup_insert_ne, (inv_inflight s Hi) by done. naive_solver.
      * intros o Ho. specialize (Hg (gcRecentDecisions now s)). by rewrite Ho in Hg.
      * done.
      * intros o Ho. specialize (Hg (gcRecentDecisions now s)). by rewrite Ho in Hg.
      * intros k r' t' H. left. by apply gc_subseteq in H as [? _].
  - specialize (Hg s). eapply (inv_next s _ id i); [done|by eapply keeps_new|cbn; reflexivity|..].
    + intros k id'. cbn [inflight set_phase]. rewrite (runs_insert s _ id i), (inv_inflight s Hi) by (cbn; reflexivity).
      apply runs_skip; [done|]. intros (? & _). congruence.
    + intros o Ho. by rewrite Ho in Hg.
    + unfold runWithGuard. by destruct (_ <? _)%Z.
    + intros o Ho. by rewrite Ho in Hg.
    + intros k r' t' H. by left.
Qed.

(** A running call moves on, without leaving the table. *)
Lemma move_inv s s' id i p p' :
  inv s → calls s !! id = Some (i, p) → running p = true → (running p' = true ∨ ∃ o, p' = Done o) →
  (∀ r, p = Releasing (Some r) → p' = Done (Some r)) →
  calls s' = <[id := (i, p')]> (calls s) → inflight s' = inflight s →
  eligibleForCoalesce i = false ∨ running p' = true → (settles p' = true → eligibleForCoalesce i = true) →
  (∀ k r t, recentDecisions s' !! k = Some (r, t) → recentDecisions s !! k = Some (r, t) ∨ ran s' k id r) → inv s'.
Proof.
  intros Hi H Hp Hp' Hr Hc Hf Hor Hst Hrec.
  eapply (inv_next s s' id i p'); [done|by eapply keeps_move|done| | |done| |done].
  - eapply runs_move; [done..|]. destruct Hor; [by left|by right].
  - intros o ->. destruct Hp' as [?|[? ?]]; done.
  - intros o ->. destruct Hp' as [?|[? ?]]; done.
Qed.

Lemma step_inv a s s' : inv s → step a s = Some s' → inv s'.
Proof.
  intros Hi H. destruct a as [id i now now'|id now|id r now|id|id now|id]; cbn [step] in H;
    destruct (calls s !! id) as [[i0 p0]|] eqn:E; try done.
  - injection H as <-. by apply step_call.
  - destruct p0 as [w| | | | | |]; try done. destruct (w <=? now)%Z; simplify_eq.
    eapply (move_inv s _ id i0 _ Working); [exact Hi|exact E|done|by left|done|done|done|by right|done|by left].
  - destruct p0 as [w| | | | | |]; simplify_eq. unfold finish. cbv zeta.
    eapply (move_inv s _ id i0 Working); [exact Hi|exact E|done| |done|cbn; by destruct (shouldCache i0 r)
      |cbn; by destruct (shouldCache i0 r)| | |cbn; destruct (shouldCache i0 r); by left];
      destruct (eligibleForCoalesce i0); cbn; eauto.
  - destruct p0 as [w| | | | | |]; simplify_eq.
    eapply (move_inv s _ id i0 Working); [exact Hi|exact E|done| |done|done|done| | |by left];
      destruct (eligibleForCoalesce i0); cbn; eauto.
  - destruct p0 as [w| |r| | | |]; simplify_eq. unfold settle. cbv zeta.
    assert (He : eligibleForCoalesce i0 = true) by by eapply inv_settling.
    eapply (move_inv s _ id i0 (Settling r) (Releasing (Some r))); [exact Hi|exact E|done|by left|done
      |cbn; by destruct (shouldCache i0 r)|cbn; by destruct (shouldCache i0 r)|by right|done|].
    intros k r' t. cbn. destruct (shouldCache i0 r) eqn:Es; [|by left]. cbn. intros Hl.
    apply lookup_insert_Some in Hl as [[<- Hl]|[_ Hl]]; [|by left]. simplify_eq. right.
    exists i0. cbn. rewrite lookup_insert_eq. auto.
  - destruct p0 as [w| | |o| | |]; simplify_eq. unfold release.
    assert (He : eligibleForCoalesce i0 = true) by by eapply inv_settling.
    assert (Hin : inflight s !! coalesceKey i0 = Some id) by (apply (inv_inflight s Hi); exists i0; eauto).
    eapply (inv_next s _ id i0 (Done o)); [exact Hi| |done| |done|done|done|by left].
    + eapply (keeps_move s _ id i0 _ (Done o)); [exact E|done|right; eauto| |done]. by intros r [= ->].
    + intros k id'. cbn [inflight set_phase set_inflight]. rewrite (runs_insert s _ id i0 (Done o)) by done.
      destruct (decide (k = coalesceKey i0)) as [->|Hk].
      * rewrite lookup_delete_eq. split; [done|]. intros [(_ & _ & _ & ?)|[Hne Hr]]; [done|].
        apply (inv_inflight s Hi) in Hr. congruence.
      * rewrite lookup_delete_ne, (inv_inflight s Hi) by done. split; [|naive_solver].
        intros Hr. right. split; [|done]. intros ->. destruct Hr as (? & ? & ? & ? & ? & ?). naive_solver.
Qed.

Lemma reachable_inv s : reachable step init s → inv s.
Proof. apply reachable_ind_inv; [apply inv_init|]. intros a s0 s1 H0 H1. by apply (step_inv a s0). Qed.

(** Single flight: in every reachable state at most one call runs the
    rotation of a key, the table of flights holds exactly the running calls,
    and a call that joined waits for one with its key that is running or
    settled, so no caller is left with a promise that nobody settles. *)
Theorem coalesce_single_flight (s : state) :
  reachable step init s →
  (∀ k id id', runs s k id → runs s k id' → id = id') ∧
  (∀ k id, inflight s !! k = Some id ↔ runs s k id) ∧
  (∀ id i owner, calls s !! id = Some (i, Joined owner) →
    runs s (coalesceKey i) owner ∨ ∃ o, outcome owner s = Some o ∧ outcome id s = Some o).
Proof.
  intros Hr. pose proof (reachable_inv s Hr) as Hi. split; [|split].
  - intros k id id' H1 H2. apply (inv_inflight s Hi) in H1, H2. congruence.
  - apply (inv_inflight s Hi).
  - intros id i owner Hj. destruct (inv_joined s Hi _ _ _ Hj) as (_ & i' & p & Ho & Hk & He & [Hp|[o ->]]).
    + left. exists i', p. auto.
    + right. exists o. unfold outcome. by rewrite Hj, Ho.
Qed.

(** The cache: a call is answered from the cache only with the result of a
    run of its key that was worth caching and is no older than the window. *)
Theorem coalesce_cache_window (s s' : state) (id : nat) (i : CoalesceInput) (now now' : Z) (r : R) :
  reachable step init s → step (Call id i now now') s = Some s' → calls s' !! id = Some (i, Cached r) →
  eligibleForCoalesce i = true ∧
  ∃ t id', recentDecisions s !! coalesceKey i = Some (r, t) ∧ (now - t <= COALESCE_WINDOW_MS)%Z ∧ ran s (coalesceKey i) id' r.
Proof.
  intros Hr H Hc. pose proof (reachable_inv s Hr) as Hi. cbn [step] in H. destruct (calls s !! id); [done|].
  injection H as <-. unfold withRotationCoalesce in Hc. cbv zeta in Hc.
  assert (Hng : ∀ s0, runWithGuard i now' s0 ≠ Cached r)
    by (intros s0; unfold runWithGuard; by destruct (_ <? _)%Z).
  destruct (eligibleForCoalesce i) eqn:He; [|cbn in Hc; rewrite lookup_insert_eq in Hc; injection Hc; by intros ?%Hng].
  split; [done|]. destruct (recentDecisions (gcRecentDecisions now s) !! coalesceKey i) as [[r' t]|] eqn:Er.
  - cbn in Hc. rewrite lookup_insert_eq in Hc. injection Hc as ->. apply gc_subseteq in Er as [Er Ht].
    destruct (inv_recent s Hi _ _ _ Er) as (id' & ?). eauto.
  - destruct (inflight (gcRecentDecisions now s) !! coalesceKey i); cbn in Hc; rewrite lookup_insert_eq in Hc; [done|].
    injection Hc. by intros ?%Hng.
Qed.

(** ** The interval between rotations *)

Definition sequential (s : state) : Prop :=
  ∀ id id' i i' p p', calls s !! id = Some (i, p) → calls s !! id' = Some (i', p') →
    running p = true → running p' = true → providerId i = providerId i' → id = id'.

(** States reached with one running call of a provider at a time. *)
Inductive one_at_a_time : state → Prop :=
| one_init : one_at_a_time init
| one_step a s s' : one_at_a_time s → step a s = Some s' → sequential s' → one_at_a_time s'.

Definition earliest (provider : jsstr) (s : state) : Z :=
  default 0%Z (lastRotationByProvider s !! provider) + MIN_INTERVAL_MS.
Definition waits_enough (s : state) : Prop :=
  ∀ id i w, calls s !! id = Some (i, Sleeping w) → (earliest (providerId i) s <= w)%Z.

(** The call that starts to work in a step, and when. *)
Definition starts (a : action) : option (nat * Z) :=
  match a with Call id _ _ now' => Some (id, now') | Wake id now => Some (id, now) | _ => None end.

Lemma waits_insert s s' id i p :
  waits_enough s → calls s' = <[id := (i, p)]> (calls s) → lastRotationByProvider s' = lastRotationByProvider s →
  (∀ w, p = Sleeping w → (earliest (providerId i) s <= w)%Z) → waits_enough s'.
Proof.
  intros Hw Hc Hl Hp id' i' w H. unfold earliest. rewrite Hl. fold (earliest (providerId i') s). rewrite Hc in H.
  destruct (decide (id' = id)) as [->|]; [rewrite lookup_insert_eq in H; simplify_eq; by apply Hp|].
  rewrite lookup_insert_ne in H by done. by eapply Hw.
Qed.

Lemma guard_waits i now s w : runWithGuard i now s = Sleeping w → (earliest (providerId i) s <= w)%Z.
Proof. unfold runWithGuard, waitMs, earliest. destruct (_ <? _)%Z; [intros [= <-]|done]. lia. Qed.

Lemma call_waits id i now now' s : waits_enough s → waits_enough (withRotationCoalesce id i now now' s).
Proof.
  intros Hw. unfold withRotationCoalesce. cbv zeta.
  destruct (eligibleForCoalesce i); [|eapply waits_insert; [done|done|done|]; apply guard_waits].
  repeat case_match; eapply waits_insert; try done.
  intros w Hg. by apply guard_waits in Hg.
Qed.

Lemma step_waits a s s' : sequential s → waits_enough s → step a s = Some s' → waits_enough s'.
Proof.
  intros Hq Hw H. destruct a as [id i now now'|id now|id r now|id|id now|id]; cbn [step] in H;
    destruct (calls s !! id) as [[i0 p0]|] eqn:E; try done.
  - injection H as <-. by apply call_waits.
  - destruct p0; try done. destruct (_ <=? _)%Z; simplify_eq. by eapply waits_insert.
  - destruct p0; simplify_eq. unfold finish. cbv zeta. intros id' i' w H. cbn in H.
    replace (calls (if shouldCache i0 r then _ else s)) with (calls s) in H by (by destruct (shouldCache i0 r)).
    destruct (decide (id' = id)) as [->|Hne].
    + rewrite lookup_insert_eq in H. by destruct (eligibleForCoalesce i0).
    + rewrite lookup_insert_ne in H by done. specialize (Hw _ _ _ H). unfold earliest in *. cbn.
      destruct (shouldCache i0 r); [|done]. cbn. rewrite lookup_insert_ne; [done|]. intros Hp.
      apply Hne. by eapply (Hq id' id).
  - destruct p0; simplify_eq. eapply waits_insert; [done|done|done|]. by destruct (eligibleForCoalesce i0).
  - destruct p0; simplify_eq. unfold settle. destruct (shouldCache i0 r); by eapply waits_insert.
  - destruct p0; simplify_eq. by eapply waits_insert.
Qed.

Lemma one_waits s : one_at_a_time s → sequential s ∧ waits_enough s.
Proof.
  induction 1 as [|a s s' _ [IHq IHw] Hs Hq].
  - split; [intros ? ? ? ? ? ?|intros ? ? ?]; cbn; by rewrite lookup_empty.
  - split; [done|]. by apply (step_waits a s s').
Qed.

(** The interval: as long as a provider has one running call at a time, the
    work of a rotation starts no sooner than the interval after the last
    rotation of the provider. *)
Theorem coalesce_min_interval (s s' : state) (a : action) (id : nat) (i : CoalesceInput) (now : Z) :
  one_at_a_time s → step a s = Some s' → starts a = Some (id, now) → calls s' !! id = Some (i, Working) →
  (default 0%Z (lastRotationByProvider s !! providerId i) + MIN_INTERVAL_MS <= now)%Z.
Proof.
  intros Ho H Hst Hc. destruct (one_waits s Ho) as [_ Hw]. fold (earliest (providerId i) s).
  assert (Hg : ∀ s0, lastRotationByProvider s0 = lastRotationByProvider s → runWithGuard i now s0 = Working →
    (earliest (providerId i) s <= now)%Z).
  { intros s0 Hl. unfold runWithGuard, waitMs, earliest. rewrite Hl. destruct (Z.ltb_spec 0 (default 0%Z (lastRotationByProvider s !! providerId i) + MIN_INTERVAL_MS - now)); [done|lia]. }
  destruct a as [id0 i0 n n'|id0 n| | | |]; cbn [starts] in Hst; simplify_eq; cbn [step] in H; destruct (calls s !! id) as [[i1 p1]|] eqn:E; try done.
  - injection H as <-. unfold withRotationCoalesce in Hc. cbv zeta in Hc.
    repeat case_match; cbn in Hc; rewrite lookup_insert_eq in Hc; simplify_eq; eapply Hg; done.
  - destruct p1 as [w| | | | | |]; try done. destruct (Z.leb_spec w now); simplify_eq. cbn in Hc.
    rewrite lookup_insert_eq in Hc. simplify_eq. specialize (Hw _ _ _ E). lia.
Qed.
End Coalesce.

(** ** Witnesses *)

Definition demo_input (key : string) : CoalesceInput :=
  Input (js key) (js "openai") true (λ r : nat, negb (Nat.eqb r 0)).
Notation demo_step := (step (R := nat) 3000 5000).
Definition demo_actions : list action :=
  [Call 0 (demo_input "a") 100000 100000; Call 1 (demo_input "a") 100001 100001; Finish 0 7 100500;
   Settle 0 100501; Release 0; Call 2 (demo_input "a") 103501 103501].
Definition demo_state : option state := run demo_step demo_actions init.

Example demo_outcomes :
  (λ s, map (λ id, outcome id s) [0; 1; 2]) <$> demo_state = Some [Some (Some 7); Some (Some 7); Some (Some 7)].
Proof. by vm_compute. Qed.

Lemma coalesce_demo_reachable acts s : run demo_step acts init = Some s → reachable demo_step init s.
Proof. intros H. eapply run_reachable; [|exact H]. constructor. Qed.

Lemma coalesce_single_flight_witness :
  ∃ s, run demo_step (take 2 demo_actions) init = Some s ∧ inflight s !! js "a" = Some 0 ∧ runs s (js "a") 0.
Proof.
  eexists. split; [by vm_compute|]. split; [by vm_compute|].
  eapply (coalesce_single_flight 3000 5000); [apply (coalesce_demo_reachable (take 2 demo_actions)); by vm_compute|by vm_compute].
Defined.

Lemma coalesce_cache_window_witness :
  ∃ s t id, run demo_step (take 5 demo_actions) init = Some s ∧
    recentDecisions s !! js "a" = Some (7, t) ∧ (103501 - t <= 3000)%Z ∧ ran s (js "a") id 7.
Proof.
  destruct (run demo_step (take 5 demo_actions) init) as [s|] eqn:E; [|by vm_compute in E].
  destruct (coalesce_cache_window 3000 5000 s (withRotationCoalesce 3000 5000 2 (demo_input "a") 103501 103501 s)
    2 (demo_input "a") 103501 103501 7) as (_ & t & id & H1 & H2 & H3).
  - by eapply coalesce_demo_reachable.
  - vm_compute in E. injection E as <-. by vm_compute.
  - vm_compute in E. injection E as <-. by vm_compute.
  - exists s, t, id. auto.
Defined.

Lemma coalesce_min_interval_witness :
  ∃ s, one_at_a_time (R := nat) 3000 5000 s ∧ demo_step (Call 0 (demo_input "a") 100000 100000) s <> None ∧
    (5000 <= 100000)%Z.
Proof.
  exists init. split; [constructor|]. split; [done|].
  apply (coalesce_min_interval 3000 5000 init (withRotationCoalesce 3000 5000 0 (demo_input "a") 100000 100000 init)
    (Call 0 (demo_input "a") 100000 100000) 0 (demo_input "a") 100000); [constructor|done|done|by vm_compute].
Defined.

(** Two accounts of one provider that hit their limits together: both calls
    read the same last rotation, and the rotations are ten milliseconds apart. *)
Example interval_not_kept :
  ∃ s, run demo_step [Call 0 (demo_input "a") 100000 100000; Call 1 (demo_input "b") 100005 100005;
                      Finish 0 7 100500; Finish 1 8 100510] init = Some s ∧
    lastRotationByProvider s !! js "openai" = Some 100510%Z.
Proof. eexists. split; by vm_compute. Qed.
