(* ===== verification/Lanes.v ===== *)
(** Command lanes of the daemon ([daemon/lanes.ts]).

    Lane objects live in a heap: a running task keeps the object it was started
    on, while the table [lanes] may meanwhile hold another one under the key.  A
    task runs from the moment [pump] calls it; it does not call the module
    synchronously.  Promises are known by the id of their entry; [settled] lists
    the calls of [resolve] and [reject], of which a promise heeds the first. *)

From S2P Require Import Prelude JsString.

Inductive CommandLane := Main | Cron | Subagent | Nested.
#[export] Instance CommandLane_eq_dec : EqDecision CommandLane.
Proof. solve_decision. Defined.

Definition all_lanes : list CommandLane := [Main; Cron; Subagent; Nested].
Definition lane_name (l : CommandLane) : jsstr :=
  match l with Main => js "main" | Cron => js "cron" | Subagent => js "subagent" | Nested => js "nested" end.
Definition DEFAULT_CONCURRENCY (l : CommandLane) : nat := match l with Subagent => 2 | _ => 1 end.
Definition DEFAULT_WORKSPACE_ID : jsstr := js "default".

(** ** Lane keys *)

Definition buildLaneKey (workspaceId : jsstr) (lane : CommandLane) : jsstr :=
  workspaceId ++ js ":" ++ lane_name lane.

(** The parts before and after the last colon. *)
Fixpoint split_last_colon (key : jsstr) : option (jsstr * jsstr) :=
  match key with
  | [] => None
  | c :: key' =>
      match split_last_colon key' with
      | Some (a, b) => Some (c :: a, b)
      | None => if (c =? 58)%N then Some ([], key') else None
      end
  end.
Definition parseLaneKey (key : jsstr) : option (jsstr * CommandLane) :=
  match split_last_colon key with
  | None => None
  | Some (workspaceId, name) =>
      match find (λ l, bool_decide (lane_name l = name)) all_lanes with
      | Some lane => Some (workspaceId, lane)
      | None => None
      end
  end.

(** ** State *)

Record entry := Entry { e_id : nat; e_gen : nat }.
Record LaneState := Lane {
  queue : list entry;
  activeTaskIds : gset nat;
  maxConcurrent : nat;
  generation : nat;
  draining : bool
}.
Record running_task := Running { r_entry : entry; r_key : jsstr; r_loc : nat }.

Inductive outcome := Resolved | RejectedError | CommandLaneCleared.

Record state := State {
  heap : gmap nat LaneState;
  next_loc : nat;
  lanes : gmap jsstr nat;
  running : list running_task;
  settled : list (nat * outcome);
  taskIdCounter : nat;
  drain : bool
}.
Definition init : state := State ∅ 0 ∅ [] [] 0 false.

Definition new_lane (max : nat) : LaneState := Lane [] ∅ max 0 false.

Definition set_lane (l : nat) (ln : LaneState) (s : state) : state :=
  State (<[l := ln]> (heap s)) (next_loc s) (lanes s) (running s) (settled s) (taskIdCounter s) (drain s).
(** [lanes.set(key, {...})] with a new object. *)
Definition put_lane (key : jsstr) (ln : LaneState) (s : state) : state :=
  State (<[next_loc s := ln]> (heap s)) (S (next_loc s)) (<[key := next_loc s]> (lanes s))
        (running s) (settled s) (taskIdCounter s) (drain s).
Definition settle (os : list (nat * outcome)) (s : state) : state :=
  State (heap s) (next_loc s) (lanes s) (running s) (settled s ++ os) (taskIdCounter s) (drain s).

(** [getLane(key)]: a missing lane is registered with defaults. *)
Definition getLane (key : jsstr) (s : state) : nat * state :=
  match lanes s !! key with
  | Some l => (l, s)
  | None =>
      let max := match parseLaneKey key with Some (_, lane) => DEFAULT_CONCURRENCY lane | None => 1 end in
      (next_loc s, put_lane key (new_lane max) s)
  end.

(** The loop of [pump]; every round takes an entry off the queue. *)
Fixpoint pump_loop (fuel : nat) (key : jsstr) (l : nat) (s : state) : state :=
  match fuel with
  | O => s
  | S fuel =>
      match heap s !! l with
      | Some (Lane (e :: rest) act max gen dr) =>
          if Nat.ltb (size act) max then
            let s1 := set_lane l (Lane rest ({[e_id e]} ∪ act) max gen dr) s in
            pump_loop fuel key l
              (State (heap s1) (next_loc s1) (lanes s1) (running s1 ++ [Running e key l]) (settled s1)
                     (taskIdCounter s1) (drain s1))
          else s
      | _ => s
      end
  end.
Definition pump (key : jsstr) (s : state) : state :=
  let '(l, s1) := getLane key s in
  match heap s1 !! l with
  | Some ln => if draining ln then s1 else pump_loop (length (queue ln)) key l s1
  | None => s1
  end.

(** [enqueue]: the id of the entry, or [None] when the daemon is draining. *)
Definition enqueue (lane : CommandLane) (workspaceId : jsstr) (s : state) : option nat * state :=
  if drain s then (None, s)
  else
    let key := buildLaneKey workspaceId lane in
    let '(l, s1) := getLane key s in
    match heap s1 !! l with
    | None => (None, s1)
    | Some ln =>
        let id := S (taskIdCounter s1) in
        let ln' := Lane (queue ln ++ [Entry id (generation ln)]) (activeTaskIds ln) (maxConcurrent ln)
                        (generation ln) (draining ln) in
        (Some id, pump key (State (<[l := ln']> (heap s1)) (next_loc s1) (lanes s1) (running s1) (settled s1) id (drain s1)))
    end.

(** The rest of [executeEntry] when the task of [r] has ended, by returning or
    by throwing. *)
Definition finish (r : running_task) (threw : bool) (s : state) : state :=
  match heap s !! r_loc r with
  | None => s
  | Some ln =>
      let out := if threw then RejectedError
                 else if Nat.eqb (e_gen (r_entry r)) (generation ln) then Resolved else CommandLaneCleared in
      let ln' := Lane (queue ln) (activeTaskIds ln ∖ {[e_id (r_entry r)]}) (maxConcurrent ln) (generation ln) (draining ln) in
      pump (r_key r) (set_lane (r_loc r) ln' (settle [(e_id (r_entry r), out)] s))
  end.

Definition cleared (es : list entry) : list (nat * outcome) := map (λ e, (e_id e, CommandLaneCleared)) es.

(** [registerWorkspace]: an existing object under a key is replaced. *)
Definition registerWorkspace (workspaceId : jsstr) (concurrency : CommandLane → option nat) (s : state) : state :=
  foldl (λ s lane, put_lane (buildLaneKey workspaceId lane)
           (new_lane (default (DEFAULT_CONCURRENCY lane) (concurrency lane))) s) s all_lanes.

Definition unregister_lane (key : jsstr) (s : state) : state :=
  match lanes s !! key with
  | None => s
  | Some l =>
      let s1 := settle (cleared (match heap s !! l with Some ln => queue ln | None => [] end)) s in
      State (heap s1) (next_loc s1) (delete key (lanes s1)) (running s1) (settled s1) (taskIdCounter s1) (drain s1)
  end.
Definition unregisterWorkspace (workspaceId : jsstr) (s : state) : state :=
  foldl (λ s lane, unregister_lane (buildLaneKey workspaceId lane) s) s all_lanes.

Definition reset_lane (l : nat) (s : state) : state :=
  match heap s !! l with
  | None => s
  | Some ln => set_lane l (Lane [] ∅ (maxConcurrent ln) (S (generation ln)) false) (settle (cleared (queue ln)) s)
  end.
(** [resetAll]: every lane of the table. *)
Definition resetAll (s : state) : state :=
  foldl (λ s kl, reset_lane kl.2 s) s (map_to_list (lanes s)).

(** ** Queries *)

Definition active_of (s : state) (l : nat) : nat :=
  match heap s !! l with Some ln => size (activeTaskIds ln) | None => 0 end.
Definition totalActiveTasks (s : state) : nat := map_fold (λ _ l total, total + active_of s l) 0 (lanes s).
Definition workspaceActiveTasks (workspaceId : jsstr) (s : state) : nat :=
  map_fold (λ key l total, if startsWith key (workspaceId ++ js ":") then total + active_of s l else total) 0 (lanes s).
Definition queueSize (lane : CommandLane) (workspaceId : jsstr) (s : state) : nat :=
  match lanes s !! buildLaneKey workspaceId lane ≫= λ l, heap s !! l with
  | None => 0
  | Some ln => length (queue ln) + size (activeTaskIds ln)
  end.
Definition isIdle (s : state) : bool := Nat.eqb (totalActiveTasks s) 0.
Definition isWorkspaceIdle (workspaceId : jsstr) (s : state) : bool := Nat.eqb (workspaceActiveTasks workspaceId s) 0.
Definition info (s : state) : gmap jsstr (nat * nat * nat * nat) :=
  omap (λ l, (λ ln, (length (queue ln), size (activeTaskIds ln), maxConcurrent ln, generation ln)) <$> heap s !! l) (lanes s).

(** ** Steps *)

Inductive action :=
| Enqueue (lane : CommandLane) (workspaceId : jsstr)
| Finish (n : nat) (threw : bool)
| Register (workspaceId : jsstr) (concurrency : CommandLane → option nat)
| Unregister (workspaceId : jsstr)
| ResetAll
| StartDrain
| StopDrain.

Definition set_drain (b : bool) (s : state) : state :=
  State (heap s) (next_loc s) (lanes s) (running s) (settled s) (taskIdCounter s) b.

Definition step (a : action) (s : state) : option state :=
  match a with
  | Enqueue lane ws => Some (enqueue lane ws s).2
  | Finish n threw =>
      match running s !! n with
      | Some r => Some (finish r threw (State (heap s) (next_loc s) (lanes s) (delete n (running s)) (settled s)
                                              (taskIdCounter s) (drain s)))
      | None => None
      end
  | Register ws c => Some (registerWorkspace ws c s)
  | Unregister ws => Some (unregisterWorkspace ws s)
  | ResetAll => Some (resetAll s)
  | StartDrain => Some (set_drain true s)
  | StopDrain => Some (set_drain false s)
  end.

(** ** Keys *)

Lemma split_last_colon_app a b :
  58%N ∉ b → split_last_colon (a ++ js ":" ++ b) = Some (a, b).
Proof.
  intros Hb. assert (Hnone : split_last_colon b = None).
  { clear a. induction b as [|c b IH]; [done|]. apply not_elem_of_cons in Hb as [Hc Hb]. simpl. rewrite IH by done.
    by destruct (N.eqb_spec c 58); [subst|]. }
  induction a as [|c a IH]; simpl; [by rewrite Hnone|]. simpl in IH. by rewrite IH.
Qed.

(** Lane keys: parsing the key of a workspace and a lane gives both back,
    whatever characters the workspace id has; so distinct pairs have distinct
    keys. *)
Theorem lane_key_roundtrip (workspaceId : jsstr) (lane : CommandLane) :
  parseLaneKey (buildLaneKey workspaceId lane) = Some (workspaceId, lane).
Proof.
  unfold parseLaneKey, buildLaneKey. rewrite split_last_colon_app; [by destruct lane|].
  by destruct lane; apply (bool_decide_unpack _).
Qed.

Lemma buildLaneKey_inj ws ws' l l' : buildLaneKey ws l = buildLaneKey ws' l' → ws = ws' ∧ l = l'.
Proof.
  intros E. assert (H : ∀ ws l, parseLaneKey (buildLaneKey ws l) = Some (ws, l)).
  { intros w x. unfold parseLaneKey, buildLaneKey. rewrite split_last_colon_app; [by destruct x|].
    by destruct x; apply (bool_decide_unpack _). }
  pose proof (H ws l) as H1. rewrite E, H in H1. by simplify_eq.
Qed.

(** ** Sums over the table *)

Definition sum_lanes (f : nat → nat) (m : gmap jsstr nat) : nat := map_fold (λ _ l total, total + f l) 0 m.

Lemma sum_insert f m k l : m !! k = None → sum_lanes f (<[k := l]> m) = f l + sum_lanes f m.
Proof.
  intros H. unfold sum_lanes. rewrite map_fold_insert_L; [lia| |done]. intros; lia.
Qed.

Lemma sum_delete f m k l : m !! k = Some l → sum_lanes f m = f l + sum_lanes f (delete k m).
Proof.
  intros H. rewrite <- (insert_delete_id m k l) at 1 by done. by rewrite sum_insert by apply lookup_delete_eq.
Qed.

Lemma sum_ext f g m : (∀ k l, m !! k = Some l → f l = g l) → sum_lanes f m = sum_lanes g m.
Proof.
  unfold sum_lanes. induction m as [|k l m Hk IH] using map_ind; intros H; [by rewrite !map_fold_empty|].
  change (sum_lanes f (<[k:=l]> m) = sum_lanes g (<[k:=l]> m)). rewrite !sum_insert by done.
  rewrite (H k l) by apply lookup_insert_eq. f_equal. apply IH. intros k' l' Hk'. apply (H k').
  rewrite lookup_insert_ne; [done|]. intros ->. congruence.
Qed.

(** One term changes. *)
Lemma sum_update f g m k l :
  m !! k = Some l → (∀ k' l', m !! k' = Some l' → k' ≠ k → f l' = g l') →
  sum_lanes f m + g l = sum_lanes g m + f l.
Proof.
  intros Hk H. rewrite (sum_delete f m k l), (sum_delete g m k l) by done.
  rewrite (sum_ext f g (delete k m)); [lia|]. intros k' l' Hk'. apply lookup_delete_Some in Hk' as [? ?]. by eapply H.
Qed.

(** ** Where an entry is *)

Definition occ (id : nat) (ids : list nat) : nat := length (filter (λ i, i = id) ids).

Lemma occ_app id xs ys : occ id (xs ++ ys) = occ id xs + occ id ys.
Proof. unfold occ. by rewrite filter_app, length_app. Qed.
Lemma occ_cons id x xs : occ id (x :: xs) = (if decide (x = id) then 1 else 0) + occ id xs.
Proof. unfold occ. rewrite filter_cons. by case_decide. Qed.
Lemma occ_nil id : occ id [] = 0.
Proof. done. Qed.
#[local] Hint Rewrite occ_app occ_cons occ_nil : occ.

Lemma occ_delete id (xs : list nat) n x : xs !! n = Some x → occ id xs = occ id (delete n xs) + occ id [x].
Proof. intros H. apply delete_Permutation in H. unfold occ. rewrite H at 1. rewrite filter_cons. by case_decide; simpl; rewrite ?filter_cons, ?filter_nil; rewrite ?decide_True, ?decide_False by done; simpl; lia. Qed.

Definition queued_at (s : state) (id l : nat) : nat :=
  match heap s !! l with Some ln => occ id (e_id <$> queue ln) | None => 0 end.
Definition running_ids (s : state) : list nat := (λ r, e_id (r_entry r)) <$> running s.
(** The places of an entry: queues of the table, running tasks, settlements. *)
Definition places (s : state) (id : nat) : nat :=
  sum_lanes (queued_at s id) (lanes s) + occ id (running_ids s) + occ id (settled s).*1.
Definition issued (s : state) (id : nat) : nat := if decide (1 ≤ id ≤ taskIdCounter s) then 1 else 0.

(** ** The invariant *)

(** A lane object and the running tasks: the active ids are those of the tasks
    started on it in its generation. *)
Record lane_ok (run : list running_task) (l : nat) (ln : LaneState) : Prop := {
  lo_size : size (activeTaskIds ln) ≤ maxConcurrent ln;
  lo_draining : draining ln = false;
  lo_active : ∀ id, id ∈ activeTaskIds ln ↔
    ∃ r, r ∈ run ∧ r_loc r = l ∧ e_id (r_entry r) = id ∧ e_gen (r_entry r) = generation ln;
  lo_queue : Forall (λ e, e_gen e = generation ln) (queue ln)
}.

(** [busy ln]: the lane waits for nothing but its tasks. *)
Definition busy (ln : LaneState) : Prop := queue ln = [] ∨ maxConcurrent ln ≤ size (activeTaskIds ln).

(** [strict]: no queued entry was ever dropped.  [exc]: the lane an operation is
    about to pump. *)
Record Inv (strict : bool) (exc : option jsstr) (s : state) : Prop := {
  i_fresh : ∀ l, is_Some (heap s !! l) → l < next_loc s;
  i_lanes : ∀ k l, lanes s !! k = Some l → is_Some (heap s !! l);
  i_inj : ∀ k k' l, lanes s !! k = Some l → lanes s !! k' = Some l → k = k';
  i_run : ∀ r, r ∈ running s → ∃ ln, heap s !! r_loc r = Some ln ∧ e_gen (r_entry r) ≤ generation ln ∧
            ∀ k, lanes s !! k = Some (r_loc r) → k = r_key r;
  i_lane : ∀ l ln, heap s !! l = Some ln → lane_ok (running s) l ln;
  i_work : ∀ k l ln, lanes s !! k = Some l → heap s !! l = Some ln → exc ≠ Some k → busy ln;
  i_places : ∀ id, places s id ≤ issued s id ∧ (strict = true → places s id = issued s id)
}.

Lemma Inv_change strict exc exc' s l ln ln' run' set' ctr' :
  Inv strict exc s → heap s !! l = Some ln → generation ln ≤ generation ln' →
  let s' := State (<[l := ln']> (heap s)) (next_loc s) (lanes s) run' set' ctr' (drain s) in
  (∀ r, r ∈ run' → r ∈ running s ∨ (r_loc r = l ∧ e_gen (r_entry r) = generation ln' ∧ lanes s !! r_key r = Some l)) →
  (∀ r, r_loc r ≠ l → r ∈ run' ↔ r ∈ running s) →
  lane_ok run' l ln' →
  (∀ k, lanes s !! k = Some l → exc' ≠ Some k → busy ln') →
  (∀ k, exc = Some k → exc' = Some k ∨ lanes s !! k = Some l ∨ lanes s !! k = None) →
  (∀ id, places s' id ≤ issued s' id ∧ (strict = true → places s' id = issued s' id)) →
  Inv strict exc' s'.
Proof.
  intros H Hl Hgen s' Hrun Hother Hok Hbusy Hexc Hp.
  assert (Hheap : ∀ l2, is_Some (heap s' !! l2) ↔ is_Some (heap s !! l2)).
  { intros l2. unfold s'. cbn [heap]. destruct (decide (l2 = l)) as [->|]; [|by rewrite lookup_insert_ne].
    rewrite lookup_insert_eq, Hl. split; by eexists. }
  split.
  - intros l2. rewrite Hheap. apply (i_fresh _ _ _ H).
  - intros k l2 Hk. rewrite Hheap. by apply (i_lanes _ _ _ H k).
  - apply (i_inj _ _ _ H).
  - intros r Hr. unfold s'. cbn [heap lanes]. destruct (Hrun r Hr) as [Hr'|(Hloc & Hg & Hk)].
    + destruct (i_run _ _ _ H r Hr') as (ln2 & Hln2 & Hg & Hkey). destruct (decide (r_loc r = l)) as [E|E].
      * rewrite E, lookup_insert_eq. rewrite E, Hl in Hln2. injection Hln2 as <-. exists ln'. split; [done|].
        split; [lia|]. by rewrite <- E.
      * rewrite lookup_insert_ne by done. eauto.
    + rewrite Hloc, lookup_insert_eq. exists ln'. split; [done|]. split; [lia|].
      intros k Hk'. by apply (i_inj _ _ _ H k (r_key r) l).
  - intros l2 ln2 Hl2. unfold s' in *. cbn [heap running] in *. destruct (decide (l2 = l)) as [->|E].
    + rewrite lookup_insert_eq in Hl2. injection Hl2 as <-. done.
    + rewrite lookup_insert_ne in Hl2 by done. destruct (i_lane _ _ _ H _ _ Hl2) as [? ? Ha ?]. split; [done..| |done].
      intros id. rewrite Ha. split; intros (r & Hr & Hloc & ?); exists r; (split; [|done]); apply Hother; congruence.
  - intros k l2 ln2 Hk Hl2 He. unfold s' in *. cbn [heap lanes] in *. destruct (decide (l2 = l)) as [->|E].
    + rewrite lookup_insert_eq in Hl2. injection Hl2 as <-. by apply (Hbusy k).
    + rewrite lookup_insert_ne in Hl2 by done. apply (i_work _ _ _ H k l2); [done..|].
      intros Hek. destruct (Hexc k Hek) as [?|[?|?]]; congruence.
  - exact Hp.
Qed.

(** The places after a change of the lane object [l]. *)
Lemma places_change s l ln ln' run' set' ctr' k id :
  (∀ k k' l, lanes s !! k = Some l → lanes s !! k' = Some l → k = k') →
  lanes s !! k = Some l → heap s !! l = Some ln →
  places (State (<[l := ln']> (heap s)) (next_loc s) (lanes s) run' set' ctr' (drain s)) id
    + occ id (e_id <$> queue ln) + occ id (running_ids s) + occ id (settled s).*1 =
  places s id + occ id (e_id <$> queue ln') + occ id ((λ r, e_id (r_entry r)) <$> run') + occ id set'.*1.
Proof.
  intros Hinj Hk Hl. unfold places. cbn [lanes settled]. set (s' := State _ _ _ _ _ _ _).
  assert (E : sum_lanes (queued_at s' id) (lanes s) + queued_at s id l = sum_lanes (queued_at s id) (lanes s) + queued_at s' id l).
  { apply (sum_update _ _ _ k); [done|]. intros k' l' Hk' Hne. unfold queued_at, s'. cbn [heap].
    rewrite lookup_insert_ne; [done|]. intros <-. apply Hne. by eapply Hinj. }
  replace (queued_at s id l) with (occ id (e_id <$> queue ln)) in E by (unfold queued_at; by rewrite Hl).
  replace (queued_at s' id l) with (occ id (e_id <$> queue ln')) in E
    by (unfold queued_at, s'; cbn [heap]; by rewrite lookup_insert_eq).
  unfold running_ids. change (running s') with run'. lia.
Qed.

Lemma places_change_unregistered s l ln' run' set' ctr' id :
  (∀ k, lanes s !! k ≠ Some l) →
  places (State (<[l := ln']> (heap s)) (next_loc s) (lanes s) run' set' ctr' (drain s)) id
    + occ id (running_ids s) + occ id (settled s).*1 =
  places s id + occ id ((λ r, e_id (r_entry r)) <$> run') + occ id set'.*1.
Proof.
  intros Hk. unfold places. cbn [lanes settled]. set (s' := State _ _ _ _ _ _ _).
  rewrite (sum_ext (queued_at s' id) (queued_at s id)).
  - unfold running_ids. change (running s') with run'. lia.
  - intros k l' Hk'. unfold queued_at, s'. cbn [heap]. rewrite lookup_insert_ne; [done|]. intros <-. by apply (Hk k).
Qed.

Lemma Inv_occ strict exc s id : Inv strict exc s → places s id ≤ 1.
Proof. intros H. destruct (i_places _ _ _ H id) as [Hp _]. unfold issued in Hp. by case_decide; lia. Qed.

Lemma occ_elem id xs : id ∈ xs → 1 ≤ occ id xs.
Proof.
  intros H. apply list_elem_of_split in H as (a & b & ->). rewrite occ_app, occ_cons, decide_True by done. lia.
Qed.

(** Brings an equation between places to sums of occurrences. *)
Ltac occ_norm H :=
  unfold running_ids in H; cbn [queue settled running] in H;
  rewrite ?fmap_app, ?fmap_cons, ?fmap_nil in H; cbn [r_entry e_id fst] in H; autorewrite with occ in H.
(** Closes the places clause when the entry has as many places as before. *)
Ltac same_places Hp :=
  match type of Hp with places ?s ?id ≤ _ ∧ _ =>
    match goal with |- places ?s' id ≤ issued ?s' id ∧ _ =>
      change (issued s' id) with (issued s id); replace (places s' id) with (places s id) by lia; exact Hp
    end
  end.

(** One round of the pump. *)
Lemma pump_one strict key l e rest act max gen dr s :
  Inv strict (Some key) s → lanes s !! key = Some l → heap s !! l = Some (Lane (e :: rest) act max gen dr) →
  size act < max →
  Inv strict (Some key)
    (State (<[l := Lane rest ({[e_id e]} ∪ act) max gen dr]> (heap s)) (next_loc s) (lanes s)
       (running s ++ [Running e key l]) (settled s) (taskIdCounter s) (drain s)).
Proof.
  intros H Hk Hl Hsz. destruct (i_lane _ _ _ H _ _ Hl) as [? Hdr Ha Hq]. simpl in *.
  apply Forall_cons in Hq as [He Hq].
  eapply Inv_change; [exact H|exact Hl|done| | | | | |].
  - intros r Hr. apply elem_of_app in Hr as [Hr|Hr]; [by left|]. apply list_elem_of_singleton in Hr as ->. right. done.
  - intros r Hr. rewrite elem_of_app, list_elem_of_singleton. split; [|by left]. intros [?| ->]; done.
  - split; simpl; [|done| |done].
    + pose proof (size_union_alt {[e_id e]} act) as Hs. rewrite Hs, size_singleton.
      pose proof (subseteq_size (act ∖ {[e_id e]}) act ltac:(set_solver)). lia.
    + intros id. rewrite elem_of_union, elem_of_singleton, Ha. split.
      * intros [->|(r & Hr & ?)]; [exists (Running e key l)|exists r]; rewrite elem_of_app, list_elem_of_singleton; auto.
      * intros (r & Hr & Hloc & Hid & Hg). apply elem_of_app in Hr as [Hr|Hr]; [right; eauto|left].
        apply list_elem_of_singleton in Hr as ->. done.
  - intros k Hk' Hne. destruct Hne. f_equal. by apply (i_inj _ _ _ H key k l).
  - intros k Hk'. by left.
  - intros id. pose proof (i_places _ _ _ H id) as Hp.
    pose proof (places_change s l _ (Lane rest ({[e_id e]} ∪ act) max gen dr) (running s ++ [Running e key l])
      (settled s) (taskIdCounter s) key id (i_inj _ _ _ H) Hk Hl) as Hc.
    occ_norm Hc. same_places Hp.
Qed.

Lemma Inv_exc strict exc s : Inv strict None s → Inv strict exc s.
Proof. intros [? ? ? ? ? Hw ?]. split; try done. intros k l ln ? ? _. by eapply Hw. Qed.

(** The exception is lifted where it is not needed. *)
Lemma Inv_lift strict key l ln s :
  Inv strict (Some key) s → lanes s !! key = Some l → heap s !! l = Some ln → busy ln → Inv strict None s.
Proof.
  intros [? ? ? ? ? Hw ?] Hk Hl Hb. split; try done. intros k l2 ln2 Hk2 Hl2 _.
  destruct (decide (k = key)) as [->|]; [|eapply Hw; [done..|congruence]].
  replace ln2 with ln; [done|]. congruence.
Qed.

Lemma pump_loop_Inv strict key l s fuel ln :
  Inv strict (Some key) s → lanes s !! key = Some l → heap s !! l = Some ln → length (queue ln) ≤ fuel →
  Inv strict None (pump_loop fuel key l s).
Proof.
  revert s ln. induction fuel as [|fuel IH]; intros s ln H Hk Hl Hf; simpl.
  - eapply Inv_lift; [done..|]. left. destruct (queue ln); [done|simpl in *; lia].
  - rewrite Hl. destruct ln as [[|e rest] act max gen dr].
    + eapply Inv_lift; [done..|]. by left.
    + destruct (Nat.ltb_spec (size act) max).
      * eapply IH; [by eapply pump_one|done| |].
        -- cbn [heap set_lane]. by rewrite lookup_insert_eq.
        -- simpl in *. lia.
      * eapply Inv_lift; [done..|]. right. simpl. lia.
Qed.

(** A new lane takes the queue of the lane it replaces out of every place. *)
Lemma put_lane_places strict exc key max s id :
  Inv strict exc s →
  places (put_lane key (new_lane max) s) id +
    match lanes s !! key with Some l => queued_at s id l | None => 0 end = places s id.
Proof.
  intros H. set (s' := put_lane key (new_lane max) s). unfold put_lane in s'.
  assert (Hnl : ∀ k l, lanes s !! k = Some l → l ≠ next_loc s).
  { intros k l Hk ->. destruct (i_lanes _ _ _ H _ _ Hk) as [? Hl].
    pose proof (i_fresh _ _ _ H (next_loc s) ltac:(by eexists)). lia. }
  unfold places, s'. cbn [lanes settled]. unfold running_ids. cbn [running]. fold s'.
  assert (Hsum : ∀ m, (∀ k l, m !! k = Some l → l ≠ next_loc s) →
    sum_lanes (queued_at s' id) m = sum_lanes (queued_at s id) m).
  { intros m Hm. apply sum_ext. intros k l Hk. unfold queued_at, s'. cbn [heap].
    rewrite lookup_insert_ne; [done|]. symmetry. by eapply Hm. }
  assert (Hq0 : queued_at s' id (next_loc s) = 0) by (unfold queued_at, s'; cbn [heap]; by rewrite lookup_insert_eq).
  rewrite <- insert_delete_eq, sum_insert by apply lookup_delete_eq. rewrite Hq0, Hsum.
  2:{ intros k l Hk. apply lookup_delete_Some in Hk as [_ Hk]. by eapply Hnl. }
  destruct (lanes s !! key) as [l|] eqn:Ek.
  - rewrite (sum_delete _ (lanes s) key l Ek). lia.
  - rewrite delete_id by done. lia.
Qed.

(** A new lane object under a key; the old one's queue must be empty when no
    entry may be dropped. *)
Lemma put_lane_Inv (strict : bool) exc key max s :
  Inv strict exc s →
  (strict = true → ∀ l ln, lanes s !! key = Some l → heap s !! l = Some ln → queue ln = []) →
  Inv strict exc (put_lane key (new_lane max) s).
Proof.
  intros H Hempty. unfold put_lane.
  assert (Hnew : heap s !! next_loc s = None).
  { destruct (heap s !! next_loc s) eqn:E; [|done]. pose proof (i_fresh _ _ _ H (next_loc s) ltac:(by eexists)). lia. }
  assert (Hold : ∀ l ln, heap s !! l = Some ln → l ≠ next_loc s) by (intros l ln Hl ->; congruence).
  split; cbn [heap next_loc lanes running].
  - intros l [ln Hl]. destruct (decide (l = next_loc s)); [lia|]. rewrite lookup_insert_ne in Hl by done.
    pose proof (i_fresh _ _ _ H l ltac:(by eexists)). lia.
  - intros k l Hk. apply lookup_insert_Some in Hk as [[_ <-]|[_ Hk]]; [by rewrite lookup_insert_eq|].
    destruct (i_lanes _ _ _ H _ _ Hk) as [ln Hl]. rewrite lookup_insert_ne by (symmetry; by eapply Hold). eauto.
  - intros k k' l Hk Hk'. apply lookup_insert_Some in Hk, Hk'.
    destruct Hk as [[? ?]|[? Hk]], Hk' as [[? ?]|[? Hk']]; subst; [done| | |by eapply (i_inj _ _ _ H)].
    + destruct (i_lanes _ _ _ H _ _ Hk'). congruence.
    + destruct (i_lanes _ _ _ H _ _ Hk). congruence.
  - intros r Hr. destruct (i_run _ _ _ H r Hr) as (ln & Hl & Hg & Hkey). pose proof (Hold _ _ Hl).
    rewrite lookup_insert_ne by done. exists ln. split; [done|]. split; [done|].
    intros k Hk. apply lookup_insert_Some in Hk as [[? ?]|[? Hk]]; [congruence|by apply Hkey].
  - intros l ln Hl. apply lookup_insert_Some in Hl as [[<- <-]|[? Hl]]; [|by apply (i_lane _ _ _ H)].
    split; cbn [new_lane activeTaskIds maxConcurrent draining queue generation]; [rewrite size_empty; lia|done| |done]. intros id. split; [set_solver|].
    intros (r & Hr & Hloc & _). destruct (i_run _ _ _ H r Hr) as (ln & Hl & _). congruence.
  - intros k l ln Hk Hl He. apply lookup_insert_Some in Hk as [[<- <-]|[Hne Hk]].
    + rewrite lookup_insert_eq in Hl. injection Hl as <-. by left.
    + destruct (i_lanes _ _ _ H _ _ Hk) as [ln' Hl']. pose proof (Hold _ _ Hl').
      rewrite lookup_insert_ne in Hl by done. by eapply (i_work _ _ _ H).
  - intros id. destruct (i_places _ _ _ H id) as [Hle Heq].
    match goal with |- places ?x id ≤ _ ∧ _ => change (issued x id) with (issued s id); set (s' := x) end.
    pose proof (put_lane_places strict exc key max s id H) as E. change (put_lane key (new_lane max) s) with s' in E.
    split; [lia|]. intros Hs. rewrite <- (Heq Hs), <- E. destruct (lanes s !! key) as [l|] eqn:Ek; [|lia].
    destruct (i_lanes _ _ _ H _ _ Ek) as [ln Hl]. unfold queued_at. rewrite Hl, (Hempty Hs l ln eq_refl Hl). simpl. 
    rewrite occ_nil. lia.
Qed.

Lemma getLane_Inv strict exc key s l s1 :
  Inv strict exc s → getLane key s = (l, s1) →
  Inv strict exc s1 ∧ lanes s1 !! key = Some l ∧ ∃ ln, heap s1 !! l = Some ln.
Proof.
  intros H E. unfold getLane in E. destruct (lanes s !! key) as [l'|] eqn:Ek; injection E as <- <-.
  - split; [done|]. split; [done|]. destruct (i_lanes _ _ _ H _ _ Ek) as [ln ?]. eauto.
  - split; [apply put_lane_Inv; [done|]; intros; congruence|].
    cbn [put_lane lanes heap]. rewrite !lookup_insert_eq. eauto.
Qed.

Lemma pump_Inv strict key s : Inv strict (Some key) s → Inv strict None (pump key s).
Proof.
  intros H. unfold pump. destruct (getLane key s) as [l s1] eqn:E.
  destruct (getLane_Inv _ _ _ _ _ _ H E) as (H1 & Hk & ln & Hl). rewrite Hl.
  rewrite (lo_draining _ _ _ (i_lane _ _ _ H1 _ _ Hl)). by eapply pump_loop_Inv.
Qed.

Lemma enqueue_Inv strict lane ws s : Inv strict None s → Inv strict None (enqueue lane ws s).2.
Proof.
  intros H. unfold enqueue. destruct (drain s); [done|]. set (key := buildLaneKey ws lane).
  destruct (getLane key s) as [l s1] eqn:E. destruct (getLane_Inv _ _ _ _ _ _ H E) as (H1 & Hk & ln & Hl). rewrite Hl.
  cbn [snd]. apply pump_Inv. destruct (i_lane _ _ _ H1 _ _ Hl) as [Hsz Hdr Ha Hq].
  eapply Inv_change; [exact H1|exact Hl|done| | | | | |]; cbn [queue activeTaskIds maxConcurrent generation].
  - intros r Hr. by left.
  - done.
  - split; cbn [queue activeTaskIds maxConcurrent generation draining]; [done..|]. apply Forall_app. split; [done|by repeat constructor].
  - intros k Hk' Hne. destruct Hne. f_equal. by apply (i_inj _ _ _ H1 key k l).
  - done.
  - intros id. destruct (i_places _ _ _ H1 id) as [Hle Heq].
    pose proof (places_change s1 l _ (Lane (queue ln ++ [Entry (S (taskIdCounter s1)) (generation ln)]) (activeTaskIds ln)
      (maxConcurrent ln) (generation ln) (draining ln)) (running s1) (settled s1) (S (taskIdCounter s1)) key id
      (i_inj _ _ _ H1) Hk Hl) as Hc.
    occ_norm Hc. unfold issued in *. cbn [taskIdCounter] in *.
    repeat case_decide; (split; [|intros Hs; specialize (Heq Hs)]); lia.
Qed.

Lemma running_unique strict exc s n r r' :
  Inv strict exc s → running s !! n = Some r → r' ∈ delete n (running s) → e_id (r_entry r') ≠ e_id (r_entry r).
Proof.
  intros H Hn Hr' E. pose proof (Inv_occ _ _ _ (e_id (r_entry r)) H) as Hp. unfold places in Hp.
  assert (Ho : occ (e_id (r_entry r)) (running_ids s) = 1 + occ (e_id (r_entry r)) ((λ r, e_id (r_entry r)) <$> delete n (running s))).
  { unfold running_ids. pose proof (delete_Permutation _ _ _ Hn) as Hd. unfold occ. rewrite Hd at 1.
    rewrite fmap_cons, filter_cons, decide_True by done. done. }
  pose proof (occ_elem (e_id (r_entry r)) ((λ r, e_id (r_entry r)) <$> delete n (running s))) as Hocc.
  assert (e_id (r_entry r) ∈ (λ r, e_id (r_entry r)) <$> delete n (running s)) by (apply list_elem_of_fmap; eauto).
  specialize (Hocc ltac:(done)). lia.
Qed.

Lemma finish_Inv strict n r threw s :
  Inv strict None s → running s !! n = Some r →
  Inv strict None (finish r threw (State (heap s) (next_loc s) (lanes s) (delete n (running s)) (settled s)
    (taskIdCounter s) (drain s))).
Proof.
  intros H Hn. assert (Hr : r ∈ running s) by (by eapply list_elem_of_lookup_2).
  destruct (i_run _ _ _ H r Hr) as (ln & Hl & Hg & Hkey). unfold finish. cbn [heap]. rewrite Hl.
  destruct (i_lane _ _ _ H _ _ Hl) as [Hsz Hdr Ha Hq].
  pose proof (delete_Permutation _ _ _ Hn) as Hperm.
  assert (Hin : ∀ r', r' ∈ running s ↔ r' = r ∨ r' ∈ delete n (running s)).
  { intros r'. rewrite Hperm at 1. apply elem_of_cons. }
  apply pump_Inv. unfold set_lane, settle. cbn [heap next_loc lanes running settled taskIdCounter drain].
  eapply Inv_change; [exact H|exact Hl|done| | | | | |]; cbn [queue activeTaskIds maxConcurrent generation].
  - intros r' Hr'. left. apply Hin. by right.
  - intros r' Hne. rewrite Hin. split; [by right|]. intros [->|?]; [done|done].
  - split; cbn [queue activeTaskIds maxConcurrent generation draining]; [|done| |done].
    + etransitivity; [apply subseteq_size|exact Hsz]. set_solver.
    + intros id. rewrite elem_of_difference, elem_of_singleton, Ha. split.
      * intros [(r' & Hr' & Hloc & Hid & Hgen) Hne]. exists r'. split; [|done].
        apply Hin in Hr' as [->|?]; [congruence|done].
      * intros (r' & Hr' & Hloc & Hid & Hgen). split; [exists r'; split; [apply Hin; by right|done]|].
        rewrite <- Hid. by eapply running_unique.
  - intros k Hk Hne. destruct Hne. f_equal. symmetry. by apply Hkey.
  - done.
  - intros id. pose proof (i_places _ _ _ H id) as Hp.
    match goal with |- context [settled s ++ [(?i, ?out)]] => set (o := out) end.
    assert (Hocc : occ id (running_ids s) = occ id ((λ r, e_id (r_entry r)) <$> delete n (running s)) + occ id [e_id (r_entry r)]).
    { unfold running_ids. rewrite (occ_delete id _ n (e_id (r_entry r))) by (by rewrite list_lookup_fmap, Hn).
      f_equal. f_equal. by rewrite list_fmap_delete. }
    destruct (decide (lanes s !! r_key r = Some (r_loc r))) as [Hk|Hk].
    + pose proof (places_change s (r_loc r) ln (Lane (queue ln) (activeTaskIds ln ∖ {[e_id (r_entry r)]}) (maxConcurrent ln)
        (generation ln) (draining ln)) (delete n (running s)) (settled s ++ [(e_id (r_entry r), o)]) (taskIdCounter s)
        (r_key r) id (i_inj _ _ _ H) Hk Hl) as Hc.
      rewrite Hocc in Hc. occ_norm Hc. same_places Hp.
    + pose proof (places_change_unregistered s (r_loc r) (Lane (queue ln) (activeTaskIds ln ∖ {[e_id (r_entry r)]})
        (maxConcurrent ln) (generation ln) (draining ln)) (delete n (running s)) (settled s ++ [(e_id (r_entry r), o)])
        (taskIdCounter s) id) as Hc.
      specialize (Hc ltac:(intros k Hk'; apply Hk; by rewrite <- (Hkey k Hk'))).
      rewrite Hocc in Hc. occ_norm Hc. same_places Hp.
Qed.

Lemma unregister_lane_Inv strict key s : Inv strict None s → Inv strict None (unregister_lane key s).
Proof.
  intros H. unfold unregister_lane. destruct (lanes s !! key) as [l|] eqn:Ek; [|done].
  destruct (i_lanes _ _ _ H _ _ Ek) as [ln Hl]. rewrite Hl. unfold settle. cbn [heap next_loc lanes running settled taskIdCounter drain].
  split; cbn [heap next_loc lanes running].
  - apply (i_fresh _ _ _ H).
  - intros k l' Hk. apply lookup_delete_Some in Hk as [_ Hk]. by eapply (i_lanes _ _ _ H).
  - intros k k' l' Hk Hk'. apply lookup_delete_Some in Hk as [_ Hk], Hk' as [_ Hk']. by eapply (i_inj _ _ _ H).
  - intros r Hr. destruct (i_run _ _ _ H r Hr) as (ln' & ? & ? & Hkey). exists ln'. split; [done|]. split; [done|].
    intros k Hk. apply lookup_delete_Some in Hk as [_ Hk]. by apply Hkey.
  - apply (i_lane _ _ _ H).
  - intros k l' ln' Hk. apply lookup_delete_Some in Hk as [_ Hk]. by eapply (i_work _ _ _ H).
  - intros id. pose proof (i_places _ _ _ H id) as Hp.
    match goal with |- places ?x id ≤ _ ∧ _ => assert (E : places x id = places s id) end.
    { unfold places at 2. rewrite (sum_delete _ _ _ _ Ek). unfold places. cbn [lanes settled].
      unfold queued_at at 2. rewrite Hl. unfold cleared. rewrite fmap_app, occ_app.
      assert (Hfst : (map (λ e, (e_id e, CommandLaneCleared)) (queue ln)).*1 = e_id <$> queue ln).
      { generalize (queue ln). induction l0 as [|e es IH]; simpl; [done|]. by f_equal. }
      rewrite Hfst. unfold running_ids. cbn [running].
      rewrite (sum_ext _ (queued_at s id)); [lia|]. intros k l' _. done. }
    rewrite E. exact Hp.
Qed.

Lemma reset_lane_Inv strict key l s :
  Inv strict None s → lanes s !! key = Some l → Inv strict None (reset_lane l s).
Proof.
  intros H Hk. destruct (i_lanes _ _ _ H _ _ Hk) as [ln Hl]. unfold reset_lane. rewrite Hl.
  unfold set_lane, settle. cbn [heap next_loc lanes running settled taskIdCounter drain].
  eapply Inv_change; [exact H|exact Hl|simpl; lia| | | | | |]; cbn [queue activeTaskIds maxConcurrent generation].
  - intros r Hr. by left.
  - done.
  - split; cbn [queue activeTaskIds maxConcurrent generation draining]; [rewrite size_empty; lia|done| |done].
    intros id. split; [set_solver|]. intros (r & Hr & Hloc & _ & Hgen).
    destruct (i_run _ _ _ H r Hr) as (ln' & Hl' & Hle & _). rewrite Hloc, Hl in Hl'. injection Hl' as <-. lia.
  - intros k _ _. by left.
  - done.
  - intros id. pose proof (i_places _ _ _ H id) as Hp.
    pose proof (places_change s l ln (Lane [] ∅ (maxConcurrent ln) (S (generation ln)) false) (running s)
      (settled s ++ cleared (queue ln)) (taskIdCounter s) key id (i_inj _ _ _ H) Hk Hl) as Hc.
    occ_norm Hc.
    assert (Hfst : (cleared (queue ln)).*1 = e_id <$> queue ln).
    { unfold cleared. generalize (queue ln). induction l0 as [|e es IH]; simpl; [done|]. by f_equal. }
    rewrite Hfst in Hc. same_places Hp.
Qed.

Lemma foldl_inv {A} (P : state → Prop) (f : state → A → state) xs s :
  P s → (∀ s x, x ∈ xs → P s → P (f s x)) → P (foldl f s xs).
Proof.
  revert s. induction xs as [|x xs IH]; intros s Hs Hf; simpl; [done|].
  apply IH; [apply Hf; [by left|done]|]. intros s' y Hy. apply Hf. by right.
Qed.

Lemma resetAll_Inv strict s : Inv strict None s → Inv strict None (resetAll s).
Proof.
  intros H. unfold resetAll.
  apply (foldl_inv (λ s', Inv strict None s' ∧ lanes s' = lanes s)); [done|].
  intros s' [key l] Hin [H' El]. apply elem_of_map_to_list in Hin. split.
  - eapply reset_lane_Inv; [done|]. by rewrite El.
  - unfold reset_lane. cbn [snd]. by destruct (heap s' !! l).
Qed.

(** Registering a workspace whose lanes have entries queued drops them. *)
Definition drops (a : action) (s : state) : Prop :=
  match a with
  | Register ws _ => ∃ lane l ln, lanes s !! buildLaneKey ws lane = Some l ∧ heap s !! l = Some ln ∧ queue ln ≠ []
  | _ => False
  end.

Lemma register_Inv (strict : bool) ws c s :
  Inv strict None s → (strict = true → ¬ drops (Register ws c) s) → Inv strict None (registerWorkspace ws c s).
Proof.
  intros H Hd. unfold registerWorkspace.
  apply (foldl_inv (λ s', Inv strict None s' ∧ (strict = true → ¬ drops (Register ws c) s'))); [done|].
  intros s' lane _ [H' Hd']. split.
  - apply put_lane_Inv; [done|]. intros Hs l ln Hk Hl. destruct (queue ln) as [|e q] eqn:Eq; [done|].
    destruct (Hd' Hs). exists lane, l, ln. rewrite Eq. done.
  - intros Hs (lane' & l & ln & Hk & Hl & Hq). cbn [put_lane lanes heap] in *.
    assert (Hcase : l = next_loc s' ∨ lanes s' !! buildLaneKey ws lane' = Some l).
    { apply lookup_insert_Some in Hk as [[_ <-]|[_ Hk]]; auto. }
    destruct (decide (l = next_loc s')) as [->|Hne].
    + rewrite lookup_insert_eq in Hl. injection Hl as <-. done.
    + destruct Hcase as [?|Hk']; [done|]. rewrite lookup_insert_ne in Hl by done.
      destruct (Hd' Hs). by exists lane', l, ln.
Qed.

Lemma lanes_step_Inv (strict : bool) a s s' :
  Inv strict None s → (strict = true → ¬ drops a s) → step a s = Some s' → Inv strict None s'.
Proof.
  intros H Hd E. destruct a as [lane ws|n threw|ws c|ws| | |]; simpl in E.
  - simplify_eq. by apply enqueue_Inv.
  - destruct (running s !! n) as [r|] eqn:En; [|done]. injection E as <-. by apply finish_Inv.
  - simplify_eq. by apply register_Inv.
  - simplify_eq. unfold unregisterWorkspace. apply foldl_inv; [done|]. intros s' lane _. apply unregister_lane_Inv.
  - simplify_eq. by apply resetAll_Inv.
  - simplify_eq. destruct H. by split.
  - simplify_eq. destruct H. by split.
Qed.

Lemma lanes_init_Inv strict : Inv strict None init.
Proof.
  split; simpl.
  - intros l [? H]. by rewrite lookup_empty in H.
  - intros k l H. by rewrite lookup_empty in H.
  - intros k k' l H. by rewrite lookup_empty in H.
  - intros r H. inversion H.
  - intros l ln H. by rewrite lookup_empty in H.
  - intros k l ln H. by rewrite lookup_empty in H.
  - intros id. unfold places, issued, sum_lanes. simpl. rewrite map_fold_empty. case_decide; [simpl in *; lia|done].
Qed.

(** Steps that drop no queued entry. *)
Definition drops_b (a : action) (s : state) : bool :=
  match a with
  | Register ws _ =>
      existsb (λ lane, match lanes s !! buildLaneKey ws lane ≫= λ l, heap s !! l with
                       | Some ln => negb (Nat.eqb (length (queue ln)) 0)
                       | None => false
                       end) all_lanes
  | _ => false
  end.
Definition keeping (a : action) (s : state) : option state := if drops_b a s then None else step a s.

Lemma drops_b_spec a s : drops_b a s = false → ¬ drops a s.
Proof.
  destruct a as [| |ws c| | | |]; try (intros _ Hd; exact Hd). intros Hb (lane & l & ln & Hk & Hl & Hq).
  apply not_true_iff_false in Hb. apply Hb. apply existsb_exists. exists lane. split; [destruct lane; simpl; tauto|].
  rewrite Hk. simpl. rewrite Hl. by destruct (queue ln).
Qed.

Lemma lanes_reachable_Inv s : reachable step init s → Inv false None s.
Proof.
  apply (reachable_ind_inv step init); [apply lanes_init_Inv|]. intros a s1 s2 H E. by eapply lanes_step_Inv.
Qed.

Lemma keeping_Inv s : reachable keeping init s → Inv true None s.
Proof.
  apply (reachable_ind_inv keeping init); [apply lanes_init_Inv|]. intros a s1 s2 H E.
  unfold keeping in E. destruct (drops_b a s1) eqn:Ed; [done|]. eapply lanes_step_Inv; [done|intros _; by apply drops_b_spec|done].
Qed.

(** Lanes: in every reachable state no lane has more active tasks than its
    limit, each active id is that of a running task of the lane's generation,
    and a lane of the table that has entries queued has all its slots taken. *)
Theorem lanes_bounded_and_busy (s : state) (key : jsstr) (l : nat) (ln : LaneState) :
  reachable step init s → heap s !! l = Some ln →
  size (activeTaskIds ln) ≤ maxConcurrent ln ∧
  (∀ id, id ∈ activeTaskIds ln ↔
     ∃ r, r ∈ running s ∧ r_loc r = l ∧ e_id (r_entry r) = id ∧ e_gen (r_entry r) = generation ln) ∧
  (lanes s !! key = Some l → queue ln ≠ [] → size (activeTaskIds ln) = maxConcurrent ln).
Proof.
  intros Hr Hl. pose proof (lanes_reachable_Inv s Hr) as H. destruct (i_lane _ _ _ H _ _ Hl) as [Hsz _ Ha _].
  split; [done|]. split; [done|]. intros Hk Hq.
  destruct (i_work _ _ _ H key l ln Hk Hl ltac:(done)) as [?|?]; [done|lia].
Qed.

(** C11. Conservation: while no workspace is registered over lanes that have
    entries queued, every entry ever enqueued is in exactly one place: queued
    in a lane of the table, running, or settled once; no promise is lost or
    settled twice. *)
Theorem lanes_conservation (s : state) (id : nat) :
  reachable keeping init s →
  sum_lanes (queued_at s id) (lanes s) + occ id (running_ids s) + occ id (settled s).*1 =
  (if decide (1 ≤ id ≤ taskIdCounter s) then 1 else 0).
Proof. intros Hr. by apply (i_places _ _ _ (keeping_Inv s Hr) id). Qed.

Lemma pump_settled key s : settled (pump key s) = settled s.
Proof.
  unfold pump. assert (Hg : settled (getLane key s).2 = settled s).
  { unfold getLane. by destruct (lanes s !! key). }
  destruct (getLane key s) as [l s1]. simpl in Hg. rewrite <- Hg. clear Hg.
  destruct (heap s1 !! l) as [ln|]; [|done]. destruct (draining ln); [done|].
  generalize (length (queue ln)). intros fuel. revert s1. induction fuel as [|fuel IH]; intros s1; simpl; [done|].
  destruct (heap s1 !! l) as [[[|e q] act max gen dr]|]; [done| |done]. destruct (Nat.ltb _ _); [|done]. by rewrite IH.
Qed.

(** The lane object [l] has been reset since its generation [g]. *)
Definition reset_since (g : nat) (l : nat) (s : state) : Prop :=
  ∃ ln, heap s !! l = Some ln ∧ g < generation ln ∧ queue ln = [] ∧ activeTaskIds ln = ∅.

Lemma reset_lane_since g l ln s : heap s !! l = Some ln → g ≤ generation ln → reset_since g l (reset_lane l s).
Proof.
  intros Hl Hg. unfold reset_since, reset_lane. rewrite Hl. cbn [set_lane settle heap]. rewrite lookup_insert_eq.
  eexists. split; [done|]. simpl. split; [lia|done].
Qed.

Lemma resetAll_spec s key l ln :
  lanes s !! key = Some l → heap s !! l = Some ln → reset_since (generation ln) l (resetAll s).
Proof.
  intros Hk Hl. unfold resetAll. apply elem_of_map_to_list, list_elem_of_split in Hk as (before & after & Hm).
  rewrite Hm, foldl_app. cbn [foldl snd].
  assert (Hb : ∃ ln', heap (foldl (λ s kl, reset_lane kl.2 s) s before) !! l = Some ln' ∧ generation ln ≤ generation ln').
  { apply (foldl_inv (λ s', ∃ ln', heap s' !! l = Some ln' ∧ generation ln ≤ generation ln')); [eauto|].
    intros s' [k l'] _ (ln' & Hl' & Hg). unfold reset_lane. cbn [snd]. destruct (heap s' !! l') as [ln2|] eqn:E2; [|eauto].
    cbn [set_lane settle heap]. destruct (decide (l = l')) as [->|Hne]; [|rewrite lookup_insert_ne by done; eauto].
    rewrite lookup_insert_eq. eexists. split; [done|]. simpl. assert (ln2 = ln') as -> by congruence. lia. }
  destruct Hb as (ln' & Hl' & Hg). apply (foldl_inv (reset_since (generation ln) l)).
  - by eapply reset_lane_since.
  - intros s' [k l'] _ (ln2 & Hl2 & Hg2 & Hq2 & Ha2). unfold reset_lane. cbn [snd].
    destruct (heap s' !! l') as [ln3|] eqn:E3; [|by exists ln2].
    unfold reset_since. cbn [set_lane settle heap]. destruct (decide (l = l')) as [->|Hne].
    + rewrite lookup_insert_eq. eexists. split; [done|]. simpl. assert (ln3 = ln2) as -> by congruence.
      by split; [lia|].
    + rewrite lookup_insert_ne by done. by exists ln2.
Qed.

(** Stale completions: a reset empties every lane of the table; a task that
    was running on it then never delivers its result: when it returns, its
    promise is rejected as cleared. *)
Theorem lanes_stale_cleared (s : state) (key : jsstr) (l n : nat) (r : running_task) (s' : state) :
  reachable step init s → lanes s !! key = Some l →
  r ∈ running s → r_loc r = l → running (resetAll s) !! n = Some r →
  step (Finish n false) (resetAll s) = Some s' →
  (∃ ln, heap (resetAll s) !! l = Some ln ∧ queue ln = [] ∧ activeTaskIds ln = ∅) ∧
  settled s' = settled (resetAll s) ++ [(e_id (r_entry r), CommandLaneCleared)].
Proof.
  intros Hreach Hk Hr <- Hn E. destruct (i_run _ _ _ (lanes_reachable_Inv s Hreach) r Hr) as (ln & Hl & Hg & _).
  destruct (resetAll_spec s key _ ln Hk Hl) as (ln' & Hl' & Hlt & Hq & Ha). split; [by exists ln'|].
  cbn [step] in E. rewrite Hn in E. injection E as <-. unfold finish. cbn [heap]. rewrite Hl', pump_settled.
  cbn [set_lane settle settled]. destruct (Nat.eqb_spec (e_gen (r_entry r)) (generation ln')); [lia|done].
Qed.

(** ** Witnesses and examples *)

Definition demo_actions : list action :=
  [Register (js "w") (λ _, None); Enqueue Main (js "w"); Enqueue Main (js "w"); Enqueue Subagent (js "w"); Finish 0 false].
Definition demo_state : state := default init (run keeping demo_actions init).

Lemma demo_keeping : reachable keeping init demo_state.
Proof. eapply (run_reachable keeping init demo_actions init); [constructor|by vm_compute]. Qed.
Lemma demo_step : reachable step init demo_state.
Proof. eapply (run_reachable step init demo_actions init); [constructor|by vm_compute]. Qed.

Lemma lanes_bounded_and_busy_witness :
  ∃ l ln, lanes demo_state !! js "w:main" = Some l ∧ heap demo_state !! l = Some ln ∧
    size (activeTaskIds ln) ≤ maxConcurrent ln.
Proof.
  destruct (lanes demo_state !! js "w:main") as [l|] eqn:Ek; [|by vm_compute in Ek].
  destruct (heap demo_state !! l) as [ln|] eqn:El; [|vm_compute in Ek; injection Ek as <-; by vm_compute in El].
  exists l, ln. split; [exact eq_refl|]. split; [exact El|].
  exact (proj1 (lanes_bounded_and_busy demo_state (js "w:main") l ln demo_step El)).
Defined.

Lemma lanes_conservation_witness :
  sum_lanes (queued_at demo_state 1) (lanes demo_state) + occ 1 (running_ids demo_state) + occ 1 (settled demo_state).*1 = 1.
Proof. rewrite (lanes_conservation demo_state 1 demo_keeping). by vm_compute. Defined.

Definition demo_task : running_task := Running (Entry 2 0) (js "w:main") 0.
Lemma lanes_stale_cleared_witness :
  ∃ s', step (Finish 1 false) (resetAll demo_state) = Some s' ∧
    settled s' = settled (resetAll demo_state) ++ [(2, CommandLaneCleared)].
Proof.
  destruct (step (Finish 1 false) (resetAll demo_state)) as [s'|] eqn:E; [|by vm_compute in E].
  exists s'. split; [exact eq_refl|].
  refine (proj2 (lanes_stale_cleared demo_state (js "w:main") 0 1 demo_task s' demo_step _ _ _ _ E));
    [by vm_compute| |reflexivity|by vm_compute].
  apply (list_elem_of_lookup_2 _ 1). by vm_compute.
Defined.

(** Registering a workspace again drops what is queued: the promise of entry 2
    has no place any more. *)
Example register_drops :
  let s := default init (run step [Enqueue Main (js "w"); Enqueue Main (js "w"); Register (js "w") (λ _, None)] init) in
  places s 2 = 0 ∧ taskIdCounter s = 2.
Proof. by vm_compute. Qed.

(** A task that ends after its workspace was unregistered registers the lane again. *)
Example finish_registers :
  let s := default init (run step [Enqueue Main (js "w"); Unregister (js "w"); Finish 0 false] init) in
  is_Some (lanes s !! js "w:main").
Proof. vm_compute. by eexists. Qed.
