(* ===== verification/Schedule.v ===== *)
(** Cron schedules ([cron/schedule.ts]) and active hours ([cron/active-hours.ts]).

    The local time zone of the process is a parameter, a constant offset from
    UTC (no daylight saving); the offset changes of other zones are in
    [zone_parts], what [Intl.DateTimeFormat.formatToParts] gives for a zone and
    an instant, [None] for a zone it does not know.  [parse_date] is
    [new Date(text).getTime()], [None] for [NaN]. *)

From S2P Require Import Prelude JsString.

Inductive CronSchedule :=
| At (at_ : jsstr)
| Every (everyMs : Z) (anchorMs : option Z)
| CronExpr (expr : jsstr) (tz : option jsstr) (staggerMs : option Z).

(** ** Calendar of the language's [Date] *)

Record civil := Civil { year : Z; month : Z; day : Z; hour : Z; minute : Z; second : Z }.

(** Proleptic Gregorian date of a day number (days since 1970-01-01), counting
    in eras of 400 years that start in March. *)
Definition civil_from_days (z0 : Z) : Z * Z * Z :=
  let z := (z0 + 719468)%Z in
  let era := (z / 146097)%Z in
  let doe := (z mod 146097)%Z in
  let yoe := ((doe - doe / 1460 + doe / 36524 - doe / 146096) / 365)%Z in
  let doy := (doe - (365 * yoe + yoe / 4 - yoe / 100))%Z in
  let mp := ((5 * doy + 2) / 153)%Z in
  let d := (doy - (153 * mp + 2) / 5 + 1)%Z in
  let m := (if mp <? 10 then mp + 3 else mp - 9)%Z in
  (yoe + era * 400 + (if (m <=? 2)%Z then 1 else 0), m, d)%Z.
Definition days_from_civil (y0 m d : Z) : Z :=
  let y := (if m <=? 2 then y0 - 1 else y0)%Z in
  let era := (y / 400)%Z in
  let yoe := (y - era * 400)%Z in
  let mp := (if 2 <? m then m - 3 else m + 9)%Z in
  let doy := ((153 * mp + 2) / 5 + d - 1)%Z in
  let doe := (yoe * 365 + yoe / 4 - yoe / 100 + doy)%Z in
  (era * 146097 + doe - 719468)%Z.

Example civil_leap : civil_from_days 19782 = (2024, 2, 29)%Z ∧ days_from_civil 2024 2 29 = 19782%Z.
Proof. by vm_compute. Qed.

Definition ms_per_minute : Z := 60000.

Section Zone.
Context (localOffset : Z) (zone_parts : jsstr → Z → option civil) (parse_date : jsstr → option Z).

(** Local accessors of a [Date], in a process whose zone has one offset from UTC
    throughout: changes to and from daylight-saving time are not modelled. *)
Definition local_minutes (ms : Z) : Z := (ms + localOffset) / ms_per_minute.
Definition getMinutes (ms : Z) : Z := local_minutes ms mod 60.
Definition getHours (ms : Z) : Z := (local_minutes ms / 60) mod 24.
Definition local_day (ms : Z) : Z := local_minutes ms / 1440.
Definition getDay (ms : Z) : Z := (local_day ms + 4) mod 7.
Definition getMonth (ms : Z) : Z := let '(_, m, _) := civil_from_days (local_day ms) in (m - 1)%Z.
Definition getDate (ms : Z) : Z := let '(_, _, d) := civil_from_days (local_day ms) in d.

(** [new Date(year, month - 1, day, hour, minute, second)]. *)
Definition local_date (c : civil) : Z :=
  ((days_from_civil (year c) (month c) (day c) * 86400 + hour c * 3600 + minute c * 60 + second c) * 1000
   - localOffset)%Z.

(** ** Fields *)

(** [parseInt(s)]: white space, a sign, then hexadecimal digits after [0x] or
    decimal digits; [None] is [NaN]. *)
Fixpoint hex_digits (acc : option Z) (s : jsstr) : option Z :=
  match s with
  | c :: s' => match hex_value c with Some v => hex_digits (Some (16 * default 0 acc + v)%Z) s' | None => acc end
  | [] => acc
  end.
Definition parse_unsigned (s : jsstr) : option Z :=
  if startsWith s (js "0x") || startsWith s (js "0X") then hex_digits None (drop 2 s)
  else match span_digits s with
       | ([], _) => None
       | (ds, _) => Some (digits_value 0 ds)
       end.
Definition parseInt (s : jsstr) : option Z :=
  match trimStart s with
  | c :: s' =>
      if (c =? 45)%N then Z.opp <$> parse_unsigned s'
      else if (c =? 43)%N then parse_unsigned s'
      else parse_unsigned (c :: s')
  | [] => None
  end.

(** [/^(\d+)-(\d+)$/]. *)
Definition range_match (s : jsstr) : option (Z * Z) :=
  match span_digits s with
  | ((_ :: _) as a, 45%N :: rest) =>
      match span_digits rest with
      | ((_ :: _) as b, []) => Some (digits_value 0 a, digits_value 0 b)
      | _ => None
      end
  | _ => None
  end.

(** [/^(\*|(\d+)-(\d+))\/(\d+)$/]: the range, [None] for a star, and the step. *)
Definition step_match (s : jsstr) : option (option (Z * Z) * Z) :=
  match split_on 47%N s with
  | [a; b] =>
      match span_digits b with
      | ((_ :: _) as ds, []) =>
          if bool_decide (a = js "*") then Some (None, digits_value 0 ds)
          else match range_match a with
               | Some r => Some (Some r, digits_value 0 ds)
               | None => None
               end
      | _ => None
      end
  | _ => None
  end.

(** One round of the loop; [x % 0] is [NaN]. *)
Definition match_part (part : jsstr) (value mn mx : Z) : bool :=
  match step_match part with
  | Some (range, step) =>
      let '(rangeStart, rangeEnd) := default (mn, mx) range in
      (rangeStart <=? value)%Z && (value <=? rangeEnd)%Z && negb (step =? 0)%Z
      && ((value - rangeStart) mod step =? 0)%Z
  | None =>
      match range_match part with
      | Some (start, end_) => (start <=? value)%Z && (value <=? end_)%Z
      | None => bool_decide (parseInt part = Some value)
      end
  end.
Definition matchField (expr : jsstr) (value mn mx : Z) : bool :=
  bool_decide (expr = js "*") || existsb (λ part, match_part part value mn mx) (split_on 44%N expr).

(** ** Next run time *)

Definition computeAt (at_ : jsstr) (nowMs : Z) : option Z :=
  match parse_date at_ with
  | None => None
  | Some ts => if (nowMs <? ts)%Z then Some ts else None
  end.

Definition computeEvery (everyMs nowMs : Z) (anchorMs : option Z) : option Z :=
  if (everyMs <=? 0)%Z then None
  else
    let anchor := default nowMs anchorMs in
    if (nowMs <? anchor)%Z then Some anchor
    else
      let periods := ((nowMs - anchor) / everyMs)%Z in
      Some (anchor + (periods + 1) * everyMs)%Z.

(** [expr.trim().split(/\s+/)]: runs of white space separate. *)
Fixpoint split_white (cur : jsstr) (s : jsstr) : list jsstr :=
  match s with
  | [] => [reverse cur]
  | c :: s' =>
      if is_space c
      then match s' with
           | c' :: _ => if is_space c' then split_white cur s' else reverse cur :: split_white [] s'
           | [] => [reverse cur; []]
           end
      else split_white (c :: cur) s'
  end.

Definition cron_fields (expr : jsstr) : option (jsstr * jsstr * jsstr * jsstr * jsstr) :=
  match split_white [] (trim expr) with
  | [mi; h; dom; mo; dow] => Some (mi, h, dom, mo, dow)
  | [_; mi; h; dom; mo; dow] => Some (mi, h, dom, mo, dow)
  | _ => None
  end.

(** The conjunction the search tests, on the local fields of a candidate. *)
Definition cron_matches (fs : jsstr * jsstr * jsstr * jsstr * jsstr) (candidate : Z) : bool :=
  let '(mi, h, dom, mo, dow) := fs in
  matchField mo (getMonth candidate + 1) 1 12 && matchField dom (getDate candidate) 1 31 &&
  matchField dow (getDay candidate) 0 6 && matchField h (getHours candidate) 0 23 &&
  matchField mi (getMinutes candidate) 0 59.

Fixpoint cron_search (n : nat) (fs : jsstr * jsstr * jsstr * jsstr * jsstr) (candidate : Z) : option Z :=
  match n with
  | O => None
  | S n => if cron_matches fs candidate then Some candidate else cron_search n fs (candidate + ms_per_minute)
  end.
Definition searchLimit : nat := Z.to_nat (366 * 24 * 60).

(** [dateInTimezone(nowMs, tz)]; an empty zone name counts as none. *)
Definition cron_now (nowMs : Z) (tz : option jsstr) : option Z :=
  match tz with
  | Some (c :: z) => local_date <$> zone_parts (c :: z) nowMs
  | _ => Some nowMs
  end.
(** [setSeconds(0, 0)], then one minute on. *)
Definition first_candidate (now : Z) : Z := (local_minutes now * ms_per_minute - localOffset + ms_per_minute)%Z.

Definition computeCron (expr : jsstr) (nowMs : Z) (tz : option jsstr) (staggerMs : option Z) : option Z :=
  match cron_fields expr, cron_now nowMs tz with
  | Some fs, Some now =>
      match cron_search searchLimit fs (first_candidate now) with
      | None => None
      | Some candidate =>
          let result := (candidate + (match staggerMs with Some st => if 0 <? st then st else 0 | None => 0 end))%Z in
          if (nowMs <? result)%Z then Some result else None
      end
  | _, _ => None
  end.

Definition computeNextRunAtMs (schedule : CronSchedule) (nowMs : Z) : option Z :=
  match schedule with
  | At at_ => computeAt at_ nowMs
  | Every everyMs anchorMs => computeEvery everyMs nowMs anchorMs
  | CronExpr expr tz staggerMs => computeCron expr nowMs tz staggerMs
  end.
Definition isExpired (schedule : CronSchedule) (nowMs : Z) : bool :=
  match computeNextRunAtMs schedule nowMs with None => true | Some _ => false end.

(** ** Stagger *)

Definition DEFAULT_TOP_OF_HOUR_STAGGER_MS : Z := 5 * 60 * 1000.

(** [x | 0]: the value modulo 2^32, as a signed 32-bit integer. *)
Definition to_int32 (x : Z) : Z :=
  let r := (x mod 4294967296)%Z in if (r <? 2147483648)%Z then r else (r - 4294967296)%Z.

Definition hash_step (hash : Z) (c : N) : Z := to_int32 (to_int32 (Z.shiftl hash 5) - hash + Z.of_N c).
Definition hash_id (jobId : jsstr) : Z := foldl hash_step 0%Z jobId.

Definition computeStaggerMs (schedule : CronSchedule) (jobId : jsstr) (exact : bool) (overrideMs : option Z) : Z :=
  if exact then 0
  else
    match schedule with
    | CronExpr expr _ staggerMs =>
        match overrideMs with
        | Some o => o
        | None =>
            let fields := split_white [] (trim expr) in
            let minuteField := if Nat.eqb (length fields) 6 then fields !! 1 else fields !! 0 in
            if negb (bool_decide (minuteField = Some (js "0"))) then 0
            else
              let window := default DEFAULT_TOP_OF_HOUR_STAGGER_MS staggerMs in
              if (window <=? 0)%Z then 0 else Z.abs (hash_id jobId) mod window
        end
    | _ => 0
    end.

(** ** Active hours *)

(** A window, after [parseHHMM] of its ends: minutes since midnight. *)
Record Config := Window { startMinutes : Z; endMinutes : Z; window_tz : option jsstr }.

Inductive GateResult := GateAllowed | GateClosed (nextEligibleMs : Z).

(** [parseHHMM] of a well-formed [HH:MM]; other texts give [NaN]s, which match
    no window, and are left out. *)
Definition parseHHMM (hhmm : jsstr) : option Z :=
  match split_on 58%N hhmm with
  | [h; m] =>
      match span_digits h, span_digits m with
      | ((_ :: _) as hd, []), ((_ :: _) as md, []) => Some (digits_value 0 hd * 60 + digits_value 0 md)%Z
      | _, _ => None
      end
  | _ => None
  end.
Example parts_read : range_match (js "10-20") = Some (10, 20)%Z ∧ step_match (js "10-50/15") = Some (Some (10, 50), 15)%Z ∧
  parseHHMM (js "22:45") = Some 1365%Z.
Proof. by vm_compute. Qed.

Definition getCurrentMinutes (nowMs : Z) (tz : option jsstr) : option Z :=
  match tz with
  | Some (c :: z) => (λ p, hour p * 60 + minute p)%Z <$> zone_parts (c :: z) nowMs
  | _ => Some (getHours nowMs * 60 + getMinutes nowMs)%Z
  end.

Definition in_window (cfg : Config) (currentMinutes : Z) : bool :=
  if (startMinutes cfg <=? endMinutes cfg)%Z
  then (startMinutes cfg <=? currentMinutes)%Z && (currentMinutes <? endMinutes cfg)%Z
  else (startMinutes cfg <=? currentMinutes)%Z || (currentMinutes <? endMinutes cfg)%Z.

Definition computeNextWindowOpen (start currentMinutes nowMs : Z) : Z :=
  let d := (start - currentMinutes)%Z in
  let minutesUntilOpen := if (d <=? 0)%Z then (d + 24 * 60)%Z else d in
  (nowMs + minutesUntilOpen * 60 * 1000)%Z.

(** [check]; [None] when the zone is unknown and the formatter throws. *)
Definition check (cfg : option Config) (nowMs : Z) : option GateResult :=
  match cfg with
  | None => Some GateAllowed
  | Some cfg =>
      match getCurrentMinutes nowMs (window_tz cfg) with
      | None => None
      | Some currentMinutes =>
          Some (if in_window cfg currentMinutes then GateAllowed
                else GateClosed (computeNextWindowOpen (startMinutes cfg) currentMinutes nowMs))
      end
  end.

(** ** Intervals *)

(** Intervals: the next run of an [every] schedule is the first of its
    boundaries (the anchor plus whole periods) after now; a positive period
    always has one. *)
Theorem every_next_boundary (everyMs nowMs : Z) (anchorMs : option Z) :
  (0 < everyMs)%Z →
  ∃ next, computeNextRunAtMs (Every everyMs anchorMs) nowMs = Some next ∧ (nowMs < next)%Z ∧
    ∃ k, (0 <= k ∧ next = default nowMs anchorMs + k * everyMs ∧
          (0 < k → next - everyMs <= nowMs))%Z.
Proof.
  intros He. simpl. unfold computeEvery. destruct (Z.leb_spec everyMs 0); [lia|].
  set (anchor := default nowMs anchorMs). destruct (Z.ltb_spec nowMs anchor).
  - exists anchor. split; [done|]. split; [lia|]. exists 0%Z. lia.
  - eexists. split; [done|]. pose proof (Z.div_mod (nowMs - anchor) everyMs ltac:(lia)).
    pose proof (Z.mod_pos_bound (nowMs - anchor) everyMs ltac:(lia)).
    pose proof (Z.div_pos (nowMs - anchor) everyMs ltac:(lia) ltac:(lia)).
    set (q := ((nowMs - anchor) / everyMs)%Z) in *. split; [nia|]. exists (q + 1)%Z. split; [lia|]. split; [lia|]. nia.
Qed.

(** ** The search *)

Lemma cron_search_spec n fs c t :
  cron_search n fs c = Some t ↔
  ∃ k, (0 <= k < Z.of_nat n)%Z ∧ t = (c + k * ms_per_minute)%Z ∧ cron_matches fs t = true ∧
    ∀ j, (0 <= j < k)%Z → cron_matches fs (c + j * ms_per_minute) = false.
Proof.
  revert c. induction n as [|n IH]; intros c; cbn [cron_search].
  - split; [done|]. intros (k & ? & _). lia.
  - destruct (cron_matches fs c) eqn:E.
    + split.
      * intros [= <-]. exists 0%Z. split; [lia|]. split; [lia|]. split; [done|]. lia.
      * intros (k & Hk & -> & Ht & Hmin). destruct (decide (k = 0%Z)) as [->|]; [f_equal; lia|].
        specialize (Hmin 0%Z ltac:(lia)). rewrite Z.mul_0_l, Z.add_0_r in Hmin. congruence.
    + rewrite IH. split.
      * intros (k & Hk & -> & Ht & Hmin). exists (k + 1)%Z. split; [lia|]. split; [lia|]. split; [done|].
        intros j Hj. destruct (decide (j = 0%Z)) as [->|]; [by rewrite Z.mul_0_l, Z.add_0_r|].
        replace (c + j * ms_per_minute)%Z with (c + ms_per_minute + (j - 1) * ms_per_minute)%Z by lia. apply Hmin. lia.
      * intros (k & Hk & -> & Ht & Hmin).
        assert (k ≠ 0)%Z by (intros ->; rewrite Z.mul_0_l, Z.add_0_r in Ht; congruence).
        exists (k - 1)%Z. split; [lia|]. split; [lia|]. split; [done|]. intros j Hj.
        replace (c + ms_per_minute + j * ms_per_minute)%Z with (c + (j + 1) * ms_per_minute)%Z by lia. apply Hmin. lia.
Qed.

Lemma cron_search_None n fs c :
  cron_search n fs c = None → ∀ k, (0 <= k < Z.of_nat n)%Z → cron_matches fs (c + k * ms_per_minute) = false.
Proof.
  revert c. induction n as [|n IH]; intros c H k Hk; [lia|]. cbn [cron_search] in H.
  destruct (cron_matches fs c) eqn:E; [done|]. destruct (decide (k = 0%Z)) as [->|].
  - by rewrite Z.mul_0_l, Z.add_0_r.
  - replace (c + k * ms_per_minute)%Z with (c + ms_per_minute + (k - 1) * ms_per_minute)%Z by lia. apply IH; [done|lia].
Qed.

Lemma first_candidate_bounds now :
  (now < first_candidate now <= now + ms_per_minute)%Z ∧ ((first_candidate now + localOffset) mod ms_per_minute = 0)%Z.
Proof.
  unfold first_candidate, local_minutes, ms_per_minute.
  pose proof (Z.div_mod (now + localOffset) 60000 ltac:(lia)).
  pose proof (Z.mod_pos_bound (now + localOffset) 60000 ltac:(lia)). split; [lia|].
  apply Z.mod_divide; [lia|]. exists ((now + localOffset) / 60000 + 1)%Z. lia.
Qed.

(** A local minute boundary. *)
Definition on_minute (t : Z) : Prop := ((t + localOffset) mod ms_per_minute = 0)%Z.

Lemma minute_index now t :
  on_minute t → (now < t)%Z → ∃ k, (0 <= k)%Z ∧ t = (first_candidate now + k * ms_per_minute)%Z.
Proof.
  intros Ht Hn. destruct (first_candidate_bounds now) as [Hb Hm]. unfold on_minute, ms_per_minute in *.
  pose proof (Z.div_mod (t + localOffset) 60000 ltac:(lia)).
  pose proof (Z.div_mod (first_candidate now + localOffset) 60000 ltac:(lia)).
  exists ((t + localOffset) / 60000 - (first_candidate now + localOffset) / 60000)%Z. lia.
Qed.

(** C40. Cron: without a zone of its own, and in a process whose zone keeps one
    offset, the next run of an expression is the first minute after now whose
    local month, day, weekday, hour and minute all match, plus the stagger; there
    is none exactly when no minute of the next 366 days matches or the expression
    is malformed. *)
Theorem cron_next_first_match (expr : jsstr) (staggerMs : option Z) (nowMs : Z) :
  let st := match staggerMs with Some s => Z.max 0 s | None => 0%Z end in
  match computeNextRunAtMs (CronExpr expr None staggerMs) nowMs with
  | Some t => ∃ fs, cron_fields expr = Some fs ∧ (nowMs < t - st)%Z ∧ on_minute (t - st) ∧ cron_matches fs (t - st) = true ∧
      ∀ t', on_minute t' → (nowMs < t' < t - st)%Z → cron_matches fs t' = false
  | None => cron_fields expr = None ∨
      ∃ fs, cron_fields expr = Some fs ∧
        ∀ t', on_minute t' → (nowMs < t' <= nowMs + (366 * 24 * 60) * ms_per_minute)%Z → cron_matches fs t' = false
  end.
Proof.
  intros st. cbn [computeNextRunAtMs]. unfold computeCron. cbn [cron_now].
  destruct (cron_fields expr) as [fs|]; [|by left].
  destruct (first_candidate_bounds nowMs) as [Hb Hm].
  assert (Hlim : Z.of_nat searchLimit = (366 * 24 * 60)%Z) by (unfold searchLimit; rewrite Z2Nat.id; lia).
  destruct (cron_search searchLimit fs (first_candidate nowMs)) as [c|] eqn:E.
  - apply cron_search_spec in E as (k & Hk & Hc & Hmatch & Hmin). unfold ms_per_minute in *.
    assert (Hst : (match staggerMs with Some st => if 0 <? st then st else 0 | None => 0 end)%Z = st).
    { unfold st. destruct staggerMs as [s|]; [|done]. destruct (Z.ltb_spec 0 s); lia. }
    rewrite Hst. assert (0 <= st)%Z by (unfold st; destruct staggerMs; lia).
    destruct (Z.ltb_spec nowMs (c + st)); [|lia]. exists fs. replace (c + st - st)%Z with c by lia.
    split; [done|]. split; [lia|]. split.
    { unfold on_minute, ms_per_minute. rewrite Hc. replace (first_candidate nowMs + k * 60000 + localOffset)%Z
        with (first_candidate nowMs + localOffset + k * 60000)%Z by lia. by rewrite Z.mod_add by lia. }
    split; [done|]. intros t' Ht' [Hlo Hhi]. destruct (minute_index nowMs t' Ht' Hlo) as (j & Hj & ->).
    apply Hmin. unfold ms_per_minute in *. lia.
  - right. exists fs. split; [done|]. intros t' Ht' [Hlo Hhi].
    destruct (minute_index nowMs t' Ht' Hlo) as (j & Hj & ->). apply not_true_is_false. intros Hmatch.
    rewrite (cron_search_None _ _ _ E j) in Hmatch; [done|]. unfold ms_per_minute in *. lia.
Qed.

(** ** Stagger and windows *)

Lemma to_int32_range x : (-2147483648 <= to_int32 x < 2147483648)%Z ∧ ((to_int32 x - x) mod 4294967296 = 0)%Z.
Proof.
  unfold to_int32. pose proof (Z.mod_pos_bound x 4294967296 ltac:(lia)). pose proof (Z.div_mod x 4294967296 ltac:(lia)).
  destruct (Z.ltb_spec (x mod 4294967296) 2147483648); (split; [lia|]); apply Z.mod_divide; try lia.
  - exists (- (x / 4294967296))%Z. lia.
  - exists (- (x / 4294967296) - 1)%Z. lia.
Qed.

(** Stagger: the offset of a job is not negative and smaller than the
    stagger window, for every job id, and is zero for schedules that are not
    cron expressions at minute zero. *)
Theorem stagger_bounds (schedule : CronSchedule) (jobId : jsstr) :
  let w := match schedule with CronExpr _ _ (Some st) => st | _ => DEFAULT_TOP_OF_HOUR_STAGGER_MS end in
  (0 <= computeStaggerMs schedule jobId false None)%Z ∧
  ((0 < w)%Z → (computeStaggerMs schedule jobId false None < w)%Z) ∧
  ((w <= 0)%Z → computeStaggerMs schedule jobId false None = 0%Z).
Proof.
  unfold computeStaggerMs. destruct schedule as [a|e an|expr tz st]; cbn [default]; try (split; [lia|split; [lia|done]]).
  assert (Hw : match st with Some st => st | None => DEFAULT_TOP_OF_HOUR_STAGGER_MS end = default DEFAULT_TOP_OF_HOUR_STAGGER_MS st)
    by (by destruct st). rewrite Hw. clear Hw. set (w := default DEFAULT_TOP_OF_HOUR_STAGGER_MS st).
  destruct (negb _); [split; [lia|split; [lia|done]]|]. destruct (Z.leb_spec w 0); [split; [lia|split; [lia|done]]|].
  pose proof (Z.mod_pos_bound (Z.abs (hash_id jobId)) w ltac:(lia)). split; [lia|]. split; lia.
Qed.

Definition minutes_of_day (ms : Z) : Z := (getHours ms * 60 + getMinutes ms)%Z.

Lemma minutes_of_day_mod ms : minutes_of_day ms = (local_minutes ms mod 1440)%Z.
Proof.
  unfold minutes_of_day, getHours, getMinutes. set (m := local_minutes ms).
  pose proof (Z.div_mod m 60 ltac:(lia)). pose proof (Z.div_mod (m / 60) 24 ltac:(lia)).
  pose proof (Z.mod_pos_bound m 60 ltac:(lia)). pose proof (Z.mod_pos_bound (m / 60) 24 ltac:(lia)).
  apply (Z.mod_unique _ _ (m / 60 / 24)); lia.
Qed.

(** Active hours: with a window on the process's own clock, a time outside
    it gets a next eligible time that is later, at most a day away, and inside
    the window, so a run deferred by the gate is not deferred again. *)
Theorem active_hours_opens (cfg : Config) (nowMs nextEligibleMs : Z) :
  default [] (window_tz cfg) = [] → startMinutes cfg ≠ endMinutes cfg →
  (0 <= startMinutes cfg < 1440)%Z → (0 <= endMinutes cfg <= 1440)%Z →
  check (Some cfg) nowMs = Some (GateClosed nextEligibleMs) →
  (nowMs < nextEligibleMs <= nowMs + 86400000)%Z ∧ check (Some cfg) nextEligibleMs = Some GateAllowed.
Proof.
  intros Htz Hne Hs He H.
  assert (Hcur : ∀ ms, getCurrentMinutes ms (window_tz cfg) = Some (minutes_of_day ms)).
  { intros ms. unfold getCurrentMinutes, minutes_of_day. by destruct (window_tz cfg) as [[|c z]|]. }
  unfold check in *. rewrite Hcur in *. rewrite minutes_of_day_mod in *.
  destruct (in_window cfg (local_minutes nowMs mod 1440)) eqn:Ew; [done|]. injection H as <-.
  set (cur := (local_minutes nowMs mod 1440)%Z) in *.
  pose proof (Z.mod_pos_bound (local_minutes nowMs) 1440 ltac:(lia)). fold cur in H.
  unfold computeNextWindowOpen.
  set (d := (startMinutes cfg - cur)%Z). set (u := (if d <=? 0 then d + 24 * 60 else d)%Z).
  assert (Hu : (0 < u <= 1440)%Z ∧ ((cur + u) mod 1440 = startMinutes cfg)%Z).
  { unfold u. destruct (Z.leb_spec d 0); (split; [unfold d in *; lia|]).
    - symmetry. apply (Z.mod_unique _ _ 1); unfold d; lia.
    - symmetry. apply (Z.mod_unique _ _ 0); unfold d; lia. }
  destruct Hu as [Hu Hmod]. split; [lia|]. f_equal.
  assert (Hnext : (local_minutes (nowMs + u * 60 * 1000) mod 1440)%Z = startMinutes cfg).
  { rewrite <- Hmod. unfold cur. rewrite Z.add_mod_idemp_l by lia. f_equal. unfold local_minutes, ms_per_minute.
    replace (nowMs + u * 60 * 1000 + localOffset)%Z with (nowMs + localOffset + u * 60000)%Z by lia.
    by rewrite Z.div_add by lia. }
  rewrite Hnext.
  unfold in_window. destruct (Z.leb_spec (startMinutes cfg) (endMinutes cfg)).
  - destruct (Z.leb_spec (startMinutes cfg) (startMinutes cfg)); [|lia].
    destruct (Z.ltb_spec (startMinutes cfg) (endMinutes cfg)); [done|lia].
  - destruct (Z.leb_spec (startMinutes cfg) (startMinutes cfg)); [done|lia].
Qed.
End Zone.

Lemma every_next_boundary_witness :
  ∃ next, computeNextRunAtMs 0 (λ _ _, None) (λ _, None) (Every 1000 (Some 250%Z)) 3300 = Some next ∧ next = 4250%Z.
Proof.
  destruct (every_next_boundary 0 (λ _ _, None) (λ _, None) 1000 3300 (Some 250%Z) ltac:(lia)) as (next & E & _).
  exists next. split; [exact E|]. vm_compute in E. by injection E.
Defined.

Definition night : Config := Window 1320 360 None.
Lemma active_hours_opens_witness :
  check 0 (λ _ _, None) (Some night) 43200000 = Some (GateClosed 79200000) ∧
  check 0 (λ _ _, None) (Some night) 79200000 = Some GateAllowed.
Proof.
  assert (E : check 0 (λ _ _, None) (Some night) 43200000 = Some (GateClosed 79200000)) by (by vm_compute).
  split; [exact E|].
  exact (proj2 (active_hours_opens 0 (λ _ _, None) night 43200000 79200000 eq_refl ltac:(simpl; lia)
    ltac:(simpl; lia) ltac:(simpl; lia) E)).
Defined.

(** ** Zones

    A zone of constant offset, for the examples. *)
Definition fixed_zone (offset : Z) (_ : jsstr) (ms : Z) : option civil :=
  let s := ((ms + offset) / 1000)%Z in
  let '(y, m, d) := civil_from_days (s / 86400) in
  Some (Civil y m d (s / 3600 mod 24) (s / 60 mod 60) (s mod 60)).

(** Nine o'clock in a zone eight hours east of the process's is one hour after
    now; the wall clock of the zone is taken for the process's own, and the
    answer is nine o'clock of the process, eight hours late. *)
Example zone_east :
  computeNextRunAtMs 0 (fixed_zone 28800000) (λ _, None) (CronExpr (js "0 9 * * *") (Some (js "Asia/Taipei")) None) 0
  = Some 32400000%Z.
Proof. by vm_compute. Qed.

(** West of the process the answer may lie in the past, and the schedule counts
    as having no next run. *)
Example zone_west :
  computeNextRunAtMs 0 (fixed_zone (-18000000)) (λ _, None) (CronExpr (js "30 19 * * *") (Some (js "America/New_York")) None) 0
  = None.
Proof. by vm_compute. Qed.
