(* ===== verification/Retry.v ===== *)
(** What follows a cron run: the retry policy ([cron/retry.ts]).

    [None] as a time to run next is [NaN], which the code computes only from an
    empty custom backoff schedule. *)

From S2P Require Import Prelude JsString Schedule.

Definition DEFAULT_BACKOFF_MS : list Z := [30000; 60000; 5 * 60000; 15 * 60000; 60 * 60000]%Z.
Definition DEFAULT_MAX_ATTEMPTS : Z := 3.

(** ** Error classes *)

Inductive ErrorClass := Transient | Permanent.
#[export] Instance ErrorClass_eq_dec : EqDecision ErrorClass.
Proof. solve_decision. Defined.

Definition literal (p s : jsstr) : option nat := if startsWith s p then Some (length p) else None.
(** [5\d{2}]. *)
Definition status_5xx (s : jsstr) : option nat :=
  match s with
  | 53%N :: a :: b :: _ => if is_digit a && is_digit b then Some 3 else None
  | _ => None
  end.
Definition any_in (s : jsstr) (ps : list string) : bool := existsb (λ p, includes s (js p)) ps.

Definition is_rate_limit (e : jsstr) : bool :=
  any_in (asciiLower e) ["rate_limit"; "rate limit"; "too many requests"; "429"; "resource has been exhausted"]%string.
Definition is_overloaded (e : jsstr) : bool :=
  match_word (literal (js "529")) false e || match_word (literal (js "overloaded")) false (asciiLower e)
  || any_in (asciiLower e) ["high demand"; "capacity exceeded"]%string.
Definition is_network (e : jsstr) : bool :=
  any_in (asciiLower e) ["econnreset"; "econnrefused"; "fetch failed"; "socket"; "network"]%string.
Definition is_timeout (e : jsstr) : bool := any_in (asciiLower e) ["timeout"; "etimedout"]%string.
Definition is_server_error (e : jsstr) : bool := match_word status_5xx false e.

Definition TRANSIENT_PATTERNS : list (jsstr → bool) :=
  [is_rate_limit; is_overloaded; is_network; is_timeout; is_server_error].
Definition PERMANENT_REASONS : list jsstr :=
  map js ["auth"; "auth_permanent"; "format"; "billing"; "model_not_found"; "session_expired"]%string.

Definition classifyError (error reason : option jsstr) : ErrorClass :=
  if bool_decide (default [] reason ∈ PERMANENT_REASONS) then Permanent
  else match error with
       | Some (c :: e) => if existsb (λ p, p (c :: e)) TRANSIENT_PATTERNS then Transient else Permanent
       | _ => Permanent
       end.

(** ** Decisions *)

Definition backoffMs (consecutiveErrors : Z) (schedule : option (list Z)) : option Z :=
  let backoff := default DEFAULT_BACKOFF_MS schedule in
  let index := Z.min (consecutiveErrors - 1) (Z.of_nat (length backoff) - 1) in
  backoff !! Z.to_nat (Z.max 0 index).

Inductive status := Ok | Error | Skipped.
#[export] Instance status_eq_dec : EqDecision status.
Proof. solve_decision. Defined.
Record CronRunOutcome := Outcome { o_status : status; o_error : option jsstr; o_durationMs : option Z }.

Record RetryConfig := RetryCfg { maxAttempts : option Z; backoffScheduleMs : option (list Z) }.

Inductive RetryDecision :=
| Continue (nextRunAtMs : option Z) (consecutiveErrors : Z)
| Disable (reason : jsstr) (consecutiveErrors : Z).

Definition one_shot (s : CronSchedule) : bool := match s with At _ => true | _ => false end.

Section Policy.
Context (localOffset : Z) (zone_parts : jsstr → Z → option civil) (parse_date : jsstr → option Z).
Notation nextRun := (computeNextRunAtMs localOffset zone_parts parse_date).

Definition decide_retry (schedule : CronSchedule) (errors : Z) (outcome : CronRunOutcome) (config : RetryConfig)
    (now : Z) : RetryDecision :=
  if bool_decide (o_status outcome ≠ Error) then
    if one_shot schedule then Disable (js "one-shot completed") 0
    else match nextRun schedule now with
         | None => Disable (js "no future run time") 0
         | Some next => Continue (Some next) 0
         end
  else
    let newErrors := (errors + 1)%Z in
    match classifyError (o_error outcome) None with
    | Permanent => Disable (js "permanent error: " ++ default (js "unknown") (o_error outcome)) newErrors
    | Transient =>
        let attempts := default DEFAULT_MAX_ATTEMPTS (maxAttempts config) in
        let delay := backoffMs newErrors (backoffScheduleMs config) in
        if one_shot schedule then
          if (attempts <=? newErrors)%Z
          then Disable (js "max retries (" ++ show_Z attempts ++ js ") reached") newErrors
          else Continue ((λ d, now + d)%Z <$> delay) newErrors
        else
          match nextRun schedule now with
          | None => Disable (js "no future run time") newErrors
          | Some naturalNext => Continue ((λ d, Z.max naturalNext (now + d)) <$> delay) newErrors
          end
    end.

(** The fields of the job state that a run updates. *)
Record job_state := JobState {
  nextRunAtMs : option (option Z);   (* [Some None] is [NaN] *)
  runningAtMs : option Z;
  lastRunAtMs : option Z;
  lastRunStatus : option status;
  lastError : option jsstr;
  lastErrorReason : option ErrorClass;
  lastDurationMs : option Z;
  consecutiveErrors : option Z
}.
Definition applyOutcomeToState (outcome : CronRunOutcome) (decision : RetryDecision) (now : Z) : job_state :=
  let errors := match decision with Continue _ n | Disable _ n => n end in
  let failed := bool_decide (o_status outcome = Error) in
  JobState (match decision with Continue next _ => Some next | Disable _ _ => None end)
    None (Some now) (Some (o_status outcome))
    (if failed then o_error outcome else None)
    (if failed then Some (classifyError (o_error outcome) None) else None)
    (o_durationMs outcome) (Some errors).

(** ** Times and attempts *)

(** A next run is in the future, whatever the schedule. *)
Lemma next_run_future s now t : nextRun s now = Some t → (now < t)%Z.
Proof.
  destruct s as [a|e an|expr tz st]; simpl.
  - unfold computeAt. destruct (parse_date a) as [ts|]; [|done]. destruct (Z.ltb_spec now ts); [|done]. by intros [= <-].
  - unfold computeEvery. destruct (Z.leb_spec e 0); [done|]. set (anchor := default now an).
    destruct (Z.ltb_spec now anchor); intros [= <-]; [done|].
    pose proof (Z.div_mod (now - anchor) e ltac:(lia)). pose proof (Z.mod_pos_bound (now - anchor) e ltac:(lia)). nia.
  - unfold computeCron. destruct (cron_fields expr) as [fs|]; [|done].
    destruct (cron_now localOffset zone_parts now tz) as [n|]; [|done]. destruct (cron_search _ _ _ _) as [c|]; [|done].
    set (r := (c + _)%Z). destruct (Z.ltb_spec now r); [|done]. by intros [= <-].
Qed.

Lemma default_backoff n : ∃ d, backoffMs n None = Some d ∧ (30000 <= d <= 3600000)%Z.
Proof.
  unfold backoffMs. cbn [default]. set (i := Z.to_nat _).
  assert (Hi : i < 5). { unfold i. change (Z.of_nat (length DEFAULT_BACKOFF_MS)) with 5%Z. lia. }
  clearbody i. do 5 (destruct i as [|i]; [eexists; split; [done|]; lia|]). lia.
Qed.

(** Retry decisions: with the default backoff, a job that goes on runs next
    strictly in the future, after a failure no sooner than half a minute later
    and never before its schedule; the error count is cleared by a success and
    grows by one with every failure; a permanent error never goes on. *)
Theorem retry_decision (schedule : CronSchedule) (errors now : Z) (outcome : CronRunOutcome) (attempts : option Z) :
  match decide_retry schedule errors outcome (RetryCfg attempts None) now with
  | Continue next n => ∃ t, next = Some t ∧ (now < t)%Z ∧
      (o_status outcome ≠ Error → n = 0%Z ∧ nextRun schedule now = Some t) ∧
      (o_status outcome = Error → n = (errors + 1)%Z ∧ (now + 30000 <= t)%Z ∧
         classifyError (o_error outcome) None = Transient ∧
         (one_shot schedule = false → ∃ t0, nextRun schedule now = Some t0 ∧ (t0 <= t)%Z))
  | Disable _ n => n = if bool_decide (o_status outcome = Error) then (errors + 1)%Z else 0%Z
  end.
Proof.
  unfold decide_retry. destruct (decide (o_status outcome = Error)) as [He|He].
  - rewrite (bool_decide_eq_false_2 (o_status outcome ≠ Error)) by (by intros H; apply H).
    rewrite (bool_decide_eq_true_2 (o_status outcome = Error)) by done.
    destruct (classifyError (o_error outcome) None); [|done]. cbn [maxAttempts backoffScheduleMs].
    destruct (default_backoff (errors + 1)) as (d & -> & Hd). destruct (one_shot schedule).
    + destruct (_ <=? _)%Z; [done|]. eexists. split; [done|]. split; [lia|]. split; [done|].
      intros _. split; [done|]. split; [lia|]. split; [done|]. done.
    + destruct (nextRun schedule now) as [t0|] eqn:E; [|done]. apply next_run_future in E.
      eexists. split; [done|]. split; [lia|]. split; [done|]. intros _.
      split; [done|]. split; [lia|]. split; [done|]. intros _. exists t0. split; [done|]. lia.
  - rewrite (bool_decide_eq_true_2 (o_status outcome ≠ Error)) by done.
    rewrite (bool_decide_eq_false_2 (o_status outcome = Error)) by done.
    destruct (one_shot schedule); [done|]. destruct (nextRun schedule now) as [t|] eqn:E; [|done].
    exists t. split; [done|]. split; [by eapply next_run_future|]. split; [done|]. done.
Qed.

(** The error count after a sequence of runs, [None] once the job is disabled. *)
Fixpoint runs_of (schedule : CronSchedule) (config : RetryConfig) (errors : Z) (runs : list (CronRunOutcome * Z)) : option Z :=
  match runs with
  | [] => Some errors
  | (outcome, now) :: rest =>
      match decide_retry schedule errors outcome config now with
      | Continue _ n => runs_of schedule config n rest
      | Disable _ _ => None
      end
  end.

Lemma one_shot_step schedule config errors outcome now next n :
  one_shot schedule = true → decide_retry schedule errors outcome config now = Continue next n →
  n = (errors + 1)%Z ∧ (n < default DEFAULT_MAX_ATTEMPTS (maxAttempts config))%Z.
Proof.
  intros Hs H. unfold decide_retry in H. rewrite Hs in H. destruct (bool_decide _); [done|].
  destruct (classifyError _ _); [|done]. destruct (Z.leb_spec (default DEFAULT_MAX_ATTEMPTS (maxAttempts config)) (errors + 1));
    [done|]. by injection H as _ <-.
Qed.

(** One-shot jobs end: whatever their runs come to, they are disabled after
    at most the configured number of attempts (three by default). *)
Theorem one_shot_terminates (schedule : CronSchedule) (config : RetryConfig) (runs : list (CronRunOutcome * Z)) :
  one_shot schedule = true →
  (Z.max 1 (default DEFAULT_MAX_ATTEMPTS (maxAttempts config)) <= Z.of_nat (length runs))%Z →
  runs_of schedule config 0 runs = None.
Proof.
  intros Hs Hl. set (m := default DEFAULT_MAX_ATTEMPTS (maxAttempts config)) in *.
  assert (Hgen : ∀ errors, (Z.max 1 (m - errors) <= Z.of_nat (length runs))%Z → runs_of schedule config errors runs = None);
    [|by apply Hgen; lia]. clear Hl.
  induction runs as [|[outcome now] runs IH]; intros errors Hl; simpl in *; [lia|].
  destruct (decide_retry schedule errors outcome config now) as [next n|] eqn:E; [|done].
  apply one_shot_step in E as [-> Hn]; [|done]. fold m in Hn. apply IH. lia.
Qed.
End Policy.

Lemma one_shot_terminates_witness :
  let fail := Outcome Error (Some (js "HTTP 503 from upstream")) None in
  runs_of 0 (λ _ _, None) (λ _, None) (At (js "t")) (RetryCfg None None) 0 [(fail, 1); (fail, 2)]%Z = Some 2%Z ∧
  runs_of 0 (λ _ _, None) (λ _, None) (At (js "t")) (RetryCfg None None) 0 [(fail, 1); (fail, 2); (fail, 3)]%Z = None.
Proof.
  intros fail. split; [by vm_compute|].
  apply (one_shot_terminates 0 (λ _ _, None) (λ _, None) (At (js "t")) (RetryCfg None None)); [reflexivity|by vm_compute].
Defined.
