(* ===== verification/SystemEvents.v ===== *)
(** The queues of system events ([cron/system-events.ts]): in memory, first in
    first out, one per session key. *)

From S2P Require Import Prelude JsString.

Definition MAX_EVENTS : nat := 20.

Record SystemEvent := Event { text : jsstr; ts : Z; contextKey : option jsstr }.

Notation queues := (gmap jsstr (list SystemEvent)).

(** [while (queue.length > MAX_EVENTS) queue.shift()]; the queue's length is
    fuel enough. *)
Fixpoint shift_excess (fuel : nat) (q : list SystemEvent) : list SystemEvent :=
  match fuel with
  | O => q
  | S fuel => if Nat.ltb MAX_EVENTS (length q) then shift_excess fuel (tail q) else q
  end.

Definition repeats (q : list SystemEvent) (t : jsstr) : bool :=
  match last q with Some e => bool_decide (text e = t) | None => false end.

Definition enqueue (t sessionKey : jsstr) (ctx : option jsstr) (now : Z) (qs : queues) : queues :=
  let q := default [] (qs !! sessionKey) in
  if repeats q t then <[sessionKey := q]> qs
  else
    let q' := q ++ [Event t now ctx] in
    <[sessionKey := shift_excess (length q') q']> qs.

Definition drain (sessionKey : jsstr) (qs : queues) : list SystemEvent * queues :=
  match qs !! sessionKey with
  | None | Some [] => ([], qs)
  | Some events => (events, <[sessionKey := []]> qs)
  end.

Definition peek (sessionKey : jsstr) (qs : queues) : list SystemEvent := default [] (qs !! sessionKey).
Definition hasPending (sessionKey : jsstr) (qs : queues) : bool := Nat.ltb 0 (length (peek sessionKey qs)).
Definition isContextChanged (sessionKey current : jsstr) (qs : queues) : bool :=
  match last (peek sessionKey qs) with
  | None => false
  | Some latest => match contextKey latest with None => false | Some k => negb (bool_decide (k = current)) end
  end.
Definition clear (sessionKey : jsstr) (qs : queues) : queues := delete sessionKey qs.
Definition clearAll (qs : queues) : queues := ∅.
Definition size_of (sessionKey : jsstr) (qs : queues) : nat := length (peek sessionKey qs).

(** ** Operations and what they should show *)

Inductive op :=
| Enqueue (t sessionKey : jsstr) (ctx : option jsstr) (now : Z)
| Drain (sessionKey : jsstr)
| Clear (sessionKey : jsstr)
| ClearAll.

(** The events a drain returns, and the queues. *)
Definition exec (o : op) (qs : queues) : list SystemEvent * queues :=
  match o with
  | Enqueue t k ctx now => ([], enqueue t k ctx now qs)
  | Drain k => drain k qs
  | Clear k => ([], clear k qs)
  | ClearAll => ([], clearAll qs)
  end.

(** The abstract state: every event accepted since the last drain or clear of
    the session, without bound. *)
Definition history : Type := jsstr → list SystemEvent.
Definition last_events (h : list SystemEvent) : list SystemEvent := drop (length h - MAX_EVENTS) h.
Definition upd (k : jsstr) (l : list SystemEvent) (h : history) : history :=
  λ k', if bool_decide (k' = k) then l else h k'.
Definition spec_after (o : op) (h : history) : history :=
  match o with
  | Enqueue t k ctx now => if repeats (h k) t then h else upd k (h k ++ [Event t now ctx]) h
  | Drain k | Clear k => upd k [] h
  | ClearAll => λ _, []
  end.
Definition spec_out (o : op) (h : history) : list SystemEvent :=
  match o with Drain k => last_events (h k) | _ => [] end.

Fixpoint exec_all (os : list op) (qs : queues) : list (list SystemEvent) :=
  match os with [] => [] | o :: os' => let '(out, qs') := exec o qs in out :: exec_all os' qs' end.
Fixpoint spec_all (os : list op) (h : history) : list (list SystemEvent) :=
  match os with [] => [] | o :: os' => spec_out o h :: spec_all os' (spec_after o h) end.

Lemma shift_excess_eq fuel q : length q ≤ fuel + MAX_EVENTS → shift_excess fuel q = last_events q.
Proof.
  revert q. induction fuel as [|fuel IH]; intros q Hl; simpl; unfold last_events in *.
  - by replace (length q - MAX_EVENTS) with 0 by (unfold MAX_EVENTS in *; lia).
  - destruct (Nat.ltb_spec MAX_EVENTS (length q)).
    + destruct q as [|e q]; [simpl in *; lia|]. cbn [tail length] in *. rewrite IH by lia.
      by replace (S (length q) - MAX_EVENTS) with (S (length q - MAX_EVENTS)) by lia.
    + by replace (length q - MAX_EVENTS) with 0 by lia.
Qed.

Lemma last_events_last h : last (last_events h) = last h.
Proof.
  unfold last_events. destruct h as [|e h _] using rev_ind; [done|]. rewrite length_app. cbn [length].
  rewrite drop_app_le by (unfold MAX_EVENTS; lia). by rewrite !last_snoc.
Qed.

Lemma last_events_snoc h e : last_events (last_events h ++ [e]) = last_events (h ++ [e]).
Proof.
  unfold last_events. rewrite !length_app, length_drop. cbn [length]. unfold MAX_EVENTS.
  rewrite !drop_app, drop_drop, length_drop. f_equal; f_equal; lia.
Qed.

Definition shows (qs : queues) (h : history) : Prop := ∀ k, peek k qs = last_events (h k).

Lemma exec_shows o qs h :
  shows qs h → (exec o qs).1 = spec_out o h ∧ shows (exec o qs).2 (spec_after o h).
Proof.
  intros Hs. destruct o as [t k ctx now|k|k|]; cbn [exec spec_out spec_after].
  - split; [done|]. unfold enqueue. change (default [] (qs !! k)) with (peek k qs). rewrite Hs.
    assert (Hr : repeats (last_events (h k)) t = repeats (h k) t) by (unfold repeats; by rewrite last_events_last).
    rewrite Hr. cbn [snd]. intros k'. unfold peek at 1. unfold upd. destruct (repeats (h k) t).
    + destruct (decide (k' = k)) as [->|]; [by rewrite lookup_insert_eq; apply Hs|]. rewrite lookup_insert_ne by done. apply Hs.
    + destruct (decide (k' = k)) as [->|].
      * rewrite lookup_insert_eq, bool_decide_eq_true_2 by done. cbn [default from_option].
        unfold default, from_option, id. rewrite shift_excess_eq by lia. rewrite Hs; apply last_events_snoc.
      * rewrite lookup_insert_ne, bool_decide_eq_false_2 by done. apply Hs.
  - unfold drain. pose proof (Hs k) as Hk. unfold peek in Hk. destruct (qs !! k) as [[|e q]|] eqn:E; simpl in Hk; cbn [fst snd].
    + split; [done|]. intros k'. unfold upd. case_bool_decide as Ek; [|apply Hs]. subst k'. unfold peek. by rewrite E.
    + split; [done|]. intros k'. unfold upd, peek. case_bool_decide as Ek.
      * subst k'. by rewrite lookup_insert_eq.
      * rewrite lookup_insert_ne by done. apply Hs.
    + split; [done|]. intros k'. unfold upd. case_bool_decide as Ek; [|apply Hs]. subst k'. unfold peek. by rewrite E.
  - split; [done|]. cbn [snd]. intros k'. unfold upd, clear, peek. case_bool_decide as Ek.
    + subst k'. by rewrite lookup_delete_eq.
    + rewrite lookup_delete_ne by done. apply Hs.
  - split; [done|]. intros k'. unfold peek, clearAll. simpl. by rewrite lookup_empty.
Qed.

(** System events: for every sequence of operations, a drain returns the
    last twenty of the events accepted for its session since the previous
    drain or clear, in order, where an event whose text repeats the previous
    one is not accepted; other sessions are not touched. *)
Theorem system_events_fifo (os : list op) : exec_all os ∅ = spec_all os (λ _, []).
Proof.
  assert (H : ∀ qs h, shows qs h → exec_all os qs = spec_all os h).
  { induction os as [|o os IH]; intros qs h Hs; [done|]. simpl. destruct (exec_shows o qs h Hs) as [Ho Hs'].
    destruct (exec o qs) as [out qs']. simpl in *. by rewrite Ho, (IH qs' _ Hs'). }
  apply H. intros k. unfold peek. by rewrite lookup_empty.
Qed.

Example drain_dedup :
  exec_all [Enqueue (js "a") (js "s") None 1; Enqueue (js "a") (js "s") None 2; Enqueue (js "b") (js "s") None 3; Drain (js "s")] ∅
  = [[]; []; []; [Event (js "a") 1 None; Event (js "b") 3 None]].
Proof. by vm_compute. Qed.
