(* ===== verification/CronStore.v ===== *)
(** The store of cron jobs ([cron/store.ts], [cron/types.ts]).

    The store is the file [jobs.json].  Each operation holds the lock of the
    store from reading to writing (see [Lock]), so it is one step.  Writing
    does not fail; [Date.now()] and [crypto.randomUUID()] are arguments.  A
    partial object is the list of the fields it has: spreading it sets them in
    order. *)

From S2P Require Import Prelude JsString Schedule Retry.

(** ** Jobs *)

Inductive CronSessionTarget := target_main | target_isolated.
Inductive CronWakeMode := next_heartbeat | wake_now.
Inductive CronDeliveryMode := mode_none | mode_announce | mode_webhook.
Record CronDelivery := Delivery {
  mode : CronDeliveryMode;
  webhookUrl : option jsstr;
  webhookBearerToken : option jsstr;
  announceSessionID : option jsstr;
  bestEffort : option bool }.
Inductive CronDeliveryStatus := delivered | not_delivered | unknown_delivery | not_requested.

Inductive CronPayload :=
| PSystemEvent (text : jsstr)
| PAgentTurn (message : jsstr) (model accountId : option jsstr) (timeoutSeconds : option Z) (lightContext : option bool).

Inductive CronFailureAlert := alert_false | alert (after cooldownMs : option Z).

Record CronJobState := JState {
  nextRunAtMs : option Z;
  runningAtMs : option Z;
  lastRunAtMs : option Z;
  lastRunStatus : option status;
  lastError : option jsstr;
  lastErrorReason : option jsstr;
  lastDurationMs : option Z;
  consecutiveErrors : option Z;
  lastFailureAlertAtMs : option Z;
  scheduleErrorCount : option Z;
  lastDeliveryStatus : option CronDeliveryStatus;
  lastDeliveryError : option jsstr;
  lastModel : option jsstr;
  lastAccountId : option jsstr
}.
Definition no_state : CronJobState :=
  JState None None None None None None None None None None None None None None.

Record CronJob := Job {
  id : jsstr;
  name : jsstr;
  description : option jsstr;
  enabled : bool;
  deleteAfterRun : bool;
  createdAtMs : Z;
  updatedAtMs : Z;
  schedule : CronSchedule;
  sessionTarget : CronSessionTarget;
  parentID : option jsstr;
  dormantSessionID : option jsstr;
  wakeMode : CronWakeMode;
  payload : CronPayload;
  delivery : option CronDelivery;
  failureAlert : option CronFailureAlert;
  job_state : CronJobState
}.

(** ** Partial objects *)

(** The state fields that the program patches. *)
Inductive state_field :=
| SNextRun (v : option Z) | SRunning (v : option Z) | SLastRun (v : option Z) | SStatus (v : option status)
| SError (v : option jsstr) | SErrors (v : option Z) | SModel (v : option jsstr) | SAccount (v : option jsstr).

Definition set_state_field (s : CronJobState) (f : state_field) : CronJobState :=
  let '(JState a b c d e f' g h i j k l m n) := s in
  match f with
  | SNextRun v => JState v b c d e f' g h i j k l m n
  | SRunning v => JState a v c d e f' g h i j k l m n
  | SLastRun v => JState a b v d e f' g h i j k l m n
  | SStatus v => JState a b c v e f' g h i j k l m n
  | SError v => JState a b c d v f' g h i j k l m n
  | SErrors v => JState a b c d e f' g v i j k l m n
  | SModel v => JState a b c d e f' g h i j k l v n
  | SAccount v => JState a b c d e f' g h i j k l m v
  end.
Definition spread_state (s : CronJobState) (p : list state_field) : CronJobState := foldl set_state_field s p.

Inductive job_field :=
| FName (v : jsstr) | FDescription (v : option jsstr) | FEnabled (v : bool) | FDeleteAfterRun (v : bool)
| FSchedule (v : CronSchedule) | FSessionTarget (v : CronSessionTarget) | FParent (v : option jsstr)
| FDormant (v : option jsstr) | FWakeMode (v : CronWakeMode) | FPayload (v : CronPayload)
| FDelivery (v : option CronDelivery) | FFailureAlert (v : option CronFailureAlert).

Definition set_job_field (x : CronJob) (f : job_field) : CronJob :=
  let '(Job i n d e del c u s t p dorm w pay dl fa st) := x in
  match f with
  | FName v => Job i v d e del c u s t p dorm w pay dl fa st
  | FDescription v => Job i n v e del c u s t p dorm w pay dl fa st
  | FEnabled v => Job i n d v del c u s t p dorm w pay dl fa st
  | FDeleteAfterRun v => Job i n d e v c u s t p dorm w pay dl fa st
  | FSchedule v => Job i n d e del c u v t p dorm w pay dl fa st
  | FSessionTarget v => Job i n d e del c u s v p dorm w pay dl fa st
  | FParent v => Job i n d e del c u s t v dorm w pay dl fa st
  | FDormant v => Job i n d e del c u s t p v w pay dl fa st
  | FWakeMode v => Job i n d e del c u s t p dorm v pay dl fa st
  | FPayload v => Job i n d e del c u s t p dorm w v dl fa st
  | FDelivery v => Job i n d e del c u s t p dorm w pay v fa st
  | FFailureAlert v => Job i n d e del c u s t p dorm w pay dl v st
  end.
Definition set_state (st : CronJobState) (x : CronJob) : CronJob :=
  let '(Job i n d e del c u s t p dorm w pay dl fa _) := x in Job i n d e del c u s t p dorm w pay dl fa st.
Definition set_updated (now : Z) (x : CronJob) : CronJob :=
  let '(Job i n d e del c _ s t p dorm w pay dl fa st) := x in Job i n d e del c now s t p dorm w pay dl fa st.

Record CronJobPatch := Patch { p_fields : list job_field; p_state : list state_field }.

(** ** Operations *)

Section Store.
Context (localOffset : Z) (zone_parts : jsstr → Z → option civil) (parse_date : jsstr → option Z).
Notation nextRun := (computeNextRunAtMs localOffset zone_parts parse_date).

Notation store := (file (list CronJob)).

Definition seededNextRunAtMs (job : CronJob) (nowMs : Z) : option Z :=
  if negb (enabled job) then None else
  if one_shot (schedule job) then nextRun (schedule job) nowMs else
  match wakeMode job with
  | wake_now => Some (nowMs - 1)%Z
  | next_heartbeat => nextRun (schedule job) nowMs
  end.

(** [readFile]: any failure gives the empty store. *)
Definition readFile (f : store) : list CronJob := match f with Holds jobs => jobs | _ => [] end.
Definition writeFile (jobs : list CronJob) : store := Holds jobs.

Definition list_jobs (f : store) : list CronJob := readFile f.
Definition has_id (jobId : jsstr) (j : CronJob) : bool := bool_decide (id j = jobId).
Definition get (jobId : jsstr) (f : store) : option CronJob := find (has_id jobId) (readFile f).
Definition listEnabled (f : store) : list CronJob := filter (λ j, enabled j = true) (list_jobs f).

(** [create]: the id, times and state of [input] do not count. *)
Definition created (input : CronJob) (statePatch : option (list state_field)) (uuid : jsstr) (now : Z) : CronJob :=
  let '(Job _ n d e del _ _ s t p dorm w pay dl fa _) := input in
  let st := spread_state (set_state_field no_state (SErrors (Some 0%Z))) (default [] statePatch) in
  let job := Job uuid n d e del now now s t p dorm w pay dl fa st in
  match nextRunAtMs st with
  | Some _ => job
  | None => set_state (set_state_field st (SNextRun (seededNextRunAtMs job now))) job
  end.
Definition create (input : CronJob) (statePatch : option (list state_field)) (uuid : jsstr) (now : Z) (f : store)
    : CronJob * store :=
  let job := created input statePatch uuid now in (job, writeFile (readFile f ++ [job])).

Definition changes_schedule (f : job_field) : bool :=
  match f with FSchedule _ | FEnabled _ | FWakeMode _ => true | _ => false end.
Definition is_next_run (f : state_field) : bool := match f with SNextRun _ => true | _ => false end.

(** The job that [update] writes; [now] stamps it, [now'] is the clock of the
    seeding. *)
Definition updated (patch : CronJobPatch) (existing : CronJob) (now now' : Z) : CronJob :=
  let job := set_state (spread_state (job_state existing) (p_state patch))
               (set_updated now (foldl set_job_field existing (p_fields patch))) in
  if existsb changes_schedule (p_fields patch) && negb (existsb is_next_run (p_state patch))
  then set_state (set_state_field (job_state job) (SNextRun (seededNextRunAtMs job now'))) job
  else job.
Definition update (jobId : jsstr) (patch : CronJobPatch) (now now' : Z) (f : store) : option CronJob * store :=
  let jobs := readFile f in
  match findIndex (has_id jobId) jobs with
  | None => (None, f)
  | Some idx =>
      match jobs !! idx with
      | None => (None, f)
      | Some existing =>
          let job := updated patch existing now now' in (Some job, writeFile (<[idx := job]> jobs))
      end
  end.
Definition updateState (jobId : jsstr) (statePatch : list state_field) (now now' : Z) (f : store) : option CronJob * store :=
  update jobId (Patch [] statePatch) now now' f.

Definition remove (jobId : jsstr) (f : store) : bool * store :=
  let jobs := readFile f in
  let kept := filter (λ j, id j ≠ jobId) jobs in
  if Nat.eqb (length kept) (length jobs) then (false, f) else (true, writeFile kept).

(** ** What the operations do to the jobs by id *)

Definition ids (f : store) : list jsstr := map id (readFile f).
Definition wf (f : store) : Prop := NoDup (ids f).

Lemma has_id_spec i j : has_id i j = true ↔ id j = i.
Proof. unfold has_id. by rewrite bool_decide_eq_true. Qed.

Lemma get_Some f i j : wf f → get i f = Some j ↔ j ∈ readFile f ∧ id j = i.
Proof.
  clear localOffset zone_parts parse_date. unfold wf, ids, get. induction (readFile f) as [|x xs IH]; simpl; intros Hn.
  - split; [done|]. intros [H _]. no_member.
  - apply NoDup_cons in Hn as [Hx Hn]. destruct (has_id i x) eqn:E.
    + apply has_id_spec in E. split; [intros [= ->]; split; [left|done]|].
      intros [Hj Hi]. apply elem_of_cons in Hj as [->|Hj]; [done|].
      destruct Hx. rewrite E, <- Hi. by apply list_elem_of_fmap_2.
    + rewrite IH by done. rewrite elem_of_cons. split; [naive_solver|]. intros [[->|Hj] Hi]; [|done].
      apply has_id_spec in Hi. congruence.
Qed.

Lemma id_set_state_field st x : id (set_state st x) = id x.
Proof. by destruct x. Qed.

Lemma fields_keep (fs : list job_field) x :
  id (foldl set_job_field x fs) = id x ∧ createdAtMs (foldl set_job_field x fs) = createdAtMs x.
Proof.
  revert x. induction fs as [|f fs IH]; intros x; [done|]. simpl. destruct (IH (set_job_field x f)) as [-> ->].
  by destruct x, f.
Qed.

Lemma updated_keeps patch x now now' :
  id (updated patch x now now') = id x ∧ createdAtMs (updated patch x now now') = createdAtMs x ∧
  updatedAtMs (updated patch x now now') = now.
Proof.
  unfold updated. destruct (fields_keep (p_fields patch) x) as [H1 H2].
  destruct (foldl set_job_field x (p_fields patch)). simpl in *. by destruct (_ && _).
Qed.

Lemma updated_enabled patch x now now' :
  enabled (updated patch x now now') = enabled (foldl set_job_field x (p_fields patch)).
Proof. unfold updated. destruct (foldl set_job_field x (p_fields patch)). simpl. by destruct (_ && _). Qed.

Definition bump (jobId : jsstr) (patch : CronJobPatch) (now now' : Z) (j : CronJob) : CronJob :=
  if has_id jobId j then updated patch j now now' else j.

Lemma update_jobs jobId patch now now' f :
  wf f → readFile (update jobId patch now now' f).2 = map (bump jobId patch now now') (readFile f).
Proof.
  intros Hw. unfold update. destruct (findIndex _ _) as [i|] eqn:E; cbn [snd].
  - destruct (findIndex_Some _ _ _ E) as (x & Hx & Hp). rewrite Hx. cbn [snd writeFile readFile].
    apply list_eq. intros k. rewrite list_lookup_fmap.
    destruct (decide (k = i)) as [->|Hk].
    + rewrite list_lookup_insert_eq by (by eapply lookup_lt_Some). rewrite Hx. simpl. unfold bump. by rewrite Hp.
    + rewrite list_lookup_insert_ne by done. destruct (readFile f !! k) as [y|] eqn:Ey; simpl; [|done].
      unfold bump. destruct (has_id jobId y) eqn:Eq; [|done]. apply has_id_spec in Eq, Hp.
      destruct Hk. apply (NoDup_lookup (ids f) _ _ jobId); [done|..]; unfold ids; rewrite list_lookup_fmap.
      * rewrite Ey. simpl. congruence.
      * rewrite Hx. simpl. congruence.
  - symmetry. rewrite <- (map_id (readFile f)) at 2. apply map_ext_in. intros x Hx%list_elem_of_In.
    unfold bump. by rewrite (findIndex_None _ _ _ E Hx).
Qed.

Lemma bump_id jobId patch now now' j : id (bump jobId patch now now' j) = id j.
Proof. unfold bump. destruct (has_id jobId j); [apply updated_keeps|done]. Qed.

Lemma update_wf jobId patch now now' f : wf f → wf (update jobId patch now now' f).2.
Proof.
  intros Hw. unfold wf, ids. rewrite update_jobs by done. rewrite map_map.
  by rewrite (map_ext _ id) by apply bump_id.
Qed.

Lemma update_get jobId patch now now' f i :
  wf f → get i (update jobId patch now now' f).2 =
    if bool_decide (i = jobId) then (λ j, updated patch j now now') <$> get i f else get i f.
Proof.
  intros Hw. unfold get. rewrite update_jobs by done. induction (readFile f) as [|x xs IH]; simpl; [by case_bool_decide|].
  unfold has_id at 1. rewrite bump_id. fold (has_id i x). destruct (has_id i x) eqn:E; [|done].
  apply has_id_spec in E. unfold bump. case_bool_decide as Hi.
  - rewrite (proj2 (has_id_spec jobId x)) by congruence. done.
  - destruct (has_id jobId x) eqn:E'; [|done]. apply has_id_spec in E'. congruence.
Qed.

Lemma update_result jobId patch now now' f :
  wf f → (update jobId patch now now' f).1 = get jobId (update jobId patch now now' f).2.
Proof.
  intros Hw. rewrite update_get, bool_decide_eq_true_2 by done. unfold update.
  destruct (findIndex _ _) as [i|] eqn:E; cbn [fst].
  - destruct (findIndex_Some _ _ _ E) as (x & Hx & Hp). rewrite Hx. cbn [fst].
    assert (Hg : get jobId f = Some x).
    { apply get_Some; [done|]. apply has_id_spec in Hp. split; [by eapply list_elem_of_lookup_2|done]. }
    by rewrite Hg.
  - destruct (get jobId f) as [x|] eqn:Eg; [|done]. apply get_Some in Eg as [Hx Hi]; [|done].
    apply has_id_spec in Hi. by rewrite (findIndex_None _ _ _ E Hx) in Hi.
Qed.

Lemma find_app {A} (p : A → bool) xs ys :
  find p (xs ++ ys) = match find p xs with Some x => Some x | None => find p ys end.
Proof. induction xs as [|x xs IH]; simpl; [done|]. by destruct (p x). Qed.

Lemma created_id input sp uuid now : id (created input sp uuid now) = uuid.
Proof. unfold created. destruct input. cbv zeta. destruct (nextRunAtMs _); [done|apply id_set_state_field]. Qed.

Lemma create_get input sp uuid now f i :
  uuid ∉ ids f → get i (create input sp uuid now f).2 =
    if bool_decide (i = uuid) then Some (create input sp uuid now f).1 else get i f.
Proof.
  intros Hf. unfold create, get. cbn [fst snd readFile writeFile]. rewrite find_app. simpl.
  unfold has_id at 2. rewrite created_id. case_bool_decide as Hi.
  - rewrite bool_decide_eq_true_2 by done. subst i. destruct (find _ _) as [x|] eqn:E; [|done].
    apply find_Some in E as [E Hx]. apply has_id_spec in E. destruct Hf. unfold ids. rewrite <- E. by apply list_elem_of_fmap_2.
  - rewrite bool_decide_eq_false_2 by congruence. by destruct (find _ _).
Qed.

Lemma create_wf input sp uuid now f : wf f → uuid ∉ ids f → wf (create input sp uuid now f).2.
Proof.
  intros Hw Hf. unfold wf, ids, create. cbn. rewrite map_app. simpl. rewrite created_id.
  apply NoDup_app. split; [exact Hw|]. split; [|apply NoDup_singleton].
  intros x Hx ->%list_elem_of_singleton. done.
Qed.

Lemma remove_jobs jobId f : readFile (remove jobId f).2 = filter (λ j, id j ≠ jobId) (readFile f).
Proof.
  clear localOffset zone_parts parse_date. unfold remove. destruct (Nat.eqb_spec (length (filter (λ j, id j ≠ jobId) (readFile f))) (length (readFile f))) as [E|E]; cbn; [|done].
  symmetry. apply filter_all. apply Forall_forall. intros x Hx Hid.
  pose proof (length_filter_lt (λ j, id j ≠ jobId) (readFile f) x Hx) as Hlt. simpl in Hlt. specialize (Hlt ltac:(tauto)). lia.
Qed.

Lemma remove_get jobId f i : get i (remove jobId f).2 = if bool_decide (i = jobId) then None else get i f.
Proof.
  clear localOffset zone_parts parse_date. unfold get. rewrite remove_jobs. induction (readFile f) as [|x xs IH]; simpl; [by case_bool_decide|].
  rewrite filter_cons. destruct (decide (id x ≠ jobId)) as [Hx|Hx]; cbn [find]; rewrite IH; unfold has_id; repeat case_bool_decide; naive_solver.
Qed.

Lemma remove_wf jobId f : wf f → wf (remove jobId f).2.
Proof. unfold wf, ids. rewrite remove_jobs. apply NoDup_map_filter. Qed.

(** ** Sequences of operations *)

Inductive op :=
| Create (input : CronJob) (statePatch : option (list state_field)) (uuid : jsstr) (now : Z)
| Update (jobId : jsstr) (patch : CronJobPatch) (now now' : Z)
| Remove (jobId : jsstr).

Definition exec (o : op) (f : store) : store :=
  match o with
  | Create input sp uuid now => (create input sp uuid now f).2
  | Update jobId patch now now' => (update jobId patch now now' f).2
  | Remove jobId => (remove jobId f).2
  end.

(** The abstract store: a partial map from ids to jobs. *)
Definition spec_exec (o : op) (m : jsstr → option CronJob) : jsstr → option CronJob :=
  match o with
  | Create input sp uuid now => λ i, if bool_decide (i = uuid) then Some (created input sp uuid now) else m i
  | Update jobId patch now now' =>
      λ i, if bool_decide (i = jobId) then (λ j, updated patch j now now') <$> m i else m i
  | Remove jobId => λ i, if bool_decide (i = jobId) then None else m i
  end.

(** New ids are fresh. *)
Fixpoint fresh_ids (used : list jsstr) (os : list op) : Prop :=
  match os with
  | [] => True
  | Create _ _ uuid _ :: os' => uuid ∉ used ∧ fresh_ids (uuid :: used) os'
  | _ :: os' => fresh_ids used os'
  end.

Lemma exec_spec o f :
  wf f → fresh_ids (ids f) [o] → wf (exec o f) ∧ ∀ i, get i (exec o f) = spec_exec o (λ i, get i f) i.
Proof.
  intros Hw Hf. destruct o as [input sp uuid now|jobId patch now now'|jobId]; simpl in Hf |- *.
  - destruct Hf as [Hf _]. split; [by apply create_wf|]. intros i. by apply create_get.
  - split; [by apply update_wf|]. intros i. by apply update_get.
  - split; [by apply remove_wf|]. intros i. apply remove_get.
Qed.

Lemma fresh_mono used used' os : (∀ x, x ∈ used' → x ∈ used) → fresh_ids used os → fresh_ids used' os.
Proof.
  revert used used'. induction os as [|o os IH]; intros used used' Hs; [done|]. destruct o; simpl; [|by apply IH..].
  intros [Hn H]. split; [naive_solver|]. eapply IH; [|exact H]. intros x. rewrite !elem_of_cons. naive_solver.
Qed.

Lemma exec_ids o f x :
  wf f → x ∈ ids (exec o f) → x ∈ ids f ∨ ∃ input sp now, o = Create input sp x now.
Proof.
  intros Hw. destruct o as [input sp uuid now|jobId patch now now'|jobId]; simpl; unfold ids.
  - unfold create. cbn. rewrite map_app. simpl. rewrite created_id. intros [?| ->%list_elem_of_singleton]%elem_of_app; [by left|].
    right. eauto.
  - rewrite update_jobs, map_map, (map_ext _ id) by (done || apply bump_id). by left.
  - rewrite remove_jobs. intros (y & -> & Hy)%list_elem_of_fmap. apply list_elem_of_filter in Hy as [_ Hy].
    left. by apply list_elem_of_fmap_2.
Qed.

Lemma get_spec_ext o m m' i : (∀ i, m i = m' i) → spec_exec o m i = spec_exec o m' i.
Proof. intros H. destruct o; simpl; by rewrite ?H. Qed.

(** C20. The store: under every sequence of operations with fresh ids, ids stay
    unique and the stored jobs are those of the abstract map from ids to jobs:
    an update changes its job alone, keeps its id and its time of creation, and
    removal and creation do what they say. *)
Theorem cron_store_refinement (os : list op) (f : store) :
  wf f → fresh_ids (ids f) os →
  let f' := foldl (λ f o, exec o f) f os in
  wf f' ∧ (∀ i, get i f' = foldl (λ m o, spec_exec o m) (λ i, get i f) os i) ∧
  (∀ i j, get i f' = Some j → id j = i).
Proof.
  intros Hw Hf. cbv zeta.
  enough (H : wf (foldl (λ f o, exec o f) f os) ∧
    ∀ i, get i (foldl (λ f o, exec o f) f os) = foldl (λ m o, spec_exec o m) (λ i, get i f) os i).
  { destruct H as [H1 H2]. split; [done|]. split; [done|]. intros i j [_ Hi]%get_Some; done. }
  assert (Hext : ∀ os m m', (∀ i, m i = m' i) → ∀ i,
    foldl (λ m o, spec_exec o m) m os i = foldl (λ m o, spec_exec o m) m' os i).
  { clear. induction os as [|o os IH]; intros m m' Hm i; simpl; [done|]. apply IH. intros i'. by apply get_spec_ext. }
  revert f Hw Hf. induction os as [|o os IH]; intros f Hw Hf; [done|]. simpl.
  assert (Ho : fresh_ids (ids f) [o]) by (destruct o; simpl in *; naive_solver).
  destruct (exec_spec o f Hw Ho) as [Hw' Hg].
  assert (Hf' : fresh_ids (ids (exec o f)) os).
  { destruct o as [input sp uuid now| |]; simpl in Hf.
    - destruct Hf as [_ Hf]. eapply fresh_mono; [|exact Hf]. intros x Hx. apply exec_ids in Hx as [?|(? & ? & ? & Ho')]; [by right| |done]. simplify_eq. by left.
    - eapply fresh_mono; [|exact Hf]. intros x Hx. apply exec_ids in Hx as [?|(? & ? & ? & Ho')]; [done| |done]. by simplify_eq.
    - eapply fresh_mono; [|exact Hf]. intros x Hx. apply exec_ids in Hx as [?|(? & ? & ? & Ho')]; [done| |done]. by simplify_eq. }
  destruct (IH (exec o f) Hw' Hf') as [H1 H2]. split; [done|]. intros i. rewrite H2. by apply Hext.
Qed.
End Store.

(** ** Witness and example *)

Definition store_job (e : bool) : CronJob :=
  Job [] (js "report") None e false 0 0 (Every 60000 (Some 0%Z)) target_isolated None None next_heartbeat
    (PSystemEvent (js "x")) None None no_state.
Definition store_ops : list op :=
  [Create (store_job true) None (js "a") 30000; Create (store_job true) None (js "b") 30000;
   Update (js "a") (Patch [FEnabled false] []) 40000 40000; Remove (js "b")].
Notation store_exec := (exec 0 (λ (_ : jsstr) (_ : Z), @None civil) (λ _, @None Z)).

Lemma cron_store_refinement_witness :
  wf (foldl (λ f o, store_exec o f) Absent store_ops) ∧
  (λ j, (enabled j, nextRunAtMs (job_state j))) <$> get (js "a") (foldl (λ f o, store_exec o f) Absent store_ops) =
    Some (false, None) ∧
  get (js "b") (foldl (λ f o, store_exec o f) Absent store_ops) = None.
Proof.
  destruct (cron_store_refinement 0 (λ _ _, None) (λ _, None) store_ops Absent) as (H1 & H2 & _).
  - constructor.
  - split; [by apply (bool_decide_eq_true_1 _)|]. split; [|done]. apply (bool_decide_eq_true_1 _). by vm_compute.
  - split; [exact H1|]. rewrite !H2. split; by vm_compute.
Defined.

(** A store that cannot be read counts as empty, so the next creation replaces
    every job it held. *)
Example create_over_unreadable :
  length (readFile (create 0 (λ _ _, None) (λ _, None) (store_job true) None (js "a") 30000 Unreadable).2) = 1.
Proof. by vm_compute. Qed.
