(* ===== verification/Heartbeat.v ===== *)
(** The heartbeat of cron jobs ([cron/heartbeat.ts]): recovery of the schedules
    at boot, and the tick that evaluates every enabled job.

    The clock of a tick or a recovery is [nowMs]; further readings are [clock k]
    in the order of the code.  What the session engine answers to a run is the
    parameter [agent], and whether writing the run log throws is [runlog_fails].
    Effects outside the store and the event queues are a list. *)

From S2P Require Import Prelude JsString Schedule Retry SystemEvents CronStore.

Definition HEARTBEAT_OK_TOKEN : jsstr := js "HEARTBEAT_OK".
Definition STALE_THRESHOLD_MS : Z := 5 * 60 * 1000.

Record HeartbeatConfig := HConfig { activeHours : option Config; suppressOnOk : option bool }.

Inductive HeartbeatStatus := executed | suppressed | outside_hours | skipped.
#[export] Instance HeartbeatStatus_eq_dec : EqDecision HeartbeatStatus.
Proof. solve_decision. Defined.
Record HeartbeatResult := HResult {
  h_status : HeartbeatStatus; h_actionable : bool; eventsProcessed : nat; suppressionReason : option jsstr }.

(** The answers of the session engine. *)
Inductive prompt_reply :=
| PromptThrows (message : jsstr)
| Replied (texts : list jsstr) (execution : option (jsstr * jsstr * option jsstr)).
Inductive agent_reply :=
| ResolveThrows (message : jsstr)
| NoSession
| SessionReady (sessionId : jsstr) (reply : prompt_reply).

Record run_outcome := RunOutcome { ro_status : status; ro_summary : option jsstr; ro_durationMs : Z }.
Record CronRunLogEntry := LogEntry {
  l_jobId : jsstr; l_runId : jsstr; l_startedAtMs : Z; l_completedAtMs : Z; l_outcome : run_outcome;
  l_sessionId : option jsstr }.

Inductive effect :=
| Resolve (jobId runId : jsstr)
| Prompt (sessionId text : jsstr) (light : bool) (model : option (jsstr * jsstr * option jsstr))
| Release (sessionId : jsstr)
| Deliver (to : option CronDelivery) (outcome : run_outcome) (jobId runId : jsstr)
| AppendLog (entry : CronRunLogEntry).

Record world := World { w_store : file (list CronJob); w_events : queues; w_effects : list effect }.
Definition with_store (f : file (list CronJob)) (w : world) : world := World f (w_events w) (w_effects w).
Definition emit (e : effect) (w : world) : world := World (w_store w) (w_events w) (w_effects w ++ [e]).

(** A number is falsy when it is missing or zero. *)
Definition truthy (o : option Z) : option Z := match o with Some n => if (n =? 0)%Z then None else o | None => None end.

Definition dash (e : SystemEvent) : jsstr := js "- " ++ text e.
Definition eventContext (events : list SystemEvent) : jsstr :=
  match events with
  | [] => []
  | _ => [newline; newline] ++ js "System events since last run:" ++ [newline] ++ join [newline] (map dash events)
  end.

(** [o || undefined] of a string. *)
Definition nonempty (o : option jsstr) : option jsstr := match o with Some [] => None | _ => o end.

Record JobRunResult := RunResult { hasActionableContent : bool; summary : option jsstr; r_sessionId : option jsstr }.

Section Heartbeat.
Context (localOffset : Z) (zone_parts : jsstr → Z → option civil) (parse_date : jsstr → option Z).
Context (agent : CronJob → jsstr → agent_reply) (runlog_fails : jsstr → bool).
Notation nextRun := (computeNextRunAtMs localOffset zone_parts parse_date).
Notation updateState := (updateState localOffset zone_parts parse_date).
Notation update := (update localOffset zone_parts parse_date).

Definition put_state (jobId : jsstr) (p : list state_field) (now now' : Z) (w : world) : world :=
  with_store (updateState jobId p now now' (w_store w)).2 w.
Definition stagger (job : CronJob) : Z := computeStaggerMs (schedule job) (id job) false None.

(** ** Running a job *)

(** The model of the last successful run, or else of the payload. *)
Definition modelSpec (modelStr accountId : option jsstr) : option (jsstr * jsstr * option jsstr) :=
  match nonempty modelStr with
  | None => None
  | Some m =>
      match split_on 47 m with
      | p :: rest =>
          let modelID := join (js "/") rest in
          if bool_decide (p = []) || bool_decide (modelID = []) then None else Some (p, modelID, accountId)
      | [] => None
      end
  end.

Definition reply_summary (texts : list jsstr) : jsstr :=
  match take 4000 (trim (concat texts)) with
  | [] => js "Agent turn completed (no text output)"
  | s => s
  end.

Definition executeJobRun (job : CronJob) (events : list SystemEvent) (runId : jsstr) (clock : nat → Z) (w : world)
    : JobRunResult * world :=
  match payload job with
  | PSystemEvent text =>
      (RunResult (negb (bool_decide (trim text = [])) && negb (bool_decide (trim text = HEARTBEAT_OK_TOKEN)))
         (Some text) None, w)
  | PAgentTurn message model account _ light =>
      let text := message ++ eventContext events in
      if bool_decide (trim text = []) then (RunResult false (Some (js "Empty cron prompt")) None, w) else
      let w1 := emit (Resolve (id job) runId) w in
      match agent job runId with
      | ResolveThrows m => (RunResult false (Some (js "Session resolve failed: " ++ m)) None, w1)
      | NoSession =>
          (RunResult false (Some (js "Session target 'main' is not yet supported for cron execution")) None, w1)
      | SessionReady sid reply =>
          let modelStr := some_or (lastModel (job_state job)) model in
          let accountId := some_or (lastAccountId (job_state job)) account in
          let w2 := emit (Prompt sid text (default false light) (modelSpec modelStr accountId)) w1 in
          match reply with
          | PromptThrows m => (RunResult true (Some (js "Agent turn failed: " ++ m)) (Some sid), w2)
          | Replied texts execution =>
              let w3 :=
                match execution with
                | Some (p, m, a) =>
                    let rotatedModel := p ++ js "/" ++ m in
                    if negb (bool_decide (Some rotatedModel = modelStr)) || negb (bool_decide (a = accountId))
                    then put_state (id job) [SModel (Some rotatedModel); SAccount a] (clock 0) (clock 1) w2
                    else w2
                | None => w2
                end in
              (RunResult true (Some (reply_summary texts)) (Some sid), w3)
          end
      end
  end.

(** ** Evaluating a job *)

Definition skip_result : HeartbeatResult := HResult skipped false 0 None.

(** The next fire time with the stagger of the job. *)
Definition fire_time (job : CronJob) (nowMs : Z) : option Z :=
  (λ f, f + stagger job)%Z <$> truthy (nextRun (schedule job) nowMs).

Definition sessionKey (job : CronJob) : jsstr := js "cron:" ++ id job.

(** A job that missed its time. *)
Definition skip_stale (job : CronJob) (nowMs : Z) (clock : nat → Z) (w : world) : world :=
  match fire_time job nowMs with
  | Some t => put_state (id job) [SNextRun (Some t)] (clock 0) (clock 1) w
  | None =>
      if one_shot (schedule job) then
        let w1 := with_store (update (id job)
          (Patch [FEnabled false] [SNextRun None; SLastRun (Some nowMs); SStatus (Some Skipped)])
          (clock 0) (clock 1) (w_store w)).2 w in
        match nonempty (dormantSessionID job) with Some sid => emit (Release sid) w1 | None => w1 end
      else w
  end.

(** A job that has been run, with content to deliver: [None] when writing the
    log throws. *)
Definition deliver_run (job : CronJob) (nowMs : Z) (runId : jsstr) (events : list SystemEvent) (result : JobRunResult)
    (clock : nat → Z) (w : world) : option HeartbeatResult * world :=
  let outcome := RunOutcome (if hasActionableContent result then Ok else Skipped) (summary result) (clock 2 - nowMs) in
  let w1 := emit (Deliver (delivery job) outcome (id job) runId) w in
  if runlog_fails runId then (None, w1) else
  let w2 := emit (AppendLog (LogEntry (id job) runId nowMs (clock 3) outcome (r_sessionId result))) w1 in
  let next := fire_time job nowMs in
  let settleOneShot := bool_decide (next = None) && one_shot (schedule job) in
  let w3 := with_store (update (id job)
    (Patch (if settleOneShot then [FEnabled false] else [])
       [SNextRun next; SLastRun (Some nowMs); SStatus (Some (ro_status outcome)); SErrors (Some
         (if bool_decide (ro_status outcome = Error) then default 0 (consecutiveErrors (job_state job)) + 1 else 0)%Z)])
    (clock 4) (clock 5) (w_store w2)).2 w2 in
  let w4 := if deleteAfterRun job then with_store (remove (id job) (w_store w3)).2 w3 else w3 in
  (Some (HResult executed (hasActionableContent result) (length events) None), w4).

(** Nothing woke a job that waits for events. *)
Definition idle (job : CronJob) (events : list SystemEvent) : bool :=
  match wakeMode job, events with next_heartbeat, [] => true | _, _ => false end.

(** A due job inside the active hours. *)
Definition run_due (config : HeartbeatConfig) (job : CronJob) (nowMs : Z) (runId : jsstr) (clock : nat → Z) (w : world)
    : option HeartbeatResult * world :=
  let '(events, qs) := drain (sessionKey job) (w_events w) in
  let w1 := World (w_store w) qs (w_effects w) in
  if idle job events then
    (Some skip_result,
     match fire_time job nowMs with
     | Some t => put_state (id job) [SNextRun (Some t)] (clock 0) (clock 1) w1
     | None => w1
     end)
  else
    let '(result, w2) := executeJobRun job events runId clock w1 in
    if negb (bool_decide (suppressOnOk config = Some false)) && negb (hasActionableContent result) then
      (Some (HResult suppressed false (length events) (Some HEARTBEAT_OK_TOKEN)),
       match fire_time job nowMs with
       | Some t =>
           put_state (id job) [SNextRun (Some t); SLastRun (Some nowMs); SStatus (Some Ok)] (clock 2) (clock 3) w2
       | None => w2
       end)
    else deliver_run job nowMs runId events result clock w2.

Definition not_due (job : CronJob) (nowMs : Z) : bool :=
  match truthy (nextRunAtMs (job_state job)) with Some n => (nowMs <? n)%Z | None => false end.
Definition stale (job : CronJob) (nowMs : Z) : bool :=
  match truthy (nextRunAtMs (job_state job)) with Some n => (STALE_THRESHOLD_MS <? nowMs - n)%Z | None => false end.

(** [evaluateJob]; [None] when it throws. *)
Definition evaluateJob (config : HeartbeatConfig) (job : CronJob) (nowMs : Z) (runId : jsstr) (clock : nat → Z)
    (w : world) : option HeartbeatResult * world :=
  if not_due job nowMs then (Some skip_result, w)
  else if stale job nowMs then (Some skip_result, skip_stale job nowMs clock w)
  else
    match check localOffset zone_parts (activeHours config) nowMs with
    | None => (None, w)
    | Some (GateClosed eligible) =>
        (Some (HResult outside_hours false 0 (Some (js "outside active hours"))),
         put_state (id job) [SNextRun (Some eligible)] (clock 0) (clock 1) w)
    | Some GateAllowed => run_due config job nowMs runId clock w
    end.

(** The body of the loop of [tick]: a job that throws is moved on. *)
Definition tick_job (config : HeartbeatConfig) (nowMs : Z) (runId : jsstr) (clock : nat → Z) (job : CronJob) (w : world)
    : world :=
  let '(r, w1) := evaluateJob config job nowMs runId clock w in
  match r with
  | Some _ => w1
  | None =>
      match fire_time job nowMs with
      | Some t => put_state (id job) [SNextRun (Some t)] (clock 6) (clock 7) w1
      | None => w1
      end
  end.

(** [tick]: the jobs enabled at its start, in order; [runIds] and [clocks] give
    the run id and the clock of each. *)
Fixpoint tick_jobs (config : HeartbeatConfig) (nowMs : Z) (runIds : nat → jsstr) (clocks : nat → nat → Z) (k : nat)
    (jobs : list CronJob) (w : world) : world :=
  match jobs with
  | [] => w
  | job :: rest => tick_jobs config nowMs runIds clocks (S k) rest (tick_job config nowMs (runIds k) (clocks k) job w)
  end.
Definition tick (config : HeartbeatConfig) (nowMs : Z) (runIds : nat → jsstr) (clocks : nat → nat → Z) (w : world) : world :=
  tick_jobs config nowMs runIds clocks 0 (listEnabled (w_store w)) w.

(** ** Recovery at boot *)

Record RecoveryResult := Recovery { total : nat; clean : nat; skippedToNext : nat; disabledExpired : nat; backoffApplied : nat }.

Notation job_store := (file (list CronJob)).

Definition disable_expired (job : CronJob) (clock : nat → Z) (f : job_store) : job_store :=
  (update (id job) (Patch [FEnabled false] [SNextRun None]) (clock 0) (clock 1) f).2.
Definition count_clean (r : RecoveryResult) : RecoveryResult :=
  Recovery (total r) (S (clean r)) (skippedToNext r) (disabledExpired r) (backoffApplied r).
Definition count_disabled (r : RecoveryResult) : RecoveryResult :=
  Recovery (total r) (clean r) (skippedToNext r) (S (disabledExpired r)) (backoffApplied r).
Definition count_skipped (backoff : bool) (r : RecoveryResult) : RecoveryResult :=
  Recovery (total r) (clean r) (S (skippedToNext r)) (disabledExpired r) (backoffApplied r + if backoff then 1 else 0).

Definition recoverJob (job : CronJob) (nowMs : Z) (clock : nat → Z) (r : RecoveryResult) (f : job_store)
    : RecoveryResult * job_store :=
  match truthy (nextRunAtMs (job_state job)) with
  | None =>
      match truthy (nextRun (schedule job) nowMs) with
      | Some t => (count_clean r, (updateState (id job) [SNextRun (Some t)] (clock 0) (clock 1) f).2)
      | None =>
          if one_shot (schedule job) then (count_disabled r, disable_expired job clock f) else (count_clean r, f)
      end
  | Some next =>
      if (nowMs <? next)%Z then (count_clean r, f)
      else if one_shot (schedule job) then (count_disabled r, disable_expired job clock f)
      else
        match truthy (nextRun (schedule job) nowMs) with
        | None => (r, f)
        | Some t =>
            let errors := default 0%Z (consecutiveErrors (job_state job)) in
            let backoff := (0 <? errors)%Z in
            let t' := if backoff then (λ b, Z.max t (nowMs + b)) <$> backoffMs errors None else Some t in
            (count_skipped backoff r, (updateState (id job) [SNextRun t'] (clock 0) (clock 1) f).2)
        end
  end.

Fixpoint recover_jobs (nowMs : Z) (clocks : nat → nat → Z) (k : nat) (jobs : list CronJob) (r : RecoveryResult)
    (f : job_store) : RecoveryResult * job_store :=
  match jobs with
  | [] => (r, f)
  | job :: rest =>
      let '(r1, f1) := recoverJob job nowMs (clocks k) r f in recover_jobs nowMs clocks (S k) rest r1 f1
  end.
Definition recoverSchedules (nowMs : Z) (clocks : nat → nat → Z) (f : job_store) : RecoveryResult * job_store :=
  recover_jobs nowMs clocks 0 (listEnabled f) (Recovery (length (listEnabled f)) 0 0 0 0) f.

(** ** What a step touches *)

Definition touches_only (i : jsstr) (f f' : job_store) : Prop :=
  (wf f → wf f') ∧ ∀ i', i' ≠ i → wf f → get i' f' = get i' f.

Lemma touches_refl i f : touches_only i f f.
Proof. by split. Qed.
Lemma touches_trans i f1 f2 f3 : touches_only i f1 f2 → touches_only i f2 f3 → touches_only i f1 f3.
Proof. intros [A1 B1] [A2 B2]. split; [auto|]. intros i' Hi Hw. rewrite B2, B1 by auto. done. Qed.

Lemma touches_update i p n n' f : touches_only i f (update i p n n' f).2.
Proof.
  split; [apply update_wf|]. intros i' Hi Hw. rewrite update_get by done. by rewrite bool_decide_eq_false_2.
Qed.
Lemma touches_remove i f : touches_only i f (remove i f).2.
Proof. split; [apply remove_wf|]. intros i' Hi _. rewrite remove_get. by rewrite bool_decide_eq_false_2. Qed.
Lemma touches_put i p n n' w : touches_only i (w_store w) (w_store (put_state i p n n' w)).
Proof. apply touches_update. Qed.

(** A job written with a new next run has the patched state. *)
Lemma updated_state fs p j n n' :
  existsb is_next_run p = true →
  job_state (updated localOffset zone_parts parse_date (Patch fs p) j n n') = spread_state (job_state j) p.
Proof.
  intros Hp. unfold updated. cbn [p_fields p_state]. rewrite Hp, andb_false_r.
  by destruct (set_updated n (foldl set_job_field j fs)).
Qed.

Lemma update_state_get i fs p n n' f j :
  wf f → existsb is_next_run p = true → get i (update i (Patch fs p) n n' f).2 = Some j →
  ∃ j0, get i f = Some j0 ∧ job_state j = spread_state (job_state j0) p.
Proof.
  intros Hw Hp. rewrite update_get, bool_decide_eq_true_2 by done. destruct (get i f) as [j0|]; [|done].
  intros [= <-]. exists j0. split; [done|]. by apply updated_state.
Qed.

Lemma spread_next st t p :
  existsb is_next_run p = false → nextRunAtMs (spread_state (set_state_field st (SNextRun t)) p) = t.
Proof.
  unfold spread_state. intros Hp.
  enough (H : ∀ s, nextRunAtMs s = t → nextRunAtMs (foldl set_state_field s p) = t) by (apply H; by destruct st).
  induction p as [|x p IH]; intros s Hs; [done|]. simpl in *. apply orb_false_iff in Hp as [Hx Hp]. apply IH; [done|].
  by destruct s, x.
Qed.

Lemma put_next i t p n n' w j :
  wf (w_store w) → existsb is_next_run p = false →
  get i (w_store (put_state i (SNextRun t :: p) n n' w)) = Some j → nextRunAtMs (job_state j) = t.
Proof.
  intros Hw Hp H. apply update_state_get in H as (j0 & _ & ->); [|done|done]. by apply spread_next.
Qed.

Lemma execute_touches job events runId clock w :
  touches_only (id job) (w_store w) (w_store (executeJobRun job events runId clock w).2).
Proof.
  unfold executeJobRun. destruct (payload job) as [text|message model account tmo light]; [apply touches_refl|]. cbv zeta.
  case_bool_decide; [apply touches_refl|]. destruct (agent job runId) as [m| |sid [m|texts execution]]; cbn; try apply touches_refl.
  destruct execution as [[[p m] a]|]; [|apply touches_refl]. destruct (_ || _); [|apply touches_refl].
  apply (touches_put (id job) _ _ _ (emit _ (emit _ w))).
Qed.

Lemma deliver_touches job nowMs runId events result clock w :
  touches_only (id job) (w_store w) (w_store (deliver_run job nowMs runId events result clock w).2).
Proof.
  unfold deliver_run. cbv zeta. destruct (runlog_fails runId); [apply touches_refl|]. cbn [snd].
  destruct (deleteAfterRun job); [|apply touches_update].
  eapply touches_trans; [apply touches_update|apply touches_remove].
Qed.

Lemma run_due_touches config job nowMs runId clock w :
  touches_only (id job) (w_store w) (w_store (run_due config job nowMs runId clock w).2).
Proof.
  unfold run_due. destruct (drain _ _) as [events qs]. cbv zeta. destruct (idle job events).
  - cbn [snd]. destruct (fire_time job nowMs); [|apply touches_refl]. apply (touches_put (id job) _ _ _ (World _ _ _)).
  - pose proof (execute_touches job events runId clock (World (w_store w) qs (w_effects w))) as He.
    destruct (executeJobRun _ _ _ _ _) as [result w2]. cbn [snd w_store] in He. destruct (_ && _).
    + cbn [snd]. destruct (fire_time job nowMs); [|done]. eapply touches_trans; [exact He|apply touches_put].
    + eapply touches_trans; [exact He|apply deliver_touches].
Qed.

Lemma evaluate_touches config job nowMs runId clock w :
  touches_only (id job) (w_store w) (w_store (evaluateJob config job nowMs runId clock w).2).
Proof.
  unfold evaluateJob. destruct (not_due job nowMs); [apply touches_refl|]. destruct (stale job nowMs).
  - cbn [snd]. unfold skip_stale. destruct (fire_time job nowMs); [apply touches_put|].
    destruct (one_shot (schedule job)); [|apply touches_refl]. cbv zeta.
    destruct (nonempty _); apply touches_update.
  - destruct (check _ _ _ _) as [[|e]|]; [apply run_due_touches|apply touches_put|apply touches_refl].
Qed.

Lemma tick_job_touches config nowMs runId clock job w :
  touches_only (id job) (w_store w) (w_store (tick_job config nowMs runId clock job w)).
Proof.
  unfold tick_job. pose proof (evaluate_touches config job nowMs runId clock w) as He.
  destruct (evaluateJob _ _ _ _ _ _) as [[r|] w1]; [done|]. cbn [snd] in He.
  destruct (fire_time job nowMs); [|done]. eapply touches_trans; [exact He|apply touches_put].
Qed.

(** ** Times are in the future *)

(** Wall clocks of zones show an hour of the day. *)
Definition zones_ok : Prop :=
  ∀ z n c, zone_parts z n = Some c → (0 <= hour c < 24)%Z ∧ (0 <= minute c < 60)%Z.
Definition hours_ok (config : HeartbeatConfig) : Prop :=
  match activeHours config with Some c => (0 <= startMinutes c)%Z | None => True end.

Lemma gate_future config nowMs e :
  zones_ok → hours_ok config → check localOffset zone_parts (activeHours config) nowMs = Some (GateClosed e) →
  (nowMs < e)%Z.
Proof.
  intros Hz Hh. unfold check, hours_ok in *. destruct (activeHours config) as [c|]; [|done].
  destruct (getCurrentMinutes _ _ _ _) as [m|] eqn:E; [|done]. destruct (in_window c m); [done|]. intros [= <-].
  assert (Hm : (0 <= m < 1440)%Z).
  { unfold getCurrentMinutes in E. unfold getHours, getMinutes in E.
    pose proof (Z.mod_pos_bound (local_minutes localOffset nowMs / 60) 24 ltac:(lia)).
    pose proof (Z.mod_pos_bound (local_minutes localOffset nowMs) 60 ltac:(lia)).
    destruct (window_tz c) as [[|x z]|]; [injection E as <-; lia| |injection E as <-; lia].
    destruct (zone_parts (x :: z) nowMs) as [p|] eqn:Ep; [|done]. injection E as <-. apply Hz in Ep. lia. }
  unfold computeNextWindowOpen. destruct (Z.leb_spec (startMinutes c - m) 0); lia.
Qed.

Lemma fire_future job nowMs t : fire_time job nowMs = Some t → (nowMs < t)%Z.
Proof.
  unfold fire_time, truthy. destruct (nextRun (schedule job) nowMs) as [f|] eqn:E; [|done].
  apply next_run_future in E. destruct (f =? 0)%Z; [done|]. intros [= <-].
  destruct (stagger_bounds (schedule job) (id job)) as [Hs _]. unfold stagger. lia.
Qed.

(** The job is gone, or its next run is in the future. *)
Definition moved_on (i : jsstr) (nowMs : Z) (f : job_store) : Prop :=
  ∀ j, get i f = Some j → ∃ t, nextRunAtMs (job_state j) = Some t ∧ (nowMs < t)%Z.

Lemma put_moves i t p n n' nowMs w :
  wf (w_store w) → (nowMs < t)%Z → existsb is_next_run p = false →
  moved_on i nowMs (w_store (put_state i (SNextRun (Some t) :: p) n n' w)).
Proof. intros Hw Ht Hp j Hj. exists t. split; [|done]. by eapply put_next. Qed.

Lemma deliver_moves job nowMs runId events result clock w t r :
  wf (w_store w) → fire_time job nowMs = Some t →
  (deliver_run job nowMs runId events result clock w).1 = Some r →
  moved_on (id job) nowMs (w_store (deliver_run job nowMs runId events result clock w).2).
Proof.
  intros Hw Hf Hr. unfold deliver_run in *. cbv zeta in *. rewrite Hf in *. destruct (runlog_fails runId); [done|]. cbn [snd fst].
  assert (Hm : ∀ fs p n n' w', wf (w_store w') → existsb is_next_run p = false →
    moved_on (id job) nowMs (update (id job) (Patch fs (SNextRun (Some t) :: p)) n n' (w_store w')).2).
  { intros fs p n n' w' Hw' Hp j Hj. apply update_state_get in Hj as (j0 & _ & ->); [|done|done].
    exists t. split; [by apply spread_next|by eapply fire_future]. }
  destruct (deleteAfterRun job); [|by apply Hm].
  intros j Hj. cbn [with_store w_store] in Hj. rewrite remove_get, bool_decide_eq_true_2 in Hj by done. done.
Qed.

Lemma run_due_moves config job nowMs runId clock w t r :
  wf (w_store w) → fire_time job nowMs = Some t → (run_due config job nowMs runId clock w).1 = Some r →
  moved_on (id job) nowMs (w_store (run_due config job nowMs runId clock w).2).
Proof.
  intros Hw Hf. pose proof (fire_future _ _ _ Hf) as Ht. unfold run_due. rewrite Hf. destruct (drain _ _) as [events qs].
  cbv zeta. destruct (idle job events); [intros _; by apply put_moves|].
  pose proof (execute_touches job events runId clock (World (w_store w) qs (w_effects w))) as [He _].
  destruct (executeJobRun _ _ _ _ _) as [result w2]. cbn [snd w_store] in He. destruct (_ && _).
  - intros _. apply put_moves; auto.
  - intros Hr. eapply deliver_moves; eauto.
Qed.

Lemma tick_job_moves config nowMs runId clock job w t :
  zones_ok → hours_ok config → wf (w_store w) → get (id job) (w_store w) = Some job → fire_time job nowMs = Some t →
  moved_on (id job) nowMs (w_store (tick_job config nowMs runId clock job w)).
Proof.
  intros Hz Hh Hw Hg Hf. pose proof (fire_future _ _ _ Hf) as Ht. unfold tick_job.
  pose proof (evaluate_touches config job nowMs runId clock w) as [He _].
  assert (Hm : ∀ r, (evaluateJob config job nowMs runId clock w).1 = Some r →
    moved_on (id job) nowMs (w_store (evaluateJob config job nowMs runId clock w).2)).
  { intros r. unfold evaluateJob. destruct (not_due job nowMs) eqn:End.
    - intros _ j Hj. cbn [snd] in Hj. rewrite Hg in Hj. injection Hj as <-. unfold not_due, truthy in End.
      destruct (nextRunAtMs (job_state job)) as [n|]; [|done]. destruct (n =? 0)%Z; [done|]. exists n. split; [done|].
      by bool_to_prop.
    - destruct (stale job nowMs).
      + intros _. cbn [snd]. unfold skip_stale. rewrite Hf. by apply put_moves.
      + destruct (check _ _ _ _) as [[|e]|] eqn:Ec; [by eapply run_due_moves| |done].
        intros _. cbn [snd]. apply put_moves; [done| |done]. by eapply gate_future. }
  destruct (evaluateJob _ _ _ _ _ _) as [[r|] w1]; cbn [fst snd] in *; [by eapply Hm|]. rewrite Hf.
  apply put_moves; auto.
Qed.

Lemma tick_jobs_frame config nowMs runIds clocks k jobs w i :
  wf (w_store w) → i ∉ map id jobs →
  wf (w_store (tick_jobs config nowMs runIds clocks k jobs w)) ∧
  get i (w_store (tick_jobs config nowMs runIds clocks k jobs w)) = get i (w_store w).
Proof.
  revert k w. induction jobs as [|job jobs IH]; intros k w Hw Hi; [done|]. simpl in *. apply not_elem_of_cons in Hi as [Hne Hi].
  destruct (tick_job_touches config nowMs (runIds k) (clocks k) job w) as [Hw' Hg].
  destruct (IH (S k) _ (Hw' Hw) Hi) as [H1 H2]. split; [done|]. rewrite H2. by apply Hg.
Qed.

Lemma tick_jobs_moves config nowMs runIds clocks k jobs w job t :
  zones_ok → hours_ok config → wf (w_store w) → NoDup (map id jobs) →
  (∀ x, x ∈ jobs → get (id x) (w_store w) = Some x) → job ∈ jobs → fire_time job nowMs = Some t →
  moved_on (id job) nowMs (w_store (tick_jobs config nowMs runIds clocks k jobs w)).
Proof.
  intros Hz Hh. revert k w. induction jobs as [|x jobs IH]; intros k w Hw Hn Hg Hin Hf; [no_member|].
  simpl in *. apply NoDup_cons in Hn as [Hx Hn].
  destruct (tick_job_touches config nowMs (runIds k) (clocks k) x w) as [Hw' Hg'].
  apply elem_of_cons in Hin as [->|Hin].
  - pose proof (tick_job_moves config nowMs (runIds k) (clocks k) x w t Hz Hh Hw (Hg x (list_elem_of_here _ _)) Hf) as Hm.
    unfold moved_on. destruct (tick_jobs_frame config nowMs runIds clocks (S k) jobs _ (id x) (Hw' Hw) Hx) as [_ ->]. exact Hm.
  - apply IH; try done; [by apply Hw'|]. intros y Hy. rewrite Hg'; [by apply Hg; right| |done].
    intros E. apply Hx. rewrite <- E. by apply list_elem_of_fmap_2.
Qed.

Lemma enabled_jobs f : wf f → NoDup (map id (listEnabled f)) ∧ ∀ x, x ∈ listEnabled f → get (id x) f = Some x.
Proof.
  intros Hw. split.
  - by apply NoDup_map_filter.
  - intros x Hx. apply list_elem_of_filter in Hx as [_ Hx]. by apply get_Some.
Qed.

(** A tick moves every job on: after it, each job that was enabled and has
    a next fire time is gone or runs next in the future, whether it was
    skipped, stale, outside its hours, idle, suppressed, run, or threw. *)
Theorem heartbeat_moves_on (config : HeartbeatConfig) (nowMs t : Z) (runIds : nat → jsstr) (clocks : nat → nat → Z)
    (w : world) (job : CronJob) :
  zones_ok → hours_ok config → wf (w_store w) → job ∈ listEnabled (w_store w) → fire_time job nowMs = Some t →
  wf (w_store (tick config nowMs runIds clocks w)) ∧ moved_on (id job) nowMs (w_store (tick config nowMs runIds clocks w)).
Proof.
  intros Hz Hh Hw Hin Hf. destruct (enabled_jobs _ Hw) as [Hn Hg]. split; [|by eapply tick_jobs_moves].
  unfold tick. clear Hin Hf Hn Hg. generalize (listEnabled (w_store w)) as jobs. intros jobs. generalize 0. revert w Hw.
  induction jobs as [|x jobs IH]; intros w Hw k; [done|]. simpl. apply IH. by apply tick_job_touches.
Qed.

(** ** When a job runs *)

Definition is_run (e : effect) : bool := match e with Release _ => false | _ => true end.

(** The effects of a step. *)
Definition adds (w w' : world) (ok : Prop) : Prop :=
  ∃ es, w_effects w' = w_effects w ++ es ∧ (existsb is_run es = true → ok).

Lemma adds_same w w' ok : w_effects w' = w_effects w → adds w w' ok.
Proof. intros E. exists []. rewrite app_nil_r. done. Qed.
Lemma adds_ok w w' (ok : Prop) : ok → (∃ es, w_effects w' = w_effects w ++ es) → adds w w' ok.
Proof. intros H [es E]. exists es. done. Qed.

Lemma execute_effects job events runId clock w :
  ∃ es, w_effects (executeJobRun job events runId clock w).2 = w_effects w ++ es.
Proof.
  unfold executeJobRun. destruct (payload job) as [text|message model account tmo light]; [exists []; by rewrite app_nil_r|].
  cbv zeta. case_bool_decide; [exists []; by rewrite app_nil_r|].
  destruct (agent job runId) as [m| |sid [m|texts execution]]; cbn; try (rewrite <- ?app_assoc; by eexists).
  destruct execution as [[[p m] a]|]; [|cbn; rewrite <- ?app_assoc; by eexists].
  destruct (_ || _); cbn; rewrite <- ?app_assoc; by eexists.
Qed.

Lemma run_due_effects config job nowMs runId clock w :
  ∃ es, w_effects (run_due config job nowMs runId clock w).2 = w_effects w ++ es ∧
    (idle job (peek (sessionKey job) (w_events w)) = true → es = []).
Proof.
  unfold run_due. assert (Hd : (drain (sessionKey job) (w_events w)).1 = peek (sessionKey job) (w_events w)).
  { unfold drain, peek. by destruct (w_events w !! _) as [[|? ?]|]. }
  destruct (drain _ _) as [events qs]. cbn [fst] in Hd. subst events. cbv zeta.
  destruct (idle job _) eqn:Ei.
  - exists []. rewrite app_nil_r. split; [|done]. cbn [snd]. by destruct (fire_time job nowMs).
  - pose proof (execute_effects job (peek (sessionKey job) (w_events w)) runId clock (World (w_store w) qs (w_effects w))) as [es He].
    destruct (executeJobRun _ _ _ _ _) as [result w2]. cbn [snd w_effects] in He.
    destruct (_ && _).
    + exists es. split; [|done]. cbn [snd]. by destruct (fire_time job nowMs).
    + unfold deliver_run. cbv zeta. destruct (runlog_fails runId); cbn [snd emit w_effects].
      * rewrite He, <- app_assoc. by eexists.
      * destruct (deleteAfterRun job); cbn; rewrite He, <- !app_assoc; by eexists.
Qed.

(** A job runs only when it is due: sessions, deliveries and log entries
    come only from a job whose next run has come (or was never set) at most
    five minutes ago, inside the active hours, and that fires by itself or has
    events waiting. *)
Theorem heartbeat_runs_due (config : HeartbeatConfig) (job : CronJob) (nowMs : Z) (runId : jsstr) (clock : nat → Z)
    (w : world) :
  let w' := (evaluateJob config job nowMs runId clock w).2 in
  ∃ es, w_effects w' = w_effects w ++ es ∧
    (existsb is_run es = true →
     (∀ n, nextRunAtMs (job_state job) = Some n → n ≠ 0%Z → (n <= nowMs <= n + STALE_THRESHOLD_MS)%Z) ∧
     check localOffset zone_parts (activeHours config) nowMs = Some GateAllowed ∧
     (wakeMode job = wake_now ∨ peek (sessionKey job) (w_events w) ≠ [])).
Proof.
  cbv zeta. unfold evaluateJob. destruct (not_due job nowMs) eqn:End; [by apply adds_same|].
  destruct (stale job nowMs) eqn:Est.
  - cbn [snd]. unfold skip_stale. destruct (fire_time job nowMs); [by apply adds_same|].
    destruct (one_shot (schedule job)); [|by apply adds_same]. cbv zeta.
    destruct (nonempty _) as [sid|]; [|by apply adds_same]. by exists [Release sid].
  - destruct (check _ _ _ _) as [[|e]|] eqn:Ec; [|by apply adds_same|by apply adds_same].
    destruct (run_due_effects config job nowMs runId clock w) as (es & He & Hi). exists es. split; [done|].
    intros Hes. split; [|split; [done|]].
    + intros n Hn Hz. unfold not_due, stale, truthy in *. rewrite Hn in *. destruct (Z.eqb_spec n 0); [done|].
      bool_to_prop. lia.
    + unfold idle in Hi. destruct (wakeMode job); [|by left]. right. intros E. rewrite E in Hi. by rewrite Hi in Hes.
Qed.

(** ** One-shot jobs *)

Definition settled (i : jsstr) (f : job_store) : Prop := ∀ j, get i f = Some j → enabled j = false.

Lemma disable_settles i p n n' f :
  wf f → settled i (update i (Patch [FEnabled false] p) n n' f).2.
Proof.
  intros Hw j. rewrite update_get, bool_decide_eq_true_2 by done. destruct (get i f) as [j0|]; [|done]. intros [= <-].
  rewrite updated_enabled. by destruct j0.
Qed.

Lemma deliver_settles job nowMs runId events result clock w r :
  wf (w_store w) → one_shot (schedule job) = true → fire_time job nowMs = None →
  (deliver_run job nowMs runId events result clock w).1 = Some r →
  settled (id job) (w_store (deliver_run job nowMs runId events result clock w).2).
Proof.
  intros Hw Ho Hf. unfold deliver_run. cbv zeta. rewrite Hf, Ho. destruct (runlog_fails runId); [done|]. intros _. cbn [snd].
  destruct (deleteAfterRun job); [|by apply disable_settles].
  intros j Hj. cbn [with_store w_store] in Hj. rewrite remove_get, bool_decide_eq_true_2 in Hj by done. done.
Qed.

(** C39. A one-shot job settles: once it has been executed, or was missed for
    more than five minutes, it is gone or disabled, so no later tick runs it. *)
Theorem heartbeat_one_shot_settles (config : HeartbeatConfig) (job : CronJob) (nowMs : Z) (runId : jsstr)
    (clock : nat → Z) (w : world) :
  wf (w_store w) → one_shot (schedule job) = true → fire_time job nowMs = None →
  (option_map h_status (evaluateJob config job nowMs runId clock w).1 = Some executed ∨
   (∃ n, nextRunAtMs (job_state job) = Some n ∧ n ≠ 0%Z ∧ (n + STALE_THRESHOLD_MS < nowMs)%Z)) →
  let w' := (evaluateJob config job nowMs runId clock w).2 in
  settled (id job) (w_store w') ∧ ∀ j, j ∈ listEnabled (w_store w') → id j ≠ id job.
Proof.
  intros Hw Ho Hf Hor. cbv zeta.
  assert (Hs : settled (id job) (w_store (evaluateJob config job nowMs runId clock w).2)).
  { unfold evaluateJob in *. destruct (not_due job nowMs) eqn:End.
    { exfalso. destruct Hor as [[=]|(n & Hn & Hz & Hl)]. unfold not_due, truthy, STALE_THRESHOLD_MS in *. rewrite Hn in End.
      destruct (Z.eqb_spec n 0); [done|]. bool_to_prop. lia. }
    destruct (stale job nowMs) eqn:Est.
    { cbn [snd]. unfold skip_stale. rewrite Hf, Ho. cbv zeta. destruct (nonempty _); by apply disable_settles. }
    destruct Hor as [He|(n & Hn & Hz & Hl)].
    2:{ exfalso. unfold stale, truthy in Est. rewrite Hn in Est. destruct (Z.eqb_spec n 0); [done|]. bool_to_prop. lia. }
    destruct (check _ _ _ _) as [[|e]|]; [|done..]. unfold run_due in *. destruct (drain _ _) as [events qs]. cbv zeta in *.
    destruct (idle job events); [done|].
    pose proof (execute_touches job events runId clock (World (w_store w) qs (w_effects w))) as [Hw' _].
    destruct (executeJobRun _ _ _ _ _) as [result w2]. cbn [snd w_store] in Hw'. destruct (_ && _); [done|].
    destruct (deliver_run job nowMs runId events result clock w2).1 as [r|] eqn:E; [|done].
    eapply deliver_settles; eauto. }
  split; [done|]. intros j Hj Hi. apply list_elem_of_filter in Hj as [Hj Hin].
  assert (Hw' : wf (w_store (evaluateJob config job nowMs runId clock w).2)) by by apply evaluate_touches.
  rewrite (Hs j) in Hj; [done|]. by apply get_Some.
Qed.

(** ** Recovery *)

Lemma recoverJob_touches job nowMs clock r f : touches_only (id job) f (recoverJob job nowMs clock r f).2.
Proof.
  unfold recoverJob. repeat case_match; cbn [snd]; try apply touches_refl; apply touches_update.
Qed.

(** What recovery leaves of an enabled job. *)
Definition recovered (job : CronJob) (nowMs : Z) (f : job_store) : Prop :=
  ∃ j, get (id job) f = Some j ∧
  let next := truthy (nextRunAtMs (job_state job)) in
  (∀ n, next = Some n → (nowMs < n)%Z → j = job) ∧
  (one_shot (schedule job) = true → (∃ n, next = Some n ∧ (n <= nowMs)%Z) ∨ (next = None ∧ truthy (nextRun (schedule job) nowMs) = None) →
   enabled j = false ∧ nextRunAtMs (job_state j) = None) ∧
  (∀ t, truthy (nextRun (schedule job) nowMs) = Some t →
   next = None ∨ (one_shot (schedule job) = false ∧ ∃ n, next = Some n ∧ (n <= nowMs)%Z) →
   enabled j = enabled job ∧ ∃ t', nextRunAtMs (job_state j) = Some t' ∧ (nowMs < t' ∧ t <= t')%Z ∧
     (next ≠ None → (0 < default 0 (consecutiveErrors (job_state job)))%Z → (nowMs + 30000 <= t')%Z)).

Lemma update_disabled i n n' f j0 :
  wf f → get i f = Some j0 →
  ∃ j, get i (update i (Patch [FEnabled false] [SNextRun None]) n n' f).2 = Some j ∧
    enabled j = false ∧ nextRunAtMs (job_state j) = None.
Proof.
  intros Hw Hg. rewrite update_get, bool_decide_eq_true_2, Hg by done. eexists. split; [done|].
  rewrite updated_enabled, updated_state by done. split; [by destruct j0|]. apply (spread_next _ None []). done.
Qed.

Lemma update_next i t n n' f j0 :
  wf f → get i f = Some j0 →
  ∃ j, get i (update i (Patch [] [SNextRun t]) n n' f).2 = Some j ∧ enabled j = enabled j0 ∧ nextRunAtMs (job_state j) = t.
Proof.
  intros Hw Hg. rewrite update_get, bool_decide_eq_true_2, Hg by done. eexists. split; [done|].
  rewrite updated_enabled, updated_state by done. split; [done|]. by apply (spread_next _ t []).
Qed.

Lemma truthy_future s nowMs t : truthy (nextRun s nowMs) = Some t → (nowMs < t)%Z.
Proof.
  unfold truthy. destruct (nextRun s nowMs) as [f|] eqn:E; [|done]. destruct (f =? 0)%Z; [done|]. intros [= <-].
  by apply next_run_future in E.
Qed.

Lemma recoverJob_recovers job nowMs clock r f :
  wf f → get (id job) f = Some job → recovered job nowMs (recoverJob job nowMs clock r f).2.
Proof.
  intros Hw Hg. unfold recovered, recoverJob. cbv zeta.
  destruct (truthy (nextRunAtMs (job_state job))) as [n|] eqn:En.
  - destruct (Z.ltb_spec nowMs n) as [Hn|Hn]; cbn [snd].
    { exists job. split; [done|]. split; [done|]. split.
      - intros _ [(n' & [= <-] & ?)|[[=] _]]. lia.
      - intros t _ [[=]|[_ (n' & [= <-] & ?)]]. lia. }
    destruct (one_shot (schedule job)) eqn:Eo; cbn [snd].
    { destruct (update_disabled (id job) (clock 0) (clock 1) f job Hw Hg) as (j & Hj & He & Hnx).
      exists j. split; [done|]. split; [intros n' [= <-] ?; lia|]. split; [done|]. by intros t _ [[=]|[[=] _]]. }
    destruct (truthy (nextRun (schedule job) nowMs)) as [t|] eqn:Et; cbn [snd].
    2:{ exists job. split; [done|]. split; [intros n' [= <-] ?; lia|]. split; [intros [=]|done]. }
    pose proof (truthy_future _ _ _ Et) as Ht. set (errors := default 0%Z (consecutiveErrors (job_state job))).
    destruct (default_backoff errors) as (b & Hb & Hb'). rewrite Hb. cbn [fmap option_fmap option_map].
    set (t' := if (0 <? errors)%Z then Some (Z.max t (nowMs + b)) else Some t).
    assert (Ht' : ∃ x, t' = Some x ∧ (nowMs < x ∧ t <= x)%Z ∧ ((0 < errors)%Z → (nowMs + 30000 <= x)%Z)).
    { unfold t'. destruct (Z.ltb_spec 0 errors); eexists; (split; [done|]); lia. }
    clearbody t'. destruct Ht' as (x & -> & Hx & Hx').
    destruct (update_next (id job) (Some x) (clock 0) (clock 1) f job Hw Hg) as (j & Hj & He & Hnx).
    exists j. split; [done|]. split; [intros n' [= <-] ?; lia|]. split; [intros [=]|].
    intros t0 [= <-] _. split; [done|]. exists x. auto.
  - destruct (truthy (nextRun (schedule job) nowMs)) as [t|] eqn:Et; cbn [snd].
    + pose proof (truthy_future _ _ _ Et) as Ht.
      destruct (update_next (id job) (Some t) (clock 0) (clock 1) f job Hw Hg) as (j & Hj & He & Hnx).
      exists j. split; [done|]. split; [done|]. split; [intros _ [(? & [=] & _)|[_ [=]]]|].
      intros t0 [= <-] _. split; [done|]. exists t. split; [done|]. split; [lia|]. done.
    + destruct (one_shot (schedule job)) eqn:Eo; cbn [snd].
      * destruct (update_disabled (id job) (clock 0) (clock 1) f job Hw Hg) as (j & Hj & He & Hnx).
        exists j. split; [done|]. split; [done|]. split; [done|]. by intros t [=].
      * exists job. split; [done|]. split; [done|]. split; [intros [=]|done].
Qed.

Definition handled (r : RecoveryResult) : nat := clean r + skippedToNext r + disabledExpired r.

Lemma recoverJob_count job nowMs clock r f :
  handled r ≤ handled (recoverJob job nowMs clock r f).1 ≤ S (handled r) ∧
  total (recoverJob job nowMs clock r f).1 = total r.
Proof. unfold recoverJob, handled. repeat case_match; cbn; lia. Qed.

Lemma recover_jobs_frame nowMs clocks k jobs r f i :
  wf f → i ∉ map id jobs → get i (recover_jobs nowMs clocks k jobs r f).2 = get i f.
Proof.
  revert k r f. induction jobs as [|job jobs IH]; intros k r f Hw Hi; [done|]. simpl in *. apply not_elem_of_cons in Hi as [Hne Hi].
  destruct (recoverJob_touches job nowMs (clocks k) r f) as [Hw' Hg]. destruct (recoverJob _ _ _ _ _) as [r1 f1].
  cbn [snd] in *. rewrite IH by auto. by apply Hg.
Qed.

Lemma recover_jobs_recovers nowMs clocks k jobs r f :
  wf f → NoDup (map id jobs) → (∀ x, x ∈ jobs → get (id x) f = Some x) →
  let '(r', f') := recover_jobs nowMs clocks k jobs r f in
  (∀ job, job ∈ jobs → recovered job nowMs f') ∧ handled r' ≤ handled r + length jobs ∧ total r' = total r.
Proof.
  revert k r f. induction jobs as [|x jobs IH]; intros k r f Hw Hn Hg; simpl in *.
  - split; [by intros ? ?%not_elem_of_nil|lia].
  - apply NoDup_cons in Hn as [Hx Hn].
    pose proof (recoverJob_recovers x nowMs (clocks k) r f Hw (Hg x (list_elem_of_here _ _))) as Hr.
    pose proof (recoverJob_count x nowMs (clocks k) r f) as [Hc Ht].
    destruct (recoverJob_touches x nowMs (clocks k) r f) as [Hw' Hg']. destruct (recoverJob _ _ _ _ _) as [r1 f1].
    cbn [fst snd] in *. pose proof (recover_jobs_frame nowMs clocks (S k) jobs r1 f1 (id x) (Hw' Hw) Hx) as Hfr.
    specialize (IH (S k) r1 f1 (Hw' Hw) Hn). destruct (recover_jobs _ _ _ _ _ _) as [r' f']. cbn [snd] in Hfr.
    destruct IH as (IH & Hc' & Ht').
    { intros y Hy. rewrite Hg'; [by apply Hg; right| |done]. intros E. apply Hx. rewrite <- E. by apply list_elem_of_fmap_2. }
    split; [|lia]. intros job [->|Hj]%elem_of_cons; [|by apply IH].
    unfold recovered in *. by rewrite Hfr.
Qed.

(** Recovery never catches up: a job whose next run is in the future is
    left alone, an expired one-shot job is disabled, and every other job with
    a fire time runs next in the future, no sooner than its schedule and, if
    it missed a run after errors, than half a minute from now; no job is
    counted twice. *)
Theorem recovery_no_catchup (nowMs : Z) (clocks : nat → nat → Z) (f : job_store) :
  wf f →
  let '(r, f') := recoverSchedules nowMs clocks f in
  (∀ job, job ∈ listEnabled f → recovered job nowMs f') ∧ handled r ≤ total r ∧ total r = length (listEnabled f).
Proof.
  intros Hw. unfold recoverSchedules. destruct (enabled_jobs f Hw) as [Hn Hg].
  pose proof (recover_jobs_recovers nowMs clocks 0 (listEnabled f) (Recovery (length (listEnabled f)) 0 0 0 0) f Hw Hn Hg) as H.
  destruct (recover_jobs _ _ _ _ _ _) as [r' f']. destruct H as (H1 & H2 & H3). cbn in *. split; [done|]. split; lia.
Qed.
End Heartbeat.

(** ** Witnesses *)

Definition demo_job (i : string) (s : CronSchedule) (w : CronWakeMode) (p : CronPayload) (next : option Z) : CronJob :=
  Job (js i) (js i) None true false 0 0 s target_isolated None None w p None None
    (set_state_field no_state (SNextRun next)).
Definition demo_parse (s : jsstr) : option Z := Some (digits_value 0 s).
Definition demo_agent (job : CronJob) (runId : jsstr) : agent_reply := SessionReady (js "s") (Replied [js "done"] None).
Definition demo_busy (job : CronJob) (runId : jsstr) : agent_reply := ResolveThrows (js "busy").
Definition demo_turn : CronPayload := PAgentTurn (js "report") None None None None.
Definition demo_config : HeartbeatConfig := HConfig None None.
Notation demo_zone := (λ (_ : jsstr) (_ : Z), @None civil).
Definition demo_world (jobs : list CronJob) : world := World (Holds jobs) ∅ [].
Definition every_job : CronJob := demo_job "e" (Every 60000 (Some 0%Z)) wake_now demo_turn (Some 120000%Z).
Definition once_job : CronJob := demo_job "o" (At (js "120000")) wake_now demo_turn (Some 120000%Z).

Lemma heartbeat_moves_on_witness :
  moved_on (js "e") 130000 (w_store (tick 0 demo_zone demo_parse demo_agent (λ _, false) demo_config 130000
    (λ _, js "r") (λ _ _, 130001%Z) (demo_world [every_job; once_job]))).
Proof.
  apply (heartbeat_moves_on 0 demo_zone demo_parse demo_agent (λ _, false) demo_config 130000 180000 (λ _, js "r")
    (λ _ _, 130001%Z) (demo_world [every_job; once_job]) every_job).
  - intros z n c [=].
  - exact I.
  - apply (bool_decide_eq_true_1 _). by vm_compute.
  - vm_compute. left.
  - by vm_compute.
Defined.

Lemma heartbeat_one_shot_settles_witness :
  settled (js "o") (w_store (evaluateJob 0 demo_zone demo_parse demo_agent (λ _, false) demo_config once_job 130000
    (js "r") (λ _, 130001%Z) (demo_world [every_job; once_job])).2).
Proof.
  apply (heartbeat_one_shot_settles 0 demo_zone demo_parse demo_agent (λ _, false) demo_config once_job 130000 (js "r")
    (λ _, 130001%Z) (demo_world [every_job; once_job])).
  - apply (bool_decide_eq_true_1 _). by vm_compute.
  - done.
  - by vm_compute.
  - left. by vm_compute.
Defined.

Lemma recovery_no_catchup_witness :
  wf (Holds [every_job; once_job]) ∧
  recovered 0 demo_zone demo_parse every_job 130000
    (recoverSchedules 0 demo_zone demo_parse 130000 (λ _ _, 130001%Z) (Holds [every_job; once_job])).2.
Proof.
  assert (Hw : wf (Holds [every_job; once_job])) by (apply (bool_decide_eq_true_1 _); by vm_compute).
  split; [exact Hw|].
  pose proof (recovery_no_catchup 0 demo_zone demo_parse 130000 (λ _ _, 130001%Z) (Holds [every_job; once_job]) Hw) as H.
  destruct (recoverSchedules _ _ _ _ _ _) as [r f']. destruct H as [H _]. apply H. vm_compute. left.
Defined.

(** ** Examples *)

(** A one-shot job whose run is suppressed, here because its session cannot be
    resolved, stays enabled and due, and the next tick runs it again. *)
Example suppressed_one_shot_runs_again :
  let t1 := tick 0 demo_zone demo_parse demo_busy (λ _, false) demo_config 130000 (λ _, js "r1") (λ _ _, 130001%Z)
              (demo_world [once_job]) in
  let t2 := tick 0 demo_zone demo_parse demo_busy (λ _, false) demo_config 190000 (λ _, js "r2") (λ _ _, 190001%Z) t1 in
  w_effects t2 = [Resolve (js "o") (js "r1"); Resolve (js "o") (js "r2")].
Proof. by vm_compute. Qed.

(** A one-shot job that waits for events never runs: it is idle while it is
    due, and then skipped as stale. *)
Definition waiting_job : CronJob := demo_job "w" (At (js "120000")) next_heartbeat demo_turn (Some 120000%Z).
Example waiting_one_shot_never_runs :
  let t1 := tick 0 demo_zone demo_parse demo_agent (λ _, false) demo_config 130000 (λ _, js "r1") (λ _ _, 130001%Z)
              (demo_world [waiting_job]) in
  let t2 := tick 0 demo_zone demo_parse demo_agent (λ _, false) demo_config 430000 (λ _, js "r2") (λ _ _, 430001%Z) t1 in
  w_effects t2 = [] ∧ listEnabled (w_store t2) = [].
Proof. by vm_compute. Qed.

(** A turn that fails is recorded as a success, and clears the error count. *)
Definition demo_failing (job : CronJob) (runId : jsstr) : agent_reply := SessionReady (js "s") (PromptThrows (js "500")).
Example failed_turn_is_ok :
  let t := tick 0 demo_zone demo_parse demo_failing (λ _, false) demo_config 130000 (λ _, js "r") (λ _ _, 130001%Z)
             (demo_world [every_job]) in
  (λ j, (lastRunStatus (job_state j), consecutiveErrors (job_state j))) <$> get (js "e") (w_store t) =
  Some (Some Ok, Some 0%Z).
Proof. by vm_compute. Qed.
