(* ===== verification/FreerunNode.v ===== *)
(** The nodes of the freerun tree and their files ([freerun/types.ts],
    [freerun/storage/node-fs.ts]): the schemas as decoders of JSON values, and
    the text of a node file with its parser.

    A decoder gives [None] where the schema throws.  A property that is missing
    is an optional field that is [None]. *)

From S2P Require Import Prelude JsString Json JsNumber.
Open Scope nat_scope.

(** ** Schemas *)

Fixpoint assoc (k : jsstr) (l : list (jsstr * json)) : option json :=
  match l with [] => None | kv :: l' => if bool_decide (kv.1 = k) then Some kv.2 else assoc k l' end.
Definition field (k : jsstr) (v : json) : option json := match v with JObj l => assoc k l | _ => None end.

Definition z_string (min : nat) (v : json) : option jsstr :=
  match v with JStr s => if Nat.leb min (length s) then Some s else None | _ => None end.
Definition z_array {A} (d : json → option A) (v : json) : option (list A) :=
  match v with JArr l => mapM d l | _ => None end.
Definition z_nullable {A} (d : json → option A) (v : json) : option (option A) :=
  match v with JNull => Some None | _ => Some <$> d v end.
(** A required property, one that may be missing, and one with a default. *)
Definition required {A} (d : json → option A) (k : string) (v : json) : option A := field (js k) v ≫= d.
Definition optional {A} (d : json → option A) (k : string) (v : json) : option (option A) :=
  match field (js k) v with None => Some None | Some x => Some <$> d x end.
Definition with_default {A} (d : json → option A) (a : A) (k : string) (v : json) : option A :=
  match field (js k) v with None => Some a | Some x => d x end.

Inductive NodeMode := PendingPlan | PendingExec | Doing | Decomposed | Done | Blocked.
#[export] Instance NodeMode_eq_dec : EqDecision NodeMode.
Proof. solve_decision. Defined.
Definition mode_name (m : NodeMode) : jsstr :=
  js match m with
     | PendingPlan => "pending-plan" | PendingExec => "pending-exec" | Doing => "doing"
     | Decomposed => "decomposed" | Done => "done" | Blocked => "blocked"
     end.
Definition all_modes : list NodeMode := [PendingPlan; PendingExec; Doing; Decomposed; Done; Blocked].
Definition z_enum {A} (name : A → jsstr) (all : list A) (v : json) : option A :=
  match v with JStr s => find (λ a, bool_decide (name a = s)) all | _ => None end.
Definition dec_mode : json → option NodeMode := z_enum mode_name all_modes.

Record DecisionEntry := Decision_ { decision : jsstr; rationale : jsstr }.
Definition dec_decision (v : json) : option DecisionEntry :=
  d ← required (z_string 1) "decision" v; r ← required (z_string 10) "rationale" v; Some (Decision_ d r).
Definition enc_decision (d : DecisionEntry) : json :=
  JObj [(js "decision", JStr (decision d)); (js "rationale", JStr (rationale d))].

Inductive GoalBinding :=
| ConversationGoal (goal_text : jsstr)
| PlanTask (plan_slug task_id task_text : jsstr) (acceptance_criteria : list jsstr).
Definition dec_binding (v : json) : option GoalBinding :=
  match field (js "source") v with
  | Some (JStr s) =>
      if bool_decide (s = js "conversation-goal") then ConversationGoal <$> required (z_string 1) "goal_text" v
      else if bool_decide (s = js "plan-task") then
        slug ← required (z_string 1) "plan_slug" v; tid ← required (z_string 1) "task_id" v;
        text ← required (z_string 1) "task_text" v;
        crit ← with_default (z_array (z_string 1)) [] "acceptance_criteria" v;
        Some (PlanTask slug tid text crit)
      else None
  | _ => None
  end.
Definition enc_strings (l : list jsstr) : json := JArr (map JStr l).
Definition enc_binding (b : GoalBinding) : json :=
  match b with
  | ConversationGoal t => JObj [(js "source", JStr (js "conversation-goal")); (js "goal_text", JStr t)]
  | PlanTask s i t c =>
      JObj [(js "source", JStr (js "plan-task")); (js "plan_slug", JStr s); (js "task_id", JStr i);
            (js "task_text", JStr t); (js "acceptance_criteria", enc_strings c)]
  end.

(** [/^[a-z0-9][a-z0-9._-]*$/] *)
Definition id_start (c : N) : bool := is_digit c || ((97 <=? c) && (c <=? 122))%N.
Definition id_char (c : N) : bool := id_start c || ((c =? 46) || (c =? 95) || (c =? 45))%N.
Definition id_ok (s : jsstr) : bool :=
  match s with c :: s' => id_start c && forallb id_char s' | [] => false end.
Definition z_id (v : json) : option jsstr :=
  match v with JStr s => if id_ok s then Some s else None | _ => None end.
(** A whole number, however its literal is written. *)
Definition whole_number (v : json) : option Z :=
  match v with
  | JNum n => Some n
  | JDec s => match parseFloat s with Some q => if (Qnum q mod QDen q =? 0)%Z then Some (Qnum q / QDen q)%Z else None | None => None end
  | _ => None
  end.
Definition z_count (v : json) : option Z :=
  n ← whole_number v; if (0 <=? n)%Z && (n <=? 9007199254740991)%Z then Some n else None.
Example count_with_fraction : (z_count (JDec (js "3.0")), z_count (JDec (js "3.5")), z_count (JDec (js "3e1"))) = (Some 3%Z, None, Some 30%Z).
Proof. by vm_compute. Qed.

Record ContextNode := Node {
  id : jsstr;
  parent_id : option jsstr;
  children_ids : list jsstr;
  title : jsstr;
  body : jsstr;
  mode : NodeMode;
  created_at : jsstr;
  iteration_count : Z;
  updated_at : option jsstr;
  observations : list jsstr;
  decisions : list DecisionEntry;
  blockers : list jsstr;
  results : json;
  next_intent : jsstr;
  consolidated_summary : option jsstr;
  relevant_tools : option (list jsstr);
  relevant_skills : option (list jsstr);
  goal_binding : option GoalBinding;
}.

(** [ContextNode.parse]; properties the schema does not name are dropped. *)
Definition dec_node (v : json) : option ContextNode :=
  i ← required z_id "id" v;
  p ← required (z_nullable (z_string 0)) "parent_id" v;
  c ← with_default (z_array (z_string 0)) [] "children_ids" v;
  t ← required (z_string 1) "title" v;
  b ← with_default (z_string 0) [] "body" v;
  m ← required dec_mode "mode" v;
  ca ← required (z_string 0) "created_at" v;
  n ← with_default z_count 0%Z "iteration_count" v;
  ua ← optional (z_string 0) "updated_at" v;
  o ← with_default (z_array (z_string 1)) [] "observations" v;
  d ← with_default (z_array dec_decision) [] "decisions" v;
  bl ← with_default (z_array (z_string 1)) [] "blockers" v;
  r ← with_default Some JNull "results" v;
  ni ← with_default (z_string 0) [] "next_intent" v;
  cs ← with_default (z_nullable (z_string 0)) None "consolidated_summary" v;
  rt ← optional (z_array (z_string 0)) "relevant_tools" v;
  rs ← optional (z_array (z_string 0)) "relevant_skills" v;
  gb ← optional dec_binding "goal_binding" v;
  Some (Node i p c t b m ca n ua o d bl r ni cs rt rs gb).

Definition opt_field (k : string) (v : option json) : list (jsstr * json) :=
  match v with Some x => [(js k, x)] | None => [] end.
Definition nullable {A} (f : A → json) (o : option A) : json := match o with Some a => f a | None => JNull end.
Definition enc_node (n : ContextNode) : json :=
  JObj ([(js "id", JStr (id n)); (js "parent_id", nullable JStr (parent_id n)); (js "children_ids", enc_strings (children_ids n));
         (js "title", JStr (title n)); (js "body", JStr (body n)); (js "mode", JStr (mode_name (mode n)));
         (js "created_at", JStr (created_at n)); (js "iteration_count", JNum (iteration_count n))] ++
        opt_field "updated_at" (JStr <$> updated_at n) ++
        [(js "observations", enc_strings (observations n)); (js "decisions", JArr (map enc_decision (decisions n)));
         (js "blockers", enc_strings (blockers n)); (js "results", results n); (js "next_intent", JStr (next_intent n));
         (js "consolidated_summary", nullable JStr (consolidated_summary n))] ++
        opt_field "relevant_tools" (enc_strings <$> relevant_tools n) ++
        opt_field "relevant_skills" (enc_strings <$> relevant_skills n) ++
        opt_field "goal_binding" (enc_binding <$> goal_binding n)).

(** What an iteration of the model returns. *)
Record PlannedChild := Child {
  c_id : jsstr; c_title : jsstr; c_body : jsstr; c_mode : option NodeMode;
  c_tools : option (list jsstr); c_skills : option (list jsstr) }.
Definition dec_child (v : json) : option PlannedChild :=
  i ← required z_id "id" v; t ← required (z_string 1) "title" v; b ← with_default (z_string 0) [] "body" v;
  m ← optional dec_mode "mode" v; rt ← optional (z_array (z_string 0)) "relevant_tools" v;
  rs ← optional (z_array (z_string 0)) "relevant_skills" v;
  Some (Child i t b m rt rs).
(** [PlanningOutcome.parse]: at least one child. *)
Definition dec_planning (v : json) : option (list PlannedChild) :=
  cs ← required (z_array dec_child) "children" v;
  match cs with [] => None | _ => Some cs end.

Inductive NextMode := NextDone | NextBlocked | NextPlan.
Definition next_mode_name (m : NextMode) : jsstr :=
  js match m with NextDone => "done" | NextBlocked => "blocked" | NextPlan => "pending-plan" end.
Definition mode_of (m : NextMode) : NodeMode :=
  match m with NextDone => Done | NextBlocked => Blocked | NextPlan => PendingPlan end.
Record ExecutionOutcome := Outcome {
  o_observations : list jsstr; o_decisions : list DecisionEntry; o_blockers : list jsstr;
  o_results : json; o_next_intent : jsstr; o_next_mode : NextMode }.
Definition is_object (v : json) : bool := match v with JObj _ => true | _ => false end.
Definition dec_execution (v : json) : option ExecutionOutcome :=
  if is_object v then
    o ← with_default (z_array (z_string 1)) [] "observations" v;
    d ← with_default (z_array dec_decision) [] "decisions" v;
    b ← with_default (z_array (z_string 1)) [] "blockers" v;
    r ← with_default Some JNull "results" v;
    ni ← with_default (z_string 0) [] "next_intent" v;
    nm ← with_default (z_enum next_mode_name [NextDone; NextBlocked; NextPlan]) NextDone "next_mode" v;
    Some (Outcome o d b r ni nm)
  else None.

(** ** Node files *)

Definition FRONTMATTER_KEYS : list jsstr :=
  map js ["id"; "parent_id"; "children_ids"; "title"; "mode"; "created_at"; "updated_at"; "iteration_count";
          "goal_binding"; "relevant_tools"; "relevant_skills"]%string.
Definition STATE_KEYS : list jsstr :=
  map js ["observations"; "decisions"; "blockers"; "results"; "next_intent"; "consolidated_summary"]%string.
Definition STATE_FENCE_OPEN : jsstr := js "```json freerun-state".
Definition STATE_FENCE_CLOSE : jsstr := js "```".
Definition nl : jsstr := [newline].

Definition frontmatter_line (v : json) (k : jsstr) : option jsstr :=
  (λ x, k ++ js ": " ++ stringify x) <$> field k v.
Definition state_of (v : json) : json := JObj (omap (λ k, (λ x, (k, x)) <$> field k v) STATE_KEYS).
Definition serialize (node : ContextNode) : option jsstr :=
  parsed ← dec_node (enc_node node);
  let v := enc_node parsed in
  let fmLines := js "---" :: omap (frontmatter_line v) FRONTMATTER_KEYS ++ [js "---"; []] in
  let body := if Nat.ltb 0 (length (body parsed)) then body parsed ++ nl ++ nl else [] in
  let stateBlock := STATE_FENCE_OPEN ++ nl ++ stringify_pretty (state_of v) ++ nl ++ STATE_FENCE_CLOSE ++ nl in
  Some (join nl fmLines ++ body ++ stateBlock).

(** The front matter, the body and the state block; [None] when a fence is missing. *)
Definition drop_newline (s : jsstr) : jsstr := match s with c :: r => if (c =? newline)%N then r else s | [] => [] end.
Definition splitSections (text : jsstr) : option (jsstr * jsstr * jsstr) :=
  if startsWith text (js "---" ++ nl) then
    closeIdx ← indexOf (drop 4 text) (nl ++ js "---" ++ nl);
    let frontmatter := take closeIdx (drop 4 text) in
    let afterFm := drop (closeIdx + 5) (drop 4 text) in
    fenceStart ← indexOf afterFm STATE_FENCE_OPEN;
    let body := trimEnd (take fenceStart afterFm) in
    let afterFenceOpen := drop_newline (drop (fenceStart + length STATE_FENCE_OPEN) afterFm) in
    fenceEnd ← indexOf afterFenceOpen (nl ++ STATE_FENCE_CLOSE);
    Some (frontmatter, body, take fenceEnd afterFenceOpen)
  else None.

Definition parse_line (rawLine : jsstr) (out : list (jsstr * json)) : option (list (jsstr * json)) :=
  let line := trimEnd rawLine in
  if bool_decide (line = []) then Some out else
  colon ← indexOf line (js ":");
  v ← parse (trim (drop (colon + 1) line));
  Some (set_key (trim (take colon line)) v out).
Fixpoint parse_lines (lines : list jsstr) (out : list (jsstr * json)) : option (list (jsstr * json)) :=
  match lines with [] => Some out | l :: ls => out' ← parse_line l out; parse_lines ls out' end.
Definition parseFrontmatter (fm : jsstr) : option (list (jsstr * json)) := parse_lines (split_on newline fm) [].
Definition parseStateBlock (block : jsstr) : option (list (jsstr * json)) :=
  match parse block with Some (JObj l) => Some l | _ => None end.
Definition spread (l l' : list (jsstr * json)) : list (jsstr * json) := foldl (λ o kv, set_key kv.1 kv.2 o) l l'.
Definition deserialize (text : jsstr) : option ContextNode :=
  s ← splitSections text;
  fm ← parseFrontmatter s.1.1;
  state ← parseStateBlock s.2;
  dec_node (JObj (set_key (js "body") (JStr s.1.2) (spread fm state))).

Definition demo_node : ContextNode :=
  Node (js "root.a") (Some (js "root")) [js "root.a.b"] (js "Title: x") (js "Line" ++ nl ++ js "---" ++ nl ++ js "two ") Decomposed
    (js "2026") 3 (Some (js "2027")) [js "saw"] [Decision_ (js "do") (js "because of it")] [] (JObj [(js "n", JDec (js "0.5"))]) []
    None (Some []) None (Some (PlanTask (js "s") (js "1.2") (js "t") [js "ok"])).
Example file_demo : (serialize demo_node ≫= deserialize) =
  Some (Node (id demo_node) (parent_id demo_node) (children_ids demo_node) (title demo_node)
    (js "Line" ++ nl ++ js "---" ++ nl ++ js "two") (mode demo_node) (created_at demo_node) (iteration_count demo_node)
    (updated_at demo_node) (observations demo_node) (decisions demo_node) (blockers demo_node) (results demo_node)
    (next_intent demo_node) (consolidated_summary demo_node) (relevant_tools demo_node) (relevant_skills demo_node) (goal_binding demo_node)).
Proof. by vm_compute. Qed.

(** ** Well-formed nodes *)

Definition nonempty (s : jsstr) : Prop := 1 ≤ length s.
Definition decision_ok (d : DecisionEntry) : Prop := nonempty (decision d) ∧ 10 ≤ length (rationale d).
Definition binding_ok (b : GoalBinding) : Prop :=
  match b with
  | ConversationGoal t => nonempty t
  | PlanTask s i t c => nonempty s ∧ nonempty i ∧ nonempty t ∧ Forall nonempty c
  end.
Record node_ok (n : ContextNode) : Prop := {
  ok_id : id_ok (id n) = true;
  ok_title : nonempty (title n);
  ok_count : (0 <= iteration_count n <= 9007199254740991)%Z;
  ok_observations : Forall nonempty (observations n);
  ok_decisions : Forall decision_ok (decisions n);
  ok_blockers : Forall nonempty (blockers n);
  ok_results : json_ok (results n);
  ok_binding : match goal_binding n with Some b => binding_ok b | None => True end
}.

Lemma z_string_ok min s : min ≤ length s → z_string min (JStr s) = Some s.
Proof. intros H. simpl. by rewrite (proj2 (Nat.leb_le _ _) H). Qed.
Lemma z_strings_ok min l : Forall (λ s, min ≤ length s) l → z_array (z_string min) (enc_strings l) = Some l.
Proof.
  intros H. unfold enc_strings, z_array. induction H as [|s l Hs Hl IH]; [done|]. simpl map. cbn [mapM].
  rewrite z_string_ok by done. simpl. by rewrite IH.
Qed.
Lemma any_strings l : Forall (λ s : jsstr, 0 ≤ length s) l.
Proof. apply Forall_forall. intros; lia. Qed.
Lemma z_decisions_ok l : Forall decision_ok l → z_array dec_decision (JArr (map enc_decision l)) = Some l.
Proof.
  unfold z_array. induction 1 as [|[d r] l [Hd Hr] Hl IH]; [done|]. simpl map. cbn [mapM].
  change (dec_decision (enc_decision (Decision_ d r))) with
    (d ← z_string 1 (JStr d); r ← z_string 10 (JStr r); Some (Decision_ d r)).
  rewrite z_string_ok by done. cbn [mbind option_bind]. rewrite z_string_ok by done. cbn [mbind option_bind]. by rewrite IH.
Qed.
Lemma dec_mode_ok m : dec_mode (JStr (mode_name m)) = Some m.
Proof. by destruct m. Qed.
Lemma dec_binding_ok b : binding_ok b → dec_binding (enc_binding b) = Some b.
Proof.
  destruct b as [t|s i t c].
  - intros Ht. change (ConversationGoal <$> z_string 1 (JStr t) = Some (ConversationGoal t)). by rewrite z_string_ok.
  - intros (Hs & Hi & Ht & Hc).
    change ((slug ← z_string 1 (JStr s); tid ← z_string 1 (JStr i); text ← z_string 1 (JStr t);
      crit ← z_array (z_string 1) (enc_strings c); Some (PlanTask slug tid text crit)) = Some (PlanTask s i t c)).
    rewrite !z_string_ok by done. cbn [mbind option_bind]. by rewrite z_strings_ok.
Qed.
Lemma z_nullable_ok {A} (d : json → option A) (f : A → json) o :
  (∀ a, o = Some a → d (f a) = Some a ∧ f a ≠ JNull) → z_nullable d (nullable f o) = Some o.
Proof. destruct o as [a|]; [|done]. intros H. destruct (H a eq_refl) as [Hd Hn]. simpl. unfold z_nullable. rewrite Hd. by destruct (f a). Qed.

(** The decoder reads only the properties of the schema. *)
Definition node_keys : list string :=
  ["id"; "parent_id"; "children_ids"; "title"; "body"; "mode"; "created_at"; "iteration_count"; "updated_at"; "observations";
   "decisions"; "blockers"; "results"; "next_intent"; "consolidated_summary"; "relevant_tools"; "relevant_skills"; "goal_binding"]%string.
Lemma dec_node_ext v w : Forall (λ k, field (js k) v = field (js k) w) node_keys → dec_node v = dec_node w.
Proof.
  unfold node_keys, dec_node, required, optional, with_default. rewrite !Forall_cons.
  intros (-> & -> & -> & -> & -> & -> & -> & -> & -> & -> & -> & -> & -> & -> & -> & -> & -> & -> & _). done.
Qed.

(** The properties of an encoded node. *)
Definition node_field (n : ContextNode) (k : string) : option json :=
  match k with
  | "id" => Some (JStr (id n)) | "parent_id" => Some (nullable JStr (parent_id n))
  | "children_ids" => Some (enc_strings (children_ids n)) | "title" => Some (JStr (title n)) | "body" => Some (JStr (body n))
  | "mode" => Some (JStr (mode_name (mode n))) | "created_at" => Some (JStr (created_at n))
  | "iteration_count" => Some (JNum (iteration_count n)) | "updated_at" => JStr <$> updated_at n
  | "observations" => Some (enc_strings (observations n)) | "decisions" => Some (JArr (map enc_decision (decisions n)))
  | "blockers" => Some (enc_strings (blockers n)) | "results" => Some (results n) | "next_intent" => Some (JStr (next_intent n))
  | "consolidated_summary" => Some (nullable JStr (consolidated_summary n))
  | "relevant_tools" => enc_strings <$> relevant_tools n | "relevant_skills" => enc_strings <$> relevant_skills n
  | "goal_binding" => enc_binding <$> goal_binding n
  | _ => None
  end%string.
Lemma field_enc n : Forall (λ k, field (js k) (enc_node n) = node_field n k) node_keys.
Proof. destruct n as [? ? ? ? ? ? ? ? [?|] ? ? ? ? ? ? [?|] [?|] [?|]]; repeat (constructor; [reflexivity|]); constructor. Qed.

Lemma optional_strings (o : option (list jsstr)) :
  match enc_strings <$> o with None => Some None | Some x => Some <$> z_array (z_string 0) x end = Some o.
Proof. destruct o as [l|]; [|done]. cbn [fmap option_fmap option_map]. by rewrite z_strings_ok by apply any_strings. Qed.

Lemma dec_node_fields v n : node_ok n → Forall (λ k, field (js k) v = node_field n k) node_keys → dec_node v = Some n.
Proof.
  intros [Hid Ht Hc Ho Hd Hb Hr Hg] Hf. unfold dec_node, required, optional, with_default. unfold node_keys in Hf.
  rewrite !Forall_cons in Hf. destruct Hf as (-> & -> & -> & -> & -> & -> & -> & -> & -> & -> & -> & -> & -> & -> & -> & -> & -> & -> & _).
  cbn [node_field mbind option_bind].
  change (z_id (JStr (id n))) with (if id_ok (id n) then Some (id n) else None). rewrite Hid. cbn [mbind option_bind].
  rewrite (z_nullable_ok _ JStr (parent_id n)) by (intros a _; split; [apply z_string_ok; lia|done]). cbn [mbind option_bind].
  rewrite (z_strings_ok 0 (children_ids n)) by apply any_strings. cbn [mbind option_bind].
  rewrite (z_string_ok 1 (title n)) by done. cbn [mbind option_bind]. rewrite (z_string_ok 0 (body n)) by lia. cbn [mbind option_bind].
  rewrite dec_mode_ok. cbn [mbind option_bind]. rewrite (z_string_ok 0 (created_at n)) by lia. cbn [mbind option_bind].
  change (z_count (JNum (iteration_count n))) with
    (if (0 <=? iteration_count n)%Z && (iteration_count n <=? 9007199254740991)%Z then Some (iteration_count n) else None).
  rewrite (proj2 (andb_true_iff _ _)) by (rewrite !Z.leb_le; done). cbn [mbind option_bind].
  assert (Hua : (match JStr <$> updated_at n with None => Some None | Some x => Some <$> z_string 0 x end) = Some (updated_at n)).
  { destruct (updated_at n) as [u|]; [|done]. cbn [fmap option_fmap option_map]. by rewrite z_string_ok by lia. }
  rewrite Hua. cbn [mbind option_bind]. rewrite (z_strings_ok 1 (observations n)) by done. cbn [mbind option_bind].
  rewrite z_decisions_ok by done. cbn [mbind option_bind]. rewrite (z_strings_ok 1 (blockers n)) by done. cbn [mbind option_bind].
  rewrite (z_string_ok 0 (next_intent n)) by lia. cbn [mbind option_bind].
  rewrite (z_nullable_ok _ JStr (consolidated_summary n)) by (intros a _; split; [apply z_string_ok; lia|done]). cbn [mbind option_bind].
  rewrite !optional_strings. cbn [mbind option_bind].
  assert (Hgb : (match enc_binding <$> goal_binding n with None => Some None | Some x => Some <$> dec_binding x end) = Some (goal_binding n)).
  { destruct (goal_binding n) as [b|]; [|done]. cbn [fmap option_fmap option_map]. by rewrite dec_binding_ok. }
  rewrite Hgb. by destruct n.
Qed.

Lemma dec_enc_node n : node_ok n → dec_node (enc_node n) = Some n.
Proof. intros H. apply dec_node_fields; [done|apply field_enc]. Qed.

(** ** The sections of a file *)

Lemma trim_ends c s d : is_space c = false → is_space d = false → last (c :: s) = Some d → trim (c :: s) = c :: s.
Proof.
  intros Hc Hd Hl. destruct s as [|x s _] using rev_ind.
  - unfold trim. rewrite trimStart_nonspace by done. by apply (trimEnd_nonspace c []).
  - change (c :: s ++ [x]) with ((c :: s) ++ [x]) in Hl. rewrite last_snoc in Hl. injection Hl as ->. by apply trim_id.
Qed.
Lemma trimEnd_last s d : is_space d = false → last s = Some d → trimEnd s = s.
Proof. intros Hd Hl. apply last_Some in Hl as [s' ->]. by apply trimEnd_nonspace. Qed.

(** Values whose text neither starts nor ends with white space. *)
Definition no_decimal (v : json) : Prop := match v with JDec _ => False | _ => True end.
Lemma digit_not_space c : (45 <= c <= 57)%N → is_space c = false.
Proof. intros H. unfold is_space. repeat (rewrite orb_false_iff || rewrite andb_false_iff); repeat split; rewrite ?N.eqb_neq, ?N.leb_gt; lia. Qed.

Lemma show_Z_chars n : Forall (λ c, 45 <= c <= 57)%N (show_Z n) ∧ show_Z n ≠ [].
Proof.
  assert (Hd : ∀ m, (0 <= m)%Z → Forall (λ c, 45 <= c <= 57)%N (show_digits (S (Z.to_nat (Z.log2 m))) m []) ∧
    show_digits (S (Z.to_nat (Z.log2 m))) m [] ≠ []).
  { intros m Hm. destruct (show_nonneg m Hm) as (ds & -> & Hf & _ & Hz). split; [|by destruct ds].
    eapply Forall_impl; [done|]. intros c Hc. apply number_head_plain. by right. }
  unfold show_Z. destruct (Z.ltb_spec n 0).
  - destruct (Hd (- n)%Z) as [Hf _]; [lia|]. split; [|done]. constructor; [by vm_compute|done].
  - by apply Hd.
Qed.
Lemma stringify_ends pretty level v : no_decimal v →
  ∃ c t d, stringify_at pretty level v = c :: t ∧ is_space c = false ∧ last (c :: t) = Some d ∧ is_space d = false.
Proof.
  assert (Hsnoc : ∀ c t d, is_space c = false → is_space d = false →
    ∃ c' t' d', c :: t ++ [d] = c' :: t' ∧ is_space c' = false ∧ last (c' :: t') = Some d' ∧ is_space d' = false).
  { intros c t d Hc Hd. exists c, (t ++ [d]), d. split; [done|]. split; [done|]. split; [|done].
    change (c :: t ++ [d]) with ((c :: t) ++ [d]). by rewrite last_snoc. }
  destruct v as [|[]|n|s|s|[|x l]|[|x l]]; intros Hv; try done; try (by do 3 eexists).
  - simpl. destruct (show_Z_chars n) as [Hf Hne]. destruct (show_Z n) as [|c t] eqn:E; [done|].
    destruct (last (c :: t)) as [d|] eqn:El; [|by apply last_None in El]. exists c, t, d. split; [done|].
    assert (d ∈ c :: t) by (apply last_Some in El as [l' ->]; set_solver).
    rewrite Forall_forall in Hf. split; [apply digit_not_space, Hf; left|]. split; [done|]. by apply digit_not_space, Hf.
  - by apply Hsnoc.
  - rewrite stringify_arr, app_assoc. by apply Hsnoc.
  - rewrite stringify_obj, app_assoc. by apply Hsnoc.
Qed.
Lemma trim_stringify v : no_decimal v → trim (stringify v) = stringify v.
Proof.
  intros Hv. unfold stringify. destruct (stringify_ends false 0 v Hv) as (c & t & d & -> & Hc & Hl & Hd). by apply (trim_ends c t d).
Qed.

(** A key of the front matter. *)
Definition key_ok (k : jsstr) : Prop := 58%N ∉ k ∧ newline ∉ k ∧ trim k = k ∧
  match k with c :: _ => c ≠ 45%N | [] => False end.
Lemma frontmatter_keys_ok : Forall key_ok FRONTMATTER_KEYS.
Proof. repeat (constructor; [split; [vm_compute; set_solver|split; [vm_compute; set_solver|by vm_compute]]|]). constructor. Qed.

Lemma parse_line_field k v out : key_ok k → json_ok v → no_decimal v →
  parse_line (k ++ js ": " ++ stringify v) out = Some (set_key k v out).
Proof.
  intros (Hc & _ & Ht & Hk) Hv Hd. unfold parse_line.
  destruct (stringify_ends false 0 v Hd) as (c & t & d & Hs & _ & Hl & Hdsp).
  assert (Hend : trimEnd (k ++ js ": " ++ stringify v) = k ++ js ": " ++ stringify v).
  { apply (trimEnd_last _ d Hdsp). unfold stringify. rewrite Hs. apply last_Some in Hl as [l' ->].
    change (js ": ") with [58%N; 32%N]. by rewrite !app_assoc, last_snoc. }
  rewrite Hend, bool_decide_eq_false_2 by (by destruct k). change (js ": " ++ stringify v) with (58%N :: 32%N :: stringify v).
  change (js ":") with [58%N]. rewrite indexOf_unit by done. cbn [mbind option_bind].
  rewrite take_app_length, Ht. rewrite <- drop_drop, drop_app_length. simpl drop.
  rewrite trim_space, trim_stringify by done. unfold stringify. by rewrite (parse_stringify false v Hv).
Qed.

Lemma parse_lines_fields v ks out : NoDup ks → Forall key_ok ks → (∀ k, k ∈ ks → k ∉ map fst out) →
  (∀ k x, k ∈ ks → field k v = Some x → json_ok x ∧ no_decimal x) →
  parse_lines (omap (frontmatter_line v) ks) out = Some (out ++ omap (λ k, (λ x, (k, x)) <$> field k v) ks).
Proof.
  intros Hnd Hok Hout Hv. revert out Hout. induction ks as [|k ks IH]; intros out Hout; [by rewrite app_nil_r|].
  apply NoDup_cons in Hnd as [Hk Hnd]. apply Forall_cons in Hok as [Hkok Hok]. cbn [omap list_omap].
  assert (Hl : frontmatter_line v k = (λ x, k ++ js ": " ++ stringify x) <$> field k v) by done. rewrite Hl.
  destruct (field k v) as [x|] eqn:E; cbn [fmap option_fmap option_map]; [|apply IH; [done|done|set_solver|set_solver]].
  cbn [parse_lines].
  destruct (Hv k x) as [Hx Hd]; [left|done|]. rewrite parse_line_field by done. cbn [mbind option_bind].
  rewrite set_key_fresh by (apply Hout; left). rewrite IH; [by rewrite <- app_assoc|done|done|set_solver|].
  intros k' Hk'. rewrite map_app, not_elem_of_app. split; [apply Hout; by right|]. simpl. set_solver.
Qed.

Lemma assoc_omap (f : jsstr → option json) ks k :
  assoc k (omap (λ k, (λ x, (k, x)) <$> f k) ks) = if decide (k ∈ ks) then f k else None.
Proof.
  induction ks as [|k' ks IH]; [done|]. cbn [omap list_omap].
  destruct (decide (k = k')) as [->|Hne].
  - rewrite decide_True by left. destruct (f k') as [x|] eqn:E; cbn [fmap option_fmap option_map].
    + simpl. by rewrite bool_decide_eq_true_2.
    + rewrite IH. case_decide; congruence.
  - assert (Hd : (if decide (k ∈ k' :: ks) then f k else None) = if decide (k ∈ ks) then f k else None).
    { repeat case_decide; set_solver. }
    rewrite Hd. destruct (f k') as [x|] eqn:E; cbn [fmap option_fmap option_map]; [|done].
    simpl. by rewrite bool_decide_eq_false_2.
Qed.
Lemma assoc_app k a b : assoc k (a ++ b) = match assoc k a with Some x => Some x | None => assoc k b end.
Proof. induction a as [|kv a IH]; [done|]. simpl. by case_bool_decide. Qed.
Lemma spread_fresh l l' : NoDup (map fst l') → (∀ k, k ∈ map fst l' → k ∉ map fst l) → spread l l' = l ++ l'.
Proof.
  unfold spread. revert l. induction l' as [|[k v] l' IH]; intros l Hnd Hd; simpl; [by rewrite app_nil_r|].
  apply NoDup_cons in Hnd as [Hk Hnd]. rewrite set_key_fresh by (apply Hd; left).
  rewrite IH; [by rewrite <- app_assoc|done|]. intros k' Hk'. rewrite map_app, not_elem_of_app.
  split; [apply Hd; by right|]. simpl. intros ->%list_elem_of_singleton. done.
Qed.
Lemma keys_omap (f : jsstr → option json) ks : ∀ k, k ∈ map fst (omap (λ k, (λ x, (k, x)) <$> f k) ks) → k ∈ ks.
Proof.
  intros k. induction ks as [|k' ks IH]; [done|]. cbn [omap list_omap]. destruct (f k'); cbn [fmap option_fmap option_map]; set_solver.
Qed.
Lemma NoDup_keys_omap (f : jsstr → option json) ks : NoDup ks → NoDup (map fst (omap (λ k, (λ x, (k, x)) <$> f k) ks)).
Proof.
  induction 1 as [|k ks Hk Hnd IH]; [constructor|]. cbn [omap list_omap]. destruct (f k); cbn [fmap option_fmap option_map]; [|done].
  simpl. apply NoDup_cons. split; [|done]. intros H%keys_omap. done.
Qed.

(** ** Splitting a file *)

Definition padded (b : jsstr) : jsstr := if Nat.ltb 0 (length b) then b ++ nl ++ nl else [].
Lemma trimEnd_space s c : is_space c = true → trimEnd (s ++ [c]) = trimEnd s.
Proof. intros Hc. unfold trimEnd. rewrite reverse_snoc. simpl. by rewrite Hc. Qed.
Lemma trimEnd_padded b : trimEnd (padded b) = trimEnd b.
Proof.
  unfold padded. destruct b as [|c b]; [done|]. cbn [length Nat.ltb Nat.leb].
  change (nl ++ nl) with ([newline] ++ [newline]). rewrite app_assoc, !trimEnd_space; done.
Qed.

(** The body of a node does not contain the mark of the state block. *)
Definition fence_free (b : jsstr) : Prop := ∀ pre, ¬ occurs b STATE_FENCE_OPEN pre.
Lemma fence_after b r : fence_free b →
  indexOf (padded b ++ STATE_FENCE_OPEN ++ r) STATE_FENCE_OPEN = Some (length (padded b)).
Proof.
  intros Hb. set (p := padded b). assert (Ho : occurs (p ++ STATE_FENCE_OPEN ++ r) STATE_FENCE_OPEN p) by (by exists r).
  destruct (occurs_indexOf _ _ _ Ho) as [k Hk]. rewrite Hk. apply indexOf_occurs in Hk as (Hl & [post Hp] & Hf). apply Hf in Ho.
  destruct (decide (k = length p)) as [->|Hne]; [done|]. exfalso.
  rewrite take_app_le in Hp by lia. rewrite <- (take_drop k p), <- app_assoc in Hp at 1. apply app_inv_head in Hp.
  unfold padded in *. destruct b as [|c b]; [simpl in Ho, Hne; lia|]. cbn [length Nat.ltb Nat.leb] in p.
  set (m := STATE_FENCE_OPEN) in *. assert (Hm : newline ∉ m) by (vm_compute; set_solver).
  destruct (decide (k ≤ length (c :: b))) as [Hkb|Hkb].
  - assert (Hd : drop k p = drop k (c :: b) ++ nl ++ nl) by (unfold p; by rewrite drop_app_le).
    rewrite Hd in Hp. destruct (decide (length m ≤ length (drop k (c :: b)))) as [Hlm|Hlm].
    + apply (Hb (take k (c :: b))). exists (drop (length m) (drop k (c :: b))).
      rewrite <- (take_drop k (c :: b)) at 1. f_equal. rewrite <- (take_drop (length m) (drop k (c :: b))) at 1. f_equal.
      apply (f_equal (take (length m))) in Hp. rewrite <- !app_assoc, take_app_le in Hp by done. by rewrite take_app_length in Hp.
    + apply Hm. apply (f_equal (λ s, s !! length (drop k (c :: b)))) in Hp.
      rewrite <- !app_assoc, lookup_app_r, Nat.sub_diag in Hp by done. rewrite (lookup_app_l m) in Hp by lia.
      apply (list_elem_of_lookup_2 m (length (drop k (c :: b)))). by rewrite <- Hp.
  - apply Hm. destruct (drop k p) as [|x q] eqn:Ed; [assert (El : length (drop k p) = 0) by (by rewrite Ed); rewrite length_drop in El; lia|].
    assert (x = newline) as ->.
    { assert (Hx : p !! k = Some x) by (rewrite <- (Nat.add_0_r k), <- lookup_drop, Ed; done).
      unfold p in Hx. rewrite lookup_app_r in Hx by lia. destruct (k - length (c :: b)) as [|[|?]]; unfold nl in Hx; simpl in Hx; by inversion Hx. }
    destruct m as [|y m'] eqn:Em; [by vm_compute in Em|]. injection Hp as -> _. left.
Qed.

Lemma line_starts_join (P : N → Prop) lines :
  Forall (λ l, newline ∉ l ∧ match l with c :: _ => P c | [] => False end) lines → line_starts P (join nl lines).
Proof.
  induction 1 as [|l lines [Hl Hp] Hf IH]; [done|]. destruct lines as [|l' lines]; [by apply line_starts_flat|].
  rewrite join_cons_ne by done. apply line_starts_app; [by apply line_starts_flat|]. split; [|done]. intros _.
  apply Forall_cons in Hf as [[_ Hp'] _]. destruct l' as [|c l']; [done|]. by destruct lines.
Qed.
Lemma join_closed lines : lines ≠ [] → join nl (lines ++ [js "---"; []]) = join nl lines ++ nl ++ js "---" ++ nl.
Proof.
  induction lines as [|l lines IH]; [done|]. intros _. destruct lines as [|l' lines]; [done|].
  rewrite <- app_comm_cons, !join_cons_ne by done. rewrite IH by done. by rewrite <- !app_assoc.
Qed.

Lemma splitSections_text fm b state :
  line_starts (λ d, d ≠ 45%N) fm → fence_free b → line_starts (λ d, d ≠ 96%N) state →
  splitSections (js "---" ++ nl ++ fm ++ nl ++ js "---" ++ nl ++ padded b ++ STATE_FENCE_OPEN ++ nl ++ state ++ nl ++
    STATE_FENCE_CLOSE ++ nl) = Some (fm, trimEnd b, state).
Proof.
  intros Hfm Hb Hst. unfold splitSections. rewrite (app_assoc (js "---") nl), startsWith_app.
  change (js "---" ++ nl) with [45; 45; 45; newline]%N. cbn [app drop].
  set (r := padded b ++ _). rewrite !drop_0. change (nl ++ js "---" ++ nl ++ r) with ([newline; 45; 45; 45; newline]%N ++ r).
  change (nl ++ [45; 45; 45; newline]%N) with [newline; 45; 45; 45; newline]%N.
  rewrite (indexOf_line (λ d, d ≠ 45%N)); [|done|by intros H; apply H|by exists r]. cbn [mbind option_bind].
  rewrite <- drop_drop, drop_app_length, take_app_length. change (drop 5 ([newline; 45; 45; 45; newline]%N ++ r)) with r. unfold r.
  rewrite fence_after by done. cbn [mbind option_bind]. rewrite take_app_length, trimEnd_padded.
  rewrite <- drop_drop, drop_app_length, drop_app_length. change (drop_newline (nl ++ ?s)) with s.
  change (nl ++ STATE_FENCE_CLOSE) with [newline; 96; 96; 96]%N. change (nl ++ STATE_FENCE_CLOSE ++ nl) with [newline; 96; 96; 96; newline]%N.
  rewrite (indexOf_line (λ d, d ≠ 96%N)); [|done|by intros H; apply H|by exists nl]. cbn [mbind option_bind].
  by rewrite take_app_length.
Qed.

(** ** Reading back what was written *)

(** What a node is on disk: the trailing white space of its body is lost. *)
Definition stored (n : ContextNode) : ContextNode :=
  Node (id n) (parent_id n) (children_ids n) (title n) (trimEnd (body n)) (mode n) (created_at n) (iteration_count n)
    (updated_at n) (observations n) (decisions n) (blockers n) (results n) (next_intent n) (consolidated_summary n)
    (relevant_tools n) (relevant_skills n) (goal_binding n).

Lemma strings_json_ok l : json_ok (enc_strings l).
Proof. unfold enc_strings. simpl. apply foldr_and, Forall_map, Forall_forall. done. Qed.
Lemma binding_json_ok b : json_ok (enc_binding b) ∧ no_decimal (enc_binding b).
Proof.
  destruct b; (split; [|done]); simpl; (split; [repeat (apply NoDup_cons; split; [set_solver|]); apply NoDup_nil_2|]); [done|].
  split_and?; try done. apply (strings_json_ok acceptance_criteria).
Qed.
Lemma decisions_json_ok l : json_ok (JArr (map enc_decision l)).
Proof.
  simpl. apply foldr_and, Forall_map, Forall_forall. intros d _. simpl. split; [|done].
  apply NoDup_cons; split; [set_solver|]. apply NoDup_cons; split; [set_solver|]. apply NoDup_nil_2.
Qed.

Lemma field_of n k : k ∈ node_keys → field (js k) (enc_node n) = node_field n k.
Proof. intros Hk. pose proof (field_enc n) as H. rewrite Forall_forall in H. by apply H. Qed.

Lemma frontmatter_values n k x : k ∈ FRONTMATTER_KEYS → field k (enc_node n) = Some x → json_ok x ∧ no_decimal x.
Proof.
  intros Hk. assert (Hs : ∃ s, k = js s ∧ s ∈ ["id"; "parent_id"; "children_ids"; "title"; "mode"; "created_at"; "updated_at";
    "iteration_count"; "goal_binding"; "relevant_tools"; "relevant_skills"]%string) by (by apply list_elem_of_fmap in Hk).
  destruct Hs as (s & -> & Hs). rewrite field_of by (unfold node_keys; set_solver).
  assert (Hstr : ∀ o, enc_strings <$> o = Some x → json_ok x ∧ no_decimal x).
  { intros [l|] [= <-]. split; [apply strings_json_ok|done]. }
  repeat (apply elem_of_cons in Hs as [->|Hs]; [cbn [node_field]|]); [..|no_member]; try (by intros [= <-]).
  - intros [= <-]. by destruct (parent_id n).
  - intros [= <-]. split; [apply strings_json_ok|done].
  - destruct (updated_at n); [|done]. by intros [= <-].
  - destruct (goal_binding n); [|done]. intros [= <-]. apply binding_json_ok.
  - apply Hstr.
  - apply Hstr.
Qed.
Lemma state_values n k x : node_ok n → k ∈ STATE_KEYS → field k (enc_node n) = Some x → json_ok x.
Proof.
  intros Hn Hk. assert (Hs : ∃ s, k = js s ∧ s ∈ ["observations"; "decisions"; "blockers"; "results"; "next_intent";
    "consolidated_summary"]%string) by (by apply list_elem_of_fmap in Hk).
  destruct Hs as (s & -> & Hs). rewrite field_of by (unfold node_keys; set_solver).
  repeat (apply elem_of_cons in Hs as [->|Hs]; [cbn [node_field]|]); [..|no_member]; intros [= <-]; try done.
  - apply strings_json_ok.
  - apply decisions_json_ok.
  - apply strings_json_ok.
  - apply Hn.
  - by destruct (consolidated_summary n).
Qed.

Lemma stored_ok n : node_ok n → node_ok (stored n).
Proof. by intros []. Qed.
Lemma trimEnd_idemp s : trimEnd (trimEnd s) = trimEnd s.
Proof.
  unfold trimEnd. rewrite reverse_involutive. f_equal. induction (reverse s) as [|c r IH]; [done|]. simpl.
  destruct (is_space c) eqn:E; [done|]. by rewrite trimStart_nonspace.
Qed.
Lemma stored_stored n : stored (stored n) = stored n.
Proof. unfold stored. simpl. by rewrite trimEnd_idemp. Qed.

Definition frontmatter_fields (n : ContextNode) : list (jsstr * json) :=
  omap (λ k, (λ x, (k, x)) <$> field k (enc_node n)) FRONTMATTER_KEYS.
Definition state_fields (n : ContextNode) : list (jsstr * json) :=
  omap (λ k, (λ x, (k, x)) <$> field k (enc_node n)) STATE_KEYS.

Lemma keys_nodup : NoDup FRONTMATTER_KEYS ∧ NoDup (FRONTMATTER_KEYS ++ STATE_KEYS ++ [js "body"]).
Proof. split; by_compute. Qed.
Lemma frontmatter_lines_ok n : Forall (λ l, newline ∉ l ∧ match l with c :: _ => c ≠ 45%N | [] => False end)
  (omap (frontmatter_line (enc_node n)) FRONTMATTER_KEYS).
Proof.
  apply Forall_forall. intros l (k & Hk & Hl)%list_elem_of_omap. unfold frontmatter_line in Hl.
  destruct (field k (enc_node n)) as [x|] eqn:E; [|done]. injection Hl as <-.
  destruct (frontmatter_values n k x Hk E) as [Hx _]. pose proof frontmatter_keys_ok as Hok. rewrite Forall_forall in Hok.
  destruct (Hok k Hk) as (_ & Hnl & _ & Hne). split; [|by destruct k]. rewrite !not_elem_of_app. split; [done|].
  rewrite !not_elem_of_cons. split; [by vm_compute|]. split; [by vm_compute|]. by apply stringify_one_line.
Qed.
Lemma frontmatter_lines_ne n : omap (frontmatter_line (enc_node n)) FRONTMATTER_KEYS ≠ [].
Proof.
  assert (H : js "id" ++ js ": " ++ stringify (JStr (id n)) ∈ omap (frontmatter_line (enc_node n)) FRONTMATTER_KEYS).
  { apply list_elem_of_omap. exists (js "id"). split; [left|]. unfold frontmatter_line.
    by rewrite field_of by (unfold node_keys; left). }
  intros E. rewrite E in H. no_member.
Qed.
Lemma parse_frontmatter n :
  parseFrontmatter (join nl (omap (frontmatter_line (enc_node n)) FRONTMATTER_KEYS)) = Some (frontmatter_fields n).
Proof.
  pose proof (parse_lines_fields (enc_node n) FRONTMATTER_KEYS [] (proj1 keys_nodup) frontmatter_keys_ok) as H.
  pose proof (frontmatter_lines_ne n) as Hne. pose proof (frontmatter_lines_ok n) as Hok.
  unfold parseFrontmatter. set (ls := omap _ _) in *. clearbody ls. change nl with [newline].
  rewrite split_join; [apply H|done|].
  - intros ? _. apply not_elem_of_nil.
  - apply frontmatter_values.
  - eapply Forall_impl; [apply Hok|]. by intros l [? _].
Qed.
Lemma state_json_ok n : node_ok n → json_ok (state_of (enc_node n)).
Proof.
  intros Hn. unfold state_of. apply json_ok_obj. pose proof keys_nodup as [_ Hnd]. apply NoDup_app in Hnd as (_ & _ & Hnd).
  apply NoDup_app in Hnd as (Hnd & _ & _). split; [by apply NoDup_keys_omap|].
  apply Forall_forall. intros [k x] (k' & Hk & He)%list_elem_of_omap.
  destruct (field k' (enc_node n)) as [x'|] eqn:E; [|done]. injection He as -> ->. by apply (state_values n k x).
Qed.

(** The properties read from a file. *)
Lemma merged_fields n b : Forall (λ k, field (js k)
    (JObj (set_key (js "body") (JStr b) (spread (frontmatter_fields n) (state_fields n)))) =
  if bool_decide (k = "body"%string) then Some (JStr b) else node_field n k) node_keys.
Proof.
  pose proof keys_nodup as [_ Hnd]. rewrite app_assoc in Hnd. apply NoDup_app in Hnd as (Hnd & Hdis & _).
  apply NoDup_app in Hnd as (Hn1 & Hd12 & Hn2).
  rewrite spread_fresh; [|by apply NoDup_keys_omap|].
  2: { intros k Hk%keys_omap Hk'%keys_omap. by apply (Hd12 k). }
  rewrite set_key_fresh.
  2: { rewrite map_app, elem_of_app. intros H. apply (Hdis (js "body")); [|left]. apply elem_of_app.
       destruct H as [H%keys_omap|H%keys_omap]; tauto. }
  apply Forall_forall. intros k Hk. unfold field. rewrite !assoc_app. unfold frontmatter_fields, state_fields. rewrite !assoc_omap.
  rewrite field_of by done. unfold node_keys in Hk.
  repeat (apply elem_of_cons in Hk as [->|Hk]; [rewrite ?decide_True by (by_compute);
    rewrite ?decide_False by (by_compute); cbn [node_field]; try done; by destruct (_ <$> _)|]).
  no_member.
Qed.

Lemma serialize_deserialize n : node_ok n → fence_free (body n) →
  ∃ text, serialize n = Some text ∧ deserialize text = Some (stored n).
Proof.
  intros Hn Hb.
  eexists. unfold serialize. rewrite dec_enc_node by done. cbn [mbind option_bind]. split; [reflexivity|].
  rewrite join_cons_ne by (by destruct (omap _ _)). rewrite join_closed by apply frontmatter_lines_ne.
  fold (padded (body n)). unfold deserialize.
  assert (Hst : line_starts (λ d, d ≠ 96%N) (stringify_pretty (state_of (enc_node n)))).
  { eapply line_starts_impl; [|by apply stringify_indented, state_json_ok]. intros d [-> |[-> | ->]]; done. }
  pose proof (splitSections_text (join nl (omap (frontmatter_line (enc_node n)) FRONTMATTER_KEYS)) (body n) _
    (line_starts_join _ _ (frontmatter_lines_ok n)) Hb Hst) as Hsplit.
  rewrite <- !app_assoc. rewrite Hsplit. cbn [mbind option_bind fst snd]. rewrite parse_frontmatter. cbn [mbind option_bind].
  unfold parseStateBlock, stringify_pretty. rewrite parse_stringify by (by apply state_json_ok). cbn [mbind option_bind].
  apply dec_node_fields; [by apply stored_ok|]. pose proof (merged_fields n (trimEnd (body n))) as Hm.
  rewrite Forall_forall in Hm |- *. intros k Hk. fold (state_fields n). rewrite Hm by done. case_bool_decide as Eb; [by subst|].
  unfold node_keys in Hk. repeat (apply elem_of_cons in Hk as [->|Hk]; [done|]). no_member.
Qed.

(** C27. Node files: what is written for a valid node whose body does not contain
    the mark of the state block is read back as the node, but for the white
    space at the end of its body; writing what was read changes nothing more. *)
Theorem freerun_file_roundtrip (n : ContextNode) :
  node_ok n → fence_free (body n) →
  (∃ text, serialize n = Some text ∧ deserialize text = Some (stored n)) ∧
  node_ok (stored n) ∧ stored (stored n) = stored n.
Proof. intros Hn Hb. split; [by apply serialize_deserialize|]. split; [by apply stored_ok|apply stored_stored]. Qed.

(** A body that contains the mark is written, but what is written is not read. *)
Example file_mark :
  let n := Node (js "root") None [] (js "t") (js "see ```json freerun-state") PendingPlan (js "") 0 None [] [] [] JNull [] None None None None in
  (bool_decide (serialize n = None), bool_decide (serialize n ≫= deserialize = None)) = (false, true).
Proof. by vm_compute. Qed.

Lemma fence_free_short b : length b < length STATE_FENCE_OPEN → fence_free b.
Proof. intros Hl pre [post Hp]. apply (f_equal length) in Hp. rewrite !length_app in Hp. lia. Qed.
Lemma demo_node_ok : node_ok demo_node ∧ fence_free (body demo_node).
Proof. split; [|apply fence_free_short; vm_compute; lia]. split; try by_compute; vm_compute; try done; repeat constructor; vm_compute; try lia; try done; set_solver. Qed.
Lemma freerun_file_roundtrip_witness :
  node_ok demo_node ∧ ∃ text, serialize demo_node = Some text ∧ deserialize text = Some (stored demo_node).
Proof.
  split; [apply demo_node_ok|]. apply (freerun_file_roundtrip demo_node); apply demo_node_ok.
Defined.

(** ** What is decoded is well formed *)

Lemma z_string_inv k v s : z_string k v = Some s → k ≤ length s.
Proof. destruct v as [| | | |t| |]; try done. simpl. destruct (Nat.leb_spec k (length t)); [|done]. by intros [= <-]. Qed.
Lemma z_array_inv {A} (d : json → option A) (P : A → Prop) v l : (∀ x a, d x = Some a → P a) → z_array d v = Some l → Forall P l.
Proof.
  intros Hd. destruct v as [| | | | |xs|]; try done. simpl. intros Hl%mapM_Some. induction Hl; constructor; [by eapply Hd|done].
Qed.
Lemma with_default_inv {A} (d : json → option A) (P : A → Prop) a k v x :
  P a → (∀ y b, d y = Some b → P b) → with_default d a k v = Some x → P x.
Proof. unfold with_default. intros Ha Hd. destruct (field (js k) v) as [y|]; [apply Hd|by intros [= <-]]. Qed.
Lemma required_inv {A} (d : json → option A) (P : A → Prop) k v x :
  (∀ y b, d y = Some b → P b) → required d k v = Some x → P x.
Proof. unfold required. intros Hd. destruct (field (js k) v) as [y|]; [apply Hd|done]. Qed.

Lemma dec_decision_ok v d : dec_decision v = Some d → decision_ok d.
Proof.
  unfold dec_decision. intros H. destruct (required _ "decision" v) as [a|] eqn:Ea; [|done].
  cbn [mbind option_bind] in H. destruct (required _ "rationale" v) as [b|] eqn:Eb; [|done]. injection H as <-.
  split; [revert Ea; apply (required_inv _ (λ s, 1 ≤ length s))|revert Eb; apply (required_inv _ (λ s, 10 ≤ length s))];
    intros y s; apply z_string_inv.
Qed.
Lemma dec_child_ok v c : dec_child v = Some c → id_ok (c_id c) = true ∧ nonempty (c_title c).
Proof.
  unfold dec_child. intros H. destruct (required z_id "id" v) as [i|] eqn:Ei; [|done]. cbn [mbind option_bind] in H.
  destruct (required _ "title" v) as [t|] eqn:Et; [|done]. cbn [mbind option_bind] in H.
  assert (Hr : c_id c = i ∧ c_title c = t).
  { repeat match type of H with (?o ≫= _) = _ => destruct o; [|done]; cbn [mbind option_bind] in H end. by injection H as <-. }
  destruct Hr as [-> ->]. split; [revert Ei; apply (required_inv _ (λ s, id_ok s = true))|revert Et; apply (required_inv _ nonempty)].
  - intros [| | | |s'| |] s Hs; try done. simpl in Hs. destruct (id_ok s') eqn:E; [|done]. by injection Hs as <-.
  - intros y s. apply z_string_inv.
Qed.
Lemma dec_planning_ok v cs : dec_planning v = Some cs → cs ≠ [] ∧ Forall (λ c, id_ok (c_id c) = true ∧ nonempty (c_title c)) cs.
Proof.
  unfold dec_planning. destruct (required _ "children" v) as [l|] eqn:E; [|done]. simpl. intros H.
  assert (cs = l ∧ l ≠ []) as [-> Hl] by (by destruct l; simplify_eq). split; [done|]. revert E. apply required_inv. intros y ks.
  apply z_array_inv, dec_child_ok.
Qed.

Lemma assoc_ok k l v : Forall (λ kv, json_ok kv.2) l → assoc k l = Some v → json_ok v.
Proof.
  induction 1 as [|kv l Hx Hl IH]; [done|]. simpl. case_bool_decide; [by intros [= <-]|done].
Qed.
Record outcome_ok (o : ExecutionOutcome) : Prop := {
  oc_observations : Forall nonempty (o_observations o);
  oc_decisions : Forall decision_ok (o_decisions o);
  oc_blockers : Forall nonempty (o_blockers o);
  oc_results : json_ok (o_results o) }.
Lemma dec_execution_ok v o : json_ok v → dec_execution v = Some o → outcome_ok o.
Proof.
  intros Hv. unfold dec_execution. destruct (is_object v); [|done].
  destruct (with_default _ _ "observations" v) as [obs|] eqn:Eo; [|done]. cbn [mbind option_bind].
  destruct (with_default _ _ "decisions" v) as [ds|] eqn:Ed; [|done]. cbn [mbind option_bind].
  destruct (with_default _ _ "blockers" v) as [bs|] eqn:Eb; [|done]. cbn [mbind option_bind].
  destruct (with_default _ _ "results" v) as [r|] eqn:Er; [|done]. cbn [mbind option_bind].
  destruct (with_default _ _ "next_intent" v) as [ni|]; [|done]. cbn [mbind option_bind].
  destruct (with_default _ _ "next_mode" v) as [nm|]; [|done]. cbn [mbind option_bind]. intros [= <-]. split; simpl.
  - revert Eo. apply with_default_inv; [constructor|]. intros y l. apply z_array_inv. intros x s. apply z_string_inv.
  - revert Ed. apply with_default_inv; [constructor|]. intros y l. apply z_array_inv, dec_decision_ok.
  - revert Eb. apply with_default_inv; [constructor|]. intros y l. apply z_array_inv. intros x s. apply z_string_inv.
  - unfold with_default in Er. destruct (field _ v) as [y|] eqn:Ef; simplify_eq; [|done]. destruct v as [| | | | | |l]; try done.
    apply json_ok_obj in Hv as [_ Hv]. by eapply assoc_ok.
Qed.

Lemma optional_inv {A} (d : json → option A) (P : A → Prop) k v x :
  (∀ y b, d y = Some b → P b) → optional d k v = Some x → match x with Some b => P b | None => True end.
Proof.
  unfold optional. intros Hd. destruct (field (js k) v) as [y|]; [|by intros [= <-]]. destruct (d y) as [b|] eqn:E; [|done].
  intros [= <-]. by eapply Hd.
Qed.
Lemma decoded_binding_ok v b : dec_binding v = Some b → binding_ok b.
Proof.
  assert (Hs : ∀ k v s, required (z_string 1) k v = Some s → nonempty s).
  { intros k w s. apply (required_inv _ nonempty). intros y t. apply z_string_inv. }
  unfold dec_binding. destruct (field _ v) as [[| | | |s| |]|]; try done. case_bool_decide; [|case_bool_decide; [|done]].
  - destruct (required _ "goal_text" v) as [t|] eqn:E; [|done]. intros [= <-]. by eapply Hs.
  - destruct (required _ "plan_slug" v) as [a|] eqn:Ea; [|done]. cbn [mbind option_bind].
    destruct (required _ "task_id" v) as [i|] eqn:Ei; [|done]. cbn [mbind option_bind].
    destruct (required _ "task_text" v) as [t|] eqn:Et; [|done]. cbn [mbind option_bind].
    destruct (with_default _ _ "acceptance_criteria" v) as [c|] eqn:Ec; [|done]. intros [= <-].
    split; [by eapply Hs|]. split; [by eapply Hs|]. split; [by eapply Hs|]. revert Ec. apply with_default_inv; [constructor|].
    intros y l. apply z_array_inv. intros x u. apply z_string_inv.
Qed.

(** The parts of a decoded node. *)
Lemma dec_node_parts v n : dec_node v = Some n →
  required z_id "id" v = Some (id n) ∧ required (z_string 1) "title" v = Some (title n) ∧
  with_default z_count 0%Z "iteration_count" v = Some (iteration_count n) ∧
  with_default (z_array (z_string 1)) [] "observations" v = Some (observations n) ∧
  with_default (z_array dec_decision) [] "decisions" v = Some (decisions n) ∧
  with_default (z_array (z_string 1)) [] "blockers" v = Some (blockers n) ∧
  with_default Some JNull "results" v = Some (results n) ∧
  optional dec_binding "goal_binding" v = Some (goal_binding n).
Proof.
  unfold dec_node. intros H.
  repeat match type of H with
  | (?o ≫= _) = Some _ => let x := fresh "x" in let E := fresh "E" in destruct o as [x|] eqn:E; [|done]; cbn [mbind option_bind] in H
  end.
  injection H as <-. done.
Qed.
Lemma dec_node_ok v n : json_ok v → dec_node v = Some n → node_ok n.
Proof.
  intros Hv (Hi & Ht & Hc & Ho & Hd & Hb & Hr & Hg)%dec_node_parts. split.
  - revert Hi. apply (required_inv _ (λ s, id_ok s = true)). intros [| | | |s| |] t Hs; try done. simpl in Hs.
    destruct (id_ok s) eqn:E; [|done]. by injection Hs as <-.
  - revert Ht. apply (required_inv _ nonempty). intros y s. apply z_string_inv.
  - revert Hc. apply (with_default_inv z_count (λ k, (0 <= k <= 9007199254740991)%Z)); [lia|]. intros y j Hj. unfold z_count in Hj.
    destruct (whole_number y) as [k|]; [cbn [mbind option_bind] in Hj|done]. destruct ((0 <=? k)%Z && (k <=? 9007199254740991)%Z) eqn:E; [|done]. injection Hj as <-. bool_to_prop. lia.
  - revert Ho. apply with_default_inv; [constructor|]. intros y l. apply z_array_inv. intros x s. apply z_string_inv.
  - revert Hd. apply with_default_inv; [constructor|]. intros y l. apply z_array_inv, dec_decision_ok.
  - revert Hb. apply with_default_inv; [constructor|]. intros y l. apply z_array_inv. intros x s. apply z_string_inv.
  - unfold with_default in Hr. destruct (field _ v) as [y|] eqn:Ef; [|by injection Hr as <-]. injection Hr as <-.
    destruct v as [| | | | | |kvs]; try done. apply json_ok_obj in Hv as [_ Hv]. by eapply assoc_ok.
  - revert Hg. apply optional_inv, decoded_binding_ok.
Qed.

(** The properties of a file are an object. *)
Lemma set_key_ok k v l : json_ok v → json_ok (JObj l) → json_ok (JObj (set_key k v l)).
Proof.
  intros Hv [Hn Hl]%json_ok_obj. apply json_ok_obj. split; [by apply set_key_keys|by apply set_key_values].
Qed.
Lemma parse_lines_ok lines out l : json_ok (JObj out) → parse_lines lines out = Some l → json_ok (JObj l).
Proof.
  revert out. induction lines as [|line lines IH]; intros out Ho; [by intros [= <-]|]. cbn [parse_lines].
  destruct (parse_line line out) as [out'|] eqn:E; [|done]. apply IH. clear IH. unfold parse_line in E.
  case_bool_decide; [by injection E as <-|]. destruct (indexOf _ _); [|done]. cbn [mbind option_bind] in E.
  destruct (parse _) as [v|] eqn:Ep; [|done]. injection E as <-. apply set_key_ok; [by eapply parse_ok|done].
Qed.
Lemma spread_ok l l' : json_ok (JObj l) → json_ok (JObj l') → json_ok (JObj (spread l l')).
Proof.
  intros Hl [_ Hl']%json_ok_obj. revert l Hl. unfold spread. induction Hl' as [|kv l' Hx _ IH]; intros l Hl; [done|]. by apply IH, set_key_ok.
Qed.

(** C28. A node that is read from a file is well formed, whatever the file holds:
    its name has the form of a file name, its counter is a safe integer, and its
    lists hold what the schema wants; written again and read, it is the same. *)
Theorem freerun_read_ok (text : jsstr) (n : ContextNode) :
  deserialize text = Some n → node_ok n ∧ dec_node (enc_node n) = Some n.
Proof.
  unfold deserialize. intros H. destruct (splitSections text) as [[[fm b] st]|]; [|done]. cbn [mbind option_bind fst snd] in H.
  destruct (parseFrontmatter fm) as [l|] eqn:Ef; [|done]. cbn [mbind option_bind] in H.
  destruct (parseStateBlock st) as [l'|] eqn:Es; [|done]. cbn [mbind option_bind] in H.
  assert (Hn : node_ok n); [|by split; [|apply dec_enc_node]]. eapply dec_node_ok, H.
  apply set_key_ok; [done|]. apply spread_ok; [|].
  - eapply parse_lines_ok, Ef. split; [apply NoDup_nil_2|done].
  - unfold parseStateBlock in Es. destruct (parse st) as [v|] eqn:Ep; [|done]. apply parse_ok in Ep. destruct v; by simplify_eq/=.
Qed.
Lemma freerun_read_ok_witness :
  bool_decide (is_Some (serialize demo_node ≫= deserialize)) = true ∧ node_ok (stored demo_node).
Proof.
  split; [by vm_compute|]. destruct (serialize_deserialize demo_node (proj1 demo_node_ok) (proj2 demo_node_ok)) as (text & _ & Hd).
  apply (freerun_read_ok text (stored demo_node) Hd).
Defined.
