(* ===== verification/FreerunTree.v ===== *)
(** The freerun tree in memory ([freerun/storage/tree.ts],
    [freerun/policy/pick-next.ts]): traversals, relations and the choice of the
    next node.

    The loops take the number of iterations they need as fuel, computed from the
    tree, and are [None] on a tree whose nodes have cycles, where the code does
    not return.  A child has a longer name than its parent in every tree that
    the engine builds, so there are none ([graded]). *)

From S2P Require Import Prelude JsString Json FreerunNode.
Open Scope nat_scope.

Record Snapshot := Snap { byId : gmap jsstr ContextNode; rootId : jsstr }.

Section Tree.
Context (m : gmap jsstr ContextNode).

(** ** Traversal *)

Definition children_at (i : jsstr) : list jsstr := match m !! i with Some n => children_ids n | None => [] end.

(** The loop of [walkDFS]: the head of the list is the top of the stack. *)
Fixpoint dfs_loop (fuel : nat) (stack : list jsstr) : option (list ContextNode) :=
  match stack with
  | [] => Some []
  | i :: rest =>
      match fuel with
      | O => None
      | S fuel =>
          match m !! i with
          | None => dfs_loop fuel rest
          | Some node => cons node <$> dfs_loop fuel (children_ids node ++ rest)
          end
      end
  end.

(** The loop of [walkBFS]. *)
Fixpoint bfs_loop (fuel : nat) (queue : list (jsstr * nat)) : option (list (ContextNode * nat)) :=
  match queue with
  | [] => Some []
  | (i, depth) :: rest =>
      match fuel with
      | O => None
      | S fuel =>
          match m !! i with
          | None => bfs_loop fuel rest
          | Some node => cons (node, depth) <$> bfs_loop fuel (rest ++ map (λ c, (c, S depth)) (children_ids node))
          end
      end
  end.

(** How often the loops run: once for every name they meet below [i]. *)
Fixpoint visits (d : nat) (i : jsstr) : nat :=
  match d with
  | O => 1
  | S d => S (foldr (λ c n, visits d c + n) 0 (children_at i))
  end.
Definition walkDFS (from : jsstr) : option (list ContextNode) := dfs_loop (visits (size m) from) [from].
Definition walkBFS (from : jsstr) : option (list (ContextNode * nat)) := bfs_loop (visits (size m) from) [(from, 0)].

(** ** Relations *)

(** The parents of [i], nearest first; the chain ends where a parent is missing. *)
Fixpoint ancestors_loop (fuel : nat) (cur : ContextNode) : option (list ContextNode) :=
  match parent_id cur with
  | None => Some []
  | Some p =>
      match m !! p with
      | None => Some []
      | Some parent => match fuel with O => None | S fuel => cons parent <$> ancestors_loop fuel parent end
      end
  end.
(** [None] inside is an exception: the node, or a parent, is missing. *)
Definition ancestors (i : jsstr) : option (option (list ContextNode)) :=
  match m !! i with None => Some None | Some n => Some <$> ancestors_loop (size m) n end.
Fixpoint depth_loop (fuel : nat) (cur : ContextNode) (d : nat) : option (option nat) :=
  match parent_id cur with
  | None => Some (Some d)
  | Some p =>
      match m !! p with
      | None => Some None
      | Some parent => match fuel with O => None | S fuel => depth_loop fuel parent (S d) end
      end
  end.
Definition depthOf (i : jsstr) : option (option nat) :=
  match m !! i with None => Some None | Some n => depth_loop (size m) n 0 end.
Definition present (ids : list jsstr) : list ContextNode := omap (λ c, m !! c) ids.
Definition siblings (i : jsstr) : option (list ContextNode) :=
  node ← m !! i;
  Some match parent_id node with
       | None => []
       | Some p =>
           match m !! p with
           | None => []
           | Some parent => present (filter (λ s, s ≠ i) (children_ids parent))
           end
       end.
Definition children (i : jsstr) : option (list ContextNode) := node ← m !! i; Some (present (children_ids node)).

(** ** Queries by mode *)

Definition isActionable (node : ContextNode) : bool :=
  match mode node with PendingPlan | PendingExec | Doing => true | _ => false end.
Definition isSubtreeComplete (i : jsstr) : option bool :=
  (λ l, negb (existsb isActionable l)) <$> walkDFS i.
Definition findByMode (root : jsstr) (md : NodeMode) : option (list ContextNode) :=
  filter (λ n, mode n = md) <$> walkDFS root.

(** The search for the shallowest node to plan: it stops below the levels to
    plan, and at a root that is to be planned. *)
Fixpoint best_plan (topLevelsToPlan : nat) (l : list (ContextNode * nat)) (best : option (ContextNode * nat))
    : option (ContextNode * nat) :=
  match l with
  | [] => best
  | (node, depth) :: rest =>
      if Nat.ltb topLevelsToPlan depth then best
      else if bool_decide (mode node = PendingPlan) then
        if match best with None => true | Some b => Nat.ltb depth b.2 end then
          if Nat.eqb depth 0 then Some (node, depth) else best_plan topLevelsToPlan rest (Some (node, depth))
        else best_plan topLevelsToPlan rest best
      else best_plan topLevelsToPlan rest best
  end.
(** [None]: the code does not return; [Some None]: everything is settled. *)
Definition pickNext (root : jsstr) (topLevelsToPlan : nat) : option (option ContextNode) :=
  b ← walkBFS root;
  match best_plan topLevelsToPlan b None with
  | Some (node, _) => Some (Some node)
  | None => l ← walkDFS root; Some (find isActionable l)
  end.

(** ** Traversals terminate *)

(** The nodes below [i] down to [d] levels, in preorder. *)
Fixpoint preorder (d : nat) (i : jsstr) : list ContextNode :=
  match d, m !! i with
  | S d, Some n => n :: flat_map (preorder d) (children_ids n)
  | _, _ => []
  end.

(** [d] levels reach every node below [i]. *)
Fixpoint deep (d : nat) (i : jsstr) : Prop :=
  match m !! i with
  | None => True
  | Some n => match d with O => False | S d => Forall (deep d) (children_ids n) end
  end.

Lemma dfs_loop_deep d i fuel rest : deep d i →
  dfs_loop (visits d i + fuel) (i :: rest) = app (preorder d i) <$> dfs_loop fuel rest.
Proof.
  revert i fuel rest. induction d as [|d IH]; intros i fuel rest Hd.
  - simpl in *. destruct (m !! i) as [n|]; [done|]. by destruct (dfs_loop fuel rest).
  - cbn [visits preorder deep] in *. unfold children_at. cbn [Nat.add dfs_loop]. destruct (m !! i) as [n|]; cbn [foldr].
    + assert (H : ∀ cs, Forall (deep d) cs → dfs_loop (foldr (λ c k, visits d c + k) 0 cs + fuel) (cs ++ rest) =
        app (flat_map (preorder d) cs) <$> dfs_loop fuel rest); [|rewrite H by done; by destruct (dfs_loop fuel rest)].
      induction 1 as [|c cs Hc Hcs IHcs]; [simpl; by destruct (dfs_loop fuel rest)|]. simpl.
      rewrite <- Nat.add_assoc, IH, IHcs by done. destruct (dfs_loop fuel rest); simpl; [by rewrite app_assoc|done].
    + simpl. by destruct (dfs_loop fuel rest).
Qed.

Definition graded : Prop := ∀ i n c, m !! i = Some n → c ∈ children_ids n → length i < length c.

Lemma graded_deep : graded → ∀ d i, size (filter (λ kv : jsstr * ContextNode, length i ≤ length kv.1) m) ≤ d → deep d i.
Proof.
  intros Hg. induction d as [|d IH]; intros i Hd; simpl; destruct (m !! i) as [n|] eqn:Ei; try done.
  - assert (Hin : filter (λ kv : jsstr * ContextNode, length i ≤ length kv.1) m !! i = Some n) by (by apply map_lookup_filter_Some).
    assert (Hz : filter (λ kv : jsstr * ContextNode, length i ≤ length kv.1) m = ∅) by (apply map_size_empty_iff; lia).
    rewrite Hz in Hin. by rewrite lookup_empty in Hin.
  - apply Forall_forall. intros c Hc. apply IH. pose proof (Hg i n c Ei Hc) as Hlen.
    assert (Hsub : filter (λ kv : jsstr * ContextNode, length c ≤ length kv.1) m ⊂
      filter (λ kv : jsstr * ContextNode, length i ≤ length kv.1) m).
    { apply map_subset_alt. split.
      - apply map_subseteq_spec. intros k x [Hk Hl]%map_lookup_filter_Some. apply map_lookup_filter_Some. simpl in *. split; [done|lia].
      - exists i. split; [|exists n; by apply map_lookup_filter_Some].
        apply map_lookup_filter_None. right. intros x Hx. simpl. lia. }
    apply map_subset_size in Hsub. lia.
Qed.
Lemma graded_deep_size i : graded → deep (size m) i.
Proof. intros Hg. apply graded_deep; [done|]. apply map_subseteq_size, map_filter_subseteq. Qed.

Lemma walkDFS_graded i : graded → walkDFS i = Some (preorder (size m) i).
Proof.
  intros Hg. unfold walkDFS. pose proof (dfs_loop_deep (size m) i 0 [] (graded_deep_size i Hg)) as H.
  rewrite Nat.add_0_r in H. rewrite H. simpl. by rewrite app_nil_r.
Qed.

(** ** What is visited *)

Inductive below : jsstr → jsstr → Prop :=
| below_refl i : below i i
| below_step i n c j : m !! i = Some n → c ∈ children_ids n → below c j → below i j.

Lemma elem_of_preorder d i n : deep d i → n ∈ preorder d i ↔ ∃ j, below i j ∧ m !! j = Some n.
Proof.
  revert i. induction d as [|d IH]; intros i Hd; simpl in Hd.
  - destruct (m !! i) eqn:Ei; [done|]. simpl. split; [intros ?; no_member|]. intros (j & Hb & Hj). inversion Hb; subst; congruence.
  - simpl. destruct (m !! i) as [x|] eqn:Ei.
    + rewrite elem_of_cons, elem_of_flat_map. rewrite Forall_forall in Hd. split.
      * intros [->|(c & Hc & Hn)]; [exists i; by split; [constructor|]|]. apply IH in Hn as (j & Hb & Hj); [|by apply Hd].
        exists j. split; [|done]. by eapply below_step.
      * intros (j & Hb & Hj). inversion Hb as [|? x' c ? Hx Hc Hb']; subst; [left; congruence|]. right.
        assert (x' = x) as -> by congruence. exists c. split; [done|]. apply IH; [by apply Hd|]. by exists j.
    + split; [intros ?; no_member|]. intros (j & Hb & Hj). inversion Hb; subst; congruence.
Qed.

(** The names at a depth, and the nodes. *)
Definition below_all (ids : list jsstr) : list jsstr := flat_map children_at ids.
Fixpoint level_ids (k : nat) (ids : list jsstr) : list jsstr :=
  match k with O => ids | S k => level_ids k (below_all ids) end.
Definition level (k : nat) (i : jsstr) : list ContextNode := present (level_ids k [i]).
Fixpoint levels (d k : nat) (ids : list jsstr) : list (ContextNode * nat) :=
  match d with O => [] | S d => map (λ n, (n, k)) (present ids) ++ levels d (S k) (below_all ids) end.

Definition visits_all (d : nat) (ids : list jsstr) : nat := foldr (λ c n, visits d c + n) 0 ids.
Lemma visits_all_app d a b : visits_all d (a ++ b) = visits_all d a + visits_all d b.
Proof. unfold visits_all. induction a as [|x a IH]; [done|]. simpl. lia. Qed.
Lemma visits_all_S d ids : visits_all (S d) ids = length ids + visits_all d (below_all ids).
Proof.
  induction ids as [|i ids IH]; [done|]. unfold below_all in *. cbn [flat_map]. rewrite visits_all_app.
  change (visits_all (S d) (i :: ids)) with (S (visits_all d (children_at i)) + visits_all (S d) ids). simpl length. lia.
Qed.
Lemma visits_all_O ids : visits_all 0 ids = length ids.
Proof. induction ids as [|i ids IH]; [done|]. simpl. by rewrite <- IH. Qed.

Lemma bfs_level k ids rest fuel :
  bfs_loop (length ids + fuel) (map (λ i, (i, k)) ids ++ map (λ i, (i, S k)) rest) =
  app (map (λ n, (n, k)) (present ids)) <$> bfs_loop fuel (map (λ i, (i, S k)) (rest ++ below_all ids)).
Proof.
  revert rest. induction ids as [|i ids IH]; intros rest.
  - unfold below_all. simpl. rewrite app_nil_r. by destruct (bfs_loop _ _).
  - unfold below_all in *. cbn [length Nat.add map app bfs_loop flat_map]. unfold present, children_at at 1. cbn [omap list_omap].
    destruct (m !! i) as [n|].
    + rewrite <- app_assoc, <- map_app, IH, app_assoc. by destruct (bfs_loop _ _).
    + rewrite IH. done.
Qed.
Lemma deep_below d ids : Forall (deep (S d)) ids → Forall (deep d) (below_all ids).
Proof.
  induction 1 as [|i ids Hi Hids IH]; [constructor|]. unfold below_all, children_at. simpl. apply Forall_app. split; [|done].
  simpl in Hi. by destruct (m !! i).
Qed.
Lemma deep_O_present ids : Forall (deep 0) ids → present ids = [] ∧ below_all ids = [].
Proof.
  induction 1 as [|i ids Hi _ [IH1 IH2]]; [done|]. simpl in Hi.
  change (present (i :: ids)) with (match m !! i with Some n => n :: present ids | None => present ids end).
  change (below_all (i :: ids)) with (children_at i ++ below_all ids). unfold children_at.
  destruct (m !! i); [done|]. by rewrite IH1, IH2.
Qed.
Lemma bfs_loop_deep d k ids : Forall (deep d) ids → bfs_loop (visits_all d ids) (map (λ i, (i, k)) ids) = Some (levels d k ids).
Proof.
  revert k ids. induction d as [|d IH]; intros k ids Hd.
  - pose proof (bfs_level k ids [] 0) as H. rewrite app_nil_r, Nat.add_0_r in H. rewrite visits_all_O, H.
    destruct (deep_O_present ids Hd) as [-> ->]. done.
  - pose proof (bfs_level k ids [] (visits_all d (below_all ids))) as H. rewrite app_nil_r in H. rewrite visits_all_S, H.
    rewrite IH by (by apply deep_below). done.
Qed.
Lemma walkBFS_graded i : graded → walkBFS i = Some (levels (size m) 0 [i]).
Proof.
  intros Hg. unfold walkBFS. pose proof (bfs_loop_deep (size m) 0 [i]) as H. unfold visits_all in H. simpl foldr in H.
  rewrite Nat.add_0_r in H. apply H. constructor; [by apply graded_deep_size|constructor].
Qed.

(** ** The next node *)

Definition to_plan (n : ContextNode) : bool := bool_decide (mode n = PendingPlan).

Lemma best_plan_kept N l b : Forall (λ x, b.2 ≤ x.2) l → best_plan N l (Some b) = Some b.
Proof.
  induction 1 as [|[x k] l Hx Hl IH]; [done|]. simpl. destruct (Nat.ltb_spec N k); [done|].
  case_bool_decide; [|done]. simpl in Hx. by rewrite (proj2 (Nat.ltb_ge k b.2)).
Qed.
Lemma best_plan_level N k ns rest :
  k ≤ N → Forall (λ x, k ≤ x.2) rest →
  best_plan N (map (λ n, (n, k)) ns ++ rest) None =
  match find to_plan ns with Some n => Some (n, k) | None => best_plan N rest None end.
Proof.
  intros Hk Hr. induction ns as [|n ns IH]; [done|]. simpl. rewrite (proj2 (Nat.ltb_ge N k)) by lia. unfold to_plan at 1.
  case_bool_decide as Hm; [|done]. destruct (Nat.eqb_spec k 0); [done|]. apply best_plan_kept, Forall_app. split; [|done].
  apply Forall_map, Forall_forall. done.
Qed.
Lemma best_plan_deep N rest : Forall (λ x, N < x.2) rest → best_plan N rest None = None.
Proof. destruct 1 as [|[x k] l Hx _]; [done|]. simpl in *. by rewrite (proj2 (Nat.ltb_lt N k)). Qed.
Lemma levels_depth d k ids : Forall (λ x, k ≤ x.2) (levels d k ids).
Proof.
  revert k ids. induction d as [|d IH]; intros k ids; [constructor|]. simpl. apply Forall_app. split.
  - apply Forall_map, Forall_forall. done.
  - eapply Forall_impl; [apply IH|]. simpl. lia.
Qed.

Lemma level_ids_S k ids : level_ids (S k) ids = level_ids k (below_all ids).
Proof. done. Qed.
Lemma level_deep d k ids : Forall (deep d) ids → d ≤ k → present (level_ids k ids) = [].
Proof.
  revert k ids. induction d as [|d IH]; intros k ids Hd Hk.
  - clear Hk. revert ids Hd. induction k as [|k IHk]; intros ids Hd; simpl; destruct (deep_O_present ids Hd) as [Hp Hb]; [done|].
    apply IHk. by rewrite Hb.
  - destruct k as [|k]; [lia|]. simpl. apply IH; [by apply deep_below|lia].
Qed.

(** The first node to plan on the first level that has one, down to level [N]. *)
Lemma best_plan_levels N d k ids : Forall (deep d) ids → 
  match best_plan N (levels d k ids) None with
  | Some (n, j) => k ≤ j ≤ N ∧ find to_plan (present (level_ids (j - k) ids)) = Some n ∧
      ∀ i, i < j - k → find to_plan (present (level_ids i ids)) = None
  | None => ∀ i, k + i ≤ N → find to_plan (present (level_ids i ids)) = None
  end.
Proof.
  revert k ids. induction d as [|d IH]; intros k ids Hd.
  - simpl. intros i _. by rewrite (level_deep 0) by (done || lia).
  - simpl. destruct (decide (k ≤ N)) as [Hk|Hk].
    2: { rewrite best_plan_deep; [intros; lia|]. apply Forall_app. split; [apply Forall_map, Forall_forall; simpl; lia|].
         eapply Forall_impl; [apply levels_depth|]. simpl. lia. }
    rewrite best_plan_level; [|done|eapply Forall_impl; [apply levels_depth|simpl; lia]].
    destruct (find to_plan (present ids)) as [n|] eqn:Ef.
    + rewrite Nat.sub_diag. split; [lia|]. split; [done|]. intros; lia.
    + specialize (IH (S k) (below_all ids) (deep_below _ _ Hd)). destruct (best_plan _ _ _) as [[n j]|].
      * destruct IH as (Hj & Hn & Hi). replace (j - k) with (S (j - S k)) by lia. split; [lia|]. split; [done|].
        intros [|i] Hlt; [done|]. apply Hi. lia.
      * intros [|i] Hi; [done|]. apply (IH i). lia.
Qed.

(** The next node: the leftmost node to plan on the shallowest level that
    has one, not deeper than the levels to plan; without one the first node in
    preorder that has work left; nothing exactly when no node of the tree has. *)
Theorem freerun_pick_next (root : jsstr) (N : nat) :
  graded →
  match pickNext root N with
  | None => False
  | Some (Some n) =>
      (∃ k, k ≤ N ∧ find to_plan (level k root) = Some n ∧ ∀ j, j < k → find to_plan (level j root) = None) ∨
      ((∀ j, j ≤ N → find to_plan (level j root) = None) ∧ find isActionable (preorder (size m) root) = Some n)
  | Some None => ∀ j n, below root j → m !! j = Some n → isActionable n = false
  end.
Proof.
  intros Hg. unfold pickNext. rewrite walkBFS_graded by done. cbn [mbind option_bind].
  pose proof (best_plan_levels N (size m) 0 [root]) as H.
  destruct (best_plan _ _ _) as [[n k]|].
  - left. destruct H as (Hk & Hn & Hi); [constructor; [by apply graded_deep_size|constructor]|].
    rewrite Nat.sub_0_r in Hn, Hi. exists k. split; [lia|]. by split.
  - rewrite walkDFS_graded by done. cbn [mbind option_bind].
    assert (Hno : ∀ j, j ≤ N → find to_plan (level j root) = None).
    { intros j Hj. apply H; [constructor; [by apply graded_deep_size|constructor]|lia]. }
    destruct (find isActionable _) as [n|] eqn:Ef; [by right|].
    intros j n Hb Hj. rewrite find_None in Ef. apply Ef, elem_of_preorder; [by apply graded_deep_size|]. by exists j.
Qed.
End Tree.

Definition demo_at (i : string) (p : option string) (cs : list string) (md : NodeMode) : jsstr * ContextNode :=
  (js i, Node (js i) (js <$> p) (map js cs) (js "t") [] md [] 0 None [] [] [] JNull [] None None None None).
Definition demo_map : gmap jsstr ContextNode :=
  list_to_map [demo_at "root" None ["root.a"; "root.b"] Decomposed; demo_at "root.a" (Some "root") [] PendingExec;
               demo_at "root.b" (Some "root") [] PendingPlan].
(** [graded], as a test. *)
Definition graded_b (m : gmap jsstr ContextNode) : bool :=
  forallb (λ kv, forallb (λ c, Nat.ltb (length kv.1) (length c)) (children_ids kv.2)) (map_to_list m).
Lemma graded_b_ok m : graded_b m = true → graded m.
Proof.
  unfold graded_b. rewrite forallb_forall. intros H i n c Hi Hc. apply elem_of_map_to_list in Hi.
  rewrite list_elem_of_In in Hi. apply H in Hi. rewrite forallb_forall in Hi. rewrite list_elem_of_In in Hc.
  apply Hi, Nat.ltb_lt in Hc. done.
Qed.
Lemma demo_map_graded : graded demo_map.
Proof. apply graded_b_ok. by vm_compute. Qed.
Lemma freerun_pick_next_witness :
  match pickNext demo_map (js "root") 3 with None => False | Some _ => True end ∧
  bool_decide (id <$> mjoin (pickNext demo_map (js "root") 3) = Some (js "root.b")) = true.
Proof.
  split; [|by vm_compute]. pose proof (freerun_pick_next demo_map (js "root") 3 demo_map_graded) as H.
  destruct (pickNext demo_map (js "root") 3); [exact I|exact H].
Defined.
