(* ===== verification/FreerunRender.v ===== *)
(** What an iteration shows the model ([freerun/render/navigation-band.ts],
    [node-detail.ts], [tool-filter.ts]). *)

From S2P Require Import Prelude JsString Json FreerunNode FreerunTree.
Open Scope nat_scope.

(** ** The navigation band *)

Inductive Policy := Full | ParentOnly | Minimal | Off.
Record RenderOptions := ROpts { policy : Policy; tokenBudget : nat }.
Record RenderResult := RResult { text : jsstr; approxTokens_ : nat; trimmed : bool }.

Definition CHARS_PER_TOKEN : nat := 4.
(** [Math.ceil(text.length / 4)] *)
Definition approxTokens (s : jsstr) : nat := (length s + 3) / CHARS_PER_TOKEN.

Definition EM_DASH : N := 8212%N.
Definition ELLIPSIS : N := 8230%N.
Definition ARROW : N := 8594%N.
Definition BULLET : N := 8226%N.

(** [text.slice(0, charBudget - 5) + "…\n"]: a negative end counts from the end. *)
Definition slice_to (s : jsstr) (stop : Z) : jsstr :=
  if (stop <? 0)%Z then take (length s - Z.to_nat (- stop)) s else take (Z.to_nat stop) s.
Definition hard_truncate (s : jsstr) (charBudget : nat) : jsstr :=
  slice_to s (Z.of_nat charBudget - 5) ++ [ELLIPSIS; newline].
Definition truncateIfOver (s : jsstr) (charBudget : nat) : jsstr * bool :=
  if Nat.leb (length s) charBudget then (s, false) else (hard_truncate s charBudget, true).

Definition clip (s : jsstr) (n : nat) : jsstr := if Nat.leb (length s) n then s else take (n - 1) s ++ [ELLIPSIS].

(** [s.replace(/\n+/g, " ")] *)
Fixpoint join_lines (inside : bool) (s : jsstr) : jsstr :=
  match s with
  | [] => []
  | c :: s' =>
      if (c =? newline)%N then (if inside then join_lines true s' else 32%N :: join_lines true s')
      else c :: join_lines false s'
  end.
Definition binding_source (b : GoalBinding) : jsstr :=
  match b with ConversationGoal _ => js "conversation-goal" | PlanTask _ _ _ _ => js "plan-task" end.

Definition formatGoalSection (root : ContextNode) (titleOnly : bool) : jsstr :=
  join nl ([js "# Goal (root)"; title root] ++
    match goal_binding root with
    | Some b => (js "source: " ++ binding_source b) ::
        match b with PlanTask slug tid _ _ => [js "plan_task: " ++ slug ++ js "#" ++ tid] | _ => [] end
    | None => []
    end ++
    if negb titleOnly && Nat.ltb 0 (length (body root)) then [[]; body root] else []).

Definition path_line (total idx : nat) (node : ContextNode) : jsstr :=
  concat (replicate idx (js "  ")) ++ [if Nat.eqb idx (total - 1) then ARROW else BULLET; 32%N] ++ title node.
Definition formatPathSection (chain : list ContextNode) : jsstr :=
  join nl (js "# Path to current node" :: imap (path_line (length chain)) chain).

Definition pickSiblingSummary (node : ContextNode) (minimal : bool) : jsstr :=
  match consolidated_summary node with
  | Some (c :: s) => clip (c :: s) (if minimal then 80 else 200)
  | _ =>
      if Nat.ltb 0 (length (next_intent node)) then clip (next_intent node) (if minimal then 60 else 140)
      else if Nat.ltb 0 (length (body node)) then clip (join_lines false (body node)) (if minimal then 60 else 140)
      else []
  end.
Definition sibling_line (minimal : bool) (s : ContextNode) : jsstr :=
  let summary := pickSiblingSummary s minimal in
  js "- [" ++ mode_name (mode s) ++ js "] " ++ title s ++
  (if Nat.ltb 0 (length summary) then [32%N; EM_DASH; 32%N] ++ summary else []).
Definition formatSiblingsSection (siblings : list ContextNode) (minimal : bool) : jsstr :=
  join nl (js "# Siblings" :: map (sibling_line minimal) siblings).

Definition assemble (sections : list jsstr) : jsstr := join (nl ++ nl) sections ++ nl.

(** The band of a goal, a path and the siblings, within the budget: shorter
    summaries, then no body of the goal, then a cut. *)
Definition fit (pol : Policy) (root : ContextNode) (path : jsstr) (sibs : list ContextNode) (charBudget : nat) : jsstr * bool :=
  let withSibs := match pol, sibs with Full, _ :: _ => true | _, _ => false end in
  let tail0 := if withSibs then [formatSiblingsSection sibs false] else [] in
  let tail1 := if withSibs then [formatSiblingsSection sibs true] else [] in
  let text0 := assemble (formatGoalSection root false :: path :: tail0) in
  let over0 := Nat.ltb charBudget (length text0) && withSibs in
  let tail := if over0 then tail1 else tail0 in
  let text1 := assemble (formatGoalSection root false :: path :: tail) in
  if Nat.ltb charBudget (length text1) then
    let text2 := assemble (formatGoalSection root true :: path :: tail) in
    if Nat.ltb charBudget (length text2) then (hard_truncate text2 charBudget, true) else (text2, true)
  else (text1, over0).

(** [render]: outside [None] the code does not return, inside it throws. *)
Definition render (tree : Snapshot) (currentNodeId : jsstr) (opts : RenderOptions) : option (option RenderResult) :=
  match policy opts with
  | Off => Some (Some (RResult [] 0 false))
  | pol =>
      let m := byId tree in
      match m !! rootId tree, m !! currentNodeId with
      | Some root, Some current =>
          let charBudget := tokenBudget opts * CHARS_PER_TOKEN in
          let finish (r : jsstr * bool) := RResult r.1 (approxTokens r.1) r.2 in
          match pol with
          | Minimal =>
              let parent := p ← parent_id current; m !! p in
              let parts :=
                [js "# Goal"; title root; [];
                 match parent with None => js "# Current node" | Some _ => js "# Parent " ++ [ARROW] ++ js " Current" end;
                 match parent with None => title current | Some p => title p ++ [32%N; ARROW; 32%N] ++ title current end; []] in
              Some (Some (finish (truncateIfOver (join nl parts) charBudget)))
          | _ =>
              chain ← ancestors m currentNodeId;
              Some (up ← chain;
                    sibs ← siblings m currentNodeId;
                    Some (finish (fit pol root (formatPathSection (reverse up ++ [current])) sibs charBudget)))
          end
      | _, _ => Some None
      end
  end.

(** ** The current node *)

Definition section (heading : string) (lines : list jsstr) : list jsstr := js heading :: lines ++ [[]].
Definition detail_lines (node : ContextNode) : list jsstr :=
  [js "# Current node"; js "**id**: `" ++ id node ++ js "`"; js "**title**: " ++ title node;
   js "**mode**: `" ++ mode_name (mode node) ++ js "`"; js "**iteration_count**: " ++ show_Z (iteration_count node)] ++
  match goal_binding node with
  | Some b => (js "**goal_source**: " ++ binding_source b) ::
      match b with PlanTask slug tid _ _ => [js "**plan_task**: " ++ slug ++ js "#" ++ tid] | _ => [] end
  | None => []
  end ++
  match relevant_tools node with Some (t :: ts) => [js "**relevant_tools**: " ++ join (js ", ") (t :: ts)] | _ => [] end ++
  match relevant_skills node with Some (t :: ts) => [js "**relevant_skills**: " ++ join (js ", ") (t :: ts)] | _ => [] end ++
  [[]] ++
  match body node with [] => [] | b => section "## Description" [b] end ++
  match observations node with [] => [] | l => section "## Observations" (map (λ o, js "- " ++ o) l) end ++
  match decisions node with
  | [] => []
  | l => section "## Decisions" (flat_map (λ d, [js "- **" ++ decision d ++ js "**"; js "  - rationale: " ++ rationale d]) l)
  end ++
  match blockers node with [] => [] | l => section "## Blockers" (map (λ o, js "- " ++ o) l) end ++
  match results node with JNull => [] | r => section "## Results" [js "```json"; stringify_pretty r; js "```"] end ++
  match next_intent node with [] => [] | t => section "## Last iteration's next_intent" [t] end ++
  match consolidated_summary node with
  | Some (c :: s) => section "## Consolidated summary (post-consolidation)" [c :: s]
  | _ => []
  end.
Definition render_detail (node : ContextNode) : jsstr := trimEnd (join nl (detail_lines node)) ++ nl.

(** ** Tools *)

Record ToolRecord := Tool { tool_name : jsstr; tool_schema : jsstr }.
Record FilterResult := FResult { tools : list ToolRecord; suppressAll : bool; unknown : list jsstr }.
(** A later tool of the same name replaces an earlier one. *)
Definition catalogByName (catalog : list ToolRecord) : gmap jsstr ToolRecord :=
  foldl (λ c t, <[tool_name t := t]> c) ∅ catalog.
Definition filter_tools (catalog : list ToolRecord) (relevantTools : option (list jsstr)) : FilterResult :=
  match relevantTools with
  | None => FResult catalog false []
  | Some [] => FResult [] true []
  | Some names =>
      let c := catalogByName catalog in
      FResult (omap (λ n, c !! n) names) false (filter (λ n, c !! n = None) names)
  end.

(** ** The budget *)

Lemma hard_truncate_length s B : 5 ≤ B → B < length s → length (hard_truncate s B) ≤ B.
Proof.
  intros HB Hs. unfold hard_truncate, slice_to. rewrite (proj2 (Z.ltb_ge _ _)) by lia.
  rewrite length_app, length_take. simpl. lia.
Qed.
Lemma fit_length pol root path sibs B : 5 ≤ B → length (fit pol root path sibs B).1 ≤ B.
Proof.
  intros HB. unfold fit. cbv zeta. set (w := match pol, sibs with Full, _ :: _ => true | _, _ => false end).
  match goal with |- context [if Nat.ltb B ?x then _ else (?t, _)] => destruct (Nat.ltb_spec B x); [|done] end.
  match goal with |- context [Nat.ltb B ?x] => destruct (Nat.ltb_spec B x); [|done] end. by apply hard_truncate_length.
Qed.
Lemma approxTokens_le s n : length s ≤ n * CHARS_PER_TOKEN → approxTokens s ≤ n.
Proof. unfold approxTokens, CHARS_PER_TOKEN. intros H. apply Nat.lt_succ_r, Nat.Div0.div_lt_upper_bound. lia. Qed.

(** The navigation band keeps its budget: with a budget of at least two
    tokens the text has at most four units per token, under every policy, and
    the tokens reported are within the budget. *)
Theorem freerun_band_budget (tree : Snapshot) (current : jsstr) (opts : RenderOptions) (r : RenderResult) :
  2 ≤ tokenBudget opts → render tree current opts = Some (Some r) →
  length (text r) ≤ tokenBudget opts * 4 ∧ approxTokens_ r ≤ tokenBudget opts.
Proof.
  intros HB. assert (H5 : 5 ≤ tokenBudget opts * CHARS_PER_TOKEN) by (unfold CHARS_PER_TOKEN; lia).
  assert (Hfin : ∀ p : jsstr * bool, length p.1 ≤ tokenBudget opts * CHARS_PER_TOKEN →
    length (text (RResult p.1 (approxTokens p.1) p.2)) ≤ tokenBudget opts * 4 ∧
    approxTokens_ (RResult p.1 (approxTokens p.1) p.2) ≤ tokenBudget opts).
  { intros p Hp. simpl. split; [done|]. by apply approxTokens_le. }
  unfold render. destruct (policy opts).
  - destruct (byId tree !! rootId tree); [|done]. destruct (byId tree !! current); [|done].
    destruct (ancestors _ _) as [[up|]|]; [|done|done]. simpl. destruct (siblings _ _); [|done]. simpl. intros [= <-].
    apply (Hfin (fit _ _ _ _ _)). by apply fit_length.
  - destruct (byId tree !! rootId tree); [|done]. destruct (byId tree !! current); [|done].
    destruct (ancestors _ _) as [[up|]|]; [|done|done]. simpl. destruct (siblings _ _); [|done]. simpl. intros [= <-].
    apply (Hfin (fit _ _ _ _ _)). by apply fit_length.
  - destruct (byId tree !! rootId tree); [|done]. destruct (byId tree !! current); [|done]. intros [= <-].
    apply (Hfin (truncateIfOver _ _)). unfold truncateIfOver.
    match goal with |- context [Nat.leb ?x ?y] => destruct (Nat.leb_spec x y); [done|] end. by apply hard_truncate_length.
  - intros [= <-]. simpl. lia.
Qed.

Definition demo_root : ContextNode :=
  Node (js "root") None [] (js "A goal with a title") [] PendingPlan [] 0 None [] [] [] JNull [] None None None None.
Definition demo_tree : Snapshot := Snap {[ js "root" := demo_root ]} (js "root").
Lemma freerun_band_budget_witness :
  match render demo_tree (js "root") (ROpts Full 2) with Some (Some r) => length (text r) ≤ 8 | _ => False end.
Proof.
  destruct (render demo_tree (js "root") (ROpts Full 2)) as [[r|]|] eqn:E; [|by vm_compute in E|by vm_compute in E].
  apply (freerun_band_budget demo_tree (js "root") (ROpts Full 2) r); [simpl; lia|exact E].
Defined.

(** A budget of one token cuts one unit and adds two. *)
Example budget_of_one :
  match render demo_tree (js "root") (ROpts Full 1) with
  | Some (Some r) => (length (text r), approxTokens_ r)
  | _ => (0, 0)
  end = (81, 21).
Proof. by vm_compute. Qed.
