(* ===== verification/FreerunCheck.v ===== *)
(** Checks on what the model plans ([freerun/validation/no-meta-icom.ts]) and the
    reading of what it answers ([parseExecutionOutcome] of
    [freerun/runtime/iterate.ts]). *)

From S2P Require Import Prelude JsString Json Regex FreerunNode.
Open Scope nat_scope.

(** ** No Meta-ICOM *)

Definition bounded (l : list rx) : rx := rseq (RBound :: l ++ [RBound]).
Definition the_opt (s : string) : rx := ropt (rseq [rword s; spaces1]).
Definition META_PATTERNS : list (rx * jsstr) :=
  [(bounded [rwords "generate" ["create"; "produce"; "write"; "emit"; "update"; "maintain"; "prepare"]; spaces1;
             ropt (rseq [rword "a"; ropt (rword "n"); spaces1]); rword "icom"],
    js "ICOM is the commit protocol, not a child task");
   (bounded [RAlt (rseq [rword "context"; RStar is_space; rword "node"]) (rword "contextnode")],
    js "ContextNode is runtime state, not a domain child task");
   (bounded [rwords "planningoutcome" ["executionoutcome"]],
    js "Outcome objects are protocol outputs, not domain child tasks");
   (bounded [ralt (rseq [rword "json"; spaces1; rword "schema"])
               [rseq [rword "schema"; spaces1; rword "validation"]; rseq [rword "response"; spaces1; rword "schema"]]],
    js "Schema handling belongs to runtime validation");
   (bounded [ralt (rseq [rword "freerun"; spaces1; rword "state"])
               [rseq [rword "state"; spaces1; rword "update"]; rseq [rword "update"; spaces1; rword "state"];
                rseq [rword "persist"; spaces1; rword "state"]]],
    js "State persistence belongs to the runtime");
   (bounded [ralt (rword "update") [rseq [rword "check"; spaces1; rword "off"]; rword "tick"; rword "mark"]; spaces1;
             rword "tasks.md"],
    js "tasks.md completion is a plan sync side effect, not a child task");
   (bounded [RAlt (rseq [rword "plan"; ropt (rword "ning"); spaces1; the_opt "the"; rword "plan"])
                  (rseq [rword "decompose"; spaces1; the_opt "the"; rword "decomposition"])],
    js "Planning the plan is a meta-task loop");
   (bounded [ralt (rword "handover") [rword "runloop"; rseq [rword "runtime"; spaces1; rword "protocol"];
               rseq [rword "commit"; spaces1; rword "protocol"]]],
    js "Runtime protocol work must stay outside the domain task tree")].

Record Violation := Violation_ { childId : jsstr; v_reason : jsstr }.
Definition child_text (child : PlannedChild) : jsstr := c_title child ++ nl ++ c_body child.
Definition violation_of (child : PlannedChild) : option Violation :=
  (λ hit, Violation_ (c_id child) hit.2) <$> find (λ p, test p.1 (child_text child)) META_PATTERNS.
Definition validate (outcome : list PlannedChild) : list Violation := omap violation_of outcome.
(** [assertValid]: the message of the exception. *)
Definition assertValid (outcome : list PlannedChild) : option jsstr :=
  match validate outcome with
  | [] => None
  | vs => Some (js "planning outcome violates No Meta-ICOM invariant " ++ [8212; 32]%N ++
                join (js "; ") (map (λ v, childId v ++ js ": " ++ v_reason v) vs))
  end.

Example meta_found :
  map v_reason (validate [Child (js "a") (js "Create an  ICOM") [] None None None;
                          Child (js "b") (js "Plan") (js "the plan") None None None;
                          Child (js "c") (js "contextnodes") [] None None None]) =
  [js "ICOM is the commit protocol, not a child task"; js "Planning the plan is a meta-task loop"].
Proof. by vm_compute. Qed.

(** ** Reading an answer *)

(** The first fence and what follows it: an optional [json] in any case and
    white space; then the text up to the next fence. *)
Definition FENCE : jsstr := js "```".
Definition skip_tag (s : jsstr) : jsstr :=
  if bool_decide (asciiLower (take 4 s) = js "json") then drop 4 s else s.
Definition fenced (s : jsstr) : option jsstr :=
  k ← indexOf s FENCE;
  let inner := trimStart (skip_tag (drop (k + 3) s)) in
  stop ← indexOf inner FENCE;
  Some (trim (take stop inner)).
Fixpoint last_unit (c : N) (s : jsstr) : option nat :=
  match s with
  | [] => None
  | d :: s' => match last_unit c s' with Some i => Some (S i) | None => if (d =? c)%N then Some 0 else None end
  end.
Definition stripFencingAndPreamble (s : jsstr) : option jsstr :=
  match fenced s with
  | Some t => Some t
  | None =>
      start ← indexOf s (js "{"); stop ← last_unit 125%N s;
      if Nat.leb stop start then None else Some (trim (take (stop + 1 - start) (drop start s)))
  end.
Definition parseExecutionOutcome (content : jsstr) : option ExecutionOutcome :=
  trimmed ← stripFencingAndPreamble content; v ← parse trimmed; dec_execution v.

Definition quoted (s : string) : jsstr := quote (js s).
Example answer_fenced :
  o_next_mode <$> parseExecutionOutcome (js "Done: ```JSON" ++ nl ++ js "{" ++ quoted "next_mode" ++ js ": " ++ quoted "pending-plan" ++
    js "}" ++ nl ++ js "``` bye") = Some NextPlan.
Proof. by vm_compute. Qed.
Example answer_prose : o_next_mode <$> parseExecutionOutcome (js "so {} ok") = Some NextDone.
Proof. by vm_compute. Qed.
