(* ===== verification/FreerunEngine.v ===== *)
(** The freerun engine ([freerun/runtime/iterate.ts], [consolidate.ts],
    [engine.ts], [freerun/storage/meta-fs.ts], and [classify] and [seedRoot] of
    [session/freerun-bridge.ts]).

    The files of the tree are given by the class [NodeStore], whose laws
    ([NodeStoreLaws]) are what [NodeFS] promises; the model that is called is a
    record of functions of the iteration, the node and the texts it is shown.
    Telemetry is left out. *)

From S2P Require Import Prelude JsString Json FreerunNode FreerunTree FreerunRender FreerunCheck.
Open Scope nat_scope.

(** ** The store of nodes *)

Class NodeStore (fs : Type) := {
  ns_list : fs → list jsstr;
  ns_read : jsstr → fs → option ContextNode;
  ns_write : ContextNode → fs → option fs;
  ns_archive : jsstr → jsstr → fs → option fs     (* the stamp, then the node *)
}.

(** [content] and [archived] are the nodes of a store in which every file can
    be read. *)
Class NodeStoreLaws (fs : Type) `{NodeStore fs} := {
  consistent : fs → Prop;
  content : fs → gmap jsstr ContextNode;
  archived : fs → gmap (jsstr * jsstr) ContextNode;
  ns_list_spec s i : consistent s → i ∈ ns_list s ↔ is_Some (content s !! i);
  ns_list_nodup s : consistent s → NoDup (ns_list s);
  ns_read_spec s i : consistent s → ns_read i s = content s !! i;
  ns_write_spec s n : consistent s → node_ok n → fence_free (body n) →
    ∃ s', ns_write n s = Some s' ∧ consistent s' ∧ content s' = <[id n := stored n]> (content s) ∧ archived s' = archived s;
  ns_archive_spec s st i n : consistent s → content s !! i = Some n →
    ∃ s', ns_archive st i s = Some s' ∧ consistent s' ∧ content s' = delete i (content s) ∧
      archived s' = <[(st, i) := n]> (archived s)
}.

(** A failure of the code: an exception, or a loop that does not end. *)
Inductive failure := Thrown (message : jsstr) | Diverges.

Record ExperimentConfig := Config_ {
  top_levels_to_plan : nat; nav_band_policy : Policy; nav_band_token_budget : nat; iteration_cap : nat;
  summary_token_cap : nat }.

(** The calls of the model in one iteration: the two texts of the working set
    and the node, and for the execution the tools and the attempt; a call gives
    an answer or throws. *)
Record LlmClient := Client {
  callPlanning : nat → jsstr → jsstr → ContextNode → result jsstr json;
  callExecution : nat → nat → FilterResult → jsstr → jsstr → ContextNode → result jsstr jsstr;
  summarize : nat → ContextNode → list ContextNode → result jsstr jsstr }.

Inductive IterateResult :=
| Advanced (nodeId : jsstr) (planning : bool)
| Settled
| BlockedNode (nodeId : jsstr) (reason : jsstr).

(** [ensureNamespacedChildId] *)
Definition ensureNamespacedChildId (parentId childId : jsstr) : jsstr :=
  if startsWith childId (parentId ++ js ".") then childId
  else if bool_decide (childId = parentId) then parentId ++ js ".child"
  else parentId ++ js "." ++ childId.

Definition new_child (parentId updatedAt : jsstr) (child : PlannedChild) : ContextNode :=
  Node (ensureNamespacedChildId parentId (c_id child)) (Some parentId) [] (c_title child) (c_body child)
    (default PendingPlan (c_mode child)) updatedAt 0 None [] [] [] JNull [] None (c_tools child) (c_skills child) None.
Definition with_children (node : ContextNode) (newChildIds : list jsstr) (updatedAt : jsstr) : ContextNode :=
  Node (id node) (parent_id node) (children_ids node ++ newChildIds) (title node) (body node) Decomposed (created_at node)
    (iteration_count node + 1) (Some updatedAt) (observations node) (decisions node) (blockers node) (results node)
    (next_intent node) (consolidated_summary node) (relevant_tools node) (relevant_skills node) (goal_binding node).
Definition blocked_node (node : ContextNode) (updatedAt reason : jsstr) : ContextNode :=
  Node (id node) (parent_id node) (children_ids node) (title node) (body node) Blocked (created_at node)
    (iteration_count node + 1) (Some updatedAt) (observations node) (decisions node) (blockers node ++ [reason]) (results node)
    (next_intent node) (consolidated_summary node) (relevant_tools node) (relevant_skills node) (goal_binding node).
(** The outcome of an execution added to the node. *)
Definition merged (node : ContextNode) (outcome : ExecutionOutcome) (updatedAt : jsstr) : ContextNode :=
  let nextMode := mode_of (o_next_mode outcome) in
  Node (id node) (parent_id node) (children_ids node) (title node) (body node) nextMode (created_at node)
    (iteration_count node + 1) (Some updatedAt) (observations node ++ o_observations outcome)
    (decisions node ++ o_decisions outcome)
    (if bool_decide (nextMode = Blocked) then blockers node ++ o_blockers outcome else o_blockers outcome)
    (match o_results outcome with JNull => results node | r => r end)
    (o_next_intent outcome) (consolidated_summary node) (relevant_tools node) (relevant_skills node) (goal_binding node).
Definition consolidated (candidate : ContextNode) (summary updatedAt : jsstr) : ContextNode :=
  Node (id candidate) (parent_id candidate) [] (title candidate) (body candidate) Done (created_at candidate)
    (iteration_count candidate) (Some updatedAt) (observations candidate) (decisions candidate) (blockers candidate)
    (results candidate) (next_intent candidate) (Some summary) (relevant_tools candidate) (relevant_skills candidate)
    (goal_binding candidate).

Section Engine.
Context {fs : Type} `{NodeStore fs}.
Context (zod_error : json → jsstr) (catalog : list ToolRecord) (cfg : ExperimentConfig) (llm : LlmClient).
Notation M := (eff failure fs).

Definition throw {A} (e : jsstr) : M A := fail (Thrown e).
Definition get_store : M fs := λ s, (s, Ret s).
(** A step that may throw, and a computation that may not return. *)
Definition change (f : fs → option fs) (e : jsstr) : M unit :=
  λ s, match f s with Some s' => (s', Ret tt) | None => (s, Throw (Thrown e)) end.
Definition run_loop {A} (o : option A) : M A := match o with Some a => mret a | None => fail Diverges end.
Definition or_throw {A} (o : option A) (e : jsstr) : M A := match o with Some a => mret a | None => throw e end.

Definition write (n : ContextNode) : M unit := change (ns_write n) (js "write failed").

(** ** [Tree.load] *)

Fixpoint load_nodes (ids : list jsstr) (acc : gmap jsstr ContextNode) (root : option jsstr) (s : fs)
    : result failure (gmap jsstr ContextNode * option jsstr) :=
  match ids with
  | [] => Ret (acc, root)
  | i :: rest =>
      match ns_read i s with
      | None => Throw (Thrown (js "freerun node file: unreadable"))
      | Some node =>
          match parent_id node, root with
          | None, Some r =>
              if bool_decide (r ≠ i) then Throw (Thrown (js "freerun tree: multiple roots found"))
              else load_nodes rest (<[i := node]> acc) (Some i) s
          | None, None => load_nodes rest (<[i := node]> acc) (Some i) s
          | Some _, _ => load_nodes rest (<[i := node]> acc) root s
          end
      end
  end.
Definition load : M Snapshot := λ s,
  match ns_list s with
  | [] => (s, Throw (Thrown (js "freerun tree: session has no nodes on disk")))
  | ids =>
      match load_nodes ids ∅ None s with
      | Throw e => (s, Throw e)
      | Ret (m, Some r) => (s, Ret (Snap m r))
      | Ret (m, None) => (s, Throw (Thrown (js "freerun tree: no root node")))
      end
  end.

(** ** One iteration *)

Definition blockNode (node : ContextNode) (now reason : jsstr) : M IterateResult :=
  _ ← write (blocked_node node now reason); mret (BlockedNode (id node) reason).

Fixpoint write_children (parentId now : jsstr) (cs : list PlannedChild) : M unit :=
  match cs with [] => mret tt | c :: rest => _ ← write (new_child parentId now c); write_children parentId now rest end.

(** The planned children, or the message of the exception. *)
Definition planned (iteration : nat) (navBand detail : jsstr) (node : ContextNode) : result jsstr (list PlannedChild) :=
  match callPlanning llm iteration navBand detail node with
  | Throw e => Throw e
  | Ret raw =>
      match dec_planning raw with
      | None => Throw (zod_error raw)
      | Some cs => match assertValid cs with Some e => Throw e | None => Ret cs end
      end
  end.
Definition runPlanning (iteration : nat) (navBand detail : jsstr) (node : ContextNode) (now : jsstr) : M IterateResult :=
  match planned iteration navBand detail node with
  | Throw e => blockNode node now (js "planning LLM call failed: " ++ e)
  | Ret cs =>
      _ ← write_children (id node) now cs;
      _ ← write (with_children node (map (λ c, ensureNamespacedChildId (id node) (c_id c)) cs) now);
      mret (Advanced (id node) true)
  end.

(** An attempt: the outcome, and what it adds to the failures. *)
Definition attempt (iteration k : nat) (filtered : FilterResult) (navBand detail : jsstr) (node : ContextNode)
    : option ExecutionOutcome * list jsstr :=
  match callExecution llm iteration k filtered navBand detail node with
  | Throw e => (None, [(if Nat.eqb k 0 then js "first attempt: " else js "retry: ") ++ e])
  | Ret raw => (parseExecutionOutcome raw, [])
  end.
Definition runExecution (iteration : nat) (navBand detail : jsstr) (node : ContextNode) (now : jsstr) : M IterateResult :=
  let filtered := filter_tools catalog (relevant_tools node) in
  let '(outcome1, failures1) := attempt iteration 0 filtered navBand detail node in
  let '(outcome, failures) :=
    match outcome1 with
    | Some o => (Some o, failures1)
    | None => let '(o2, f2) := attempt iteration 1 filtered navBand detail node in (o2, failures1 ++ f2)
    end in
  match outcome with
  | None => blockNode node now (js "execution output did not parse after 1 retry " ++ [8212; 32]%N ++ join (js "; ") failures)
  | Some o => _ ← write (merged node o now); mret (Advanced (id node) false)
  end.

Definition once (iteration : nat) (now : jsstr) : M IterateResult :=
  tree ← load;
  pick ← run_loop (pickNext (byId tree) (rootId tree) (top_levels_to_plan cfg));
  match pick with
  | None => mret Settled
  | Some node =>
      depth ← run_loop (depthOf (byId tree) (id node));
      _ ← or_throw depth (js "freerun tree: node not found");
      band ← run_loop (render tree (id node) (ROpts (nav_band_policy cfg) (nav_band_token_budget cfg)));
      navBand ← or_throw band (js "freerun tree: node not found");
      let detail := render_detail node in
      if bool_decide (mode node = PendingPlan) then runPlanning iteration (text navBand) detail node now
      else runExecution iteration (text navBand) detail node now
  end.

(** ** Consolidation *)

Fixpoint archive_all (stamp : jsstr) (ids : list jsstr) : M unit :=
  match ids with
  | [] => mret tt
  | i :: rest => _ ← change (ns_archive stamp i) (js "archive failed"); archive_all stamp rest
  end.
(** The nodes of a subtree without its root. *)
Definition descendants (rootId : jsstr) (walk : list ContextNode) : list ContextNode := filter (λ n, id n ≠ rootId) walk.

(** One candidate: the next one, and whether it was consolidated; [None] stops. *)
Definition consolidate_one (iteration : nat) (stamp now : jsstr) (candidateId : jsstr) : M (option (option jsstr * bool)) :=
  tree ← load;
  match byId tree !! candidateId with
  | None => mret None
  | Some candidate =>
      if negb (bool_decide (mode candidate = Decomposed)) then mret (Some (parent_id candidate, false))
      else
        complete ← run_loop (isSubtreeComplete (byId tree) (id candidate));
        if negb complete then mret None
        else
          walk ← run_loop (walkDFS (byId tree) (id candidate));
          match summarize llm iteration candidate (descendants (id candidate) walk) with
          | Throw _ => mret None
          | Ret summary =>
              _ ← or_throw (byId tree !! id candidate) (js "freerun tree: node not found");
              _ ← archive_all stamp (reverse (map id (descendants (id candidate) walk)));
              _ ← write (consolidated candidate summary now);
              mret (Some (parent_id candidate, true))
          end
  end.
(** The loop: as many rounds as there are nodes are enough, unless the parents
    form a cycle.  The clock is read for every node that is consolidated. *)
Fixpoint consolidate_loop (fuel iteration : nat) (stamp : jsstr) (now : nat → jsstr) (candidateId : option jsstr) (count : nat) : M nat :=
  match candidateId with
  | None => mret count
  | Some c =>
      match fuel with
      | O => fail Diverges
      | S fuel =>
          step ← consolidate_one iteration stamp (now count) c;
          match (step : option (option jsstr * bool)) with
          | None => mret count
          | Some (next, done) => consolidate_loop fuel iteration stamp now next (if done then S count else count)
          end
      end
  end.
(** [makeArchiveStamp]: colons and dots become dashes. *)
Definition makeArchiveStamp (iso : jsstr) : jsstr := map (λ c, if ((c =? 58) || (c =? 46))%N then 45%N else c) iso.
Definition consolidate (iteration : nat) (now : nat → jsstr) (seedNodeId : jsstr) : M nat :=
  s ← get_store;
  consolidate_loop (S (length (ns_list s))) iteration (makeArchiveStamp (now 0)) (λ count, now (S count)) (Some seedNodeId) 0.

(** ** A session *)

Inductive FreerunFinalStatus := InProgress | StDone | StBlocked | CapReached | Paused | UserInterrupted | StError.
#[export] Instance FreerunFinalStatus_eq_dec : EqDecision FreerunFinalStatus.
Proof. solve_decision. Defined.
Record RunSummary := Summary { totalIterations : nat; finalStatus : FreerunFinalStatus; blockedNodeIds : list jsstr }.

(** The loop of [run], with its [try]; [None] when it does not return.
    [clock] gives the times of an iteration. *)
Fixpoint run_iterations (clock : nat → nat → jsstr) (remaining iterations : nat) (blockedIds : list jsstr) (s : fs)
    : fs * option RunSummary :=
  match remaining with
  | O => (s, Some (Summary iterations CapReached blockedIds))
  | S remaining =>
      match once iterations (clock iterations 0) s with
      | (s1, Throw Diverges) => (s1, None)
      | (s1, Throw (Thrown _)) => (s1, Some (Summary iterations StError blockedIds))
      | (s1, Ret Settled) => (s1, Some (Summary iterations StDone blockedIds))
      | (s1, Ret iter) =>
          let '(touched, blockedIds') :=
            match iter with
            | BlockedNode i _ => (i, blockedIds ++ [i]) | Advanced i _ => (i, blockedIds) | Settled => ([], blockedIds)
            end in
          match consolidate iterations (λ j, clock iterations (S j)) touched s1 with
          | (s2, Throw Diverges) => (s2, None)
          | (s2, Throw (Thrown _)) => (s2, Some (Summary iterations StError blockedIds'))
          | (s2, Ret _) => run_iterations clock remaining (S iterations) blockedIds' s2
          end
      end
  end.

(** [meta.json]; the frozen configuration is its hash. *)
Record FreerunSessionMeta := Meta {
  m_trigger_mode : jsstr; m_provider_id : jsstr; m_user_id : jsstr; m_root_node_id : jsstr;
  m_started_at : jsstr; m_ended_at : option jsstr; m_final_status : FreerunFinalStatus;
  m_total_iterations : nat; m_experiment_config_id : jsstr }.
Record RunOptions := ROptions {
  triggerMode : jsstr; providerId : jsstr; userId : jsstr; rootNodeId : jsstr; experimentConfigId : jsstr;
  iterationCapOverride : option nat }.
Definition with_status (st : FreerunFinalStatus) (m : FreerunSessionMeta) : FreerunSessionMeta :=
  Meta (m_trigger_mode m) (m_provider_id m) (m_user_id m) (m_root_node_id m) (m_started_at m) (m_ended_at m) st
    (m_total_iterations m) (m_experiment_config_id m).
Definition with_end (st : FreerunFinalStatus) (total : nat) (now : jsstr) (m : FreerunSessionMeta) : FreerunSessionMeta :=
  Meta (m_trigger_mode m) (m_provider_id m) (m_user_id m) (m_root_node_id m) (m_started_at m) (Some now) st
    total (m_experiment_config_id m).
(** [MetaFS.read] with its exceptions caught, and [MetaFS.patch]. *)
Definition read_meta (f : file FreerunSessionMeta) : option FreerunSessionMeta := match f with Holds m => Some m | _ => None end.
Definition patch_meta (g : FreerunSessionMeta → FreerunSessionMeta) (f : file FreerunSessionMeta) : file FreerunSessionMeta :=
  match f with Holds m => Holds (g m) | _ => f end.

Definition run (opts : RunOptions) (clock : nat → nat → jsstr) (startedAt endedAt : jsstr) (s : fs) (meta : file FreerunSessionMeta)
    : fs * file FreerunSessionMeta * option RunSummary :=
  let cap := default (iteration_cap cfg) (iterationCapOverride opts) in
  let prior := read_meta meta in
  match prior with
  | Some (Meta _ _ _ _ _ _ Paused total _) => (s, meta, Some (Summary total Paused []))
  | _ =>
      let meta1 :=
        match prior with
        | None => Holds (Meta (triggerMode opts) (providerId opts) (userId opts) (rootNodeId opts) startedAt None InProgress 0
                           (experimentConfigId opts))
        | Some m => if bool_decide (m_final_status m = InProgress) then meta else patch_meta (with_status InProgress) meta
        end in
      let '(s1, r) := run_iterations clock cap 0 [] s in
      match r with
      | None => (s1, meta1, None)
      | Some sum =>
          (s1, patch_meta (with_end (finalStatus sum) (default 0 (m_total_iterations <$> prior) + totalIterations sum) endedAt) meta1,
           Some sum)
      end
  end.

(** ** The bridge to a session *)

Inductive SessionState :=
| SActive | SPaused | SSettled (status : FreerunFinalStatus) | SBlocked | SNoRoot | SNone.
(** [classify]; [detected] says that the session uses a freerun provider. *)
Definition hasActiveRoot (s : fs) : bool := negb (bool_decide (ns_list s = [])).
Definition classify (detected : bool) (s : fs) (meta : file FreerunSessionMeta) : option SessionState :=
  if negb detected then Some SNone
  else if negb (hasActiveRoot s) then Some SNoRoot
  else
    match default InProgress (m_final_status <$> read_meta meta) with
    | Paused => Some SPaused
    | StBlocked => Some SBlocked
    | InProgress =>
        match (tree ← load; run_loop (pickNext (byId tree) (rootId tree) 3)) s with
        | (_, Ret None) => Some (SSettled StDone)
        | (_, Ret (Some _)) => Some SActive
        | (_, Throw (Thrown _)) => Some SNone
        | (_, Throw Diverges) => None
        end
    | st => Some (SSettled st)
    end.

Definition seed_node (title body now : jsstr) (goalBinding : option GoalBinding) : ContextNode :=
  Node (js "root") None [] title body PendingPlan now 0 None [] [] [] JNull [] None None None
    (Some (default (ConversationGoal body) goalBinding)).
Definition seedRoot (title body now : jsstr) (goalBinding : option GoalBinding) : M unit :=
  s ← get_store; if hasActiveRoot s then mret tt else write (seed_node title body now goalBinding).
End Engine.
