(* ===== verification/FreerunShape.v ===== *)
(** The shape of the trees that the freerun engine builds: every node but the
    root is listed once, by its parent, whose name its own name extends.

    The traversals of such a tree end, its relations are defined, and the shape
    is kept when a node is updated, decomposed, or consolidated. *)

From S2P Require Import Prelude JsString Json FreerunNode FreerunTree FreerunRender.
Open Scope nat_scope.

Definition dot : N := 46%N.

Record shaped (m : gmap jsstr ContextNode) (root : jsstr) : Prop := {
  sh_id i n : m !! i = Some n → id n = i;
  sh_root : ∃ n, m !! root = Some n ∧ parent_id n = None;
  sh_root_name : dot ∉ root;
  sh_top i n : m !! i = Some n → parent_id n = None → i = root;
  sh_child i n c : m !! i = Some n → c ∈ children_ids n → ∃ k, m !! c = Some k ∧ parent_id k = Some i;
  sh_parent i n p : m !! i = Some n → parent_id n = Some p → ∃ q, m !! p = Some q ∧ i ∈ children_ids q;
  sh_name i n p : m !! i = Some n → parent_id n = Some p → ∃ x, i = p ++ dot :: x ∧ dot ∉ x;
  sh_nodup i n : m !! i = Some n → NoDup (children_ids n);
  sh_leaf i n : m !! i = Some n → mode n ≠ Decomposed → children_ids n = []
}.

(** A name ends in one part after its last dot. *)
Lemma last_part (p q x y : jsstr) : dot ∉ x → dot ∉ y → p ++ dot :: x = q ++ dot :: y → p = q ∧ x = y.
Proof.
  revert q. induction p as [|c p IH]; intros [|d q] Hx Hy H; simpl in H; simplify_eq/=.
  - done.
  - destruct Hx. apply elem_of_app. right. left.
  - destruct Hy. apply elem_of_app. right. left.
  - by destruct (IH q Hx Hy) as [-> ->].
Qed.

Section Shaped.
Context (m : gmap jsstr ContextNode) (root : jsstr) (Hm : shaped m root).

Lemma shaped_graded : graded m.
Proof.
  intros i n c Hi Hc. destruct (sh_child _ _ Hm i n c Hi Hc) as (k & Hk & Hp).
  destruct (sh_name _ _ Hm c k i Hk Hp) as (x & -> & _). rewrite length_app. simpl. lia.
Qed.
Lemma parent_shorter (i : jsstr) n p : m !! i = Some n → parent_id n = Some p → length p < length i.
Proof. intros Hi Hp. destruct (sh_name _ _ Hm i n p Hi Hp) as (x & -> & _). rewrite length_app. simpl. lia. Qed.

(** ** Chains of parents *)

Lemma shorter_size (i p : jsstr) n : m !! p = Some n → length p < length i →
  size (filter (λ kv : jsstr * ContextNode, length kv.1 < length p) m) <
  size (filter (λ kv : jsstr * ContextNode, length kv.1 < length i) m).
Proof.
  intros Hp Hl. apply map_subset_size, map_subset_alt. split.
  - apply map_subseteq_spec. intros k x [Hk Hs]%map_lookup_filter_Some. apply map_lookup_filter_Some. simpl in *. split; [done|lia].
  - exists p. split; [|exists n; by apply map_lookup_filter_Some].
    apply map_lookup_filter_None. right. intros x _. simpl. lia.
Qed.
Lemma chain_total k (i : jsstr) n : m !! i = Some n → size (filter (λ kv : jsstr * ContextNode, length kv.1 < length i) m) ≤ k →
  is_Some (ancestors_loop m k n) ∧ ∀ d, ∃ d', depth_loop m k n d = Some (Some d').
Proof.
  revert i n. induction k as [|k IH]; intros i n Hi Hk; simpl; destruct (parent_id n) as [p|] eqn:Hp; eauto.
  - destruct (sh_parent _ _ Hm i n p Hi Hp) as (q & Hq & _). pose proof (shorter_size i p q Hq (parent_shorter i n p Hi Hp)). lia.
  - destruct (sh_parent _ _ Hm i n p Hi Hp) as (q & Hq & _). rewrite Hq.
    pose proof (shorter_size i p q Hq (parent_shorter i n p Hi Hp)). destruct (IH p q Hq) as [[l ->] Hd]; [lia|]. by eauto.
Qed.
Lemma chain_total_size i n : m !! i = Some n →
  is_Some (ancestors_loop m (size m) n) ∧ ∀ d, ∃ d', depth_loop m (size m) n d = Some (Some d').
Proof. intros Hi. apply (chain_total _ i); [done|]. apply map_subseteq_size, map_filter_subseteq. Qed.

Lemma depthOf_total i n : m !! i = Some n → ∃ d, depthOf m i = Some (Some d).
Proof. intros Hi. unfold depthOf. rewrite Hi. by apply (chain_total_size i). Qed.
Lemma render_total i n opts : m !! i = Some n → ∃ r, render (Snap m root) i opts = Some (Some r).
Proof.
  intros Hi. destruct (sh_root _ _ Hm) as (r & Hr & _). destruct (chain_total_size i n Hi) as [[l Hl] _].
  unfold render, ancestors, siblings. simpl. rewrite Hr, Hi, Hl. destruct (policy opts); simpl; by eauto.
Qed.

(** ** Subtrees *)

Lemma below_trans i j k : below m i j → below m j k → below m i k.
Proof. induction 1; [done|]. intros. by eapply below_step; eauto. Qed.
Lemma below_child i j n c : below m i j → m !! j = Some n → c ∈ children_ids n → below m i c.
Proof. intros Hb Hj Hc. eapply below_trans; [done|]. eapply below_step; [done|done|constructor]. Qed.
(** Every node is below the root. *)
Lemma root_above i n : m !! i = Some n → below m root i.
Proof.
  remember (length i) as k eqn:Hk. revert i n Hk. induction (lt_wf k) as [k _ IH]. intros i n -> Hi.
  destruct (parent_id n) as [p|] eqn:Hp; [|rewrite (sh_top _ _ Hm i n Hi Hp); constructor].
  destruct (sh_parent _ _ Hm i n p Hi Hp) as (q & Hq & Hc).
  eapply below_child; [|done|done]. by eapply (IH (length p)); [by eapply parent_shorter|..].
Qed.
(** The last step down. *)
Lemma below_last i j : below m i j →
  i = j ∨ ∃ n p, m !! j = Some n ∧ parent_id n = Some p ∧ below m i p.
Proof.
  induction 1 as [i|i n c j Hi Hc Hb IH]; [by left|right]. destruct IH as [<-|(k & p & Hk & Hp & Hb')].
  - destruct (sh_child _ _ Hm i n c Hi Hc) as (k & Hk & Hp). exists k, i. split_and!; [done|done|constructor].
  - exists k, p. split_and!; [done|done|]. by eapply below_step.
Qed.
Lemma below_parent i n p : m !! i = Some n → parent_id n = Some p → below m p i.
Proof.
  intros Hi Hp. destruct (sh_parent _ _ Hm i n p Hi Hp) as (q & Hq & Hc). eapply below_step; [done|done|constructor].
Qed.
Lemma below_length i j : below m i j → i = j ∨ length i < length j.
Proof.
  induction 1 as [i|i n c j Hi Hc Hb IH]; [by left|right]. pose proof (shaped_graded i n c Hi Hc). destruct IH as [->|]; lia.
Qed.
Lemma below_antisym i j : below m i j → below m j i → i = j.
Proof. intros H1%below_length H2%below_length. destruct H1 as [|H1]; [done|]. destruct H2 as [|H2]; [done|lia]. Qed.
(** Of two nodes above a third one is above the other. *)
Lemma below_chain a b j : below m a j → below m b j → below m a b ∨ below m b a.
Proof.
  remember (length j) as k eqn:Hk. revert j Hk. induction (lt_wf k) as [k _ IH]. intros j -> Ha Hb.
  destruct (below_last a j Ha) as [->|(n & p & Hj & Hp & Ha')]; [by right|].
  destruct (below_last b j Hb) as [->|(n' & p' & Hj' & Hp' & Hb')]; [by left|].
  assert (n' = n) as -> by congruence. assert (p' = p) as -> by congruence.
  by eapply (IH (length p)); [by eapply parent_shorter|..].
Qed.
Lemma below_siblings i n a b j : m !! i = Some n → a ∈ children_ids n → b ∈ children_ids n →
  below m a j → below m b j → a = b.
Proof.
  intros Hi Ha Hb Hja Hjb. assert (Hx : ∀ a b, a ∈ children_ids n → b ∈ children_ids n → below m a b → a = b).
  { clear a b Ha Hb Hja Hjb. intros a b Ha Hb Hab. destruct (below_last a b Hab) as [|(k & p & Hk & Hp & Hap)]; [done|].
    destruct (sh_child _ _ Hm i n b Hi Hb) as (k' & Hk' & Hp'). assert (p = i) as -> by congruence.
    pose proof (shaped_graded i n a Hi Ha). apply below_length in Hap as [->|]; lia. }
  destruct (below_chain a b j Hja Hjb) as [H|H]; [by apply Hx|symmetry; by apply Hx].
Qed.

Lemma preorder_below d i n : n ∈ preorder m d i → m !! id n = Some n ∧ below m i (id n).
Proof.
  revert i. induction d as [|d IH]; intros i; simpl; [intros; no_member|]. destruct (m !! i) as [x|] eqn:Hi; [|intros; no_member].
  rewrite elem_of_cons, elem_of_flat_map. intros [->|(c & Hc & Hn)].
  - rewrite (sh_id _ _ Hm i x Hi). split; [done|constructor].
  - destruct (IH c Hn) as [H1 H2]. split; [done|]. by eapply below_step.
Qed.
Lemma preorder_nodup d i : NoDup (map id (preorder m d i)).
Proof.
  revert i. induction d as [|d IH]; intros i; simpl; [constructor|]. destruct (m !! i) as [n|] eqn:Hi; [|constructor].
  simpl. apply NoDup_cons. split.
  - intros (x & Hx & (c & Hc & Hin)%elem_of_flat_map)%list_elem_of_fmap. apply preorder_below in Hin as [_ Hb].
    rewrite <- Hx, (sh_id _ _ Hm i n Hi) in Hb. pose proof (shaped_graded i n c Hi Hc). apply below_length in Hb as [->|]; lia.
  - assert (H : ∀ cs, NoDup cs → (∀ c, c ∈ cs → c ∈ children_ids n) → NoDup (map id (flat_map (preorder m d) cs))).
    { induction 1 as [|c cs Hc Hnd IHcs]; intros Hsub; [constructor|]. simpl. rewrite map_app. apply NoDup_app.
      split; [apply IH|]. split; [|apply IHcs; intros; apply Hsub; by right].
      intros k (x & -> & [_ Hx]%preorder_below)%list_elem_of_fmap (y & Hk & (c' & Hc' & [_ Hy]%preorder_below)%elem_of_flat_map)%list_elem_of_fmap.
      rewrite <- Hk in Hy. assert (c = c') as <-; [|done].
      by eapply below_siblings; [done|apply Hsub; left|apply Hsub; right|..]. }
    apply H; [by apply (sh_nodup _ _ Hm i n)|done].
Qed.
End Shaped.

(** ** What changes a tree *)

(** A node changes, but for its place in the tree. *)
Lemma shaped_update m root (i : jsstr) n n' : shaped m root → m !! i = Some n →
  id n' = i → parent_id n' = parent_id n → children_ids n' = children_ids n →
  (mode n' ≠ Decomposed → children_ids n' = []) → shaped (<[i := n']> m) root.
Proof.
  intros Hm Hi Hid Hp Hc Hl.
  assert (Hsame : ∀ j x, <[i := n']> m !! j = Some x → ∃ y, m !! j = Some y ∧ parent_id x = parent_id y ∧ children_ids x = children_ids y ∧
    (j = i ∧ x = n' ∨ x = y)).
  { intros j x [[<- <-]|[Hne Hj]]%lookup_insert_Some; [exists n|exists x]; split_and!; auto. }
  assert (Hkeep : ∀ j y, m !! j = Some y → ∃ x, <[i := n']> m !! j = Some x ∧ parent_id x = parent_id y ∧ children_ids x = children_ids y).
  { intros j y Hj. destruct (decide (j = i)) as [->|Hne].
    - exists n'. rewrite lookup_insert_eq. assert (y = n) as -> by congruence. done.
    - exists y. by rewrite lookup_insert_ne. }
  split.
  - intros j x (y & Hj & _ & _ & [[-> ->]| ->])%Hsame; [done|]. by apply (sh_id _ _ Hm).
  - destruct (sh_root _ _ Hm) as (r & Hr & Hpr). destruct (Hkeep _ _ Hr) as (x & Hx & Hxp & _). exists x. by rewrite Hxp.
  - apply Hm.
  - intros j x (y & Hj & Hy & _ & _)%Hsame Hn. apply (sh_top _ _ Hm j y); congruence.
  - intros j x c (y & Hj & _ & Hy & _)%Hsame Hin. rewrite Hy in Hin.
    destruct (sh_child _ _ Hm j y c Hj Hin) as (k & Hk & Hkp). destruct (Hkeep _ _ Hk) as (k' & Hk' & Hkp' & _). exists k'. split; congruence.
  - intros j x p (y & Hj & Hy & _ & _)%Hsame Hn. destruct (sh_parent _ _ Hm j y p Hj) as (q & Hq & Hin); [congruence|].
    destruct (Hkeep _ _ Hq) as (q' & Hq' & _ & Hqc). exists q'. by rewrite Hqc.
  - intros j x p (y & Hj & Hy & _ & _)%Hsame Hn. apply (sh_name _ _ Hm j y p); congruence.
  - intros j x (y & Hj & _ & Hy & _)%Hsame. rewrite Hy. by eapply sh_nodup.
  - intros j x (y & Hj & _ & Hy & [[-> ->]| ->])%Hsame Hmode; [by apply Hl|]. by apply (sh_leaf _ _ Hm j y).
Qed.

(** Nodes are added. *)
Definition add_nodes (ks : list ContextNode) (m : gmap jsstr ContextNode) : gmap jsstr ContextNode :=
  foldl (λ m k, <[id k := k]> m) m ks.
Lemma add_nodes_other ks m i : i ∉ map id ks → add_nodes ks m !! i = m !! i.
Proof.
  revert m. induction ks as [|k ks IH]; intros m; simpl; [done|]. intros [Hk Hks]%not_elem_of_cons.
  rewrite IH by done. by rewrite lookup_insert_ne.
Qed.
Lemma add_nodes_new ks m k : NoDup (map id ks) → k ∈ ks → add_nodes ks m !! id k = Some k.
Proof.
  revert m. induction ks as [|k' ks IH]; intros m; simpl; [intros; no_member|]. intros [Hk Hks]%NoDup_cons [->|Hin]%elem_of_cons; [|by apply IH].
  rewrite add_nodes_other by done. by rewrite lookup_insert_eq.
Qed.
Lemma add_nodes_inv ks m i x : NoDup (map id ks) → add_nodes ks m !! i = Some x → (x ∈ ks ∧ id x = i) ∨ (i ∉ map id ks ∧ m !! i = Some x).
Proof.
  intros Hnd Hi. destruct (decide (i ∈ map id ks)) as [(k & -> & Hin)%list_elem_of_fmap|Hn].
  - rewrite add_nodes_new in Hi by done. left. by simplify_eq.
  - right. by rewrite add_nodes_other in Hi.
Qed.

(** The new children of [p]. *)
Definition child_of (p : jsstr) (k : ContextNode) : Prop :=
  parent_id k = Some p ∧ children_ids k = [] ∧ ∃ x, id k = p ++ dot :: x ∧ dot ∉ x.
Lemma child_fresh m root p n k : shaped m root → m !! p = Some n → children_ids n = [] → child_of p k → m !! id k = None ∧ id k ≠ p.
Proof.
  intros Hm Hp Hc (_ & _ & x & Hx & Hd). split.
  - destruct (m !! id k) as [y|] eqn:Hy; [|done]. exfalso. destruct (parent_id y) as [q|] eqn:Hq.
    + destruct (sh_name _ _ Hm _ y q Hy Hq) as (z & Hz & Hdz). rewrite Hx in Hz. apply last_part in Hz as [-> ->]; [|done..].
      destruct (sh_parent _ _ Hm _ y q Hy Hq) as (n' & Hn' & Hin). assert (n' = n) as -> by congruence. rewrite Hc in Hin. no_member.
    + apply (sh_root_name _ _ Hm). rewrite <- (sh_top _ _ Hm _ y Hy Hq), Hx. apply elem_of_app. right. left.
  - rewrite Hx. intros Hl%(f_equal length). rewrite length_app in Hl. simpl in Hl. lia.
Qed.

(** A node is decomposed. *)
Lemma shaped_decompose m root (p : jsstr) n n' ks : shaped m root → m !! p = Some n → children_ids n = [] →
  Forall (child_of p) ks → NoDup (map id ks) →
  id n' = p → parent_id n' = parent_id n → children_ids n' = map id ks → mode n' = Decomposed →
  shaped (<[p := n']> (add_nodes ks m)) root.
Proof.
  intros Hm Hp Hc Hks Hnd Hid Hpn Hcn Hmn. rewrite Forall_forall in Hks.
  set (m' := <[p := n']> (add_nodes ks m)).
  assert (Hfresh : ∀ k, k ∈ ks → m !! id k = None ∧ id k ≠ p) by (intros k Hk; by eapply child_fresh, Hks).
  assert (Hinv : ∀ i x, m' !! i = Some x → (i = p ∧ x = n') ∨ (x ∈ ks ∧ id x = i) ∨ (i ≠ p ∧ m !! i = Some x)).
  { intros i x [[<- <-]|[Hne Hi]]%lookup_insert_Some; [by left|]. apply add_nodes_inv in Hi as [?|[_ ?]]; auto. }
  assert (Hnew : ∀ k, k ∈ ks → m' !! id k = Some k).
  { intros k Hk. unfold m'. rewrite lookup_insert_ne by (symmetry; by apply Hfresh). by apply add_nodes_new. }
  assert (Hself : m' !! p = Some n') by apply lookup_insert_eq.
  assert (Hold : ∀ i x, i ≠ p → m !! i = Some x → m' !! i = Some x).
  { intros i x Hne Hi. unfold m'. rewrite lookup_insert_ne, add_nodes_other; [done| |done].
    intros (k & -> & Hk)%list_elem_of_fmap. destruct (Hfresh k Hk). congruence. }
  assert (Hkeep : ∀ i x, m !! i = Some x → ∃ y, m' !! i = Some y ∧ parent_id y = parent_id x ∧ ∀ c, c ∈ children_ids x → c ∈ children_ids y).
  { intros i x Hi. destruct (decide (i = p)) as [->|Hne]; [|by exists x; auto]. exists n'. assert (x = n) as -> by congruence.
    split_and!; [done|done|]. rewrite Hc. intros; no_member. }
  split.
  - intros i x [[-> ->]|[[_ ?]|[_ ?]]]%Hinv; [done|done|]. by apply (sh_id _ _ Hm).
  - destruct (sh_root _ _ Hm) as (r & Hr & Hrp). destruct (Hkeep _ _ Hr) as (y & Hy & Hyp & _). exists y. by rewrite Hyp.
  - apply Hm.
  - intros i x [[-> ->]|[[Hx <-]|[_ ?]]]%Hinv Hn; [apply (sh_top _ _ Hm p n); congruence| |by apply (sh_top _ _ Hm i x)].
    destruct (Hks x Hx) as [? _]. congruence.
  - intros i x c [[-> ->]|[[Hx <-]|[Hne Hi]]]%Hinv Hin.
    + rewrite Hcn in Hin. apply list_elem_of_fmap in Hin as (k & -> & Hk). exists k. split; [by apply Hnew|]. by apply Hks.
    + destruct (Hks x Hx) as (_ & Hx' & _). rewrite Hx' in Hin. no_member.
    + destruct (sh_child _ _ Hm i x c Hi Hin) as (k & Hk & Hkp). destruct (Hkeep _ _ Hk) as (y & Hy & Hyp & _). exists y. by rewrite Hyp.
  - assert (Hq : ∀ i x q, m !! i = Some x → parent_id x = Some q → ∃ y, m' !! q = Some y ∧ i ∈ children_ids y).
    { intros i x q Hi Hq. destruct (sh_parent _ _ Hm i x q Hi Hq) as (y & Hy & Hin). destruct (Hkeep _ _ Hy) as (y' & Hy' & _ & Hs). eauto. }
    intros i x q [[-> ->]|[[Hx <-]|[_ Hi]]]%Hinv Hxq; [apply (Hq p n); congruence| |by eapply Hq].
    destruct (Hks x Hx) as (Hxp & _). assert (q = p) as -> by congruence. exists n'. split; [done|]. rewrite Hcn. by apply list_elem_of_fmap_2.
  - intros i x q [[-> ->]|[[Hx <-]|[_ Hi]]]%Hinv Hxq; [apply (sh_name _ _ Hm p n); congruence| |by apply (sh_name _ _ Hm i x q)].
    destruct (Hks x Hx) as (Hxp & _ & Hname). assert (q = p) as -> by congruence. done.
  - intros i x [[-> ->]|[[Hx <-]|[_ Hi]]]%Hinv; [by rewrite Hcn| |by eapply sh_nodup].
    destruct (Hks x Hx) as (_ & -> & _). apply NoDup_nil_2.
  - intros i x [[-> ->]|[[Hx <-]|[_ Hi]]]%Hinv Hmode; [done|by apply Hks|by apply (sh_leaf _ _ Hm i x)].
Qed.

(** A subtree is removed, but for its root. *)
Definition remove_nodes (ids : list jsstr) (m : gmap jsstr ContextNode) : gmap jsstr ContextNode :=
  foldl (λ m i, delete i m) m ids.
Lemma remove_nodes_lookup ids m i : remove_nodes ids m !! i = if decide (i ∈ ids) then None else m !! i.
Proof.
  revert m. induction ids as [|j ids IH]; intros m; simpl; [done|]. rewrite IH.
  destruct (decide (i ∈ ids)) as [Hi|Hi]; [by rewrite decide_True by (by right)|].
  destruct (decide (i = j)) as [->|Hne]; [rewrite decide_True by left; apply lookup_delete_eq|].
  rewrite decide_False by (by intros [?|?]%elem_of_cons). by apply lookup_delete_ne.
Qed.
Definition subtree_ids (m : gmap jsstr ContextNode) (c : jsstr) (ids : list jsstr) : Prop :=
  ∀ i, i ∈ ids ↔ below m c i ∧ i ≠ c ∧ is_Some (m !! i).
Lemma shaped_prune m root (c : jsstr) n n' ids : shaped m root → m !! c = Some n → subtree_ids m c ids →
  id n' = c → parent_id n' = parent_id n → children_ids n' = [] → shaped (<[c := n']> (remove_nodes ids m)) root.
Proof.
  intros Hm Hc Hids Hid Hp Hch. set (m' := <[c := n']> (remove_nodes ids m)).
  assert (Hinv : ∀ i x, m' !! i = Some x → (i = c ∧ x = n') ∨ (i ≠ c ∧ ¬ below m c i ∧ m !! i = Some x)).
  { intros i x [[<- <-]|[Hne Hi]]%lookup_insert_Some; [by left|right]. rewrite remove_nodes_lookup in Hi.
    destruct (decide (i ∈ ids)) as [|Hn]; [done|]. split; [done|]. split; [|done]. intros Hb. apply Hn, Hids. eauto. }
  assert (Hself : m' !! c = Some n') by apply lookup_insert_eq.
  assert (Hkeep : ∀ i x, m !! i = Some x → ¬ below m c i ∨ i = c → ∃ y, m' !! i = Some y ∧ parent_id y = parent_id x ∧
    (i ≠ c → y = x)).
  { intros i x Hi Hb. destruct (decide (i = c)) as [->|Hne]; [exists n'; split; [done|]; split; [congruence|done]|].
    exists x. split; [|done]. unfold m'. rewrite lookup_insert_ne, remove_nodes_lookup, decide_False; [done| |done].
    intros (? & ? & _)%Hids. tauto. }
  split.
  - intros i x [[-> ->]|(_ & _ & ?)]%Hinv; [done|]. by apply (sh_id _ _ Hm).
  - destruct (sh_root _ _ Hm) as (r & Hr & Hrp). destruct (Hkeep root r Hr) as (y & Hy & Hyp & _); [|exists y; by rewrite Hyp].
    destruct (decide (root = c)); [by right|left]. intros Hb. destruct (below_last m root Hm c root Hb) as [|(k & p & Hk & Hkp & _)]; congruence.
  - apply Hm.
  - intros i x [[-> ->]|(_ & _ & ?)]%Hinv Hn; [apply (sh_top _ _ Hm c n); congruence|by apply (sh_top _ _ Hm i x)].
  - intros i x k [[-> ->]|(Hne & Hb & Hi)]%Hinv Hk; [rewrite Hch in Hk; no_member|].
    destruct (sh_child _ _ Hm i x k Hi Hk) as (y & Hy & Hyp). destruct (Hkeep k y Hy) as (z & Hz & Hzp & _); [|exists z; by rewrite Hzp].
    destruct (decide (k = c)); [by right|left]. intros Hb'. destruct (below_last m root Hm c k Hb') as [|(y' & p & Hy' & Hyp' & Hbp)]; [done|].
    apply Hb. assert (p = i) as -> by congruence. done.
  - assert (Hq : ∀ i x q, m !! i = Some x → parent_id x = Some q → ¬ below m c i ∨ i = c → ∃ y, m' !! q = Some y ∧ i ∈ children_ids y).
    { intros i x q Hi Hq Hb. destruct (sh_parent _ _ Hm i x q Hi Hq) as (y & Hy & Hin).
      pose proof (below_parent m root Hm i x q Hi Hq) as Hbq.
      assert (Hnq : ¬ below m c q).
      { intros Hcq. destruct Hb as [Hb| ->]; [apply Hb; by eapply below_child|].
        assert (q = c) as -> by (by eapply below_antisym). pose proof (parent_shorter m root Hm c x c Hi Hq). lia. }
      destruct (Hkeep q y Hy) as (z & Hz & _ & Hzy); [by left|]. exists z. split; [done|].
      rewrite Hzy; [done|]. intros ->. apply Hnq. constructor. }
    intros i x q [[-> ->]|(Hne & Hb & Hi)]%Hinv Hxq; [apply (Hq c n); auto; congruence|]. eapply Hq; eauto.
  - intros i x q [[-> ->]|(_ & _ & ?)]%Hinv Hxq; [apply (sh_name _ _ Hm c n); congruence|by eapply sh_name].
  - intros i x [[-> ->]|(_ & _ & ?)]%Hinv; [rewrite Hch; apply NoDup_nil_2|by eapply sh_nodup].
  - intros i x [[-> ->]|(_ & _ & ?)]%Hinv Hmode; [done|by eapply sh_leaf].
Qed.

(** ** One step of the engine, on the tree *)

Definition settled_mode (md : NodeMode) : Prop := md = Done ∨ md = Blocked ∨ md = PendingPlan.
(** A node with work left gets an outcome, or children of the modes [Q]. *)
Inductive advance (Q : NodeMode → Prop) (m : gmap jsstr ContextNode) (i : jsstr) : gmap jsstr ContextNode → Prop :=
| advance_outcome n n' : m !! i = Some n → isActionable n = true → settled_mode (mode n') →
    id n' = i → parent_id n' = parent_id n → children_ids n' = children_ids n → advance Q m i (<[i := n']> m)
| advance_plan n n' ks : m !! i = Some n → mode n = PendingPlan → ks ≠ [] → Forall (child_of i) ks → NoDup (map id ks) →
    Forall (λ k, Q (mode k)) ks → id n' = i → parent_id n' = parent_id n → children_ids n' = map id ks → mode n' = Decomposed →
    advance Q m i (<[i := n']> (add_nodes ks m)).
(** Nothing below [c] has work left. *)
Definition complete (m : gmap jsstr ContextNode) (c : jsstr) : Prop :=
  ∀ j n, below m c j → m !! j = Some n → isActionable n = false.
(** A complete subtree becomes its root. *)
Inductive collapse (m : gmap jsstr ContextNode) (c : jsstr) (ids : list jsstr) : gmap jsstr ContextNode → Prop :=
| collapse_ n n' : m !! c = Some n → mode n = Decomposed → complete m c → subtree_ids m c ids → NoDup ids →
    mode n' = Done → id n' = c → parent_id n' = parent_id n → children_ids n' = [] →
    collapse m c ids (<[c := n']> (remove_nodes ids m)).

Lemma actionable_leaf m root i n : shaped m root → m !! i = Some n → isActionable n = true → children_ids n = [].
Proof. intros Hm Hi Ha. apply (sh_leaf _ _ Hm i n Hi). unfold isActionable in Ha. by destruct (mode n). Qed.
Lemma advance_shaped Q m root i m' : shaped m root → advance Q m i m' → shaped m' root.
Proof.
  intros Hm [n n' Hi Ha Hmode Hid Hp Hc|n n' ks Hi Hn Hks Hf Hnd HQ Hid Hp Hc Hmode].
  - apply (shaped_update m root i n n'); try done. intros _. rewrite Hc. by eapply actionable_leaf.
  - apply (shaped_decompose m root i n n' ks); try done. apply (actionable_leaf m root i n); [done|done|]. unfold isActionable. by rewrite Hn.
Qed.
Lemma collapse_shaped m root c ids m' : shaped m root → collapse m c ids m' → shaped m' root.
Proof. intros Hm [n n' Hc Hd Hcomp Hids Hnd Hmode Hid Hp Hch]. by apply (shaped_prune m root c n n' ids). Qed.

(** ** The next node *)

Lemma best_plan_in N l b n k : best_plan N l b = Some (n, k) → b = Some (n, k) ∨ ((n, k) ∈ l ∧ mode n = PendingPlan).
Proof.
  revert b. induction l as [|[x d] l IH]; intros b; simpl; [by left|].
  destruct (Nat.ltb N d); [by left|]. case_bool_decide as Hx.
  - destruct (match b with None => _ | Some _ => _ end).
    + destruct (Nat.eqb d 0); [intros [= -> ->]; right; split; [left|done]|].
      intros [[= -> ->]|[? ?]]%IH; right; (split; [by constructor|done]).
    + intros [?|[? ?]]%IH; [by left|right]. split; [by right|done].
  - intros [?|[? ?]]%IH; [by left|right]. split; [by right|done].
Qed.
Lemma levels_in m d k ids n j : (n, j) ∈ levels m d k ids → ∃ i, m !! i = Some n.
Proof.
  revert k ids. induction d as [|d IH]; intros k ids; simpl; [intros; no_member|]. intros [Hin|Hin]%elem_of_app; [|by eapply IH].
  apply list_elem_of_fmap in Hin as (x & [= -> _] & Hx). apply list_elem_of_omap in Hx as (i & _ & Hi). by exists i.
Qed.
Lemma pickNext_ok m root N : shaped m root →
  match pickNext m root N with
  | None => False
  | Some None => complete m root
  | Some (Some n) => m !! id n = Some n ∧ isActionable n = true
  end.
Proof.
  intros Hm. pose proof (shaped_graded m root Hm) as Hg. unfold pickNext. rewrite walkBFS_graded, walkDFS_graded by done.
  cbn [mbind option_bind]. destruct (best_plan _ _ _) as [[n k]|] eqn:E.
  - apply best_plan_in in E as [|[Hin Hn]]; [done|]. apply levels_in in Hin as [i Hi].
    rewrite (sh_id _ _ Hm i n Hi). split; [done|]. unfold isActionable. by rewrite Hn.
  - destruct (find isActionable _) as [n|] eqn:Ef.
    + apply find_Some in Ef as [Ha Hin]. split; [|done]. by eapply preorder_below.
    + intros j n Hb Hj. rewrite find_None in Ef. apply Ef, elem_of_preorder; [by apply graded_deep_size|]. by exists j.
Qed.

(** ** Decomposed nodes with work below them *)

Definition busy (m : gmap jsstr ContextNode) (a : jsstr) : Prop := ∃ j n, below m a j ∧ m !! j = Some n ∧ isActionable n = true.
Definition all_busy (m : gmap jsstr ContextNode) : Prop := ∀ a n, m !! a = Some n → mode n = Decomposed → busy m a.
(** The same, but perhaps not above [c]. *)
Definition busy_except (m : gmap jsstr ContextNode) (c : jsstr) : Prop :=
  ∀ a n, m !! a = Some n → mode n = Decomposed → below m a c ∨ busy m a.

Lemma not_complete_busy m root c : shaped m root → ¬ complete m c → busy m c.
Proof.
  intros Hm Hn. pose proof (elem_of_preorder m (size m) c) as He. pose proof (graded_deep_size m c (shaped_graded m root Hm)) as Hd.
  destruct (decide (Forall (λ n, isActionable n = false) (preorder m (size m) c))) as [Hf|Hf].
  - destruct Hn. intros j n Hb Hj. rewrite Forall_forall in Hf. apply Hf, He; [done|by exists j].
  - apply not_Forall_Exists in Hf; [|solve_decision]. apply Exists_exists in Hf as (n & Hin & Ha).
    apply He in Hin as (j & Hb & Hj); [|done]. exists j, n. split_and!; [done|done|]. by apply not_false_is_true.
Qed.
Lemma busy_above m a c : below m a c → busy m c → busy m a.
Proof. intros Hb (j & n & Hj & Hn & Ha). exists j, n. split_and!; [by eapply below_trans|done|done]. Qed.
Lemma busy_found m c : busy m c → busy_except m c → all_busy m.
Proof. intros Hc He a n Ha Hmode. destruct (He a n Ha Hmode); [by eapply busy_above|done]. Qed.
(** A candidate that is not decomposed passes the question to its parent. *)
Lemma busy_up m root c n : shaped m root → m !! c = Some n → mode n ≠ Decomposed → busy_except m c →
  match parent_id n with Some p => busy_except m p | None => all_busy m end.
Proof.
  intros Hm Hc Hmode He. assert (H : ∀ a x, m !! a = Some x → mode x = Decomposed →
    match parent_id n with Some p => below m a p | None => False end ∨ busy m a).
  { intros a x Ha Hx. destruct (He a x Ha Hx) as [Hb|]; [left|by right].
    destruct (below_last m root Hm a c Hb) as [->|(k & p & Hk & Hp & Hbp)]; [congruence|].
    assert (k = n) as -> by congruence. by rewrite Hp. }
  destruct (parent_id n); intros a x Ha Hx; destruct (H a x Ha Hx); tauto.
Qed.
(** An advance leaves only the nodes above it in question. *)
Lemma below_mono m m' i j : (∀ a x c, m !! a = Some x → c ∈ children_ids x → ∃ y, m' !! a = Some y ∧ c ∈ children_ids y) →
  below m i j → below m' i j.
Proof. intros Hs. induction 1 as [|i x c j Hi Hc _ IH]; [constructor|]. destruct (Hs i x c Hi Hc) as (y & Hy & Hin). by eapply below_step. Qed.
Lemma advance_child Q m root i m' : shaped m root → advance Q m i m' →
  ∀ a x c, m !! a = Some x → c ∈ children_ids x → ∃ y, m' !! a = Some y ∧ c ∈ children_ids y.
Proof.
  intros Hm Hadv a x c Ha Hc. destruct Hadv as [n n' Hi Hact _ _ _ Hch|n n' ks Hi Hn _ Hks Hnd _ _ _ _ _].
  - destruct (decide (a = i)) as [->|Hne]; [|by rewrite lookup_insert_ne by done; eauto].
    exists n'. rewrite lookup_insert_eq, Hch. split; [done|]. congruence.
  - assert (Hleaf : children_ids n = []) by (eapply actionable_leaf; [done..|]; unfold isActionable; by rewrite Hn).
    destruct (decide (a = i)) as [->|Hne]; [assert (x = n) as -> by congruence; rewrite Hleaf in Hc; no_member|].
    exists x. rewrite lookup_insert_ne, add_nodes_other; [done| |done].
    intros (k & -> & Hk)%list_elem_of_fmap. rewrite Forall_forall in Hks. destruct (child_fresh m root i n k Hm Hi Hleaf (Hks k Hk)). congruence.
Qed.
Lemma advance_inv Q m root i m' a x : shaped m root → advance Q m i m' → m' !! a = Some x → a = i ∨ Q (mode x) ∨ m !! a = Some x.
Proof.
  intros Hm [n n' Hi|n n' ks Hi Hn _ Hks Hnd HQ] [[<- _]|[Hne Ha]]%lookup_insert_Some; auto.
  apply add_nodes_inv in Ha as [[Hx _]|[_ ?]]; auto. rewrite Forall_forall in HQ. auto.
Qed.
Lemma advance_keep Q m root i m' a x : shaped m root → advance Q m i m' → a ≠ i → m !! a = Some x → m' !! a = Some x.
Proof.
  intros Hm Hadv Hne Ha. destruct Hadv as [n n' Hi|n n' ks Hi Hn _ Hks Hnd HQ]; rewrite lookup_insert_ne by done; [done|].
  rewrite add_nodes_other; [done|]. intros (k & -> & Hk)%list_elem_of_fmap. rewrite Forall_forall in Hks.
  destruct (child_fresh m root i n k Hm Hi) as [? _]; [|by apply Hks|congruence].
  eapply actionable_leaf; [done..|]. unfold isActionable. by rewrite Hn.
Qed.
Lemma advance_busy Q m root i m' : (∀ md, Q md → md ≠ Decomposed) → shaped m root → advance Q m i m' → all_busy m → busy_except m' i.
Proof.
  intros HQ Hm Hadv Hall a x Ha Hmode. destruct (advance_inv Q m root i m' a x Hm Hadv Ha) as [->|[Hx|Hx]]; [left; constructor|by apply HQ in Hx|].
  destruct (Hall a x Hx Hmode) as (j & n & Hb & Hj & Hact). apply (below_mono m m') in Hb; [|by eapply advance_child].
  destruct (decide (j = i)) as [->|Hne]; [by left|right]. exists j, n. split_and!; [done| |done]. by eapply advance_keep.
Qed.

Lemma collapse_inv m c ids m' a x : collapse m c ids m' → m' !! a = Some x → (a = c ∧ mode x = Done) ∨ (a ≠ c ∧ a ∉ ids ∧ m !! a = Some x).
Proof.
  intros [n n' Hc Hmode Hcomp Hids Hnd Hd Hid Hp Hch] [[<- <-]|[Hne Ha]]%lookup_insert_Some; [by left|right].
  rewrite remove_nodes_lookup in Ha. by destruct (decide (a ∈ ids)).
Qed.
Lemma collapse_keep m c ids m' a x : collapse m c ids m' → a ≠ c → ¬ below m c a → m !! a = Some x → m' !! a = Some x.
Proof.
  intros [n n' Hc Hmode Hcomp Hids Hnd Hd Hid Hp Hch] Hne Hb Ha. rewrite lookup_insert_ne, remove_nodes_lookup, decide_False; [done| |done].
  by intros (? & _)%Hids.
Qed.
Lemma collapse_below m c ids m' a j : collapse m c ids m' → ¬ below m c j → below m a j → below m' a j.
Proof.
  intros Hcol Hj Hb. induction Hb as [|i x k j Hi Hk Hb IH]; [constructor|]. eapply below_step; [|done|by apply IH].
  assert (Hci : ¬ below m c i) by (intros Hci; apply Hj; eapply below_trans; [done|]; by eapply below_step).
  eapply collapse_keep; [done| |done|done]. intros ->. apply Hci. constructor.
Qed.
Lemma collapse_busy m root c ids m' : shaped m root → collapse m c ids m' → busy_except m c →
  ∃ n, m !! c = Some n ∧ match parent_id n with Some p => busy_except m' p | None => all_busy m' end.
Proof.
  intros Hm Hcol He. assert (Hc : ∃ n, m !! c = Some n ∧ mode n = Decomposed ∧ complete m c) by (destruct Hcol; eauto).
  destruct Hc as (n & Hc & Hmode & Hcomp). exists n. split; [done|].
  assert (H : ∀ a x, m' !! a = Some x → mode x = Decomposed → match parent_id n with Some p => below m' a p | None => False end ∨ busy m' a).
  { intros a x Ha Hx. destruct (collapse_inv _ _ _ _ _ _ Hcol Ha) as [[_ ?]|(Hne & Hin & Ham)]; [congruence|].
    destruct (He a x Ham Hx) as [Hb|(j & y & Hb & Hj & Hact)].
    - left. destruct (below_last m root Hm a c Hb) as [|(k & p & Hk & Hp & Hbp)]; [done|]. assert (k = n) as -> by congruence.
      rewrite Hp. eapply collapse_below; [done| |done]. intros Hcp. pose proof (below_parent m root Hm c n p Hc Hp) as Hpc.
      pose proof (parent_shorter m root Hm c n p Hc Hp). rewrite (below_antisym m root Hm c p Hcp Hpc) in *. lia.
    - right. assert (Hcj : ¬ below m c j) by (intros Hcj; rewrite (Hcomp j y Hcj Hj) in Hact; done).
      exists j, y. split_and!; [by eapply collapse_below| |done]. eapply collapse_keep; [done| |done|done].
      intros ->. apply Hcj. constructor. }
  destruct (parent_id n); intros a x Ha Hx; destruct (H a x Ha Hx); tauto.
Qed.
