(* ===== verification/FreerunSteps.v ===== *)
(** The steps of the freerun engine on a store that keeps its promises: an
    iteration is an [advance] of the tree, a consolidation a sequence of
    [collapse]s, and neither fails. *)

From S2P Require Import Prelude JsString Json FreerunNode FreerunTree FreerunRender FreerunCheck FreerunEngine FreerunShape.
Open Scope nat_scope.

Notation max_safe := 9007199254740991%Z (only parsing).

Lemma parseExecutionOutcome_ok s o : parseExecutionOutcome s = Some o → outcome_ok o.
Proof.
  unfold parseExecutionOutcome. destruct (stripFencingAndPreamble s) as [t|]; [|done]. cbn [mbind option_bind].
  destruct (parse t) as [v|] eqn:E; [|done]. cbn [mbind option_bind]. apply dec_execution_ok. by eapply parse_ok.
Qed.

(** ** Sound nodes *)

(** The node can be written, and still counts [k] iterations. *)
Record sound (k : nat) (n : ContextNode) : Prop := {
  so_ok : node_ok n;
  so_body : fence_free (body n);
  so_count : (iteration_count n + Z.of_nat k <= max_safe)%Z }.

Lemma fence_free_prefix a b : fence_free (a ++ b) → fence_free a.
Proof. intros H pre [post Hp]. apply (H pre). exists (post ++ b). rewrite Hp. by rewrite <- !app_assoc. Qed.
Lemma stored_sound k n : sound k n → sound k (stored n).
Proof.
  intros [H1 H2 H3]. split; [by apply stored_ok| |done]. simpl. destruct (trimEnd_prefix (body n)) as [b Hb].
  rewrite Hb in H2. by eapply fence_free_prefix.
Qed.
Lemma sound_weaken k n : sound (S k) n → sound k n.
Proof. intros [H1 H2 H3]. split; [done|done|]. lia. Qed.

Lemma id_ok_app a b : id_ok a = true → forallb id_char b = true → id_ok (a ++ b) = true.
Proof.
  destruct a as [|c a]; [done|]. simpl. intros [Hc Ha]%andb_true_iff Hb. rewrite Hc, forallb_app, Ha, Hb. done.
Qed.
Lemma id_ok_chars a : id_ok a = true → forallb id_char a = true.
Proof. destruct a as [|c a]; [done|]. simpl. intros [Hc Ha]%andb_true_iff. rewrite Ha. unfold id_char. by rewrite Hc. Qed.
Lemma ensure_id_ok p c : id_ok p = true → id_ok c = true → id_ok (ensureNamespacedChildId p c) = true.
Proof.
  intros Hp Hc. unfold ensureNamespacedChildId. destruct (startsWith c _); [done|]. case_bool_decide.
  - by apply id_ok_app.
  - apply id_ok_app; [done|]. change (js "." ++ c) with (46%N :: c). simpl. by apply id_ok_chars.
Qed.

Lemma new_child_sound k p now c : id_ok p = true → id_ok (c_id c) = true → nonempty (c_title c) → fence_free (c_body c) →
  (Z.of_nat k <= max_safe)%Z → sound k (new_child p now c).
Proof.
  intros Hp Hi Ht Hb Hk. split; [|done|simpl; lia]. split; simpl; try done; try constructor; try lia. by apply ensure_id_ok.
Qed.
Lemma with_children_sound k n ids now : sound (S k) n → sound k (with_children n ids now).
Proof.
  intros [[H1 H2 H3 H4 H5 H6 H7 H8] Hb Hc]. split; [|done|simpl; lia]. split; simpl; try done. lia.
Qed.
Lemma blocked_sound k n now reason : sound (S k) n → nonempty reason → sound k (blocked_node n now reason).
Proof.
  intros [[H1 H2 H3 H4 H5 H6 H7 H8] Hb Hc] Hr. split; [|done|simpl; lia]. split; simpl; try done; [lia|].
  apply Forall_app. split; [done|]. by repeat constructor.
Qed.
Lemma merged_sound k n o now : sound (S k) n → outcome_ok o → sound k (merged n o now).
Proof.
  intros [[H1 H2 H3 H4 H5 H6 H7 H8] Hb Hc] [O1 O2 O3 O4]. split; [|done|simpl; lia]. split; simpl; try done; [lia|..].
  - by apply Forall_app.
  - by apply Forall_app.
  - case_bool_decide; [by apply Forall_app|done].
  - by destruct (o_results o).
Qed.
Lemma consolidated_sound k n summary now : sound k n → sound k (consolidated n summary now).
Proof. intros [[H1 H2 H3 H4 H5 H6 H7 H8] Hb Hc]. split; [|done|done]. by split. Qed.

(** ** The store *)

(** The planned names differ and have no dot of their own, the bodies can be
    written, and the modes are among [Q]. *)
Record plan_ok (Q : NodeMode → Prop) (p : jsstr) (cs : list PlannedChild) : Prop := {
  pl_nodup : NoDup (map (λ c, ensureNamespacedChildId p (c_id c)) cs);
  pl_name c : c ∈ cs → ∃ x, ensureNamespacedChildId p (c_id c) = p ++ dot :: x ∧ dot ∉ x;
  pl_body c : c ∈ cs → fence_free (c_body c);
  pl_mode c : c ∈ cs → Q (default PendingPlan (c_mode c)) }.

Record wf {fs} `{NodeStoreLaws fs} (root : jsstr) (k : nat) (s : fs) : Prop := {
  wf_consistent : consistent s;
  wf_shaped : shaped (content s) root;
  wf_sound i n : content s !! i = Some n → sound k n
}.

Section Steps.
Context {fs : Type} `{NodeStoreLaws fs}.
Context (zod_error : json → jsstr) (catalog : list ToolRecord) (cfg : ExperimentConfig) (llm : LlmClient) (root : jsstr).
Context (Q : NodeMode → Prop).

Lemma wf_weaken k s : wf root (S k) s → wf root k s.
Proof. intros [H1 H2 H3]. split; [done|done|]. intros i n Hi. by eapply sound_weaken, H3. Qed.

Lemma load_nodes_ok s ids acc r : consistent s → shaped (content s) root →
  (∀ i, i ∈ ids → is_Some (content s !! i)) → (r = None ∨ r = Some root) →
  ∃ acc', load_nodes ids acc r s = Ret (acc', if decide (root ∈ ids) then Some root else r) ∧
    ∀ i, acc' !! i = if decide (i ∈ ids) then content s !! i else acc !! i.
Proof.
  intros Hs Hm. revert acc r. induction ids as [|j ids IH]; intros acc r Hids Hr; [by exists acc|].
  simpl. destruct (Hids j) as [n Hn]; [left|]. rewrite (ns_read_spec s j Hs), Hn.
  assert (Hrest : ∀ i, i ∈ ids → is_Some (content s !! i)) by (intros; apply Hids; by right).
  assert (Hlook : ∀ acc' : gmap jsstr ContextNode,
    (∀ i, acc' !! i = if decide (i ∈ ids) then content s !! i else <[j := n]> acc !! i) →
    ∀ i, acc' !! i = if decide (i ∈ j :: ids) then content s !! i else acc !! i).
  { intros acc' Ha i. rewrite Ha. destruct (decide (i ∈ ids)) as [Hi|Hi]; [by rewrite decide_True by (by right)|].
    destruct (decide (i = j)) as [->|Hne]; [by rewrite lookup_insert_eq, decide_True by left|].
    rewrite lookup_insert_ne, decide_False by (done || (intros [?|?]%elem_of_cons; congruence)). done. }
  destruct (parent_id n) as [p|] eqn:Hp.
  - destruct (IH (<[j := n]> acc) r Hrest Hr) as (acc' & Hl & Ha). exists acc'. split; [|by apply Hlook]. rewrite Hl.
    assert (Hne : root ≠ j). { intros <-. destruct (sh_root _ _ Hm) as (r' & Hr' & Hrp). congruence. }
    by rewrite (decide_ext (root ∈ j :: ids) (root ∈ ids)) by (rewrite elem_of_cons; tauto).
  - assert (j = root) as -> by (by eapply sh_top). destruct (IH (<[root := n]> acc) (Some root) Hrest) as (acc' & Hl & Ha); [by right|].
    exists acc'. split; [|by apply Hlook]. rewrite decide_True by left.
    assert (Hr' : (if decide (root ∈ ids) then Some root else Some root) = Some root) by (by destruct (decide _)). rewrite Hr' in Hl.
    destruct Hr as [->| ->]; [done|]. by rewrite bool_decide_eq_false_2 by (intros Hne; by destruct Hne).
Qed.
Lemma load_ok k s : wf root k s → load s = (s, Ret (Snap (content s) root)).
Proof.
  intros [Hs Hm _]. destruct (sh_root _ _ Hm) as (r & Hr & _).
  assert (Hin : root ∈ ns_list s) by (apply ns_list_spec; eauto).
  destruct (load_nodes_ok s (ns_list s) ∅ None Hs Hm) as (acc & Hl & Ha); [intros i; by apply ns_list_spec|by left|].
  rewrite decide_True in Hl by done. unfold load. destruct (ns_list s) as [|i ids] eqn:E; [no_member|]. rewrite <- E in *. rewrite Hl.
  assert (acc = content s) as ->; [|done]. apply map_eq. intros j. rewrite Ha.
  destruct (decide (j ∈ ns_list s)) as [|Hj]; [done|]. rewrite lookup_empty. destruct (content s !! j) eqn:Ej; [|done].
  destruct Hj. apply ns_list_spec; eauto.
Qed.
Lemma write_ok k s n : consistent s → sound k n →
  ∃ s', write n s = (s', Ret tt) ∧ consistent s' ∧ content s' = <[id n := stored n]> (content s) ∧ archived s' = archived s.
Proof.
  intros Hs [Hok Hb _]. destruct (ns_write_spec s n Hs Hok Hb) as (s' & Hw & Hc & Hm & Ha). exists s'.
  unfold write, change. by rewrite Hw.
Qed.

Definition stored_child (p now : jsstr) (c : PlannedChild) : ContextNode := stored (new_child p now c).
Lemma write_children_ok k p now cs s : consistent s → Forall (λ c, sound k (new_child p now c)) cs →
  ∃ s', write_children p now cs s = (s', Ret tt) ∧ consistent s' ∧
    content s' = add_nodes (map (stored_child p now) cs) (content s) ∧ archived s' = archived s.
Proof.
  intros Hs Hcs. revert s Hs. induction Hcs as [|c cs Hc Hcs IH]; intros s Hs; [by exists s|].
  destruct (write_ok k s _ Hs Hc) as (s1 & Hw & Hs1 & Hm1 & Ha1). destruct (IH s1 Hs1) as (s2 & Hw2 & Hs2 & Hm2 & Ha2).
  exists s2. simpl. unfold mbind, eff_bind. rewrite Hw, Hw2. split_and!; [done|done| |congruence].
  rewrite Hm2, Hm1. done.
Qed.

(** The sound nodes of a store after a write. *)
Lemma sound_insert (k : nat) (m : gmap jsstr ContextNode) (i : jsstr) n : (∀ j x, m !! j = Some x → sound k x) → sound k n →
  ∀ j x, <[i := n]> m !! j = Some x → sound k x.
Proof. intros Hm Hn j x [[_ <-]|[_ Hj]]%lookup_insert_Some; [done|by eapply Hm]. Qed.
Lemma sound_add (k : nat) (ks : list ContextNode) (m : gmap jsstr ContextNode) : (∀ j x, m !! j = Some x → sound k x) → Forall (sound k) ks →
  ∀ j x, add_nodes ks m !! j = Some x → sound k x.
Proof.
  intros Hm Hks. revert m Hm. induction Hks as [|y ks Hy Hks IH]; intros m Hm j x; simpl; [apply Hm|].
  apply IH. by apply sound_insert.
Qed.

(** The result of an iteration. *)
Definition touched (r : IterateResult) : option jsstr :=
  match r with Advanced i _ => Some i | BlockedNode i _ => Some i | Settled => None end.

Lemma update_ok k s i n n' : wf root (S k) s → content s !! i = Some n → isActionable n = true → sound k n' →
  settled_mode (mode n') → id n' = i → parent_id n' = parent_id n → children_ids n' = children_ids n →
  ∃ s', write n' s = (s', Ret tt) ∧ wf root k s' ∧ archived s' = archived s ∧ advance Q (content s) i (content s').
Proof.
  intros Hw Hi Ha Hn' Hmode Hid Hp Hc. pose proof (wf_weaken _ _ Hw) as [Hs Hm Hso].
  destruct (write_ok k s n' Hs Hn') as (s' & Hwr & Hs' & Hm' & Ha'). exists s'.
  assert (Hadv : advance Q (content s) i (content s')).
  { rewrite Hm', Hid. by eapply (advance_outcome Q _ _ n (stored n')). }
  split_and!; [done| |done|done]. split; [done|by eapply advance_shaped|].
  rewrite Hm'. apply sound_insert; [done|by apply stored_sound].
Qed.
Lemma blockNode_ok k s i n now reason : wf root (S k) s → content s !! i = Some n → isActionable n = true → nonempty reason →
  ∃ s', blockNode n now reason s = (s', Ret (BlockedNode (id n) reason)) ∧ wf root k s' ∧ archived s' = archived s ∧
    advance Q (content s) i (content s').
Proof.
  intros Hw Hi Ha Hr. destruct (update_ok k s i n (blocked_node n now reason) Hw Hi Ha) as (s' & Hwr & ?); try done.
  - apply blocked_sound; [by eapply wf_sound|done].
  - by right; left.
  - simpl. by eapply sh_id, Hi; apply Hw.
  - exists s'. unfold blockNode, mbind, eff_bind. rewrite Hwr. done.
Qed.

(** ** An iteration *)

Definition plans_ok : Prop :=
  ∀ iteration navBand detail n cs, planned zod_error llm iteration navBand detail n = Ret cs → plan_ok Q (id n) cs.

Lemma planned_decoded iteration navBand detail n cs : planned zod_error llm iteration navBand detail n = Ret cs →
  cs ≠ [] ∧ Forall (λ c, id_ok (c_id c) = true ∧ nonempty (c_title c)) cs.
Proof.
  unfold planned. destruct (callPlanning _ _ _ _ _) as [e|raw]; [done|]. destruct (dec_planning raw) as [cs'|] eqn:E; [|done].
  destruct (assertValid cs'); [done|]. intros [= <-]. by eapply dec_planning_ok.
Qed.

Lemma runPlanning_ok k s i n iteration navBand detail now : plans_ok → wf root (S k) s → content s !! i = Some n → mode n = PendingPlan →
  ∃ s' r, runPlanning zod_error llm iteration navBand detail n now s = (s', Ret r) ∧ wf root k s' ∧ archived s' = archived s ∧
    advance Q (content s) i (content s') ∧ touched r = Some i.
Proof.
  intros Hplan Hw Hi Hmode. assert (Ha : isActionable n = true) by (unfold isActionable; by rewrite Hmode).
  pose proof (sh_id _ _ (wf_shaped _ _ _ Hw) i n Hi) as Hid. subst i. unfold runPlanning.
  destruct (planned zod_error llm iteration navBand detail n) as [e|cs] eqn:Ep.
  { destruct (blockNode_ok k s (id n) n now (js "planning LLM call failed: " ++ e) Hw Hi Ha) as (s' & Hb & Hw' & Har & Hadv).
    - vm_compute. lia.
    - exists s', (BlockedNode (id n) (js "planning LLM call failed: " ++ e)). done. }
  destruct (planned_decoded _ _ _ _ _ Ep) as [Hne Hdec]. pose proof (Hplan _ _ _ _ _ Ep) as [Hnd Hname Hbody HQ].
  destruct (wf_weaken _ _ Hw) as [Hs Hm Hso]. pose proof (wf_sound _ _ _ Hw _ n Hi) as Hn.
  assert (Hcs : Forall (λ c, sound k (new_child (id n) now c)) cs).
  { rewrite Forall_forall in Hdec |- *. intros c Hc. destruct (Hdec c Hc). apply new_child_sound; [by apply Hn|done|done|by apply Hbody|].
    destruct Hn as [[] _ ?]. lia. }
  destruct (write_children_ok k (id n) now cs s Hs Hcs) as (s1 & Hw1 & Hs1 & Hm1 & Ha1).
  set (ids := map (λ c, ensureNamespacedChildId (id n) (c_id c)) cs) in *.
  assert (Hn' : sound k (with_children n ids now)) by (by apply with_children_sound).
  destruct (write_ok k s1 _ Hs1 Hn') as (s2 & Hw2 & Hs2 & Hm2 & Ha2).
  assert (Hadv : advance Q (content s) (id n) (content s2)).
  { rewrite Hm2, Hm1. change (id (with_children n ids now)) with (id n).
    apply (advance_plan Q _ _ n _ (map (stored_child (id n) now) cs)); try done.
    - by destruct cs.
    - apply Forall_map, Forall_forall. intros c Hc. split_and!; [done|done|]. by apply Hname.
    - rewrite map_map. exact Hnd.
    - apply Forall_map, Forall_forall. intros c Hc. by apply HQ.
    - simpl. rewrite (actionable_leaf _ root _ n Hm Hi Ha), map_map. done. }
  exists s2, (Advanced (id n) true). unfold mbind, eff_bind. rewrite Hw1. fold ids. rewrite Hw2.
  split_and!; [done| |congruence|done|done].
  split; [done|by eapply advance_shaped|]. rewrite Hm2. apply sound_insert; [|by apply stored_sound]. rewrite Hm1.
  apply sound_add; [done|]. apply Forall_map. eapply Forall_impl; [exact Hcs|]. intros c. apply stored_sound.
Qed.

Lemma attempt_ok iteration k filtered navBand detail n o f :
  attempt llm iteration k filtered navBand detail n = (Some o, f) → outcome_ok o.
Proof. unfold attempt. destruct (callExecution _ _ _ _ _ _ _) as [e|raw]; [done|]. intros [= Ho _]. by eapply parseExecutionOutcome_ok. Qed.
Lemma runExecution_ok k s i n iteration navBand detail now : wf root (S k) s → content s !! i = Some n → isActionable n = true →
  ∃ s' r, runExecution catalog llm iteration navBand detail n now s = (s', Ret r) ∧ wf root k s' ∧ archived s' = archived s ∧
    advance Q (content s) i (content s') ∧ touched r = Some i.
Proof.
  intros Hw Hi Ha. pose proof (sh_id _ _ (wf_shaped _ _ _ Hw) i n Hi) as Hid. unfold runExecution.
  destruct (attempt _ _ 0 _ _ _ _) as [o1 f1] eqn:E1. destruct (attempt _ _ 1 _ _ _ _) as [o2 f2] eqn:E2.
  set (r := match o1 with Some o => (Some o, f1) | None => (o2, f1 ++ f2) end).
  assert (Hr : match r.1 with Some o => outcome_ok o | None => True end).
  { destruct o1 as [o|]; [by eapply attempt_ok|]. destruct o2 as [o|]; [by eapply attempt_ok|done]. }
  destruct r as [[o|] f]; simpl in Hr.
  - destruct (update_ok k s i n (merged n o now) Hw Hi Ha) as (s' & Hwr & ?); try done.
    + apply merged_sound; [by eapply wf_sound|done].
    + simpl. unfold settled_mode. destruct (o_next_mode o); simpl; auto.
    + exists s', (Advanced (id n) false). unfold mbind, eff_bind. rewrite Hwr. simpl. rewrite Hid. tauto.
  - destruct (blockNode_ok k s i n now (js "execution output did not parse after 1 retry " ++ [8212; 32]%N ++ join (js "; ") f) Hw Hi Ha)
      as (s' & Hb & Hw' & Har & Hadv).
    + vm_compute. lia.
    + eexists s', _. split_and!; [exact Hb|done|done|done|by rewrite <- Hid].
Qed.

Lemma once_ok k s iteration now : plans_ok → wf root (S k) s →
  ∃ s' r o, once zod_error catalog cfg llm iteration now s = (s', Ret r) ∧ wf root k s' ∧ archived s' = archived s ∧
    pickNext (content s) root (top_levels_to_plan cfg) = Some o ∧ touched r = id <$> o ∧
    match touched r with
    | Some i => advance Q (content s) i (content s')
    | None => s' = s ∧ complete (content s) root
    end.
Proof.
  intros Hplan Hw. pose proof (wf_shaped _ _ _ Hw) as Hm. unfold once. unfold mbind at 1, eff_bind at 1. rewrite (load_ok (S k) s Hw).
  cbn [byId rootId]. pose proof (pickNext_ok (content s) root (top_levels_to_plan cfg) Hm) as Hpick.
  destruct (pickNext _ _ _) as [[n|]|]; [| |done].
  - destruct Hpick as [Hn Ha]. destruct (depthOf_total _ _ Hm _ _ Hn) as [d Hd].
    destruct (render_total _ _ Hm _ _ (ROpts (nav_band_policy cfg) (nav_band_token_budget cfg)) Hn) as [band Hband].
    unfold run_loop, or_throw, mbind, mret, eff_bind, eff_ret. rewrite Hd, Hband. case_bool_decide as Hmode.
    + destruct (runPlanning_ok k s (id n) n iteration (text band) (render_detail n) now Hplan Hw Hn Hmode) as (s' & r & -> & Hw' & Har & Hadv & Ht).
      exists s', r, (Some n). by rewrite Ht.
    + destruct (runExecution_ok k s (id n) n iteration (text band) (render_detail n) now Hw Hn Ha) as (s' & r & -> & Hw' & Har & Hadv & Ht).
      exists s', r, (Some n). by rewrite Ht.
  - exists s, Settled, None. split; [done|]. split; [by apply wf_weaken|]. done.
Qed.

(** ** Consolidation *)

Lemma archive_all_ok stamp ids s : consistent s → NoDup ids → (∀ i, i ∈ ids → is_Some (content s !! i)) →
  ∃ s', archive_all stamp ids s = (s', Ret tt) ∧ consistent s' ∧ content s' = remove_nodes ids (content s) ∧
    ∀ st i, archived s' !! (st, i) = if decide (st = stamp ∧ i ∈ ids) then content s !! i else archived s !! (st, i).
Proof.
  intros Hs Hnd. revert s Hs. induction Hnd as [|j ids Hj Hnd IH]; intros s Hs Hids.
  { exists s. split_and!; try done. intros st i. rewrite decide_False; [done|]. intros [_ ?]. no_member. }
  destruct (Hids j) as [n Hn]; [left|]. destruct (ns_archive_spec s stamp j n Hs Hn) as (s1 & Ha1 & Hs1 & Hm1 & Har1).
  destruct (IH s1 Hs1) as (s2 & Ha2 & Hs2 & Hm2 & Har2).
  { intros i Hi. rewrite Hm1, lookup_delete_ne by (intros ->; done). apply Hids. by right. }
  exists s2. simpl. unfold mbind, eff_bind, change. rewrite Ha1, Ha2. split_and!; [done|done|by rewrite Hm2, Hm1|].
  intros st i. rewrite Har2, Har1, Hm1. destruct (decide (st = stamp ∧ i ∈ ids)) as [[-> Hi]|Hno].
  - rewrite decide_True by (split; [done|by right]). by rewrite lookup_delete_ne by (intros ->; done).
  - destruct (decide (stamp = st ∧ j = i)) as [[<- <-]|Hne].
    + by rewrite lookup_insert_eq, decide_True by (split; [done|left]).
    + rewrite lookup_insert_ne by (intros [= ? ?]; tauto). rewrite decide_False; [done|].
      intros [-> [->|Hin]%elem_of_cons]; [by apply Hne|]. by apply Hno.
Qed.
Lemma descendants_ids m c : shaped m root → let ids := reverse (map id (descendants c (preorder m (size m) c))) in
  NoDup ids ∧ subtree_ids m c ids.
Proof.
  intros Hm ids. pose proof (graded_deep_size m c (shaped_graded m root Hm)) as Hdeep. split.
  - unfold ids. rewrite reverse_Permutation. apply NoDup_map_filter. by eapply preorder_nodup.
  - intros i. unfold ids. rewrite elem_of_reverse, list_elem_of_fmap. split.
    + intros (n & -> & [Hne Hin]%list_elem_of_filter). destruct (preorder_below m root Hm _ _ _ Hin) as [Hn Hb]. eauto.
    + intros (Hb & Hne & [n Hn]). pose proof (sh_id _ _ Hm i n Hn) as Hid. exists n. split; [done|]. apply list_elem_of_filter.
      split; [by rewrite Hid|]. apply elem_of_preorder; [done|]. by exists i.
Qed.

Definition gone (s : fs) (stamp : jsstr) (ids : list jsstr) (s' : fs) : Prop :=
  ∀ st i, archived s' !! (st, i) = if decide (st = stamp ∧ i ∈ ids) then content s !! i else archived s !! (st, i).
(** The summary of a subtree. *)
Definition summary_of (iteration : nat) (m : gmap jsstr ContextNode) (c : jsstr) (n : ContextNode) : result jsstr jsstr :=
  summarize llm iteration n (descendants c (preorder m (size m) c)).

Lemma complete_walk m c : shaped m root → isSubtreeComplete m c = Some (bool_decide (Forall (λ n, isActionable n = false) (preorder m (size m) c))) ∧
  (Forall (λ n, isActionable n = false) (preorder m (size m) c) ↔ complete m c).
Proof.
  intros Hm. pose proof (shaped_graded m root Hm) as Hg. split.
  - unfold isSubtreeComplete. rewrite walkDFS_graded by done. simpl. f_equal. induction (preorder m (size m) c) as [|n l IH]; [done|].
    simpl. destruct (isActionable n) eqn:E; simpl.
    + symmetry. apply bool_decide_eq_false_2. intros [? _]%Forall_cons. congruence.
    + rewrite IH. apply bool_decide_ext. rewrite Forall_cons. tauto.
  - rewrite Forall_forall. pose proof (elem_of_preorder m (size m) c) as He. split.
    + intros Hf j n Hb Hj. apply Hf, He; [by apply graded_deep_size|eauto].
    + intros Hc n Hn. apply He in Hn as (j & Hb & Hj); [by eapply Hc|by apply graded_deep_size].
Qed.

Lemma consolidate_one_ok k s iteration stamp now c : wf root k s →
  match content s !! c with
  | None => consolidate_one llm iteration stamp now c s = (s, Ret None)
  | Some n =>
      (mode n ≠ Decomposed ∧ consolidate_one llm iteration stamp now c s = (s, Ret (Some (parent_id n, false)))) ∨
      (mode n = Decomposed ∧ (¬ complete (content s) c ∨ ∃ e, summary_of iteration (content s) c n = Throw e) ∧
        consolidate_one llm iteration stamp now c s = (s, Ret None)) ∨
      (∃ ids s', consolidate_one llm iteration stamp now c s = (s', Ret (Some (parent_id n, true))) ∧ wf root k s' ∧
        collapse (content s) c ids (content s') ∧ gone s stamp ids s')
  end.
Proof.
  intros Hw. pose proof Hw as [Hs Hm Hso]. unfold consolidate_one, run_loop, or_throw, mbind, mret, eff_bind, eff_ret.
  rewrite (load_ok k s Hw). cbn beta iota delta [byId]. destruct (content s !! c) as [n|] eqn:Hc; [|done].
  pose proof (sh_id _ _ Hm c n Hc) as Hid. subst c. destruct (decide (mode n = Decomposed)) as [Hmode|Hmode].
  2: { left. split; [done|]. rewrite bool_decide_eq_false_2 by done. done. }
  right. rewrite bool_decide_eq_true_2 by done. simpl negb. cbn iota.
  destruct (complete_walk (content s) (id n) Hm) as [Hwalk Hcomp].
  rewrite Hwalk. case_bool_decide as Hf; simpl negb; cbn iota.
  2: { left. split; [done|]. split; [left; by rewrite <- Hcomp|done]. }
  rewrite walkDFS_graded by (by eapply shaped_graded). destruct (summarize _ _ _ _) as [e|summary] eqn:Esum.
  { left. split; [done|]. split; [right; by exists e|done]. }
  right. rewrite Hc. destruct (descendants_ids (content s) (id n) Hm) as [Hnd Hids]. set (ids := reverse _) in *.
  destruct (archive_all_ok stamp ids s Hs Hnd) as (s1 & Ha1 & Hs1 & Hm1 & Har1); [intros i Hi; by apply Hids|].
  assert (Hn' : sound k (consolidated n summary now)) by (by eapply consolidated_sound, Hso).
  destruct (write_ok k s1 _ Hs1 Hn') as (s2 & Hw2 & Hs2 & Hm2 & Har2). exists ids, s2.
  cbn [negb]. cbv beta iota. rewrite Ha1, Hw2.
  assert (Hcol : collapse (content s) (id n) ids (content s2)).
  { rewrite Hm2, Hm1. change (id (consolidated n summary now)) with (id n).
    apply (collapse_ _ _ ids n); try done. by apply Hcomp. }
  split_and!; [done| |done|intros st i; rewrite Har2; apply Har1].
  split; [done|by eapply collapse_shaped|]. rewrite Hm2. apply sound_insert; [|by apply stored_sound]. rewrite Hm1.
  intros j x Hj. rewrite remove_nodes_lookup in Hj. destruct (decide _); [done|]. by eapply Hso.
Qed.

(** ** The steps of a session *)

Inductive collapse_step : fs → fs → Prop :=
| step_collapse c ids stamp s s' : collapse (content s) c ids (content s') → gone s stamp ids s' → collapse_step s s'.
(** Archived and consolidated, or the outcome of an iteration. *)
Inductive engine_step : fs → fs → Prop :=
| step_advance i s s' : advance Q (content s) i (content s') → archived s' = archived s → engine_step s s'
| step_consolidate s s' : collapse_step s s' → engine_step s s'.

Definition sums_ok : Prop := ∀ iteration n l e, summarize llm iteration n l ≠ Throw e.

Lemma filter_shorter (K : list jsstr) (p c : jsstr) : p ∈ K → length p < length c →
  length (filter (λ j : jsstr, length j < length p) K) < length (filter (λ j : jsstr, length j < length c) K).
Proof.
  intros Hp Hl. induction K as [|x K IH]; [no_member|]. rewrite !filter_cons.
  assert (Hle : length (filter (λ j : jsstr, length j < length p) K) ≤ length (filter (λ j : jsstr, length j < length c) K)).
  { clear IH Hp. induction K as [|y K IH]; [done|]. rewrite !filter_cons. repeat case_decide; simpl; lia. }
  apply elem_of_cons in Hp as [<-|Hp]; [|specialize (IH Hp)]; repeat case_decide; simpl; lia.
Qed.

(** The candidates left have fewer and fewer names above them. *)
Definition above (K : list jsstr) (o : option jsstr) : nat :=
  match o with None => 0 | Some c => S (length (filter (λ j : jsstr, length j < length c) K)) end.
Lemma above_parent K m c n : shaped m root → (∀ i, is_Some (m !! i) → i ∈ K) → m !! c = Some n → above K (parent_id n) < above K (Some c).
Proof.
  intros Hm HK Hc. destruct (parent_id n) as [p|] eqn:Hp; simpl; [|lia]. apply -> Nat.succ_lt_mono. apply filter_shorter.
  - apply HK. destruct (sh_parent _ _ Hm c n p Hc Hp) as (q & Hq & _). eauto.
  - by eapply parent_shorter.
Qed.
Definition in_question (m : gmap jsstr ContextNode) (o : option jsstr) : Prop :=
  match o with Some c => is_Some (m !! c) ∧ busy_except m c | None => all_busy m end.
Lemma parent_in_question m m' c n : shaped m root → m !! c = Some n → (∀ p q, p ≠ c → ¬ below m c p → m !! p = Some q → m' !! p = Some q) →
  match parent_id n with Some p => busy_except m' p | None => all_busy m' end → in_question m' (parent_id n).
Proof.
  intros Hm Hc Hkeep Hb. destruct (parent_id n) as [p|] eqn:Hp; [|done]. split; [|done].
  destruct (sh_parent _ _ Hm c n p Hc Hp) as (q & Hq & _). exists q. pose proof (parent_shorter _ _ Hm c n p Hc Hp).
  apply Hkeep; [intros ->; lia| |done]. intros Hcp. apply (below_length _ _ Hm) in Hcp as [->|]; lia.
Qed.

Lemma consolidate_loop_ok k K iteration stamp now fuel o count s : wf root k s → (∀ i, is_Some (content s !! i) → i ∈ K) → above K o ≤ fuel →
  ∃ s' n, consolidate_loop llm fuel iteration stamp now o count s = (s', Ret n) ∧ wf root k s' ∧ rtc collapse_step s s' ∧
    (sums_ok → in_question (content s) o → all_busy (content s')).
Proof.
  revert o count s. induction fuel as [|fuel IH]; intros [c|] count s Hw HK Hf;
    [simpl in Hf; lia|by exists s, count| |by exists s, count].
  pose proof (wf_shaped _ _ _ Hw) as Hm. pose proof (consolidate_one_ok k s iteration stamp (now count) c Hw) as Hone.
  cbn [consolidate_loop]. unfold mbind, eff_bind. destruct (content s !! c) as [n|] eqn:Hc.
  2: { rewrite Hone. exists s, count. split_and!; [done|done|constructor|]. intros _ [[x Hx] _]. congruence. }
  pose proof (above_parent K _ c n Hm HK Hc) as Hlt.
  destruct Hone as [[Hmode ->]|[(Hmode & Hwhy & ->)|(ids & s' & -> & Hw' & Hcol & Hgone)]].
  - destruct (IH (parent_id n) count s Hw HK) as (s' & r & Hl & Hw' & Hst & Hb); [lia|]. exists s', r. split_and!; [done..|].
    intros Hsum [_ Hq]. apply Hb; [done|]. eapply parent_in_question; [done|done|done|]. by eapply busy_up.
  - exists s, count. split_and!; [done|done|constructor|]. intros Hsum [_ Hq]. destruct Hwhy as [Hn|[e He]]; [|by apply Hsum in He].
    apply (busy_found _ c); [by eapply not_complete_busy|done].
  - destruct (IH (parent_id n) (S count) s' Hw') as (s2 & r & Hl & Hw2 & Hst & Hb); [|lia|].
    + intros i [x Hi]. apply HK. destruct (collapse_inv _ _ _ _ _ _ Hcol Hi) as [[-> _]|(_ & _ & Ha)]; eauto.
    + exists s2, r. split_and!; [done|done| |].
      * eapply rtc_l; [|done]. by eapply step_collapse.
      * intros Hsum [_ Hq]. apply Hb; [done|]. eapply (parent_in_question (content s) _ c n); [done|done| |].
        { intros p q ? ? ?. by eapply collapse_keep. }
        destruct (collapse_busy _ _ _ _ _ Hm Hcol Hq) as (n' & Hn' & Hb'). assert (n' = n) as -> by congruence. done.
Qed.
Lemma consolidate_ok k iteration now c s : wf root k s →
  ∃ s' n, consolidate llm iteration now c s = (s', Ret n) ∧ wf root k s' ∧ rtc collapse_step s s' ∧
    (sums_ok → is_Some (content s !! c) → busy_except (content s) c → all_busy (content s')).
Proof.
  intros Hw. destruct (consolidate_loop_ok k (ns_list s) iteration (makeArchiveStamp (now 0)) (λ j, now (S j)) (S (length (ns_list s))) (Some c) 0 s Hw)
    as (s' & n & Hl & Hw' & Hst & Hb).
  - intros i Hi. apply ns_list_spec; [apply Hw|done].
  - simpl. apply -> Nat.succ_le_mono. apply length_filter.
  - exists s', n. split_and!; [exact Hl|done|done|]. intros Hsum Hc Hq. by apply Hb.
Qed.
End Steps.
