(* ===== verification/FreerunStore.v ===== *)
(** Text files as the store of the freerun engine ([freerun/storage/node-fs.ts]):
    the operations of [NodeFS] on a directory and its archives, which keep the
    promises of [NodeStoreLaws]. *)

From S2P Require Import Prelude JsString Json FreerunNode FreerunTree FreerunRender FreerunCheck FreerunEngine.
Open Scope nat_scope.

Module NodeFS.
(** The files [tree/<id>.md], and those under [tree/.archive/<stamp>/]. *)
Record files := Files { tree : gmap jsstr jsstr; archives : gmap (jsstr * jsstr) jsstr }.

Definition list (s : files) : list jsstr := (map_to_list (tree s)).*1.
Definition read (i : jsstr) (s : files) : option ContextNode := tree s !! i ≫= deserialize.
Definition write (n : ContextNode) (s : files) : option files :=
  text ← serialize n; Some (Files (<[id n := text]> (tree s)) (archives s)).
Definition archive (stamp i : jsstr) (s : files) : option files :=
  text ← tree s !! i; Some (Files (delete i (tree s)) (<[(stamp, i) := text]> (archives s))).
End NodeFS.

#[export] Instance files_store : NodeStore NodeFS.files :=
  { ns_list := NodeFS.list; ns_read := NodeFS.read; ns_write := NodeFS.write; ns_archive := NodeFS.archive }.

(** Every file of the tree can be read. *)
Definition readable (s : NodeFS.files) : Prop := ∀ i text, NodeFS.tree s !! i = Some text → is_Some (deserialize text).

#[export] Program Instance files_laws : NodeStoreLaws NodeFS.files := {
  consistent := readable;
  content s := omap deserialize (NodeFS.tree s);
  archived s := omap deserialize (NodeFS.archives s) }.
Next Obligation.
  intros s i Hs. simpl. unfold NodeFS.list. rewrite lookup_omap. split.
  - intros ([j text] & -> & Hin)%list_elem_of_fmap. apply elem_of_map_to_list in Hin. simpl. rewrite Hin. simpl. by eapply Hs.
  - intros [n Hn]. destruct (NodeFS.tree s !! i) as [text|] eqn:E; [|done]. apply list_elem_of_fmap. exists (i, text).
    by rewrite elem_of_map_to_list.
Qed.
Next Obligation. intros s _. apply NoDup_fst_map_to_list. Qed.
Next Obligation. intros s i _. simpl. by rewrite lookup_omap. Qed.
Next Obligation.
  intros s n Hs Hn Hb. destruct (serialize_deserialize n Hn Hb) as (text & Ht & Hd). simpl. unfold NodeFS.write. rewrite Ht. simpl.
  eexists. split; [done|]. simpl. split; [|split; [|done]].
  - intros i t Hi. simpl in Hi. apply lookup_insert_Some in Hi as [[_ <-]|[_ Hi]]; [by eexists|by eapply Hs].
  - by rewrite omap_insert, Hd.
Qed.
Next Obligation.
  intros s st i n Hs Hi. simpl in *. unfold NodeFS.archive. rewrite lookup_omap in Hi. destruct (NodeFS.tree s !! i) as [text|] eqn:E; [|done].
  simpl in *. eexists. split; [done|]. simpl. split; [|split].
  - intros j t Hj. simpl in Hj. apply lookup_delete_Some in Hj as [_ Hj]. by eapply Hs.
  - by rewrite omap_delete.
  - by rewrite omap_insert, Hi.
Qed.
