(* ===== verification/FreerunRun.v ===== *)
(** A session of the freerun engine: what holds of the tree, the archive and the
    summary whatever the model answers.

    The hypotheses on the model are that the names it plans are new ([plans_ok],
    without which the examples at the end show what happens), and for the last
    theorems that summaries do not fail. *)

From S2P Require Import Prelude JsString Json FreerunNode FreerunTree FreerunRender FreerunCheck FreerunEngine FreerunShape FreerunSteps FreerunStore.
Open Scope nat_scope.

Section Run.
Context {fs : Type} `{NodeStoreLaws fs}.
Context (zod_error : json → jsstr) (catalog : list ToolRecord) (cfg : ExperimentConfig) (llm : LlmClient) (root : jsstr).
Context (Q : NodeMode → Prop) (Hplan : plans_ok zod_error llm Q).
Notation engine_step := (engine_step Q).

Lemma wf_zero k s : wf root k s → wf root 0 s.
Proof. induction k; [done|]. intros Hw%wf_weaken. auto. Qed.

Lemma run_iterations_ok clock rem it blockedIds s : wf root rem s →
  ∃ s' sum, run_iterations zod_error catalog cfg llm clock rem it blockedIds s = (s', Some sum) ∧ wf root 0 s' ∧ rtc engine_step s s' ∧
    it ≤ totalIterations sum ≤ it + rem ∧
    (finalStatus sum = StDone ∧ complete (content s') root ∨ finalStatus sum = CapReached ∧ totalIterations sum = it + rem) ∧
    (sums_ok llm → (∀ md, Q md → md ≠ Decomposed) → all_busy (content s) → all_busy (content s')).
Proof.
  revert it blockedIds s. induction rem as [|rem IH]; intros it blockedIds s Hw.
  { exists s, (Summary it CapReached blockedIds). split_and!; simpl; try done; try lia. right. split; [done|lia]. }
  cbn [run_iterations]. destruct (once_ok zod_error catalog cfg llm root Q rem s it (clock it 0) Hplan Hw) as (s1 & r & o & -> & Hw1 & Har & _ & _ & Hr).
  destruct (touched r) as [i|] eqn:Et.
  2: { destruct r; try done. destruct Hr as [-> Hc]. exists s, (Summary it StDone blockedIds). split_and!; simpl; try done; try lia; [by eapply wf_zero|by left]. }
  destruct (consolidate_ok llm root rem it (λ j, clock it (S j)) i s1 Hw1) as (s2 & n & Hcons & Hw2 & Hst & Hb).
  assert (Hnext : ∃ bl, match r with BlockedNode i _ => (i, blockedIds ++ [i]) | Advanced i _ => (i, blockedIds) | Settled => ([], blockedIds) end = (i, bl)).
  { destruct r; simplify_eq/=; eauto. }
  destruct Hnext as [bl Hbl]. destruct (IH (S it) bl s2 Hw2) as (s' & sum & Hrun & Hw' & Hst' & Hit & Hend & Hlive).
  exists s', sum. split_and!; [|done| |lia|lia| |].
  - destruct r; [| done|]; simplify_eq/=; by rewrite Hcons.
  - eapply rtc_l; [by eapply step_advance|]. etrans; [|done]. eapply rtc_subrel; [|done]. by constructor.
  - destruct Hend as [?|[? ?]]; [by left|right]. split; [done|lia].
  - intros Hsum HQ Hall. pose proof (wf_shaped _ _ _ Hw) as Hm. apply Hlive; [done|done|]. apply Hb; [done| |by eapply advance_busy].
    destruct Hr; rewrite lookup_insert_eq; eauto.
Qed.

(** ** Nothing is lost *)

(** An archived node is out of the tree and was the child of a node that is
    consolidated or archived. *)
Definition buried (s : fs) : Prop := ∀ st i n, archived s !! (st, i) = Some n →
  content s !! i = None ∧ ∃ p, parent_id n = Some p ∧ (∃ x, i = p ++ dot :: x ∧ dot ∉ x) ∧
    ((∃ q, content s !! p = Some q ∧ mode q = Done) ∨ ∃ st' n', archived s !! (st', p) = Some n').
Definition known (s : fs) (i : jsstr) : Prop := is_Some (content s !! i) ∨ ∃ st, is_Some (archived s !! (st, i)).

Lemma advance_buried i s s' : shaped (content s) root → advance Q (content s) i (content s') → archived s' = archived s → buried s → buried s'.
Proof.
  intros Hm Hadv Ha Hbur st j n Hj. rewrite Ha in Hj. destruct (Hbur st j n Hj) as (Hno & p & Hp & (x & Hx & Hd) & Hup).
  assert (Hact : ∃ y, content s !! i = Some y ∧ isActionable y = true).
  { destruct Hadv as [y ? Hy|y ? ? Hy Hmode]; exists y; split; try done. unfold isActionable. by rewrite Hmode. }
  destruct Hact as (y & Hy & Hact). split.
  - destruct (content s' !! j) as [z|] eqn:Hz; [|done]. exfalso. assert (Hji : j ≠ i) by congruence.
    destruct Hadv as [y' n' Hy'|y' n' ks Hy' Hmode Hks Hchild Hnd]; rewrite lookup_insert_ne in Hz by done; [congruence|].
    apply add_nodes_inv in Hz as [[Hin Hid]|[_ ?]]; [|congruence|done]. rewrite Forall_forall in Hchild.
    destruct (Hchild z Hin) as (_ & _ & x' & Hx' & Hd'). rewrite Hid, Hx in Hx'. apply last_part in Hx' as [-> _]; [|done..].
    destruct Hup as [(q & Hq & Hqm)|(st' & n'' & Hn'')]; [|by apply Hbur in Hn'' as [? _]; congruence].
    assert (q = y) as -> by congruence. unfold isActionable in Hact. by rewrite Hqm in Hact.
  - exists p. split; [done|]. split; [by eauto|]. rewrite Ha. destruct Hup as [(q & Hq & Hqm)|]; [left|by right]. exists q. split; [|done].
    eapply advance_keep; [done|done| |done]. intros ->. assert (q = y) as -> by congruence. unfold isActionable in Hact. by rewrite Hqm in Hact.
Qed.

Lemma collapse_ids m c ids m' i : collapse m c ids m' → i ∈ ids ↔ below m c i ∧ i ≠ c ∧ is_Some (m !! i).
Proof. intros [n n' Hc Hmode Hcomp Hids]. apply Hids. Qed.
Lemma archive_grows c ids stamp s s' : collapse (content s) c ids (content s') → gone s stamp ids s' → buried s →
  archived s ⊆ archived s'.
Proof.
  intros Hcol Hgone Hbur. apply map_subseteq_spec. intros [st i] n Hi. rewrite Hgone. destruct (decide _) as [[_ Hin]|]; [|done].
  apply (collapse_ids _ _ _ _ i Hcol) in Hin as (_ & _ & [x Hx]). destruct (Hbur st i n Hi). congruence.
Qed.
Lemma collapse_buried c ids stamp s s' : shaped (content s) root → collapse (content s) c ids (content s') → gone s stamp ids s' →
  buried s → buried s'.
Proof.
  intros Hm Hcol Hgone Hbur st j n Hj. pose proof (archive_grows _ _ _ _ _ Hcol Hgone Hbur) as Hsub. rewrite map_subseteq_spec in Hsub.
  assert (Hc : ∃ y, content s !! c = Some y ∧ mode y = Decomposed) by (destruct Hcol; eauto). destruct Hc as (y & Hy & Hmode).
  assert (Hout : ∀ i x, content s' !! i = Some x → i ∉ ids ∧ is_Some (content s !! i)).
  { intros i x Hi. destruct (collapse_inv _ _ _ _ _ _ Hcol Hi) as [[-> _]|(_ & ? & ?)]; [|eauto].
    split; [|eauto]. intros (_ & ? & _)%(collapse_ids _ _ _ _ _ Hcol). done. }
  assert (Hdone : ∃ y', content s' !! c = Some y' ∧ mode y' = Done).
  { destruct Hcol as [? n' ? ? ? ? ? Hd]. exists n'. by rewrite lookup_insert_eq. }
  assert (Hparent : ∀ p, below (content s) c p → is_Some (content s !! p) →
    (∃ q, content s' !! p = Some q ∧ mode q = Done) ∨ ∃ st' n', archived s' !! (st', p) = Some n').
  { intros p Hb Hp. destruct (decide (p = c)) as [->|Hne]; [by left|right]. destruct Hp as [q Hq]. exists stamp, q. rewrite Hgone.
    rewrite decide_True; [done|]. split; [done|]. apply (collapse_ids _ _ _ _ _ Hcol). eauto. }
  rewrite Hgone in Hj. destruct (decide _) as [[-> Hin]|_].
  - destruct (proj1 (collapse_ids _ _ _ _ _ Hcol) Hin) as (Hb & Hne & _). split.
    { destruct (content s' !! j) as [x|] eqn:Hx; [|done]. by apply Hout in Hx as [? _]. }
    destruct (below_last _ _ Hm c j Hb) as [|(k & p & Hk & Hp & Hbp)]; [done|]. assert (k = n) as -> by congruence.
    exists p. split; [done|]. split; [by eapply sh_name|]. apply Hparent; [done|].
    destruct (sh_parent _ _ Hm j n p Hk Hp) as (q & Hq & _). eauto.
  - destruct (Hbur st j n Hj) as (Hno & p & Hp & Hname & Hup). split.
    { destruct (content s' !! j) as [x|] eqn:Hx; [|done]. apply Hout in Hx as [_ [z ?]]. congruence. }
    exists p. split; [done|]. split; [done|]. destruct Hup as [(q & Hq & Hqm)|(st' & n' & Hn')]; [|right; eauto].
    destruct (decide (p ∈ ids)) as [Hin|Hnin].
    + destruct (proj1 (collapse_ids _ _ _ _ _ Hcol) Hin) as (Hb & _ & Hx). by apply Hparent.
    + left. exists q. split; [|done]. assert (Hpc : p ≠ c) by (intros ->; congruence). eapply collapse_keep; [done|done| |done].
      intros Hb. apply Hnin, (collapse_ids _ _ _ _ _ Hcol). eauto.
Qed.

Lemma step_keeps s s' : engine_step s s' → shaped (content s) root → buried s →
  shaped (content s') root ∧ buried s' ∧ archived s ⊆ archived s' ∧ ∀ i, known s i → known s' i.
Proof.
  intros [i s1 s2 Hadv Ha|s1 s2 [c ids stamp s1' s2' Hcol Hgone]] Hm Hbur.
  - split_and!; [by eapply advance_shaped|by eapply advance_buried|by rewrite Ha|]. intros j [[x Hx]|Hj]; [left|right; by rewrite Ha].
    destruct (decide (j = i)) as [->|Hne]; [|by eapply mk_is_Some, advance_keep]. destruct Hadv; rewrite lookup_insert_eq; eauto.
  - pose proof (archive_grows _ _ _ _ _ Hcol Hgone Hbur) as Hsub.
    split_and!; [by eapply collapse_shaped|by eapply collapse_buried|done|].
    intros j [[x Hx]|[st [x Hx]]]; [|right; exists st, x; by eapply map_subseteq_spec in Hx].
    destruct (decide (j ∈ ids)) as [Hin|Hnin]; [right|left].
    + exists stamp, x. rewrite Hgone. by rewrite decide_True.
    + destruct (decide (j = c)) as [->|Hne]; [destruct Hcol; rewrite lookup_insert_eq; eauto|].
      eapply mk_is_Some, collapse_keep; [done|done| |done]. intros Hb. apply Hnin, (collapse_ids _ _ _ _ _ Hcol). eauto.
Qed.
Lemma steps_keep s s' : rtc engine_step s s' → shaped (content s) root → buried s →
  shaped (content s') root ∧ buried s' ∧ archived s ⊆ archived s' ∧ ∀ i, known s i → known s' i.
Proof.
  induction 1 as [s|s s1 s' Hst _ IH]; intros Hm Hbur; [done|]. destruct (step_keeps s s1 Hst Hm Hbur) as (Hm1 & Hb1 & Ha1 & Hk1).
  destruct (IH Hm1 Hb1) as (Hm' & Hb' & Ha' & Hk'). split_and!; [done|done|by etrans|auto].
Qed.
End Run.

Section Session.
Context {fs : Type} `{NodeStoreLaws fs}.
Context (zod_error : json → jsstr) (catalog : list ToolRecord) (cfg : ExperimentConfig) (llm : LlmClient).

(** ** Seeding *)

Lemma shaped_single (root : jsstr) n : id n = root → parent_id n = None → children_ids n = [] → dot ∉ root → shaped {[root := n]} root.
Proof.
  intros Hid Hp Hc Hd. assert (Hin : ∀ i x, ({[root := n]} : gmap jsstr ContextNode) !! i = Some x → i = root ∧ x = n) by
    (by intros i x [-> ->]%lookup_singleton_Some).
  split; try (intros i x [-> ->]%Hin; rewrite ?Hc; try done; try congruence; apply NoDup_nil_2).
  - exists n. by rewrite lookup_singleton_eq.
  - done.
  - intros i x c [-> ->]%Hin Hx. rewrite Hc in Hx. no_member.
  - intros i x p [-> ->]%Hin. congruence.
  - intros i x p [-> ->]%Hin. congruence.
Qed.

Definition seed_ok (title body : jsstr) (goalBinding : option GoalBinding) : Prop :=
  nonempty title ∧ fence_free body ∧ match goalBinding with Some b => binding_ok b | None => nonempty body end.
Lemma seedRoot_ok k s title body now goalBinding : (Z.of_nat k <= max_safe)%Z → consistent s → ns_list s = [] → archived s = ∅ →
  seed_ok title body goalBinding →
  ∃ s', seedRoot title body now goalBinding s = (s', Ret tt) ∧ wf (js "root") k s' ∧ buried s' ∧ all_busy (content s').
Proof.
  intros Hk Hs Hl Ha (Ht & Hb & Hg). set (n := seed_node title body now goalBinding).
  assert (Hn : sound k n).
  { split; [|done|simpl; lia]. split; simpl; try done; try constructor; try lia. by destruct goalBinding. }
  assert (Hempty : content s = ∅).
  { apply map_empty. intros i. destruct (content s !! i) eqn:E; [|done]. assert (Hin : i ∈ ns_list s) by (apply ns_list_spec; eauto).
    rewrite Hl in Hin. no_member. }
  destruct (write_ok k s n Hs Hn) as (s' & Hw & Hs' & Hm & Har). exists s'.
  assert (Hc : content s' = {[js "root" := stored n]}) by (rewrite Hm, Hempty; apply insert_empty).
  split_and!.
  - unfold seedRoot, get_store, hasActiveRoot, mbind, eff_bind. rewrite Hl. exact Hw.
  - split; [done| |].
    + rewrite Hc. apply shaped_single; try done. vm_compute. set_solver.
    + rewrite Hc. intros i x [_ <-]%lookup_singleton_Some. by apply stored_sound.
  - intros st i x. rewrite Har, Ha. done.
  - rewrite Hc. intros a x [_ <-]%lookup_singleton_Some. done.
Qed.

(** ** What holds of a session *)

Context (root : jsstr).

(** A round on the tree: the node [i] advances, then complete subtrees
    collapse. *)
Inductive tree_round (Q : NodeMode → Prop) (i : jsstr) (s s2 : fs) : Prop :=
| tree_round_ s1 : advance Q (content s) i (content s1) → archived s1 = archived s → rtc collapse_step s1 s2 → tree_round Q i s s2.

(** C10. A round of the engine: on a well-formed tree, with plans that use new
    names, an iteration does not fail; it changes the node that [pickNext]
    chooses and nothing else, or finds the tree settled; the consolidation that
    follows does not fail either, only collapses complete subtrees, and leaves a
    well-formed tree. *)
Theorem freerun_round (Q : NodeMode → Prop) k s iteration now now' :
  plans_ok zod_error llm Q → wf root (S k) s →
  ∃ s1 r o, once zod_error catalog cfg llm iteration now s = (s1, Ret r) ∧
    pickNext (content s) root (top_levels_to_plan cfg) = Some o ∧
    match o with
    | None => r = Settled ∧ s1 = s ∧ complete (content s) root
    | Some node =>
        touched r = Some (id node) ∧
        ∃ s2 n, consolidate llm iteration now' (id node) s1 = (s2, Ret n) ∧ tree_round Q (id node) s s2 ∧ wf root k s2
    end.
Proof.
  intros Hplan Hw. destruct (once_ok zod_error catalog cfg llm root Q k s iteration now Hplan Hw) as (s1 & r & o & Hon & Hw1 & Har & Hp & Ht & Hr).
  exists s1, r, o. split; [done|]. split; [done|]. rewrite Ht in Hr. destruct o as [node|]; simpl in *.
  - destruct (consolidate_ok llm root k iteration now' (id node) s1 Hw1) as (s2 & n & Hc & Hw2 & Hst & _).
    split; [done|]. exists s2, n. split_and!; [done|by econstructor|done].
  - destruct r; naive_solver.
Qed.

(** C2. A session: started on a well-formed tree that is not paused, with plans
    that use new names, it ends after at most the configured number of
    iterations without an error; it is done with no work left, or stops
    at the limit; the tree stays well formed, every node of the tree or of
    the archive is still in one of them, nothing archived is overwritten, and
    the meta file holds the status and the sum of the iterations. *)
Theorem freerun_session (Q : NodeMode → Prop) opts clock startedAt endedAt s meta :
  let cap := default (iteration_cap cfg) (iterationCapOverride opts) in
  plans_ok zod_error llm Q → wf root cap s → buried s →
  match read_meta meta with Some m => m_final_status m ≠ Paused | None => True end →
  ∃ s' m sum, run zod_error catalog cfg llm opts clock startedAt endedAt s meta = (s', Holds m, Some sum) ∧
    (totalIterations sum ≤ cap ∧ finalStatus sum = StDone ∧ complete (content s') root ∨
     totalIterations sum = cap ∧ finalStatus sum = CapReached) ∧
    wf root 0 s' ∧ buried s' ∧ archived s ⊆ archived s' ∧ (∀ i, known s i → known s' i) ∧
    m_final_status m = finalStatus sum ∧ m_total_iterations m = default 0 (m_total_iterations <$> read_meta meta) + totalIterations sum.
Proof.
  intros cap Hplan Hw Hbur Hmeta. destruct (run_iterations_ok zod_error catalog cfg llm root Q Hplan clock cap 0 [] s Hw)
    as (s' & sum & Hrun & Hw' & Hst & Hit & Hend & _).
  destruct (steps_keep root Q s s' Hst (wf_shaped _ _ _ Hw) Hbur) as (_ & Hb & Ha & Hk).
  unfold run. fold cap. destruct (read_meta meta) as [m|] eqn:Em.
  - assert (meta = Holds m) as -> by (destruct meta; by simplify_eq/=). destruct m as [tm pi ui rn sa ea st ti ec].
    exists s', (with_end (finalStatus sum) (ti + totalIterations sum) endedAt (Meta tm pi ui rn sa ea InProgress ti ec)), sum.
    split; [|split_and!; try done; naive_solver lia]. simpl in Hmeta. rewrite Hrun. by destruct st.
  - rewrite Hrun. eexists s', _, sum. split; [reflexivity|]. split_and!; try done. naive_solver lia.
Qed.

(** C13. A session that is seeded, whose plans contain no decomposed children and
    whose summaries do not fail, and that ends as done, has consolidated its
    whole tree: the root alone is left, done or blocked. *)
Theorem freerun_done_consolidates (Q : NodeMode → Prop) cap clock title body now goalBinding s :
  plans_ok zod_error llm Q → (∀ md, Q md → md ≠ Decomposed) → sums_ok llm →
  (Z.of_nat cap <= max_safe)%Z → consistent s → ns_list s = [] → archived s = ∅ → seed_ok title body goalBinding →
  ∃ s1 s2 sum, seedRoot title body now goalBinding s = (s1, Ret tt) ∧
    run_iterations zod_error catalog cfg llm clock cap 0 [] s1 = (s2, Some sum) ∧
    (finalStatus sum = StDone → ∃ n, content s2 = {[js "root" := n]} ∧ (mode n = Done ∨ mode n = Blocked)).
Proof.
  intros Hplan HQ Hsum Hcap Hs Hl Ha Hseed. destruct (seedRoot_ok cap s title body now goalBinding Hcap Hs Hl Ha Hseed) as (s1 & Hsr & Hw & _ & Hbusy).
  destruct (run_iterations_ok zod_error catalog cfg llm (js "root") Q Hplan clock cap 0 [] s1 Hw) as (s2 & sum & Hrun & Hw2 & _ & _ & Hend & Hlive).
  exists s1, s2, sum. split; [done|]. split; [done|]. intros Hdone. specialize (Hlive Hsum HQ Hbusy).
  destruct Hend as [[_ Hcomp]|[? _]]; [|congruence]. pose proof (wf_shaped _ _ _ Hw2) as Hm.
  destruct (sh_root _ _ Hm) as (n & Hn & Hp). exists n.
  assert (Hmode : mode n ≠ Decomposed).
  { intros Hd. destruct (Hlive _ _ Hn Hd) as (j & x & Hb & Hj & Hact). rewrite (Hcomp j x Hb Hj) in Hact. done. }
  split.
  - apply map_eq. intros i. destruct (decide (i = js "root")) as [->|Hne]; [by rewrite lookup_singleton_eq|]. rewrite lookup_singleton_ne by done.
    destruct (content s2 !! i) as [x|] eqn:Hi; [|done]. exfalso. pose proof (root_above _ _ Hm i x Hi) as Hb.
    inversion Hb as [|? y c ? Hy Hc _]; subst; [done|]. assert (y = n) as -> by congruence.
    rewrite (sh_leaf _ _ Hm _ n Hn Hmode) in Hc. no_member.
  - specialize (Hcomp (js "root") n (below_refl _ _) Hn). unfold isActionable in Hcomp. destruct (mode n); naive_solver.
Qed.

(** The node [n] was replaced by [n'], and the iteration had the result [r]. *)
Definition replaced (s : fs) (n n' : ContextNode) (r : IterateResult) (out : fs * result failure IterateResult) : Prop :=
  ∃ s', out = (s', Ret r) ∧ content s' = <[id n := stored n']> (content s) ∧ archived s' = archived s.
Lemma write_replaces k s n n' r : consistent s → sound k n' → id n' = id n → replaced s n n' r ((_ ← write n'; mret r) s).
Proof.
  intros Hs Hn Hid. destruct (write_ok k s n' Hs Hn) as (s' & Hw & _ & Hc & Ha). exists s'. unfold mbind, eff_bind. rewrite Hw, Hc, Hid. done.
Qed.

(** Failures: a plan that cannot be had (the call throws, the answer does not
    fit the schema, or it plans meta tasks), and an execution whose two attempts
    throw or cannot be read, block the node with the reason, and change nothing
    else; an execution that can be read, at once or on the second attempt, is
    merged into the node. *)
Theorem freerun_failures_block k s n iteration navBand detail now :
  wf root (S k) s → content s !! id n = Some n →
  let filtered := filter_tools catalog (relevant_tools n) in
  let blocked reason := replaced s n (blocked_node n now reason) (BlockedNode (id n) reason) in
  (∀ e, planned zod_error llm iteration navBand detail n = Throw e →
     blocked (js "planning LLM call failed: " ++ e) (runPlanning zod_error llm iteration navBand detail n now s)) ∧
  let out := runExecution catalog llm iteration navBand detail n now s in
  match attempt llm iteration 0 filtered navBand detail n, attempt llm iteration 1 filtered navBand detail n with
  | (Some o, _), _ | (None, _), (Some o, _) => replaced s n (merged n o now) (Advanced (id n) false) out
  | (None, failures1), (None, failures2) =>
      blocked (js "execution output did not parse after 1 retry " ++ [8212; 32]%N ++ join (js "; ") (failures1 ++ failures2)) out
  end.
Proof.
  intros Hw Hi filtered blocked. pose proof (wf_consistent _ _ _ Hw) as Hs. pose proof (wf_sound _ _ _ Hw _ n Hi) as Hn. split.
  - intros e He. unfold runPlanning, blocked, blockNode. rewrite He. apply (write_replaces k); [done| |done].
    apply blocked_sound; [done|]. vm_compute. lia.
  - unfold runExecution. fold filtered. destruct (attempt llm iteration 0 _ _ _ _) as [[o|] f1] eqn:E1.
    + apply (write_replaces k); [done| |done]. apply merged_sound; [done|]. by eapply attempt_ok.
    + destruct (attempt llm iteration 1 _ _ _ _) as [[o|] f2] eqn:E2.
      * apply (write_replaces k); [done| |done]. apply merged_sound; [done|]. by eapply attempt_ok.
      * apply (write_replaces k); [done| |done]. apply blocked_sound; [done|]. vm_compute. lia.
Qed.
End Session.

(** ** A session on files *)

Definition demo_zod (_ : json) : jsstr := js "invalid".
Definition planned_json (l : list (string * string * json)) : json :=
  JObj [(js "children", JArr (map (λ c, JObj [(js "id", JStr (js c.1.1)); (js "title", JStr (js c.1.2)); (js "mode", c.2)]) l))].
(** Plans two tasks at the root and cannot plan anything else. *)
Definition demo_llm : LlmClient :=
  Client (λ _ _ _ n, if bool_decide (id n = js "root") then
                       Ret (planned_json [("a", "A", JStr (js "pending-plan")); ("b", "B", JStr (js "pending-exec"))]%string)
                     else Throw (js "no"))
    (λ _ _ _ _ _ _, Ret (js "{}")) (λ _ _ _, Ret (js "both done")).
Definition demo_cfg : ExperimentConfig := Config_ 3 Full 500 10 300.
Definition not_decomposed (md : NodeMode) : Prop := md ≠ Decomposed.
Lemma demo_plans : plans_ok demo_zod demo_llm not_decomposed.
Proof.
  intros it band detail n cs. unfold planned. simpl. case_bool_decide as Hid; [|done]. rewrite Hid.
  match goal with |- context [dec_planning ?v] => destruct (dec_planning v) as [l|] eqn:E; [|done] end.
  vm_compute in E. injection E as <-. match goal with |- context [assertValid ?l] => destruct (assertValid l); [done|] end. intros [= <-].
  split.
  - by_compute.
  - intros c Hc. repeat (apply elem_of_cons in Hc as [->|Hc]; [eexists; split; [reflexivity|by_compute]|]). no_member.
  - intros c Hc. repeat (apply elem_of_cons in Hc as [->|Hc]; [apply fence_free_short; vm_compute; lia|]). no_member.
  - intros c Hc. repeat (apply elem_of_cons in Hc as [->|Hc]; [done|]). no_member.
Qed.
Definition no_files : NodeFS.files := NodeFS.Files ∅ ∅.
Definition demo_start : NodeFS.files := (seedRoot (js "Goal") (js "Do it") (js "now") None no_files).1.
Lemma demo_seed : seed_ok (js "Goal") (js "Do it") None.
Proof. split; [vm_compute; lia|]. split; [apply fence_free_short; vm_compute; lia|vm_compute; lia]. Qed.
Lemma demo_wf k : k ≤ 1000 → wf (js "root") k demo_start ∧ buried demo_start.
Proof.
  intros Hk. destruct (seedRoot_ok k no_files (js "Goal") (js "Do it") (js "now") None) as (s & Hs & Hw & Hb & _).
  - lia.
  - intros i t Hi. simpl in Hi. by rewrite lookup_empty in Hi.
  - done.
  - done.
  - apply demo_seed.
  - unfold demo_start. by rewrite Hs.
Qed.

Definition demo_clock (i j : nat) : jsstr := js "now".
Definition demo_options : RunOptions := ROptions (js "goal") (js "p") (js "u") (js "root") (js "hash") None.
Lemma freerun_round_witness :
  wf (js "root") 1 demo_start ∧
  match once demo_zod [] demo_cfg demo_llm 0 (js "t") demo_start with (_, Ret _) => True | _ => False end.
Proof.
  split; [by apply demo_wf; lia|].
  destruct (freerun_round demo_zod [] demo_cfg demo_llm (js "root") not_decomposed 0 demo_start 0 (js "t") (λ _, js "t") demo_plans)
    as (s1 & r & o & -> & _); [by apply demo_wf; lia|done].
Defined.
Lemma freerun_session_witness :
  match run demo_zod [] demo_cfg demo_llm demo_options demo_clock (js "t") (js "t") demo_start Absent with
  | (s', Holds m, Some sum) => totalIterations sum ≤ 10 ∧ ∀ i, known demo_start i → known s' i
  | _ => False
  end.
Proof.
  destruct (freerun_session demo_zod [] demo_cfg demo_llm (js "root") not_decomposed demo_options demo_clock (js "t") (js "t") demo_start Absent
    demo_plans) as (s' & m & sum & -> & He & _ & _ & _ & Hk & _).
  - apply demo_wf. simpl. lia.
  - by apply (demo_wf 0); lia.
  - done.
  - split; [|done]. simpl in He. destruct He as [[? _]|[-> _]]; lia.
Defined.
Lemma freerun_done_consolidates_witness :
  match seedRoot (js "Goal") (js "Do it") (js "now") None no_files with
  | (s1, Ret _) =>
      match run_iterations demo_zod [] demo_cfg demo_llm demo_clock 10 0 [] s1 with
      | (s2, Some sum) => finalStatus sum = StDone → size (content s2) = 1
      | _ => False
      end
  | _ => False
  end.
Proof.
  destruct (freerun_done_consolidates demo_zod [] demo_cfg demo_llm not_decomposed 10 demo_clock (js "Goal") (js "Do it") (js "now") None no_files
    demo_plans) as (s1 & s2 & sum & -> & -> & Hd); try done.
  - apply demo_seed.
  - intros Hdone. destruct (Hd Hdone) as (n & -> & _). apply map_size_singleton.
Defined.
Lemma freerun_failures_block_witness :
  ∃ n, content demo_start !! js "root" = Some n ∧
    replaced demo_start n (merged n (Outcome [] [] [] JNull [] NextDone) (js "t")) (Advanced (id n) false)
      (runExecution [] demo_llm 0 [] [] n (js "t") demo_start).
Proof.
  destruct (demo_wf 1) as [Hw _]; [lia|]. destruct (sh_root _ _ (wf_shaped _ _ _ Hw)) as (n & Hn & _).
  exists n. split; [done|]. pose proof (sh_id _ _ (wf_shaped _ _ _ Hw) _ _ Hn) as Hid. rewrite <- Hid in Hn.
  pose proof (freerun_failures_block demo_zod [] demo_llm (js "root") 0 demo_start n 0 [] [] (js "t") Hw Hn) as [_ H].
  assert (Ho : ∀ f b d x, attempt demo_llm 0 0 f b d x = (Some (Outcome [] [] [] JNull [] NextDone), [])) by (intros; by vm_compute).
  rewrite !Ho in H. exact H.
Defined.

Definition outcome_of (clock : nat → nat → jsstr) (llm : LlmClient) (cap : nat) (s : NodeFS.files)
    : option (FreerunFinalStatus * nat * list (jsstr * NodeMode) * list (jsstr * jsstr)) :=
  let '(s', r) := run_iterations demo_zod [] demo_cfg llm clock cap 0 [] s in
  (λ sum, (finalStatus sum, totalIterations sum, map (λ kv, (kv.1, mode kv.2)) (map_to_list (content s')),
           (map_to_list (archived s')).*1)) <$> r.
(** The demonstration runs for three iterations; both tasks are archived. *)
Example freerun_demo :
  outcome_of demo_clock demo_llm 10 demo_start =
  Some (StDone, 3, [(js "root", Done)], [(js "now", js "root.b"); (js "now", js "root.a")]).
Proof. by vm_compute. Qed.

Definition child_json (i : string) : string * string * json := (i, i, JStr (js "pending-exec")).
Definition planner (children : list (string * string * json)) (sum : result jsstr jsstr) : LlmClient :=
  Client (λ _ _ _ n, Ret (planned_json (if bool_decide (id n = js "root") then children else [child_json "b"])))
    (λ _ _ _ _ _ _, Ret (js "{}")) (λ _ _ _, sum).
(** A tree whose only node is blocked is reported as done. *)
Example blocked_is_done :
  outcome_of demo_clock (Client (λ _ _ _ _, Throw (js "no")) (λ _ _ _ _ _ _, Ret []) (λ _ _ _, Ret [])) 10 demo_start =
  Some (StDone, 1, [(js "root", Blocked)], []).
Proof. by vm_compute. Qed.
(** A summary that fails when the last task settles is not tried again. *)
Example failed_summary :
  outcome_of demo_clock (planner [child_json "a"] (Throw (js "no"))) 10 demo_start =
  Some (StDone, 2, [(js "root", Decomposed); (js "root.a", Done)], []).
Proof. by vm_compute. Qed.
(** Two tasks of one name: the consolidation moves the file away and fails when
    it looks for it again. *)
Example duplicate_names :
  outcome_of demo_clock (planner [child_json "a"; child_json "a"] (Ret [])) 10 demo_start =
  Some (StError, 1, [(js "root", Decomposed)], [(js "now", js "root.a")]).
Proof. by vm_compute. Qed.
(** A name with a dot: a child planned later gets the name of the task and
    overwrites it, and the session is done without it. *)
Definition dotted_planner : LlmClient :=
  planner [("a", "first", JStr (js "pending-plan")); ("a.b", "task", JStr (js "pending-exec"))]%string (Ret (js "ok")).
Definition titles (s : NodeFS.files) : list jsstr :=
  map (λ kv, title kv.2) (map_to_list (content s)) ++ map (λ kv, title kv.2) (map_to_list (archived s)).
Example dotted_name :
  let run := run_iterations demo_zod [] demo_cfg dotted_planner demo_clock in
  bool_decide (js "task" ∈ titles (run 1 0 [] demo_start).1) = true ∧
  (finalStatus <$> (run 10 0 [] demo_start).2) = Some StDone ∧
  bool_decide (js "task" ∈ titles (run 10 0 [] demo_start).1) = false.
Proof. by vm_compute. Qed.
