(* ===== verification/Tweaks.v ===== *)
(** * Tunables of an operator ([config/tweaks.ts])

    The file of tunables is read once and parsed into one record per feature.
    A value is used when it parses and lies in its range; otherwise the default
    stays.  The warnings that are logged are left out, but for the question which
    keys are warned about ([KNOWN_KEYS]).  Numbers with a fraction are the exact
    values of doubles ([JsNumber]). *)
From stdpp Require Import gmap.
From S2P Require Import Prelude JsString JsNumber Arity.
Open Scope Z_scope.

(** ** The records and their defaults *)

Record SessionCacheConfig := mkSessionCache { sc_enabled : bool; sc_ttlSec : Z; sc_maxEntries : Z }.

Record RateLimitConfig := mkRateLimit { rl_enabled : bool; rl_qpsPerUserPerPath : Q; rl_burst : Z }.

(** ["all" | number]. *)
Inductive page_size := AllMessages | PageOf (n : Z).

Record FrontendLazyloadConfig := mkFrontendLazyload {
  fl_flag : Z;
  fl_partInlineCapKb : Z;
  fl_tailWindowKb : Z;
  fl_foldPreviewLines : Z;
  fl_initialPageSizeSmall : page_size;
  fl_initialPageSizeMedium : Z;
  fl_initialPageSizeLarge : Z;
  fl_sessionSizeThresholdKb : Z;
  fl_sessionSizeThresholdParts : Z;
  fl_sessionMessagesDefaultTail : Z;
  fl_sessionTailMobile : Z;
  fl_sessionTailDesktop : Z;
  fl_sessionStoreCapMobile : Z;
  fl_sessionStoreCapDesktop : Z;
  fl_sessionPartCapBytes : Z
}.

Record SessionUiFreshnessConfig := mkUiFreshness {
  ui_flag : Z; ui_softThresholdSec : Z; ui_hardTimeoutSec : Z }.

Record CodexRotationConfig := mkCodexRotation { cr_lowQuotaThresholdPercent : Z }.

Record PartPersistenceConfig := mkPartPersistence {
  pp_debounceMs : Z; pp_maxPartBytes : Z; pp_cancelOnCapTrip : bool }.

Record SubagentConfig := mkSubagent { sa_quotaLowRedLinePercent : Z }.

Record AutorunConfig := mkAutorun { ar_triggerPhrases : list jsstr; ar_disarmPhrases : list jsstr }.

Record ToolOutputBudgetConfig := mkToolOutputBudget {
  to_absoluteCap : Z;
  to_contextRatio : Q;
  to_minimumFloor : Z;
  to_taskOverride : Z;
  to_bashOverride : Z
}.

Record ToolCallBudgetConfig := mkToolCallBudget {
  tc_enabled : bool;
  tc_greenMax : Z;
  tc_yellowMax : Z;
  tc_orangeMax : Z;
  tc_redMax : Z;
  tc_unknownMax : Z;
  tc_absoluteMax : Z
}.

Record ContextThresholdProfile := mkProfile {
  bCompactTokens : Z; aCompactTokens : Z; aIncrementTokens : Z }.

(** [aMethod] has one value, and no field here. *)
Record fadeout_config := mkFadeout {
  fo_enabled : bool;
  fo_aEssenceTokens : Z;
  fo_bTailRounds : Z;
  fo_aTailRounds : Z;
  fo_aTailFloorTokens : Z
}.

Record CompactionConfig := mkCompaction {
  cp_enableHybridLlm : bool;
  cp_llmTimeoutMs : Z;
  cp_llmTimeoutBackgroundMs : Z;
  cp_fallbackProvider : jsstr;
  cp_phase2MaxAnchorTokens : Z;
  cp_pinnedZoneMaxTokensRatio : Q;
  cp_budgetStatusThresholds : Q * Q * Q;
  cp_cacheLossFloor : Q;
  cp_minUncachedTokens : Z;
  cp_stallRecoveryFloor : Q;
  cp_stallRecoveryConsecutiveEmpty : Z;
  cp_quotaPressureThreshold : Q;
  cp_codexServerPriorityRatio : Q;
  cp_codexItemOverflowThreshold : Z;
  cp_claudeItemOverflowThreshold : Z;
  cp_emptyResponseFloor : Q;
  cp_localToAiThresholdRatio : Q;
  cp_phase1Enabled : bool;
  cp_recentRawRounds : Z;
  cp_fallbackThreshold : Z;
  cp_phase2Enabled : bool;
  cp_enableUserMsgReplay : bool;
  cp_stripReasoningFromModelInput : bool;
  cp_enableDialogRedactionAnchor : bool;
  cp_anchorRecompressCeilingTokens : Z;
  cp_fadeout : fadeout_config;
  cp_contextThresholds : list (jsstr * ContextThresholdProfile)
}.

Record SessionStorageConfig := mkSessionStorage { ss_idleThresholdMs : Z; ss_connectionIdleMs : Z }.

Record BigContentBoundaryConfig := mkBigContent {
  bc_userAttachmentMaxBytes : Z; bc_attachmentPreviewBytes : Z; bc_subagentResultMaxBytes : Z }.

Record AttachmentInlineConfig := mkAttachmentInline {
  ai_enabled : bool; ai_activeSetMax : Z; ai_autoInlineUploadBudgetTokens : Z }.

Record Effective := mkEffective {
  sessionCache : SessionCacheConfig;
  rateLimit : RateLimitConfig;
  frontendLazyload : FrontendLazyloadConfig;
  sessionUiFreshness : SessionUiFreshnessConfig;
  codexRotation : CodexRotationConfig;
  partPersistence : PartPersistenceConfig;
  subagent : SubagentConfig;
  autorun : AutorunConfig;
  toolOutputBudget : ToolOutputBudgetConfig;
  toolCallBudget : ToolCallBudgetConfig;
  compaction : CompactionConfig;
  sessionStorage : SessionStorageConfig;
  bigContentBoundary : BigContentBoundaryConfig;
  attachmentInline : AttachmentInlineConfig;
  debugLogEnabled : bool;
  source : jsstr * bool
}.

Definition SESSION_CACHE_DEFAULTS : SessionCacheConfig := mkSessionCache true 60 500.
Definition RATE_LIMIT_DEFAULTS : RateLimitConfig := mkRateLimit true (num "10") 20.
Definition FRONTEND_LAZYLOAD_DEFAULTS : FrontendLazyloadConfig :=
  mkFrontendLazyload 0 64 64 20 AllMessages 100 50 512 80 30 20 100 100 200 512000.
Definition SESSION_UI_FRESHNESS_DEFAULTS : SessionUiFreshnessConfig := mkUiFreshness 0 15 60.
Definition CODEX_ROTATION_DEFAULTS : CodexRotationConfig := mkCodexRotation 0.
Definition SUBAGENT_DEFAULTS : SubagentConfig := mkSubagent 5.
Definition AUTORUN_DEFAULTS : AutorunConfig :=
  mkAutorun [] [[20572%N]; [26283%N; 20572%N]; js "stop"; js "halt"].
Definition TOOL_OUTPUT_BUDGET_DEFAULTS : ToolOutputBudgetConfig :=
  mkToolOutputBudget 50000 (num "0.3") 8000 60000 40000.
Definition TOOL_CALL_BUDGET_DEFAULTS : ToolCallBudgetConfig := mkToolCallBudget true 3 2 1 1 1 3.
Definition COMPACTION_DEFAULTS : CompactionConfig := {|
  cp_enableHybridLlm := true;
  cp_llmTimeoutMs := 30000;
  cp_llmTimeoutBackgroundMs := 180000;
  cp_fallbackProvider := [];
  cp_phase2MaxAnchorTokens := 5000;
  cp_pinnedZoneMaxTokensRatio := num "0.3";
  cp_budgetStatusThresholds := (num "0.5", num "0.75", num "0.9");
  cp_cacheLossFloor := num "0.5";
  cp_minUncachedTokens := 40000;
  cp_stallRecoveryFloor := num "0.5";
  cp_stallRecoveryConsecutiveEmpty := 2;
  cp_quotaPressureThreshold := num "0.1";
  cp_codexServerPriorityRatio := num "0.7";
  cp_codexItemOverflowThreshold := 350;
  cp_claudeItemOverflowThreshold := 10000;
  cp_emptyResponseFloor := num "0.8";
  cp_localToAiThresholdRatio := num "0.4";
  cp_phase1Enabled := false;
  cp_recentRawRounds := 2;
  cp_fallbackThreshold := 5;
  cp_phase2Enabled := false;
  cp_enableUserMsgReplay := true;
  cp_stripReasoningFromModelInput := false;
  cp_enableDialogRedactionAnchor := true;
  cp_anchorRecompressCeilingTokens := 50000;
  cp_fadeout := mkFadeout true 5000 1 3 20000;
  cp_contextThresholds :=
    [(js "default", mkProfile 100000 128000 20000);
     (js "claude-cli", mkProfile 200000 128000 20000);
     (js "codex", mkProfile 80000 128000 15000)]
|}.
Definition SESSION_STORAGE_DEFAULTS : SessionStorageConfig := mkSessionStorage 5000 60000.
Definition BIG_CONTENT_BOUNDARY_DEFAULTS : BigContentBoundaryConfig := mkBigContent 20000 1000 5000.
Definition ATTACHMENT_INLINE_DEFAULTS : AttachmentInlineConfig := mkAttachmentInline true 8 20000.
Definition PART_PERSISTENCE_DEFAULTS : PartPersistenceConfig := mkPartPersistence 500 (8 * 1024 * 1024) false.

(** ** Parsing values *)

Definition is_yes (s : jsstr) : bool := bool_decide (s ∈ [js "1"; js "true"; js "yes"; js "on"]).
Definition is_no (s : jsstr) : bool := bool_decide (s ∈ [js "0"; js "false"; js "no"; js "off"]).

Definition parseBool (raw : jsstr) : option bool :=
  let normalized := toLowerCase (trim raw) in
  if is_yes normalized then Some true else if is_no normalized then Some false else None.

(** Every call gives a minimum. *)
Definition parseInt10 (min : Z) (raw : jsstr) : option Z :=
  match parseInt (trim raw) with
  | Some value => if value <? min then None else Some value
  | None => None
  end.

Definition parseFloatPositive (raw : jsstr) : option Q :=
  match parseFloat (trim raw) with
  | Some value => if Qle_bool value 0 then None else Some value
  | None => None
  end.

Definition parseRatio (raw : jsstr) : option Q :=
  match parseFloat (trim raw) with
  | Some value => if Qltb value 0 || Qltb 1 value then None else Some value
  | None => None
  end.

(** The non-blank parts between separators, trimmed. *)
Definition parts_of (sep : N) (raw : jsstr) : list jsstr :=
  filter (λ part : jsstr, part ≠ []) (map trim (split_on sep raw)).

Definition parseThreeAscendingRatios (raw : jsstr) : option (Q * Q * Q) :=
  match map parseRatio (parts_of 44%N raw) with
  | [Some greenMax; Some yellowMax; Some orangeMax] =>
      if Qltb greenMax yellowMax && Qltb yellowMax orangeMax
      then Some (greenMax, yellowMax, orangeMax) else None
  | _ => None
  end.

Definition parseFlag01 (raw : jsstr) : option Z :=
  let normalized := toLowerCase (trim raw) in
  if is_yes normalized then Some 1 else if is_no normalized then Some 0 else None.

Definition parseIntRange (min max : Z) (raw : jsstr) : option Z :=
  match parseInt (trim raw) with
  | Some value => if (value <? min) || (max <? value) then None else Some value
  | None => None
  end.

Definition parsePhraseList (raw : jsstr) : list jsstr := parts_of 124%N raw.

Definition parseInitialPageSizeSmall (raw : jsstr) : option page_size :=
  if bool_decide (toLowerCase (trim raw) = js "all") then Some AllMessages
  else PageOf <$> parseIntRange 10 1000 raw.

(** ** Parsing the file *)

(** Drops a carriage return from the end. *)
Definition chomp (line : jsstr) : jsstr :=
  match reverse line with 13%N :: r => reverse r | _ => line end.

(** [body.split(/\r?\n/)]: the last line has no terminator. *)
Fixpoint chomp_terminated (lines : list jsstr) : list jsstr :=
  match lines with
  | [] => []
  | [last] => [last]
  | line :: rest => chomp line :: chomp_terminated rest
  end.
Definition split_lines (body : jsstr) : list jsstr := chomp_terminated (split_on newline body).

(** The key and the value of a line; [None] for blank lines, comments and
    malformed lines. *)
Definition line_entry (rawLine : jsstr) : option (jsstr * jsstr) :=
  let line := trim rawLine in
  match line with
  | [] => None
  | _ =>
      if startsWith line (js "#") || startsWith line (js ";") then None
      else match indexOf line (js "=") with
           | None | Some O => None
           | Some eqIdx =>
               match trim (take eqIdx line) with
               | [] => None
               | key => Some (key, trim (drop (S eqIdx) line))
               end
           end
  end.

Definition parse_line (out : gmap jsstr jsstr) (rawLine : jsstr) : gmap jsstr jsstr :=
  match line_entry rawLine with Some (key, value) => <[key := value]> out | None => out end.

Definition parseLines (body : jsstr) : gmap jsstr jsstr := foldl parse_line ∅ (split_lines body).

Definition KNOWN_KEYS : list jsstr :=
  map js ["session_cache_enabled"; "session_cache_ttl_sec"; "session_cache_max_entries";
   "ratelimit_enabled"; "ratelimit_qps_per_user_per_path"; "ratelimit_burst";
   "frontend_session_lazyload"; "part_inline_cap_kb"; "tail_window_kb"; "fold_preview_lines";
   "initial_page_size_small"; "initial_page_size_medium"; "initial_page_size_large";
   "session_size_threshold_kb"; "session_size_threshold_parts"; "ui_session_freshness_enabled";
   "ui_freshness_threshold_sec"; "ui_freshness_hard_timeout_sec";
   "codex_rotation_low_quota_percent"; "session_messages_default_tail"; "session_tail_mobile";
   "session_tail_desktop"; "session_store_cap_mobile"; "session_store_cap_desktop";
   "session_part_cap_bytes"; "part_persist_debounce_ms"; "part_max_bytes";
   "part_cancel_on_cap_trip"; "subagent_escalation_wait_ms"; "subagent_quota_low_red_line_percent";
   "autorun_trigger_phrases"; "autorun_disarm_phrases"; "tool_output_budget_absolute_cap";
   "tool_output_budget_context_ratio"; "tool_output_budget_minimum_floor";
   "tool_output_budget_task_override"; "tool_output_budget_bash_override";
   "tool_call_budget_enabled"; "tool_call_budget_green_max"; "tool_call_budget_yellow_max";
   "tool_call_budget_orange_max"; "tool_call_budget_red_max"; "tool_call_budget_unknown_max";
   "tool_call_budget_absolute_max"; "compaction_enable_hybrid_llm"; "compaction_llm_timeout_ms";
   "compaction_fallback_provider"; "compaction_empty_response_floor";
   "compaction_fallback_threshold"; "compaction_phase1_enabled"; "compaction_phase2_enabled";
   "compaction_enable_user_msg_replay"; "compaction_enable_dialog_redaction_anchor";
   "compaction_anchor_recompress_ceiling_tokens"; "compaction_phase2_max_anchor_tokens";
   "compaction_recent_raw_rounds"; "compaction_pinned_zone_max_tokens_ratio";
   "compaction_budget_status_thresholds"; "compaction_cache_loss_floor";
   "compaction_min_uncached_tokens"; "compaction_stall_recovery_floor";
   "compaction_stall_recovery_consecutive_empty"; "compaction_quota_pressure_threshold";
   "compaction_codex_server_priority_ratio"; "compaction_codex_item_overflow_threshold";
   "compaction_claude_item_overflow_threshold"; "session_storage_idle_threshold_ms";
   "session_storage_connection_idle_ms"; "boundary_user_attachment_max_bytes";
   "boundary_attachment_preview_bytes"; "boundary_subagent_result_max_bytes";
   "attachment_inline_enabled"; "attachment_active_set_max";
   "attachment_auto_inline_budget_tokens"; "debug_log_enabled"].

(** The keys that are warned about as unknown. *)
Definition unknown (key : jsstr) : bool := negb (bool_decide (key ∈ KNOWN_KEYS)).

(** ** Effective values *)

(** The value of a key: the default when it is missing or does not parse. *)
Definition read {A : Type} (parsed : gmap jsstr jsstr) (key : jsstr) (parse : jsstr → option A) (value : A) : A :=
  match parsed !! key with
  | Some raw => default value (parse raw)
  | None => value
  end.

Definition cap_one (v : Q) : Q := if Qltb 1 v then 1%Q else v.

(** A positive ratio, at most one. *)
Definition parse_capped (raw : jsstr) : option Q := cap_one <$> parseFloatPositive raw.

Section Compute.
Context (parsed : gmap jsstr jsstr).

(** The readings of the kinds of key. *)
Definition get_bool (key : string) (value : bool) : bool := read parsed (js key) parseBool value.
Definition get_flag (key : string) (value : Z) : Z := read parsed (js key) parseFlag01 value.
Definition get_min (key : string) (min : Z) (value : Z) : Z := read parsed (js key) (parseInt10 min) value.
Definition get_range (key : string) (min max : Z) (value : Z) : Z :=
  read parsed (js key) (parseIntRange min max) value.
Definition get_ratio (key : string) (value : Q) : Q := read parsed (js key) parseRatio value.
Definition get_capped (key : string) (value : Q) : Q := read parsed (js key) parse_capped value.

Definition effective_sessionCache : SessionCacheConfig :=
  let d := SESSION_CACHE_DEFAULTS in {|
    sc_enabled := get_bool "session_cache_enabled" (sc_enabled d);
    sc_ttlSec := get_min "session_cache_ttl_sec" 0 (sc_ttlSec d);
    sc_maxEntries := get_min "session_cache_max_entries" 1 (sc_maxEntries d) |}.

Definition effective_rateLimit : RateLimitConfig :=
  let d := RATE_LIMIT_DEFAULTS in {|
    rl_enabled := get_bool "ratelimit_enabled" (rl_enabled d);
    rl_qpsPerUserPerPath :=
      read parsed (js "ratelimit_qps_per_user_per_path") parseFloatPositive (rl_qpsPerUserPerPath d);
    rl_burst := get_min "ratelimit_burst" 1 (rl_burst d) |}.

Definition read_frontendLazyload : FrontendLazyloadConfig :=
  let d := FRONTEND_LAZYLOAD_DEFAULTS in {|
    fl_flag := get_flag "frontend_session_lazyload" (fl_flag d);
    fl_partInlineCapKb := get_range "part_inline_cap_kb" 4 4096 (fl_partInlineCapKb d);
    fl_tailWindowKb := get_range "tail_window_kb" 4 4096 (fl_tailWindowKb d);
    fl_foldPreviewLines := get_range "fold_preview_lines" 1 200 (fl_foldPreviewLines d);
    fl_initialPageSizeSmall :=
      read parsed (js "initial_page_size_small") parseInitialPageSizeSmall (fl_initialPageSizeSmall d);
    fl_initialPageSizeMedium := get_range "initial_page_size_medium" 10 1000 (fl_initialPageSizeMedium d);
    fl_initialPageSizeLarge := get_range "initial_page_size_large" 10 1000 (fl_initialPageSizeLarge d);
    fl_sessionSizeThresholdKb := get_range "session_size_threshold_kb" 64 1048576 (fl_sessionSizeThresholdKb d);
    fl_sessionSizeThresholdParts :=
      get_range "session_size_threshold_parts" 10 100000 (fl_sessionSizeThresholdParts d);
    fl_sessionMessagesDefaultTail :=
      get_range "session_messages_default_tail" 5 200 (fl_sessionMessagesDefaultTail d);
    fl_sessionTailMobile := get_range "session_tail_mobile" 5 500 (fl_sessionTailMobile d);
    fl_sessionTailDesktop := get_range "session_tail_desktop" 5 2000 (fl_sessionTailDesktop d);
    fl_sessionStoreCapMobile := get_range "session_store_cap_mobile" 30 2000 (fl_sessionStoreCapMobile d);
    fl_sessionStoreCapDesktop := get_range "session_store_cap_desktop" 50 5000 (fl_sessionStoreCapDesktop d);
    fl_sessionPartCapBytes := get_range "session_part_cap_bytes" 16000 16000000 (fl_sessionPartCapBytes d) |}.

(** The value [v], or [cap] when [v] exceeds it. *)
Definition clamp (v cap : Z) : Z := if cap <? v then cap else v.

Definition clamp_frontendLazyload (c : FrontendLazyloadConfig) : FrontendLazyloadConfig := {|
  fl_flag := fl_flag c;
  fl_partInlineCapKb := fl_partInlineCapKb c;
  fl_tailWindowKb := clamp (fl_tailWindowKb c) (fl_partInlineCapKb c);
  fl_foldPreviewLines := fl_foldPreviewLines c;
  fl_initialPageSizeSmall := fl_initialPageSizeSmall c;
  fl_initialPageSizeMedium := fl_initialPageSizeMedium c;
  fl_initialPageSizeLarge := fl_initialPageSizeLarge c;
  fl_sessionSizeThresholdKb := fl_sessionSizeThresholdKb c;
  fl_sessionSizeThresholdParts := fl_sessionSizeThresholdParts c;
  fl_sessionMessagesDefaultTail := fl_sessionMessagesDefaultTail c;
  fl_sessionTailMobile := clamp (fl_sessionTailMobile c) (fl_sessionStoreCapMobile c);
  fl_sessionTailDesktop := clamp (fl_sessionTailDesktop c) (fl_sessionStoreCapDesktop c);
  fl_sessionStoreCapMobile := fl_sessionStoreCapMobile c;
  fl_sessionStoreCapDesktop := fl_sessionStoreCapDesktop c;
  fl_sessionPartCapBytes := fl_sessionPartCapBytes c |}.

Definition effective_frontendLazyload : FrontendLazyloadConfig :=
  clamp_frontendLazyload read_frontendLazyload.

Definition effective_sessionUiFreshness : SessionUiFreshnessConfig :=
  let d := SESSION_UI_FRESHNESS_DEFAULTS in
  let soft := get_range "ui_freshness_threshold_sec" 1 3600 (ui_softThresholdSec d) in
  let hard := get_range "ui_freshness_hard_timeout_sec" 1 86400 (ui_hardTimeoutSec d) in {|
    ui_flag := get_flag "ui_session_freshness_enabled" (ui_flag d);
    ui_softThresholdSec := if hard <=? soft then Z.max 1 (hard - 1) else soft;
    ui_hardTimeoutSec := hard |}.

Definition effective_codexRotation : CodexRotationConfig :=
  mkCodexRotation (get_range "codex_rotation_low_quota_percent" 0 100
    (cr_lowQuotaThresholdPercent CODEX_ROTATION_DEFAULTS)).

Definition effective_partPersistence : PartPersistenceConfig :=
  let d := PART_PERSISTENCE_DEFAULTS in {|
    pp_debounceMs := get_range "part_persist_debounce_ms" 0 10000 (pp_debounceMs d);
    pp_maxPartBytes := get_range "part_max_bytes" (64 * 1024) (64 * 1024 * 1024) (pp_maxPartBytes d);
    pp_cancelOnCapTrip := get_bool "part_cancel_on_cap_trip" (pp_cancelOnCapTrip d) |}.

Definition effective_subagent : SubagentConfig :=
  mkSubagent (get_range "subagent_quota_low_red_line_percent" 0 50
    (sa_quotaLowRedLinePercent SUBAGENT_DEFAULTS)).

Definition effective_autorun : AutorunConfig :=
  let d := AUTORUN_DEFAULTS in
  let phrases raw := Some (parsePhraseList raw) in {|
    ar_triggerPhrases := read parsed (js "autorun_trigger_phrases") phrases (ar_triggerPhrases d);
    ar_disarmPhrases := read parsed (js "autorun_disarm_phrases") phrases (ar_disarmPhrases d) |}.

Definition effective_toolOutputBudget : ToolOutputBudgetConfig :=
  let d := TOOL_OUTPUT_BUDGET_DEFAULTS in {|
    to_absoluteCap := get_range "tool_output_budget_absolute_cap" 1000 1000000 (to_absoluteCap d);
    to_contextRatio := get_capped "tool_output_budget_context_ratio" (to_contextRatio d);
    to_minimumFloor := get_range "tool_output_budget_minimum_floor" 100 100000 (to_minimumFloor d);
    to_taskOverride := get_range "tool_output_budget_task_override" 1000 1000000 (to_taskOverride d);
    to_bashOverride := get_range "tool_output_budget_bash_override" 1000 1000000 (to_bashOverride d) |}.

Definition effective_toolCallBudget : ToolCallBudgetConfig :=
  let d := TOOL_CALL_BUDGET_DEFAULTS in {|
    tc_enabled := get_bool "tool_call_budget_enabled" (tc_enabled d);
    tc_greenMax := get_range "tool_call_budget_green_max" 1 64 (tc_greenMax d);
    tc_yellowMax := get_range "tool_call_budget_yellow_max" 1 64 (tc_yellowMax d);
    tc_orangeMax := get_range "tool_call_budget_orange_max" 1 64 (tc_orangeMax d);
    tc_redMax := get_range "tool_call_budget_red_max" 1 64 (tc_redMax d);
    tc_unknownMax := get_range "tool_call_budget_unknown_max" 1 64 (tc_unknownMax d);
    tc_absoluteMax := get_range "tool_call_budget_absolute_max" 1 64 (tc_absoluteMax d) |}.

(** The key [compaction_ctx_<provider>_<suffix>]. *)
Definition ctx_key (prov : jsstr) (suffix : string) : jsstr := js "compaction_ctx_" ++ prov ++ js suffix.

Definition effective_profile (entry : jsstr * ContextThresholdProfile) : jsstr * ContextThresholdProfile :=
  let '(prov, prof) := entry in
  let get suffix value := read parsed (ctx_key prov suffix) (parseIntRange 1000 2000000) value in
  (prov, {|
    bCompactTokens := get "_b_tokens"%string (bCompactTokens prof);
    aCompactTokens := get "_a_tokens"%string (aCompactTokens prof);
    aIncrementTokens := get "_a_increment_tokens"%string (aIncrementTokens prof) |}).

Definition effective_fadeout : fadeout_config :=
  let d := cp_fadeout COMPACTION_DEFAULTS in {|
    fo_enabled := get_bool "compaction_fadeout_enabled" (fo_enabled d);
    fo_aEssenceTokens := get_range "compaction_fadeout_a_essence_tokens" 500 200000 (fo_aEssenceTokens d);
    fo_bTailRounds := get_range "compaction_fadeout_b_tail_rounds" 0 50 (fo_bTailRounds d);
    fo_aTailRounds := get_range "compaction_fadeout_a_tail_rounds" 0 100 (fo_aTailRounds d);
    fo_aTailFloorTokens := get_range "compaction_fadeout_a_tail_floor_tokens" 0 500000 (fo_aTailFloorTokens d) |}.

Definition effective_compaction : CompactionConfig :=
  let d := COMPACTION_DEFAULTS in {|
    cp_enableHybridLlm := get_bool "compaction_enable_hybrid_llm" (cp_enableHybridLlm d);
    cp_llmTimeoutMs := get_range "compaction_llm_timeout_ms" 5000 300000 (cp_llmTimeoutMs d);
    cp_llmTimeoutBackgroundMs :=
      get_range "compaction_llm_timeout_background_ms" 30000 600000 (cp_llmTimeoutBackgroundMs d);
    cp_fallbackProvider :=
      read parsed (js "compaction_fallback_provider") (λ raw, Some (trim raw)) (cp_fallbackProvider d);
    cp_phase2MaxAnchorTokens :=
      get_range "compaction_phase2_max_anchor_tokens" 1000 50000 (cp_phase2MaxAnchorTokens d);
    cp_pinnedZoneMaxTokensRatio :=
      get_capped "compaction_pinned_zone_max_tokens_ratio" (cp_pinnedZoneMaxTokensRatio d);
    cp_budgetStatusThresholds :=
      read parsed (js "compaction_budget_status_thresholds") parseThreeAscendingRatios (cp_budgetStatusThresholds d);
    cp_cacheLossFloor := get_ratio "compaction_cache_loss_floor" (cp_cacheLossFloor d);
    cp_minUncachedTokens := get_range "compaction_min_uncached_tokens" 0 10000000 (cp_minUncachedTokens d);
    cp_stallRecoveryFloor := get_ratio "compaction_stall_recovery_floor" (cp_stallRecoveryFloor d);
    cp_stallRecoveryConsecutiveEmpty :=
      get_range "compaction_stall_recovery_consecutive_empty" 1 20 (cp_stallRecoveryConsecutiveEmpty d);
    cp_quotaPressureThreshold := get_ratio "compaction_quota_pressure_threshold" (cp_quotaPressureThreshold d);
    cp_codexServerPriorityRatio :=
      get_ratio "compaction_codex_server_priority_ratio" (cp_codexServerPriorityRatio d);
    cp_codexItemOverflowThreshold :=
      get_range "compaction_codex_item_overflow_threshold" 1 100000 (cp_codexItemOverflowThreshold d);
    cp_claudeItemOverflowThreshold :=
      get_range "compaction_claude_item_overflow_threshold" 1 100000 (cp_claudeItemOverflowThreshold d);
    cp_emptyResponseFloor := get_ratio "compaction_empty_response_floor" (cp_emptyResponseFloor d);
    cp_localToAiThresholdRatio :=
      get_ratio "compaction_local_to_ai_threshold_ratio" (cp_localToAiThresholdRatio d);
    cp_phase1Enabled := get_bool "compaction_phase1_enabled" (cp_phase1Enabled d);
    cp_recentRawRounds := get_range "compaction_recent_raw_rounds" 0 10 (cp_recentRawRounds d);
    cp_fallbackThreshold := get_range "compaction_fallback_threshold" 1 20 (cp_fallbackThreshold d);
    cp_phase2Enabled := get_bool "compaction_phase2_enabled" (cp_phase2Enabled d);
    cp_enableUserMsgReplay := get_bool "compaction_enable_user_msg_replay" (cp_enableUserMsgReplay d);
    cp_stripReasoningFromModelInput := cp_stripReasoningFromModelInput d;
    cp_enableDialogRedactionAnchor :=
      get_bool "compaction_enable_dialog_redaction_anchor" (cp_enableDialogRedactionAnchor d);
    cp_anchorRecompressCeilingTokens :=
      get_range "compaction_anchor_recompress_ceiling_tokens" 1000 1000000 (cp_anchorRecompressCeilingTokens d);
    cp_fadeout := effective_fadeout;
    cp_contextThresholds := map effective_profile (cp_contextThresholds d) |}.

Definition effective_sessionStorage : SessionStorageConfig :=
  let d := SESSION_STORAGE_DEFAULTS in {|
    ss_idleThresholdMs := get_range "session_storage_idle_threshold_ms" 100 3600000 (ss_idleThresholdMs d);
    ss_connectionIdleMs := get_range "session_storage_connection_idle_ms" 1000 3600000 (ss_connectionIdleMs d) |}.

Definition effective_bigContentBoundary : BigContentBoundaryConfig :=
  let d := BIG_CONTENT_BOUNDARY_DEFAULTS in {|
    bc_userAttachmentMaxBytes :=
      get_range "boundary_user_attachment_max_bytes" 1024 100000000 (bc_userAttachmentMaxBytes d);
    bc_attachmentPreviewBytes :=
      get_range "boundary_attachment_preview_bytes" 0 100000 (bc_attachmentPreviewBytes d);
    bc_subagentResultMaxBytes :=
      get_range "boundary_subagent_result_max_bytes" 1024 100000000 (bc_subagentResultMaxBytes d) |}.

Definition effective_attachmentInline : AttachmentInlineConfig :=
  let d := ATTACHMENT_INLINE_DEFAULTS in {|
    ai_enabled := get_bool "attachment_inline_enabled" (ai_enabled d);
    ai_activeSetMax := get_range "attachment_active_set_max" 1 50 (ai_activeSetMax d);
    ai_autoInlineUploadBudgetTokens :=
      get_range "attachment_auto_inline_budget_tokens" 0 2000000 (ai_autoInlineUploadBudgetTokens d) |}.

(** The values of a file with these entries. *)
Definition effective_of (src : jsstr * bool) : Effective := {|
  sessionCache := effective_sessionCache;
  rateLimit := effective_rateLimit;
  frontendLazyload := effective_frontendLazyload;
  sessionUiFreshness := effective_sessionUiFreshness;
  codexRotation := effective_codexRotation;
  partPersistence := effective_partPersistence;
  subagent := effective_subagent;
  autorun := effective_autorun;
  toolOutputBudget := effective_toolOutputBudget;
  toolCallBudget := effective_toolCallBudget;
  compaction := effective_compaction;
  sessionStorage := effective_sessionStorage;
  bigContentBoundary := effective_bigContentBoundary;
  attachmentInline := effective_attachmentInline;
  debugLogEnabled := get_bool "debug_log_enabled" false;
  source := src |}.
End Compute.

(** The values when there is no file. *)
Definition default_effective (src : jsstr * bool) : Effective := {|
  sessionCache := SESSION_CACHE_DEFAULTS;
  rateLimit := RATE_LIMIT_DEFAULTS;
  frontendLazyload := FRONTEND_LAZYLOAD_DEFAULTS;
  sessionUiFreshness := SESSION_UI_FRESHNESS_DEFAULTS;
  codexRotation := CODEX_ROTATION_DEFAULTS;
  partPersistence := PART_PERSISTENCE_DEFAULTS;
  subagent := SUBAGENT_DEFAULTS;
  autorun := AUTORUN_DEFAULTS;
  toolOutputBudget := TOOL_OUTPUT_BUDGET_DEFAULTS;
  toolCallBudget := TOOL_CALL_BUDGET_DEFAULTS;
  compaction := COMPACTION_DEFAULTS;
  sessionStorage := SESSION_STORAGE_DEFAULTS;
  bigContentBoundary := BIG_CONTENT_BOUNDARY_DEFAULTS;
  attachmentInline := ATTACHMENT_INLINE_DEFAULTS;
  debugLogEnabled := false;
  source := src |}.

(** The path of the file, from the environment. *)
Definition path (env : option jsstr) : jsstr :=
  match env with Some (c :: p) => c :: p | _ => js "/etc/opencode/tweaks.cfg" end.

Inductive read_error := ReadError.

(** [computeEffective]: [f] is what [readRaw] finds. *)
Definition computeEffective (cfgPath : jsstr) (f : file jsstr) : result read_error Effective :=
  match f with
  | Absent => Ret (default_effective (cfgPath, false))
  | Unreadable => Throw ReadError
  | Holds body => Ret (effective_of (parseLines body) (cfgPath, true))
  end.

(** ** Loading

    [_loadPromise] is started by the first call, and settled when the file was
    read.  Every call waits for it. *)
Inductive promise := Pending | Settled (r : result read_error Effective).

Record loader := mkLoader { _effective : option Effective; _loadPromise : option promise }.
Definition initial_loader : loader := mkLoader None None.

(** The start of [effective]: a value, or a promise to wait for. *)
Definition effective (l : loader) : loader * option Effective :=
  match _effective l with
  | Some e => (l, Some e)
  | None =>
      match _loadPromise l with
      | Some _ => (l, None)
      | None => (mkLoader None (Some Pending), None)
      end
  end.

(** The promise is settled with what [computeEffective] returned. *)
Definition settle (r : result read_error Effective) (l : loader) : option loader :=
  match _loadPromise l with
  | Some Pending =>
      Some (mkLoader (match r with Ret e => Some e | Throw _ => _effective l end) (Some (Settled r)))
  | _ => None
  end.

(** What a caller that waits is given. *)
Definition awaited (l : loader) : option (result read_error Effective) :=
  match _loadPromise l with Some (Settled r) => Some r | _ => None end.

(** The accessors that do not wait. *)
Definition sync {A} (field : Effective → A) (value : A) (l : loader) : A :=
  match _effective l with Some e => field e | None => value end.
Definition partPersistenceSync := sync partPersistence PART_PERSISTENCE_DEFAULTS.
Definition autorunSync := sync autorun AUTORUN_DEFAULTS.
Definition toolOutputBudgetSync := sync toolOutputBudget TOOL_OUTPUT_BUDGET_DEFAULTS.
Definition toolCallBudgetSync := sync toolCallBudget TOOL_CALL_BUDGET_DEFAULTS.
Definition compactionSync := sync compaction COMPACTION_DEFAULTS.
Definition sessionStorageSync := sync sessionStorage SESSION_STORAGE_DEFAULTS.
Definition bigContentBoundarySync := sync bigContentBoundary BIG_CONTENT_BOUNDARY_DEFAULTS.
Definition attachmentInlineSync := sync attachmentInline ATTACHMENT_INLINE_DEFAULTS.
Definition debugLogEnabledSync := sync debugLogEnabled false.

Definition lookup_profile (key : jsstr) (all : list (jsstr * ContextThresholdProfile)) :
    option ContextThresholdProfile :=
  snd <$> find (λ e, bool_decide (e.1 = key)) all.

(** [None] where what is returned is not a profile: a name that every object
    inherits is found before [default] is tried. *)
Definition contextThresholdsSync (providerId : option jsstr) (l : loader) : option ContextThresholdProfile :=
  let all := cp_contextThresholds (compactionSync l) in
  match providerId with
  | None => lookup_profile (js "default") all
  | Some id =>
      match lookup_profile id all with
      | Some prof => Some prof
      | None =>
          if bool_decide (id ∈ object_prototype) then None else lookup_profile (js "default") all
      end
  end.

(** The machine of loads: calls of [effective] and settlements. *)
Inductive load_action := CallEffective | SettleWith (f : file jsstr).

Definition load_step (env : option jsstr) (a : load_action) (l : loader) : option loader :=
  match a with
  | CallEffective => Some (effective l).1
  | SettleWith f => settle (computeEffective (path env) f) l
  end.

(** ** What the values are in *)

Definition within (lo hi v : Z) : Prop := lo <= v <= hi.
Definition is_ratio (q : Q) : Prop := (0 <= q <= 1)%Q.
Definition is_share (q : Q) : Prop := (0 < q <= 1)%Q.
Definition is_flag (v : Z) : Prop := v = 0 ∨ v = 1.

Definition cache_ok (c : SessionCacheConfig) : Prop := 0 <= sc_ttlSec c ∧ 1 <= sc_maxEntries c.

Definition rate_ok (c : RateLimitConfig) : Prop := (0 < rl_qpsPerUserPerPath c)%Q ∧ 1 <= rl_burst c.

(** Windows do not exceed the part cap, nor tails the caps of the store. *)
Definition lazyload_ok (c : FrontendLazyloadConfig) : Prop :=
  is_flag (fl_flag c) ∧ within 4 4096 (fl_partInlineCapKb c) ∧
  within 4 (fl_partInlineCapKb c) (fl_tailWindowKb c) ∧ within 1 200 (fl_foldPreviewLines c) ∧
  match fl_initialPageSizeSmall c with AllMessages => True | PageOf n => within 10 1000 n end ∧
  within 10 1000 (fl_initialPageSizeMedium c) ∧ within 10 1000 (fl_initialPageSizeLarge c) ∧
  within 64 1048576 (fl_sessionSizeThresholdKb c) ∧ within 10 100000 (fl_sessionSizeThresholdParts c) ∧
  within 5 200 (fl_sessionMessagesDefaultTail c) ∧
  within 5 (Z.min 500 (fl_sessionStoreCapMobile c)) (fl_sessionTailMobile c) ∧
  within 5 (Z.min 2000 (fl_sessionStoreCapDesktop c)) (fl_sessionTailDesktop c) ∧
  within 30 2000 (fl_sessionStoreCapMobile c) ∧ within 50 5000 (fl_sessionStoreCapDesktop c) ∧
  within 16000 16000000 (fl_sessionPartCapBytes c).

(** The soft threshold is below the hard one, or both are a second. *)
Definition freshness_ok (c : SessionUiFreshnessConfig) : Prop :=
  is_flag (ui_flag c) ∧ within 1 3600 (ui_softThresholdSec c) ∧ within 1 86400 (ui_hardTimeoutSec c) ∧
  (ui_softThresholdSec c < ui_hardTimeoutSec c ∨ (ui_softThresholdSec c = 1 ∧ ui_hardTimeoutSec c = 1)).

Definition persistence_ok (c : PartPersistenceConfig) : Prop :=
  within 0 10000 (pp_debounceMs c) ∧ within (64 * 1024) (64 * 1024 * 1024) (pp_maxPartBytes c).

Definition output_budget_ok (c : ToolOutputBudgetConfig) : Prop :=
  within 1000 1000000 (to_absoluteCap c) ∧ is_share (to_contextRatio c) ∧
  within 100 100000 (to_minimumFloor c) ∧ within 1000 1000000 (to_taskOverride c) ∧
  within 1000 1000000 (to_bashOverride c).

Definition call_budget_ok (c : ToolCallBudgetConfig) : Prop :=
  Forall (within 1 64)
    [tc_greenMax c; tc_yellowMax c; tc_orangeMax c; tc_redMax c; tc_unknownMax c; tc_absoluteMax c].

Definition profile_ok (e : jsstr * ContextThresholdProfile) : Prop :=
  Forall (within 1000 2000000) [bCompactTokens e.2; aCompactTokens e.2; aIncrementTokens e.2].

Definition fadeout_ok (c : fadeout_config) : Prop :=
  within 500 200000 (fo_aEssenceTokens c) ∧ within 0 50 (fo_bTailRounds c) ∧
  within 0 100 (fo_aTailRounds c) ∧ within 0 500000 (fo_aTailFloorTokens c).

Definition ascending (t : Q * Q * Q) : Prop :=
  let '(a, b, c) := t in is_ratio a ∧ is_ratio b ∧ is_ratio c ∧ (a < b)%Q ∧ (b < c)%Q.

Definition compaction_ok (c : CompactionConfig) : Prop :=
  within 5000 300000 (cp_llmTimeoutMs c) ∧ within 30000 600000 (cp_llmTimeoutBackgroundMs c) ∧
  within 1000 50000 (cp_phase2MaxAnchorTokens c) ∧ is_share (cp_pinnedZoneMaxTokensRatio c) ∧
  ascending (cp_budgetStatusThresholds c) ∧ within 0 10000000 (cp_minUncachedTokens c) ∧
  Forall is_ratio [cp_cacheLossFloor c; cp_stallRecoveryFloor c; cp_quotaPressureThreshold c;
    cp_codexServerPriorityRatio c; cp_emptyResponseFloor c; cp_localToAiThresholdRatio c] ∧
  within 1 20 (cp_stallRecoveryConsecutiveEmpty c) ∧ within 1 100000 (cp_codexItemOverflowThreshold c) ∧
  within 1 100000 (cp_claudeItemOverflowThreshold c) ∧ within 0 10 (cp_recentRawRounds c) ∧
  within 1 20 (cp_fallbackThreshold c) ∧ within 1000 1000000 (cp_anchorRecompressCeilingTokens c) ∧
  fadeout_ok (cp_fadeout c) ∧ Forall profile_ok (cp_contextThresholds c) ∧
  map fst (cp_contextThresholds c) = [js "default"; js "claude-cli"; js "codex"].

Definition effective_ok (e : Effective) : Prop :=
  cache_ok (sessionCache e) ∧ rate_ok (rateLimit e) ∧ lazyload_ok (frontendLazyload e) ∧
  freshness_ok (sessionUiFreshness e) ∧ within 0 100 (cr_lowQuotaThresholdPercent (codexRotation e)) ∧
  persistence_ok (partPersistence e) ∧ within 0 50 (sa_quotaLowRedLinePercent (subagent e)) ∧
  (∀ p, p ∈ ar_triggerPhrases (autorun e) ++ ar_disarmPhrases (autorun e) → p ≠ []) ∧
  output_budget_ok (toolOutputBudget e) ∧ call_budget_ok (toolCallBudget e) ∧
  compaction_ok (compaction e) ∧
  within 100 3600000 (ss_idleThresholdMs (sessionStorage e)) ∧
  within 1000 3600000 (ss_connectionIdleMs (sessionStorage e)) ∧
  within 1024 100000000 (bc_userAttachmentMaxBytes (bigContentBoundary e)) ∧
  within 0 100000 (bc_attachmentPreviewBytes (bigContentBoundary e)) ∧
  within 1024 100000000 (bc_subagentResultMaxBytes (bigContentBoundary e)) ∧
  within 1 50 (ai_activeSetMax (attachmentInline e)) ∧
  within 0 2000000 (ai_autoInlineUploadBudgetTokens (attachmentInline e)).

(** ** Ranges *)

Section Ranges.
Context (parsed : gmap jsstr jsstr).

(** What holds of the default and of whatever parses holds of the reading. *)
Lemma read_ok {A : Type} (P : A → Prop) key (parse : jsstr → option A) value :
  P value → (∀ raw v, parse raw = Some v → P v) → P (read parsed key parse value).
Proof.
  intros Hv Hp. unfold read. destruct (parsed !! key) as [raw|]; [|done].
  destruct (parse raw) as [v|] eqn:E; [by apply (Hp raw)|done].
Qed.

Lemma parseIntRange_ok lo hi raw v : parseIntRange lo hi raw = Some v → within lo hi v.
Proof.
  unfold parseIntRange, within. destruct (parseInt _); [|done].
  destruct (_ || _) eqn:E; [done|]. intros [= ->]. bool_to_prop. lia.
Qed.

Lemma parseRatio_ok raw v : parseRatio raw = Some v → is_ratio v.
Proof.
  unfold parseRatio, is_ratio. destruct (parseFloat _) as [q|]; [|done].
  destruct (_ || _) eqn:E; [done|]. intros [= ->]. apply orb_false_iff in E as [H1 H2].
  by rewrite Qltb_ge in H1, H2.
Qed.

Lemma parseFloatPositive_ok raw v : parseFloatPositive raw = Some v → (0 < v)%Q.
Proof.
  unfold parseFloatPositive. destruct (parseFloat _) as [q|]; [|done].
  destruct (Qle_bool q 0) eqn:E; [done|]. intros [= ->]. apply Qnot_le_lt.
  by rewrite <- Qle_bool_iff, E.
Qed.

Lemma parse_capped_ok raw v : parse_capped raw = Some v → is_share v.
Proof.
  unfold parse_capped. destruct (parseFloatPositive raw) as [q|] eqn:E; [|done].
  intros [= <-]. apply parseFloatPositive_ok in E. unfold is_share, cap_one.
  destruct (Qltb 1 q) eqn:E1; [done|]. by rewrite Qltb_ge in E1.
Qed.

Lemma parseFlag01_ok raw v : parseFlag01 raw = Some v → is_flag v.
Proof. unfold parseFlag01, is_flag. repeat case_goal; naive_solver. Qed.

Lemma parseThreeAscendingRatios_ok raw t : parseThreeAscendingRatios raw = Some t → ascending t.
Proof.
  unfold parseThreeAscendingRatios. destruct (map parseRatio _) as [|r1 [|r2 [|r3 [|]]]] eqn:Em; try (repeat case_goal; done).
  destruct r1 as [a|]; [|done]. destruct r2 as [b|]; [|done]. destruct r3 as [c|]; [|done].
  destruct (_ && _) eqn:E; [|done]. intros [= <-]. apply andb_true_iff in E as [H1%Qltb_lt H2%Qltb_lt].
  destruct (parts_of 44 raw) as [|p1 [|p2 [|p3 [|]]]]; try done. injection Em as E1 E2 E3.
  refine (conj _ (conj _ (conj _ (conj H1 H2)))); eauto using parseRatio_ok.
Qed.

Lemma get_range_ok key lo hi value : within lo hi value → within lo hi (get_range parsed key lo hi value).
Proof. intros Hv. apply (read_ok (within lo hi)); [done|]. apply parseIntRange_ok. Qed.

Lemma get_min_ok key lo value : lo <= value → lo <= get_min parsed key lo value.
Proof.
  intros Hv. apply (read_ok (λ v, lo <= v)); [done|]. intros raw v. unfold parseInt10.
  destruct (parseInt _); [|done]. destruct (Z.ltb_spec z lo); [done|]. by intros [= <-].
Qed.

Lemma get_ratio_ok key value : is_ratio value → is_ratio (get_ratio parsed key value).
Proof. intros Hv. apply (read_ok is_ratio); [done|]. apply parseRatio_ok. Qed.

Lemma get_capped_ok key value : is_share value → is_share (get_capped parsed key value).
Proof. intros Hv. apply (read_ok is_share); [done|]. apply parse_capped_ok. Qed.

Lemma get_flag_ok key value : is_flag value → is_flag (get_flag parsed key value).
Proof. intros Hv. apply (read_ok is_flag); [done|]. apply parseFlag01_ok. Qed.

Lemma parts_ok sep raw p : p ∈ parts_of sep raw → p ≠ [].
Proof. unfold parts_of. by intros [Hp _]%list_elem_of_filter. Qed.
End Ranges.

(** A goal about the defaults. *)
Ltac by_default := first [by unfold within; simpl; lia | by left | by vm_compute].

Section EffectiveOk.
Context (m : gmap jsstr jsstr).

Lemma cache_in_range : cache_ok (effective_sessionCache m).
Proof. split; simpl; apply get_min_ok; lia. Qed.

Lemma rate_in_range : rate_ok (effective_rateLimit m).
Proof. split; simpl; [|by apply get_min_ok]. apply (read_ok m (λ q, 0 < q)%Q); [by vm_compute|]. apply parseFloatPositive_ok. Qed.

Lemma clamp_ok lo hi cap v : within lo hi v → lo <= cap → within lo (Z.min hi cap) (clamp v cap).
Proof. unfold within, clamp. intros Hv Hc. destruct (Z.ltb_spec cap v); lia. Qed.

Lemma lazyload_in_range : lazyload_ok (effective_frontendLazyload m).
Proof.
  unfold lazyload_ok, effective_frontendLazyload. cbn -[get_range get_flag].
  repeat match goal with |- _ ∧ _ => split end;
    try (apply get_range_ok; by_default); try (apply get_flag_ok; by_default).
  - assert (H : ∀ cap v, within 4 4096 v → within 4 4096 cap → within 4 cap (clamp v cap)).
    { unfold within, clamp. intros cap v Hv Hc. destruct (Z.ltb_spec cap v); lia. }
    apply H; apply get_range_ok; by_default.
  - apply (read_ok m (λ p, match p with AllMessages => True | PageOf n => within 10 1000 n end)); [done|].
    intros raw v. unfold parseInitialPageSizeSmall. case_bool_decide; [by intros [= <-]|].
    destruct (parseIntRange _ _ raw) as [n|] eqn:E; [|done]. intros [= <-]. by eapply parseIntRange_ok.
  - apply clamp_ok; [apply get_range_ok; by_default|].
    pose proof (get_range_ok m "session_store_cap_mobile" 30 2000 100 ltac:(by_default)) as [Hc _]. lia.
  - apply clamp_ok; [apply get_range_ok; by_default|].
    pose proof (get_range_ok m "session_store_cap_desktop" 50 5000 200 ltac:(by_default)) as [Hc _]. lia.
Qed.

Lemma freshness_in_range : freshness_ok (effective_sessionUiFreshness m).
Proof.
  unfold freshness_ok, effective_sessionUiFreshness. cbn -[get_range get_flag].
  pose proof (get_range_ok m "ui_freshness_threshold_sec" 1 3600 15 ltac:(by_default)) as Hs.
  pose proof (get_range_ok m "ui_freshness_hard_timeout_sec" 1 86400 60 ltac:(by_default)) as Hh.
  revert Hs Hh. unfold within. set (soft := get_range m _ 1 3600 15). set (hard := get_range m _ 1 86400 60).
  intros Hs Hh. split; [apply get_flag_ok; by_default|]. destruct (Z.leb_spec hard soft); lia.
Qed.

Lemma output_budget_in_range : output_budget_ok (effective_toolOutputBudget m).
Proof.
  repeat match goal with |- output_budget_ok _ => unfold output_budget_ok; cbn -[get_range get_capped num] | |- _ ∧ _ => split end;
    try (apply get_range_ok; by_default). apply get_capped_ok. by vm_compute.
Qed.

Lemma call_budget_in_range : call_budget_ok (effective_toolCallBudget m).
Proof. unfold call_budget_ok. repeat constructor; apply get_range_ok; by_default. Qed.

Lemma profile_in_range e : profile_ok e → profile_ok (effective_profile m e).
Proof.
  destruct e as [prov [b a i]]. unfold profile_ok. simpl. rewrite !Forall_cons. intros (Hb & Ha & Hi & _).
  repeat match goal with |- _ ∧ _ => split end; try (by apply Forall_nil); (apply (read_ok m (within 1000 2000000)); [done|apply parseIntRange_ok]).
Qed.

Lemma default_profiles_ok : Forall profile_ok (cp_contextThresholds COMPACTION_DEFAULTS).
Proof. unfold profile_ok, within. by_compute. Qed.

Lemma compaction_in_range : compaction_ok (effective_compaction m).
Proof.
  unfold compaction_ok. cbn -[get_range get_capped get_ratio get_bool num effective_profile effective_fadeout read parseThreeAscendingRatios js map].
  repeat match goal with |- _ ∧ _ => split end; try (apply get_range_ok; by_default).
  - apply get_capped_ok. by vm_compute.
  - apply (read_ok m ascending); [by vm_compute|]. apply parseThreeAscendingRatios_ok.
  - repeat constructor; apply get_ratio_ok; by vm_compute.
  - unfold fadeout_ok. repeat match goal with |- _ ∧ _ => split end; apply get_range_ok; by_default.
  - apply Forall_map, (Forall_impl profile_ok); [exact default_profiles_ok|exact profile_in_range].
  - done.
Qed.
End EffectiveOk.

Lemma effective_in_range m src : effective_ok (effective_of m src).
Proof.
  unfold effective_ok. cbn -[get_range effective_autorun].
  repeat match goal with |- _ ∧ _ => split end;
    auto using cache_in_range, rate_in_range, lazyload_in_range, freshness_in_range, output_budget_in_range,
      call_budget_in_range, compaction_in_range;
    try (apply get_range_ok; by_default).
  - split; apply get_range_ok; by_default.
  - assert (Hp : ∀ key d, (∀ p, p ∈ d → p ≠ []) →
      ∀ p, p ∈ read m key (λ raw, Some (parsePhraseList raw)) d → p ≠ []).
    { intros key d Hd. apply (read_ok m (λ l, ∀ p, p ∈ l → p ≠ [])); [done|].
      intros raw v [= <-] p. apply parts_ok. }
    intros p [Hin|Hin]%elem_of_app; (eapply Hp; [|exact Hin]); apply Forall_forall; by_compute.
Qed.

Lemma computed_in_range cfgPath f e : computeEffective cfgPath f = Ret e → effective_ok e.
Proof.
  destruct f as [| |body]; simpl; [|done|]; intros [= <-]; [|apply effective_in_range].
  exact (effective_in_range ∅ (cfgPath, false)).
Qed.

(** ** Reading back a file *)

(** A line of a file: a key and a value with blanks around them, a comment, or
    blanks. *)
Inductive cfg_line :=
| Entry (p1 key p2 p3 value p4 : jsstr)
| Comment (p mark text : jsstr)
| Blank (p : jsstr).

Definition blank (p : jsstr) : Prop := Forall (λ c, is_space c = true ∧ c ≠ newline) p.

Definition trimmed (s : jsstr) : Prop := trim s = s.

Definition line_ok (l : cfg_line) : Prop :=
  match l with
  | Entry p1 key p2 p3 value p4 =>
      blank p1 ∧ blank p2 ∧ blank p3 ∧ blank p4 ∧ key ≠ [] ∧ trimmed key ∧ trimmed value ∧
      61%N ∉ key ∧ newline ∉ key ++ value ∧ ¬ js "#" `prefix_of` key ∧ ¬ js ";" `prefix_of` key
  | Comment p mark text => blank p ∧ mark ∈ [js "#"; js ";"] ∧ newline ∉ text
  | Blank p => blank p
  end.

Definition print_line (l : cfg_line) : jsstr :=
  match l with
  | Entry p1 key p2 p3 value p4 => p1 ++ key ++ p2 ++ js "=" ++ p3 ++ value ++ p4
  | Comment p mark text => p ++ mark ++ text
  | Blank p => p
  end.

Definition entry_of (l : cfg_line) : option (jsstr * jsstr) :=
  match l with Entry _ key _ _ value _ => Some (key, value) | _ => None end.

Definition apply_entry (m : gmap jsstr jsstr) (e : jsstr * jsstr) : gmap jsstr jsstr := <[e.1 := e.2]> m.

Lemma blank_space p : blank p → Forall (λ c, is_space c = true) p.
Proof. intros H. eapply Forall_impl; [exact H|]. naive_solver. Qed.

Lemma trimmed_head c s : trimmed (c :: s) → is_space c = false.
Proof.
  unfold trimmed. intros Ht. destruct (is_space c) eqn:E; [|done].
  pose proof (trim_length s) as Hl. rewrite <- (trim_space c s E), Ht in Hl. simpl in Hl. lia.
Qed.

Lemma trim_chomp line : trim (chomp line) = trim line.
Proof.
  unfold chomp. destruct (reverse line) as [|c r] eqn:E; [done|].
  assert (Hl : line = reverse r ++ [c]) by (by rewrite <- reverse_cons, <- E, reverse_involutive).
  destruct (decide (c = 13%N)) as [->|Hc]; [|repeat case_goal; done].
  rewrite Hl. symmetry. exact (trim_pad [] (reverse r) [13%N] (Forall_nil_2 _) ltac:(by repeat constructor)).
Qed.

Lemma parse_line_trim m a b : trim a = trim b → parse_line m a = parse_line m b.
Proof. unfold parse_line, line_entry. by intros ->. Qed.

Lemma foldl_chomp m lines : foldl parse_line m (chomp_terminated lines) = foldl parse_line m lines.
Proof.
  revert m. induction lines as [|l [|l' ls] IH]; intros m; [done..|].
  change (foldl parse_line (parse_line m (chomp l)) (chomp_terminated (l' :: ls)) =
    foldl parse_line (parse_line m l) (l' :: ls)).
  by rewrite (parse_line_trim m (chomp l) l (trim_chomp l)), IH.
Qed.

Lemma comment_entry p mark text :
  blank p → mark ∈ [js "#"; js ";"] → line_entry (p ++ mark ++ text) = None.
Proof.
  intros Hp Hm. assert (Hc : ∃ c, mark = [c] ∧ (c = 35%N ∨ c = 59%N)) by set_solver.
  destruct Hc as (c & -> & Hc). assert (Hs : is_space c = false) by (by destruct Hc as [-> | ->]).
  assert (Ht : trim (p ++ [c] ++ text) = c :: trimEnd text).
  { unfold trim. rewrite trimStart_app_space by by apply blank_space.
    cbn [app]. rewrite trimStart_nonspace by done. exact (trimEnd_app_nonspace [] c text Hs). }
  unfold line_entry. rewrite Ht.
  assert (startsWith (c :: trimEnd text) (js "#") || startsWith (c :: trimEnd text) (js ";") = true) as ->; [|done].
  apply orb_true_iff. destruct Hc as [-> | ->]; [left|right]; apply bool_decide_eq_true; by exists (trimEnd text).
Qed.

Lemma entry_entry p1 key p2 p3 value p4 :
  line_ok (Entry p1 key p2 p3 value p4) →
  line_entry (print_line (Entry p1 key p2 p3 value p4)) = Some (key, value).
Proof.
  intros (H1 & H2 & H3 & H4 & Hne & Hk & Hv & Heq & _ & Hh & Hs). apply blank_space in H1, H2, H3, H4.
  destruct key as [|c k]; [done|]. pose proof (trimmed_head c k Hk) as Hc. set (w := p3 ++ value ++ p4).
  assert (Ht : trim (print_line (Entry p1 (c :: k) p2 p3 value p4)) = (c :: k) ++ p2 ++ 61%N :: trimEnd w).
  { unfold trim, print_line. rewrite trimStart_app_space by done. cbn [app].
    rewrite trimStart_nonspace by done.
    change (js "=") with [61%N]. cbn [app]. change (c :: k ++ p2 ++ 61%N :: p3 ++ value ++ p4) with ((c :: k) ++ p2 ++ 61%N :: w).
    by rewrite app_assoc, trimEnd_app_nonspace, <- app_assoc by done. }
  unfold line_entry. rewrite Ht. cbn [app].
  assert (Hn : ∀ mark d, mark = [d] → ¬ mark `prefix_of` c :: k → startsWith (c :: k ++ p2 ++ 61%N :: trimEnd w) mark = false).
  { intros mark d -> Hp. unfold startsWith. apply bool_decide_eq_false. intros Hq%prefix_cons_inv_1.
    apply Hp. subst d. by exists k. }
  rewrite (Hn (js "#") 35%N), (Hn (js ";") 59%N) by done. cbn [orb].
  assert (Hi : indexOf (c :: k ++ p2 ++ 61%N :: trimEnd w) (js "=") = Some (length ((c :: k) ++ p2))).
  { rewrite <- (indexOf_unit 61%N ((c :: k) ++ p2) (trimEnd w)); [by rewrite <- app_assoc|].
    intros [Hin|Hin]%elem_of_app; [done|]. rewrite Forall_forall in H2. by apply H2 in Hin. }
  rewrite Hi, app_comm_cons, app_assoc, length_app. cbn [length plus].
  change (S (length k + length p2)) with (length (c :: k) + length p2)%nat.
  rewrite <- length_app, take_app_length.
  replace (S (length ((c :: k) ++ p2))) with (length ((c :: k) ++ p2) + 1)%nat by lia.
  rewrite drop_app_add.
  rewrite <- (app_nil_l ((c :: k) ++ p2)), (trim_pad [] (c :: k) p2) by done.
  rewrite Hk. change (drop 1 (61%N :: trimEnd w)) with (trimEnd w). rewrite trim_trimEnd.
  unfold w. by rewrite (trim_pad p3 value p4), Hv.
Qed.

Lemma line_entry_print l : line_ok l → line_entry (print_line l) = entry_of l.
Proof.
  destruct l as [p1 key p2 p3 value p4|p mark text|p]; intros Hl.
  - by apply entry_entry.
  - destruct Hl as (Hp & Hm & _). by apply comment_entry.
  - pose proof (trim_pad p [] [] (blank_space p Hl) (Forall_nil_2 _)) as E. simpl in E. rewrite app_nil_r in E.
    unfold line_entry. simpl. by rewrite E.
Qed.

Lemma print_line_newline l : line_ok l → newline ∉ print_line l.
Proof.
  assert (Hb : ∀ p, blank p → newline ∉ p).
  { intros p Hp Hin. unfold blank in Hp. rewrite Forall_forall in Hp. by destruct (Hp _ Hin). }
  destruct l as [p1 key p2 p3 value p4|p mark text|p]; simpl; [|intros (Hp & Hm & Ht)|by apply Hb].
  - intros (H1 & H2 & H3 & H4 & _ & _ & _ & _ & Hn & _). rewrite elem_of_app in Hn.
    rewrite !elem_of_app, elem_of_cons, !elem_of_app. apply Hb in H1, H2, H3, H4.
    assert (newline ≠ 61%N) by done. tauto.
  - rewrite !elem_of_app. apply Hb in Hp.
    assert (newline ∉ mark) by (intros Hin; apply elem_of_cons in Hm as [->|Hm]; [|apply list_elem_of_singleton in Hm as ->];
      by apply list_elem_of_singleton in Hin). tauto.
Qed.

(** A file that is printed from entries, comments and blank lines, with
    any blanks around keys and values, is parsed into its entries; the last
    entry of a key counts. *)
Theorem tweaks_file_roundtrip ls : Forall line_ok ls →
  parseLines (join [newline] (map print_line ls)) = foldl apply_entry ∅ (omap entry_of ls).
Proof.
  intros Hok. unfold parseLines, split_lines. rewrite foldl_chomp.
  destruct ls as [|l0 ls0]; [done|]. set (ls := l0 :: ls0) in *.
  rewrite split_join; [|done|apply Forall_map; eapply Forall_impl; [exact Hok|apply print_line_newline]].
  generalize (∅ : gmap jsstr jsstr). induction Hok as [|l ls' Hl _ IH]; intros m; [done|].
  simpl. rewrite IH. unfold parse_line. rewrite line_entry_print by done. by destruct (entry_of l) as [[]|].
Qed.

(** ** Keys

    These are read although they are warned about as unknown. *)
Definition undeclared_keys : list jsstr :=
  map js ["compaction_llm_timeout_background_ms"; "compaction_local_to_ai_threshold_ratio";
    "compaction_fadeout_enabled"; "compaction_fadeout_a_essence_tokens"; "compaction_fadeout_b_tail_rounds";
    "compaction_fadeout_a_tail_rounds"; "compaction_fadeout_a_tail_floor_tokens"] ++
  flat_map (λ prov, map (ctx_key prov) ["_b_tokens"; "_a_tokens"; "_a_increment_tokens"]%string)
    (map fst (cp_contextThresholds COMPACTION_DEFAULTS)).

(** The keys whose value matters. *)
Definition read_keys : list jsstr :=
  filter (λ k : jsstr, k ≠ js "subagent_escalation_wait_ms") KNOWN_KEYS ++ undeclared_keys.

Lemma read_insert_ne {A : Type} (m : gmap jsstr jsstr) key v k (parse : jsstr → option A) value :
  key ≠ k → read (<[key := v]> m) k parse value = read m k parse value.
Proof. intros H. unfold read. by rewrite lookup_insert_ne. Qed.

(** An entry for any other key changes nothing. *)
Theorem other_keys_ignored m key v src :
  key ∉ read_keys → effective_of (<[key := v]> m) src = effective_of m src.
Proof.
  intros Hk. assert (Hne : ∀ k, bool_decide (k ∈ read_keys) = true → key ≠ k).
  { intros k Hin%bool_decide_eq_true_1 <-. by apply Hk. }
  unfold effective_of.
  f_equal; unfold effective_sessionCache, effective_rateLimit, effective_frontendLazyload, read_frontendLazyload,
    effective_sessionUiFreshness, effective_codexRotation, effective_partPersistence, effective_subagent,
    effective_autorun, effective_toolOutputBudget, effective_toolCallBudget, effective_compaction,
    effective_fadeout, effective_sessionStorage, effective_bigContentBoundary, effective_attachmentInline,
    get_bool, get_flag, get_min, get_range, get_ratio, get_capped, effective_profile; simpl map;
    repeat (rewrite read_insert_ne by (apply Hne; vm_compute; reflexivity)); reflexivity.
Qed.

Example undeclared_unknown : forallb unknown undeclared_keys = true.
Proof. by vm_compute. Qed.

(** A key that is warned about as unknown takes effect. *)
Example unknown_key_used :
  unknown (js "compaction_fadeout_b_tail_rounds") = true ∧
  ∃ e, computeEffective [] (Holds (js "compaction_fadeout_b_tail_rounds=7")) = Ret e ∧
    fo_bTailRounds (cp_fadeout (compaction e)) = 7.
Proof. split; [by vm_compute|]. eexists. split; [reflexivity|by vm_compute]. Qed.

(** With a hard timeout of a second the soft threshold is not below it. *)
Example soft_equals_hard :
  ∃ e, computeEffective [] (Holds (js "ui_freshness_hard_timeout_sec=1")) = Ret e ∧
    sessionUiFreshness e = mkUiFreshness 0 1 1.
Proof. eexists. split; [reflexivity|by vm_compute]. Qed.

Lemma tweaks_file_roundtrip_witness :
  parseLines (js "# burst" ++ newline :: js "  a = b c " ++ newline :: newline :: js "a=d") = {[js "a" := js "d"]}.
Proof.
  change (parseLines (join [newline] (map print_line
    [Comment [] (js "#") (js " burst"); Entry (js "  ") (js "a") (js " ") (js " ") (js "b c") (js " ");
     Blank []; Entry [] (js "a") [] [] (js "d") []])) = {[js "a" := js "d"]}).
  rewrite tweaks_file_roundtrip; [by vm_compute|].
  repeat apply Forall_cons_2; try (by apply Forall_nil); cbn [line_ok]; unfold blank, trimmed; by_compute.
Defined.

(** ** Loading *)

(** The value is there exactly when the promise was settled with it, and is in
    range. *)
Definition load_inv (l : loader) : Prop :=
  match _loadPromise l with
  | Some (Settled (Ret e)) => _effective l = Some e ∧ effective_ok e
  | _ => _effective l = None
  end.

Section Loading.
Context (env : option jsstr).

Lemma load_step_inv a l l' : load_inv l → load_step env a l = Some l' → load_inv l'.
Proof.
  unfold load_inv. destruct l as [eff pr]. destruct a as [|f]; simpl.
  - intros Hi [= <-]. unfold effective. simpl. destruct eff, pr as [[|[|]]|]; simpl in *; try done; by destruct Hi.
  - unfold settle. simpl. destruct pr as [[|]|]; [|done..]. intros -> [= <-]. simpl.
    destruct (computeEffective _ f) as [|e] eqn:E; [done|]. eauto using computed_in_range.
Qed.

Lemma load_reachable l : reachable (load_step env) initial_loader l → load_inv l.
Proof. apply reachable_ind_inv; [done|]. eauto using load_step_inv. Qed.

(** What a promise was settled with stays: the file is read at most once, and
    when reading it fails, every later call fails. *)
Theorem loaded_once acts l l' r :
  reachable (load_step env) initial_loader l → awaited l = Some r → run (load_step env) acts l = Some l' → l' = l.
Proof.
  intros Hr Ha. apply load_reachable in Hr. revert l'. induction acts as [|a acts IH]; intros l' Hrun; simpl in Hrun.
  - congruence.
  - destruct (load_step env a l) as [l1|] eqn:E; [|done]. assert (l1 = l) as ->; [|by apply IH].
    destruct l as [eff pr]. unfold awaited, load_inv in *. simpl in *. destruct pr as [[|r']|]; [done| |done].
    destruct a as [|f]; simpl in E; [|done]. injection E as <-. unfold effective. simpl. by destruct eff.
Qed.

(** The record that the accessors show. *)
Definition shown (l : loader) : Effective := default (default_effective (path env, false)) (_effective l).

(** Whatever the file holds, and whether it was read, is missing or could not
    be read: a call that is answered and the accessors that do not wait show one
    record, whose values lie in their ranges and whose related values are in
    order: windows and tails do not exceed their caps, thresholds ascend, and the
    soft threshold is below the hard one unless both are a second. *)
Theorem tweaks_in_range l : reachable (load_step env) initial_loader l →
  ∃ e, effective_ok e ∧ (∀ e', awaited l = Some (Ret e') → e' = e) ∧
    partPersistenceSync l = partPersistence e ∧ autorunSync l = autorun e ∧
    toolOutputBudgetSync l = toolOutputBudget e ∧ toolCallBudgetSync l = toolCallBudget e ∧
    compactionSync l = compaction e ∧ sessionStorageSync l = sessionStorage e ∧
    bigContentBoundarySync l = bigContentBoundary e ∧ attachmentInlineSync l = attachmentInline e ∧
    debugLogEnabledSync l = debugLogEnabled e.
Proof.
  intros Hr%load_reachable. exists (shown l). destruct l as [eff pr]. unfold load_inv, awaited, shown in *. simpl in *.
  assert (Hd : effective_ok (default_effective (path env, false))) by exact (effective_in_range ∅ (path env, false)).
  destruct pr as [[|[|e]]|]; simpl in *; [subst eff; by split_and!..| |subst eff; by split_and!].
  destruct Hr as [-> Hok]. simpl. split_and!; [done| |done..]. by intros e' [= ->].
Qed.
End Loading.

Definition demo_load : list load_action :=
  [CallEffective; SettleWith (Holds (js "part_inline_cap_kb = 8" ++ newline :: js "tool_call_budget_red_max=0"))].

Lemma tweaks_in_range_witness :
  ∃ l, run (load_step None) demo_load initial_loader = Some l ∧
    fl_tailWindowKb <$> (frontendLazyload <$> _effective l) = Some 8 ∧ tc_redMax (toolCallBudgetSync l) = 1 ∧
    ∃ e, effective_ok e ∧ toolCallBudgetSync l = toolCallBudget e.
Proof.
  eexists. split; [reflexivity|]. split; [by vm_compute|]. split; [by vm_compute|].
  edestruct (tweaks_in_range None) as (e & He & _ & _ & _ & _ & Ht & _); [|exists e; split; [exact He|exact Ht]].
  apply (run_reachable _ initial_loader demo_load initial_loader); [constructor|reflexivity].
Defined.

(** A read that failed is never tried again. *)
Example failed_read_stays :
  run (load_step None) [CallEffective; SettleWith Unreadable; CallEffective] initial_loader
    = Some (mkLoader None (Some (Settled (Throw ReadError)))) ∧
  run (load_step None) [CallEffective; SettleWith Unreadable; CallEffective; SettleWith (Holds [])] initial_loader = None.
Proof. by vm_compute. Qed.


(** A provider without a profile has the default one, unless its name is one
    that every object inherits. *)
Example thresholds_by_provider :
  map (λ id, contextThresholdsSync (Some (js id)) initial_loader) ["codex"; "openai"; "constructor"]%string
  = [Some (mkProfile 80000 128000 15000); Some (mkProfile 100000 128000 20000); None].
Proof. by vm_compute. Qed.
