(* ===== verification/ToolBudget.v ===== *)
(** * Budgets of tools ([tool/budget.ts], [session/llm.ts])

    The tokens a tool may return, the estimate of the tokens of a text, and the
    number of tool calls a model may make in a turn.  The budgets read the
    tunables of [Tweaks]; products of doubles are rounded ([JsNumber]). *)
From Stdlib Require Import QArith Qround Lqa.
From S2P Require Import Prelude JsString JsNumber Tweaks.
Open Scope Z_scope.

(** ** Tokens of a tool's output *)

Inductive budget_source := FromCtx | TweaksDefault | TaskOverride | BashOverride.

Record Resolved := mkResolved { res_tokens : Z; res_source : budget_source }.

(** The cap of a tool; the identifier may be missing. *)
Definition tool_cap (cfg : ToolOutputBudgetConfig) (toolId : option jsstr) : Z :=
  if decide (toolId = Some (js "task")) then to_taskOverride cfg
  else if decide (toolId = Some (js "bash")) then to_bashOverride cfg
  else to_absoluteCap cfg.

Definition tool_source (toolId : option jsstr) : budget_source :=
  if decide (toolId = Some (js "task")) then TaskOverride
  else if decide (toolId = Some (js "bash")) then BashOverride
  else TweaksDefault.

Definition resolve (cfg : ToolOutputBudgetConfig) (outputBudget : option Z) (toolId : option jsstr) : Resolved :=
  let from_tweaks := mkResolved (Z.max (tool_cap cfg toolId) (to_minimumFloor cfg)) (tool_source toolId) in
  match outputBudget with
  | Some n => if 0 <? n then mkResolved n FromCtx else from_tweaks
  | None => from_tweaks
  end.

(** [Math.round]. *)
Definition math_round (q : Q) : Z := Qfloor (q + (1 # 2)).

(** [a * b] for a count [a]; counts and ratios stay far from overflow. *)
Definition scale (a : Z) (q : Q) : Q := default 0%Q (round_ratio (a * Qnum q) (Zpos (Qden q))).

Definition computeForModel (cfg : ToolOutputBudgetConfig) (window : Z) (toolId : option jsstr) : Z :=
  let fromRatio := math_round (scale window (to_contextRatio cfg)) in
  Z.max (to_minimumFloor cfg) (Z.min fromRatio (tool_cap cfg toolId)).

(** ** Estimate of tokens *)

Definition in_block (c lo hi : N) : bool := ((lo <=? c) && (c <=? hi))%N.

(** A unit that counts as a token of its own. *)
Definition is_wide (c : N) : bool :=
  in_block c 12288 12351 || in_block c 12352 12543 || in_block c 13312 19903 || in_block c 19968 40959 ||
  in_block c 44032 55215 || in_block c 63744 64255 || in_block c 65280 65519 || in_block c 55296 56319.

Fixpoint count_wide (text : jsstr) : Z :=
  match text with
  | [] => 0
  | c :: rest => (if is_wide c then 1 else 0) + count_wide rest
  end.

Definition estimateTokens (text : jsstr) : Z :=
  let cjk := count_wide text in
  let other := Z.of_nat (length text) - cjk in
  cjk + (other + 3) / 4.

(** ** Tool calls of a turn *)

Inductive budget_status := Green | Yellow | Orange | Red | Unknown.

(** The options of a call that are read and written. *)
Record call_options := mkOptions { maxToolCalls : option Z; parallelToolCalls : option bool }.

Definition status_max (cfg : ToolCallBudgetConfig) (status : budget_status) : Z :=
  match status with
  | Green => tc_greenMax cfg
  | Yellow => tc_yellowMax cfg
  | Orange => tc_orangeMax cfg
  | Red => tc_redMax cfg
  | Unknown => tc_unknownMax cfg
  end.

Definition applyToolCallBudget (cfg : ToolCallBudgetConfig) (status : budget_status) (o : call_options) :
    call_options :=
  if negb (tc_enabled cfg) then o
  else
    let policyMax := Z.min (status_max cfg status) (tc_absoluteMax cfg) in
    let effective := match maxToolCalls o with None => policyMax | Some existing => Z.min existing policyMax end in
    mkOptions (Some effective)
      (Some (match parallelToolCalls o with Some false => false | _ => 1 <? effective end)).

(** ** Lemmas *)

Lemma count_wide_bounds s : 0 <= count_wide s <= Z.of_nat (length s).
Proof. induction s as [|c s IH]; simpl; [lia|]. destruct (is_wide c); lia. Qed.

Lemma count_wide_app s t : count_wide (s ++ t) = count_wide s + count_wide t.
Proof. induction s as [|c s IH]; simpl; [done|]. rewrite IH. lia. Qed.

(** The estimate is between a quarter of the length and the length. *)
Theorem estimate_bounds s :
  (Z.of_nat (length s) + 3) / 4 <= estimateTokens s <= Z.of_nat (length s).
Proof. unfold estimateTokens. pose proof (count_wide_bounds s). Z.to_euclidean_division_equations. lia. Qed.

(** A text has no more tokens than its parts, and at most one fewer. *)
Theorem estimate_app s t :
  estimateTokens (s ++ t) <= estimateTokens s + estimateTokens t <= estimateTokens (s ++ t) + 1.
Proof.
  unfold estimateTokens. rewrite count_wide_app, length_app.
  pose proof (count_wide_bounds s). pose proof (count_wide_bounds t). Z.to_euclidean_division_equations. lia.
Qed.

(** Of the tunables in range, whatever the model and the tool: the tokens of a
    tool's output are between a hundred and a million, and never below the
    configured floor. *)
Lemma model_budget_bounds cfg window toolId : output_budget_ok cfg →
  to_minimumFloor cfg <= computeForModel cfg window toolId <= Z.max (to_minimumFloor cfg) (tool_cap cfg toolId) ∧
  100 <= computeForModel cfg window toolId <= 1000000.
Proof.
  unfold output_budget_ok, within. intros (Ha & _ & Hf & Ht & Hb). unfold computeForModel, tool_cap.
  repeat case_decide; lia.
Qed.

Lemma resolve_bounds cfg outputBudget toolId : output_budget_ok cfg →
  match outputBudget with Some n => n <= 0 | None => True end →
  100 <= res_tokens (resolve cfg outputBudget toolId) <= 1000000.
Proof.
  unfold output_budget_ok, within. intros (Ha & _ & Hf & Ht & Hb) Ho. unfold resolve, tool_cap.
  destruct outputBudget as [n|]; [destruct (Z.ltb_spec 0 n); [lia|]|]; simpl; repeat case_decide; lia.
Qed.

(** The calls of a turn are at least one, unless the caller allowed none, at
    most what the caller allowed, and parallel only if there may be several. *)
Theorem call_budget_bounds cfg status o n : call_budget_ok cfg → tc_enabled cfg = true →
  maxToolCalls (applyToolCallBudget cfg status o) = Some n →
  n <= 64 ∧ n <= tc_absoluteMax cfg ∧ n <= status_max cfg status ∧
  match maxToolCalls o with None => 1 <= n | Some m => n <= m ∧ (1 <= m → 1 <= n) end ∧
  (parallelToolCalls (applyToolCallBudget cfg status o) = Some true ↔ 1 < n ∧ parallelToolCalls o ≠ Some false).
Proof.
  intros Hok He. unfold call_budget_ok in Hok. rewrite !Forall_cons in Hok. unfold within in Hok.
  destruct Hok as (Hg & Hy & Ho & Hr & Hu & Ha & _). unfold applyToolCallBudget. rewrite He. simpl. intros [= Hn].
  assert (Hs : 1 <= status_max cfg status <= 64) by (destruct status; simpl; lia).
  rewrite Hn. split_and!; [destruct (maxToolCalls o); lia..|].
  destruct (parallelToolCalls o) as [[]|]; destruct (Z.ltb_spec 1 n); naive_solver lia.
Qed.

(** Applying the budget again changes nothing. *)
Theorem call_budget_idempotent cfg status o :
  applyToolCallBudget cfg status (applyToolCallBudget cfg status o) = applyToolCallBudget cfg status o.
Proof.
  unfold applyToolCallBudget. destruct (tc_enabled cfg); simpl; [|done].
  set (p := Z.min (status_max cfg status) (tc_absoluteMax cfg)). destruct o as [mx par]. simpl.
  set (n := match mx with None => p | Some m => Z.min m p end).
  assert (Hn : Z.min n p = n) by (destruct mx; lia). rewrite Hn. f_equal. f_equal.
  destruct par as [[]|], (1 <? n); done.
Qed.

Example budget_of_small_model :
  computeForModel TOOL_OUTPUT_BUDGET_DEFAULTS 128000 (Some (js "read")) = 38400 ∧
  computeForModel TOOL_OUTPUT_BUDGET_DEFAULTS 8000 (Some (js "read")) = 8000 ∧
  computeForModel TOOL_OUTPUT_BUDGET_DEFAULTS 1000000 (Some (js "task")) = 60000.
Proof. by vm_compute. Qed.

(** With a cap below the floor the floor counts, although the cap is the
    ceiling. *)
Example floor_over_cap :
  computeForModel (mkToolOutputBudget 1000 (num "0.3") 8000 60000 40000) 128000 None = 8000.
Proof. by vm_compute. Qed.
