(* ===== verification/TokenBucket.v ===== *)
(** * The rate limiter of the HTTP server ([server/rate-limit.ts])

    A token bucket per user, method and route.  Token counts are exact
    rationals; every clock reading is an argument. *)
From Stdlib Require Import QArith Qminmax Qround Lqa.
From stdpp Require Import gmap.
From S2P Require Import Prelude JsString JsNumber Tweaks.
Open Scope Z_scope.

Record BucketState := mkBucket { tokens : Q; lastRefillAt : Z }.

(** ** Routes *)

Definition EXEMPT_PATH_PREFIXES : list jsstr :=
  map js ["/log"; "/api/v2/global/health"; "/api/v2/global/log"; "/api/v2/server/cache/health";
    "/api/v2/server/"]%string.

Definition ID_PREFIXES : list jsstr := map js ["ses"; "msg"; "per"; "que"; "usr"; "prt"; "pty"; "tool"]%string.

Definition is_alnum (c : N) : bool :=
  is_digit c || ((65 <=? c) && (c <=? 90))%N || ((97 <=? c) && (c <=? 122))%N.

(** [ID_SEGMENT_RE.test(seg)]. *)
Definition id_segment (seg : jsstr) : bool :=
  existsb (λ p, let rest := drop (S (length p)) seg in
    startsWith seg (p ++ js "_") && (20 <=? Z.of_nat (length rest)) && forallb is_alnum rest) ID_PREFIXES.

Definition normalizeRoutePattern (path : jsstr) : jsstr :=
  join (js "/") (map (λ seg, if id_segment seg then js ":id" else seg) (split_on 47%N path)).

Definition isExempt (path hostname : jsstr) : bool :=
  bool_decide (hostname = js "opencode.internal") ||
  existsb (λ p, bool_decide (path = p) || startsWith path p) EXEMPT_PATH_PREFIXES.

(** ** Buckets *)

Record limiter := mkLimiter { buckets : gmap jsstr BucketState; allowed : Z; throttled : Z }.
Definition initial_limiter : limiter := mkLimiter ∅ 0 0.

Definition refill (b : BucketState) (now : Z) (refillPerSec capacity : Q) : BucketState :=
  let elapsed := ((now - lastRefillAt b) # 1000)%Q in
  if Qle_bool elapsed 0 then b
  else mkBucket (Qmin capacity (tokens b + elapsed * refillPerSec)) now.

Inductive take_result := Taken (remaining : Q) | Refused (retryAfterSec : Z).

(** The bucket of a key, refilled. *)
Definition current_bucket (bs : gmap jsstr BucketState) (key : jsstr) (refillPerSec capacity : Q) (now : Z) :
    BucketState :=
  match bs !! key with
  | None => mkBucket capacity now
  | Some b => refill b now refillPerSec capacity
  end.

Definition take (key : jsstr) (refillPerSec capacity : Q) (now : Z) (bs : gmap jsstr BucketState) :
    gmap jsstr BucketState * take_result :=
  let b := current_bucket bs key refillPerSec capacity now in
  if Qle_bool 1 (tokens b) then
    let b' := mkBucket (tokens b - 1) (lastRefillAt b) in
    (<[key := b']> bs, Taken (tokens b'))
  else
    let missing := (1 - tokens b)%Q in
    (<[key := b]> bs, Refused (Z.max 1 (Qceiling (missing / refillPerSec)))).

(** ** The middleware *)

Record request := mkRequest {
  req_path : jsstr; req_hostname : jsstr; req_username : option jsstr; req_method : jsstr }.

Definition bucket_key (username method path : jsstr) : jsstr :=
  username ++ js ":" ++ method ++ js ":" ++ normalizeRoutePattern path.

(** What becomes of a request: it passes without a token, it passes with one,
    or it is answered with 429 and a [Retry-After]. *)
Inductive verdict := Bypass | Allow (remaining : Q) | TooMany (routePattern : jsstr) (retryAfterSec : Z).

(** The key a request takes a token of. *)
Definition request_key (cfg : RateLimitConfig) (r : request) : option jsstr :=
  if negb (rl_enabled cfg) then None
  else if isExempt (req_path r) (req_hostname r) then None
  else match req_username r with
       | None | Some [] => None
       | Some username => Some (bucket_key username (req_method r) (req_path r))
       end.

Definition middleware (cfg : RateLimitConfig) (r : request) (now : Z) (s : limiter) : limiter * verdict :=
  match request_key cfg r with
  | None => (s, Bypass)
  | Some key =>
      match take key (rl_qpsPerUserPerPath cfg) (inject_Z (rl_burst cfg)) now (buckets s) with
      | (bs, Taken remaining) => (mkLimiter bs (allowed s + 1) (throttled s), Allow remaining)
      | (bs, Refused retry) =>
          (mkLimiter bs (allowed s) (throttled s + 1), TooMany (normalizeRoutePattern (req_path r)) retry)
      end
  end.

Definition stats (s : limiter) : Z * Z * Z := (allowed s, throttled s, Z.of_nat (size (buckets s))).

(** Requests with the times at which their tokens are taken, and what becomes of
    them. *)
Fixpoint serve (cfg : RateLimitConfig) (rs : list (request * Z)) (s : limiter) : limiter * list verdict :=
  match rs with
  | [] => (s, [])
  | (r, now) :: rest =>
      let '(s1, v) := middleware cfg r now s in
      let '(s2, vs) := serve cfg rest s1 in
      (s2, v :: vs)
  end.

(** The number of requests of a key that got a token. *)
Fixpoint granted (cfg : RateLimitConfig) (key : jsstr) (rs : list (request * Z)) (vs : list verdict) : Z :=
  match rs, vs with
  | (r, _) :: rs', v :: vs' =>
      (match v with
       | Allow _ => if bool_decide (request_key cfg r = Some key) then 1 else 0
       | _ => 0
       end) + granted cfg key rs' vs'
  | _, _ => 0
  end.

Definition retry_of (v : verdict) : option Z := match v with TooMany _ n => Some n | _ => None end.

Example burst_then_refuse :
  let cfg := mkRateLimit true 2 3 in
  let r := mkRequest (js "/session/ses_0123456789abcdefghij/message") [] (Some (js "u")) (js "GET") in
  let '(s, vs) := serve cfg [(r, 0); (r, 0); (r, 0); (r, 100); (r, 499); (r, 500)] initial_limiter in
  map retry_of vs = [None; None; None; Some 1; Some 1; None] ∧ stats s = (4, 2, 1).
Proof. by vm_compute. Qed.

Example exempt_prefix : isExempt (js "/login") [] = true ∧ isExempt (js "/session") [] = false.
Proof. by vm_compute. Qed.

(** ** Refilling *)

Section Refill.
Context (r cap : Q) (Hr : (0 < r)%Q).

Lemma elapsed_sign a b : Qle_bool ((a - b) # 1000) 0 = (a <=? b).
Proof.
  destruct (Z.leb_spec a b); [apply Qle_bool_iff|apply not_true_iff_false; rewrite Qle_bool_iff];
    unfold Qle; simpl; lia.
Qed.

Lemma refill_old b now : now <= lastRefillAt b → refill b now r cap = b.
Proof. intros H. unfold refill. rewrite elapsed_sign. by apply Z.leb_le in H as ->. Qed.

Lemma refill_new b now : lastRefillAt b < now →
  refill b now r cap = mkBucket (Qmin cap (tokens b + ((now - lastRefillAt b) # 1000) * r)) now.
Proof. intros H. unfold refill. rewrite elapsed_sign. by apply Z.leb_gt in H as ->. Qed.

Lemma refill_cap b now : (tokens b <= cap)%Q → (tokens (refill b now r cap) <= cap)%Q.
Proof.
  intros H. destruct (decide (now <= lastRefillAt b)) as [Hn|Hn]; [by rewrite refill_old|].
  rewrite refill_new by lia. simpl. apply Q.le_min_l.
Qed.
End Refill.

(** No bucket holds more than the capacity, or less than nothing. *)
Definition buckets_ok (cap : Q) (bs : gmap jsstr BucketState) : Prop :=
  map_Forall (λ _ b, 0 <= tokens b <= cap)%Q bs.

(** What a request does to the bucket of its key. *)
Lemma take_spec key r cap now bs bs' res :
  take key r cap now bs = (bs', res) →
  let b := current_bucket bs key r cap now in
  match res with
  | Taken _ => (1 <= tokens b)%Q ∧ bs' = <[key := mkBucket (tokens b - 1) (lastRefillAt b)]> bs
  | Refused n => (tokens b < 1)%Q ∧ bs' = <[key := b]> bs ∧ n = Z.max 1 (Qceiling ((1 - tokens b) / r))
  end.
Proof.
  unfold take. destruct (Qle_bool 1 _) eqn:E; intros [= <- <-]; simpl.
  - split; [by apply Qle_bool_iff|done].
  - split; [|done]. apply Qnot_le_lt. by rewrite <- Qle_bool_iff, E.
Qed.

Lemma current_bucket_ok bs key r cap now :
  (0 < r)%Q → (1 <= cap)%Q → buckets_ok cap bs →
  (0 <= tokens (current_bucket bs key r cap now) <= cap)%Q.
Proof.
  intros Hr Hc Hok. unfold current_bucket. destruct (bs !! key) as [b|] eqn:E; [|simpl; lra].
  apply Hok in E as [H0 H1]. split; [|by apply refill_cap].
  destruct (decide (now <= lastRefillAt b)) as [Hn|Hn]; [by rewrite refill_old|].
  rewrite refill_new by lia. simpl. apply Q.min_glb; [lra|].
  assert (0 <= ((now - lastRefillAt b) # 1000))%Q by (unfold Qle; simpl; lia). nra.
Qed.

Lemma millis_add a b r : ((a + b # 1000) * r == (a # 1000) * r + (b # 1000) * r)%Q.
Proof. assert ((a + b # 1000) == (a # 1000) + (b # 1000))%Q as -> by (unfold Qeq; simpl; lia). ring. Qed.

Lemma millis_nonneg a r : 0 <= a → (0 < r)%Q → (0 <= (a # 1000) * r)%Q.
Proof. intros Ha Hr. apply Qmult_le_0_compat; [unfold Qle; simpl; lia|lra]. Qed.

(** ** The rate over a window of time *)

Section Window.
Context (cfg : RateLimitConfig) (Hcfg : rate_ok cfg) (key : jsstr) (t0 t1 : Z).
Notation r := (rl_qpsPerUserPerPath cfg).
Notation cap := (inject_Z (rl_burst cfg)).

Definition stamp (b : BucketState) : Z := Z.max t0 (Z.min t1 (lastRefillAt b)).

(** After [n] tokens of the window: what was taken and what is left was there at
    its start or was added since. *)
Definition window_inv (n : Z) (bs : gmap jsstr BucketState) : Prop :=
  buckets_ok cap bs ∧
  match bs !! key with
  | None => n = 0
  | Some b => (inject_Z n + tokens b <= cap + (stamp b - t0 # 1000) * r)%Q ∧ (lastRefillAt b < t0 → n = 0)
  end.

Lemma cap_ge_1 : (1 <= cap)%Q.
Proof. destruct Hcfg as [_ H]. by rewrite Zle_Qle in H. Qed.

Lemma window_refill n bs now : t0 <= now <= t1 → window_inv n bs →
  let b := current_bucket bs key r cap now in
  (inject_Z n + tokens b <= cap + (stamp b - t0 # 1000) * r)%Q ∧ t0 <= lastRefillAt b.
Proof.
  intros Hnow [Hok Hb]. unfold current_bucket. destruct (bs !! key) as [b|] eqn:E.
  - destruct Hb as [Hb Hn]. destruct (decide (now <= lastRefillAt b)) as [Hle|Hlt]; [rewrite refill_old by done; split; [done|lia]|].
    pose proof (refill_cap r cap b now (proj2 (Hok _ _ E))) as Hc. rewrite refill_new in * by lia. simpl in *.
    split; [|lia]. unfold stamp in *. simpl. destruct Hcfg as [Hr _].
    replace (Z.max t0 (Z.min t1 now) - t0) with (now - t0) by lia.
    destruct (decide (lastRefillAt b < t0)) as [Hl|Hl].
    + rewrite (Hn Hl). pose proof (millis_nonneg (now - t0) r ltac:(lia) Hr). change (inject_Z 0) with 0%Q. lra.
    + replace (Z.max t0 (Z.min t1 (lastRefillAt b)) - t0) with (lastRefillAt b - t0) in Hb by lia.
      pose proof (Q.le_min_r cap (tokens b + (now - lastRefillAt b # 1000) * r)) as Hm.
      replace (now - t0) with ((lastRefillAt b - t0) + (now - lastRefillAt b)) by lia.
      rewrite millis_add. lra.
  - subst n. unfold stamp. simpl. split; [|lia]. destruct Hcfg as [Hr _].
    replace (Z.max t0 (Z.min t1 now) - t0) with (now - t0) by lia.
    pose proof (millis_nonneg (now - t0) r ltac:(lia) Hr). change (inject_Z 0) with 0%Q. lra.
Qed.

Lemma buckets_ok_insert bs k b : buckets_ok cap bs → (0 <= tokens b <= cap)%Q → buckets_ok cap (<[k := b]> bs).
Proof. intros Hok Hb. by apply map_Forall_insert_2. Qed.

Lemma take_ok k now bs bs' res :
  take k r cap now bs = (bs', res) → buckets_ok cap bs → buckets_ok cap bs'.
Proof.
  intros Ht Hok. apply take_spec in Ht. pose proof (current_bucket_ok bs k r cap now (proj1 Hcfg) cap_ge_1 Hok) as Hb.
  destruct res; [destruct Ht as [H1 ->]|destruct Ht as (H1 & -> & _)]; apply buckets_ok_insert; [done| |done|done].
  simpl. split; lra.
Qed.

Lemma middleware_ok rq now s s' v :
  middleware cfg rq now s = (s', v) → buckets_ok cap (buckets s) → buckets_ok cap (buckets s').
Proof.
  unfold middleware. destruct (request_key cfg rq); [|by intros [= <- <-]].
  destruct (take _ _ _ _ _) as [bs []] eqn:E; intros [= <- <-]; eauto using take_ok.
Qed.

(** A request of another key leaves the bucket alone; one of this key keeps
    the account. *)
Lemma window_step n rq now s s' v : t0 <= now <= t1 → window_inv n (buckets s) →
  middleware cfg rq now s = (s', v) → window_inv (n + granted cfg key [(rq, now)] [v]) (buckets s').
Proof.
  intros Hnow Hinv Hm. pose proof (middleware_ok _ _ _ _ _ Hm (proj1 Hinv)) as Hok'.
  split; [done|]. simpl. rewrite Z.add_0_r. unfold middleware in Hm.
  destruct (request_key cfg rq) as [k|] eqn:Ek; [|injection Hm as <- <-; rewrite Z.add_0_r; apply Hinv].
  destruct (take _ _ _ _ _) as [bs res] eqn:Et. apply take_spec in Et.
  destruct (decide (k = key)) as [->|Hk].
  - destruct (window_refill _ _ _ Hnow Hinv) as [Hb Hl].
    destruct res; [destruct Et as [H1 ->]|destruct Et as (H1 & -> & _)]; injection Hm as <- <-; simpl;
      rewrite lookup_insert_eq; (split; [|intros ?; exfalso; simpl in *; lia]).
    + rewrite bool_decide_eq_true_2, inject_Z_plus by done. unfold stamp in *. simpl in *. change (inject_Z 1) with 1%Q. lra.
    + by rewrite Z.add_0_r.
  - assert (Hn : bool_decide (Some k = Some key) = false) by (apply bool_decide_eq_false; congruence).
    destruct res; [destruct Et as [H1 ->]|destruct Et as (H1 & -> & _)]; injection Hm as <- <-; simpl;
      rewrite ?Hn, Z.add_0_r, lookup_insert_ne by done; apply Hinv.
Qed.

Lemma window_run n rs s s' vs : Forall (λ p, t0 <= p.2 <= t1) rs → window_inv n (buckets s) →
  serve cfg rs s = (s', vs) → window_inv (n + granted cfg key rs vs) (buckets s').
Proof.
  intros Hrs. revert n s vs. induction Hrs as [|[rq now] rs Hnow _ IH]; intros n s vs Hinv Hs; simpl in Hs.
  - injection Hs as <- <-. by rewrite Z.add_0_r.
  - destruct (middleware cfg rq now s) as [s1 v] eqn:Em. destruct (serve cfg rs s1) as [s2 vs'] eqn:Es.
    injection Hs as <- <-. pose proof (window_step _ _ _ _ _ _ Hnow Hinv Em) as H1.
    specialize (IH _ _ _ H1 Es). revert IH. simpl. by rewrite Z.add_0_r, Z.add_assoc.
Qed.

Lemma window_end n bs : t0 <= t1 → window_inv n bs → (inject_Z n <= cap + (t1 - t0 # 1000) * r)%Q.
Proof.
  intros Ht [Hok Hb]. destruct Hcfg as [Hr _]. pose proof cap_ge_1 as Hc.
  destruct (bs !! key) as [b|] eqn:E.
  - destruct Hb as [Hb _]. destruct (Hok _ _ E) as [H0 _]. 
    replace (t1 - t0) with ((stamp b - t0) + (t1 - stamp b)) by lia. rewrite millis_add.
    pose proof (millis_nonneg (t1 - stamp b) r ltac:(unfold stamp; lia) Hr). lra.
  - subst n. pose proof (millis_nonneg (t1 - t0) r ltac:(lia) Hr). change (inject_Z 0) with 0%Q. lra.
Qed.
End Window.

Lemma serve_ok cfg rs s s' vs : rate_ok cfg → serve cfg rs s = (s', vs) →
  buckets_ok (inject_Z (rl_burst cfg)) (buckets s) → buckets_ok (inject_Z (rl_burst cfg)) (buckets s').
Proof.
  intros Hcfg. revert s vs. induction rs as [|[rq now] rs IH]; intros s vs Hs Hok; simpl in Hs; [by injection Hs as <- <-|].
  destruct (middleware cfg rq now s) as [s1 v] eqn:Em. destruct (serve cfg rs s1) as [s2 vs'] eqn:Es.
  injection Hs as <- <-. eauto using middleware_ok.
Qed.

(** C15. Whatever came before, and even if the clock jumps back, the requests of
    a user, method and route that are let through in a window of time number at
    most the burst plus the rate times its length. *)
Theorem ratelimit_window cfg key before s0 vs0 rs s1 vs1 t0 t1 :
  rate_ok cfg → serve cfg before initial_limiter = (s0, vs0) → serve cfg rs s0 = (s1, vs1) →
  t0 <= t1 → Forall (λ p, t0 <= p.2 <= t1) rs →
  (inject_Z (granted cfg key rs vs1)
    <= inject_Z (rl_burst cfg) + (t1 - t0 # 1000) * rl_qpsPerUserPerPath cfg)%Q.
Proof.
  intros Hcfg H0 H1 Ht Hrs. apply serve_ok in H0 as Hok; [|done|apply map_Forall_empty].
  assert (Hinv : window_inv cfg key t0 t1 0 (buckets s0)).
  { split; [done|]. destruct (buckets s0 !! key) as [b|] eqn:E; [|done]. split; [|done].
    destruct (Hok _ _ E) as [_ Hc]. destruct Hcfg as [Hr _].
    pose proof (millis_nonneg (stamp t0 t1 b - t0) _ ltac:(unfold stamp; lia) Hr). change (inject_Z 0) with 0%Q. lra. }
  apply (window_end cfg Hcfg key t0 t1 _ (buckets s1) Ht).
  exact (window_run cfg Hcfg key t0 t1 0 rs s0 s1 vs1 Hrs Hinv H1).
Qed.

(** ** Retrying *)

Section Retry.
Context (cfg : RateLimitConfig) (Hcfg : rate_ok cfg) (key : jsstr).
Notation r := (rl_qpsPerUserPerPath cfg).
Notation cap := (inject_Z (rl_burst cfg)).

(** Requests of other keys leave a bucket alone. *)
Lemma serve_other rs s s' vs : Forall (λ p, request_key cfg p.1 ≠ Some key) rs →
  serve cfg rs s = (s', vs) → buckets s' !! key = buckets s !! key.
Proof.
  intros Hrs. revert s vs. induction Hrs as [|[rq now] rs Hk _ IH]; intros s vs Hs; simpl in *.
  - by injection Hs as <- <-.
  - destruct (middleware cfg rq now s) as [s1 v] eqn:Em. destruct (serve cfg rs s1) as [s2 vs'] eqn:Es.
    injection Hs as <- <-. rewrite (IH _ _ Es). unfold middleware in Em.
    destruct (request_key cfg rq) as [k|]; [|by injection Em as <- <-].
    destruct (take _ _ _ _ _) as [bs res] eqn:Et. apply take_spec in Et.
    assert (Hk' : k ≠ key) by congruence.
    destruct res; [destruct Et as [_ ->]|destruct Et as (_ & -> & _)]; injection Em as <- <-; simpl;
      by rewrite lookup_insert_ne.
Qed.

Lemma current_bucket_now bs now :
  (∀ b, bs !! key = Some b → lastRefillAt b <= now) → lastRefillAt (current_bucket bs key r cap now) = now.
Proof.
  intros Hb. unfold current_bucket. destruct (bs !! key) as [b|] eqn:E; [|done]. specialize (Hb b eq_refl).
  destruct (decide (lastRefillAt b = now)) as [<-|Hn]; [by rewrite refill_old|].
  by rewrite refill_new by lia.
Qed.

Lemma ceiling_pays q n : (0 < q)%Q → n = Z.max 1 (Qceiling (q / r)) → (q <= inject_Z n * r)%Q.
Proof.
  intros Hq ->. destruct Hcfg as [Hr _].
  assert (H : (q / r <= inject_Z (Z.max 1 (Qceiling (q / r))))%Q).
  { eapply Qle_trans; [apply Qle_ceiling|]. rewrite <- Zle_Qle. lia. }
  apply (Qmult_le_compat_r _ _ r) in H; [|lra].
  assert (E : (q / r * r == q)%Q) by (field; lra). by rewrite E in H.
Qed.
End Retry.

(** A refused request gets a token when it is repeated after the advertised
    time and no other request of its user, method and route came between. *)
Theorem ratelimit_retry cfg key rq now s s1 rt n others s2 vs later :
  rate_ok cfg → request_key cfg rq = Some key →
  (∀ b, buckets s !! key = Some b → lastRefillAt b <= now) →
  middleware cfg rq now s = (s1, TooMany rt n) →
  Forall (λ p, request_key cfg p.1 ≠ Some key) others → serve cfg others s1 = (s2, vs) →
  now + 1000 * n <= later →
  1 <= n ∧ ∃ remaining, (middleware cfg rq later s2).2 = Allow remaining.
Proof.
  intros Hcfg Hk Hclock Hm Hothers Hs Hlater. apply (serve_other cfg key) in Hs; [|done].
  unfold middleware in *. rewrite Hk in *.
  destruct (take key _ _ now (buckets s)) as [bs res] eqn:Et. apply take_spec in Et.
  destruct res as [|n']; [done|]. injection Hm as <- <- <-. destruct Et as (H1 & -> & Hn).
  split; [lia|]. simpl in Hs. rewrite lookup_insert_eq in Hs.
  pose proof (current_bucket_now cfg key _ _ Hclock) as Hl. revert Hs H1 Hl Hn.
  generalize (current_bucket (buckets s) key (rl_qpsPerUserPerPath cfg) (inject_Z (rl_burst cfg)) now). intros b Hs H1 Hl Hn.
  pose proof (ceiling_pays cfg Hcfg (1 - tokens b) n' ltac:(lra) Hn) as Hp.
  assert (Hq : (1 <= tokens (current_bucket (buckets s2) key (rl_qpsPerUserPerPath cfg) (inject_Z (rl_burst cfg)) later))%Q).
  { unfold current_bucket. rewrite Hs. rewrite refill_new by lia. simpl. apply Q.min_glb; [by apply cap_ge_1|].
    destruct Hcfg as [Hr _].
    assert (inject_Z n' * rl_qpsPerUserPerPath cfg <= (later - lastRefillAt b # 1000) * rl_qpsPerUserPerPath cfg)%Q; [|lra].
    apply Qmult_le_compat_r; [|lra]. unfold Qle. simpl. lia. }
  unfold take. apply Qle_bool_iff in Hq. rewrite Hq. by eexists.
Qed.

(** ** Witnesses *)

Definition demo_cfg : RateLimitConfig := mkRateLimit true (1 # 2) 2.
Definition demo_request : request := mkRequest (js "/session") [] (Some (js "u")) (js "GET").
Definition demo_key : jsstr := bucket_key (js "u") (js "GET") (js "/session").
Definition demo_requests : list (request * Z) := [(demo_request, 1000); (demo_request, 1500); (demo_request, 3000)].

Lemma demo_cfg_ok : rate_ok demo_cfg.
Proof. split; [by vm_compute|simpl; lia]. Qed.

Lemma ratelimit_window_witness :
  let '(s, vs) := serve demo_cfg demo_requests initial_limiter in
  granted demo_cfg demo_key demo_requests vs = 3 ∧
  (inject_Z (granted demo_cfg demo_key demo_requests vs)
    <= inject_Z (rl_burst demo_cfg) + (3000 - 1000 # 1000) * rl_qpsPerUserPerPath demo_cfg)%Q.
Proof.
  destruct (serve demo_cfg demo_requests initial_limiter) as [s vs] eqn:E. split.
  - revert E. vm_compute. by intros [= <- <-].
  - refine (ratelimit_window demo_cfg demo_key [] initial_limiter [] demo_requests s vs 1000 3000 demo_cfg_ok eq_refl E _ _);
      [done|]. unfold demo_requests. by_compute.
Defined.

Definition demo_state : limiter :=
  (serve demo_cfg [(demo_request, 1000); (demo_request, 1000)] initial_limiter).1.
Definition demo_refused : limiter * verdict := middleware demo_cfg demo_request 1500 demo_state.

Lemma ratelimit_retry_witness :
  demo_refused.2 = TooMany (js "/session") 2 ∧
  1 <= 2 ∧ ∃ remaining, (middleware demo_cfg demo_request 3500 demo_refused.1).2 = Allow remaining.
Proof.
  split; [by vm_compute|].
  refine (ratelimit_retry demo_cfg demo_key demo_request 1500 demo_state demo_refused.1 (js "/session") 2 []
    demo_refused.1 [] 3500 demo_cfg_ok _ _ _ _ _ _); [by vm_compute| |by vm_compute|constructor|done|lia].
  intros b Hb. assert (lastRefillAt <$> buckets demo_state !! demo_key = Some 1000) as Hl by by vm_compute.
  rewrite Hb in Hl. injection Hl as ->. lia.
Defined.
