(* ===== verification/SessionCache.v ===== *)
(** * The session cache of the HTTP server ([server/session-cache.ts])

    Responses about sessions are kept in a map in order of use, and dropped by
    events of the bus, by age and by number.  A fetch is two steps, before and
    after its loader, and everything else may happen between them.  The loaders
    are those of the routes ([server/routes/session.ts]): they read the store and
    then the version counter.  The store is a number of changes for each session,
    which an event of the session increments; the reading of the store is a step
    of its own.  Configuration is loaded before ([Tweaks]). *)
From Stdlib Require Import QArith.
From stdpp Require Import gmap.
From S2P Require Import Prelude JsString Json Tweaks.
Open Scope Z_scope.

(** ** Keys *)

(** The routes that fetch through the cache. *)
Inductive route := RSession | RMeta | RMessages (limit : Z).

Definition metaKey (sid : jsstr) : jsstr := js "session:" ++ sid ++ js ":meta".

Definition route_key (r : route) (sid : jsstr) : jsstr :=
  match r with
  | RSession => js "session:" ++ sid
  | RMeta => metaKey sid
  | RMessages limit => js "messages:" ++ sid ++ js ":tail:" ++ show_Z limit
  end.

(** The part before the first, and before the last, colon. *)
Definition before_first (s : jsstr) : jsstr := match indexOf s (js ":") with Some i => take i s | None => s end.
Definition before_last (s : jsstr) : jsstr :=
  match indexOf (reverse s) (js ":") with Some i => take (length s - 1 - i) s | None => s end.

Definition sessionIdOf (key : jsstr) : option jsstr :=
  match indexOf key (js ":") with
  | None => None
  | Some idx =>
      let namespace := take idx key in
      let rest := drop (S idx) key in
      if decide (namespace = js "session") then Some (before_first rest)
      else if decide (namespace = js "messages") then Some (before_last rest)
      else None
  end.

(** ** State *)

Record Entry := mkEntry { data : Z; version : Z; createdAt : Z; accessAt : Z }.

(** A fetch whose loader runs, with what the loader has read of the store. *)
Record call := mkCall { c_route : route; c_sid : jsstr; c_read : option Z }.

Record cache := mkCache {
  entries : list (jsstr * Entry);
  versions : gmap jsstr Z;
  hits : Z;
  misses : Z;
  invalidations : Z;
  evictions : Z;
  (* how many of the seven subscriptions were made *)
  subscribed : nat;
  subscriptionAlive : bool;
  timers : gset jsstr;
  calls : gmap nat call;
  (* the changes of each session so far *)
  store : gmap jsstr Z
}.

Definition initial_cache : cache := mkCache [] ∅ 0 0 0 0 0 false ∅ ∅ ∅.

Definition with_entries (es : list (jsstr * Entry)) (s : cache) : cache :=
  mkCache es (versions s) (hits s) (misses s) (invalidations s) (evictions s) (subscribed s)
    (subscriptionAlive s) (timers s) (calls s) (store s).
Definition with_counts (h m i e : Z) (s : cache) : cache :=
  mkCache (entries s) (versions s) (hits s + h) (misses s + m) (invalidations s + i) (evictions s + e)
    (subscribed s) (subscriptionAlive s) (timers s) (calls s) (store s).
Definition with_versions (v : gmap jsstr Z) (s : cache) : cache :=
  mkCache (entries s) v (hits s) (misses s) (invalidations s) (evictions s) (subscribed s)
    (subscriptionAlive s) (timers s) (calls s) (store s).
Definition with_timers (t : gset jsstr) (s : cache) : cache :=
  mkCache (entries s) (versions s) (hits s) (misses s) (invalidations s) (evictions s) (subscribed s)
    (subscriptionAlive s) t (calls s) (store s).
Definition with_calls (c : gmap nat call) (s : cache) : cache :=
  mkCache (entries s) (versions s) (hits s) (misses s) (invalidations s) (evictions s) (subscribed s)
    (subscriptionAlive s) (timers s) c (store s).
Definition with_store (w : gmap jsstr Z) (s : cache) : cache :=
  mkCache (entries s) (versions s) (hits s) (misses s) (invalidations s) (evictions s) (subscribed s)
    (subscriptionAlive s) (timers s) (calls s) w.

(** ** A [Map] of entries *)

Definition lookup_entry (key : jsstr) (es : list (jsstr * Entry)) : option Entry :=
  snd <$> find (λ p, bool_decide (p.1 = key)) es.
Definition delete_entry (key : jsstr) (es : list (jsstr * Entry)) : list (jsstr * Entry) :=
  filter (λ p : jsstr * Entry, p.1 ≠ key) es.
(** [entries.set]: a key that is there keeps its place. *)
Definition set_entry (key : jsstr) (e : Entry) (es : list (jsstr * Entry)) : list (jsstr * Entry) :=
  if decide (key ∈ map fst es) then map (λ p, if decide (p.1 = key) then (key, e) else p) es
  else es ++ [(key, e)].

(** ** Versions and tags *)

Definition getVersion (s : cache) (sid : jsstr) : Z := default 0 (versions s !! sid).
Definition bumpVersion (sid : jsstr) (s : cache) : cache :=
  with_versions (<[sid := getVersion s sid + 1]> (versions s)) s.

Definition content (s : cache) (sid : jsstr) : Z := default 0 (store s !! sid).

Section Machine.
Context (cfg : SessionCacheConfig) (EPOCH : jsstr).

Definition currentEtag (s : cache) (sid : jsstr) : jsstr :=
  js "W/" ++ [34%N] ++ sid ++ js ":" ++ show_Z (getVersion s sid) ++ js ":" ++ EPOCH ++ [34%N].

Definition isEtagMatch (s : cache) (sid : jsstr) (header : option jsstr) : bool :=
  match header with
  | None | Some [] => false
  | Some h => bool_decide (trim h = currentEtag s sid)
  end.

(** ** Invalidation *)

(** The keys that [invalidate] drops. *)
Definition matches (sid key : jsstr) : bool :=
  bool_decide (key = js "session:" ++ sid) || startsWith key (js "session:" ++ sid ++ js ":") ||
  startsWith key (js "messages:" ++ sid ++ js ":").

Definition kept (sid : jsstr) (es : list (jsstr * Entry)) : list (jsstr * Entry) :=
  filter (λ p : jsstr * Entry, matches sid p.1 = false) es.

Definition invalidate (sid : jsstr) (s : cache) : cache :=
  with_counts 0 0 1 0 (with_entries (kept sid (entries s)) s).

Definition scheduleDeltaInvalidate (sid : jsstr) (s : cache) : cache := with_timers ({[sid]} ∪ timers s) s.
Definition flushDeltaInvalidate (sid : jsstr) (s : cache) : cache := with_timers (timers s ∖ {[sid]}) s.

Definition forgetSession (sid : jsstr) (s : cache) : cache :=
  let s1 := invalidate sid (flushDeltaInvalidate sid s) in
  with_versions (delete sid (versions s1)) s1.

(** The events of the bus, in the order in which they are subscribed to. *)
Inductive event :=
| MessageUpdated | MessageRemoved | PartUpdated (delta : bool) | PartRemoved
| SessionCreated | SessionUpdated | SessionDeleted.

Definition event_index (e : event) : nat :=
  match e with
  | MessageUpdated => 0 | MessageRemoved => 1 | PartUpdated _ => 2 | PartRemoved => 3
  | SessionCreated => 4 | SessionUpdated => 5 | SessionDeleted => 6
  end.

(** The subscribers. *)
Definition on_event (e : event) (sid : jsstr) (s : cache) : cache :=
  match e with
  | PartUpdated true => scheduleDeltaInvalidate sid (bumpVersion sid s)
  | PartUpdated false => invalidate sid (flushDeltaInvalidate sid (bumpVersion sid s))
  | SessionDeleted => forgetSession sid s
  | _ => invalidate sid (bumpVersion sid s)
  end.

(** [registerInvalidationSubscriber], of which [made] subscriptions succeed. *)
Definition register (made : nat) (s : cache) : cache :=
  if Nat.ltb 0 (subscribed s) then s
  else mkCache (entries s) (versions s) (hits s) (misses s) (invalidations s) (evictions s)
         (Nat.min made 7) (Nat.leb 7 made) (timers s) (calls s) (store s).

(** ** Fetching *)

(** [enforceCapacity]: entries are evicted from the front. *)
Fixpoint enforce (max : nat) (es : list (jsstr * Entry)) : list (jsstr * Entry) * Z :=
  match es with
  | [] => ([], 0)
  | _ :: rest => if Nat.leb (length es) max then (es, 0) else let '(es', n) := enforce max rest in (es', n + 1)
  end.

Inductive response := Served (r : route) (sid : jsstr) (d v : Z) (hit : bool) | NotModified (sid : jsstr) | Nothing.

(** The start of [get]: [now] gives the age and [touched] the access time. *)
Definition start_get (id : nat) (r : route) (sid : jsstr) (now touched : Z) (s : cache) : cache * response :=
  let miss s := (with_calls (<[id := mkCall r sid None]> (calls s)) s, Nothing) in
  let key := route_key r sid in
  if negb (sc_enabled cfg) then miss s
  else
    match lookup_entry key (entries s) with
    | None => miss s
    | Some e =>
        if now - createdAt e <=? sc_ttlSec cfg * 1000 then
          let e' := mkEntry (data e) (version e) (createdAt e) touched in
          (with_counts 1 0 0 0 (with_entries (set_entry key e' (delete_entry key (entries s))) s),
           Served r sid (data e) (version e) true)
        else miss (with_counts 0 0 0 1 (with_entries (delete_entry key (entries s)) s))
    end.

(** The loader reads the store. *)
Definition read_store (id : nat) (s : cache) : option cache :=
  match calls s !! id with
  | Some (mkCall r sid None) => Some (with_calls (<[id := mkCall r sid (Some (content s sid))]> (calls s)) s)
  | _ => None
  end.

(** The rest of [get], from the reading of the version on; [created] and
    [touched] are the times of a new entry. *)
Definition finish_get (id : nat) (created touched : Z) (s : cache) : option (cache * response) :=
  match calls s !! id with
  | Some (mkCall r sid (Some d)) =>
      let v := getVersion s sid in
      let s1 := with_counts 0 1 0 0 (with_calls (delete id (calls s)) s) in
      let resp := Served r sid d v false in
      if negb (sc_enabled cfg && subscriptionAlive s) then Some (s1, resp)
      else
        let '(es, n) := enforce (Z.to_nat (sc_maxEntries cfg))
          (set_entry (route_key r sid) (mkEntry d v created touched) (entries s)) in
        Some (with_counts 0 0 0 n (with_entries es s1), resp)
  | _ => None
  end.

(** ** The machine *)

Inductive action :=
| Register (made : nat)
| Conditional (sid : jsstr) (header : option jsstr)
| Get (id : nat) (r : route) (sid : jsstr) (now touched : Z)
| ReadStore (id : nat)
| Finish (id : nat) (created touched : Z)
| Throws (id : nat)
| Change (e : event) (sid : jsstr)
| Timer (sid : jsstr).

(** Identifiers of sessions. *)
Definition sid_ok (sid : jsstr) : Prop := sid ≠ [] ∧ 58%N ∉ sid.
#[export] Instance sid_ok_dec sid : Decision (sid_ok sid).
Proof. unfold sid_ok. apply _. Defined.

(** A step and the response it gives. *)
Definition step_out (a : action) (s : cache) : option (cache * response) :=
  match a with
  | Register made => Some (register made s, Nothing)
  | Conditional sid header => Some (s, if isEtagMatch s sid header then NotModified sid else Nothing)
  | Get id r sid now touched =>
      if decide (sid_ok sid ∧ calls s !! id = None) then Some (start_get id r sid now touched s) else None
  | ReadStore id => (λ s', (s', Nothing)) <$> read_store id s
  | Finish id created touched => finish_get id created touched s
  | Throws id => match calls s !! id with Some _ => Some (with_calls (delete id (calls s)) s, Nothing) | None => None end
  | Change e sid =>
      if decide (sid_ok sid) then
        let s1 := with_store (<[sid := content s sid + 1]> (store s)) s in
        Some (if Nat.ltb (event_index e) (subscribed s) then on_event e sid s1 else s1, Nothing)
      else None
  | Timer sid =>
      if decide (sid ∈ timers s) then Some (invalidate sid (with_timers (timers s ∖ {[sid]}) s), Nothing) else None
  end.

Definition step (a : action) (s : cache) : option cache := fst <$> step_out a s.

Definition stats (s : cache) : nat * Q * Q * Z * Z * bool :=
  let total := hits s + misses s in
  let rate n := if total =? 0 then 0%Q else (n # Z.to_pos total) in
  (length (entries s), rate (hits s), rate (misses s), invalidations s, evictions s, subscriptionAlive s).
End Machine.

(** ** Keys of sessions *)

Lemma split_unit (c : N) a b x y : c ∉ a → c ∉ b → a ++ c :: x = b ++ c :: y → a = b.
Proof.
  intros Ha Hb E. pose proof (indexOf_unit c a x Ha) as H1. rewrite E, (indexOf_unit c b y Hb) in H1.
  injection H1 as H1. by apply app_inj_1 in E as [? _].
Qed.

Lemma route_key_inj r1 r2 sid1 sid2 :
  sid_ok sid1 → sid_ok sid2 → route_key r1 sid1 = route_key r2 sid2 → sid1 = sid2.
Proof.
  intros [_ H1] [_ H2]. destruct r1, r2; simpl; intros [= E]; try done.
  - exfalso. apply H1. rewrite E. apply elem_of_app. right. by left.
  - exfalso. apply H2. rewrite <- E. apply elem_of_app. right. by left.
  - apply (split_unit 58%N) in E; done.
  - apply (split_unit 58%N) in E; done.
Qed.

Lemma matches_route r sid : matches sid (route_key r sid) = true.
Proof.
  unfold matches, startsWith. rewrite !orb_true_iff, !bool_decide_eq_true. destruct r; unfold route_key, metaKey.
  - by left; left.
  - left; right. apply prefix_app, prefix_app. by exists (js "meta").
  - right. apply prefix_app, prefix_app. by exists (js "tail:" ++ show_Z limit).
Qed.

(** ** Entries *)

Lemma lookup_entry_elem key es e : lookup_entry key es = Some e → (key, e) ∈ es.
Proof.
  unfold lookup_entry. destruct (find _ es) as [[k e']|] eqn:E; [|done]. simpl. intros [= ->].
  apply find_Some in E as [Hk Hin]. bool_to_prop. simpl in Hk. by subst k.
Qed.

Lemma delete_entry_keys key es : map fst (delete_entry key es) = filter (λ k, k ≠ key) (map fst es).
Proof.
  unfold delete_entry. induction es as [|[k e] es IH]; [done|]. cbn [map fst]. rewrite !filter_cons. simpl.
  case_decide; simpl; by rewrite IH.
Qed.

Lemma set_entry_keys key e es :
  map fst (set_entry key e es) = if decide (key ∈ map fst es) then map fst es else map fst es ++ [key].
Proof.
  unfold set_entry. case_decide; [|by rewrite map_app]. rewrite map_map. apply map_ext. intros [k e'].
  by case_decide.
Qed.

Lemma set_entry_elem key e es p : p ∈ set_entry key e es → p = (key, e) ∨ (p.1 ≠ key ∧ p ∈ es).
Proof.
  unfold set_entry. case_decide as H.
  - intros (q & -> & Hq)%list_elem_of_fmap. case_decide; [by left|by right].
  - intros [Hp| ->%list_elem_of_singleton]%elem_of_app; [right|by left].
    split; [|done]. intros <-. by apply H, list_elem_of_fmap_2.
Qed.

Lemma set_entry_nodup key e es : NoDup (map fst es) → NoDup (map fst (set_entry key e es)).
Proof.
  intros Hn. rewrite set_entry_keys. case_decide; [done|]. apply NoDup_app. split_and!; [done| |apply NoDup_singleton].
  by intros k Hk ->%list_elem_of_singleton.
Qed.

Lemma enforce_suffix max es es' n : enforce max es = (es', n) → es' `suffix_of` es ∧ (length es' <= max)%nat.
Proof.
  revert es' n. induction es as [|p es IH]; intros es' n; cbn [enforce].
  - intros [= <- <-]. split; [done|simpl; lia].
  - destruct (Nat.leb_spec (length (p :: es)) max); [intros [= <- <-]; split; [done|done]|].
    destruct (enforce max es) as [es1 n1]. intros [= <- <-].
    destruct (IH es1 n1 eq_refl) as [H1 H2]. split; [by apply suffix_cons_r|done].
Qed.

Lemma suffix_elem {A} (l k : list A) x : l `suffix_of` k → x ∈ l → x ∈ k.
Proof. intros [t ->] Hx. apply elem_of_app. by right. Qed.

Lemma suffix_nodup (l k : list (jsstr * Entry)) : l `suffix_of` k → NoDup (map fst k) → NoDup (map fst l).
Proof. intros [t ->]. rewrite map_app. by intros (_ & _ & H)%NoDup_app. Qed.

(** What an event does to the entries, the versions and the timers. *)
Lemma on_event_fields e sid s : let s' := on_event e sid s in
  sublist (entries s') (entries s) ∧ subscriptionAlive s' = subscriptionAlive s ∧ subscribed s' = subscribed s ∧
  calls s' = calls s ∧ store s' = store s ∧
  (∀ sid', sid' ≠ sid → getVersion s' sid' = getVersion s sid' ∧ (sid' ∈ timers s' ↔ sid' ∈ timers s)) ∧
  (sid ∈ timers s' ∨ entries s' = kept sid (entries s)).
Proof.
  assert (Hv : ∀ v sid', sid' ≠ sid → <[sid:=v]> (versions s) !! sid' = versions s !! sid').
  { intros v sid' Hne. by apply lookup_insert_ne. }
  assert (Hd : ∀ sid', sid' ≠ sid → delete sid (versions s) !! sid' = versions s !! sid').
  { intros sid' Hne. by apply lookup_delete_ne. }
  destruct e as [| |[]| | | |]; simpl;
    (split; [first [apply sublist_filter|done]|]); do 4 (split; [done|]); (split; [|first [by right|left; set_solver]]);
    intros sid' Hne; unfold getVersion; simpl; rewrite ?Hv, ?Hd by done; (split; [done|set_solver]).
Qed.

(** ** The invariant *)

Section Invariant.
Context (cfg : SessionCacheConfig) (EPOCH : jsstr) (Hcfg : cache_ok cfg).

(** A change that reaches the cache between the reading of its session and the
    end of a fetch. *)
Definition racing (a : action) (s : cache) : bool :=
  match a with
  | Change _ sid =>
      existsb (λ p : nat * call, bool_decide (c_sid p.2 = sid ∧ c_read p.2 ≠ None)) (map_to_list (calls s))
  | _ => false
  end.

(** The machine, without such changes when [calm]. *)
Definition guarded (calm : bool) (a : action) (s : cache) : option cache :=
  if calm && racing a s then None else step cfg EPOCH a s.

Context (calm : bool).

(** An entry of a session without a sweep pending has the version of the
    session and, without races, the content of the session. *)
Definition entry_ok (s : cache) (p : jsstr * Entry) : Prop :=
  ∀ r sid, sid_ok sid → p.1 = route_key r sid → sid ∉ timers s →
    version p.2 = getVersion s sid ∧ (calm = true → data p.2 = content s sid).

(** Without races a loader holds the content of its session. *)
Definition call_ok (s : cache) (c : call) : Prop :=
  sid_ok (c_sid c) ∧ (calm = true → ∀ d, c_read c = Some d → d = content s (c_sid c)).

Record inv (s : cache) : Prop := {
  inv_nodup : NoDup (map fst (entries s));
  inv_size : (Z.of_nat (length (entries s)) <= sc_maxEntries cfg);
  inv_off : sc_enabled cfg = false → entries s = [];
  inv_alive : subscriptionAlive s = true → subscribed s = 7%nat;
  inv_subscribed : entries s ≠ [] → subscribed s = 7%nat;
  inv_entries : Forall (entry_ok s) (entries s);
  inv_calls : map_Forall (λ _ c, call_ok s c) (calls s)
}.

Lemma cache_initial : inv initial_cache.
Proof. destruct Hcfg. split; simpl; try done; try lia; constructor. Qed.

(** What an operation leaves of the entries and what it does to their sessions. *)
Lemma inv_fewer s s' : inv s →
  sublist (entries s') (entries s) → subscriptionAlive s' = subscriptionAlive s → subscribed s' = subscribed s →
  map_Forall (λ _ c, call_ok s' c) (calls s') →
  (∀ p r sid, p ∈ entries s' → sid_ok sid → p.1 = route_key r sid → sid ∉ timers s' →
    sid ∉ timers s ∧ getVersion s' sid = getVersion s sid ∧ content s' sid = content s sid) →
  inv s'.
Proof.
  intros [Hn Hz Ho Ha Hs He _] Hsub E1 E2 Hc Hk. split; rewrite ?E1, ?E2 in *; try done.
  - eapply sublist_NoDup; [exact Hn|by apply (fmap_sublist fst)].
  - apply sublist_length in Hsub. lia.
  - intros Hoff. rewrite (Ho Hoff) in Hsub. by apply sublist_nil_r in Hsub.
  - intros Hne. apply Hs. intros E. rewrite E in Hsub. by apply sublist_nil_r in Hsub.
  - apply Forall_forall. intros p Hp r sid Hok Hkey Ht. rewrite Forall_forall in He.
    destruct (Hk p r sid Hp Hok Hkey Ht) as (Ht' & -> & ->).
    eapply (He p); [eapply elem_of_sublist; eauto|done..].
Qed.

Lemma kept_matches sid es p : p ∈ kept sid es → matches sid p.1 = false ∧ p ∈ es.
Proof. by intros Hp%list_elem_of_filter. Qed.

Lemma kept_other sid es p r sid' : p ∈ kept sid es → p.1 = route_key r sid' → sid' ≠ sid.
Proof. intros [Hm _]%kept_matches E ->. rewrite E, matches_route in Hm. done. Qed.

(** *** Operations *)

Lemma inv_with_timers t s : inv s → timers s ⊆ t → inv (with_timers t s).
Proof.
  intros Hi Ht. apply (inv_fewer s); try done; [apply Hi|]. simpl. set_solver.
Qed.

Lemma inv_with_calls c s : inv s → map_Forall (λ _ c, call_ok s c) c → inv (with_calls c s).
Proof. intros Hi Hc. apply (inv_fewer s); done. Qed.

Lemma inv_with_counts h m i e s : inv s → inv (with_counts h m i e s).
Proof. intros Hi. apply (inv_fewer s); try done. apply Hi. Qed.

(** A sweep of [sid]: what it had to do is done. *)
Lemma inv_sweep sid s : inv s → inv (invalidate sid (with_timers (timers s ∖ {[sid]}) s)).
Proof.
  intros Hi. apply (inv_fewer s); try done; [apply sublist_filter|apply Hi|].
  simpl. intros p r sid' Hp _ Hk Ht. pose proof (kept_other _ _ _ _ _ Hp Hk). split; [set_solver|done].
Qed.

(** A change of a session that no loader has read. *)
Lemma change_calls e sid s s' : inv s → calm && racing (Change e sid) s = false →
  (∀ sid', sid' ≠ sid → content s' sid' = content s sid') → map_Forall (λ _ c, call_ok s' c) (calls s).
Proof.
  intros Hi Hrace Hcont id c Hid. destruct (inv_calls s Hi id c Hid) as [Hok Hd]. split; [done|].
  intros Hcalm d Hr. destruct (decide (c_sid c = sid)) as [E|E]; [|rewrite Hcont by done; by apply Hd].
  exfalso. rewrite Hcalm in Hrace. simpl in Hrace. apply not_true_iff_false in Hrace. apply Hrace.
  apply existsb_exists. exists (id, c). split; [by apply list_elem_of_In, elem_of_map_to_list|].
  apply bool_decide_eq_true. split; [done|]. simpl. by rewrite Hr.
Qed.

(** An event of a session: its entries are dropped, or a sweep is pending. *)
Lemma inv_event e sid s : inv s → calm && racing (Change e sid) s = false →
  inv (on_event e sid (with_store (<[sid := content s sid + 1]> (store s)) s)).
Proof.
  intros Hi Hrace. set (s1 := with_store _ s).
  destruct (on_event_fields e sid s1) as (Hsub & Ha & Hs & Hc & Hw & Hother & Hsid).
  assert (Hcont : ∀ sid', sid' ≠ sid → content (on_event e sid s1) sid' = content s sid').
  { intros sid' Hne. unfold content. rewrite Hw. unfold s1. simpl. by rewrite lookup_insert_ne. }
  apply (inv_fewer s); try done; [rewrite Hc; exact (change_calls e sid s _ Hi Hrace Hcont)|].
  intros p r sid' Hp Hok Hk Ht. assert (Hne : sid' ≠ sid).
  { intros ->. destruct Hsid as [|Hsid]; [done|]. rewrite Hsid in Hp. by apply (kept_other _ _ _ _ _ Hp Hk). }
  destruct (Hother sid' Hne) as [Hv Hti]. split; [intros Hin; by apply Ht, Hti|]. split; [exact Hv|by apply Hcont].
Qed.

(** A change that the cache does not hear of: it holds nothing then. *)
Lemma inv_unheard e sid s : inv s → subscribed s ≠ 7%nat → calm && racing (Change e sid) s = false →
  inv (with_store (<[sid := content s sid + 1]> (store s)) s).
Proof.
  intros Hi H7 Hrace. assert (He : entries s = []).
  { destruct (entries s) as [|p es] eqn:E; [done|]. destruct H7. apply (inv_subscribed s Hi). by rewrite E. }
  apply (inv_fewer s); try done; simpl.
  - apply (change_calls e sid s); [done..|]. intros sid' Hne. unfold content. simpl. by rewrite lookup_insert_ne.
  - rewrite He. intros p r sid' Hp. no_member.
Qed.

Lemma inv_register made s : inv s → inv (register made s).
Proof.
  intros Hi. unfold register. destruct (Nat.ltb_spec 0 (subscribed s)) as [|H0]; [done|].
  assert (He : entries s = []).
  { destruct (entries s) as [|p es] eqn:E; [done|]. pose proof (inv_subscribed s Hi). rewrite E in *. 
    assert (subscribed s = 7%nat) by auto. lia. }
  destruct Hi as [Hn Hz Ho Ha Hs Hf Hc]. split; simpl; rewrite ?He in *; try done.
  intros H. do 7 (destruct made as [|made]; [done|]). by destruct made.
Qed.

Lemma calls_insert (cs : gmap nat call) s id c :
  map_Forall (λ _ c, call_ok s c) cs → call_ok s c → map_Forall (λ _ c, call_ok s c) (<[id := c]> cs).
Proof. intros Hcs Hc. by apply map_Forall_insert_2. Qed.

(** Starting a fetch: a hit touches its entry, a miss starts a loader. *)
Lemma inv_start_get id r sid now touched s :
  inv s → sid_ok sid → inv (start_get cfg id r sid now touched s).1.
Proof.
  intros Hi Hsid.
  assert (Hmiss : ∀ s', inv s' → inv (with_calls (<[id := mkCall r sid None]> (calls s')) s')).
  { intros s' Hs'. apply inv_with_calls; [done|]. apply calls_insert; [apply Hs'|]. by split. }
  unfold start_get. destruct (negb _); [by apply Hmiss|].
  destruct (lookup_entry _ _) as [e|] eqn:El; [|by apply Hmiss]. apply lookup_entry_elem in El.
  assert (Hdel : inv (with_entries (delete_entry (route_key r sid) (entries s)) s)).
  { apply (inv_fewer s); try done; [apply sublist_filter|apply Hi]. }
  destruct (_ <=? _); cbn [fst]; [|by apply Hmiss, inv_with_counts].
  apply inv_with_counts. destruct Hdel as [Hn Hz Ho Ha Hs Hf Hc]. simpl in *.
  assert (Hnot : route_key r sid ∉ map fst (delete_entry (route_key r sid) (entries s))).
  { rewrite delete_entry_keys. by intros [? _]%list_elem_of_filter. }
  split; simpl; try done.
  - by apply set_entry_nodup.
  - unfold set_entry. rewrite decide_False, length_app by done. simpl.
    pose proof (inv_size s Hi) as Hl. unfold delete_entry in *.
    assert (length (filter (λ p : jsstr * Entry, p.1 ≠ route_key r sid) (entries s)) < length (entries s))%nat; [|lia].
    eapply length_filter_lt; [exact El|]. simpl. tauto.
  - intros Hoff. rewrite (inv_off s Hi Hoff) in El. no_member.
  - intros _. apply (inv_subscribed s Hi). intros E. rewrite E in El. no_member.
  - apply Forall_forall. intros p [->|[_ Hp]]%set_entry_elem.
    + pose proof (inv_entries s Hi) as Hall. rewrite Forall_forall in Hall. exact (Hall _ El).
    + rewrite Forall_forall in Hf. by apply Hf.
Qed.

Lemma inv_read_store id s s' : inv s → read_store id s = Some s' → inv s'.
Proof.
  intros Hi. unfold read_store. destruct (calls s !! id) as [[r sid [|]]|] eqn:E; [done| |done]. intros [= <-].
  apply inv_with_calls; [done|]. apply calls_insert; [apply Hi|].
  destruct (inv_calls s Hi _ _ E) as [Hok _]. split; [done|]. simpl. by intros _ d [= <-].
Qed.

Lemma calls_delete s id : inv s → map_Forall (λ _ c, call_ok s c) (delete id (calls s)).
Proof. intros Hi. apply map_Forall_delete, Hi. Qed.

(** The end of a fetch: its entry is made when the cache is on and alive. *)
Lemma inv_finish_get id created touched s s' resp :
  inv s → finish_get cfg id created touched s = Some (s', resp) → inv s'.
Proof.
  intros Hi. unfold finish_get. destruct (calls s !! id) as [[r sid [d|]]|] eqn:E; [|done..].
  destruct (inv_calls s Hi _ _ E) as [Hsid Hd]. simpl in Hsid, Hd.
  assert (H1 : inv (with_counts 0 1 0 0 (with_calls (delete id (calls s)) s))).
  { apply inv_with_counts, inv_with_calls; [done|by apply calls_delete]. }
  destruct (negb _) eqn:En; [by intros [= <- <-]|]. apply negb_false_iff, andb_true_iff in En as [Hon Hal].
  destruct (enforce _ _) as [es n] eqn:Ee. intros [= <- <-]. apply inv_with_counts.
  apply enforce_suffix in Ee as [Hsuf Hlen].
  destruct Hi as [Hn Hz Ho Ha Hs Hf Hc]. destruct H1 as [_ _ _ _ _ _ Hc1]. split; simpl; try done.
  - eapply suffix_nodup; [exact Hsuf|]. by apply set_entry_nodup.
  - destruct Hcfg as [_ Hm]. lia.
  - congruence.
  - intros _. by apply Ha.
  - apply Forall_forall. intros p Hp. apply (suffix_elem _ _ _ Hsuf) in Hp.
    apply set_entry_elem in Hp as [->|[_ Hp]]; [|by rewrite Forall_forall in Hf; apply Hf].
    intros r' sid' Hok Hk Ht. simpl in Hk. apply route_key_inj in Hk as <-; [|done..].
    split; [done|]. simpl. intros Hcalm. by apply Hd.
Qed.

Lemma cache_step a s s' : inv s → guarded calm a s = Some s' → inv s'.
Proof.
  intros Hi. unfold guarded. destruct (calm && racing a s) eqn:Hrace; [done|]. unfold step.
  destruct a as [made|sid h|id r sid now touched|id|id created touched|id|e sid|sid]; cbn [step_out].
  - intros [= <-]. by apply inv_register.
  - by intros [= <-].
  - case_decide as H; [|done]. intros [= <-]. apply inv_start_get; [done|apply H].
  - destruct (read_store id s) as [s1|] eqn:E; [|done]. intros [= <-]. by eapply inv_read_store.
  - destruct (finish_get cfg id created touched s) as [[s1 resp]|] eqn:E; [|done]. intros [= <-].
    by eapply inv_finish_get.
  - destruct (calls s !! id); [|done]. intros [= <-]. apply inv_with_calls; [done|by apply calls_delete].
  - case_decide; [|done]. destruct (Nat.ltb_spec (event_index e) (subscribed s)) as [|Hlt]; intros [= <-].
    + by apply inv_event.
    + apply inv_unheard with e; [done| |done]. intros E. rewrite E in Hlt. destruct e; simpl in Hlt; lia.
  - case_decide; [|done]. intros [= <-]. by apply inv_sweep.
Qed.

Lemma cache_reachable s : reachable (guarded calm) initial_cache s → inv s.
Proof. apply reachable_ind_inv; [apply cache_initial|]. eauto using cache_step. Qed.
End Invariant.

(** ** Versions and contents *)

Section Versions.
Context (cfg : SessionCacheConfig) (EPOCH : jsstr).

(** The version of a session never falls, short of its deletion, and rises
    with every change. *)
Lemma step_version a s s' sid :
  step cfg EPOCH a s = Some s' → subscribed s = 7%nat → a ≠ Change SessionDeleted sid →
  subscribed s' = 7%nat ∧ getVersion s sid <= getVersion s' sid ∧
  (getVersion s' sid = getVersion s sid → content s' sid = content s sid).
Proof.
  intros Hs H7 Hne. unfold step in Hs.
  assert (Hsame : ∀ t, versions t = versions s → store t = store s → subscribed t = 7%nat → Some t = Some s' →
    subscribed s' = 7%nat ∧ getVersion s sid <= getVersion s' sid ∧
    (getVersion s' sid = getVersion s sid → content s' sid = content s sid)).
  { intros t Hv Hw H [= <-]. unfold getVersion, content. rewrite Hv, Hw. split; [done|]. split; [lia|done]. }
  destruct a as [made|sid' h|id r sid' now touched|id|id created touched|id|e sid'|sid']; cbn [step_out] in Hs.
  - revert Hs. apply Hsame; unfold register; by rewrite H7.
  - revert Hs. by apply Hsame.
  - destruct (decide _); [|done]. revert Hs. unfold start_get.
    apply Hsame; destruct (negb _); try done; destruct (lookup_entry _ _); try done; by destruct (_ <=? _).
  - unfold read_store in Hs. destruct (calls s !! id) as [[? ? [|]]|]; [done| |done]. revert Hs. by apply Hsame.
  - unfold finish_get in Hs. destruct (calls s !! id) as [[? ? [|]]|]; [|done..]. revert Hs.
    destruct (negb _); [by apply Hsame|]. destruct (enforce _ _). by apply Hsame.
  - destruct (calls s !! id); [|done]. revert Hs. by apply Hsame.
  - destruct (decide _); [|done]. rewrite H7 in Hs. destruct (decide (sid' = sid)) as [->|Hd].
    + assert (Hb : ∀ t, versions t = <[sid := getVersion s sid + 1]> (versions s) → subscribed t = 7%nat → Some t = Some s' →
        subscribed s' = 7%nat ∧ getVersion s sid <= getVersion s' sid ∧
        (getVersion s' sid = getVersion s sid → content s' sid = content s sid)).
      { intros t Hv H [= <-]. unfold getVersion in *. rewrite Hv, lookup_insert_eq. simpl. split; [done|]. split; lia. }
      revert Hs. destruct e as [| |[]| | | |]; try done; by apply Hb.
    + destruct (on_event_fields e sid' (with_store (<[sid' := content s sid' + 1]> (store s)) s))
        as (_ & _ & Hsub & _ & Hw & Ho & _). destruct (Ho sid ltac:(done)) as [Hv _].
      assert (Nat.ltb (event_index e) 7 = true) as Ht by by destruct e. rewrite Ht in Hs. injection Hs as <-.
      set (s2 := on_event e sid' _) in *.
      assert (Hcn : content s2 sid = content s sid).
      { unfold content at 1. rewrite Hw. simpl. by rewrite lookup_insert_ne. }
      rewrite Hsub, Hcn, Hv. split; [done|]. split; [|done]. change (getVersion s sid <= getVersion s sid). lia.
  - destruct (decide _); [|done]. revert Hs. by apply Hsame.
Qed.

Lemma run_version acts s s' sid :
  run (step cfg EPOCH) acts s = Some s' → subscribed s = 7%nat → Forall (λ a, a ≠ Change SessionDeleted sid) acts →
  getVersion s sid <= getVersion s' sid ∧ (getVersion s' sid = getVersion s sid → content s' sid = content s sid).
Proof.
  intros Hr H7 Hd. revert s Hr H7. induction Hd as [|a acts Ha _ IH]; intros s Hr H7; simpl in Hr.
  - injection Hr as ->. split; [lia|done].
  - destruct (step cfg EPOCH a s) as [s1|] eqn:E; [|done].
    destruct (step_version _ _ _ _ E H7 Ha) as (H7' & Hle & Hc). destruct (IH s1 Hr H7') as [Hle' Hc'].
    split; [lia|]. intros Hv. rewrite Hc' by lia. apply Hc. lia.
Qed.

Lemma show_Z_inj a b : 0 <= a → 0 <= b → show_Z a = show_Z b → a = b.
Proof.
  intros Ha Hb. unfold show_Z. destruct (Z.ltb_spec a 0), (Z.ltb_spec b 0); try lia.
  destruct (show_nonneg a) as (da & -> & _ & Hva & _); [lia|].
  destruct (show_nonneg b) as (db & -> & _ & Hvb & _); [lia|]. intros ->. by rewrite <- Hva.
Qed.

(** The tag of a session names its version. *)
Lemma tag_inj s s' sid : 0 <= getVersion s sid → 0 <= getVersion s' sid →
  currentEtag EPOCH s sid = currentEtag EPOCH s' sid → getVersion s sid = getVersion s' sid.
Proof.
  intros H0 H0' E. unfold currentEtag in E. do 4 apply app_inv_head in E. apply app_inv_tail in E.
  by apply show_Z_inj.
Qed.

Lemma tag_trim s sid : trim (currentEtag EPOCH s sid) = currentEtag EPOCH s sid.
Proof.
  unfold currentEtag. change (js "W/" ++ ?x) with (87%N :: 47%N :: x). rewrite !app_assoc.
  exact (trim_id 87%N (47%N :: ((((([34%N] ++ sid) ++ js ":") ++ show_Z (getVersion s sid)) ++ js ":") ++ EPOCH))
    34%N eq_refl eq_refl).
Qed.

Lemma tag_matches s s' sid : 0 <= getVersion s sid → 0 <= getVersion s' sid →
  isEtagMatch EPOCH s' sid (Some (currentEtag EPOCH s sid)) = true → getVersion s' sid = getVersion s sid.
Proof.
  intros H0 H0' Hm. unfold isEtagMatch in Hm. destruct (currentEtag EPOCH s sid) as [|c t] eqn:E; [done|].
  rewrite <- E, tag_trim in Hm. apply bool_decide_eq_true in Hm. symmetry. by apply tag_inj.
Qed.
End Versions.

(** ** Properties *)

Section Properties.
Context (cfg : SessionCacheConfig) (EPOCH : jsstr) (Hcfg : cache_ok cfg).

Lemma guarded_step calm a s s' : guarded cfg EPOCH calm a s = Some s' → step cfg EPOCH a s = Some s'.
Proof. unfold guarded. by destruct (calm && racing a s). Qed.

Lemma step_nonneg a s s' : map_Forall (λ _ v, 0 <= v) (versions s) → step cfg EPOCH a s = Some s' →
  map_Forall (λ _ v, 0 <= v) (versions s').
Proof.
  intros Hn Hs. unfold step in Hs.
  assert (Hsame : ∀ t, versions t = versions s → Some t = Some s' → map_Forall (λ _ v, 0 <= v) (versions s')).
  { intros t Hv [= <-]. by rewrite Hv. }
  assert (Hbump : ∀ sid, map_Forall (λ _ v, 0 <= v) (<[sid := getVersion s sid + 1]> (versions s))).
  { intros sid. apply map_Forall_insert_2; [|done]. unfold getVersion.
    destruct (versions s !! sid) as [v|] eqn:E; simpl; [apply Hn in E; lia|lia]. }
  destruct a as [made|sid' h|id r sid' now touched|id|id created touched|id|e sid'|sid']; cbn [step_out] in Hs.
  - revert Hs. apply Hsame. unfold register. by destruct (Nat.ltb _ _).
  - revert Hs. by apply Hsame.
  - destruct (decide _); [|done]. revert Hs. unfold start_get.
    apply Hsame; destruct (negb _); try done; destruct (lookup_entry _ _); try done; by destruct (_ <=? _).
  - unfold read_store in Hs. destruct (calls s !! id) as [[? ? [|]]|]; [done| |done]. revert Hs. by apply Hsame.
  - unfold finish_get in Hs. destruct (calls s !! id) as [[? ? [|]]|]; [|done..]. revert Hs.
    destruct (negb _); [by apply Hsame|]. destruct (enforce _ _). by apply Hsame.
  - destruct (calls s !! id); [|done]. revert Hs. by apply Hsame.
  - destruct (decide _); [|done]. destruct (Nat.ltb _ _); [|revert Hs; by apply Hsame].
    injection Hs as <-. destruct e as [| |[]| | | |]; simpl; try apply Hbump. by apply map_Forall_delete.
  - destruct (decide _); [|done]. revert Hs. by apply Hsame.
Qed.

Lemma version_nonneg calm s sid : reachable (guarded cfg EPOCH calm) initial_cache s → 0 <= getVersion s sid.
Proof.
  intros Hr. assert (Hn : map_Forall (λ _ v, 0 <= v) (versions s)).
  { revert s Hr. apply reachable_ind_inv; [apply map_Forall_empty|]. eauto using step_nonneg, guarded_step. }
  unfold getVersion. destruct (versions s !! sid) as [v|] eqn:E; [by apply Hn in E|done].
Qed.

(** The cache never holds more entries than configured, or a key twice; it is
    empty when it is off or was not subscribed to every event; unless a sweep of
    its session is pending, an entry carries the version of its session. *)
Theorem cache_bounded s : reachable (step cfg EPOCH) initial_cache s →
  Z.of_nat (length (entries s)) <= sc_maxEntries cfg ∧ NoDup (map fst (entries s)) ∧
  (sc_enabled cfg = false ∨ subscribed s ≠ 7%nat → entries s = []) ∧
  ∀ r sid e, sid_ok sid → (route_key r sid, e) ∈ entries s → sid ∉ timers s → version e = getVersion s sid.
Proof.
  intros Hr. assert (Hi : inv cfg false s).
  { eapply cache_reachable; [exact Hcfg|]. instantiate (1 := EPOCH). induction Hr; [constructor|].
    eapply reach_step; [exact IHHr|]. unfold guarded. simpl. done. }
  destruct Hi as [Hn Hz Ho Ha Hs He _]. split; [done|]. split; [done|]. split.
  - intros [H|H]; [by apply Ho|]. destruct (entries s); [done|]. by destruct H; apply Hs.
  - intros r sid e Hok Hin Ht. rewrite Forall_forall in He. by apply (He _ Hin r sid).
Qed.

(** What a fetch from the cache gives. *)
Lemma hit_entry id r sid now touched s s' r' sid' d v :
  start_get cfg id r sid now touched s = (s', Served r' sid' d v true) →
  r' = r ∧ sid' = sid ∧ timers s' = timers s ∧ versions s' = versions s ∧ store s' = store s ∧
  ∃ e, (route_key r sid, e) ∈ entries s ∧ d = data e ∧ v = version e ∧ now - createdAt e <= sc_ttlSec cfg * 1000.
Proof.
  unfold start_get. destruct (negb _); [done|]. destruct (lookup_entry _ _) as [e|] eqn:El; [|done].
  destruct (Z.leb_spec (now - createdAt e) (sc_ttlSec cfg * 1000)); [|done]. intros [= <- <- <- <- <-].
  split_and!; try done. exists e. split_and!; try done. by apply lookup_entry_elem.
Qed.

(** C14. When no change of a session falls between the reading and the end of one
    of its fetches, a response from the cache is not older than the configured
    time, is for the session and the route that were asked, and is the current
    content with the current version, unless the sweep of a streamed part is
    pending. *)
Theorem cache_hit_current id r sid now touched s s' r' sid' d v :
  reachable (guarded cfg EPOCH true) initial_cache s →
  step_out cfg EPOCH (Get id r sid now touched) s = Some (s', Served r' sid' d v true) →
  r' = r ∧ sid' = sid ∧ (sid ∉ timers s → d = content s sid ∧ v = getVersion s sid) ∧
  ∃ e, (route_key r sid, e) ∈ entries s ∧ d = data e ∧ now - createdAt e <= sc_ttlSec cfg * 1000.
Proof.
  intros Hr Hs. apply cache_reachable in Hr; [|done]. cbn [step_out] in Hs.
  destruct (decide _) as [[Hok _]|]; [|done]. injection Hs as Hs.
  apply hit_entry in Hs as (-> & -> & _ & _ & _ & e & Hin & -> & -> & Hage). split_and!; [done|done| |by exists e].
  intros Ht. pose proof (inv_entries _ _ _ Hr) as He. rewrite Forall_forall in He.
  destruct (He _ Hin r sid Hok eq_refl Ht) as [Hv Hd]. split; [by apply Hd|done].
Qed.

(** Under the same condition, and when no sweep of the session is pending,
    the tag that goes out with a response stands for its content: as long as the
    tag is answered with "not modified", whatever happens but the deletion of the
    session, the content is the one that was sent. *)
Theorem etag_current a s s1 r sid d v hit acts s2 :
  reachable (guarded cfg EPOCH true) initial_cache s → subscribed s = 7%nat →
  step_out cfg EPOCH a s = Some (s1, Served r sid d v hit) → sid ∉ timers s1 →
  run (step cfg EPOCH) acts s1 = Some s2 → Forall (λ a, a ≠ Change SessionDeleted sid) acts →
  isEtagMatch EPOCH s2 sid (Some (currentEtag EPOCH s1 sid)) = true → d = content s2 sid.
Proof.
  intros Hr H7 Hs Ht Hrun Hdel Hm. pose proof (version_nonneg _ _ sid Hr) as H0. apply cache_reachable in Hr; [|done].
  assert (H1 : d = content s1 sid ∧ subscribed s1 = 7%nat ∧ versions s1 = versions s).
  { destruct a as [made|sid' h|id r' sid' now touched|id|id created touched|id|e sid'|sid']; cbn [step_out] in Hs; try done.
    - by destruct (isEtagMatch _ _ _ _).
    - destruct (decide _) as [[Hok _]|]; [|done]. injection Hs as Hs.
      assert (hit = true) as ->.
      { unfold start_get in Hs. destruct (negb _); [done|]. destruct (lookup_entry _ _); [|done]. by destruct (_ <=? _); simplify_eq. }
      assert (E7 : subscribed s1 = subscribed s).
      { change (subscribed (s1, Served r sid d v true).1 = subscribed s). rewrite <- Hs. unfold start_get.
        destruct (negb _); [done|]. destruct (lookup_entry _ _); [|done]. by destruct (_ <=? _). }
      apply hit_entry in Hs as (-> & -> & Et & Ev & Ew & e & Hin & -> & -> & _).
      pose proof (inv_entries _ _ _ Hr) as He. rewrite Forall_forall in He. rewrite Et in Ht.
      destruct (He _ Hin r' sid' Hok eq_refl Ht) as [_ Hd]. unfold content. rewrite Ew, E7. split; [by apply Hd|done].
    - by destruct (read_store id s).
    - unfold finish_get in Hs. destruct (calls s !! id) as [[r' sid' [d'|]]|] eqn:E; [|done..].
      destruct (inv_calls _ _ _ Hr _ _ E) as [_ Hd]. specialize (Hd eq_refl d' eq_refl). simpl in Hd.
      destruct (negb _); [by simplify_eq|]. destruct (enforce _ _). by simplify_eq.
    - by destruct (calls s !! id).
    - by destruct (decide _).
    - by destruct (decide _). }
  destruct H1 as (-> & H71 & Hv). assert (H01 : 0 <= getVersion s1 sid) by (unfold getVersion in *; by rewrite Hv).
  destruct (run_version cfg EPOCH acts s1 s2 sid Hrun H71 Hdel) as [Hle Hc].
  symmetry. apply Hc. apply (tag_matches EPOCH); [done|lia|done].
Qed.
End Properties.

(** ** Runs *)

Definition demo_cache : SessionCacheConfig := mkSessionCache true 60 2.
Definition demo_epoch : jsstr := js "e".
Definition ses : jsstr := js "ses_a".

Lemma demo_cache_ok : cache_ok demo_cache.
Proof. split; simpl; lia. Qed.

(** A session is fetched; the times are in milliseconds. *)
Definition fetch (id : nat) (t : Z) : list action := [Get id RSession ses t t; ReadStore id; Finish id t t].

(** What a run shows: the last response, the content and whether the tag of the
    last response is still answered with "not modified". *)
Definition observe (cfg : SessionCacheConfig) (acts : list action) (last : action) (later : list action) :
    option (response * Z * bool) :=
  match run (step cfg demo_epoch) acts initial_cache with
  | Some s =>
      match step_out cfg demo_epoch last s with
      | Some (s1, resp) =>
          match run (step cfg demo_epoch) later s1 with
          | Some s2 => Some (resp, content s2 ses, isEtagMatch demo_epoch s2 ses (Some (currentEtag demo_epoch s1 ses)))
          | None => None
          end
      | None => None
      end
  | None => None
  end.

(** A change while a fetch runs: the old content is stored under the new
    version, served from the cache, and its tag keeps matching. *)
Example change_during_fetch :
  observe demo_cache
    [Register 7; Get 0 RSession ses 0 0; ReadStore 0; Change MessageUpdated ses; Finish 0 10 10]
    (Get 1 RSession ses 20 20) [] = Some (Served RSession ses 0 1 true, 1, true).
Proof. by vm_compute. Qed.

(** A response between a streamed part and its sweep has the tag of the new
    version and the old content; after the sweep the tag still matches. *)
Example tag_before_sweep :
  observe demo_cache ([Register 7] ++ fetch 0 0 ++ [Change (PartUpdated true) ses])
    (Get 1 RSession ses 20 20) [Timer ses] = Some (Served RSession ses 0 0 true, 1, true).
Proof. by vm_compute. Qed.

(** When a subscription failed, nothing is cached, but tags keep matching. *)
Example tag_without_subscription :
  observe demo_cache ([Register 3; Get 0 RSession ses 0 0; ReadStore 0]) (Finish 0 0 0) [Change SessionUpdated ses]
    = Some (Served RSession ses 0 0 false, 1, true).
Proof. by vm_compute. Qed.

(** A cache that is off counts misses. *)
Example misses_when_off :
  misses <$> run (step (mkSessionCache false 60 2) demo_epoch) ([Register 7] ++ fetch 0 0) initial_cache = Some 1.
Proof. by vm_compute. Qed.

(** The keys of message lists name another session. *)
Example messages_key_session : sessionIdOf (route_key (RMessages 30) ses) = Some (js "ses_a:tail").
Proof. by vm_compute. Qed.

(** The least recently used entry is evicted. *)
Example eviction :
  (λ s, (map fst (entries s), evictions s)) <$>
    run (step demo_cache demo_epoch)
      ([Register 7] ++ fetch 0 0 ++
       [Get 1 RMeta ses 1 1; ReadStore 1; Finish 1 1 1; Get 2 RSession ses 2 2;
        Get 3 (RMessages 30) ses 3 3; ReadStore 3; Finish 3 3 3]) initial_cache
  = Some ([route_key RSession ses; route_key (RMessages 30) ses], 1).
Proof. by vm_compute. Qed.

Definition demo_acts : list action := [Register 7] ++ fetch 0 0 ++ [Change SessionUpdated ses] ++ fetch 1 500.

Definition demo_state : cache := default initial_cache (run (guarded demo_cache demo_epoch true) demo_acts initial_cache).
Definition demo_hit : cache * response := start_get demo_cache 2 RSession ses 60500 60500 demo_state.
Definition demo_later : cache :=
  default initial_cache (run (step demo_cache demo_epoch) [Change MessageUpdated (js "ses_b")] demo_hit.1).

Lemma cache_demo_reachable : reachable (guarded demo_cache demo_epoch true) initial_cache demo_state.
Proof. apply (run_reachable _ initial_cache demo_acts initial_cache); [constructor|]. by vm_compute. Qed.

Lemma cache_demo_step :
  step_out demo_cache demo_epoch (Get 2 RSession ses 60500 60500) demo_state = Some (demo_hit.1, Served RSession ses 1 1 true).
Proof. by vm_compute. Qed.

Lemma cache_hit_current_witness :
  ses ∉ timers demo_state ∧ (ses ∉ timers demo_state → 1 = content demo_state ses ∧ 1 = getVersion demo_state ses).
Proof.
  split; [by_compute|].
  exact (proj1 (proj2 (proj2 (cache_hit_current demo_cache demo_epoch demo_cache_ok 2 RSession ses 60500 60500
    demo_state demo_hit.1 RSession ses 1 1 cache_demo_reachable cache_demo_step)))).
Defined.

Lemma etag_current_witness : 1 = content demo_later ses.
Proof.
  refine (etag_current demo_cache demo_epoch demo_cache_ok (Get 2 RSession ses 60500 60500) demo_state demo_hit.1
    RSession ses 1 1 true [Change MessageUpdated (js "ses_b")] demo_later cache_demo_reachable _ cache_demo_step _ _ _ _).
  - by vm_compute.
  - by_compute.
  - by vm_compute.
  - by repeat constructor.
  - by vm_compute.
Defined.
