(* ===== verification/RebindEpoch.v ===== *)
(** * Epochs of capability rebinds ([session/rebind-epoch.ts])

    A counter per session with a sliding window that limits its bumps.  The
    entries are objects: a bump that waits for its event to be written still
    holds its entry, and reads it when it returns, even if the session was
    cleared.  So entries live in a heap, and a bump is two steps. *)
From stdpp Require Import gmap.
From S2P Require Import Prelude JsString Json.
Open Scope Z_scope.

(** ** Data *)

Inductive RebindTrigger :=
| daemon_start | session_resume | provider_switch | slash_reload | tool_call | file_mtime.

Record EpochEntry := mkEpochEntry {
  epoch : Z;
  lastBumpAt : Z;
  lastTrigger : RebindTrigger;
  windowBumps : list Z
}.

Inductive bump_status := Bumped | RateLimited.

Record BumpEpochOutcome := mkOutcome {
  status : bump_status;
  previousEpoch : Z;
  currentEpoch : Z;
  rateLimitReason : option jsstr
}.

(** The events that are appended, with what their payload says of epochs. *)
Inductive rebind_event :=
| SessionRebind (sessionID : jsstr) (trigger : RebindTrigger) (previous current : Z)
| RebindStorm (sessionID : jsstr) (trigger : RebindTrigger) (observedCount : Z).

Definition RATE_LIMIT_WINDOW_MS : Z := 1000.
Definition RATE_LIMIT_MAX : nat := 5.

(** A bump that waits for its event to be written: its entry, and the previous
    epoch or the observed count. *)
Inductive waiting := AfterBump (loc : nat) (previous : Z) | AfterLimit (loc : nat) (observedCount : Z).

Record state := mkState {
  heap : gmap nat EpochEntry;
  registry : gmap jsstr nat;
  calls : gmap nat waiting;
  events : list rebind_event;
  (* the time of the last clock reading, and of the bumps of each entry *)
  clock : Z;
  bumped_at : gmap nat (list Z);
  (* the next object *)
  next : nat
}.

Definition initial_state (t : Z) : state := mkState ∅ ∅ ∅ [] t ∅ 0.

(** ** Operations *)

Fixpoint prune (cutoff : Z) (bumps : list Z) : list Z :=
  match bumps with
  | t :: rest => if t <? cutoff then prune cutoff rest else bumps
  | [] => []
  end.

Definition pruneWindow (entry : EpochEntry) (now : Z) : EpochEntry :=
  mkEpochEntry (epoch entry) (lastBumpAt entry) (lastTrigger entry)
    (prune (now - RATE_LIMIT_WINDOW_MS) (windowBumps entry)).

Definition current (s : state) (sessionID : jsstr) : Z :=
  match registry s !! sessionID with
  | Some l => match heap s !! l with Some entry => epoch entry | None => 0 end
  | None => 0
  end.

(** The entry of a session, made when there is none. *)
Definition entry_for (s : state) (sessionID : jsstr) (trigger : RebindTrigger) : nat * EpochEntry * gmap jsstr nat :=
  let fresh l := (l, mkEpochEntry 0 0 trigger [], <[sessionID := l]> (registry s)) in
  match registry s !! sessionID with
  | Some l => match heap s !! l with Some entry => (l, entry, registry s) | None => fresh l end
  | None => fresh (next s)
  end.

(** [bumpEpoch], up to the writing of its event. *)
Definition start_bump (id : nat) (sessionID : jsstr) (trigger : RebindTrigger) (now : Z) (s : state) : state :=
  let '(l, entry0, reg) := entry_for s sessionID trigger in
  let entry := pruneWindow entry0 now in
  let past := default [] (bumped_at s !! l) in
  if Nat.leb RATE_LIMIT_MAX (length (windowBumps entry)) then
    let observedCount := Z.of_nat (length (windowBumps entry)) + 1 in
    mkState (<[l := entry]> (heap s)) reg (<[id := AfterLimit l observedCount]> (calls s))
      (events s ++ [RebindStorm sessionID trigger observedCount]) now (<[l := past]> (bumped_at s)) (Nat.max (next s) (S l))
  else
    let previous := epoch entry in
    let entry' := mkEpochEntry (previous + 1) now trigger (windowBumps entry ++ [now]) in
    mkState (<[l := entry']> (heap s)) reg (<[id := AfterBump l previous]> (calls s))
      (events s ++ [SessionRebind sessionID trigger previous (epoch entry')]) now
      (<[l := past ++ [now]]> (bumped_at s)) (Nat.max (next s) (S l)).

(** The reason that is given for a refusal. *)
Definition limit_reason (observedCount : Z) : jsstr :=
  js "rate_limit:" ++ show_Z observedCount ++ js "/" ++ show_Z (Z.of_nat RATE_LIMIT_MAX) ++ js " per " ++
  show_Z RATE_LIMIT_WINDOW_MS ++ js "ms".

(** The outcome, which reads the entry again. *)
Definition outcome_of (s : state) (w : waiting) : option BumpEpochOutcome :=
  match w with
  | AfterBump l previous => (λ e, mkOutcome Bumped previous (epoch e) None) <$> heap s !! l
  | AfterLimit l n => (λ e, mkOutcome RateLimited (epoch e) (epoch e) (Some (limit_reason n))) <$> heap s !! l
  end.

Definition clearSession (sessionID : jsstr) (s : state) : state :=
  mkState (heap s) (delete sessionID (registry s)) (calls s) (events s) (clock s) (bumped_at s) (next s).

Inductive action :=
| Bump (id : nat) (sessionID : jsstr) (trigger : RebindTrigger) (now : Z)
| Return (id : nat)
| Clear (sessionID : jsstr).

(** The clock does not run backwards. *)
Definition step (a : action) (s : state) : option state :=
  match a with
  | Bump id sessionID trigger now =>
      if decide (clock s <= now ∧ calls s !! id = None) then Some (start_bump id sessionID trigger now s) else None
  | Return id =>
      match calls s !! id with
      | Some _ => Some (mkState (heap s) (registry s) (delete id (calls s)) (events s) (clock s) (bumped_at s) (next s))
      | None => None
      end
  | Clear sessionID => Some (clearSession sessionID s)
  end.

(** What [stats] tells of each session. *)
Definition stats (s : state) : list (jsstr * Z * Z * RebindTrigger) :=
  omap (λ p : jsstr * nat, (λ e, (p.1, epoch e, lastBumpAt e, lastTrigger e)) <$> heap s !! p.2)
    (map_to_list (registry s)).

(** ** Windows of sorted times *)

Definition recent (cutoff : Z) (h : list Z) : list Z := filter (λ t, cutoff <= t) h.

(** Times five apart in the list are more than a window apart. *)
Definition spaced (h : list Z) : Prop :=
  ∀ i a b, h !! i = Some a → h !! (i + RATE_LIMIT_MAX)%nat = Some b → a + RATE_LIMIT_WINDOW_MS < b.

Lemma prune_sorted cutoff h : StronglySorted Z.le h → prune cutoff h = recent cutoff h.
Proof.
  unfold recent. induction 1 as [|t h Hs IH Ht]; simpl; [done|]. rewrite filter_cons.
  destruct (Z.ltb_spec t cutoff); [by rewrite decide_False by lia|]. rewrite decide_True by done. f_equal.
  symmetry. apply filter_all. eapply Forall_impl; [exact Ht|]. simpl. lia.
Qed.

Lemma prune_split cutoff h : ∃ dropped, h = dropped ++ prune cutoff h ∧ Forall (λ t, t < cutoff) dropped.
Proof.
  induction h as [|t h (d & Hd & Hf)]; simpl; [by exists []|]. destruct (Z.ltb_spec t cutoff); [|by exists []].
  exists (t :: d). split; [by rewrite Hd at 1|by constructor].
Qed.

Lemma sorted_lookup_le h i j a b : StronglySorted Z.le h → (i <= j)%nat → h !! i = Some a → h !! j = Some b → a <= b.
Proof.
  intros Hs. revert i j. induction Hs as [|x h _ IH Hx]; intros i j Hij Ha Hb; [done|].
  destruct i as [|i], j as [|j]; simpl in *; simplify_eq; [lia| |lia|].
  - rewrite Forall_forall in Hx. by apply Hx, (list_elem_of_lookup_2 _ j).
  - apply (IH i j); [lia|done..].
Qed.

(** In any window of a spaced list there are at most five times. *)
Lemma spaced_window h (t : Z) : StronglySorted Z.le h → spaced h →
  (length (filter (λ x : Z, t <= x <= t + RATE_LIMIT_WINDOW_MS)%Z h) <= RATE_LIMIT_MAX)%nat.
Proof.
  induction h as [|x h IH]; intros Hs Hsp; [simpl; lia|]. inversion Hs as [|? ? Hs' Hx]; subst.
  destruct (decide (t <= x <= t + RATE_LIMIT_WINDOW_MS)) as [Hin|Hout].
  - rewrite <- (take_drop RATE_LIMIT_MAX (x :: h)), filter_app, length_app.
    rewrite (filter_none _ (drop RATE_LIMIT_MAX (x :: h))).
    + change (length []) with 0%nat. rewrite Nat.add_0_r. etransitivity; [apply length_filter|]. rewrite length_take. lia.
    + apply Forall_forall. intros y (j & Hj)%list_elem_of_lookup Hy. rewrite lookup_drop in Hj.
      destruct ((x :: h) !! RATE_LIMIT_MAX) as [z|] eqn:Ez.
      * pose proof (Hsp 0%nat x z eq_refl Ez). pose proof (sorted_lookup_le _ _ _ _ _ Hs (Nat.le_add_r _ _) Ez Hj). lia.
      * apply lookup_ge_None_1 in Ez. apply lookup_lt_Some in Hj. lia.
  - rewrite filter_cons, decide_False by done. apply IH; [done|].
    intros i a b Ha Hb. by apply (Hsp (S i) a b).
Qed.

(** Adding a time keeps the list spaced when fewer than five are recent. *)
Lemma spaced_snoc h now : StronglySorted Z.le h → spaced h →
  (length (recent (now - RATE_LIMIT_WINDOW_MS) h) < RATE_LIMIT_MAX)%nat → spaced (h ++ [now]).
Proof.
  intros Hs Hsp Hr i a b Ha Hb. destruct (decide (i + RATE_LIMIT_MAX < length h)%nat) as [Hl|Hl].
  - rewrite lookup_app_l in Ha, Hb by (unfold RATE_LIMIT_MAX in *; lia). by apply (Hsp i).
  - apply lookup_lt_Some in Hb as Hb'. rewrite length_app in Hb'. simpl in Hb'.
    assert (Ei : (i + RATE_LIMIT_MAX = length h)%nat) by lia. rewrite Ei, list_lookup_middle in Hb by done.
    injection Hb as <-. rewrite lookup_app_l in Ha by (unfold RATE_LIMIT_MAX in *; lia).
    destruct (decide (a + RATE_LIMIT_WINDOW_MS < now)) as [|Hn]; [done|]. exfalso.
    assert (Hall : recent (now - RATE_LIMIT_WINDOW_MS) (drop i h) = drop i h).
    { apply filter_all, Forall_forall. intros y (j & Hj)%list_elem_of_lookup. rewrite lookup_drop in Hj.
      pose proof (sorted_lookup_le _ _ _ _ _ Hs (Nat.le_add_r i j) Ha Hj). lia. }
    unfold recent in *. rewrite <- (take_drop i h), filter_app, length_app, Hall, length_drop in Hr. lia.
Qed.

Lemma sorted_snoc h now : StronglySorted Z.le h → Forall (λ t, t <= now) h → StronglySorted Z.le (h ++ [now]).
Proof.
  induction 1 as [|t h Hs IH Ht]; intros Hf; simpl; [by repeat constructor|].
  inversion Hf; subst. constructor; [by apply IH|]. apply Forall_app. split; [done|by repeat constructor].
Qed.

(** ** The invariant *)

(** An entry, the times of its bumps, and the time. *)
Record entry_inv (now : Z) (e : EpochEntry) (h : list Z) : Prop := {
  ei_sorted : StronglySorted Z.le h;
  ei_past : Forall (λ t, t <= now) h;
  ei_spaced : spaced h;
  ei_epoch : epoch e = Z.of_nat (length h);
  ei_window : ∃ dropped, h = dropped ++ windowBumps e ∧ Forall (λ t, t + RATE_LIMIT_WINDOW_MS < now) dropped
}.

Definition waiting_ok (hp : gmap nat EpochEntry) (w : waiting) : Prop :=
  match w with
  | AfterBump l p => ∃ e, hp !! l = Some e ∧ p + 1 <= epoch e
  | AfterLimit l _ => is_Some (hp !! l)
  end.

Record inv (s : state) : Prop := {
  inv_heap : ∀ l e, heap s !! l = Some e → ∃ h, bumped_at s !! l = Some h ∧ entry_inv (clock s) e h;
  inv_next : ∀ l, is_Some (bumped_at s !! l) → (l < next s)%nat;
  inv_registry : ∀ sid l, registry s !! sid = Some l → is_Some (heap s !! l);
  inv_inj : ∀ sid1 sid2 l, registry s !! sid1 = Some l → registry s !! sid2 = Some l → sid1 = sid2;
  inv_calls : map_Forall (λ _ w, waiting_ok (heap s) w) (calls s)
}.

(** The times of the bumps of a session. *)
Definition bumps_of (s : state) (sid : jsstr) : list Z :=
  match registry s !! sid with Some l => default [] (bumped_at s !! l) | None => [] end.

Lemma epoch_initial t : inv (initial_state t).
Proof. split; simpl; try done. by intros l [h Hh]. Qed.

Lemma entry_later now now' e h : now <= now' → entry_inv now e h → entry_inv now' e h.
Proof.
  intros Hle [Hs Hp Hsp He (d & Hd & Hf)]. split; try done.
  - eapply Forall_impl; [exact Hp|]. simpl. lia.
  - exists d. split; [done|]. eapply Forall_impl; [exact Hf|]. simpl. lia.
Qed.

(** Pruning leaves the recent bumps. *)
Lemma prune_recent now0 now e h : now0 <= now → entry_inv now0 e h →
  windowBumps (pruneWindow e now) = recent (now - RATE_LIMIT_WINDOW_MS) h ∧ entry_inv now (pruneWindow e now) h.
Proof.
  intros Hle [Hs Hp Hsp He (d & Hd & Hf)]. simpl.
  assert (Hsw : StronglySorted Z.le (windowBumps e)) by (rewrite Hd in Hs; by apply StronglySorted_app_1_r in Hs).
  split.
  - rewrite prune_sorted by done. rewrite Hd. unfold recent. rewrite filter_app, (filter_none _ d); [done|].
    eapply Forall_impl; [exact Hf|]. simpl. lia.
  - split; simpl; try done; [eapply Forall_impl; [exact Hp|]; simpl; lia|].
    destruct (prune_split (now - RATE_LIMIT_WINDOW_MS) (windowBumps e)) as (d' & Hd' & Hf').
    exists (d ++ d'). rewrite <- app_assoc, <- Hd'. split; [done|]. apply Forall_app.
    split; (eapply Forall_impl; [eassumption|]); simpl; lia.
Qed.

(** The entry that a bump works on. *)
Lemma entry_for_spec s sid trigger l e reg : inv s → entry_for s sid trigger = (l, e, reg) →
  let h := bumps_of s sid in
  reg = <[sid := l]> (registry s) ∧ entry_inv (clock s) e h ∧ default [] (bumped_at s !! l) = h ∧
  epoch e = current s sid ∧ (registry s !! sid = Some l ∨ (registry s !! sid = None ∧ l = next s)).
Proof.
  intros Hi. unfold entry_for, bumps_of, current. destruct (registry s !! sid) as [l'|] eqn:Er.
  - destruct (inv_registry s Hi _ _ Er) as [e' He]. rewrite He. intros [= <- <- <-].
    destruct (inv_heap s Hi _ _ He) as (h & Hh & Hinv). rewrite Hh. split_and!; try done; [|by left].
    symmetry. by apply insert_id.
  - intros [= <- <- <-]. split_and!; try done; [| |by right].
    + split; [apply SSorted_nil|by apply Forall_nil|done|done|by exists []].
    + destruct (bumped_at s !! next s) as [h|] eqn:E; [|done].
      destruct (Nat.lt_irrefl (next s)). apply (inv_next s Hi). by rewrite E.
Qed.

(** No other session has the entry of [sid]. *)
Lemma other_entry s sid trigger l e reg sid' l' : inv s → entry_for s sid trigger = (l, e, reg) →
  registry s !! sid' = Some l' → sid' ≠ sid → l' ≠ l.
Proof.
  intros Hi He Hr Hne ->. destruct (entry_for_spec _ _ _ _ _ _ Hi He) as (_ & _ & _ & _ & [Hl|[_ ->]]).
  - by apply Hne, (inv_inj s Hi _ _ l).
  - destruct (inv_registry s Hi _ _ Hr) as [e' He']. destruct (inv_heap s Hi _ _ He') as (h & Hh & _).
    destruct (Nat.lt_irrefl (next s)). apply (inv_next s Hi). by rewrite Hh.
Qed.

(** An object is replaced by one whose epoch is not lower. *)
Lemma waiting_insert hp l e w : (∀ e0, hp !! l = Some e0 → epoch e0 <= epoch e) →
  waiting_ok hp w → waiting_ok (<[l := e]> hp) w.
Proof.
  intros He. destruct w as [l' p|l' n]; simpl.
  - intros (e0 & H0 & Hp). destruct (decide (l' = l)) as [->|Hne].
    + exists e. rewrite lookup_insert_eq. split; [done|]. specialize (He _ H0). lia.
    + exists e0. by rewrite lookup_insert_ne.
  - intros H0. destruct (decide (l' = l)) as [->|Hne]; [by rewrite lookup_insert_eq|by rewrite lookup_insert_ne].
Qed.

(** The state after a bump, refused or not. *)
Lemma inv_replace s sid trigger l e reg now e' h' id w evs :
  inv s → entry_for s sid trigger = (l, e, reg) → clock s <= now → entry_inv now e' h' → epoch e <= epoch e' →
  waiting_ok (<[l := e']> (heap s)) w →
  inv (mkState (<[l := e']> (heap s)) reg (<[id := w]> (calls s)) evs now (<[l := h']> (bumped_at s))
    (Nat.max (next s) (S l))).
Proof.
  intros Hi Hfor Hle Hinv Hep Hw. pose proof (entry_for_spec _ _ _ _ _ _ Hi Hfor) as (-> & _ & _ & He & Hl).
  split; simpl.
  - intros l1 e1 H1. destruct (decide (l1 = l)) as [->|Hne].
    + rewrite lookup_insert_eq in H1. rewrite lookup_insert_eq. simplify_eq. by exists h'.
    + rewrite lookup_insert_ne in H1 by done. rewrite lookup_insert_ne by done. destruct (inv_heap s Hi _ _ H1) as (h & Hh & Hin). exists h.
      split; [done|]. by apply (entry_later (clock s)).
  - intros l1 H1. destruct (decide (l1 = l)) as [->|Hne]; [lia|]. rewrite lookup_insert_ne in H1 by done.
    apply (inv_next s Hi) in H1. lia.
  - intros sid1 l1 H1. destruct (decide (l1 = l)) as [->|Hne]; [by rewrite lookup_insert_eq|].
    rewrite lookup_insert_ne by done. destruct (decide (sid1 = sid)) as [->|Hs].
    + rewrite lookup_insert_eq in H1. by simplify_eq.
    + rewrite lookup_insert_ne in H1 by done. by apply (inv_registry s Hi sid1).
  - assert (Hother : ∀ sid', sid' ≠ sid → <[sid := l]> (registry s) !! sid' ≠ Some l).
    { intros sid' Hne H'. rewrite lookup_insert_ne in H' by done. by apply (other_entry _ _ _ _ _ _ _ _ Hi Hfor H'). }
    intros sid1 sid2 l1 H1 H2. destruct (decide (sid1 = sid)) as [->|Hs1], (decide (sid2 = sid)) as [->|Hs2]; [done| | |].
    + rewrite lookup_insert_eq in H1. simplify_eq. by destruct (Hother sid2).
    + rewrite lookup_insert_eq in H2. simplify_eq. by destruct (Hother sid1).
    + rewrite lookup_insert_ne in H1 by done. rewrite lookup_insert_ne in H2 by done. by eapply (inv_inj s Hi).
  - apply map_Forall_insert_2; [done|]. intros id' w' Hw'. apply waiting_insert; [|by apply (inv_calls s Hi id')].
    intros e0 H0. destruct Hl as [Hl|[_ ->]].
    + unfold current in He. rewrite Hl, H0 in He. lia.
    + destruct (inv_heap s Hi _ _ H0) as (h & Hh & _). destruct (Nat.lt_irrefl (next s)).
      apply (inv_next s Hi). by rewrite Hh.
Qed.

Lemma inv_bump id sid trigger now s : inv s → clock s <= now → inv (start_bump id sid trigger now s).
Proof.
  intros Hi Hle. unfold start_bump. destruct (entry_for s sid trigger) as [[l e] reg] eqn:Hfor.
  destruct (entry_for_spec _ _ _ _ _ _ Hi Hfor) as (_ & Hin & Hd & _).
  destruct (prune_recent _ now _ _ Hle Hin) as [Hw Hin']. rewrite Hd.
  destruct (Nat.leb_spec RATE_LIMIT_MAX (length (windowBumps (pruneWindow e now)))) as [_|Hlt].
  - eapply inv_replace; [done..| |simpl; by rewrite lookup_insert_eq]. simpl. lia.
  - eapply inv_replace; [done|exact Hfor|done| |simpl; lia|].
    + destruct Hin' as [Hs Hp Hsp He (dr & Hdr & Hf)]. rewrite Hw in Hlt. split; simpl.
      * by apply sorted_snoc.
      * apply Forall_app. split; [done|by repeat constructor].
      * by apply spaced_snoc.
      * rewrite length_app. simpl in *. lia.
      * exists dr. simpl in Hdr. split; [|done]. by rewrite app_assoc, <- Hdr.
    + simpl. eexists. rewrite lookup_insert_eq. split; [done|]. simpl. lia.
Qed.

Lemma epoch_step a s s' : inv s → step a s = Some s' → inv s'.
Proof.
  intros Hi. destruct a as [id sid trigger now|id|sid]; simpl.
  - destruct (decide _) as [[Hle _]|]; [|done]. intros [= <-]. by apply inv_bump.
  - destruct (calls s !! id); [|done]. intros [= <-]. destruct Hi as [Hh Hn Hr Hj Hc]. split; simpl; try done.
    by apply map_Forall_delete.
  - intros [= <-]. destruct Hi as [Hh Hn Hr Hj Hc]. split; simpl; try done.
    + intros sid' l [_ H]%lookup_delete_Some. by apply (Hr sid').
    + intros sid1 sid2 l [_ H1]%lookup_delete_Some [_ H2]%lookup_delete_Some. by apply (Hj sid1 sid2 l).
Qed.

Lemma epoch_reachable t s : reachable step (initial_state t) s → inv s.
Proof. apply reachable_ind_inv; [apply epoch_initial|]. eauto using epoch_step. Qed.

(** ** Properties *)

(** What a bump does to the bumps of the sessions. *)
Lemma bump_effect id sid trigger now s : inv s → clock s <= now →
  let s' := start_bump id sid trigger now s in
  bumps_of s' sid = (if Nat.leb RATE_LIMIT_MAX (length (recent (now - RATE_LIMIT_WINDOW_MS) (bumps_of s sid)))
                     then bumps_of s sid else bumps_of s sid ++ [now]) ∧
  ∀ sid', sid' ≠ sid → bumps_of s' sid' = bumps_of s sid'.
Proof.
  intros Hi Hle. unfold start_bump. destruct (entry_for s sid trigger) as [[l e] reg] eqn:Hfor.
  destruct (entry_for_spec _ _ _ _ _ _ Hi Hfor) as (-> & Hin & Hd & _).
  destruct (prune_recent _ now _ _ Hle Hin) as [Hw _]. rewrite Hd, <- Hw.
  destruct (Nat.leb _ _); cbv zeta; unfold bumps_of at 1; simpl registry; simpl bumped_at;
    rewrite lookup_insert_eq, lookup_insert_eq; (split; [done|]); intros sid' Hne; unfold bumps_of; simpl;
    rewrite lookup_insert_ne by done; destruct (registry s !! sid') as [l'|] eqn:Hr; try done;
    by rewrite (lookup_insert_ne _ l l') by (symmetry; eapply other_entry; eauto).
Qed.

(** While the clock does not run backwards, the bumps of a session number at
    most five in any second, a bump is refused exactly when five were made in
    the second before it, it concerns no other session, and the epoch of a
    session is the number of its bumps. *)
Theorem rebind_limited t s : reachable step (initial_state t) s →
  (∀ sid w, (length (filter (λ x : Z, w <= x <= w + RATE_LIMIT_WINDOW_MS)%Z (bumps_of s sid)) <= RATE_LIMIT_MAX)%nat) ∧
  (∀ sid, current s sid = Z.of_nat (length (bumps_of s sid))) ∧
  ∀ id sid trigger now s', step (Bump id sid trigger now) s = Some s' →
    bumps_of s' sid = (if Nat.leb RATE_LIMIT_MAX (length (recent (now - RATE_LIMIT_WINDOW_MS) (bumps_of s sid)))
                       then bumps_of s sid else bumps_of s sid ++ [now]) ∧
    ∀ sid', sid' ≠ sid → bumps_of s' sid' = bumps_of s sid'.
Proof.
  intros Hi%epoch_reachable.
  assert (Hent : ∀ sid, bumps_of s sid = [] ∧ current s sid = 0 ∨
    ∃ e, entry_inv (clock s) e (bumps_of s sid) ∧ current s sid = epoch e).
  { intros sid. unfold bumps_of, current. destruct (registry s !! sid) as [l|] eqn:Er; [|by left].
    destruct (inv_registry s Hi _ _ Er) as [e He]. destruct (inv_heap s Hi _ _ He) as (h & Hh & Hin).
    right. exists e. by rewrite He, Hh. }
  split_and!.
  - intros sid w. destruct (Hent sid) as [[-> _]|(e & Hin & _)]; [simpl; unfold RATE_LIMIT_MAX; lia|].
    apply spaced_window; apply Hin.
  - intros sid. destruct (Hent sid) as [[-> ->]|(e & Hin & ->)]; [done|apply Hin].
  - intros id sid trigger now s'. simpl. destruct (decide _) as [[Hle _]|]; [|done]. intros [= <-].
    by apply bump_effect.
Qed.

(** The outcome of a bump: it exists, a bump that was made is at or below the
    current epoch, and a refused one tells the epoch of its return. *)
Theorem rebind_outcome t s id w : reachable step (initial_state t) s → calls s !! id = Some w →
  ∃ o, outcome_of s w = Some o ∧
    match status o with
    | Bumped => previousEpoch o + 1 <= currentEpoch o ∧ rateLimitReason o = None
    | RateLimited => previousEpoch o = currentEpoch o ∧ rateLimitReason o ≠ None
    end.
Proof.
  intros Hi%epoch_reachable Hw. apply (inv_calls s Hi) in Hw. destruct w as [l p|l n]; simpl in *.
  - destruct Hw as (e & -> & Hp). by eexists.
  - destruct Hw as [e ->]. by eexists.
Qed.

Definition bumps (n : nat) (now : Z) : list action := map (λ i, Bump i (js "s") tool_call now) (seq 0 n).

(** The sixth bump of a second is refused, the one after it is not. *)
Example six_bumps :
  (λ s, (bumps_of s (js "s"), calls s !! 5%nat ≫= outcome_of s)) <$>
    run step (bumps 6 0 ++ [Bump 6 (js "s") tool_call 1000; Bump 7 (js "s") tool_call 1001]) (initial_state 0)
  = Some ([0; 0; 0; 0; 0; 1001], Some (mkOutcome RateLimited 6 6 (Some (js "rate_limit:6/5 per 1000ms")))).
Proof. by vm_compute. Qed.

(** Two bumps that wait at the same time: the first returns the epoch of the
    second. *)
Example outcome_of_overlap :
  (λ s, (events s, calls s !! 0%nat ≫= outcome_of s)) <$>
    run step (bumps 2 0) (initial_state 0)
  = Some ([SessionRebind (js "s") tool_call 0 1; SessionRebind (js "s") tool_call 1 2],
          Some (mkOutcome Bumped 0 2 None)).
Proof. by vm_compute. Qed.

Lemma rebind_limited_witness :
  ∃ s, run step (bumps 6 0) (initial_state 0) = Some s ∧ current s (js "s") = 5 ∧
    current s (js "s") = Z.of_nat (length (bumps_of s (js "s"))).
Proof.
  exists (default (initial_state 0) (run step (bumps 6 0) (initial_state 0))).
  split; [by vm_compute|]. split; [by vm_compute|].
  refine (proj1 (proj2 (rebind_limited 0 _ _)) (js "s")).
  apply (run_reachable step (initial_state 0) (bumps 6 0) (initial_state 0)); [constructor|]. by vm_compute.
Defined.
