(* ===== verification/Todo.v ===== *)
(** * The todo list of a session ([session/todo.ts])

    Lists of todos as they are stored, the three ways in which an update meets
    the stored list, readiness, the adoption of proposals, and reconciliation
    with the outcome of a subagent.  The stored lists are a map from sessions to
    files; a call reads and writes its file in one step.  A list that is absent
    or cannot be read is empty. *)
From stdpp Require Import gmap.
From S2P Require Import Prelude JsString Wildcard.

(** ** Data *)

Inductive UpdateMode := status_update | plan_materialization | replan_adoption | working_ledger.
Inductive action_kind :=
| implement | delegate | wait | approval | decision | push | destructive | architecture_change.
Inductive risk_level := low | medium | high.
Inductive waiting := on_subagent | on_approval | on_decision | on_external.

#[export] Instance action_kind_eq : EqDecision action_kind.
Proof. solve_decision. Defined.
#[export] Instance waiting_eq : EqDecision waiting.
Proof. solve_decision. Defined.
#[export] Instance risk_eq : EqDecision risk_level.
Proof. solve_decision. Defined.

Record Action := mkAction {
  kind : action_kind;
  risk : option risk_level;
  needsApproval : option bool;
  canDelegate : option bool;
  waitingOn : option waiting;
  dependsOn : option (list jsstr)
}.
#[export] Instance Action_eq : EqDecision Action.
Proof. solve_decision. Defined.

(** The status is any text; these are the ones that are tested. *)
Definition pending : jsstr := js "pending".
Definition in_progress : jsstr := js "in_progress".
Definition completed : jsstr := js "completed".
Definition cancelled : jsstr := js "cancelled".

Record Info := mkInfo {
  content : jsstr;
  status : jsstr;
  priority : jsstr;
  id : jsstr;
  action : option Action
}.
#[export] Instance Info_eq : EqDecision Info.
Proof. solve_decision. Defined.

Definition with_status (s : jsstr) (t : Info) : Info := mkInfo (content t) s (priority t) (id t) (action t).
Definition with_action (a : option Action) (t : Info) : Info := mkInfo (content t) (status t) (priority t) (id t) a.

(** ** Enrichment *)

Definition plain (k : action_kind) : Action := mkAction k None None None None None.

Definition inferActionFromContent (t : Info) : Action :=
  let text := toLowerCase (content t) in
  let has w := includes text (js w) in
  if has "push" || has "deploy" || has "release" || has "publish" then
    mkAction push (Some high) (Some true) None None None
  else if has "delete" || has "remove" || has "drop " || has "reset" || has "destroy" then
    mkAction destructive (Some high) (Some true) None None None
  else if has "wait for" || has "blocked by" || has "waiting on" then
    if has "subagent" || has "worker" then mkAction wait None None None (Some on_subagent) None
    else if has "approval" then mkAction approval None (Some true) None (Some on_approval) None
    else if has "decision" then mkAction decision None None None (Some on_decision) None
    else mkAction wait None None None (Some on_external) None
  else if has "delegate" || has "subagent" || has "hand off" then mkAction delegate None None (Some true) None None
  else mkAction implement None None (if decide (status t = pending) then Some true else None) None None.

Definition enrich (t : Info) : Info :=
  with_action (Some (match action t with Some a => a | None => inferActionFromContent t end)) t.
Definition enrichAll (todos : list Info) : list Info := map enrich todos.

(** [replace(/\s+/g, " ")]; [run] says that the unit before was white space. *)
Fixpoint collapse (run : bool) (s : jsstr) : jsstr :=
  match s with
  | [] => []
  | c :: r => if is_space c then (if run then collapse true r else 32%N :: collapse true r) else c :: collapse false r
  end.

Definition normalizeContent (s : jsstr) : jsstr := collapse false (toLowerCase (trim s)).

(** ** Meeting the stored list *)

(** [new Map(todos.map((todo) => [key(todo), todo])).get(k)]. *)
Definition by_key (key : Info → jsstr) (todos : list Info) (k : jsstr) : option Info :=
  findLast (λ t, bool_decide (key t = k)) todos.

Definition content_key (t : Info) : jsstr := normalizeContent (content t).

(** The stored todo that an incoming one continues. *)
Definition previous_of (current : list Info) (t : Info) : option Info :=
  some_or (by_key id current (id t)) (by_key content_key current (content_key t)).

Definition is_terminal (t : Info) : bool := bool_decide (status t = completed ∨ status t = cancelled).

(** The incoming todo with the progress of the stored one. *)
Definition keep_progress (s : jsstr) (previous t : Info) : Info :=
  with_action (some_or (action previous) (action t)) (with_status s t).

Definition mergePreservingProgress (current incoming : list Info) : list Info :=
  match current, incoming with
  | [], _ => enrichAll incoming
  | _, [] => []
  | _, _ =>
      let enrichedCurrent := enrichAll current in
      let enrichedIncoming := enrichAll incoming in
      if forallb (λ t, bool_decide (previous_of enrichedCurrent t = None)) enrichedIncoming then enrichedIncoming
      else map (λ t,
        match previous_of enrichedCurrent t with
        | None => t
        | Some previous =>
            if is_terminal previous then keep_progress (status previous) previous t
            else if decide (status previous = in_progress ∧ status t = pending) then keep_progress in_progress previous t
            else t
        end) enrichedIncoming
  end.

Definition projectProgressOntoSeed (current seed : list Info) : list Info :=
  match current, seed with
  | _, [] => []
  | [], _ => enrichAll seed
  | _, _ =>
      let enrichedCurrent := enrichAll current in
      map (λ t,
        match previous_of enrichedCurrent t with
        | None => t
        | Some previous =>
            if is_terminal previous then keep_progress (status previous) previous t
            else if decide (status previous = in_progress) then keep_progress in_progress previous t
            else keep_progress (status t) previous t
        end) (enrichAll seed)
  end.

Definition projectSeedWithProgress := projectProgressOntoSeed.

Definition applyStatusOnlyUpdate (current incoming : list Info) : list Info :=
  let enrichedIncoming := enrichAll incoming in
  map (λ t,
    match find (λ c, bool_decide (id c = id t) || bool_decide (content_key c = content_key t)) enrichedIncoming with
    | None => t
    | Some c => mkInfo (content t) (status c) (priority c) (id t) (some_or (action c) (action t))
    end) (enrichAll current).

(** The string order of [sort()]. *)
Definition string_cmp (a b : jsstr) : Z := match str_compare a b with Lt => -1 | Eq => 0 | Gt => 1 end.

Definition signature (todos : list Info) : jsstr :=
  join (js "||") (sort_by string_cmp (map (λ t, id t ++ js "::" ++ content_key t) todos)).
Definition sameStructure (a b : list Info) : bool := bool_decide (signature a = signature b).

(** ** What is next *)

Definition isDependencyReady (t : Info) (todos : list Info) : bool :=
  match action t with
  | Some (mkAction _ _ _ _ _ (Some deps)) =>
      forallb (λ d, match find (λ c, bool_decide (id c = d)) todos with
                    | Some c => bool_decide (status c = completed)
                    | None => false
                    end) deps
  | _ => true
  end.

Definition ready (todos : list Info) (t : Info) : bool :=
  bool_decide (status t = pending) && isDependencyReady t todos.

Definition nextActionableTodo (todos : list Info) : option Info :=
  some_or (find (λ t, bool_decide (status t = in_progress)) todos) (find (ready todos) todos).

(** ** Proposals *)

Record policy := mkPolicy {
  adoptionMode : option jsstr; requiresUserConfirm : option bool; requiresHostReview : option bool }.
Record proposal := mkProposal {
  targetTodoID : option jsstr; proposedAction : option jsstr; p_policy : option policy }.

Inductive reason :=
| missing_target | unsupported_action | policy_not_host_adoptable | user_confirm_required | host_review_missing
| active_todo_in_progress | target_not_pending | dependencies_not_ready | approval_gate | waiting_gate
| unsupported_todo_kind | target_not_active.

(** The adopted todo, or why there is none; and the list. *)
Definition adoption : Type := (jsstr + reason) * list Info.

(** Checks of the proposal that both adoptions start with; the target. *)
Definition check_proposal (wanted : string) (p : option proposal) : jsstr + reason :=
  match p with
  | None | Some (mkProposal None _ _) | Some (mkProposal (Some []) _ _) => inr missing_target
  | Some (mkProposal (Some target) act pol) =>
      if negb (bool_decide (act = Some (js wanted))) then inr unsupported_action
      else if negb (bool_decide ((pol ≫= adoptionMode) = Some (js "host_adoptable"))) then inr policy_not_host_adoptable
      else if bool_decide ((pol ≫= requiresUserConfirm) = Some true) then inr user_confirm_required
      else if bool_decide ((pol ≫= requiresHostReview) = Some false) then inr host_review_missing
      else inl target
  end.

Definition set_status (target s : jsstr) (todos : list Info) : list Info :=
  map (λ t, if decide (id t = target) then with_status s t else t) todos.

Definition gated (t : Info) : bool := bool_decide ((action t ≫= needsApproval) = Some true).
Definition waits (t : Info) : bool := match action t ≫= waitingOn with Some _ => true | None => false end.

Definition applyHostAdoptedReplan (todos : list Info) (p : option proposal) : adoption :=
  match check_proposal "replan_todos" p with
  | inr r => (inr r, todos)
  | inl target =>
      if existsb (λ t, bool_decide (status t = in_progress)) todos then (inr active_todo_in_progress, todos)
      else
        let enriched := enrichAll todos in
        match find (λ t, bool_decide (id t = target)) enriched with
        | None => (inr target_not_pending, enriched)
        | Some t =>
            if negb (bool_decide (status t = pending)) then (inr target_not_pending, enriched)
            else if negb (isDependencyReady t enriched) then (inr dependencies_not_ready, enriched)
            else if gated t then (inr approval_gate, enriched)
            else if waits t then (inr waiting_gate, enriched)
            else if negb (bool_decide ((kind <$> action t) = Some implement)) then (inr unsupported_todo_kind, enriched)
            else (inl (id t), set_status (id t) in_progress enriched)
        end
  end.

Definition applyHostAdoptedCompletion (todos : list Info) (p : option proposal) : adoption :=
  match check_proposal "mark_todo_complete" p with
  | inr r => (inr r, todos)
  | inl target =>
      let enriched := enrichAll todos in
      match find (λ t, bool_decide (id t = target)) enriched with
      | None => (inr missing_target, enriched)
      | Some t =>
          if is_terminal t then (inr target_not_active, enriched)
          else if gated t then (inr approval_gate, enriched)
          else if waits t then (inr waiting_gate, enriched)
          else match nextActionableTodo enriched with
               | None => (inr target_not_active, enriched)
               | Some current =>
                   if decide (id current = id t) then (inl (id t), set_status (id t) completed enriched)
                   else (inr target_not_active, enriched)
               end
      end
  end.

(** ** The stored lists *)

Notation todo_store := (gmap jsstr (file (list Info))).

Definition get (sessionID : jsstr) (st : todo_store) : list Info :=
  match st !! sessionID with Some (Holds todos) => todos | _ => [] end.

Definition write (sessionID : jsstr) (todos : list Info) (st : todo_store) : todo_store :=
  <[sessionID := Holds todos]> st.

Definition updated (mode : option UpdateMode) (current todos : list Info) : list Info :=
  match default replan_adoption mode with
  | working_ledger => enrichAll todos
  | status_update => applyStatusOnlyUpdate current todos
  | plan_materialization => projectProgressOntoSeed current todos
  | replan_adoption => mergePreservingProgress current todos
  end.

Definition update (sessionID : jsstr) (todos : list Info) (mode : option UpdateMode) (st : todo_store) : todo_store :=
  write sessionID (updated mode (get sessionID st) todos) st.

Definition derived (t : Info) : bool := startsWith (id t) (js "freerun:").

Definition setDerived (sessionID : jsstr) (todos : list Info) (st : todo_store) : todo_store * list Info :=
  let preserved := filter (λ t, derived t = false) (get sessionID st) in
  let todos' := enrichAll (preserved ++ todos) in
  (write sessionID todos' st, todos').

(** ** Reconciliation *)

Inductive task_status := task_returned | task_completed | task_error.

(** The action without its wait for a subagent. *)
Definition stop_waiting (a : option Action) : option Action :=
  match a with
  | Some (mkAction k r n c (Some on_subagent) d) => Some (mkAction k r n c None d)
  | _ => a
  end.

(** The action that waits for a subagent. *)
Definition start_waiting (a : option Action) : option Action :=
  match a with
  | Some (mkAction k r n c w d) => Some (mkAction k r n c (Some on_subagent) d)
  | None => Some (mkAction wait None None None (Some on_subagent) None)
  end.

Definition activate (t : Info) : Info := if decide (status t = pending) then with_status in_progress t else t.

Definition reconcile_one (ts : task_status) (t : Info) : Info :=
  match ts with
  | task_returned => with_action (stop_waiting (action t)) (activate t)
  | task_completed => with_action (stop_waiting (action t)) (with_status completed t)
  | task_error => with_action (start_waiting (action t)) (activate t)
  end.

(** The linked todo; the empty text links none. *)
Definition is_linked (linked : option jsstr) (t : Info) : bool :=
  match linked with Some (c :: l) => bool_decide (id t = c :: l) | _ => false end.

(** The first todo with an identifier is activated. *)
Fixpoint activate_first (target : jsstr) (todos : list Info) : list Info :=
  match todos with
  | [] => []
  | t :: rest => if decide (id t = target) then with_status in_progress t :: rest else t :: activate_first target rest
  end.

(** The list that [reconcileProgress] computes, when it does not stop early. *)
Definition reconciled (linked : option jsstr) (ts : task_status) (current : list Info) : list Info :=
  let todos := enrichAll (map (λ t, if is_linked linked t then reconcile_one ts t else t) current) in
  match ts with
  | task_completed =>
      if existsb (λ t, bool_decide (status t = in_progress)) todos then todos
      else match nextActionableTodo todos with
           | Some next => if decide (status next = pending) then activate_first (id next) todos else todos
           | None => todos
           end
  | _ => todos
  end.

Definition reconcileProgress (sessionID : jsstr) (linked : option jsstr) (ts : task_status) (st : todo_store) :
    todo_store * list Info :=
  let current := get sessionID st in
  match current with
  | [] => (st, current)
  | _ =>
      if match ts with task_completed => true | _ => false end &&
         match find (is_linked linked) current with Some t => is_terminal t | None => false end
      then (st, current)
      else
        let todos := reconciled linked ts current in
        (update sessionID todos (Some status_update) st, todos)
  end.

(** ** Examples *)

Definition todo (i c s : string) : Info := mkInfo (js c) (js s) (js "medium") (js i) None.

Example completion_starts_next :
  let st : todo_store := write (js "s") [todo "1" "a" "in_progress"; todo "2" "b" "pending"] ∅ in
  map status (get (js "s") (reconcileProgress (js "s") (Some (js "1")) task_completed st).1) = [completed; in_progress].
Proof. by vm_compute. Qed.

(** Todos with the same text: the stored list takes the status of the first for
    both, and differs from the list that is returned. *)
Example same_text_completed :
  let st : todo_store := write (js "s") [todo "1" "Run tests" "in_progress"; todo "2" "run  tests" "pending"] ∅ in
  let '(st', todos) := reconcileProgress (js "s") (Some (js "1")) task_completed st in
  (map status todos, map status (get (js "s") st')) = ([completed; in_progress], [completed; completed]).
Proof. by vm_compute. Qed.

(** A dependency on a todo that is not listed is never met. *)
Example unknown_dependency :
  nextActionableTodo [mkInfo (js "a") pending (js "medium") (js "1")
    (Some (mkAction implement None None None None (Some [js "gone"])))] = None.
Proof. by vm_compute. Qed.

(** A list that cannot be read is replaced. *)
Example unreadable_replaced :
  let st : todo_store := {[js "s" := Unreadable]} in
  get (js "s") (update (js "s") [todo "1" "a" "pending"] None st) = [enrich (todo "1" "a" "pending")].
Proof. by vm_compute. Qed.

(** ** Lemmas *)

Lemma enrich_id t : is_Some (action t) → enrich t = t.
Proof. intros [a Ha]. destruct t. simpl in *. by subst. Qed.

Lemma enrichAll_done todos : Forall (λ t, is_Some (action t)) todos → enrichAll todos = todos.
Proof. induction 1 as [|t todos Ht _ IH]; simpl; [done|]. by rewrite enrich_id, IH. Qed.

Lemma enrichAll_actions todos : Forall (λ t, is_Some (action t)) (enrichAll todos).
Proof. induction todos; simpl; constructor; [by eexists|done]. Qed.

(** The part of a todo that progress does not touch. *)
Definition same_todo (a b : Info) : Prop := id a = id b ∧ content a = content b ∧ priority a = priority b.

#[export] Instance same_todo_equiv : Equivalence same_todo.
Proof. split; unfold same_todo; red; naive_solver congruence. Qed.

Lemma same_todo_enrich t : same_todo (enrich t) t.
Proof. done. Qed.

Lemma same_todo_map (f : Info → Info) todos : (∀ t, same_todo t (f t)) → Forall2 same_todo todos (map f todos).
Proof. intros Hf. induction todos; simpl; constructor; done. Qed.

Lemma find_unique {A} (p : A → bool) xs x :
  x ∈ xs → p x = true → (∀ y, y ∈ xs → p y = true → y = x) → find p xs = Some x.
Proof.
  intros Hx Hp Hu. destruct (find p xs) as [y|] eqn:E.
  - apply find_Some in E as [Hy Hin]. f_equal. by apply Hu.
  - rewrite (find_None p xs) in E. by rewrite E in Hp.
Qed.

Lemma nodup_map_inj {A B} (f : A → B) xs x y : NoDup (map f xs) → x ∈ xs → y ∈ xs → f x = f y → x = y.
Proof.
  induction xs as [|z xs IH]; simpl; [by intros _ H%not_elem_of_nil|].
  intros [Hz Hn]%NoDup_cons [->|Hx]%elem_of_cons [->|Hy]%elem_of_cons E; try done.
  - destruct Hz. rewrite E. by apply list_elem_of_fmap_2.
  - destruct Hz. rewrite <- E. by apply list_elem_of_fmap_2.
  - by apply IH.
Qed.

(** Todos that can be told apart by their identifiers and by their texts. *)
Definition distinct (todos : list Info) : Prop := NoDup (map id todos) ∧ NoDup (map content_key todos).

Lemma same_todo_keys a b : Forall2 same_todo a b → map id a = map id b ∧ map content_key a = map content_key b.
Proof.
  induction 1 as [|x y a b (Hi & Hc & _) _ [IHi IHc]]; simpl; [done|]. unfold content_key at 1 3.
  rewrite Hi, Hc, IHi, IHc. done.
Qed.

Lemma map_matches {A B} (R : A → B → Prop) (P : B → Prop) (f : A → B) xs ys :
  Forall2 R xs ys → Forall P ys → (∀ x y, R x y → P y → f x = y) → map f xs = ys.
Proof.
  intros HR HP Hf. induction HR as [|x y xs ys Hxy _ IH]; simpl; [done|].
  inversion HP; subst. by rewrite (Hf x y), IH.
Qed.

(** A status update with the list itself changes nothing more. *)
Lemma status_only_fixed current todos : Forall2 same_todo current todos → distinct todos →
  Forall (λ t, is_Some (action t)) todos → applyStatusOnlyUpdate current todos = todos.
Proof.
  intros Hsame [Hid Hkey] Hact. unfold applyStatusOnlyUpdate. rewrite (enrichAll_done todos) by done.
  assert (H : ∀ t, t ∈ todos → ∀ c, same_todo c t →
    find (λ c', bool_decide (id c' = id (enrich c)) || bool_decide (content_key c' = content_key (enrich c))) todos = Some t).
  { intros t Ht c (Hi & Hc & _). apply find_unique; [done| |].
    - apply orb_true_iff. left. apply bool_decide_eq_true. symmetry. exact Hi.
    - intros y Hy [E|E]%orb_true_iff; apply bool_decide_eq_true in E.
      + apply (nodup_map_inj id todos); [done..|]. by rewrite E.
      + apply (nodup_map_inj content_key todos); [done..|]. rewrite E. unfold content_key. simpl. by rewrite Hc. }
  unfold enrichAll. rewrite map_map.
  apply (map_matches same_todo (λ t, t ∈ todos ∧ is_Some (action t))); [done| |].
  - apply Forall_forall. intros t Ht. split; [done|]. rewrite Forall_forall in Hact. by apply Hact.
  - intros c t Hct [Ht [a Ha]]. rewrite (H t Ht c Hct). destruct Hct as (Hi & Hc & Hp).
    destruct t. simpl in *. subst. done.
Qed.

(** ** Progress is kept *)

Lemma previous_of_key current t t' : id t = id t' → content t = content t' → previous_of current t = previous_of current t'.
Proof. unfold previous_of, content_key. by intros -> ->. Qed.

(** What both merges do with one todo. *)
Definition merged_with (previous t t' : Info) : Prop :=
  same_todo t t' ∧ (is_terminal previous = true → status t' = status previous) ∧
  (status previous = in_progress → status t' ≠ pending) ∧
  (is_terminal previous = false → status previous ≠ in_progress → status t' = status t).

(** An adopted plan, or a plan made from a seed, keeps the identity and the
    order of its todos; one that continues a stored todo, by its identifier or
    by its text, is done if that was done and does not fall back to pending;
    and a todo that continues none is as it came. *)
Theorem todo_progress_kept mode current incoming :
  mode = None ∨ mode = Some replan_adoption ∨ mode = Some plan_materialization →
  Forall2 (λ t t', match previous_of (enrichAll current) t with
                   | Some previous => merged_with previous t t'
                   | None => t' = t
                   end) (enrichAll incoming) (updated mode current incoming).
Proof.
  assert (Hterm : ∀ p, is_terminal p = true → status p ≠ in_progress ∧ status p ≠ pending).
  { intros p Hp. unfold is_terminal in Hp. apply bool_decide_eq_true in Hp as [-> | ->]; done. }
  assert (Hip : in_progress ≠ pending) by done.
  assert (Hempty : ∀ l : list Info, Forall2 (λ t t', match previous_of (enrichAll []) t with
    | Some previous => merged_with previous t t' | None => t' = t end) l l).
  { intros l. induction l; by constructor. }
  assert (Hself : ∀ p t, is_terminal p = false → status p ≠ in_progress → merged_with p t t).
  { intros p t Hp Hn. split; [done|]. split; [congruence|]. done. }
  assert (Hkeep : ∀ p t s, (is_terminal p = true → s = status p) → (status p = in_progress → s ≠ pending) →
    (is_terminal p = false → status p ≠ in_progress → s = status t) → merged_with p t (keep_progress s p t)).
  { intros p t s H1 H2 H3. by split. }
  intros Hmode. assert (Hor : updated mode current incoming = mergePreservingProgress current incoming ∨
    updated mode current incoming = projectProgressOntoSeed current incoming).
  { destruct Hmode as [->|[->| ->]]; [by left|by left|by right]. }
  destruct Hor as [-> | ->].
  - unfold mergePreservingProgress. destruct current as [|c0 cs]; [apply Hempty|].
    destruct incoming as [|t0 ts]; [constructor|]. set (cur := enrichAll (c0 :: cs)). set (inc := enrichAll (t0 :: ts)).
    destruct (forallb _ inc) eqn:Ef.
    + rewrite forallb_forall in Ef. clearbody inc. induction inc as [|t l IH]; constructor.
      * pose proof (Ef t (or_introl eq_refl)) as Et. apply bool_decide_eq_true in Et. by rewrite Et.
      * apply IH. intros x Hx. apply Ef. by right.
    + clear Ef. clearbody inc. induction inc as [|t l IH]; simpl; constructor; [|exact IH].
      destruct (previous_of cur t) as [p|]; [|done]. destruct (is_terminal p) eqn:Ep.
      * apply Hkeep; [done| |congruence]. intros E. by destruct (Hterm p Ep).
      * case_decide as Hd; [apply Hkeep; [congruence|done|naive_solver]|].
        split; [done|]. split; [congruence|]. split; [naive_solver|done].
  - unfold projectProgressOntoSeed. destruct incoming as [|t0 ts]; [destruct current; constructor|].
    destruct current as [|c0 cs]; [apply Hempty|].
    set (cur := enrichAll (c0 :: cs)). set (inc := enrichAll (t0 :: ts)). clearbody inc.
    induction inc as [|t l IH]; simpl; constructor; [|exact IH].
    destruct (previous_of cur t) as [p|]; [|done]. destruct (is_terminal p) eqn:Ep.
    + apply Hkeep; [done| |congruence]. intros E. by destruct (Hterm p Ep).
    + case_decide as Hd; apply Hkeep; try congruence; done.
Qed.

(** ** Reconciliation keeps the list and moves on *)

Lemma distinct_same a b : Forall2 same_todo a b → distinct a → distinct b.
Proof. intros Hs [Hi Hk]. destruct (same_todo_keys _ _ Hs) as [E1 E2]. split; congruence. Qed.

Lemma activate_first_same target todos : Forall2 same_todo todos (activate_first target todos).
Proof. induction todos as [|t todos IH]; simpl; [done|]. case_decide; constructor; done. Qed.

Lemma activate_first_actions target todos :
  Forall (λ t, is_Some (action t)) todos → Forall (λ t, is_Some (action t)) (activate_first target todos).
Proof. induction 1 as [|t todos Ht Hts IH]; simpl; [done|]. case_decide; by constructor. Qed.

Lemma find_activate d target todos :
  find (λ c, bool_decide (id c = d)) (activate_first target todos)
  = (λ t, if decide (d = target) then with_status in_progress t else t) <$> find (λ c, bool_decide (id c = d)) todos.
Proof.
  induction todos as [|t todos IH]; simpl; [done|]. destruct (decide (id t = target)) as [Ht|Ht]; simpl.
  - case_bool_decide as Hd; simpl in Hd; [simpl; by rewrite decide_True by congruence|].
    destruct (find _ todos); simpl; [|done]. by rewrite decide_False by congruence.
  - case_bool_decide as Hd; simpl in Hd; [simpl; by rewrite decide_False by congruence|exact IH].
Qed.

(** The activated todo: it was ready, and its dependencies are still met. *)
Lemma activate_first_lookup target todos i c t : NoDup (map id todos) →
  todos !! i = Some c → activate_first target todos !! i = Some t →
  (id c = target ∧ t = with_status in_progress c) ∨ (id c ≠ target ∧ t = c).
Proof.
  revert i. induction todos as [|x todos IH]; intros i Hn Hc Ht; simpl in *; [done|].
  apply NoDup_cons in Hn as [Hx Hn]. destruct (decide (id x = target)) as [E|E], i as [|i]; simpl in *; simplify_eq.
  - by left.
  - right. split; [|done]. intros E. apply Hx. rewrite <- E. apply list_elem_of_fmap_2. by eapply list_elem_of_lookup_2.
  - by right.
  - by apply (IH i).
Qed.

Lemma ready_after_activation target todos t :
  (∀ c, c ∈ todos → id c = target → status c ≠ completed) → isDependencyReady t todos = true →
  isDependencyReady (with_status in_progress t) (activate_first target todos) = true.
Proof.
  intros Hp. unfold isDependencyReady. simpl. destruct (action t) as [[? ? ? ? ? [deps|]]|]; try done.
  rewrite !forallb_forall. intros H d Hd. specialize (H d Hd). rewrite find_activate.
  destruct (find _ todos) as [c|] eqn:E; [|done]. simpl.
  destruct (decide (d = target)) as [Hdt|Hdt]; [|exact H]. exfalso. apply find_Some in E as [Ec Hin]. simpl in H. bool_to_prop. apply (Hp c Hin); congruence.
Qed.

Section Reconcile.
Context (l : jsstr) (ts : task_status) (current : list Info).
Context (Hl : l ≠ []) (Hdist : distinct current).

Definition base : list Info := enrichAll (map (λ t, if is_linked (Some l) t then reconcile_one ts t else t) current).

Lemma is_linked_id t : is_linked (Some l) t = true ↔ id t = l.
Proof. destruct l; [done|]. simpl. apply bool_decide_eq_true. Qed.

Lemma base_same : Forall2 same_todo current base.
Proof.
  unfold base, enrichAll. rewrite map_map. apply same_todo_map. intros t.
  destruct (is_linked _ t); [|done].
  assert (H : same_todo t (activate t)) by (unfold activate; by destruct (decide _)). by destruct ts.
Qed.

Lemma base_lookup i c t : current !! i = Some c → base !! i = Some t → id c ≠ l → status t = status c.
Proof.
  unfold base, enrichAll. rewrite map_map. intros Hc Ht Hne. rewrite list_lookup_fmap, Hc in Ht.
  cbn -[is_linked] in Ht. destruct (is_linked (Some l) c) eqn:E; [by apply is_linked_id in E|]. by injection Ht as <-.
Qed.

Lemma reconciled_cases : reconciled (Some l) ts current = base ∨
  ∃ next, ts = task_completed ∧ next ∈ base ∧ ready base next = true ∧
    reconciled (Some l) ts current = activate_first (id next) base.
Proof.
  unfold reconciled. fold base. destruct ts; [by left| |by left].
  destruct (existsb _ base) eqn:Ex; [by left|]. destruct (nextActionableTodo base) as [next|] eqn:En; [|by left].
  case_decide as Hp; [|by left]. right. exists next. split; [done|].
  unfold nextActionableTodo in En. destruct (find _ base) as [x|] eqn:Ef; simpl in En.
  - exfalso. apply find_Some in Ef as [Hx Hin]. apply not_true_iff_false in Ex. apply Ex.
    apply existsb_exists. exists x. by rewrite <- list_elem_of_In.
  - by apply find_Some in En as [? ?].
Qed.

Lemma reconciled_same : Forall2 same_todo current (reconciled (Some l) ts current).
Proof.
  destruct reconciled_cases as [->|(next & _ & _ & _ & ->)]; [apply base_same|].
  etransitivity; [apply base_same|apply activate_first_same].
Qed.

Lemma reconciled_actions : Forall (λ t, is_Some (action t)) (reconciled (Some l) ts current).
Proof.
  destruct reconciled_cases as [->|(next & _ & _ & _ & ->)]; [|apply activate_first_actions]; apply enrichAll_actions.
Qed.

(** A completed outcome leaves something in progress, or nothing ready. *)
Lemma reconciled_moves : ts = task_completed → let todos := reconciled (Some l) ts current in
  (∃ t, t ∈ todos ∧ status t = in_progress) ∨ ∀ t, t ∈ todos → ready todos t = false.
Proof.
  unfold reconciled. fold base. generalize base. intros b Hts. rewrite Hts. cbv zeta. destruct (existsb _ b) eqn:Ex.
  - left. apply existsb_exists in Ex as (t & Hin & Ht). exists t. rewrite list_elem_of_In. split; [done|]. by bool_to_prop.
  - assert (Hno : find (λ t, bool_decide (status t = in_progress)) b = None).
    { apply find_None. intros x Hx. apply not_true_iff_false. intros H. apply not_true_iff_false in Ex. apply Ex.
      apply existsb_exists. exists x. by rewrite <- list_elem_of_In. }
    unfold nextActionableTodo. rewrite Hno. simpl. destruct (find (ready b) b) as [next|] eqn:En.
    + apply find_Some in En as [Hr Hin]. unfold ready in Hr. apply andb_true_iff in Hr as [Hp _]. bool_to_prop.
      rewrite decide_True by done. left. clear - Hin. induction b as [|x b IH]; [no_member|]. simpl.
      case_decide as E; [exists (with_status in_progress x); split; [by left|done]|].
      apply elem_of_cons in Hin as [->|Hin]; [done|]. destruct (IH Hin) as (t & Ht & Hs). exists t. split; [by right|done].
    + right. intros t Ht. by apply (proj1 (find_None _ _) En).
Qed.
End Reconcile.

Lemma base_linked l current t0 : l ≠ [] → t0 ∈ current → id t0 = l →
  ∃ t, t ∈ base l task_completed current ∧ id t = l ∧ status t = completed.
Proof.
  intros Hl Hin Hid. exists (enrich (reconcile_one task_completed t0)).
  split; [|done]. unfold base, enrichAll. rewrite map_map. apply list_elem_of_fmap. exists t0. split; [|done].
  cbn -[is_linked]. apply (is_linked_id l) in Hid; [|done]. by rewrite Hid.
Qed.

Lemma get_write sessionID todos st : get sessionID (write sessionID todos st) = todos.
Proof. unfold get, write. by rewrite lookup_insert_eq. Qed.

(** C16. When todos can be told apart by identifier and by text and the linked
    one is not done, reconciliation stores the list that it returns and keeps
    its todos.  A completed outcome completes the linked todo, and then either
    something is in progress or nothing is ready.  Any other todo keeps its
    status, but for a pending one whose dependencies are completed and that is
    started. *)
Theorem todo_reconciled sessionID l ts st t0 :
  l ≠ [] → distinct (get sessionID st) → t0 ∈ get sessionID st → id t0 = l → is_terminal t0 = false →
  let '(st', todos) := reconcileProgress sessionID (Some l) ts st in
  get sessionID st' = todos ∧ Forall2 same_todo (get sessionID st) todos ∧
  (ts = task_completed →
    (∃ t, t ∈ todos ∧ id t = l ∧ status t = completed) ∧
    ((∃ t, t ∈ todos ∧ status t = in_progress) ∨ ∀ t, t ∈ todos → ready todos t = false)) ∧
  ∀ i c t, get sessionID st !! i = Some c → todos !! i = Some t → id c ≠ l →
    status t = status c ∨
    (ts = task_completed ∧ status c = pending ∧ status t = in_progress ∧ isDependencyReady t todos = true).
Proof.
  intros Hl Hd Hin Hid Hterm. unfold reconcileProgress. set (current := get sessionID st) in *.
  assert (Hne : current ≠ []) by (intros E; rewrite E in Hin; no_member).
  assert (Hfind : find (is_linked (Some l)) current = Some t0).
  { apply find_unique; [done|by apply is_linked_id|]. intros y Hy Hyl. apply (is_linked_id l) in Hyl; [|done].
    apply (nodup_map_inj id current); [apply Hd|done|done|congruence]. }
  rewrite Hfind, Hterm, andb_false_r. destruct current as [|c0 cs] eqn:Ec; [done|]. rewrite <- Ec in *. clear Ec c0 cs.
  pose proof (reconciled_same l ts current) as Hsame. unfold update. rewrite get_write.
  split_and!.
  - unfold updated. simpl. apply status_only_fixed; [done|by eapply distinct_same|apply reconciled_actions].
  - done.
  - intros ->. split; [|by apply reconciled_moves].
    destruct (base_linked l current t0 Hl Hin Hid) as (t & Ht & Hti & Hts).
    destruct (reconciled_cases l task_completed current) as [->|(next & _ & Hnext & Hready & ->)]; [by exists t|].
    apply list_elem_of_lookup in Ht as [i Hi]. exists t. split; [|done].
    destruct (Forall2_lookup_l _ _ _ i t (activate_first_same (id next) _) Hi) as (t' & Ht' & _).
    pose proof (distinct_same _ _ (base_same l task_completed current) Hd) as [Hn _].
    destruct (activate_first_lookup _ _ _ _ _ Hn Hi Ht') as [[Heq _]|[_ ->]]; [|by eapply list_elem_of_lookup_2].
    exfalso. assert (t = next) as -> by (eapply (nodup_map_inj id); eauto using list_elem_of_lookup_2).
    unfold ready in Hready. bool_to_prop. by rewrite Hts in *.
  - intros i c t Hc Ht Hcl.
    destruct (reconciled_cases l ts current) as [E|(next & -> & Hnext & Hready & E)]; rewrite E in *.
    + left. by eapply base_lookup.
    + pose proof (distinct_same _ _ (base_same l task_completed current) Hd) as [Hn _].
      destruct (Forall2_lookup_l _ _ _ i c (base_same l task_completed current) Hc) as (b & Hb & _).
      destruct (activate_first_lookup _ _ _ _ _ Hn Hb Ht) as [[Heq ->]|[_ ->]]; [right|left; by eapply base_lookup].
      assert (b = next) as -> by (eapply (nodup_map_inj id); eauto using list_elem_of_lookup_2).
      unfold ready in Hready. apply andb_true_iff in Hready as [Hp Hr]. apply bool_decide_eq_true in Hp.
      split; [done|]. split; [rewrite <- Hp; symmetry; by eapply base_lookup|]. split; [done|].
      apply ready_after_activation; [|done]. intros x Hx Hxi.
      assert (x = next) as -> by (eapply (nodup_map_inj id); eauto). by rewrite Hp.
Qed.

(** ** Adoption of proposals *)

Lemma enrichAll_same todos : Forall2 same_todo todos (enrichAll todos).
Proof. by apply same_todo_map. Qed.

Lemma enrichAll_status todos : map status (enrichAll todos) = map status todos.
Proof. unfold enrichAll. by rewrite map_map. Qed.

Lemma set_status_same target s todos : Forall2 same_todo todos (set_status target s todos).
Proof. apply same_todo_map. intros t. by case_decide. Qed.

Lemma find_set_status d target s todos :
  find (λ c, bool_decide (id c = d)) (set_status target s todos)
  = (λ t, if decide (id t = target) then with_status s t else t) <$> find (λ c, bool_decide (id c = d)) todos.
Proof.
  induction todos as [|t todos IH]; simpl; [done|].
  assert (E : id (if decide (id t = target) then with_status s t else t) = id t) by by case_decide.
  rewrite E. by case_bool_decide.
Qed.

Lemma set_status_elem target s todos t : t ∈ set_status target s todos →
  ∃ c, c ∈ todos ∧ id c = id t ∧ (id t = target → status t = s) ∧ (id t ≠ target → t = c).
Proof.
  unfold set_status. intros (c & -> & Hc)%list_elem_of_fmap. exists c. split; [done|].
  case_decide as E; simpl; naive_solver.
Qed.

(** When a proposal to replan is adopted, its target alone is in progress,
    no other status changed, the target waits for nothing and needs no approval,
    is work to be done here, and its dependencies are completed; when it is not
    adopted, no status changed. *)
Theorem replan_adoption_safe todos p : NoDup (map id todos) →
  let '(r, todos') := applyHostAdoptedReplan todos p in
  Forall2 same_todo todos todos' ∧
  match r with
  | inr _ => map status todos' = map status todos
  | inl i =>
      (∀ t, t ∈ todos' → status t = in_progress ↔ id t = i) ∧
      (∀ k c t, todos !! k = Some c → todos' !! k = Some t → id c ≠ i → status t = status c) ∧
      ∃ t, t ∈ todos' ∧ id t = i ∧ gated t = false ∧ waits t = false ∧ kind <$> action t = Some implement ∧
        isDependencyReady t todos' = true
  end.
Proof.
  intros Hn. unfold applyHostAdoptedReplan. destruct (check_proposal _ p) as [target|r]; [|by split].
  destruct (existsb _ todos) eqn:Ex; [by split|]. set (enriched := enrichAll todos).
  assert (Hno : ∀ x, x ∈ enriched → status x ≠ in_progress).
  { intros x (y & -> & Hy)%list_elem_of_fmap Hs. apply not_true_iff_false in Ex. apply Ex. apply existsb_exists.
    exists y. rewrite <- list_elem_of_In. split; [done|]. by apply bool_decide_eq_true. }
  assert (Hrefuse : ∀ r : reason, let '(r', todos') := (inr r : jsstr + reason, enriched) in
    Forall2 same_todo todos todos' ∧ match r' with inr _ => map status todos' = map status todos | inl _ => False end).
  { intros r. split; [apply enrichAll_same|apply enrichAll_status]. }
  destruct (find _ enriched) as [t|] eqn:Ef; [|apply (Hrefuse target_not_pending)].
  destruct (negb (bool_decide (status t = pending))) eqn:E1; [apply (Hrefuse target_not_pending)|].
  destruct (negb (isDependencyReady t enriched)) eqn:E2; [apply (Hrefuse target_not_pending)|].
  destruct (gated t) eqn:E3; [apply (Hrefuse target_not_pending)|].
  destruct (waits t) eqn:E4; [apply (Hrefuse target_not_pending)|].
  destruct (negb (bool_decide (kind <$> action t = Some implement))) eqn:E5; [apply (Hrefuse target_not_pending)|].
  bool_to_prop. apply find_Some in Ef as [Et Hin]. bool_to_prop.
  split; [etransitivity; [apply enrichAll_same|apply set_status_same]|]. split_and!.
  - intros x Hx. apply set_status_elem in Hx as (c & Hc & Hid & Hs & Hne).
    split; [|by auto]. intros Hst. destruct (decide (id x = id t)) as [|Hd]; [done|]. rewrite (Hne Hd) in Hst. by destruct (Hno c).
  - intros k c x Hc Hx Hne. unfold set_status, enriched, enrichAll in Hx. rewrite map_map, list_lookup_fmap, Hc in Hx.
    simpl in Hx. rewrite decide_False in Hx by done. by injection Hx as <-.
  - exists (with_status in_progress t). split_and!; try done.
    + unfold set_status. apply list_elem_of_fmap. exists t. by rewrite decide_True.
    + revert E2. unfold isDependencyReady. simpl. destruct (action t) as [[? ? ? ? ? [deps|]]|]; try done.
      rewrite !forallb_forall. intros H d Hd. specialize (H d Hd). rewrite find_set_status.
      destruct (find _ enriched) as [c|] eqn:Ed; [|done]. simpl. destruct (decide (id c = id t)) as [Hc|]; [|exact H].
      exfalso. apply find_Some in Ed as [_ Hcin]. assert (c = t) as ->.
      { eapply (nodup_map_inj id enriched); [|done..]. destruct (same_todo_keys _ _ (enrichAll_same todos)) as [Ei _].
        unfold enriched. by rewrite <- Ei. }
      simpl in H. bool_to_prop. by rewrite E1 in H.
Qed.

(** An adopted completion completes the todo that is next, which needs no
    approval and waits for nothing; otherwise no status changed. *)
Theorem completion_adoption todos p :
  let '(r, todos') := applyHostAdoptedCompletion todos p in
  match r with
  | inr _ => map status todos' = map status todos
  | inl i =>
      todos' = set_status i completed (enrichAll todos) ∧
      (∃ t, t ∈ enrichAll todos ∧ id t = i ∧ is_terminal t = false ∧ gated t = false ∧ waits t = false) ∧
      id <$> nextActionableTodo (enrichAll todos) = Some i
  end.
Proof.
  unfold applyHostAdoptedCompletion. destruct (check_proposal _ p) as [target|r]; [|done].
  destruct (find _ (enrichAll todos)) as [t|] eqn:Ef; [|apply enrichAll_status].
  destruct (is_terminal t) eqn:E1; [apply enrichAll_status|]. destruct (gated t) eqn:E2; [apply enrichAll_status|].
  destruct (waits t) eqn:E3; [apply enrichAll_status|].
  destruct (nextActionableTodo _) as [current|]; [|apply enrichAll_status].
  case_decide as E; [|apply enrichAll_status]. apply find_Some in Ef as [_ Hin].
  split; [done|]. split; [by exists t|]. simpl. by rewrite E.
Qed.

(** Deriving the same todos again changes nothing, and other todos stay. *)
Theorem derived_idempotent sessionID todos st : Forall (λ t, derived t = true) todos →
  let '(st1, todos1) := setDerived sessionID todos st in
  todos1 = enrichAll (filter (λ t, derived t = false) (get sessionID st)) ++ enrichAll todos ∧
  (setDerived sessionID todos st1).2 = todos1.
Proof.
  intros Hd. unfold setDerived. simpl. rewrite get_write. unfold enrichAll. rewrite <- map_app. split; [done|].
  set (l := get sessionID st). rewrite !map_app, filter_app.
  assert (H1 : filter (λ t, derived t = false) (map enrich (filter (λ t, derived t = false) l))
    = map enrich (filter (λ t, derived t = false) l)).
  { apply filter_all, Forall_forall. intros x (y & -> & [Hy _]%list_elem_of_filter)%list_elem_of_fmap. exact Hy. }
  assert (H2 : filter (λ t, derived t = false) (map enrich todos) = []).
  { apply filter_none, Forall_forall. intros x (y & -> & Hy)%list_elem_of_fmap Hx. rewrite Forall_forall in Hd.
    specialize (Hd y Hy). change (derived (enrich y)) with (derived y) in Hx. congruence. }
  rewrite H1, H2, app_nil_r. f_equal. change (map enrich) with enrichAll. apply enrichAll_done, enrichAll_actions.
Qed.

(** ** Witnesses *)

Definition demo_todos : list Info := [todo "1" "write it" "in_progress"; todo "2" "test it" "pending"; todo "3" "ship it" "completed"].
Definition demo_proposal : proposal :=
  mkProposal (Some (js "2")) (Some (js "replan_todos")) (Some (mkPolicy (Some (js "host_adoptable")) None (Some true))).

Lemma todo_progress_kept_witness :
  (None : option UpdateMode) = None ∧
  map status (updated None demo_todos [todo "1" "write it" "pending"; todo "9" "Ship  it" "pending"]) = [in_progress; completed] ∧
  Forall2 (λ t t', match previous_of (enrichAll demo_todos) t with
                   | Some previous => merged_with previous t t'
                   | None => t' = t
                   end) (enrichAll [todo "1" "write it" "pending"; todo "9" "Ship  it" "pending"])
    (updated None demo_todos [todo "1" "write it" "pending"; todo "9" "Ship  it" "pending"]).
Proof.
  split; [done|]. split; [by vm_compute|].
  exact (todo_progress_kept None demo_todos [todo "1" "write it" "pending"; todo "9" "Ship  it" "pending"] (or_introl eq_refl)).
Defined.

Definition demo_store : todo_store := write (js "s") demo_todos ∅.

Lemma todo_reconciled_witness :
  let '(st', todos) := reconcileProgress (js "s") (Some (js "1")) task_completed demo_store in
  get (js "s") st' = todos ∧ map status todos = [completed; in_progress; completed].
Proof.
  pose proof (todo_reconciled (js "s") (js "1") task_completed demo_store (todo "1" "write it" "in_progress")
    ltac:(done) ltac:(unfold distinct; by_compute) ltac:(by_compute) eq_refl ltac:(by vm_compute)) as H.
  destruct (reconcileProgress (js "s") (Some (js "1")) task_completed demo_store) as [st' todos] eqn:E.
  split; [exact (proj1 H)|]. assert (Ht : todos = (reconcileProgress (js "s") (Some (js "1")) task_completed demo_store).2) by (by rewrite E).
  rewrite Ht. by vm_compute.
Defined.

Lemma replan_adoption_safe_witness :
  let '(r, todos') := applyHostAdoptedReplan (drop 1 demo_todos) (Some demo_proposal) in
  r = inl (js "2") ∧ Forall2 same_todo (drop 1 demo_todos) todos'.
Proof.
  pose proof (replan_adoption_safe (drop 1 demo_todos) (Some demo_proposal) ltac:(by_compute)) as H.
  destruct (applyHostAdoptedReplan (drop 1 demo_todos) (Some demo_proposal)) as [r todos'] eqn:E.
  split; [|exact (proj1 H)].
  assert (Hr : r = (applyHostAdoptedReplan (drop 1 demo_todos) (Some demo_proposal)).1) by (by rewrite E).
  rewrite Hr. by vm_compute.
Defined.
