(* ===== verification/ErrorClass.v ===== *)
(** * Errors of the providers ([account/rotation/error-classifier.ts])

    Which errors are rate limits, which are failures to authenticate, and what
    an error says about the reason and the time to wait.  An error is what the
    tests read of it: an object with the fields below, or something else.  The
    times are milliseconds; a time that a double cannot hold is not modelled. *)
From Stdlib Require Import Qround.
From S2P Require Import Prelude JsString JsNumber Regex RotationState Backoff.
Open Scope Z_scope.

(** A value that is a number or a text. *)
Inductive scalar := Num (q : Q) | Text (s : jsstr).
Definition is_num (n : Z) (v : option scalar) : bool :=
  match v with Some (Num q) => Qeq_bool q (inject_Z n) | _ => false end.

Record ErrorWithMetadata := mkError {
  e_status : option Z;
  e_statusCode : option Z;
  e_code : option scalar;
  e_message : option jsstr;
  e_error_type : option jsstr;
  e_retry_after_header : option scalar;
  e_retryAfter : option scalar
}.

(** [asErrorWithMetadata]: the object, when the thrown value is one. *)
Notation thrown := (option ErrorWithMetadata).

Definition num_of (z : Z) : scalar := Num (inject_Z z).
(** [status ?? statusCode ?? code]. *)
Definition status_or_code (e : ErrorWithMetadata) : option scalar :=
  some_or (num_of <$> e_status e) (some_or (num_of <$> e_statusCode e) (e_code e)).
Definition status_of (e : ErrorWithMetadata) : option Z := some_or (e_status e) (e_statusCode e).
Definition message_of (e : ErrorWithMetadata) : jsstr := default [] (e_message e).

Definition token_refresh_failed : jsstr := js "token refresh failed".
Definition rate_limit_phrases : list jsstr :=
  map js ["429"; "rate_limit_exceeded"; "rate limited"; "too many requests"]%string ++ billing_phrases.
Definition auth_phrases : list jsstr :=
  token_refresh_failed :: map js ["authentication failed"; "invalid token"; "unauthorized"]%string.

Definition isRateLimitError (t : thrown) : bool :=
  match t with
  | None => false
  | Some e =>
      let lower := toLowerCase (message_of e) in
      if includes lower token_refresh_failed then false
      else if is_num 429 (status_or_code e) then true
      else includes_any lower rate_limit_phrases
  end.

Definition isTokenInvalidated (t : thrown) : bool :=
  match t with
  | None => false
  | Some e =>
      if negb (bool_decide (status_of e = Some 401)) then false
      else includes_any (toLowerCase (message_of e)) (map js ["token_invalidated"; "token has been invalidated"]%string)
  end.

Definition isAuthError (t : thrown) : bool :=
  match t with
  | None => false
  | Some e =>
      is_num 401 (status_or_code e) || is_num 403 (status_or_code e) || includes_any (toLowerCase (message_of e)) auth_phrases
  end.

(** ** Reason and time to wait *)

(** A product of doubles. *)
Definition times (q : Q) (k : Z) : option Q :=
  match Qnum q with
  | Z0 => Some 0%Q
  | Zpos n => round_ratio (Zpos n * k) (Zpos (Qden q))
  | Zneg n => Qopp <$> round_ratio (Zpos n * k) (Zpos (Qden q))
  end.

(** [Math.round]. *)
Definition Math_round (q : Q) : Z := Qfloor (q + (1 # 2)).

(** [Number(s)] for a text of digits and points. *)
Definition Number (s : jsstr) : option Q :=
  match s with
  | [] => Some 0%Q
  | _ =>
      let (whole, rest) := span_digits s in
      match rest with
      | [] => parseFloat s
      | _ :: rest => let (fraction, rest) := span_digits rest in
          match rest, whole ++ fraction with [], _ :: _ => parseFloat s | _, _ => None end
      end
  end.

Definition positive_round (number : option Q) (k : Z) : option Q :=
  match number with
  | Some q => if Qltb 0 q then (λ p, inject_Z (Math_round p)) <$> times q k else None
  | None => None
  end.

Definition drop_last (n : nat) (s : jsstr) : jsstr := take (length s - n) s.

(** Only called with what the two expressions below capture. *)
Definition parseRetryDelayValue (value : jsstr) : option Q :=
  let trimmed := toLowerCase (trim value) in
  if bool_decide (trimmed = []) then None
  else if endsWith trimmed (js "ms") then positive_round (Number (drop_last 2 trimmed)) 1
  else if endsWith trimmed (js "s") then positive_round (Number (drop_last 1 trimmed)) 1000
  else if endsWith trimmed (js "m") then positive_round (Number (drop_last 1 trimmed)) 60000
  else if endsWith trimmed (js "h") then positive_round (Number (drop_last 1 trimmed)) 3600000
  else None.

(** [([0-9.]+(?:ms|s|m|h))]. *)
Definition delay_rx : rx := RSeq (rplus (λ c, is_digit c || (c =? 46)%N)) (rwords "ms" ["s"; "m"; "h"]%string).

(** The text that [r] captures after [lead], at the first place where both match. *)
Definition captured (r : rx) (p : place) : option jsstr :=
  match places r p with q :: _ => Some (take (length p.2 - length q.2) p.2) | [] => None end.
Fixpoint first_some {A B} (f : A → option B) (l : list A) : option B :=
  match l with [] => None | x :: l => some_or (f x) (first_some f l) end.
Fixpoint capture_after (lead r : rx) (before : option N) (s : jsstr) : option jsstr :=
  some_or (first_some (captured r) (places lead (before, s)))
    match s with c :: s => capture_after lead r (Some c) s | [] => None end.

Definition please_retry_in : rx := rword "Please retry in ".
Definition after_spaces : rx := RSeq (rword "after") spaces1.

(** A time that is zero counts as none. *)
Definition nonzero (o : option Q) : option Q :=
  match o with Some q => if Qeq_bool q 0 then None else Some q | None => None end.

Definition header_delay (e : ErrorWithMetadata) : option Q :=
  match some_or (e_retry_after_header e) (e_retryAfter e) with
  | Some (Num q) => if Qeq_bool q 0 then None else times q 1000
  | Some (Text s) => match parseInt s with Some z => inject_Z <$> round_Z (z * 1000) | None => None end
  | None => None
  end.

(** A match of the message replaces the time that was read before. *)
Definition replace_delay (lead : rx) (message : jsstr) (before : option Q) : option Q :=
  match nonzero before with
  | Some _ => before
  | None =>
      match capture_after lead delay_rx None message with
      | Some value => parseRetryDelayValue value
      | None => before
      end
  end.

Definition text_of (v : option scalar) : option jsstr := match v with Some (Text s) => Some s | _ => None end.

(** The hint is [error.type ?? code], when it is a text. *)
Definition reason_hint (e : ErrorWithMetadata) : option jsstr := text_of (some_or (Text <$> e_error_type e) (e_code e)).

Definition extractRateLimitDetails (t : thrown) : RateLimitReason * option Q :=
  match t with
  | None => (parseRateLimitReason None (Some []) None, None)
  | Some e =>
      (parseRateLimitReason (reason_hint e) (Some (message_of e)) (status_of e),
       replace_delay after_spaces (message_of e) (replace_delay please_retry_in (message_of e) (header_delay e)))
  end.

(** ** Examples *)

Definition plain_error (message : string) : ErrorWithMetadata := mkError None None None (Some (js message)) None None None.

Example retry_in_seconds : extractRateLimitDetails (Some (plain_error "Quota exceeded. please retry in 23.5s.")) =
  (QUOTA_EXHAUSTED, Some (inject_Z 23500)).
Proof. by vm_compute. Qed.
Example retry_after_minutes : snd (extractRateLimitDetails (Some (plain_error "try after  2m, not 3h"))) = Some (inject_Z 120000).
Proof. by vm_compute. Qed.
Example retry_malformed : snd (extractRateLimitDetails (Some (plain_error "after 1.2.3s"))) = None.
Proof. by vm_compute. Qed.

(** ** A failed token refresh *)

(** A failed refresh of a token is an authentication error and never a rate limit, whatever its status. *)
Theorem token_refresh_is_auth e : includes (toLowerCase (message_of e)) token_refresh_failed = true →
  isRateLimitError (Some e) = false ∧ isAuthError (Some e) = true.
Proof.
  intros H. unfold isRateLimitError, isAuthError. rewrite H. split; [done|].
  unfold auth_phrases, includes_any. cbn [existsb]. rewrite H. by rewrite orb_true_l, orb_true_r.
Qed.

Lemma token_refresh_is_auth_witness :
  isRateLimitError (Some (mkError (Some 429) None None (Some (js "Token refresh failed (429)")) None None None)) = false.
Proof. by apply token_refresh_is_auth; vm_compute. Defined.
