(* ===== verification/RunQueue.v ===== *)
(** * The run queue of the autonomous sessions ([session/queue.ts], [session/lane-policy.ts], [session/trigger.ts])

    What a session is to continue with, as a trigger; the lanes; and the queue
    of continuations, which is kept in storage under one key for a lane and a
    session, and a second time under a key that older readers know.  A call of
    the queue is one step.  A key of storage is its last part here: the queue
    has a map for the keys of the lanes and one for the older keys. *)
From stdpp Require Import gmap.
From S2P Require Import Prelude JsString Wildcard Todo.
Open Scope Z_scope.

(** ** Lanes *)

Inductive Lane := critical | normal | background.
#[export] Instance Lane_eq : EqDecision Lane.
Proof. solve_decision. Defined.
#[export] Instance Lane_countable : Countable Lane.
Proof.
  refine (inj_countable' (λ l, match l with critical => 0%nat | normal => 1%nat | background => 2%nat end)
    (λ n, match n with 0%nat => critical | 1%nat => normal | _ => background end) _).
  by intros [].
Defined.

(** The priority of a trigger has the names of the lanes. *)
Inductive TriggerPriority := p_critical | p_normal | p_background.

Record LaneConfig := mkLaneConfig { concurrencyCap : Z; priorityRank : Z }.
Definition LANE_CONFIGS (l : Lane) : LaneConfig :=
  match l with
  | critical => mkLaneConfig 2 0
  | normal => mkLaneConfig 4 1
  | background => mkLaneConfig 2 2
  end.
Definition LANES_BY_PRIORITY : list Lane := [critical; normal; background].

Definition triggerPriorityToLane (p : TriggerPriority) : Lane :=
  match p with p_critical => critical | p_normal => normal | p_background => background end.
Definition laneHasCapacity (l : Lane) (currentInFlight : Z) : bool := currentInFlight <? concurrencyCap (LANE_CONFIGS l).
Definition totalConcurrencyCap : Z :=
  fold_left (λ sum l, sum + concurrencyCap (LANE_CONFIGS l)) LANES_BY_PRIORITY 0.

(** ** Triggers *)

Inductive continuation_reason := todo_pending | todo_in_progress.
#[export] Instance continuation_reason_eq : EqDecision continuation_reason.
Proof. solve_decision. Defined.
Inductive cron_source := scheduled | heartbeat.

(** A continuation has a todo, a call from outside may have one ([C] is the type
    of its other data), a scheduled run has its job. *)
Inductive RunTrigger (C : Type) :=
| Continuation (source : continuation_reason) (text : jsstr) (todo : Info) (priority : TriggerPriority)
| Api (source text : jsstr) (todo : option Info) (priority : TriggerPriority) (apiContext : option C)
| Cron (source : cron_source) (text jobId runId : jsstr) (lightContext : bool) (priority : TriggerPriority).
Arguments Continuation {C} source text todo priority.
Arguments Api {C} source text todo priority apiContext.
Arguments Cron {C} source text jobId runId lightContext priority.

Definition buildContinuationTrigger (todo : option Info) (textForPending textForInProgress : jsstr) :
    option (continuation_reason * jsstr * Info * TriggerPriority) :=
  match todo with
  | None => None
  | Some t =>
      if decide (status t = in_progress) then Some (todo_in_progress, textForInProgress, t, p_normal)
      else if decide (status t = pending) then Some (todo_pending, textForPending, t, p_normal)
      else None
  end.
Definition buildApiTrigger {C} (source text : jsstr) (todo : option Info) (priority : option TriggerPriority)
    (apiContext : option C) : RunTrigger C :=
  Api source text todo (default p_normal priority) apiContext.
Definition buildCronTrigger {C} (source : cron_source) (text jobId runId : jsstr) (lightContext : option bool)
    (priority : option TriggerPriority) : RunTrigger C :=
  Cron source text jobId runId (default false lightContext) (default p_background priority).

(** ** Entries and storage *)

Record PendingContinuationInfo := mkPending {
  p_sessionID : jsstr; p_messageID : jsstr; p_createdAt : Z; p_roundCount : Z; p_reason : continuation_reason; p_text : jsstr }.
#[export] Instance Pending_eq : EqDecision PendingContinuationInfo.
Proof. solve_decision. Defined.

Record QueueEntry := mkEntry {
  qe_id : jsstr; pending_of : PendingContinuationInfo; lane : Lane; triggerType : jsstr; enqueuedAt : Z }.
#[export] Instance QueueEntry_eq : EqDecision QueueEntry.
Proof. solve_decision. Defined.
Definition sessionID (e : QueueEntry) : jsstr := p_sessionID (pending_of e).
Definition createdAt (e : QueueEntry) : Z := p_createdAt (pending_of e).

Record queue := mkQueue {
  lanes : gmap (Lane * jsstr) (file QueueEntry); legacy : gmap jsstr (file PendingContinuationInfo) }.

(** [Storage.read(key).catch(() => undefined)]. *)
Definition read_file {A} (f : option (file A)) : option A := match f with Some (Holds a) => Some a | _ => None end.

(** [toString(36)] of a non-negative number; [fuel] is at least the number of binary digits. *)
Fixpoint show_base36 (fuel : nat) (n : Z) (acc : jsstr) : jsstr :=
  match fuel with
  | O => acc
  | S fuel =>
      let d := n mod 36 in
      let acc' := Z.to_N (if d <? 10 then 48 + d else 87 + d) :: acc in
      if n <? 36 then acc' else show_base36 fuel (n / 36) acc'
  end.
Definition toString36 (n : Z) : jsstr := show_base36 (S (Z.to_nat (Z.log2 n))) n [].

(** [s.slice(-6)]. *)
Definition last_six (s : jsstr) : jsstr := drop (length s - 6) s.

(** What the schemas ask of the two identifiers. *)
Definition valid_pending (p : PendingContinuationInfo) : bool :=
  startsWith (p_sessionID p) (js "ses") && startsWith (p_messageID p) (js "msg").

(** ** Operations *)

Definition remove (s : jsstr) (q : queue) : queue :=
  mkQueue (foldr (λ l m, delete (l, s) m) (lanes q) LANES_BY_PRIORITY) (delete s (legacy q)).

Definition new_entry (p : PendingContinuationInfo) (trigger : jsstr) (priority : TriggerPriority) (now : Z) : QueueEntry :=
  mkEntry (js "qe_" ++ toString36 now ++ js "_" ++ last_six (p_sessionID p)) p (triggerPriorityToLane priority) trigger now.

(** The entry, or nothing when the schema rejects it; by then what was there is removed. *)
Definition enqueue (p : PendingContinuationInfo) (trigger : jsstr) (priority : TriggerPriority) (now : Z) (q : queue) :
    queue * option QueueEntry :=
  let q := remove (p_sessionID p) q in
  let entry := new_entry p trigger priority now in
  if valid_pending p then
    (mkQueue (<[(lane entry, p_sessionID p) := Holds entry]> (lanes q)) (<[p_sessionID p := Holds p]> (legacy q)), Some entry)
  else (q, None).

Definition peek_in (s : jsstr) (q : queue) (l : Lane) : option QueueEntry := read_file (lanes q !! (l, s)).
Definition peek (s : jsstr) (q : queue) : option QueueEntry :=
  foldr (λ l o, some_or (peek_in s q l) o) None LANES_BY_PRIORITY.

(** [Storage.list(["run_queue", lane])]: in the order of the keys. *)
Definition list_keys (l : Lane) (q : queue) : list jsstr :=
  sort_by string_cmp (omap (λ k, if decide (k.1 = l) then Some k.2 else None) (map_to_list (lanes q)).*1).

Definition by_createdAt (a b : QueueEntry) : Z := createdAt a - createdAt b.
Definition listLane (l : Lane) (q : queue) : list QueueEntry :=
  sort_by by_createdAt (omap (λ s, peek_in s q l) (list_keys l q)).
Definition listAll (q : queue) : list QueueEntry := flat_map (λ l, listLane l q) LANES_BY_PRIORITY.
Definition countByLane (q : queue) (l : Lane) : nat := length (list_keys l q).

(** *** Draining *)

Notation len es := (Z.of_nat (length es)).

Definition of_session (s : jsstr) (e : QueueEntry) : bool := bool_decide (sessionID e = s).
Definition count_lane (l : Lane) (es : list QueueEntry) : nat := length (filter (λ e, lane e = l) es).

Fixpoint take_entries (maxCount : Z) (l : Lane) (toTake : Z) (picked entries : list QueueEntry) : list QueueEntry :=
  match entries with
  | [] => picked
  | e :: rest =>
      if maxCount <=? len picked then picked
      else if existsb (of_session (sessionID e)) picked then take_entries maxCount l toTake picked rest
      else if toTake <=? Z.of_nat (count_lane l picked) then picked
      else take_entries maxCount l toTake (picked ++ [e]) rest
  end.

(** The entry of the preferred session comes first in its lane. *)
Definition take_preferred (maxCount : Z) (preferred : option jsstr) (picked entries : list QueueEntry) : list QueueEntry :=
  match preferred with
  | None | Some [] => picked
  | Some s =>
      match find (of_session s) entries with
      | Some e => if len picked <? maxCount then picked ++ [e] else picked
      | None => picked
      end
  end.

Definition drain_lane (maxCount : Z) (inFlight : Lane → option Z) (preferred : option jsstr) (q : queue)
    (picked : list QueueEntry) (l : Lane) : list QueueEntry :=
  if maxCount <=? len picked then picked
  else
    let currentInFlight := default 0 (inFlight l) in
    if negb (laneHasCapacity l currentInFlight) then picked
    else
      let entries := listLane l q in
      let capacity := Z.max 0 (concurrencyCap (LANE_CONFIGS l) - currentInFlight) in
      let toTake := Z.min (Z.min (len entries) capacity) (maxCount - len picked) in
      take_entries maxCount l toTake (take_preferred maxCount preferred picked entries) entries.

Definition drain (maxCount : Z) (inFlight : Lane → option Z) (preferred : option jsstr) (q : queue) : list QueueEntry :=
  fold_left (drain_lane (Z.max 0 maxCount) inFlight preferred q) LANES_BY_PRIORITY [].

(** ** The queue as a map

    What the two sets of keys stand for: one entry at most for a session. *)

Definition stored_in (l : Lane) (e : QueueEntry) : option (file QueueEntry) :=
  if decide (lane e = l) then Some (Holds e) else None.

Record represents (q : queue) (A : gmap jsstr QueueEntry) : Prop := mkRepresents {
  rep_lanes l s : lanes q !! (l, s) = A !! s ≫= stored_in l;
  rep_legacy s : legacy q !! s = (λ e, Holds (pending_of e)) <$> A !! s;
  rep_session s e : A !! s = Some e → sessionID e = s
}.

Definition empty_queue : queue := mkQueue ∅ ∅.
Lemma empty_represents : represents empty_queue ∅.
Proof. split; intros *; by rewrite ?lookup_empty. Qed.

Lemma remove_lanes s q l s' : lanes (remove s q) !! (l, s') = if decide (s' = s) then None else lanes q !! (l, s').
Proof.
  unfold remove. simpl. case_decide as E.
  - subst s'. destruct l; repeat first [by rewrite lookup_delete_eq | rewrite lookup_delete_ne by congruence].
  - by rewrite !lookup_delete_ne by congruence.
Qed.

Lemma remove_represents s q A : represents q A → represents (remove s q) (delete s A).
Proof.
  intros [Hl Hg Hs]. split.
  - intros l s'. rewrite remove_lanes. case_decide as E.
    + subst. by rewrite lookup_delete_eq.
    + by rewrite lookup_delete_ne by congruence.
  - intros s'. simpl. destruct (decide (s' = s)) as [->|E].
    + by rewrite !lookup_delete_eq.
    + by rewrite !lookup_delete_ne by congruence.
  - intros s' e [_ E]%lookup_delete_Some. by apply Hs.
Qed.

Lemma insert_represents q A p e :
  pending_of e = p → represents q A → represents (mkQueue (<[(lane e, p_sessionID p) := Holds e]> (lanes (remove (p_sessionID p) q)))
    (<[p_sessionID p := Holds p]> (legacy q))) (<[p_sessionID p := e]> A).
Proof.
  intros <- [Hl Hg Hs]. set (s := p_sessionID (pending_of e)). split; cbn [lanes legacy].
  - intros l s'. destruct (decide (s' = s)) as [->|E].
    + rewrite lookup_insert_eq. cbn -[remove]. unfold stored_in. case_decide as El.
      * rewrite El. by rewrite lookup_insert_eq.
      * rewrite lookup_insert_ne by congruence. rewrite remove_lanes. by rewrite decide_True.
    + rewrite !lookup_insert_ne by congruence. rewrite remove_lanes. by rewrite decide_False.
  - intros s'. destruct (decide (s' = s)) as [->|E].
    + by rewrite !lookup_insert_eq.
    + by rewrite !lookup_insert_ne by congruence.
  - intros s' e'. destruct (decide (s' = s)) as [->|E].
    + rewrite lookup_insert_eq. by intros [= <-].
    + rewrite lookup_insert_ne by congruence. apply Hs.
Qed.

Lemma enqueue_represents p trigger priority now q A : represents q A →
  represents (enqueue p trigger priority now q).1
    (if valid_pending p then <[p_sessionID p := new_entry p trigger priority now]> A else delete (p_sessionID p) A).
Proof.
  intros H. unfold enqueue. destruct (valid_pending p).
  - assert (Hr := insert_represents q A p (new_entry p trigger priority now) eq_refl H).
    cbn [fst]. replace (legacy (remove (p_sessionID p) q)) with (delete (p_sessionID p) (legacy q)) by done.
    by rewrite insert_delete_eq.
  - by apply remove_represents.
Qed.

Lemma StronglySorted_weaken {A : Type} (R R' : A → A → Prop) xs :
  (∀ x y, R x y → R' x y) → StronglySorted R xs → StronglySorted R' xs.
Proof. intros H. induction 1 as [|x xs Hs IH Hx]; constructor; [done|]. eapply Forall_impl; eauto. Qed.

Section Represented.
Context (q : queue) (A : gmap jsstr QueueEntry) (Hq : represents q A).

Lemma peek_in_spec s l : peek_in s q l = A !! s ≫= λ e, if decide (lane e = l) then Some e else None.
Proof.
  unfold peek_in. rewrite (rep_lanes _ _ Hq). destruct (A !! s) as [e|]; [|done]. simpl. unfold stored_in. by case_decide.
Qed.

Lemma peek_spec s : peek s q = A !! s.
Proof.
  unfold peek. simpl. rewrite !peek_in_spec. destruct (A !! s) as [e|]; [|done]. simpl.
  by destruct (lane e).
Qed.

Lemma elem_of_list_keys l s : s ∈ list_keys l q ↔ ∃ e, A !! s = Some e ∧ lane e = l.
Proof.
  unfold list_keys. rewrite elem_of_sort_by, list_elem_of_omap. split.
  - intros ([l' s'] & Hk & E). simpl in E. case_decide; [|done]. injection E as ->. subst l'.
    apply list_elem_of_fmap in Hk as ([k f] & E & Hm%elem_of_map_to_list). simpl in E. subst k.
    rewrite (rep_lanes _ _ Hq) in Hm. destruct (A !! s) as [e|]; [|done]. simpl in Hm. unfold stored_in in Hm.
    case_decide; eauto; done.
  - intros (e & He & <-). exists (lane e, s). split; [|by rewrite decide_True].
    apply list_elem_of_fmap. exists ((lane e, s), Holds e). split; [done|]. apply elem_of_map_to_list.
    rewrite (rep_lanes _ _ Hq), He. simpl. unfold stored_in. by rewrite decide_True.
Qed.

Lemma list_keys_nodup l : NoDup (list_keys l q).
Proof.
  unfold list_keys. rewrite sort_by_perm. pose proof (NoDup_fst_map_to_list (lanes q)) as Hn.
  induction Hn as [|[l' s] ks Hk Hn IH]; simpl; [constructor|]. case_decide as E; [|done].
  constructor; [|done]. intros ([l2 s2] & Hin & E2)%list_elem_of_omap. simpl in E2. case_decide; [|done].
  injection E2 as ->. subst. done.
Qed.

Lemma elem_of_listLane l e : e ∈ listLane l q ↔ A !! sessionID e = Some e ∧ lane e = l.
Proof.
  unfold listLane. rewrite elem_of_sort_by, list_elem_of_omap. split.
  - intros (s & Hs & E). rewrite peek_in_spec in E. destruct (A !! s) as [e'|] eqn:Es; [|done]. simpl in E.
    case_decide; [|done]. injection E as ->. by rewrite (rep_session _ _ Hq s e Es).
  - intros [He Hl]. exists (sessionID e). split; [apply elem_of_list_keys; eauto|].
    rewrite peek_in_spec, He. simpl. by rewrite decide_True.
Qed.

Lemma listLane_nodup l : NoDup (map sessionID (listLane l q)).
Proof.
  unfold listLane. rewrite (Permutation_map sessionID (sort_by_perm by_createdAt _)).
  pose proof (list_keys_nodup l) as Hn. induction Hn as [|s ks Hk Hn IH]; simpl; [constructor|].
  destruct (peek_in s q l) as [e|] eqn:E; [|done]. simpl. constructor; [|done].
  rewrite peek_in_spec in E. destruct (A !! s) as [e'|] eqn:Es; [|done]. simpl in E. case_decide; [|done].
  injection E as ->. rewrite (rep_session _ _ Hq s e Es).
  intros (e2 & E2 & (s2 & Hs2 & Ep)%list_elem_of_omap)%list_elem_of_fmap. rewrite peek_in_spec in Ep.
  destruct (A !! s2) as [e3|] eqn:Es2; [|done]. simpl in Ep. case_decide; [|done]. injection Ep as ->.
  rewrite (rep_session _ _ Hq s2 e2 Es2) in E2. by subst.
Qed.

Lemma listLane_sorted l : StronglySorted (λ e e', createdAt e <= createdAt e') (listLane l q).
Proof.
  eapply (StronglySorted_weaken (le_by by_createdAt)); [|apply sort_by_sorted];
    unfold le_by, by_createdAt; intros; lia.
Qed.

Lemma elem_of_listAll e : e ∈ listAll q ↔ A !! sessionID e = Some e.
Proof.
  unfold listAll. rewrite elem_of_flat_map. split.
  - intros (l & _ & He%elem_of_listLane). apply He.
  - intros He. exists (lane e). split; [destruct (lane e); set_solver|]. by apply elem_of_listLane.
Qed.

Lemma listAll_nodup : NoDup (map sessionID (listAll q)).
Proof.
  assert (Hd : ∀ l l' s, l ≠ l' → s ∈ map sessionID (listLane l q) → s ∉ map sessionID (listLane l' q)).
  { intros l l' s Hl (e & -> & [He El]%elem_of_listLane)%list_elem_of_fmap (e' & E & [He' El']%elem_of_listLane)%list_elem_of_fmap.
    rewrite <- E, He in He'. congruence. }
  unfold listAll. simpl. rewrite app_nil_r, !map_app.
  apply NoDup_app; split; [apply listLane_nodup|]; split.
  - intros s Hs. rewrite elem_of_app. intros [H|H]; revert H; by apply (Hd critical).
  - apply NoDup_app; split; [apply listLane_nodup|]; split; [|apply listLane_nodup].
    intros s Hs. by apply (Hd normal).
Qed.

Lemma listAll_perm : listAll q ≡ₚ (map_to_list A).*2.
Proof.
  apply NoDup_Permutation.
  - apply (NoDup_fmap_1 sessionID), listAll_nodup.
  - apply (NoDup_fmap_1 sessionID). 
    replace (sessionID <$> (map_to_list A).*2) with (map_to_list A).*1; [apply NoDup_fst_map_to_list|].
    rewrite <- list_fmap_compose. apply list_fmap_ext. intros i [s e] Hi%list_elem_of_lookup_2%elem_of_map_to_list.
    symmetry. by apply (rep_session _ _ Hq).
  - intros e. rewrite elem_of_listAll, list_elem_of_fmap. split.
    + intros He. exists (sessionID e, e). split; [done|]. by apply elem_of_map_to_list.
    + intros ([s e'] & -> & Hm%elem_of_map_to_list). simpl. by rewrite (rep_session _ _ Hq s e' Hm).
Qed.
End Represented.

(** *** What a drain takes *)

Section Drain.
Context (q : queue) (A : gmap jsstr QueueEntry) (Hq : represents q A).
Context (maxCount : Z) (inFlight : Lane → option Z) (preferred : option jsstr).

Definition capacity (l : Lane) : Z := Z.max 0 (concurrencyCap (LANE_CONFIGS l) - default 0 (inFlight l)).
Definition quota (l : Lane) : Z := Z.min (len (listLane l q)) (capacity l).

(** Picked from the lanes [ls], and as much as the lanes and the maximum allow. *)
Record drained (ls : list Lane) (picked : list QueueEntry) : Prop := mkDrained {
  dr_nodup : NoDup (map sessionID picked);
  dr_stored e : e ∈ picked → A !! sessionID e = Some e ∧ lane e ∈ ls;
  dr_max : len picked <= maxCount;
  dr_cap l : Z.of_nat (count_lane l picked) <= capacity l;
  dr_full : len picked = maxCount ∨ ∀ l, l ∈ ls → Z.of_nat (count_lane l picked) = quota l
}.

Lemma count_lane_app l es es' : count_lane l (es ++ es') = (count_lane l es + count_lane l es')%nat.
Proof. unfold count_lane. by rewrite filter_app, length_app. Qed.
Lemma count_lane_all l es : Forall (λ e, lane e = l) es → count_lane l es = length es.
Proof. intros H. unfold count_lane. by rewrite filter_all. Qed.
Lemma count_lane_none l es : Forall (λ e, lane e ≠ l) es → count_lane l es = 0%nat.
Proof. intros H. unfold count_lane. by rewrite filter_none. Qed.

Lemma session_picked e es : existsb (of_session (sessionID e)) es = true ↔ sessionID e ∈ map sessionID es.
Proof.
  rewrite existsb_exists. unfold of_session. split.
  - intros (x & Hx & E%bool_decide_eq_true). rewrite <- E. apply list_elem_of_fmap_2, list_elem_of_In, Hx.
  - intros (x & E & Hx)%list_elem_of_fmap. exists x. split; [by apply list_elem_of_In|by apply bool_decide_eq_true].
Qed.

(** Entries of a lane are added while there is room and the lane has not had its share. *)
Lemma take_entries_spec l toTake picked entries :
  Forall (λ e, lane e = l) entries → NoDup (map sessionID picked) → len picked <= maxCount →
  ∃ added, let r := take_entries maxCount l toTake picked entries in
    r = picked ++ added ∧ (∀ e, e ∈ added → e ∈ entries) ∧ NoDup (map sessionID r) ∧ len r <= maxCount ∧
    Z.of_nat (count_lane l r) <= Z.max (Z.of_nat (count_lane l picked)) toTake ∧
    (len r = maxCount ∨ toTake <= Z.of_nat (count_lane l r) ∨ ∀ e, e ∈ entries → sessionID e ∈ map sessionID r).
Proof.
  intros Hl. revert picked. induction Hl as [|e rest He Hl IH]; intros picked Hn Hm; simpl.
  { exists []. rewrite app_nil_r. split_and!; try done; [lia|]. right; right. intros ? []%not_elem_of_nil. }
  destruct (Z.leb_spec maxCount (len picked)) as [Hmax|Hmax].
  { exists []. rewrite app_nil_r. split_and!; try done; [|lia|lia]. set_solver. }
  destruct (existsb _ picked) eqn:Es.
  { destruct (IH picked Hn Hm) as (added & H1 & H2 & H3 & H4 & H5 & H6). exists added. split_and!; try done; [set_solver|].
    destruct H6 as [H6|[H6|H6]]; [by left|by right; left|]. right; right.
    intros x [->|Hx]%elem_of_cons; [|by apply H6]. apply session_picked in Es. rewrite H1, map_app. set_solver. }
  destruct (Z.leb_spec toTake (Z.of_nat (count_lane l picked))) as [Ht|Ht].
  { exists []. rewrite app_nil_r. split_and!; try done; [|lia|by right; left]. set_solver. }
  destruct (IH (picked ++ [e])) as (added & H1 & H2 & H3 & H4 & H5 & H6).
  { rewrite map_app. apply NoDup_app. split_and!; [done| |apply NoDup_singleton].
    intros s Hs ->%list_elem_of_singleton. apply session_picked in Hs. congruence. }
  { rewrite length_app. simpl. lia. }
  exists (e :: added). split_and!; try done.
  - by rewrite H1, <- app_assoc.
  - set_solver.
  - rewrite (count_lane_app l picked [e]), (count_lane_all l [e]) in H5 by (by repeat constructor). simpl length in H5. lia.
  - destruct H6 as [H6|[H6|H6]]; [by left|by right; left|]. right; right.
    intros x [->|Hx]%elem_of_cons; [|by apply H6]. rewrite H1, !map_app. set_solver.
Qed.

Lemma take_preferred_spec l ls picked :
  drained ls picked → l ∉ ls → len picked < maxCount →
  ∃ added, take_preferred maxCount preferred picked (listLane l q) = picked ++ added ∧ (length added <= 1)%nat ∧
    (∀ e, e ∈ added → e ∈ listLane l q) ∧ NoDup (map sessionID (picked ++ added)).
Proof.
  intros Hd Hl Hm. unfold take_preferred.
  assert (Hnone : ∃ added, picked = picked ++ added ∧ (length added <= 1)%nat ∧
    (∀ e, e ∈ added → e ∈ listLane l q) ∧ NoDup (map sessionID (picked ++ added))).
  { exists []. rewrite app_nil_r. split_and!; [done|simpl; lia|set_solver|apply Hd]. }
  destruct preferred as [[|c s]|]; [done| |done].
  destruct (find (of_session (c :: s)) (listLane l q)) as [e|] eqn:E; [|done]. apply find_Some in E as [_ He].
  destruct (Z.ltb_spec (len picked) maxCount); [|lia].
  exists [e]. split_and!; [done|simpl; lia|set_solver|].
  rewrite map_app. apply NoDup_app. split_and!; [apply Hd| |apply NoDup_singleton].
  intros x (e' & -> & He')%list_elem_of_fmap Hx%list_elem_of_singleton.
  apply (elem_of_listLane q A Hq) in He as [He El]. destruct (dr_stored _ _ Hd e' He') as [He2 Hin].
  rewrite Hx in He2. rewrite He in He2. injection He2 as ->. congruence.
Qed.

Lemma drained_skip ls l picked :
  drained ls picked → (len picked = maxCount ∨ quota l = 0) → l ∉ ls → drained (l :: ls) picked.
Proof.
  intros Hd Hs Hl. split; try apply Hd.
  - intros e He. destruct (dr_stored _ _ Hd e He). split; [done|by right].
  - destruct Hs as [Hs|Hs]; [by left|]. destruct (dr_full _ _ Hd) as [H|H]; [by left|]. right.
    intros l' [->|Hl']%elem_of_cons; [|by apply H]. rewrite Hs, count_lane_none; [done|].
    apply Forall_forall. intros e He E. destruct (dr_stored _ _ Hd e He). congruence.
Qed.

(** An entry of the lane whose session is picked is picked itself. *)
Lemma picked_count l picked :
  (∀ e, e ∈ picked → A !! sessionID e = Some e) →
  (∀ e, e ∈ listLane l q → sessionID e ∈ map sessionID picked) → len (listLane l q) <= Z.of_nat (count_lane l picked).
Proof.
  intros Hp Hall. apply inj_le, submseteq_length, NoDup_submseteq.
  { eapply (NoDup_fmap_1 sessionID), (listLane_nodup q A Hq). }
  intros e He. apply list_elem_of_filter. pose proof (Hall e He) as Hs.
  apply (elem_of_listLane q A Hq) in He as [He El]. split; [done|].
  apply list_elem_of_fmap in Hs as (e' & E & He'). pose proof (Hp e' He') as He2.
  rewrite <- E, He in He2. by injection He2 as ->.
Qed.

Lemma lane_of_added l es : (∀ e, e ∈ es → e ∈ listLane l q) → Forall (λ e, lane e = l) es.
Proof. intros H. apply Forall_forall. intros e He%H. by apply (elem_of_listLane q A Hq). Qed.

Lemma drained_none ls l picked : drained ls picked → l ∉ ls → count_lane l picked = 0%nat.
Proof.
  intros Hd Hl. apply count_lane_none, Forall_forall. intros e He E. destruct (dr_stored _ _ Hd e He). congruence.
Qed.

(** Entries of the next lane are added. *)
Lemma drained_extend ls l picked added :
  drained ls picked → l ∉ ls → (∀ e, e ∈ added → e ∈ listLane l q) → NoDup (map sessionID (picked ++ added)) →
  len (picked ++ added) <= maxCount → len added <= capacity l →
  (len (picked ++ added) = maxCount ∨ len added = quota l) → drained (l :: ls) (picked ++ added).
Proof.
  intros Hd Hl Hsub Hn Hmax Hcap Hfull. pose proof (lane_of_added l added Hsub) as Hlane.
  assert (Hl_count : count_lane l (picked ++ added) = length added).
  { by rewrite count_lane_app, (drained_none ls l picked), count_lane_all. }
  assert (Hother : ∀ l', l' ≠ l → count_lane l' (picked ++ added) = count_lane l' picked).
  { intros l' Hne. rewrite count_lane_app, (count_lane_none l' added); [lia|].
    eapply Forall_impl; [exact Hlane|]. simpl. congruence. }
  split; [done| |done| |].
  - intros e [He|He]%elem_of_app.
    + destruct (dr_stored _ _ Hd e He). split; [done|by right].
    + apply Hsub, (elem_of_listLane q A Hq) in He as [He ->]. split; [done|by left].
  - intros l'. destruct (decide (l' = l)) as [->|Hne]; [lia|]. rewrite Hother by done. apply Hd.
  - destruct Hfull as [H|H]; [by left|]. destruct (dr_full _ _ Hd) as [Hf|Hf].
    { left. rewrite length_app in *. lia. }
    right. intros l' [->|Hl']%elem_of_cons; [lia|]. rewrite Hother by congruence. by apply Hf.
Qed.

Lemma drain_lane_step ls l picked :
  drained ls picked → l ∉ ls → drained (l :: ls) (drain_lane maxCount inFlight preferred q picked l).
Proof.
  intros Hd Hl. unfold drain_lane. pose proof (dr_max _ _ Hd) as Hle.
  destruct (Z.leb_spec maxCount (len picked)) as [Hm|Hm]; [apply drained_skip; [done|left; lia|done]|].
  unfold laneHasCapacity. destruct (Z.ltb_spec (default 0 (inFlight l)) (concurrencyCap (LANE_CONFIGS l))) as [Hc|Hc]; simpl negb; cbv iota.
  2: { apply drained_skip; [done| |done]. right. unfold quota, capacity. lia. }
  fold (capacity l). assert (1 <= capacity l) by (unfold capacity; lia).
  destruct (decide (listLane l q = [])) as [El|El].
  { rewrite El. assert (quota l = 0) by (unfold quota; rewrite El; simpl; lia).
    destruct preferred as [[|c s]|]; simpl; apply drained_skip; auto. }
  assert (1 <= len (listLane l q)) by (destruct (listLane l q); [done|simpl; lia]).
  destruct (take_preferred_spec l ls picked Hd Hl Hm) as (first & -> & Hf1 & Hf2 & Hf3).
  assert (Hlen : len (picked ++ first) <= maxCount) by (rewrite length_app; lia).
  destruct (take_entries_spec l (Z.min (Z.min (len (listLane l q)) (capacity l)) (maxCount - len picked)) (picked ++ first)
    (listLane l q) (lane_of_added l _ (λ e H, H)) Hf3 Hlen) as (added & Hr & Ha & Hn & Hmax & Hcap & Hfull).
  rewrite <- app_assoc in Hr. cbv zeta in *. rewrite Hr in *.
  assert (Hsub : ∀ e, e ∈ first ++ added → e ∈ listLane l q) by set_solver.
  assert (Hst : ∀ e, e ∈ picked ++ first ++ added → A !! sessionID e = Some e).
  { intros e [He|He]%elem_of_app; [by apply (dr_stored _ _ Hd)|]. apply (elem_of_listLane q A Hq l), Hsub, He. }
  pose proof (lane_of_added l _ Hsub) as Hlane. pose proof (count_lane_all l _ Hlane) as Hcount.
  rewrite !count_lane_app, <- count_lane_app, Hcount, (drained_none ls l picked Hd Hl),
    (count_lane_all l first) in Hcap by (apply lane_of_added; set_solver).
  pose proof (picked_count l _ Hst) as Hall.
  rewrite count_lane_app, (drained_none ls l picked Hd Hl), Hcount in Hfull, Hall.
  rewrite (length_app picked) in Hfull, Hmax.
  apply drained_extend; try done; rewrite ?(length_app picked); [lia|lia|]. unfold quota.
  destruct Hfull as [Hf|[Hf|Hf%Hall]]; lia.
Qed.
End Drain.

(** ** Theorems *)

Definition drain_before (e e' : QueueEntry) : Prop :=
  priorityRank (LANE_CONFIGS (lane e)) < priorityRank (LANE_CONFIGS (lane e')) ∨
  lane e = lane e' ∧ createdAt e <= createdAt e'.

Lemma StronglySorted_app {A : Type} (R : A → A → Prop) xs ys :
  StronglySorted R xs → StronglySorted R ys → (∀ x y, x ∈ xs → y ∈ ys → R x y) → StronglySorted R (xs ++ ys).
Proof.
  intros Hx Hy H. induction Hx as [|x xs Hs IH Hf]; simpl; [done|]. constructor.
  - apply IH. intros a b Ha. apply H. by right.
  - apply Forall_app. split; [done|]. apply Forall_forall. intros y Hin. apply H; [by left|done].
Qed.

Lemma StronglySorted_in {A : Type} (R R' : A → A → Prop) xs :
  (∀ x y, x ∈ xs → y ∈ xs → R x y → R' x y) → StronglySorted R xs → StronglySorted R' xs.
Proof.
  intros H Hs. induction Hs as [|x xs Hs IH Hf]; constructor.
  - apply IH. intros a b Ha Hb. apply H; by right.
  - rewrite Forall_forall in Hf. apply Forall_forall. intros y Hy. apply H; [by left|by right|by apply Hf].
Qed.

Lemma listAll_sorted q A : represents q A → StronglySorted drain_before (listAll q).
Proof.
  intros Hq. assert (Hin : ∀ l e, e ∈ listLane l q → lane e = l) by (intros l e He; by apply (elem_of_listLane q A Hq)).
  assert (Hl : ∀ l, StronglySorted drain_before (listLane l q)).
  { intros l. eapply (StronglySorted_in (λ e e', createdAt e <= createdAt e')); [|apply listLane_sorted].
    intros x y Hx%Hin Hy%Hin Hxy. right. split; [congruence|done]. }
  unfold listAll. simpl. rewrite app_nil_r. repeat apply StronglySorted_app; auto.
  all: intros x y Hx; rewrite ?elem_of_app; intros Hy; left; apply Hin in Hx.
  all: first [apply Hin in Hy | destruct Hy as [Hy|Hy]; apply Hin in Hy]; rewrite Hx, Hy; simpl; lia.
Qed.

(** C29. The run queue is a map from sessions to their one entry. When its two sets of keys stand for a map, then removing
    a session deletes it from the map; enqueueing puts the new entry in place of the session's entry in whatever lane it
    was, and an entry that the schema rejects leaves the session without one; peeking and the older key show the map's
    entry; and the list of all entries has exactly the entries of the map, the lanes in their order and each lane by
    creation time. *)
Theorem run_queue_refines q A s p trigger priority now : represents q A →
  represents (remove s q) (delete s A) ∧
  represents (enqueue p trigger priority now q).1
    (match (enqueue p trigger priority now q).2 with
     | Some e => <[p_sessionID p := e]> A
     | None => delete (p_sessionID p) A
     end) ∧
  ((enqueue p trigger priority now q).2 = None ↔ valid_pending p = false) ∧
  peek s q = A !! s ∧ read_file (legacy q !! s) = pending_of <$> A !! s ∧
  listAll q ≡ₚ (map_to_list A).*2 ∧ StronglySorted drain_before (listAll q).
Proof.
  intros Hq. split_and!.
  - by apply remove_represents.
  - pose proof (enqueue_represents p trigger priority now q A Hq) as H. revert H. unfold enqueue.
    by destruct (valid_pending p).
  - unfold enqueue. by destruct (valid_pending p).
  - by apply peek_spec.
  - rewrite (rep_legacy _ _ Hq). by destruct (A !! s).
  - by apply listAll_perm.
  - by eapply listAll_sorted.
Qed.

(** A drain of the run queue takes entries of the queue, no session twice and no more than asked for; together with
    what is in flight a lane never exceeds its cap; and it takes as much as that allows: it is full, or every lane has
    given all its entries or all its free places. This holds with a preferred session too. *)
Theorem drain_respects_caps q A maxCount inFlight preferred : represents q A →
  let picked := drain maxCount inFlight preferred q in
  let room l := Z.max 0 (concurrencyCap (LANE_CONFIGS l) - default 0 (inFlight l)) in
  NoDup (map sessionID picked) ∧ (∀ e, e ∈ picked → A !! sessionID e = Some e) ∧ len picked <= Z.max 0 maxCount ∧
  (∀ l, Z.of_nat (count_lane l picked) <= room l) ∧
  (len picked = Z.max 0 maxCount ∨ ∀ l, Z.of_nat (count_lane l picked) = Z.min (len (listLane l q)) (room l)).
Proof.
  intros Hq picked room.
  assert (H : drained q A (Z.max 0 maxCount) inFlight [background; normal; critical] picked).
  { unfold picked, drain. simpl.
    do 3 (apply drain_lane_step; [done| |set_solver]).
    split; [constructor|set_solver|simpl; lia| |right; set_solver].
    intros l. unfold capacity, count_lane. simpl length. lia. }
  split_and!; [apply H|by intros e [He _]%(dr_stored _ _ _ _ _ _ H)|apply H|apply (dr_cap _ _ _ _ _ _ H)|].
  - destruct (dr_full _ _ _ _ _ _ H) as [Hf|Hf]; [by left|]. right. intros l. apply Hf. destruct l; set_solver.
Qed.

(** ** Witnesses *)

Definition demo_pending (s : string) (created : Z) : PendingContinuationInfo :=
  mkPending (js s) (js "msg_1") created 0 todo_pending (js "go on").
Definition demo_entry (s : string) (created : Z) (p : TriggerPriority) (now : Z) : QueueEntry :=
  new_entry (demo_pending s created) (js "continuation") p now.
Definition demo_enqueue (s : string) (created : Z) (p : TriggerPriority) (now : Z) (q : queue) : queue :=
  (enqueue (demo_pending s created) (js "continuation") p now q).1.
Definition demo_queue : queue :=
  demo_enqueue "ses_c" 30 p_critical 103 (demo_enqueue "ses_a" 20 p_normal 102 (demo_enqueue "ses_b" 10 p_normal 101
    (demo_enqueue "ses_c" 5 p_background 100 empty_queue))).
Definition demo_map : gmap jsstr QueueEntry :=
  <[js "ses_c" := demo_entry "ses_c" 30 p_critical 103]> (<[js "ses_a" := demo_entry "ses_a" 20 p_normal 102]>
    (<[js "ses_b" := demo_entry "ses_b" 10 p_normal 101]> (<[js "ses_c" := demo_entry "ses_c" 5 p_background 100]> ∅))).

Lemma demo_enqueued s created p now q A : valid_pending (demo_pending s created) = true → represents q A →
  represents (demo_enqueue s created p now q) (<[js s := demo_entry s created p now]> A).
Proof.
  intros Hv Hq. pose proof (enqueue_represents (demo_pending s created) (js "continuation") p now q A Hq) as H.
  by rewrite Hv in H.
Qed.

Lemma demo_represents : represents demo_queue demo_map.
Proof. do 4 (apply demo_enqueued; [by vm_compute|]). apply empty_represents. Qed.

Lemma run_queue_refines_witness :
  represents demo_queue demo_map ∧ listAll demo_queue ≡ₚ (map_to_list demo_map).*2 ∧
  map sessionID (listAll demo_queue) = [js "ses_c"; js "ses_b"; js "ses_a"].
Proof.
  split; [exact demo_represents|]. split; [|by vm_compute].
  apply (run_queue_refines demo_queue demo_map (js "ses_a") (demo_pending "ses_d" 1) (js "cron") p_background 9 demo_represents).
Defined.

Lemma drain_respects_caps_witness :
  let picked := drain 5 (λ l, if decide (l = normal) then Some 3 else None) (Some (js "ses_a")) demo_queue in
  map sessionID picked = [js "ses_c"; js "ses_a"] ∧ Z.of_nat (count_lane normal picked) <= 1.
Proof.
  split; [by vm_compute|].
  pose proof (drain_respects_caps demo_queue demo_map 5 (λ l, if decide (l = normal) then Some 3 else None)
    (Some (js "ses_a")) demo_represents) as (_ & _ & _ & H & _). exact (H normal).
Defined.
