(* ===== verification/Workflow.v ===== *)
(** * Decisions of the autonomous workflow ([session/workflow-runner.ts], workflow part of [session/index.ts])

    The workflow of a session and its updates, its health, whether a queued
    continuation may be resumed, how long to wait after a failure, which of the
    candidates are resumed, and what a session does next.  Clocks are arguments. *)
From stdpp Require Import gmap.
From S2P Require Import Prelude JsString Wildcard ErrorClass Todo RunQueue.
Open Scope Z_scope.

(** ** Sessions *)

Inductive WorkflowState := idle | running | waiting_user | blocked | wf_completed.
#[export] Instance WorkflowState_eq : EqDecision WorkflowState.
Proof. solve_decision. Defined.

Record AutonomousPolicy := mkPolicyA {
  enabled : bool;
  maxContinuousRounds : option Z;
  stopOnTestsFail : option bool;
  requireApprovalFor : option (list jsstr)
}.
Record WorkflowSupervisor := mkSupervisor {
  leaseOwner : option jsstr;
  leaseExpiresAt : option Z;
  retryAt : option Z;
  consecutiveResumeFailures : option Z;
  lastResumeCategory : option jsstr;
  lastResumeError : option jsstr
}.
Inductive freerun_mode := freerun_on | freerun_off.
Record WorkflowInfo := mkWorkflow {
  autonomous : AutonomousPolicy;
  state : WorkflowState;
  stopReason : option jsstr;
  updatedAt : Z;
  lastRunAt : option Z;
  supervisor : option WorkflowSupervisor;
  freerunOverride : option freerun_mode
}.

(** What is read of a session; [scheduled] says that its marker is there. *)
Record SessionInfo := mkSession {
  parentID : option jsstr; is_scheduled : bool; time_updated : Z; workflow : option WorkflowInfo }.

Definition isDormantScheduled (s : SessionInfo) : bool := is_scheduled s.
Definition no_supervisor : WorkflowSupervisor := mkSupervisor None None None None None None.
Definition defaultWorkflow (now : Z) : WorkflowInfo :=
  mkWorkflow (mkPolicyA false None (Some true) (Some [js "push"; js "destructive"])) waiting_user None now None
    (Some no_supervisor) None.

(** *** Updates *)

Definition current_workflow (s : SessionInfo) : WorkflowInfo := default (defaultWorkflow (time_updated s)) (workflow s).
Definition with_workflow (w : WorkflowInfo) (s : SessionInfo) : SessionInfo :=
  mkSession (parentID s) (is_scheduled s) (time_updated s) (Some w).

Definition setWorkflowState (st : WorkflowState) (why : option jsstr) (ran : option Z) (now : Z) (s : SessionInfo) : SessionInfo :=
  let w := current_workflow s in
  with_workflow (mkWorkflow (autonomous w) st why now (some_or ran (lastRunAt w)) (supervisor w) (freerunOverride w)) s.

Definition updateFreerunOverride (o : option freerun_mode) (now : Z) (s : SessionInfo) : SessionInfo :=
  let w := current_workflow s in
  with_workflow (mkWorkflow (autonomous w) (state w) (stopReason w) now (lastRunAt w) (supervisor w) o) s.

(** A patch has the fields that it sets. *)
Record policy_patch := mkPatch {
  set_enabled : option bool; set_rounds : option Z; set_stop : option bool; set_approval : option (list jsstr) }.
Definition mergeAutonomousPolicy (current : option AutonomousPolicy) (now : Z) (p : policy_patch) : AutonomousPolicy :=
  let base := default (autonomous (defaultWorkflow now)) current in
  mkPolicyA (default (enabled base) (set_enabled p)) (some_or (set_rounds p) (maxContinuousRounds base))
    (some_or (set_stop p) (stopOnTestsFail base)) (some_or (set_approval p) (requireApprovalFor base)).
Definition updateAutonomous (p : policy_patch) (now : Z) (s : SessionInfo) : SessionInfo :=
  let w := current_workflow s in
  with_workflow (mkWorkflow (mergeAutonomousPolicy (Some (autonomous w)) now p) (state w) (stopReason w) now (lastRunAt w)
    (supervisor w) (freerunOverride w)) s.

(** The patch and the deletions, as the change that they make to the fields. *)
Definition updateWorkflowSupervisor (change : WorkflowSupervisor → WorkflowSupervisor) (now : Z) (s : SessionInfo) : SessionInfo :=
  let w := current_workflow s in
  with_workflow (mkWorkflow (autonomous w) (state w) (stopReason w) now (lastRunAt w)
    (Some (change (default no_supervisor (supervisor w)))) (freerunOverride w)) s.

(** ** Health *)

Record Event := mkEvent { domain : jsstr; eventType : jsstr; ts : Z; anomalyFlags : list jsstr }.

Inductive health_kind := healthy | queued | paused | degraded | h_blocked | h_completed.
#[export] Instance health_kind_eq : EqDecision health_kind.
Proof. solve_decision. Defined.

Record AutonomousWorkflowHealth := mkHealth {
  h_state : WorkflowState;
  h_stopReason : option jsstr;
  h_pending : option PendingContinuationInfo;
  h_supervisor : WorkflowSupervisor;
  recentCount : nat;
  latest : option Event;
  flags : list jsstr;
  countsByType : gmap jsstr nat;
  health : health_kind;
  label : jsstr
}.

(** A text that is there and not empty. *)
Definition truthy (o : option jsstr) : option jsstr := match o with Some [] => None | _ => o end.

(** [[...new Set(xs)]]. *)
Fixpoint dedup (seen xs : list jsstr) : list jsstr :=
  match xs with
  | [] => []
  | x :: xs => if decide (x ∈ seen) then dedup seen xs else x :: dedup (x :: seen) xs
  end.

Definition count_type (m : gmap jsstr nat) (e : Event) : gmap jsstr nat :=
  <[eventType e := S (default 0%nat (m !! eventType e))]> m.
Definition anomalies (events : list Event) : list Event := filter (λ e, domain e = js "anomaly") events.

(** The health and its label before anomalies and failures are looked at. *)
Definition base_health (w : WorkflowInfo) (pending : option PendingContinuationInfo) : health_kind * jsstr :=
  if decide (state w = wf_completed) then (h_completed, js "Autonomous workflow completed")
  else if decide (state w = blocked) then
    (h_blocked, match truthy (stopReason w) with Some r => js "Workflow blocked: " ++ r | None => js "Workflow blocked" end)
  else match pending with
  | Some p => (queued, if decide (p_reason p = todo_in_progress) then js "Queued to resume current step" else js "Queued to start next step")
  | None =>
      if decide (state w = waiting_user) then
        (paused, match truthy (stopReason w) with Some r => js "Waiting: " ++ r | None => js "Waiting for user" end)
      else (healthy, js "Autonomous runner idle")
  end.

Definition failures_of (w : WorkflowInfo) : Z := default 0 (supervisor w ≫= consecutiveResumeFailures).

Definition summarizeAutonomousWorkflowHealth (wf : option WorkflowInfo) (pending : option PendingContinuationInfo)
    (events : list Event) (now : Z) : AutonomousWorkflowHealth :=
  let w := default (defaultWorkflow now) wf in
  let anomalyEvents := anomalies events in
  let latestAnomaly := last anomalyEvents in
  let sup := default no_supervisor (supervisor w) in
  let sup := mkSupervisor (leaseOwner sup) (leaseExpiresAt sup) (retryAt sup) (Some (failures_of w))
    (lastResumeCategory sup) (lastResumeError sup) in
  let (h, l) := base_health w pending in
  let (h, l) :=
    if decide (h = h_blocked ∨ h = h_completed) then (h, l)
    else if (0 <? failures_of w) || negb (bool_decide (anomalyEvents = [])) then
      (degraded, match truthy (eventType <$> latestAnomaly), truthy (stopReason w) with
                 | Some t, _ => js "Degraded: " ++ t
                 | None, Some r => js "Degraded: " ++ r
                 | None, None => js "Degraded autonomous workflow health"
                 end)
    else (h, l) in
  mkHealth (state w) (stopReason w) pending sup (length anomalyEvents) latestAnomaly
    (dedup [] (flat_map anomalyFlags anomalyEvents)) (fold_left count_type anomalyEvents ∅) h l.

(** ** Resuming a queued continuation *)

Definition NON_RESUMABLE_WAITING_REASONS : list jsstr := map js
  ["approval_needed"; "product_decision_needed"; "mission_not_approved"; "mission_not_consumable"; "max_continuous_rounds";
   "manual_interrupt"; "risk_review_needed"]%string.

Inductive SessionStatus := st_idle | st_retry | st_busy.
#[export] Instance SessionStatus_eq : EqDecision SessionStatus.
Proof. solve_decision. Defined.

Inductive PendingContinuationResumeBlockReason :=
| no_pending_continuation | in_flight | status_busy | status_retry | autonomous_disabled | workflow_blocked
| workflow_completed | waiting_user_non_resumable (why : jsstr) | supervisor_retry_backoff | supervisor_foreign_lease
| dormant_scheduled.
#[export] Instance block_reason_eq : EqDecision PendingContinuationResumeBlockReason.
Proof. solve_decision. Defined.

Definition healthRankForResume (h : health_kind) : Z :=
  match h with healthy => 0 | queued => 1 | paused => 2 | degraded => 3 | h_blocked => 4 | h_completed => 5 end.

(** The trigger of a continuation that a subagent's end has queued. *)
Definition isTaskCompletion (trigger : option jsstr) : bool :=
  bool_decide (trigger = Some (js "task_completion") ∨ trigger = Some (js "task_failure")).

(** [if (b) blockedReasons.push(r)]. *)
Definition push_if (b : bool) (r : PendingContinuationResumeBlockReason) : list PendingContinuationResumeBlockReason :=
  if b then [r] else [].

Definition non_resumable (why : option jsstr) : bool := bool_decide (default [] why ∈ NON_RESUMABLE_WAITING_REASONS).
Definition foreign_lease (sup : WorkflowSupervisor) (owner : option jsstr) (now : Z) : bool :=
  (now <? default 0 (leaseExpiresAt sup)) &&
  match truthy (leaseOwner sup) with Some o => negb (bool_decide (Some o = owner)) | None => false end.

Definition blockedReasons (s : SessionInfo) (status : SessionStatus) (inFlight : bool)
    (health : option AutonomousWorkflowHealth) (owner trigger : option jsstr) (now : Z) :
    list PendingContinuationResumeBlockReason :=
  let task := isTaskCompletion trigger in
  let wf := default (defaultWorkflow now) (workflow s) in
  let h := default (summarizeAutonomousWorkflowHealth (Some wf) None [] now) health in
  push_if (isDormantScheduled s) dormant_scheduled ++
  push_if inFlight in_flight ++
  push_if (bool_decide (status = st_busy)) status_busy ++
  push_if (bool_decide (status = st_retry)) status_retry ++
  push_if (negb task && negb (enabled (autonomous wf))) autonomous_disabled ++
  push_if (negb task && bool_decide (h_state h = blocked)) workflow_blocked ++
  push_if (negb task && bool_decide (h_state h = wf_completed)) workflow_completed ++
  push_if (negb task && bool_decide (h_state h = waiting_user) && non_resumable (h_stopReason h))
    (waiting_user_non_resumable (default [] (h_stopReason h))) ++
  push_if (now <? default 0 (retryAt (h_supervisor h))) supervisor_retry_backoff ++
  push_if (foreign_lease (h_supervisor h) owner now) supervisor_foreign_lease.

Definition inspectPendingContinuationResumability (s : SessionInfo) (status : SessionStatus) (inFlight : bool)
    (health : option AutonomousWorkflowHealth) (owner trigger : option jsstr) (now : Z) :
    bool * list PendingContinuationResumeBlockReason * AutonomousWorkflowHealth :=
  let rs := blockedReasons s status inFlight health owner trigger now in
  (bool_decide (rs = []), rs,
   default (summarizeAutonomousWorkflowHealth (Some (default (defaultWorkflow now) (workflow s))) None [] now) health).

Definition shouldResumePendingContinuation (s : SessionInfo) (status : SessionStatus) (inFlight : bool)
    (health : option AutonomousWorkflowHealth) (owner trigger : option jsstr) (now : Z) : bool :=
  (inspectPendingContinuationResumability s status inFlight health owner trigger now).1.1.

(** *** Waiting after a failure *)

Inductive ResumeFailureCategory :=
| provider_rate_limit | provider_auth | provider_transient | tool_runtime | session_state | unknown.
#[export] Instance category_eq : EqDecision ResumeFailureCategory.
Proof. solve_decision. Defined.
Definition category_name (c : ResumeFailureCategory) : jsstr :=
  js match c with
     | provider_rate_limit => "provider_rate_limit"
     | provider_auth => "provider_auth"
     | provider_transient => "provider_transient"
     | tool_runtime => "tool_runtime"
     | session_state => "session_state"
     | unknown => "unknown"
     end.

Definition MAX_RESUME_FAILURES : Z := 3.
Definition LEASE_MS : Z := 30000.
Definition RESUME_IN_FLIGHT_TIMEOUT_MS : Z := 300000.

Definition computeResumeBackoffMs (consecutiveFailures : Z) : Z :=
  let step := Z.max 1 consecutiveFailures in
  Z.min 300000 (15000 * 2 ^ (step - 1)).
Definition computeResumeRetryAt (now consecutiveFailures : Z) (c : ResumeFailureCategory) (budgetWaitTimeMs : option Z) : Z :=
  let backoffMs := computeResumeBackoffMs consecutiveFailures in
  now + if decide (c = provider_rate_limit) then Z.max backoffMs (default 0 budgetWaitTimeMs) else backoffMs.
Definition shouldBlockAfterResumeFailure (consecutiveFailures : Z) : bool := MAX_RESUME_FAILURES <=? consecutiveFailures.

(** What is thrown: its class, its text and its fields. *)
Inductive error_class := PermissionRejected | PermissionDenied | PermissionCorrected | QuestionRejected | OtherError.
#[export] Instance error_class_eq : EqDecision error_class.
Proof. solve_decision. Defined.
Record failure := mkFailure { f_class : error_class; f_text : jsstr; f_fields : thrown }.

Record classified := mkClassified {
  category : ResumeFailureCategory; shouldRetry : bool; shouldBlockImmediately : bool; c_reason : jsstr }.
Definition hard (c : ResumeFailureCategory) (why : jsstr) : classified := mkClassified c false true why.
Definition soft (c : ResumeFailureCategory) (why : jsstr) : classified := mkClassified c true false why.

Definition classifyResumeFailure (f : failure) : classified :=
  let message := f_text f in
  let has ps := existsb (λ p, includes (toLowerCase message) (js p)) ps in
  match f_class f with
  | PermissionRejected | PermissionDenied => hard tool_runtime (js "approval_needed:" ++ message)
  | PermissionCorrected | QuestionRejected => hard tool_runtime (js "product_decision_needed:" ++ message)
  | OtherError =>
      if has ["approval_needed:"; "product_decision_needed:"]%string then hard tool_runtime message
      else if isRateLimitError (f_fields f) then soft provider_rate_limit message
      else if isAuthError (f_fields f) then hard provider_auth message
      else if has ["permission"; "tool execution failed"; "command not found"]%string then hard tool_runtime message
      else if has ["no user message found"; "impossible"]%string then hard session_state message
      else if has ["timeout"; "temporar"; "network"; "econn"; "503"; "502"]%string then soft provider_transient message
      else soft unknown message
  end.

(** *** Choosing among the candidates *)

Record budget := mkBudget { family : jsstr; waitTimeMs : Z }.
Record ResumeCandidate := mkCandidate {
  rc_pending : PendingContinuationInfo;
  rc_trigger : option jsstr;
  rc_session : SessionInfo;
  rc_status : SessionStatus;
  rc_inFlight : bool;
  rc_health : option AutonomousWorkflowHealth;
  rc_budget : option budget
}.
Definition rc_sessionID (c : ResumeCandidate) : jsstr := p_sessionID (rc_pending c).
Definition rc_family (c : ResumeCandidate) : option jsstr := truthy (family <$> rc_budget c).
Definition rc_wait (c : ResumeCandidate) : Z := default 0 (waitTimeMs <$> rc_budget c).

(** What the candidates are compared by, in order; the identifiers decide a tie. *)
Definition resume_keys (c : ResumeCandidate) : list Z :=
  [healthRankForResume (default healthy (health <$> rc_health c));
   if rc_wait c =? 0 then 0 else 1;
   rc_wait c;
   default 0 (failures_of <$> workflow (rc_session c));
   default 0 (workflow (rc_session c) ≫= lastRunAt);
   p_createdAt (rc_pending c)].
Fixpoint first_difference (xs ys : list Z) (tie : Z) : Z :=
  match xs, ys with
  | x :: xs, y :: ys => if x =? y then first_difference xs ys tie else x - y
  | _, _ => tie
  end.

Section Pick.
(** [String.prototype.localeCompare]. *)
Context (localeCompare : jsstr → jsstr → Z).

Definition compare_candidates (a b : ResumeCandidate) : Z :=
  first_difference (resume_keys a) (resume_keys b) (localeCompare (rc_sessionID a) (rc_sessionID b)).

Definition eligible (owner : jsstr) (now : Z) (items : list ResumeCandidate) : list ResumeCandidate :=
  sort_by compare_candidates
    (filter (λ c, shouldResumePendingContinuation (rc_session c) (rc_status c) (rc_inFlight c) (rc_health c) (Some owner)
                    (rc_trigger c) now = true) items).

Definition room (maxCount : Z) (picked : list ResumeCandidate) : bool := Z.of_nat (length picked) <? maxCount.
Definition used (picked : list ResumeCandidate) (f : jsstr) : bool := existsb (λ c, bool_decide (rc_family c = Some f)) picked.

(** [family && usedFamilies.has(family)]: the families that are used are those of the candidates that are picked. *)
Definition taken (picked : list ResumeCandidate) (c : ResumeCandidate) : bool :=
  match rc_family c with Some f => used picked f | None => false end.

(** One for each family that is not used yet. *)
Fixpoint pick_families (maxCount : Z) (picked items : list ResumeCandidate) : list ResumeCandidate :=
  match items with
  | [] => picked
  | c :: rest =>
      if negb (room maxCount picked) then picked
      else if taken picked c then pick_families maxCount picked rest
      else pick_families maxCount (picked ++ [c]) rest
  end.

(** The places that are left. [includes] tells objects apart; the session does, when no session has two candidates. *)
Definition of_candidate (c d : ResumeCandidate) : bool := bool_decide (rc_sessionID d = rc_sessionID c).
Fixpoint pick_rest (maxCount : Z) (picked items : list ResumeCandidate) : list ResumeCandidate :=
  match items with
  | [] => picked
  | c :: rest =>
      if negb (room maxCount picked) then picked
      else if existsb (of_candidate c) picked then pick_rest maxCount picked rest
      else pick_rest maxCount (picked ++ [c]) rest
  end.

Definition preferred_first (maxCount : Z) (preferred : option jsstr) (items : list ResumeCandidate) : list ResumeCandidate :=
  match truthy preferred with
  | None => []
  | Some s =>
      match find (λ c, bool_decide (rc_sessionID c = s)) items with
      | Some c => if room maxCount [] then [c] else []
      | None => []
      end
  end.

Definition pickPendingContinuationsForResume (owner : jsstr) (now : Z) (items : list ResumeCandidate) (maxCount : Z)
    (preferred : option jsstr) : list ResumeCandidate :=
  let es := eligible owner now items in
  let maxCount := Z.max 0 maxCount in
  pick_rest maxCount (pick_families maxCount (preferred_first maxCount preferred es) es) es.
End Pick.

(** ** What a session does next *)

Definition AUTONOMOUS_RESUME_TEXT : jsstr := js "Continue with the current work based on the existing session context.".
Definition awaiting_approval : jsstr := js "awaiting_approval".
Definition approval_needed : jsstr := js "approval_needed".

Inductive FreerunState := fr_active | fr_no_root | fr_paused | fr_blocked | fr_settled | fr_none.
Inductive StopReason :=
| not_armed | subagent_session | todo_complete | freerun_no_root | freerun_paused | freerun_blocked | freerun_settled
| stop_dormant_scheduled | approval_required.
#[export] Instance StopReason_eq : EqDecision StopReason.
Proof. solve_decision. Defined.

Inductive AutonomousNextAction :=
| Stop (r : StopReason)
| ContinueTodo (r : continuation_reason) (text : jsstr) (todo : Info)
| ContinueFreerun (text : jsstr).

Definition kind_name (k : action_kind) : jsstr :=
  js match k with
     | implement => "implement" | delegate => "delegate" | wait => "wait" | approval => "approval" | decision => "decision"
     | push => "push" | destructive => "destructive" | architecture_change => "architecture_change"
     end.

Definition handed_back (todos : list Info) : bool := existsb (λ t, bool_decide (status t = awaiting_approval)) todos.

Definition isAutonomousApprovalGated (todos : list Info) (current : option Info) (w : WorkflowInfo) : bool :=
  handed_back todos ||
  match current ≫= action with
  | Some a => bool_decide (needsApproval a = Some true) &&
      bool_decide (kind_name (kind a) ∈ default [] (requireApprovalFor (autonomous w)))
  | None => false
  end.

Definition isGateSuspended (wf : option WorkflowInfo) (todos : list Info) : bool :=
  handed_back todos ||
  match wf with
  | Some w => bool_decide (state w = waiting_user) && bool_decide (stopReason w = Some approval_needed)
  | None => false
  end.

Definition planAutonomousNextAction (s : SessionInfo) (todos : list Info) (freerun : option FreerunState)
    (subagentTriggered : bool) (now : Z) : AutonomousNextAction :=
  if isDormantScheduled s then Stop stop_dormant_scheduled
  else match truthy (parentID s) with
  | Some _ => Stop subagent_session
  | None =>
      let w := default (defaultWorkflow now) (workflow s) in
      if negb (enabled (autonomous w)) && negb subagentTriggered then Stop not_armed
      else match freerun with
      | Some fr_active => ContinueFreerun (js "Drive the freerun ContextNode engine.")
      | Some fr_no_root => Stop freerun_no_root
      | Some fr_paused => Stop freerun_paused
      | Some fr_blocked => Stop freerun_blocked
      | Some fr_settled => Stop freerun_settled
      | Some fr_none | None =>
          let current := nextActionableTodo todos in
          if isAutonomousApprovalGated todos current w then Stop approval_required
          else match buildContinuationTrigger current AUTONOMOUS_RESUME_TEXT AUTONOMOUS_RESUME_TEXT with
               | None => Stop todo_complete
               | Some (source, text, t, _) => ContinueTodo source text t
               end
      end
  end.

Definition evaluateAutonomousContinuation := planAutonomousNextAction.

Inductive narration_kind := n_continue | n_pause | n_complete.
Definition describeAutonomousNextAction (a : AutonomousNextAction) : narration_kind * jsstr :=
  match a with
  | ContinueFreerun _ => (n_continue, js "Runner driving freerun ContextNode engine.")
  | ContinueTodo todo_in_progress _ t => (n_continue, js "Runner continuing current step: " ++ content t)
  | ContinueTodo todo_pending _ t => (n_continue, js "Runner starting next planned step: " ++ content t)
  | Stop todo_complete => (n_complete, js "Runner complete: the current planned todo set is done.")
  | Stop subagent_session => (n_pause, js "Autonomous continuation only runs for root sessions.")
  | Stop not_armed => (n_pause, js "Autonomous continuation is not armed for this session.")
  | Stop stop_dormant_scheduled =>
      (n_pause, js "Session is a dormant scheduled task; it fires on its schedule, not via autonomous continuation.")
  | Stop freerun_no_root => (n_pause, js "Freerun is armed but no ContextNode root has been seeded.")
  | Stop freerun_paused => (n_pause, js "Freerun engine is paused.")
  | Stop freerun_blocked => (n_pause, js "Freerun engine is blocked.")
  | Stop freerun_settled => (n_complete, js "Freerun engine has no remaining actionable nodes.")
  | Stop approval_required =>
      (n_pause, js "Paused for approval: the next step needs user sign-off before autonomous execution continues.")
  end.

Definition shouldInterruptAutonomousRun (s : SessionInfo) (st : SessionStatus) (lastUserSynthetic hasPending : bool) (now : Z) : bool :=
  if negb (bool_decide (st = st_busy)) then false
  else match truthy (parentID s) with
  | Some _ => false
  | None =>
      if negb (enabled (autonomous (default (defaultWorkflow now) (workflow s)))) then false
      else lastUserSynthetic || hasPending
  end.

(** *** The stored decision

    [decideAutonomousContinuation] reads the session, its todos, its queue entry and, when it is armed, what
    [FreerunBridge.classify] says; it may change the workflow of the session. *)
Definition armed (s : SessionInfo) : bool := match workflow s with Some w => enabled (autonomous w) | None => false end.
Definition disarm : policy_patch := mkPatch (Some false) None None None.

Definition already_suspended (w : WorkflowInfo) : bool :=
  bool_decide (state w = blocked) || bool_decide (state w = waiting_user) && non_resumable (stopReason w).

Definition decideAutonomousContinuation (s : SessionInfo) (todos : list Info) (entry : option QueueEntry)
    (classify : FreerunState) (now : Z) : SessionInfo * AutonomousNextAction :=
  let freerun := if armed s then Some classify else None in
  let subagentTriggered := isTaskCompletion (triggerType <$> entry) in
  let a := evaluateAutonomousContinuation s todos freerun subagentTriggered now in
  match a, workflow s with
  | Stop r, Some w =>
      if negb (armed s) then (s, a)
      else if decide (r = todo_complete ∨ r = freerun_settled) then
        (setWorkflowState (state w) (Some (js (if decide (r = freerun_settled) then "freerun_settled" else "plan_drained"))) None now
           (updateAutonomous disarm now s), a)
      else if decide (r = approval_required) then
        (if already_suspended w then s else setWorkflowState waiting_user (Some approval_needed) None now s, a)
      else (s, a)
  | _, _ => (s, a)
  end.

(** ** Theorems *)

(** *** What is next *)

(** The dependencies of a todo are todos of the list, and completed. *)
Definition depends_on (t : Info) : list jsstr := default [] (action t ≫= dependsOn).
Definition dependencies_done (t : Info) (todos : list Info) : Prop :=
  ∀ d, d ∈ depends_on t → ∃ c, find (λ c, bool_decide (id c = d)) todos = Some c ∧ status c = completed.

Lemma isDependencyReady_spec t todos : isDependencyReady t todos = true ↔ dependencies_done t todos.
Proof.
  unfold isDependencyReady, dependencies_done, depends_on. destruct (action t) as [[k r n c w [ds|]]|]; simpl; [|set_solver..].
  rewrite forallb_forall. split.
  - intros H d Hd%list_elem_of_In. specialize (H d Hd). destruct (find _ todos) as [c0|]; [|done].
    apply bool_decide_eq_true in H. eauto.
  - intros H d Hd%list_elem_of_In. destruct (H d Hd) as (c0 & -> & E). by apply bool_decide_eq_true.
Qed.

(** The step is in progress, or nothing is and it is the first pending one whose dependencies are completed. *)
Definition next_step (todos : list Info) (t : Info) : Prop :=
  (find (λ t, bool_decide (status t = in_progress)) todos = Some t ∧ status t = in_progress) ∨
  (Forall (λ t, status t ≠ in_progress) todos ∧ find (ready todos) todos = Some t ∧ status t = pending ∧ dependencies_done t todos).

Lemma nextActionable_spec todos t : nextActionableTodo todos = Some t ↔ next_step todos t.
Proof.
  unfold nextActionableTodo, next_step. destruct (find (λ t, bool_decide (status t = in_progress)) todos) as [u|] eqn:E; simpl.
  - pose proof E as [Hu Hin]%find_Some. apply bool_decide_eq_true in Hu. split.
    + intros [= <-]. by left.
    + intros [[[= <-] _]|[Hf _]]; [done|]. rewrite Forall_forall in Hf. by destruct (Hf u Hin).
  - pose proof (proj1 (find_None _ _) E) as Hn. assert (Hf : Forall (λ t, status t ≠ in_progress) todos).
    { apply Forall_forall. intros x Hx Hs. specialize (Hn x Hx). by apply bool_decide_eq_false in Hn. }
    split; [|intros [[? _]|(_ & H & _)]; done]. intros H. right. pose proof H as [Hr _]%find_Some.
    apply andb_true_iff in Hr as [Hp Hd]. apply bool_decide_eq_true in Hp. by apply isDependencyReady_spec in Hd.
Qed.

(** The policy asks for an approval of the step. *)
Definition needs_sign_off (w : WorkflowInfo) (t : Info) : Prop :=
  ∃ a, action t = Some a ∧ needsApproval a = Some true ∧ kind_name (kind a) ∈ default [] (requireApprovalFor (autonomous w)).

Lemma gated_spec todos t w :
  isAutonomousApprovalGated todos (Some t) w = false ↔ Forall (λ t, status t ≠ awaiting_approval) todos ∧ ¬ needs_sign_off w t.
Proof.
  unfold isAutonomousApprovalGated, handed_back, needs_sign_off. rewrite orb_false_iff. f_equiv.
  - rewrite Forall_forall. split.
    + intros H x Hx Hs. assert (existsb (λ t, bool_decide (status t = awaiting_approval)) todos = true) as Ht; [|congruence].
      apply existsb_exists. exists x. split; [by apply list_elem_of_In|by apply bool_decide_eq_true].
    + intros H. apply not_true_iff_false. intros (x & Hx%list_elem_of_In & Hs%bool_decide_eq_true)%existsb_exists. by destruct (H x Hx).
  - simpl. destruct (action t) as [a|]; simpl.
    + rewrite andb_false_iff, !bool_decide_eq_false. split.
      * intros H (a' & [= <-] & H1 & H2). by destruct H.
      * intros H. destruct (decide (needsApproval a = Some true)); [|by left]. right. intros H2. apply H. eauto.
    + split; [|done]. intros _ (a & Ha & _). done.
Qed.

(** The part of the plan that looks at the todos. *)
Definition planTodo (todos : list Info) (w : WorkflowInfo) : AutonomousNextAction :=
  let current := nextActionableTodo todos in
  if isAutonomousApprovalGated todos current w then Stop approval_required
  else match buildContinuationTrigger current AUTONOMOUS_RESUME_TEXT AUTONOMOUS_RESUME_TEXT with
       | None => Stop todo_complete
       | Some (source, text, t, _) => ContinueTodo source text t
       end.

Lemma planTodo_spec todos w r text t : planTodo todos w = ContinueTodo r text t ↔
  next_step todos t ∧ Forall (λ t, status t ≠ awaiting_approval) todos ∧ ¬ needs_sign_off w t ∧
  text = AUTONOMOUS_RESUME_TEXT ∧ r = (if decide (status t = in_progress) then todo_in_progress else todo_pending).
Proof.
  unfold planTodo. destruct (nextActionableTodo todos) as [u|] eqn:E.
  - pose proof (proj1 (nextActionable_spec todos u) E) as Hu. rewrite <- nextActionable_spec, E.
    pose proof (gated_spec todos u w) as Hg. destruct (isAutonomousApprovalGated todos (Some u) w).
    { split; [done|]. intros ([= <-] & H1 & H2 & _). by assert (true = false) by tauto. }
    destruct (proj1 Hg eq_refl) as [Hf Hs]. unfold buildContinuationTrigger.
    destruct (decide (status u = in_progress)) as [Ei|Ei].
    { split; [intros [= <- <- <-]; by rewrite decide_True|]. intros ([= <-] & _ & _ & -> & ->). by rewrite decide_True. }
    destruct Hu as [[_ Hu]|(_ & _ & Hu & _)]; [done|]. rewrite decide_True by done.
    split; [intros [= <- <- <-]; by rewrite decide_False|]. intros ([= <-] & _ & _ & -> & ->). by rewrite decide_False.
  - rewrite <- nextActionable_spec, E. unfold buildContinuationTrigger. destruct (isAutonomousApprovalGated _ _ _); naive_solver.
Qed.

Lemma plan_continues s todos freerun subagentTriggered now r text t :
  planAutonomousNextAction s todos freerun subagentTriggered now = ContinueTodo r text t ↔
  is_scheduled s = false ∧ truthy (parentID s) = None ∧
  (enabled (autonomous (default (defaultWorkflow now) (workflow s))) = true ∨ subagentTriggered = true) ∧
  (freerun = None ∨ freerun = Some fr_none) ∧
  next_step todos t ∧ Forall (λ t, status t ≠ awaiting_approval) todos ∧
  ¬ needs_sign_off (default (defaultWorkflow now) (workflow s)) t ∧
  text = AUTONOMOUS_RESUME_TEXT ∧ r = (if decide (status t = in_progress) then todo_in_progress else todo_pending).
Proof.
  unfold planAutonomousNextAction, isDormantScheduled. set (w := default (defaultWorkflow now) (workflow s)).
  destruct (is_scheduled s); [naive_solver|]. destruct (truthy (parentID s)); [naive_solver|].
  destruct (negb (enabled (autonomous w)) && negb subagentTriggered) eqn:Ea.
  { apply andb_true_iff in Ea as [H1%negb_true_iff H2%negb_true_iff]. split; [done|]. intros (_ & _ & [H|H] & _); congruence. }
  assert (Harm : enabled (autonomous w) = true ∨ subagentTriggered = true).
  { destruct (enabled (autonomous w)); [by left|]. destruct subagentTriggered; [by right|done]. }
  pose proof (planTodo_spec todos w r text t) as Hbody. unfold planTodo in Hbody.
  destruct freerun as [[]|]; try (split; [done|]; intros (_ & _ & _ & [?|?] & _); done); rewrite Hbody; naive_solver.
Qed.

(** C18. The autonomous workflow goes on with a todo exactly when it may: the session is no dormant scheduled one and no
    subagent's, it is armed or a subagent's end has woken it, freerun does not drive it, the todo is the step in progress
    or else the first pending one whose dependencies are all completed, no todo waits for an approval, and the policy asks
    for no approval of this step. The step then carries the fixed text and the reason of its status. *)
Theorem autonomous_continue_iff s todos freerun subagentTriggered now r text t :
  planAutonomousNextAction s todos freerun subagentTriggered now = ContinueTodo r text t ↔
  is_scheduled s = false ∧ truthy (parentID s) = None ∧
  (enabled (autonomous (default (defaultWorkflow now) (workflow s))) = true ∨ subagentTriggered = true) ∧
  (freerun = None ∨ freerun = Some fr_none) ∧
  next_step todos t ∧ Forall (λ t, status t ≠ awaiting_approval) todos ∧
  ¬ needs_sign_off (default (defaultWorkflow now) (workflow s)) t ∧
  text = AUTONOMOUS_RESUME_TEXT ∧ r = (if decide (status t = in_progress) then todo_in_progress else todo_pending).
Proof. exact (plan_continues s todos freerun subagentTriggered now r text t). Qed.

(** *** Which candidates are resumed *)

Section PickSpec.

Lemma used_spec picked f : used picked f = true ↔ f ∈ omap rc_family picked.
Proof.
  unfold used. rewrite existsb_exists, list_elem_of_omap. split.
  - intros (c & Hc%list_elem_of_In & E%bool_decide_eq_true). eauto.
  - intros (c & Hc%list_elem_of_In & E). exists c. split; [done|]. by apply bool_decide_eq_true.
Qed.

Lemma NoDup_snoc {A : Type} (xs : list A) x : NoDup xs → x ∉ xs → NoDup (xs ++ [x]).
Proof. intros Hn Hx. apply NoDup_app. split_and!; [done| |apply NoDup_singleton]. set_solver. Qed.

Lemma room_spec maxCount picked : room maxCount picked = true ↔ Z.of_nat (length picked) < maxCount.
Proof. unfold room. apply Z.ltb_lt. Qed.

(** [picked] is in the way of an item only with its family. *)
Definition blocked_by_family (picked items : list ResumeCandidate) : Prop :=
  ∀ c, c ∈ items → rc_sessionID c ∈ map rc_sessionID picked → taken picked c = true.

Lemma taken_spec picked c : taken picked c = true ↔ ∃ f, rc_family c = Some f ∧ f ∈ omap rc_family picked.
Proof.
  unfold taken. destruct (rc_family c) as [f|]; [|naive_solver]. rewrite used_spec. naive_solver.
Qed.
Lemma taken_app picked added c : taken picked c = true → taken (picked ++ added) c = true.
Proof. rewrite !taken_spec. intros (f & E & H). exists f. split; [done|]. rewrite omap_app. set_solver. Qed.

Lemma pick_families_spec maxCount picked items :
  NoDup (map rc_sessionID items) → NoDup (map rc_sessionID picked) → NoDup (omap rc_family picked) →
  blocked_by_family picked items → Z.of_nat (length picked) <= maxCount →
  ∃ added, let r := pick_families maxCount picked items in
    r = picked ++ added ∧ (∀ c, c ∈ added → c ∈ items) ∧ NoDup (map rc_sessionID r) ∧ NoDup (omap rc_family r) ∧
    Z.of_nat (length r) <= maxCount ∧
    (room maxCount r = false ∨ ∀ c, c ∈ items → rc_family c ≠ None → taken r c = true).
Proof.
  revert picked. induction items as [|c rest IH]; intros picked Hi Hp Hf Hb Hm; simpl.
  { exists []. rewrite app_nil_r. split_and!; try done. right. intros ? []%not_elem_of_nil. }
  apply NoDup_cons in Hi as [Hc Hi].
  assert (Hrest : blocked_by_family picked rest) by (intros d Hd; apply Hb; by right).
  destruct (room maxCount picked) eqn:Er; simpl; [|exists []; rewrite app_nil_r; split_and!; try done; [set_solver|by left]].
  apply room_spec in Er.
  destruct (taken picked c) eqn:Eu.
  - destruct (IH picked Hi Hp Hf Hrest Hm) as (added & H1 & H2 & H3 & H4 & H5 & H6). exists added.
    split_and!; try done; [set_solver|]. destruct H6 as [H6|H6]; [by left|right].
    intros d [->|Hd]%elem_of_cons Eg; [|by eapply H6]. rewrite H1. by apply taken_app.
  - assert (Hnew : rc_sessionID c ∉ map rc_sessionID picked) by (intros Hin; rewrite (Hb c) in Eu by (done || left); done).
    assert (Hfam : NoDup (omap rc_family (picked ++ [c])) ∧ (rc_family c ≠ None → taken (picked ++ [c]) c = true)).
    { rewrite omap_app. rewrite taken_spec. setoid_rewrite omap_app. simpl. revert Eu. unfold taken.
      destruct (rc_family c) as [f|]; [|by rewrite app_nil_r]. intros Eu. split.
      - apply NoDup_snoc; [done|]. intros Hin%used_spec. congruence.
      - intros _. exists f. set_solver. }
    destruct Hfam as [Hfam Htaken]. destruct (IH (picked ++ [c])) as (added & H1 & H2 & H3 & H4 & H5 & H6); try done.
    + rewrite map_app. by apply NoDup_snoc.
    + intros d Hd. rewrite map_app, elem_of_app. intros [Hin|Hin%list_elem_of_singleton]; [by apply taken_app, Hrest|].
      destruct Hc. rewrite <- Hin. by apply list_elem_of_fmap_2.
    + rewrite length_app. simpl. lia.
    + exists (c :: added). split_and!; try done; [by rewrite H1, <- app_assoc|set_solver|].
      destruct H6 as [H6|H6]; [by left|right]. intros d [->|Hd]%elem_of_cons Eg; [|by eapply H6].
      rewrite H1. by apply taken_app, Htaken.
Qed.

Lemma of_candidate_spec c picked : existsb (of_candidate c) picked = true ↔ rc_sessionID c ∈ map rc_sessionID picked.
Proof.
  unfold of_candidate. rewrite existsb_exists. split.
  - intros (d & Hd%list_elem_of_In & E%bool_decide_eq_true). rewrite <- E. by apply list_elem_of_fmap_2.
  - intros (d & E & Hd%list_elem_of_In)%list_elem_of_fmap. exists d. split; [done|by apply bool_decide_eq_true].
Qed.

Lemma pick_rest_spec maxCount picked items :
  NoDup (map rc_sessionID picked) → Z.of_nat (length picked) <= maxCount →
  ∃ added, let r := pick_rest maxCount picked items in
    r = picked ++ added ∧ (∀ c, c ∈ added → c ∈ items) ∧ NoDup (map rc_sessionID r) ∧ Z.of_nat (length r) <= maxCount ∧
    (room maxCount picked = false → r = picked) ∧
    (room maxCount r = false ∨ ∀ c, c ∈ items → rc_sessionID c ∈ map rc_sessionID r).
Proof.
  revert picked. induction items as [|c rest IH]; intros picked Hp Hm; simpl.
  { exists []. rewrite app_nil_r. split_and!; try done. right. intros ? []%not_elem_of_nil. }
  destruct (room maxCount picked) eqn:Er; simpl; [|exists []; rewrite app_nil_r; split_and!; try done; [set_solver|by left]].
  apply room_spec in Er. destruct (existsb _ picked) eqn:Eo.
  - apply of_candidate_spec in Eo. destruct (IH picked Hp Hm) as (added & H1 & H2 & H3 & H4 & _ & H6). exists added.
    split_and!; try done; [set_solver|]. destruct H6 as [H6|H6]; [by left|right].
    intros d [->|Hd]%elem_of_cons; [|by apply H6]. rewrite H1, map_app. set_solver.
  - assert (Hnew : rc_sessionID c ∉ map rc_sessionID picked) by (intros Hin%of_candidate_spec; congruence).
    destruct (IH (picked ++ [c])) as (added & H1 & H2 & H3 & H4 & _ & H6).
    + rewrite map_app. by apply NoDup_snoc.
    + rewrite length_app. simpl. lia.
    + exists (c :: added). split_and!; try done; [by rewrite H1, <- app_assoc|set_solver|].
      destruct H6 as [H6|H6]; [by left|right]. intros d [->|Hd]%elem_of_cons; [|by apply H6].
      rewrite H1, !map_app. set_solver.
Qed.

Lemma pick_families_full maxCount picked items : room maxCount picked = false → pick_families maxCount picked items = picked.
Proof. intros H. destruct items; simpl; by rewrite ?H. Qed.

Context (localeCompare : jsstr → jsstr → Z) (owner : jsstr) (now : Z) (items : list ResumeCandidate) (preferred : option jsstr).
Hypothesis sessions_distinct : NoDup (map rc_sessionID items).

Definition may_resume (c : ResumeCandidate) : Prop :=
  shouldResumePendingContinuation (rc_session c) (rc_status c) (rc_inFlight c) (rc_health c) (Some owner) (rc_trigger c) now = true.
#[export] Instance may_resume_dec c : Decision (may_resume c).
Proof. unfold may_resume. apply _. Defined.
Let es := eligible localeCompare owner now items.

Lemma eligible_perm : es ≡ₚ filter may_resume items.
Proof. apply sort_by_perm. Qed.
Lemma eligible_nodup : NoDup (map rc_sessionID es).
Proof. rewrite (Permutation_map rc_sessionID eligible_perm). by apply NoDup_map_filter. Qed.

(** The preferred candidate has a family, or there is room for one candidate only. *)
Definition preferred_once (maxCount : Z) : Prop :=
  ∀ c, c ∈ items → truthy preferred = Some (rc_sessionID c) → rc_family c ≠ None ∨ maxCount <= 1.

Lemma preferred_first_spec maxCount : preferred_once maxCount → 0 <= maxCount →
  let r := preferred_first maxCount preferred es in
  NoDup (map rc_sessionID r) ∧ NoDup (omap rc_family r) ∧ (∀ c, c ∈ r → c ∈ es) ∧ Z.of_nat (length r) <= maxCount ∧
  (room maxCount r = true → blocked_by_family r es) ∧
  (∀ c, c ∈ es → truthy preferred = Some (rc_sessionID c) → 0 < maxCount → r = [c]).
Proof.
  intros Hpre H0. assert (Hsame : ∀ c d, c ∈ es → d ∈ es → rc_sessionID c = rc_sessionID d → c = d).
  { intros c d. apply nodup_map_inj, eligible_nodup. }
  unfold preferred_first. destruct (truthy preferred) as [s|] eqn:Es.
  2: { simpl. split_and!; try constructor; try done; [set_solver|]. intros _ c _ []%not_elem_of_nil. }
  destruct (find _ es) as [c|] eqn:Ec.
  2: { simpl. split_and!; try constructor; try done; [set_solver|intros _ c _ []%not_elem_of_nil|].
       intros c Hc [= ->]. rewrite find_None in Ec. specialize (Ec c Hc). by rewrite bool_decide_true in Ec. }
  apply find_Some in Ec as [Hs%bool_decide_eq_true Hc].
  destruct (room maxCount []) eqn:Er; unfold room in Er; simpl in Er; bool_to_prop.
  2: { simpl. split_and!; try constructor; try done; [set_solver|intros _ d _ []%not_elem_of_nil|lia]. }
  simpl. split_and!.
  - apply NoDup_singleton.
  - destruct (rc_family c); [apply NoDup_singleton|constructor].
  - set_solver.
  - lia.
  - intros Hroom%room_spec d Hd Hin%list_elem_of_singleton. simpl in Hroom. assert (d = c) as -> by (by apply Hsame).
    destruct (Hpre c) as [Hf|Hf]; [|congruence| |lia].
    { rewrite eligible_perm in Hc. by apply list_elem_of_filter in Hc as [_ Hc]. }
    apply taken_spec. simpl. destruct (rc_family c) as [f|]; [|done]. exists f. set_solver.
  - intros d Hd [= E] _. f_equal. apply Hsame; congruence.
Qed.
End PickSpec.

(** The continuations that a tick resumes are candidates that may be resumed, no session twice, and as many as there
    is room for and candidates to resume; the preferred session is the first of them when it may be resumed at all; and
    they are of different families of providers, unless every family that is to be resumed has got one. *)
Theorem resume_pick (localeCompare : jsstr → jsstr → Z) owner now items maxCount preferred :
  NoDup (map rc_sessionID items) → preferred_once items preferred maxCount →
  let picked := pickPendingContinuationsForResume localeCompare owner now items maxCount preferred in
  NoDup (map rc_sessionID picked) ∧ (∀ c, c ∈ picked → c ∈ items ∧ may_resume owner now c) ∧
  Z.of_nat (length picked) = Z.min (Z.max 0 maxCount) (Z.of_nat (length (filter (may_resume owner now) items))) ∧
  (∀ c, c ∈ items → may_resume owner now c → truthy preferred = Some (rc_sessionID c) → 0 < maxCount → head picked = Some c) ∧
  (NoDup (omap rc_family picked) ∨
   ∀ c, c ∈ items → may_resume owner now c → rc_family c ≠ None → taken picked c = true).
Proof.
  intros Hn Hpre. unfold pickPendingContinuationsForResume. cbv zeta.
  pose proof (eligible_perm localeCompare owner now items) as Hperm.
  pose proof (eligible_nodup localeCompare owner now items Hn) as Hes.
  set (es := eligible localeCompare owner now items) in *. set (m := Z.max 0 maxCount).
  assert (Hin : ∀ c, c ∈ es ↔ c ∈ items ∧ may_resume owner now c).
  { intros c. rewrite Hperm, list_elem_of_filter. naive_solver. }
  destruct (preferred_first_spec localeCompare owner now items preferred Hn m) as (P1 & P2 & P3 & P4 & P5 & P6); [|lia|].
  { intros c Hc E. destruct (Hpre c Hc E); [by left|right; lia]. }
  fold es in P3, P5, P6. set (first := preferred_first m preferred es) in *.
  assert (Hfam : ∃ added, let r := pick_families m first es in
    r = first ++ added ∧ (∀ c, c ∈ added → c ∈ es) ∧ NoDup (map rc_sessionID r) ∧ NoDup (omap rc_family r) ∧
    Z.of_nat (length r) <= m ∧ (room m r = false ∨ ∀ c, c ∈ es → rc_family c ≠ None → taken r c = true)).
  { destruct (room m first) eqn:Er; [apply pick_families_spec; auto|].
    exists []. rewrite pick_families_full, app_nil_r by done. split_and!; try done; [set_solver|by left]. }
  destruct Hfam as (added & F1 & F2 & F3 & F4 & F5 & F6). set (r := pick_families m first es) in *.
  destruct (pick_rest_spec m r es F3 F5) as (more & R1 & R2 & R3 & R4 & R5 & R6). set (picked := pick_rest m r es) in *.
  assert (Hsub : ∀ c, c ∈ picked → c ∈ es) by (intros c; rewrite R1, F1, !elem_of_app; naive_solver).
  split_and!.
  - done.
  - intros c Hc. by apply Hin, Hsub.
  - rewrite <- Hperm. assert (length picked ≤ length es)%nat as Hle.
    { apply submseteq_length, NoDup_submseteq; [by eapply (NoDup_fmap_1 rc_sessionID)|done]. }
    destruct R6 as [R6|R6]; [unfold room in R6; bool_to_prop; lia|].
    assert (length es ≤ length picked)%nat; [|lia].
    rewrite <- (length_map rc_sessionID es), <- (length_map rc_sessionID picked).
    apply submseteq_length, NoDup_submseteq; [done|]. intros s (c & -> & Hc)%list_elem_of_fmap. by apply R6.
  - intros c Hc Hr E Hm. assert (first = [c]) as E1 by (apply P6; [by apply Hin|done|lia]). by rewrite R1, F1, E1.
  - destruct F6 as [F6|F6]; [left; by rewrite (R5 F6)|right]. intros c Hc Hr Hf. rewrite R1.
    apply taken_app. exact (F6 c (proj2 (Hin c) (conj Hc Hr)) Hf).
Qed.

(** *** Whether and when to resume *)

Lemma push_if_nil b r rs : push_if b r ++ rs = [] ↔ b = false ∧ rs = [].
Proof. destruct b; simpl; [split; [done|intros [? _]; done]|tauto]. Qed.

(** What must hold of the workflow, unless a subagent's end has queued the continuation. *)
Definition workflow_resumable (wf : WorkflowInfo) (h : AutonomousWorkflowHealth) : Prop :=
  enabled (autonomous wf) = true ∧ h_state h ≠ blocked ∧ h_state h ≠ wf_completed ∧
  (h_state h = waiting_user → default [] (h_stopReason h) ∉ NON_RESUMABLE_WAITING_REASONS).

Lemma workflow_reasons wf h (task : bool) rs :
  push_if (negb task && negb (enabled (autonomous wf))) autonomous_disabled ++
  push_if (negb task && bool_decide (h_state h = blocked)) workflow_blocked ++
  push_if (negb task && bool_decide (h_state h = wf_completed)) workflow_completed ++
  push_if (negb task && bool_decide (h_state h = waiting_user) && non_resumable (h_stopReason h))
    (waiting_user_non_resumable (default [] (h_stopReason h))) ++ rs = [] ↔
  (task = true ∨ workflow_resumable wf h) ∧ rs = [].
Proof.
  rewrite !push_if_nil. unfold workflow_resumable, non_resumable. destruct task; simpl; [naive_solver|].
  rewrite negb_false_iff, andb_false_iff, !bool_decide_eq_false.
  destruct (decide (h_state h = waiting_user)); naive_solver.
Qed.

(** A continuation is resumed when its session is not dormant, idle and not in flight, its workflow allows it, it is not
    waiting after a failure and nobody else has the lease. *)
Theorem resumable_iff s status inFlight h owner trigger now :
  shouldResumePendingContinuation s status inFlight (Some h) owner trigger now = true ↔
  is_scheduled s = false ∧ inFlight = false ∧ status = st_idle ∧
  (isTaskCompletion trigger = true ∨ workflow_resumable (default (defaultWorkflow now) (workflow s)) h) ∧
  default 0 (retryAt (h_supervisor h)) <= now ∧ foreign_lease (h_supervisor h) owner now = false.
Proof.
  unfold shouldResumePendingContinuation, inspectPendingContinuationResumability. simpl. rewrite bool_decide_eq_true.
  unfold blockedReasons, isDormantScheduled. simpl default. do 4 rewrite push_if_nil. rewrite workflow_reasons.
  rewrite (push_if_nil _ supervisor_retry_backoff), <- (app_nil_r (push_if _ supervisor_foreign_lease)), push_if_nil, Z.ltb_ge.
  rewrite !bool_decide_eq_false. destruct status; naive_solver.
Qed.

(** The time to wait grows with the failures, from fifteen seconds to five minutes; a provider's own wait may be longer. *)
Theorem resume_backoff now n n' c w : n <= n' →
  15000 <= computeResumeBackoffMs n <= 300000 ∧ computeResumeBackoffMs n <= computeResumeBackoffMs n' ∧
  now + computeResumeBackoffMs n <= computeResumeRetryAt now n c w <= now + Z.max 300000 (default 0 w).
Proof.
  intros Hn. assert (Hb : ∀ k, 15000 <= computeResumeBackoffMs k <= 300000).
  { intros k. unfold computeResumeBackoffMs. pose proof (Z.pow_pos_nonneg 2 (Z.max 1 k - 1)). lia. }
  split_and!; try apply Hb.
  - unfold computeResumeBackoffMs. pose proof (Z.pow_le_mono_r 2 (Z.max 1 n - 1) (Z.max 1 n' - 1)). lia.
  - unfold computeResumeRetryAt. case_decide; lia.
  - unfold computeResumeRetryAt. pose proof (Hb n). case_decide; lia.
Qed.

Lemma resume_backoff_witness : 1 <= 2 ∧ computeResumeBackoffMs 1 <= computeResumeBackoffMs 2.
Proof. split; [lia|]. apply (resume_backoff 0 1 2 unknown None). lia. Defined.

(** *** Candidates, concretely *)

Definition demo_candidate (s : string) (created : Z) (b : option budget) : ResumeCandidate :=
  mkCandidate (demo_pending s created) None
    (mkSession None false 0 (Some (mkWorkflow (mkPolicyA true None None None) waiting_user None 0 None None None)))
    st_idle false None b.
Definition demo_candidates : list ResumeCandidate :=
  [demo_candidate "ses_a" 1 (Some (mkBudget (js "openai") 0)); demo_candidate "ses_b" 2 (Some (mkBudget (js "openai") 0));
   demo_candidate "ses_c" 3 None; demo_candidate "ses_d" 4 (Some (mkBudget (js "google") 0))].

Lemma resume_pick_witness :
  let picked := pickPendingContinuationsForResume string_cmp (js "me") 10 demo_candidates 3 (Some (js "ses_b")) in
  map rc_sessionID picked = [js "ses_b"; js "ses_c"; js "ses_d"] ∧ NoDup (map rc_sessionID picked).
Proof.
  split; [by vm_compute|].
  assert (Hn : NoDup (map rc_sessionID demo_candidates)) by by_compute.
  assert (Hp : preferred_once demo_candidates (Some (js "ses_b")) 3).
  { intros c Hc E. left. repeat (apply elem_of_cons in Hc as [->|Hc]; [by vm_compute|]). by apply not_elem_of_nil in Hc. }
  apply (resume_pick string_cmp (js "me") 10 demo_candidates 3 (Some (js "ses_b")) Hn Hp).
Defined.

(** A preferred session whose model is not known is resumed twice, when there is room for two. *)
Example preferred_twice :
  map rc_sessionID (pickPendingContinuationsForResume string_cmp (js "me") 10 [demo_candidate "ses_c" 3 None] 2 (Some (js "ses_c")))
  = [js "ses_c"; js "ses_c"].
Proof. by vm_compute. Qed.
