(* ===== verification/KillSwitch.v ===== *)
(** * The kill switch ([server/killswitch/service.ts], [server/routes/killswitch.ts])

    The switch, its storage and the handlers of its routes.  A record of storage
    that is absent or cannot be read is none.  A handler is one step, with one
    clock; the random parts of identifiers and codes are arguments, and so is
    what [SessionPrompt.cancel] and the end of a child say: an error or nothing.
    Events and log lines have no effect here. *)
From stdpp Require Import gmap.
From S2P Require Import Prelude JsString.
Open Scope Z_scope.

(** ** Storage *)

Inductive pause_state := soft_paused | inactive.
Record State := mkState {
  active : bool;
  pause : pause_state;
  k_requestID : jsstr;
  k_initiator : jsstr;
  k_reason : jsstr;
  initiatedAt : Z;
  mode : jsstr;
  scope : jsstr;
  workspaceId : option jsstr;
  ttl : option Z;
  snapshotURL : option jsstr
}.

Record token := mkToken { t_initiator : jsstr; t_code : jsstr; expiresAt : Z }.
Record audit_entry := mkAudit {
  a_action : jsstr; a_requestID : option jsstr; a_sessionID : option jsstr; a_result : option jsstr; a_reason : option jsstr }.

(** [stopped] lists the sessions whose execution was cancelled, the last first. *)
Record store := mkStore {
  current : option State;
  cooldowns : gmap jsstr Z;
  requests : gmap jsstr (jsstr * Z);
  tokens : gmap jsstr token;
  seqs : gmap (jsstr * jsstr) Z;
  audits : list audit_entry;
  stopped : list jsstr
}.

Definition with_current (c : option State) (k : store) : store :=
  mkStore c (cooldowns k) (requests k) (tokens k) (seqs k) (audits k) (stopped k).
Definition writeAudit (a : audit_entry) (k : store) : store :=
  mkStore (current k) (cooldowns k) (requests k) (tokens k) (seqs k) (a :: audits k) (stopped k).
Definition with_tokens (m : gmap jsstr token) (k : store) : store :=
  mkStore (current k) (cooldowns k) (requests k) m (seqs k) (audits k) (stopped k).
Definition cancelSessionExecution (s : jsstr) (k : store) : store :=
  mkStore (current k) (cooldowns k) (requests k) (tokens k) (seqs k) (audits k) (s :: stopped k).

(** ** Cooldown, identifiers and codes *)

Definition checkCooldown (initiator : jsstr) (windowMs now : Z) (k : store) : (bool * Z) * store :=
  let refused := match cooldowns k !! initiator with
    | Some at_ => if now - at_ <? windowMs then Some (windowMs - (now - at_)) else None
    | None => None
    end in
  match refused with
  | Some ms => ((false, ms), k)
  | None => ((true, 0), mkStore (current k) (<[initiator := now]> (cooldowns k)) (requests k) (tokens k) (seqs k) (audits k) (stopped k))
  end.

Definition idempotency_key (initiator reason : jsstr) : jsstr := initiator ++ js "::" ++ reason.
Definition idempotentRequestID (initiator reason random : jsstr) (windowMs now : Z) (k : store) : jsstr * store :=
  let key := idempotency_key initiator reason in
  let kept := match requests k !! key with
    | Some (r, at_) => if now - at_ <? windowMs then Some r else None
    | None => None
    end in
  match kept with
  | Some r => (r, k)
  | None =>
      let r := js "ks_" ++ show_Z now ++ js "_" ++ random in
      (r, mkStore (current k) (cooldowns k) (<[key := (r, now)]> (requests k)) (tokens k) (seqs k) (audits k) (stopped k))
  end.

Definition MFA_TTL_MS : Z := 300000.
Definition generateMfa (requestID initiator code : jsstr) (ttlMs now : Z) (k : store) : store :=
  with_tokens (<[requestID := mkToken initiator code (now + ttlMs)]> (tokens k)) k.
Definition verifyMfa (requestID initiator code : jsstr) (now : Z) (k : store) : bool * store :=
  match tokens k !! requestID with
  | None => (false, k)
  | Some t =>
      if negb (bool_decide (t_initiator t = initiator)) then (false, k)
      else if expiresAt t <? now then (false, k)
      else if negb (bool_decide (t_code t = code)) then (false, k)
      else (true, with_tokens (delete requestID (tokens k)) k)
  end.

(** ** The switch *)

Definition DEFAULT_TTL_MS : Z := 300000.
Definition expired (s : State) (now : Z) : bool := active s && (default DEFAULT_TTL_MS (ttl s) <? now - initiatedAt s).

Definition setState (s : State) (k : store) : store := with_current (Some s) k.
Definition clearState (k : store) : store := with_current None k.
Definition getState (now : Z) (k : store) : option State * store :=
  match current k with
  | None => (None, k)
  | Some s => if expired s now then (None, clearState k) else (Some s, k)
  end.

(** The state that blocks, if one does. *)
Definition assertSchedulingAllowed (ws : option jsstr) (now : Z) (k : store) : option State * store :=
  let (st, k) := getState now k in
  (match st with
   | None => None
   | Some s =>
       if negb (active s) then None
       else match workspaceId s with
       | None | Some [] => Some s
       | Some w =>
           if bool_decide (scope s = js "global") then Some s
           else match ws with
           | Some (c :: ws) => if negb (bool_decide (w = c :: ws)) then None else Some s
           | _ => Some s
           end
       end
   end, k).

(** ** Control of one session *)

Inductive ControlAction := c_pause | c_resume | c_cancel | c_snapshot | c_set_priority.
Inductive ack_status := accepted | rejected | ack_error.
#[export] Instance ack_status_eq : EqDecision ack_status.
Proof. solve_decision. Defined.
Record Ack := mkAck { ack_request : jsstr; ack_session : jsstr; ack_seq : Z; ack_st : ack_status; ack_reason : option jsstr }.

Definition getLastSeq (r s : jsstr) (k : store) : Z := default 0 (seqs k !! (r, s)).
Definition setLastSeq (r s : jsstr) (seq : Z) (k : store) : store :=
  mkStore (current k) (cooldowns k) (requests k) (tokens k) (<[(r, s) := seq]> (seqs k)) (audits k) (stopped k).

Definition audit_of (action : string) (r s : jsstr) (result : option string) (why : option jsstr) : audit_entry :=
  mkAudit (js action) (Some r) (Some s) (js <$> result) why.
Definition status_text (st : ack_status) : string :=
  match st with accepted => "accepted" | rejected => "rejected" | ack_error => "error" end.

(** [cancel_error] is what the cancellation throws. *)
Definition stops (a : ControlAction) : bool := match a with c_cancel | c_pause => true | _ => false end.
Definition handleControl (r s : jsstr) (seq : Z) (a : ControlAction) (cancel_error : option jsstr) (k : store) : Ack * store :=
  let answer st why k := (mkAck r s seq st why, writeAudit (audit_of "control.ack" r s (Some (status_text st)) why) k) in
  if seq <=? getLastSeq r s k then answer rejected (Some (js "seq_not_higher")) k
  else
    let k := setLastSeq r s seq k in
    if stops a then
      match cancel_error with
      | Some e => answer ack_error (Some e) k
      | None => answer accepted None (cancelSessionExecution s k)
      end
    else answer accepted None k.

(** The acknowledgement, or nothing when it comes after the timeout; the control is handled all the same. *)
Definition publishControl (r s : jsstr) (seq : Z) (a : ControlAction) (cancel_error : option jsstr) (timed_out : bool) (k : store) :
    option Ack * store :=
  let k := writeAudit (audit_of "control.publish" r s None None) k in
  let (ack, k) := handleControl r s seq a cancel_error k in
  if timed_out then (None, writeAudit (audit_of "control.timeout" r s None (Some (js "ACK timeout"))) k) else (Some ack, k).

Definition forceKill (s r : jsstr) (why : jsstr) (k : store) : store :=
  writeAudit (audit_of "worker.force_kill" r s None (Some why)) (cancelSessionExecution s k).

(** [listBusySessionIDs]: [workspace_of] gives the workspace of a session, when it is known. *)
Definition listBusySessionIDs (busy : list jsstr) (workspace_of : jsstr → option jsstr) (ws : option jsstr) : list jsstr :=
  match ws with
  | None | Some [] => busy
  | Some w => filter (λ s, workspace_of s = Some w) busy
  end.

(** ** Routes *)

(** What the check of the operator answers, [None] when it lets the request through. *)
Record rejection := mkRejection { rej_status : Z; rej_error : string }.

Inductive trigger_response :=
| TriggerRejected (r : rejection)
| CooldownActive (remainingMs : Z)
| MfaRequired (requestID : jsstr)
| MfaInvalid (requestID : jsstr)
| Triggered (requestID : jsstr).

Record TriggerInput := mkTrigger {
  in_initiator : jsstr;
  in_reason : jsstr;
  in_mode : jsstr;
  in_scope : jsstr;
  in_workspace : option jsstr;
  in_ttl : option Z;
  in_code : option jsstr;
  in_requestID : option jsstr
}.

(** A code that is empty counts as none. *)
Definition given_code (i : TriggerInput) : option jsstr := match in_code i with Some [] => None | c => c end.
Definition given_workspace (i : TriggerInput) : option jsstr := match in_workspace i with Some [] => None | w => w end.
Definition trigger_scope (i : TriggerInput) : jsstr := match given_workspace i with Some _ => js "workspace" | None => in_scope i end.

(** One busy session is told to stop; it is killed when it does not accept, and counts as a failure. *)
Definition stop_one (r : jsstr) (now : Z) (outcome : jsstr → option jsstr * bool) (acc : bool * store) (s : jsstr) : bool * store :=
  let (cancel_error, timed_out) := outcome s in
  match publishControl r s now c_cancel cancel_error timed_out acc.2 with
  | (Some ack, k) =>
      if decide (ack_st ack = accepted) then (acc.1, k)
      else (true, forceKill s r (js "ack_" ++ js (status_text (ack_st ack))) k)
  | (None, k) => (true, forceKill s r (js "ack_timeout") k)
  end.

Section Routes.
(** The text after which a code and an identifier are drawn; the snapshot's address; how cancelling a session ends. *)
Context (random code : jsstr) (snapshot : option jsstr) (outcome : jsstr → option jsstr * bool).
Context (busy : list jsstr) (workspace_of : jsstr → option jsstr).

Definition trigger (operator : option rejection) (i : TriggerInput) (now : Z) (k : store) : trigger_response * store :=
  match operator with
  | Some r => (TriggerRejected r, k)
  | None =>
      match checkCooldown (in_initiator i) 5000 now k with
      | ((false, ms), k) => (CooldownActive ms, k)
      | ((true, _), k) =>
          let (r, k) := match in_requestID i with
            | Some r => (r, k)
            | None => idempotentRequestID (in_initiator i) (in_reason i) random 10000 now k
            end in
          let note action result := mkAudit (js action) (Some r) None (Some (js result)) None in
          match given_code i with
          | None =>
              (MfaRequired r,
               writeAudit (note "kill_switch.mfa_challenge_generated" "challenge")%string
                 (generateMfa r (in_initiator i) code MFA_TTL_MS now k))
          | Some c =>
              let (ok, k) := verifyMfa r (in_initiator i) c now k in
              if negb ok then (MfaInvalid r, writeAudit (note "kill_switch.mfa_failed" "denied")%string k)
              else
                let k := setState (mkState true soft_paused r (in_initiator i) (in_reason i) now (in_mode i) (trigger_scope i)
                  (in_workspace i) (in_ttl i) snapshot) k in
                let k := writeAudit (note "kill_switch.trigger" "accepted")%string k in
                let (failures, k) := fold_left (stop_one r now outcome) (listBusySessionIDs busy workspace_of (in_workspace i)) (false, k) in
                (Triggered r,
                 if failures then
                   writeAudit (mkAudit (js "kill_switch.trigger_partial") (Some r) None (Some (js "partial"))
                     (Some (js "some_sessions_force_killed"))) k
                 else k)
          end
      end
  end.
End Routes.

Inductive simple_response := S_Rejected (r : rejection) | S_Cooldown (remainingMs : Z) | S_Ok.
Definition cancel (operator : option rejection) (initiator : jsstr) (requestID : option jsstr) (now : Z) (k : store) :
    simple_response * store :=
  match operator with
  | Some r => (S_Rejected r, k)
  | None =>
      match checkCooldown initiator 5000 now k with
      | ((false, ms), k) => (S_Cooldown ms, k)
      | ((true, _), k) =>
          (S_Ok, writeAudit (mkAudit (js "kill_switch.cancel") requestID None (Some (js "accepted")) None) (clearState k))
      end
  end.

(** ** Theorems *)

(** *** Controls *)

Record control := mkControl { c_request : jsstr; c_session : jsstr; c_seq : Z; c_action : ControlAction; c_error : option jsstr }.
Fixpoint run_controls (cs : list control) (k : store) : list Ack * store :=
  match cs with
  | [] => ([], k)
  | c :: cs =>
      let (a, k) := handleControl (c_request c) (c_session c) (c_seq c) (c_action c) (c_error c) k in
      let (acks, k) := run_controls cs k in (a :: acks, k)
  end.

Lemma handleControl_spec r s seq a e k :
  let (ack, k') := handleControl r s seq a e k in
  ack_request ack = r ∧ ack_session ack = s ∧ ack_seq ack = seq ∧
  (ack_st ack = rejected ↔ seq <= getLastSeq r s k) ∧
  (ack_st ack = rejected → seqs k' = seqs k ∧ stopped k' = stopped k) ∧
  (ack_st ack ≠ rejected → seqs k' = <[(r, s) := seq]> (seqs k)) ∧
  stopped k' = (if decide (ack_st ack = accepted ∧ stops a = true) then s :: stopped k else stopped k).
Proof.
  unfold handleControl. destruct (Z.leb_spec seq (getLastSeq r s k)) as [H|H]; simpl.
  - split_and!; try done.
  - destruct (stops a); [destruct e as [e|]|]; simpl; split_and!; try done; try (intros; exfalso; done); split; try done; lia.
Qed.

Lemma getLastSeq_mono r s seq a e k r' s' :
  getLastSeq r' s' k <= getLastSeq r' s' (handleControl r s seq a e k).2.
Proof.
  pose proof (handleControl_spec r s seq a e k) as H. destruct (handleControl r s seq a e k) as [ack k'].
  destruct H as (_ & _ & _ & Hr & Hk & Hs & _). simpl. unfold getLastSeq in *.
  destruct (decide (ack_st ack = rejected)) as [E|E]; [by rewrite (proj1 (Hk E))|]. rewrite (Hs E).
  destruct (decide ((r', s') = (r, s))) as [[= -> ->]|Hne].
  - rewrite lookup_insert_eq. simpl. assert (¬ seq <= default 0 (seqs k !! (r, s))) by tauto. lia.
  - by rewrite lookup_insert_ne by congruence.
Qed.

Lemma run_controls_above cs k a :
  a ∈ (run_controls cs k).1 → ack_st a ≠ rejected → getLastSeq (ack_request a) (ack_session a) k < ack_seq a.
Proof.
  revert k. induction cs as [|c cs IH]; intros k; simpl; [by intros ?%not_elem_of_nil|].
  pose proof (handleControl_spec (c_request c) (c_session c) (c_seq c) (c_action c) (c_error c) k) as H.
  pose proof (getLastSeq_mono (c_request c) (c_session c) (c_seq c) (c_action c) (c_error c) k
    (ack_request a) (ack_session a)) as Hm.
  destruct (handleControl _ _ _ _ _ k) as [ack k']. destruct H as (E1 & E2 & E3 & Hr & _). specialize (IH k').
  destruct (run_controls cs k') as [acks k'']. simpl in *. intros [->|Ha]%elem_of_cons Hs.
  - rewrite E1, E2, E3. destruct (Z.le_gt_cases (c_seq c) (getLastSeq (c_request c) (c_session c) k)); [tauto|lia].
  - specialize (IH Ha Hs). lia.
Qed.

(** One request carries out the controls of a session in the order of their numbers. *)
Definition in_order (a b : Ack) : Prop :=
  ack_request a = ack_request b → ack_session a = ack_session b → ack_st a ≠ rejected → ack_st b ≠ rejected → ack_seq a < ack_seq b.

(** However the controls of a kill switch come in, those of one request for one session that are carried out have
    strictly increasing numbers: a control that comes again, or late, is rejected. *)
Theorem control_order cs k : ForallOrdPairs in_order (run_controls cs k).1.
Proof.
  revert k. induction cs as [|c cs IH]; intros k; simpl; [constructor|].
  pose proof (handleControl_spec (c_request c) (c_session c) (c_seq c) (c_action c) (c_error c) k) as H.
  destruct (handleControl _ _ _ _ _ k) as [ack k']. destruct H as (E1 & E2 & E3 & _ & _ & Hs & _).
  pose proof (run_controls_above cs k') as Ha. specialize (IH k'). destruct (run_controls cs k') as [acks k''].
  simpl in *. constructor; [|done]. apply Forall_forall. intros b Hb Er Es Hna Hnb.
  specialize (Ha b Hb Hnb). rewrite <- Er, <- Es in Ha. unfold getLastSeq in Ha. rewrite (Hs Hna), E1, E2, lookup_insert_eq in Ha.
  simpl in Ha. lia.
Qed.

(** *** What the switch blocks *)

(** A caller that names its workspace is let through by the switch of another one. *)
Definition lets_through (s : State) (ws : option jsstr) : Prop :=
  scope s ≠ js "global" ∧ ∃ c w c' w', workspaceId s = Some (c :: w) ∧ ws = Some (c' :: w') ∧ c :: w ≠ c' :: w'.

(** Scheduling is refused exactly while the switch is set and has not expired (after its own time or five minutes),
    unless it is for one workspace only and the caller names another one. *)
Theorem scheduling_blocked_iff ws now k s :
  (assertSchedulingAllowed ws now k).1 = Some s ↔
  current k = Some s ∧ active s = true ∧ now - initiatedAt s <= default DEFAULT_TTL_MS (ttl s) ∧ ¬ lets_through s ws.
Proof.
  unfold assertSchedulingAllowed, getState, lets_through. destruct (current k) as [s0|]; [|naive_solver].
  unfold expired. destruct (active s0) eqn:Ea; simpl.
  2: { split; [by rewrite Ea|]. intros ([= ->] & E & _). congruence. }
  destruct (Z.ltb_spec (default DEFAULT_TTL_MS (ttl s0)) (now - initiatedAt s0)) as [Ht|Ht]; simpl.
  { split; [done|]. intros ([= ->] & _ & H & _). lia. }
  rewrite Ea. simpl. destruct (workspaceId s0) as [[|c w]|] eqn:Ew.
  - split; [intros [= <-]; split_and!; try done; naive_solver|]. by intros ([= ->] & _).
  - destruct (bool_decide_reflect (scope s0 = js "global")) as [Eg|Eg].
    { split; [intros [= <-]; split_and!; try done; naive_solver|]. by intros ([= ->] & _). }
    destruct ws as [[|c' w']|].
    + split; [intros [= <-]; split_and!; try done; naive_solver|]. by intros ([= ->] & _).
    + destruct (bool_decide_reflect (c :: w = c' :: w')) as [E|E]; simpl.
      * split; [intros [= <-]; split_and!; try done; naive_solver|]. by intros ([= ->] & _).
      * split; [done|]. intros ([= ->] & _ & _ & H). destruct H. split; [done|]. naive_solver.
    + split; [intros [= <-]; split_and!; try done; naive_solver|]. by intros ([= ->] & _).
  - split; [intros [= <-]; split_and!; try done; naive_solver|]. by intros ([= ->] & _).
Qed.

(** *** Who may set it *)

Lemma stop_one_frame r now outcome acc s :
  current (stop_one r now outcome acc s).2 = current acc.2 ∧ tokens (stop_one r now outcome acc s).2 = tokens acc.2.
Proof.
  unfold stop_one, publishControl, handleControl. destruct (outcome s) as [e t]. simpl.
  destruct (_ <=? _); simpl; [|destruct e as [e|]; simpl]; destruct t; simpl; by try case_decide.
Qed.
Lemma stop_all_frame r now outcome ss acc :
  current (fold_left (stop_one r now outcome) ss acc).2 = current acc.2 ∧
  tokens (fold_left (stop_one r now outcome) ss acc).2 = tokens acc.2.
Proof.
  revert acc. induction ss as [|s ss IH]; intros acc; simpl; [done|].
  destruct (IH (stop_one r now outcome acc s)) as [-> ->]. apply stop_one_frame.
Qed.

Lemma checkCooldown_frame i w now k :
  let '(_, k') := checkCooldown i w now k in current k' = current k ∧ tokens k' = tokens k ∧ requests k' = requests k.
Proof. unfold checkCooldown. destruct (cooldowns k !! i); [destruct (_ <? _)|]; done. Qed.
Lemma idempotent_frame i why rnd w now k :
  let '(_, k') := idempotentRequestID i why rnd w now k in current k' = current k ∧ tokens k' = tokens k.
Proof. unfold idempotentRequestID. destruct (requests k !! _) as [[? ?]|]; [destruct (_ <? _)|]; done. Qed.

(** The code that was sent out for the request, to this initiator, and is still good. *)
Definition good_code (k : store) (r initiator c : jsstr) (now : Z) : Prop :=
  ∃ t, tokens k !! r = Some t ∧ t_initiator t = initiator ∧ t_code t = c ∧ now <= expiresAt t.

Lemma verifyMfa_spec r i c now k :
  let (ok, k') := verifyMfa r i c now k in
  current k' = current k ∧ (ok = true ↔ good_code k r i c now) ∧
  tokens k' = if ok then delete r (tokens k) else tokens k.
Proof.
  unfold verifyMfa, good_code. destruct (tokens k !! r) as [t|]; [|naive_solver].
  destruct (bool_decide_reflect (t_initiator t = i)); simpl; [|naive_solver].
  destruct (Z.ltb_spec (expiresAt t) now); simpl; [split_and!; try done; split; [done|]; intros (? & [= <-] & _ & _ & ?); lia|].
  destruct (bool_decide_reflect (t_code t = c)); simpl; [|naive_solver]. split_and!; try done. split; [|done]. eauto.
Qed.

(** The kill switch is set only by a request that the operator check and the cooldown let through and that has the
    code that was sent out for it to this initiator and has not expired; the code then is used up. Whatever else the
    route answers, the switch is as it was. *)
Theorem kill_trigger_guarded random code snapshot outcome busy workspace_of operator i now k :
  let '(answer, k') := trigger random code snapshot outcome busy workspace_of operator i now k in
  match answer with
  | Triggered r =>
      operator = None ∧ (checkCooldown (in_initiator i) 5000 now k).1.1 = true ∧
      (∃ c, given_code i = Some c ∧ good_code k r (in_initiator i) c now) ∧ tokens k' !! r = None ∧
      (∃ s, current k' = Some s ∧ active s = true ∧ initiatedAt s = now ∧ k_requestID s = r ∧ workspaceId s = in_workspace i)
  | _ => current k' = current k
  end.
Proof.
  unfold trigger. destruct operator; [done|].
  pose proof (checkCooldown_frame (in_initiator i) 5000 now k) as Hc.
  destruct (checkCooldown (in_initiator i) 5000 now k) as [[[] ms] k1]; simpl; [|apply Hc]. destruct Hc as (Hc & Ht & _).
  set (ids := match in_requestID i with Some r => (r, k1) | None => _ end).
  assert (Hids : current ids.2 = current k ∧ tokens ids.2 = tokens k).
  { unfold ids. destruct (in_requestID i); [done|].
    pose proof (idempotent_frame (in_initiator i) (in_reason i) random 10000 now k1) as H.
    destruct (idempotentRequestID _ _ _ _ _ _). simpl. by rewrite (proj1 H), (proj2 H). }
  destruct ids as [r k2]. simpl in Hids. destruct Hids as [Hc2 Ht2]. destruct (given_code i) as [c|]; simpl; [|done].
  pose proof (verifyMfa_spec r (in_initiator i) c now k2) as Hv. destruct (verifyMfa _ _ _ _ _) as [[] k3]; simpl.
  2: { destruct Hv as (-> & _). done. }
  destruct Hv as (_ & Hv & Htk). 
  match goal with |- context [fold_left (stop_one r now outcome) ?ss ?acc] =>
    destruct (stop_all_frame r now outcome ss acc) as [Hcur Htok]; destruct (fold_left (stop_one r now outcome) ss acc) as [fl k4] end.
  simpl in Hcur, Htok.
  assert (Hk : ∀ a, current (if fl then writeAudit a k4 else k4) = current k4 ∧ tokens (if fl then writeAudit a k4 else k4) = tokens k4)
    by (by destruct fl).
  rewrite (proj1 (Hk _)), (proj2 (Hk _)), Hcur, Htok. simpl. rewrite Htk. split_and!; try done.
  - exists c. split; [done|]. unfold good_code in *. rewrite <- Ht2. by apply Hv.
  - by rewrite lookup_delete_eq.
  - eexists. split; [done|]. done.
Qed.
