(* ===== verification/Supervisor.v ===== *)
(** * The supervisor of the autonomous sessions ([session/workflow-runner.ts], stop of [session/prompt.ts])

    The state that the supervisor and the run loop share: the sessions, the run
    queue, the resumes in flight and the kill switch.  A tick chooses queued
    continuations and starts their loops; a loop ends later, in a step of its
    own: done, or with an error; the kill switch may stop it
    before it starts.  A step has one
    clock.  The status of the sessions, their events and budgets and their
    workspaces are the environment of a step. *)
From stdpp Require Import gmap.
From S2P Require Import Prelude JsString Wildcard ErrorClass Todo RunQueue Workflow KillSwitch.
Open Scope Z_scope.

Record daemon := mkDaemon {
  sessions : gmap jsstr SessionInfo;
  run_queue : queue;
  resumeInFlight : gmap jsstr Z;
  switch : store
}.
Record environment := mkEnv {
  status_of_session : jsstr → SessionStatus;
  events_of : jsstr → list Event;
  budget_of : PendingContinuationInfo → option budget;
  workspace_of : jsstr → option jsstr;
  localeCompare : jsstr → jsstr → Z;
  SUPERVISOR_OWNER : jsstr
}.

Definition with_sessions (m : gmap jsstr SessionInfo) (d : daemon) : daemon := mkDaemon m (run_queue d) (resumeInFlight d) (switch d).
Definition with_queue (q : queue) (d : daemon) : daemon := mkDaemon (sessions d) q (resumeInFlight d) (switch d).
Definition with_flights (m : gmap jsstr Z) (d : daemon) : daemon := mkDaemon (sessions d) (run_queue d) m (switch d).
Definition with_switch (k : store) (d : daemon) : daemon := mkDaemon (sessions d) (run_queue d) (resumeInFlight d) k.

(** [Session.update]; it fails, and nothing happens, when the session is not there. *)
Definition update_session (s : jsstr) (f : SessionInfo → SessionInfo) (d : daemon) : daemon :=
  with_sessions (alter f s (sessions d)) d.

(** ** The queue *)

Definition getPendingContinuation (s : jsstr) (d : daemon) : option PendingContinuationInfo :=
  read_file (legacy (run_queue d) !! s).
Definition clearPendingContinuation (s : jsstr) (d : daemon) : daemon := with_queue (remove s (run_queue d)) d.

(** A missing trigger or priority has its default; what the schema rejects is not queued, and nothing is removed. *)
Definition enqueuePendingContinuation (p : PendingContinuationInfo) (trigger : option jsstr) (priority : option TriggerPriority)
    (now : Z) (d : daemon) : daemon :=
  if valid_pending p then
    with_queue (enqueue p (default (js "continuation") trigger) (default p_normal priority) now (run_queue d)).1 d
  else d.

Definition by_pending_createdAt (a b : PendingContinuationInfo * option jsstr) : Z := p_createdAt a.1 - p_createdAt b.1.
(** The entries of the queue with their triggers; without any, those of the older keys. *)
Definition listPendingContinuations (d : daemon) : list (PendingContinuationInfo * option jsstr) :=
  match listAll (run_queue d) with
  | [] =>
      sort_by by_pending_createdAt
        (omap (λ s, (λ p, (p, None)) <$> read_file (legacy (run_queue d) !! s))
           (sort_by string_cmp (map_to_list (legacy (run_queue d))).*1))
  | es => map (λ e, (pending_of e, Some (triggerType e))) es
  end.

Definition task_end (e : QueueEntry) : bool := isTaskCompletion (Some (triggerType e)).
Definition collectCompletedSubagents (s : jsstr) (d : daemon) : option QueueEntry * daemon :=
  match peek s (run_queue d) with
  | Some e => if task_end e then (Some e, with_queue (remove s (run_queue d)) d) else (None, d)
  | None => (None, d)
  end.

(** ** A tick *)

(** Resumes that have taken too long are no longer in flight. *)
Definition flying (now : Z) (since : option Z) : bool :=
  match since with Some t => now - t <? RESUME_IN_FLIGHT_TIMEOUT_MS | None => false end.

(** One queued continuation is looked at: the candidates so far, and the state. *)
Definition consider (env : environment) (now : Z) (acc : list ResumeCandidate * daemon)
    (item : PendingContinuationInfo * option jsstr) : list ResumeCandidate * daemon :=
  let (candidates, d) := acc in
  let s := p_sessionID item.1 in
  if flying now (resumeInFlight d !! s) then acc
  else
    let d := with_flights (delete s (resumeInFlight d)) d in
    match sessions d !! s with
    | None => (candidates, clearPendingContinuation s d)
    | Some session =>
        let gate := match workspace_of env s with
          | None | Some [] => (None, switch d)
          | Some w => assertSchedulingAllowed (Some w) now (switch d)
          end in
        let d := with_switch gate.2 d in
        match gate.1 with
        | Some _ => (candidates, d)
        | None =>
            (candidates ++ [mkCandidate item.1 item.2 session (status_of_session env s) false
               (Some (summarizeAutonomousWorkflowHealth (workflow session) (Some item.1) (events_of env s) now))
               (budget_of env item.1)], d)
        end
    end.

Definition leased (owner : jsstr) (now : Z) (sup : WorkflowSupervisor) : WorkflowSupervisor :=
  mkSupervisor (Some owner) (Some (now + LEASE_MS)) None (consecutiveResumeFailures sup) (lastResumeCategory sup) None.

Definition start_resume (env : environment) (now : Z) (d : daemon) (c : ResumeCandidate) : daemon :=
  let s := rc_sessionID c in
  let d := with_flights (<[s := now]> (resumeInFlight d)) d in
  update_session s (λ x, updateWorkflowSupervisor (leased (SUPERVISOR_OWNER env) now) now
                           (setWorkflowState running None (Some now) now x)) d.

(** The candidates whose loops are started, and the state. *)
Definition resumePendingContinuations (env : environment) (maxCount : option Z) (preferred : option jsstr) (now : Z) (d : daemon) :
    list ResumeCandidate * daemon :=
  let (gate, k) := assertSchedulingAllowed None now (switch d) in
  let d := with_switch k d in
  match gate with
  | Some _ => ([], d)
  | None =>
      let (candidates, d) := fold_left (consider env now) (listPendingContinuations d) ([], d) in
      let selected := pickPendingContinuationsForResume (localeCompare env) (SUPERVISOR_OWNER env) now candidates
        (default 1 maxCount) preferred in
      (selected, fold_left (start_resume env now) selected d)
  end.

(** ** The end of a resume *)

(** [delete supervisor[key]] for the keys of the lease. *)
Definition unleased (sup : WorkflowSupervisor) : WorkflowSupervisor :=
  mkSupervisor None None (retryAt sup) (consecutiveResumeFailures sup) (lastResumeCategory sup) (lastResumeError sup).
Definition without_retry (sup : WorkflowSupervisor) : WorkflowSupervisor :=
  mkSupervisor (leaseOwner sup) (leaseExpiresAt sup) None (consecutiveResumeFailures sup) (lastResumeCategory sup) (lastResumeError sup).
Definition succeeded (sup : WorkflowSupervisor) : WorkflowSupervisor :=
  mkSupervisor None None None (Some 0) (lastResumeCategory sup) None.
Definition failed (n : Z) (retry : option Z) (c : classified) (sup : WorkflowSupervisor) : WorkflowSupervisor :=
  mkSupervisor None None retry (Some n) (Some (category_name (category c))) (Some (c_reason c)).

Inductive resume_end := Completed | Failed (f : failure).

Definition failure_count (s : jsstr) (d : daemon) : Z := default 0 (failures_of <$> (sessions d !! s ≫= workflow)).
Definition blocks (c : classified) (n : Z) : bool :=
  shouldBlockImmediately c || (negb (shouldRetry c) && (1 <=? n)) || shouldBlockAfterResumeFailure n.
Definition failure_stop (b : bool) (c : classified) : jsstr :=
  (if b then js "resume_blocked:" else js "resume_retry_scheduled:") ++ category_name (category c) ++ js ":" ++ c_reason c.

(** What is queued again has the trigger of the candidate, but no priority. *)
Definition resume_failed (item : ResumeCandidate) (f : failure) (now : Z) (d : daemon) : daemon :=
  let s := rc_sessionID item in
  let n := failure_count s d + 1 in
  let c := classifyResumeFailure f in
  let retry := computeResumeRetryAt now n (category c) (waitTimeMs <$> rc_budget item) in
  let b := blocks c n in
  let d := if b then clearPendingContinuation s d else enqueuePendingContinuation (rc_pending item) (rc_trigger item) None now d in
  update_session s (λ x, updateWorkflowSupervisor (failed n (if b then None else Some retry) c) now
    (setWorkflowState (if b then blocked else waiting_user) (Some (failure_stop b c)) (Some now) now x)) d.

(** The kill switch stops a resume before its loop starts. *)
Definition resume_killed (s : jsstr) (now : Z) (d : daemon) : daemon :=
  update_session s (λ x, updateWorkflowSupervisor (λ sup, without_retry (unleased sup)) now
    (setWorkflowState blocked (Some (js "kill_switch_active")) (Some now) now x)) (clearPendingContinuation s d).

Definition loop_ended (item : ResumeCandidate) (e : resume_end) (now : Z) (d : daemon) : daemon :=
  match e with
  | Completed => update_session (rc_sessionID item) (updateWorkflowSupervisor succeeded now) d
  | Failed f => resume_failed item f now d
  end.
Definition is_active (st : option State) : bool := match st with Some x => active x | None => false end.

Definition landed (s : jsstr) (d : daemon) : daemon := with_flights (delete s (resumeInFlight d)) d.

(** The command of the lane starts: the kill switch stops it, or its loop runs until [end_resume]. *)
Definition begin_resume (item : ResumeCandidate) (now : Z) (d : daemon) : bool * daemon :=
  let s := rc_sessionID item in
  let (st, k) := getState now (switch d) in
  let d := with_switch k d in
  if is_active st then (true, landed s (resume_killed s now d)) else (false, d).
Definition end_resume (item : ResumeCandidate) (e : resume_end) (now : Z) (d : daemon) : daemon :=
  landed (rc_sessionID item) (loop_ended item e now d).

(** ** The end of a turn

    The run loop decides about a session and, when it is to stop, stores why. *)
Definition stop_name (r : StopReason) : jsstr :=
  js match r with
     | not_armed => "not_armed"
     | subagent_session => "subagent_session"
     | todo_complete => "todo_complete"
     | freerun_no_root => "freerun_no_root"
     | freerun_paused => "freerun_paused"
     | freerun_blocked => "freerun_blocked"
     | freerun_settled => "freerun_settled"
     | stop_dormant_scheduled => "dormant_scheduled"
     | approval_required => "approval_required"
     end.
Definition resolveTerminalContinuationStopState (r : StopReason) : WorkflowState * jsstr :=
  match r with
  | todo_complete => (wf_completed, js "todo_complete")
  | _ => (waiting_user, stop_name r)
  end.

Definition decide_session (s : jsstr) (todos : list Info) (fr : FreerunState) (now : Z) (d : daemon) :
    option (AutonomousNextAction * daemon) :=
  match sessions d !! s with
  | None => None
  | Some x =>
      let (x', a) := decideAutonomousContinuation x todos (peek s (run_queue d)) fr now in
      Some (a, with_sessions (<[s := x']> (sessions d)) d)
  end.

(** The decision, and the state that is stored when it is to stop. *)
Definition end_turn (s : jsstr) (todos : list Info) (fr : FreerunState) (now : Z) (d : daemon) :
    option (AutonomousNextAction * daemon) :=
  match decide_session s todos fr now d with
  | Some (Stop r, d) =>
      let (st, why) := resolveTerminalContinuationStopState r in
      Some (Stop r, update_session s (setWorkflowState st (Some why) (Some now) now) d)
  | o => o
  end.

(** [SessionPrompt.cancel], what it does to this state. *)
Definition cancel_session (s : jsstr) (now : Z) (d : daemon) : daemon :=
  update_session s (setWorkflowState waiting_user (Some (js "manual_interrupt")) (Some now) now) (clearPendingContinuation s d).

(** ** Inspection and control *)

Record inspection := mkInspection {
  i_pending : option PendingContinuationInfo;
  i_status : SessionStatus;
  i_inFlight : bool;
  i_resumable : bool;
  i_blocked : list PendingContinuationResumeBlockReason;
  i_health : AutonomousWorkflowHealth
}.
Definition getPendingContinuationQueueInspection (env : environment) (s : jsstr) (now : Z) (d : daemon) : option inspection :=
  match sessions d !! s with
  | None => None
  | Some session =>
      let pending := getPendingContinuation s d in
      let st := status_of_session env s in
      let inFlight := flying now (resumeInFlight d !! s) in
      let h := summarizeAutonomousWorkflowHealth (workflow session) pending (events_of env s) now in
      Some match pending with
      | None => mkInspection None st inFlight false [no_pending_continuation] h
      | Some p =>
          let '(ok, why, h) := inspectPendingContinuationResumability session st inFlight (Some h) (Some (SUPERVISOR_OWNER env))
            (triggerType <$> peek s (run_queue d)) now in
          mkInspection (Some p) st inFlight ok why h
      end
  end.

Inductive control_reason := resumed | dropped | cr_no_pending | not_resumable | resume_dispatch_skipped.
(** Dropping a continuation: why, and the state. *)
Definition drop_pending (s : jsstr) (d : daemon) : control_reason * daemon :=
  match getPendingContinuation s d with
  | None => (cr_no_pending, d)
  | Some _ => (dropped, clearPendingContinuation s d)
  end.
(** Resuming one; it has been resumed when the session is in flight or busy after the tick. *)
Definition resume_once (env : environment) (s : jsstr) (now : Z) (d : daemon) : option (control_reason * daemon) :=
  match getPendingContinuationQueueInspection env s now d with
  | None => None
  | Some i =>
      match i_pending i with
      | None => Some (cr_no_pending, d)
      | Some _ =>
          if negb (i_resumable i) then Some (not_resumable, d)
          else
            let d := (resumePendingContinuations env (Some 1) (Some s) now d).2 in
            let resumed_now := flying now (resumeInFlight d !! s) || bool_decide (status_of_session env s = st_busy) in
            Some (if resumed_now then resumed else resume_dispatch_skipped, d)
      end
  end.

(** ** Lemmas *)

Lemma update_session_lookup s f d s' :
  sessions (update_session s f d) !! s' = if decide (s' = s) then f <$> sessions d !! s' else sessions d !! s'.
Proof.
  unfold update_session, with_sessions. simpl. case_decide as E; [subst; by rewrite lookup_alter_eq|by rewrite lookup_alter_ne by congruence].
Qed.

Lemma blocks_spec f n : 1 <= n →
  blocks (classifyResumeFailure f) n = true ↔ shouldRetry (classifyResumeFailure f) = false ∨ MAX_RESUME_FAILURES <= n.
Proof.
  intros Hn. unfold blocks, shouldBlockAfterResumeFailure.
  assert (shouldBlockImmediately (classifyResumeFailure f) = negb (shouldRetry (classifyResumeFailure f))) as ->.
  { unfold classifyResumeFailure. cbv zeta. destruct (f_class f); try done. repeat (case_match; try done). }
  rewrite !orb_true_iff, andb_true_iff, negb_true_iff, Z.leb_le, Z.leb_le. naive_solver lia.
Qed.

(** The queue entry of a session. *)
Definition queued (s : jsstr) (d : daemon) : option QueueEntry := peek s (run_queue d).

(** What a failed resume leaves in the workflow of the session. *)
Record after_failure (w : WorkflowInfo) (n : Z) (c : classified) (b : bool) (now : Z) (wait : option Z) : Prop := mkAfter {
  af_failures : failures_of w = n;
  af_owner : (supervisor w ≫= leaseOwner) = None;
  af_lease : (supervisor w ≫= leaseExpiresAt) = None;
  af_state : state w = (if b then blocked else waiting_user);
  af_reason : stopReason w = Some (failure_stop b c);
  af_retry : (supervisor w ≫= retryAt) = (if b then None else Some (computeResumeRetryAt now n (category c) wait))
}.

Lemma resume_failed_spec item f now d A x : represents (run_queue d) A → sessions d !! rc_sessionID item = Some x →
  valid_pending (rc_pending item) = true →
  let n := failure_count (rc_sessionID item) d + 1 in
  let c := classifyResumeFailure f in
  let d' := resume_failed item f now d in
  (∃ x' w', sessions d' !! rc_sessionID item = Some x' ∧ workflow x' = Some w' ∧ is_scheduled x' = is_scheduled x ∧
    autonomous w' = autonomous (current_workflow x) ∧
    after_failure w' n c (blocks c n) now (waitTimeMs <$> rc_budget item)) ∧
  queued (rc_sessionID item) d' =
    (if blocks c n then None
     else Some (new_entry (rc_pending item) (default (js "continuation") (rc_trigger item)) p_normal now)) ∧
  (∃ A', represents (run_queue d') A').
Proof.
  intros Hq Hx Hv n c d'. unfold d', resume_failed. fold n c. set (b := blocks c n).
  set (d1 := if b then clearPendingContinuation _ d else _).
  assert (Hd1 : sessions d1 = sessions d) by (unfold d1, enqueuePendingContinuation; destruct b; [done|]; by rewrite Hv).
  assert (Hq1 : ∃ A', represents (run_queue d1) A' ∧ A' !! rc_sessionID item =
    (if b then None else Some (new_entry (rc_pending item) (default (js "continuation") (rc_trigger item)) p_normal now))).
  { unfold d1. destruct b.
    - eexists. split; [by apply remove_represents|]. by rewrite lookup_delete_eq.
    - unfold enqueuePendingContinuation. rewrite Hv. eexists. split; [by apply enqueue_represents|].
      rewrite Hv. by rewrite lookup_insert_eq. }
  destruct Hq1 as (A' & HA & Hl). split_and!.
  - rewrite update_session_lookup, decide_True, Hd1, Hx by done. simpl. eexists _, _. split_and!; [done|done|done|done|].
    split; simpl; try done; by destruct b.
  - unfold queued, update_session, with_sessions. simpl. by rewrite (peek_spec _ _ HA).
  - exists A'. done.
Qed.

Lemma summarize_fields w pending events now :
  let h := summarizeAutonomousWorkflowHealth (Some w) pending events now in
  h_state h = state w ∧ h_stopReason h = stopReason w ∧ retryAt (h_supervisor h) = (supervisor w ≫= retryAt) ∧
  leaseOwner (h_supervisor h) = (supervisor w ≫= leaseOwner) ∧ leaseExpiresAt (h_supervisor h) = (supervisor w ≫= leaseExpiresAt).
Proof.
  unfold summarizeAutonomousWorkflowHealth. simpl. destruct (base_health w pending) as [h l].
  destruct (decide _); simpl; [by destruct (supervisor w)|]. destruct (_ || _); simpl; by destruct (supervisor w).
Qed.

(** A session whose workflow is [w] may be resumed: what its health is computed from makes no difference. *)
Lemma resumable_session x w st fl pending events owner trigger now : workflow x = Some w →
  shouldResumePendingContinuation x st fl (Some (summarizeAutonomousWorkflowHealth (Some w) pending events now)) owner trigger now = true ↔
  is_scheduled x = false ∧ fl = false ∧ st = st_idle ∧
  (isTaskCompletion trigger = true ∨
   enabled (autonomous w) = true ∧ state w ≠ blocked ∧ state w ≠ wf_completed ∧
   (state w = waiting_user → default [] (stopReason w) ∉ NON_RESUMABLE_WAITING_REASONS)) ∧
  default 0 (supervisor w ≫= retryAt) <= now ∧
  foreign_lease (default no_supervisor (supervisor w)) owner now = false.
Proof.
  intros Hw. rewrite resumable_iff, Hw. unfold workflow_resumable, foreign_lease. simpl default.
  destruct (summarize_fields w pending events now) as (-> & -> & -> & -> & ->). by destruct (supervisor w).
Qed.

(** ** Theorems *)

(** The session may be resumed at [t], in some status, with some events, for some reason. *)
Definition resumable_at (x : SessionInfo) (w : WorkflowInfo) (t : Z) (trigger : option jsstr) : Prop :=
  ∃ st fl pending events owner,
    shouldResumePendingContinuation x st fl (Some (summarizeAutonomousWorkflowHealth (Some w) pending events t)) owner trigger t = true.

(** C17. What a failed resume leads to. The session is no longer in flight or leased and has one failure more. When the
    error may be retried and it is not the third failure in a row, the continuation is queued again, in the normal lane
    whatever its lane was, and no tick resumes the session before its time to wait has passed. Otherwise the session is
    blocked, its queue entry is gone, and nothing but the end of a subagent resumes it. *)
Theorem resume_failure_outcome item f now d A x :
  represents (run_queue d) A → sessions d !! rc_sessionID item = Some x → valid_pending (rc_pending item) = true →
  0 <= failure_count (rc_sessionID item) d →
  let n := failure_count (rc_sessionID item) d + 1 in
  let c := classifyResumeFailure f in
  let d' := end_resume item (Failed f) now d in
  resumeInFlight d' !! rc_sessionID item = None ∧
  ∃ x' w', sessions d' !! rc_sessionID item = Some x' ∧ workflow x' = Some w' ∧ failures_of w' = n ∧
    (supervisor w' ≫= leaseOwner) = None ∧
    if shouldRetry c && (n <? MAX_RESUME_FAILURES) then
      state w' = waiting_user ∧
      queued (rc_sessionID item) d' =
        Some (new_entry (rc_pending item) (default (js "continuation") (rc_trigger item)) p_normal now) ∧
      ∀ t trigger, t < now + computeResumeBackoffMs n → ¬ resumable_at x' w' t trigger
    else
      state w' = blocked ∧ queued (rc_sessionID item) d' = None ∧
      ∀ t trigger, isTaskCompletion trigger = false → ¬ resumable_at x' w' t trigger.
Proof.
  intros Hq Hx Hv Hn n c d'. unfold d', end_resume, loop_ended, landed.
  destruct (resume_failed_spec item f now d A x Hq Hx Hv) as ((x' & w' & Hs & Hw & Hd & Ha & Hf) & Hqu & _).
  fold c n in Hf, Hqu. destruct Hf as [F1 F2 F3 F4 F5 F6].
  simpl. split; [by rewrite lookup_delete_eq|]. exists x', w'. split_and!; try done.
  assert (Hb : shouldRetry c && (n <? MAX_RESUME_FAILURES) = negb (blocks c n)).
  { pose proof (blocks_spec f n) as Hbs. fold c in Hbs. apply eq_true_iff_eq.
    rewrite andb_true_iff, negb_true_iff, Z.ltb_lt, <- not_true_iff_false, Hbs by lia.
    destruct (shouldRetry c); naive_solver lia. }
  rewrite Hb. destruct (blocks c n); simpl; split_and!; try done.
  - intros t trigger Ht (stt & fl & pe & ev & ow & H%(resumable_session _ _ _ _ _ _ _ _ _ Hw)). rewrite F4, Ht in H. naive_solver.
  - intros t trigger Ht (stt & fl & pe & ev & ow & H%(resumable_session _ _ _ _ _ _ _ _ _ Hw)). rewrite F6 in H. simpl in H.
    destruct (resume_backoff now n n (category c) (waitTimeMs <$> rc_budget item)) as (_ & _ & Hr); [lia|]. lia.
Qed.

(** *** The approval gate *)

Lemma already_suspended_blocks x w t trigger : workflow x = Some w → already_suspended w = true →
  isTaskCompletion trigger = false → ¬ resumable_at x w t trigger.
Proof.
  unfold already_suspended, non_resumable. intros Hw Hs Ht (st & fl & pe & ev & ow & H%(resumable_session _ _ _ _ _ _ _ _ _ Hw)).
  rewrite Ht in H. rewrite orb_true_iff, andb_true_iff, !bool_decide_eq_true in Hs. naive_solver.
Qed.

Lemma gate_stop x todos fr sub now : planAutonomousNextAction x todos fr sub now = Stop approval_required → is_scheduled x = false.
Proof. unfold planAutonomousNextAction, isDormantScheduled. by destruct (is_scheduled x). Qed.

(** The approval gate does not hold. When an armed session comes to a step that needs an approval, the decision parks it
    so that no tick resumes it before a user acts; but the run loop, which then stores why it stops, puts a reason of its
    own in place of the one that parks it, and from then on every tick that finds a queued continuation may resume the
    session, as soon as no time to wait and no other supervisor's lease is in the way. *)
Theorem approval_gate_overwritten s todos fr now d d1 x w :
  sessions d !! s = Some x → workflow x = Some w → enabled (autonomous w) = true →
  decide_session s todos fr now d = Some (Stop approval_required, d1) →
  (∃ x1 w1, sessions d1 !! s = Some x1 ∧ workflow x1 = Some w1 ∧
    ∀ t trigger, isTaskCompletion trigger = false → ¬ resumable_at x1 w1 t trigger) ∧
  ∃ d2 x2 w2, end_turn s todos fr now d = Some (Stop approval_required, d2) ∧ sessions d2 !! s = Some x2 ∧
    workflow x2 = Some w2 ∧ stopReason w2 = Some (js "approval_required") ∧ supervisor w2 = supervisor w ∧
    ∀ pending events owner trigger t, default 0 (supervisor w ≫= retryAt) <= t →
      foreign_lease (default no_supervisor (supervisor w)) owner t = false →
      shouldResumePendingContinuation x2 st_idle false (Some (summarizeAutonomousWorkflowHealth (Some w2) pending events t))
        owner trigger t = true.
Proof.
  intros Hx Hw Harm Hd. unfold end_turn. rewrite Hd. revert Hd. unfold decide_session. rewrite Hx.
  unfold decideAutonomousContinuation, evaluateAutonomousContinuation.
  set (plan := planAutonomousNextAction _ _ _ _ _). destruct plan as [r| |] eqn:Ep; subst plan; rewrite ?Hw; try done.
  unfold armed. rewrite Hw, Harm. simpl.
  destruct (decide (r = todo_complete ∨ r = freerun_settled)) as [E|E]; [intros [= -> _]; by destruct E|].
  destruct (decide (r = approval_required)) as [->|Er]; [|congruence]. apply gate_stop in Ep.
  set (x1 := if already_suspended w then x else setWorkflowState waiting_user (Some approval_needed) None now x).
  intros [= <-]. assert (Hx1 : ∃ w1, workflow x1 = Some w1 ∧ already_suspended w1 = true ∧ supervisor w1 = supervisor w ∧
    autonomous w1 = autonomous w ∧ is_scheduled x1 = false).
  { unfold x1. destruct (already_suspended w) eqn:Ea; [by exists w|]. eexists. split; [done|]. simpl.
    unfold current_workflow. rewrite Hw. simpl. done. }
  destruct Hx1 as (w1 & Hw1 & Ha & Hsup & Haut & Hsch). cbn [sessions with_sessions]. split.
  - exists x1, w1. split_and!; [by rewrite lookup_insert_eq|done|]. intros t trigger. by apply already_suspended_blocks.
  - eexists _, _, _. split; [done|]. split.
    { rewrite update_session_lookup, decide_True by done. cbn [sessions with_sessions]. by rewrite lookup_insert_eq. }
    split; [done|]. unfold current_workflow. rewrite Hw1. simpl. split_and!; [done|done|].
    intros pending events owner trigger t Ht Hl. apply resumable_session; [by simpl; unfold current_workflow; rewrite Hw1|]. simpl. rewrite Hsup, Haut. split_and!; try done.
    right. split_and!; try done. intros _ Hin. by vm_compute in Hin; repeat (apply elem_of_cons in Hin as [Hin|Hin]; [done|]); apply not_elem_of_nil in Hin.
Qed.

(** *** The end of a subagent *)

(** The end of a subagent does not make a session go on. When an entry for it is queued and the session is not armed,
    a decision that saw the entry would go on with the next step that may be taken; but each round of the run loop first
    takes the entry out of the queue, and the decision after it stops the session as not armed. *)
Theorem completion_not_seen s todos fr now d A x e :
  represents (run_queue d) A → A !! s = Some e → task_end e = true → sessions d !! s = Some x →
  is_scheduled x = false → truthy (parentID x) = None →
  enabled (autonomous (default (defaultWorkflow now) (workflow x))) = false →
  let (collected, d1) := collectCompletedSubagents s d in
  collected = Some e ∧ (∃ d2, decide_session s todos fr now d1 = Some (Stop not_armed, d2)) ∧
  ∀ t, next_step todos t → Forall (λ t, status t ≠ awaiting_approval) todos →
    ¬ needs_sign_off (default (defaultWorkflow now) (workflow x)) t →
    ∃ r text d2, decide_session s todos fr now d = Some (ContinueTodo r text t, d2).
Proof.
  intros Hq He Ht Hx Hd Hp Ha. unfold collectCompletedSubagents. rewrite (peek_spec _ _ Hq), He, Ht. split; [done|].
  assert (Harm : armed x = false) by (unfold armed; by destruct (workflow x)).
  unfold decide_session. cbn [sessions with_queue run_queue]. rewrite Hx. unfold decideAutonomousContinuation. rewrite Harm. split.
  - rewrite (peek_spec _ _ (remove_represents s _ _ Hq)), lookup_delete_eq. simpl.
    unfold evaluateAutonomousContinuation, planAutonomousNextAction, isDormantScheduled. rewrite Hd, Hp, Ha. simpl.
    destruct (workflow x); eauto.
  - intros t Hn Hf Hs. rewrite (peek_spec _ _ Hq), He. change (isTaskCompletion _) with (task_end e). rewrite Ht.
    unfold evaluateAutonomousContinuation.
    assert (planAutonomousNextAction x todos None true now = ContinueTodo (if decide (status t = in_progress) then todo_in_progress
      else todo_pending) AUTONOMOUS_RESUME_TEXT t) as -> by (apply plan_continues; naive_solver). eauto.
Qed.

(** *** What a tick starts *)

Section Tick.
Context (env : environment) (now : Z) (d0 : daemon).

Lemma allowed_again ws ws' k :
  (assertSchedulingAllowed ws now (assertSchedulingAllowed ws' now k).2).1 = (assertSchedulingAllowed ws now k).1.
Proof.
  unfold assertSchedulingAllowed, getState. destruct (current k) as [s|] eqn:E; [|simpl; by rewrite E].
  destruct (expired s now) eqn:Ex; simpl; [done|]. by rewrite E, Ex.
Qed.

(** The switch lets the session's workspace through. *)
Definition workspace_allowed (s : jsstr) : Prop :=
  ∀ w, truthy (workspace_of env s) = Some w → (assertSchedulingAllowed (Some w) now (switch d0)).1 = None.

(** A candidate is a session that is there, is not in flight and may be scheduled. *)
Record sound_candidate (c : ResumeCandidate) : Prop := mkSound {
  so_session : sessions d0 !! rc_sessionID c = Some (rc_session c);
  so_free : flying now (resumeInFlight d0 !! rc_sessionID c) = false;
  so_allowed : workspace_allowed (rc_sessionID c);
  so_status : rc_status c = status_of_session env (rc_sessionID c);
  so_flight : rc_inFlight c = false;
  so_queued : (rc_pending c, rc_trigger c) ∈ listPendingContinuations d0
}.

(** What considering candidates leaves alone. *)
Record same_for_now (d : daemon) : Prop := mkSame {
  sa_sessions : sessions d = sessions d0;
  sa_flying s : flying now (resumeInFlight d !! s) = flying now (resumeInFlight d0 !! s);
  sa_switch ws : (assertSchedulingAllowed ws now (switch d)).1 = (assertSchedulingAllowed ws now (switch d0)).1
}.

Lemma consider_sound acc item : item ∈ listPendingContinuations d0 →
  Forall sound_candidate acc.1 → same_for_now acc.2 →
  Forall sound_candidate (consider env now acc item).1 ∧ same_for_now (consider env now acc item).2.
Proof.
  intros Hitem Hc Hs. destruct acc as [cs d]. destruct item as [p trigger]. unfold consider. simpl in *.
  destruct (flying now (resumeInFlight d !! p_sessionID p)) eqn:Ef; [done|].
  assert (Hfl : ∀ s, flying now (delete (p_sessionID p) (resumeInFlight d) !! s) = flying now (resumeInFlight d0 !! s)).
  { intros s. rewrite <- (sa_flying _ Hs). destruct (decide (s = p_sessionID p)) as [->|E].
    - by rewrite lookup_delete_eq, Ef.
    - by rewrite lookup_delete_ne by congruence. }
  rewrite (sa_sessions _ Hs). destruct (sessions d0 !! p_sessionID p) as [x|] eqn:Ex.
  2: { split; [done|]. by split; simpl; try apply Hs. }
  set (gate := match workspace_of env (p_sessionID p) with None => _ | Some _ => _ end).
  assert (Hgate : (∀ ws, (assertSchedulingAllowed ws now gate.2).1 = (assertSchedulingAllowed ws now (switch d0)).1) ∧
    (gate.1 = None → workspace_allowed (p_sessionID p))).
  { unfold gate, workspace_allowed. destruct (workspace_of env (p_sessionID p)) as [[|c w]|]; simpl.
    - split; [apply Hs|done].
    - split; [intros ws; rewrite allowed_again; apply Hs|]. intros H w' [= <-]. by rewrite <- (sa_switch _ Hs).
    - split; [apply Hs|done]. }
  destruct Hgate as [Hsw Hal]. destruct gate as [[st|] k]; simpl in *; split; try done.
  1,3: by split; simpl; try apply Hs.
  apply Forall_app. split; [done|]. apply Forall_singleton. split; simpl; try done; [by rewrite <- (sa_flying _ Hs)|by apply Hal].
Qed.

Lemma consider_all_sound items acc : (∀ i, i ∈ items → i ∈ listPendingContinuations d0) →
  Forall sound_candidate acc.1 → same_for_now acc.2 →
  Forall sound_candidate (fold_left (consider env now) items acc).1 ∧ same_for_now (fold_left (consider env now) items acc).2.
Proof.
  revert acc. induction items as [|i items IH]; intros acc Hi Hc Hs; simpl; [done|].
  destruct (consider_sound acc i) as [H1 H2]; [apply Hi; left|done|done|]. apply IH; auto. intros j Hj. apply Hi. by right.
Qed.
End Tick.

Lemma pick_families_subset m p items c : c ∈ pick_families m p items → c ∈ p ∨ c ∈ items.
Proof.
  revert p. induction items as [|i items IH]; intros p; simpl; [by left|]. destruct (negb _); [by left|].
  destruct (taken p i); intros H%IH; set_solver.
Qed.
Lemma pick_rest_subset m p items c : c ∈ pick_rest m p items → c ∈ p ∨ c ∈ items.
Proof.
  revert p. induction items as [|i items IH]; intros p; simpl; [by left|]. destruct (negb _); [by left|].
  destruct (existsb _ p); intros H%IH; set_solver.
Qed.
Lemma pick_subset lc owner now items m preferred c :
  c ∈ pickPendingContinuationsForResume lc owner now items m preferred → c ∈ items ∧ may_resume owner now c.
Proof.
  assert (Hes : ∀ c, c ∈ eligible lc owner now items → c ∈ items ∧ may_resume owner now c).
  { intros c'. unfold eligible. rewrite elem_of_sort_by, list_elem_of_filter. unfold may_resume. tauto. }
  unfold pickPendingContinuationsForResume. intros [[H|H]%pick_families_subset|H]%pick_rest_subset; try by apply Hes.
  unfold preferred_first in H. destruct (truthy preferred); [|set_solver].
  destruct (find _ _) as [c'|] eqn:E; [|set_solver]. destruct (room _ _); [|set_solver].
  apply list_elem_of_singleton in H as ->. apply find_Some in E as [_ E]. by apply Hes.
Qed.

(** A session that has been started is in flight and running, with the lease of this supervisor. *)
Definition started (env : environment) (now : Z) (s : jsstr) (d : daemon) : Prop :=
  resumeInFlight d !! s = Some now ∧
  ∃ x w, sessions d !! s = Some x ∧ workflow x = Some w ∧ state w = running ∧
    (supervisor w ≫= leaseOwner) = Some (SUPERVISOR_OWNER env) ∧ (supervisor w ≫= leaseExpiresAt) = Some (now + LEASE_MS).

Lemma start_resume_spec env now d c s :
  (s = rc_sessionID c → is_Some (sessions d !! s) → started env now s (start_resume env now d c)) ∧
  (s ≠ rc_sessionID c → resumeInFlight (start_resume env now d c) !! s = resumeInFlight d !! s ∧
    sessions (start_resume env now d c) !! s = sessions d !! s).
Proof.
  unfold start_resume, started. cbv zeta. split.
  - intros -> [x Hx]. split; [simpl; by rewrite lookup_insert_eq|]. rewrite update_session_lookup, decide_True by done.
    simpl. rewrite Hx. simpl. eexists _, _. by split_and!.
  - intros Hs. rewrite update_session_lookup, decide_False by done. simpl. by rewrite lookup_insert_ne by congruence.
Qed.

Lemma start_all_spec env now cs d s :
  (s ∈ map rc_sessionID cs → is_Some (sessions d !! s) → started env now s (fold_left (start_resume env now) cs d)) ∧
  (s ∉ map rc_sessionID cs → resumeInFlight (fold_left (start_resume env now) cs d) !! s = resumeInFlight d !! s ∧
    sessions (fold_left (start_resume env now) cs d) !! s = sessions d !! s).
Proof.
  induction cs as [|c cs IH] using rev_ind; [split; [by intros ?%not_elem_of_nil|done]|].
  rewrite fold_left_app, map_app. cbn [fold_left map]. set (d1 := fold_left _ cs d) in *.
  destruct (start_resume_spec env now d1 c s) as [H1 H2]. destruct IH as [I1 I2].
  assert (Hsome : is_Some (sessions d !! s) → is_Some (sessions d1 !! s)).
  { intros Hd. destruct (decide (s ∈ map rc_sessionID cs)) as [Hin|Hin]; [|by rewrite (proj2 (I2 Hin))].
    destruct (I1 Hin Hd) as (_ & x & w & -> & _). by eexists. }
  split.
  - intros Hin Hd. destruct (decide (s = rc_sessionID c)) as [E|E]; [by apply H1, Hsome|].
    destruct (H2 E) as [E1 E2]. unfold started. rewrite E1, E2. apply I1; [set_solver|done].
  - intros Hin. destruct (H2 ltac:(set_solver)) as [-> ->]. apply I2. set_solver.
Qed.

(** C19. What a tick of the supervisor starts. Every continuation that it resumes is in the queue, its session is there,
    idle, not dormant and not already in flight, and neither the global switch nor that of its workspace is set; it then is
    in flight and running with the lease of this supervisor. Of the other sessions nothing changes. *)
Theorem tick_safe env maxCount preferred now d :
  let (selected, d') := resumePendingContinuations env maxCount preferred now d in
  (∀ c, c ∈ selected →
    (rc_pending c, rc_trigger c) ∈ listPendingContinuations d ∧
    sessions d !! rc_sessionID c = Some (rc_session c) ∧ is_scheduled (rc_session c) = false ∧
    status_of_session env (rc_sessionID c) = st_idle ∧ flying now (resumeInFlight d !! rc_sessionID c) = false ∧
    (assertSchedulingAllowed None now (switch d)).1 = None ∧ workspace_allowed env now d (rc_sessionID c) ∧
    started env now (rc_sessionID c) d') ∧
  (∀ s, s ∉ map rc_sessionID selected → sessions d' !! s = sessions d !! s).
Proof.
  unfold resumePendingContinuations. pose proof (allowed_again now) as Hag. specialize (Hag None None (switch d)) as Hn.
  destruct (assertSchedulingAllowed None now (switch d)) as [[st|] k] eqn:Eg; [split; [by intros ? ?%not_elem_of_nil|done]|].
  change (listPendingContinuations (with_switch k d)) with (listPendingContinuations d).
  destruct (consider_all_sound env now d (listPendingContinuations d) ([], with_switch k d)) as [Hc Hs]; [done|constructor| |].
  { split; simpl; try done. intros ws. replace k with (assertSchedulingAllowed None now (switch d)).2 by (by rewrite Eg). apply Hag. }
  destruct (fold_left (consider env now) _ _) as [cs d1]. simpl in Hc, Hs.
  set (selected := pickPendingContinuationsForResume _ _ _ _ _ _).
  assert (Hsel : ∀ c, c ∈ selected → sound_candidate env now d c ∧ may_resume (SUPERVISOR_OWNER env) now c).
  { intros c [Hin Hm]%pick_subset. rewrite Forall_forall in Hc. auto. }
  split.
  - intros c Hin. destruct (Hsel c Hin) as [[S1 S2 S3 S4 S5 S6] Hm]. split_and!; try done.
    + unfold may_resume, shouldResumePendingContinuation, inspectPendingContinuationResumability in Hm. simpl in Hm.
      apply bool_decide_eq_true in Hm. unfold blockedReasons, isDormantScheduled in Hm. by apply push_if_nil in Hm as [Hm _].
    + rewrite <- S4. unfold may_resume, shouldResumePendingContinuation, inspectPendingContinuationResumability in Hm. simpl in Hm.
      apply bool_decide_eq_true in Hm. unfold blockedReasons in Hm. do 4 rewrite push_if_nil in Hm. destruct Hm as (_ & _ & H1 & H2 & _).
      apply bool_decide_eq_false in H1, H2. by destruct (rc_status c).
    + apply start_all_spec; [by apply list_elem_of_fmap_2|]. rewrite (sa_sessions _ _ _ Hs), S1. by eexists.
  - intros s Hin. destruct (start_all_spec env now selected d1 s) as [_ H]. destruct (H Hin) as [_ ->]. by rewrite (sa_sessions _ _ _ Hs).
Qed.

(** The switch of one workspace stops the resumes of all: the tick asks for all of them first, and names none. *)
Theorem workspace_switch_stops_all env maxCount preferred now d st :
  current (switch d) = Some st → active st = true → now - initiatedAt st <= default DEFAULT_TTL_MS (ttl st) →
  (resumePendingContinuations env maxCount preferred now d).1 = [].
Proof.
  intros Hc Ha Ht. unfold resumePendingContinuations.
  assert (E : (assertSchedulingAllowed None now (switch d)).1 = Some st).
  { unfold assertSchedulingAllowed, getState, expired. rewrite Hc, Ha. simpl.
    destruct (Z.ltb_spec (default DEFAULT_TTL_MS (ttl st)) (now - initiatedAt st)); [lia|]. rewrite Ha. simpl.
    destruct (workspaceId st) as [[|c w]|]; try done. by destruct (bool_decide _). }
  destruct (assertSchedulingAllowed None now (switch d)) as [g k]. simpl in E. by rewrite E.
Qed.

(** ** Witnesses *)

Definition demo_workflow : WorkflowInfo :=
  mkWorkflow (mkPolicyA true None None (Some [js "push"])) running None 0 (Some 0)
    (Some (mkSupervisor (Some (js "me")) (Some 30000) None (Some 1) None None)) None.
Definition demo_session : SessionInfo := mkSession None false 0 (Some demo_workflow).
Definition quiet_session : SessionInfo := mkSession None false 0 None.
Definition no_store : store := mkStore None ∅ ∅ ∅ ∅ [] [].
Definition task_queue : queue := (enqueue (demo_pending "ses_b" 7) (js "task_completion") p_normal 50 demo_queue).1.
Definition task_map : gmap jsstr QueueEntry :=
  <[js "ses_b" := new_entry (demo_pending "ses_b" 7) (js "task_completion") p_normal 50]> demo_map.
Definition demo_daemon : daemon :=
  mkDaemon {[js "ses_a" := demo_session; js "ses_c" := demo_session; js "ses_b" := quiet_session]} task_queue
    {[js "ses_c" := 1000]} no_store.

Lemma task_represents : represents task_queue task_map.
Proof.
  pose proof (enqueue_represents (demo_pending "ses_b" 7) (js "task_completion") p_normal 50 _ _ demo_represents) as H.
  replace (valid_pending (demo_pending "ses_b" 7)) with true in H by (by vm_compute). exact H.
Qed.

Definition demo_item : ResumeCandidate :=
  mkCandidate (demo_pending "ses_c" 30) (Some (js "api")) demo_session st_idle false None None.
Definition demo_failure : failure := mkFailure OtherError (js "socket timeout") None.

Lemma resume_failure_outcome_witness :
  let d' := end_resume demo_item (Failed demo_failure) 2000 demo_daemon in
  resumeInFlight d' !! js "ses_c" = None ∧ (lane <$> queued (js "ses_c") demo_daemon) = Some critical ∧
  (lane <$> queued (js "ses_c") d') = Some normal.
Proof.
  pose proof (resume_failure_outcome demo_item demo_failure 2000 demo_daemon task_map demo_session task_represents
    ltac:(by vm_compute) ltac:(by vm_compute) ltac:(by_compute)) as [H _].
  split; [exact H|]. split; by vm_compute.
Defined.

Definition push_todo : Info :=
  mkInfo (js "push it") pending (js "high") (js "1") (Some (mkAction push (Some high) (Some true) None None None)).

Lemma demo_decision : ∃ d1, decide_session (js "ses_a") [push_todo] fr_none 2000 demo_daemon = Some (Stop approval_required, d1).
Proof. eexists. unfold decide_session. replace (sessions demo_daemon !! js "ses_a") with (Some demo_session) by (by vm_compute). by vm_compute. Qed.

Lemma approval_gate_overwritten_witness :
  enabled (autonomous demo_workflow) = true ∧
  ∃ d2 x2 w2, end_turn (js "ses_a") [push_todo] fr_none 2000 demo_daemon = Some (Stop approval_required, d2) ∧
    sessions d2 !! js "ses_a" = Some x2 ∧ workflow x2 = Some w2 ∧ stopReason w2 = Some (js "approval_required").
Proof.
  split; [done|]. destruct demo_decision as [d1 Hd].
  destruct (approval_gate_overwritten (js "ses_a") [push_todo] fr_none 2000 demo_daemon d1 demo_session demo_workflow
    ltac:(by vm_compute) eq_refl eq_refl Hd) as (_ & d2 & x2 & w2 & H1 & H2 & H3 & H4 & _).
  exists d2, x2, w2. split_and!; [exact H1|exact H2|exact H3|exact H4].
Defined.

Definition quiet_todo : Info := mkInfo (js "go on") pending (js "high") (js "1") None.

Lemma completion_not_seen_witness :
  let (collected, d1) := collectCompletedSubagents (js "ses_b") demo_daemon in
  (triggerType <$> collected) = Some (js "task_completion") ∧
  ∃ d2, decide_session (js "ses_b") [quiet_todo] fr_none 2000 d1 = Some (Stop not_armed, d2).
Proof.
  pose proof (completion_not_seen (js "ses_b") [quiet_todo] fr_none 2000 demo_daemon task_map quiet_session
    (new_entry (demo_pending "ses_b" 7) (js "task_completion") p_normal 50) task_represents
    ltac:(by vm_compute) ltac:(by vm_compute) ltac:(by vm_compute) eq_refl eq_refl eq_refl) as H.
  destruct (collectCompletedSubagents (js "ses_b") demo_daemon) as [collected d1].
  destruct H as (-> & H & _). split; [by vm_compute|exact H].
Defined.

(** The supervisor lists the queue, whatever the caps of the lanes: the tick takes three of the critical lane's entries. *)
Definition demo_env : environment :=
  mkEnv (λ _, st_idle) (λ _, []) (λ _, None) (λ _, None) string_cmp (js "me").
Definition full_daemon : daemon :=
  mkDaemon (list_to_map (map (λ s, (js s, demo_session)) ["ses_1"; "ses_2"; "ses_3"]%string))
    (demo_enqueue "ses_1" 1 p_critical 1 (demo_enqueue "ses_2" 2 p_critical 2 (demo_enqueue "ses_3" 3 p_critical 3 empty_queue)))
    ∅ no_store.
Example caps_not_kept :
  length (resumePendingContinuations demo_env (Some 5) None 2000 full_daemon).1 = 3%nat ∧
  concurrencyCap (LANE_CONFIGS critical) = 2.
Proof. by vm_compute. Qed.
