(* ===== verification/Bytes.v ===== *)
(** * Bytes: UTF-8 and base64url

    [Buffer.from(s)] and [buffer.toString("utf8")] with their replacement
    character, [decodeURIComponent], and the base64 of [buffer.toString("base64url")]
    and of [Buffer.from(s, "base64url")], which also reads the other alphabet,
    skips what is in neither and stops at a padding sign.  A byte is a number
    below 256. *)
From stdpp Require Import list.
From S2P Require Import Prelude JsString Json.
Open Scope N_scope.

(** ** UTF-8 *)

Definition replacement : N := 65533.
Definition encode_point (p : N) : list N :=
  if p <? 128 then [p]
  else if p <? 2048 then [192 + p / 64; 128 + p mod 64]
  else if p <? 65536 then [224 + p / 4096; 128 + (p / 64) mod 64; 128 + p mod 64]
  else [240 + p / 262144; 128 + (p / 4096) mod 64; 128 + (p / 64) mod 64; 128 + p mod 64].

(** Two halves of a pair are one code point; a lone half is replaced. *)
Fixpoint utf8_encode (s : jsstr) : list N :=
  match s with
  | [] => []
  | c :: s' =>
      match s' with
      | d :: s'' =>
          if is_high c && is_low d then encode_point (65536 + (c - 55296) * 1024 + (d - 56320)) ++ utf8_encode s''
          else encode_point (if is_high c || is_low c then replacement else c) ++ utf8_encode s'
      | [] => encode_point (if is_high c || is_low c then replacement else c)
      end
  end.

Definition within (lo hi b : N) : bool := (lo <=? b) && (b <=? hi).
Definition cont (b : N) : bool := within 128 191 b.
(** The range of the second byte after a first one. *)
Definition second_ok (b0 b1 : N) : bool :=
  if b0 =? 224 then within 160 191 b1
  else if b0 =? 237 then within 128 159 b1
  else if b0 =? 240 then within 144 191 b1
  else if b0 =? 244 then within 128 143 b1
  else cont b1.
Definition pair_of (p : N) : jsstr := [55296 + (p - 65536) / 1024; 56320 + (p - 65536) mod 1024].

(** Every longest start of a sequence that is cut short becomes one replacement character. *)
Fixpoint utf8_decode (bs : list N) : jsstr :=
  match bs with
  | [] => []
  | b0 :: r0 =>
      if b0 <? 128 then b0 :: utf8_decode r0
      else if within 194 223 b0 then
        match r0 with
        | b1 :: r1 => if cont b1 then (b0 - 192) * 64 + (b1 - 128) :: utf8_decode r1 else replacement :: utf8_decode r0
        | [] => [replacement]
        end
      else if within 224 239 b0 then
        match r0 with
        | b1 :: r1 =>
            if second_ok b0 b1 then
              match r1 with
              | b2 :: r2 =>
                  if cont b2 then ((b0 - 224) * 64 + (b1 - 128)) * 64 + (b2 - 128) :: utf8_decode r2
                  else replacement :: utf8_decode r1
              | [] => [replacement]
              end
            else replacement :: utf8_decode r0
        | [] => [replacement]
        end
      else if within 240 244 b0 then
        match r0 with
        | b1 :: r1 =>
            if second_ok b0 b1 then
              match r1 with
              | b2 :: r2 =>
                  if cont b2 then
                    match r2 with
                    | b3 :: r3 =>
                        if cont b3 then
                          pair_of ((((b0 - 240) * 64 + (b1 - 128)) * 64 + (b2 - 128)) * 64 + (b3 - 128)) ++ utf8_decode r3
                        else replacement :: utf8_decode r2
                    | [] => [replacement]
                    end
                  else replacement :: utf8_decode r1
              | [] => [replacement]
              end
            else replacement :: utf8_decode r0
        | [] => [replacement]
        end
      else replacement :: utf8_decode r0
  end.

(** *** Escapes of URIs *)

Definition hex_byte (a b : N) : option N :=
  match hex_value a, hex_value b with Some x, Some y => Some (Z.to_N (x * 16 + y)) | _, _ => None end.
(** Only bytes that are a text are accepted. *)
Definition strict_decode (bs : list N) : option jsstr :=
  let s := utf8_decode bs in if bool_decide (utf8_encode s = bs) then Some s else None.
(** The escaped bytes before a place, the last first, are decoded when another character comes. *)
Fixpoint decode_uri (run : list N) (s : jsstr) : option jsstr :=
  match s with
  | [] => strict_decode (reverse run)
  | 37 :: a :: b :: s' => byte ← hex_byte a b; decode_uri (byte :: run) s'
  | 37 :: _ => None
  | c :: s' => bs ← strict_decode (reverse run); rest ← decode_uri [] s'; Some (bs ++ c :: rest)
  end.
(** [None] when it throws. *)
Definition decodeURIComponent (s : jsstr) : option jsstr := decode_uri [] s.

(** ** Base64 *)

Definition sextet_char (v : N) : N :=
  if v <? 26 then 65 + v else if v <? 52 then 71 + v else if v <? 62 then v - 4 else if v =? 62 then 45 else 95.
Definition char_sextet (c : N) : option N :=
  if within 65 90 c then Some (c - 65)
  else if within 97 122 c then Some (c - 71)
  else if within 48 57 c then Some (c + 4)
  else if (c =? 45) || (c =? 43) then Some 62
  else if (c =? 95) || (c =? 47) then Some 63
  else None.

Fixpoint to_sextets (bs : list N) : list N :=
  match bs with
  | a :: b :: c :: r => [a / 4; (a mod 4) * 16 + b / 16; (b mod 16) * 4 + c / 64; c mod 64] ++ to_sextets r
  | [a; b] => [a / 4; (a mod 4) * 16 + b / 16; (b mod 16) * 4]
  | [a] => [a / 4; (a mod 4) * 16]
  | [] => []
  end.
Fixpoint of_sextets (vs : list N) : list N :=
  match vs with
  | a :: b :: c :: d :: r => [a * 4 + b / 16; (b mod 16) * 16 + c / 4; (c mod 4) * 64 + d] ++ of_sextets r
  | [a; b; c] => [a * 4 + b / 16; (b mod 16) * 16 + c / 4]
  | [a; b] => [a * 4 + b / 16]
  | _ => []
  end.

Fixpoint before_padding (s : jsstr) : jsstr :=
  match s with c :: s => if c =? 61 then [] else c :: before_padding s | [] => [] end.
Definition base64url (bs : list N) : jsstr := map sextet_char (to_sextets bs).
Definition from_base64 (s : jsstr) : list N := of_sextets (omap char_sextet (before_padding s)).

(** ** Round trips *)

(** Texts of 16-bit units without lone halves of pairs. *)
Fixpoint well_formed (s : jsstr) : bool :=
  match s with
  | [] => true
  | c :: s' =>
      (c <? 65536) &&
      match s' with
      | d :: s'' => if is_high c && is_low d then well_formed s'' else negb (is_high c || is_low c) && well_formed s'
      | [] => negb (is_high c || is_low c)
      end
  end.

Ltac split_bools :=
  unfold cont, within, is_high, is_low in *;
  repeat match goal with
    | H : _ && _ = true |- _ => apply andb_true_iff in H as [? ?]
    | H : negb _ = true |- _ => apply negb_true_iff in H
    | H : _ || _ = false |- _ => apply orb_false_iff in H as [? ?]
    | H : (_ <=? _) = true |- _ => apply N.leb_le in H
    | H : (_ <=? _) = false |- _ => apply N.leb_gt in H
    | H : (_ <? _) = true |- _ => apply N.ltb_lt in H
    | H : (_ <? _) = false |- _ => apply N.ltb_ge in H
    end.

(** Linear arithmetic with divisions by constants. *)
Ltac div_lia := zify; Z.to_euclidean_division_equations; lia.

(** A boolean test of numbers that the context decides. *)
Ltac decide_test t v :=
  replace t with v by (symmetry; unfold second_ok, cont, within;
    repeat match goal with |- context [if ?x =? ?y then _ else _] => destruct (N.eqb_spec x y) end; try discriminate;
    rewrite ?andb_true_iff, ?andb_false_iff, ?N.leb_le, ?N.leb_gt, ?N.ltb_lt, ?N.ltb_ge; div_lia).

Lemma decode_point_1 p r : p < 128 → utf8_decode (encode_point p ++ r) = p :: utf8_decode r.
Proof.
  intros H. unfold encode_point. rewrite (proj2 (N.ltb_lt _ _) H). simpl. by rewrite (proj2 (N.ltb_lt _ _) H).
Qed.
Lemma decode_point_2 p r : 128 <= p < 2048 → utf8_decode (encode_point p ++ r) = p :: utf8_decode r.
Proof.
  intros H. unfold encode_point. decide_test (p <? 128) false. decide_test (p <? 2048) true. cbn [app utf8_decode].
  decide_test (192 + p / 64 <? 128) false. decide_test (within 194 223 (192 + p / 64)) true.
  decide_test (cont (128 + p mod 64)) true. f_equal. div_lia.
Qed.
Lemma decode_point_3 p r : 2048 <= p < 65536 → is_high p || is_low p = false →
  utf8_decode (encode_point p ++ r) = p :: utf8_decode r.
Proof.
  intros H Hs. assert (Hr : p < 55296 ∨ 57343 < p).
  { unfold is_high, is_low in Hs. apply orb_false_iff in Hs as [H1 H2]. rewrite andb_false_iff, !N.leb_gt in H1, H2. lia. }
  unfold encode_point. decide_test (p <? 128) false. decide_test (p <? 2048) false. decide_test (p <? 65536) true.
  cbn [app utf8_decode].
  decide_test (224 + p / 4096 <? 128) false. decide_test (within 194 223 (224 + p / 4096)) false.
  decide_test (within 224 239 (224 + p / 4096)) true. decide_test (second_ok (224 + p / 4096) (128 + (p / 64) mod 64)) true.
  decide_test (cont (128 + p mod 64)) true. f_equal. div_lia.
Qed.
Lemma decode_point_4 p r : 65536 <= p < 1114112 → utf8_decode (encode_point p ++ r) = pair_of p ++ utf8_decode r.
Proof.
  intros H. unfold encode_point. decide_test (p <? 128) false. decide_test (p <? 2048) false. decide_test (p <? 65536) false.
  cbn [app utf8_decode].
  decide_test (240 + p / 262144 <? 128) false. decide_test (within 194 223 (240 + p / 262144)) false.
  decide_test (within 224 239 (240 + p / 262144)) false. decide_test (within 240 244 (240 + p / 262144)) true.
  decide_test (second_ok (240 + p / 262144) (128 + (p / 4096) mod 64)) true.
  decide_test (cont (128 + (p / 64) mod 64)) true. decide_test (cont (128 + p mod 64)) true.
  f_equal. f_equal. div_lia.
Qed.
Lemma decode_point_bmp c r : c < 65536 → is_high c || is_low c = false → utf8_decode (encode_point c ++ r) = c :: utf8_decode r.
Proof.
  intros Hc Hs. destruct (N.lt_ge_cases c 128); [by apply decode_point_1 |].
  destruct (N.lt_ge_cases c 2048); [apply decode_point_2; lia |]. apply decode_point_3; [lia | done].
Qed.
Lemma pair_of_code c d : is_high c = true → is_low d = true →
  65536 <= 65536 + (c - 55296) * 1024 + (d - 56320) < 1114112 ∧ pair_of (65536 + (c - 55296) * 1024 + (d - 56320)) = [c; d].
Proof.
  intros Hc Hd. split_bools. split; [lia |]. unfold pair_of. f_equal; [| f_equal]; div_lia.
Qed.

(** A text read back from its own bytes. *)
Lemma utf8_roundtrip s : well_formed s = true → utf8_decode (utf8_encode s) = s.
Proof.
  assert (∀ n, (length s <= n)%nat → well_formed s = true → utf8_decode (utf8_encode s) = s) as G; [| by apply (G (length s))].
  intros n. revert s. induction n as [| n IH]; intros s Hn Hw; [by destruct s; [| simpl in Hn; lia] |].
  destruct s as [| c [| d s]]; [done | |]; cbn [well_formed utf8_encode length] in *; apply andb_true_iff in Hw as [Hc Hw];
    apply N.ltb_lt in Hc.
  { apply negb_true_iff in Hw. rewrite Hw, <- (app_nil_r (encode_point c)). by apply decode_point_bmp. }
  destruct (is_high c && is_low d) eqn:E.
  - apply andb_true_iff in E as [E1 E2]. destruct (pair_of_code c d E1 E2) as [Hr Hp].
    rewrite decode_point_4, Hp, IH; [done | lia | done | done].
  - apply andb_true_iff in Hw as [Hs Hw]. apply negb_true_iff in Hs. rewrite Hs, decode_point_bmp by done.
    f_equal. apply (IH (d :: s)); [cbn [length]; lia | done].
Qed.

Lemma utf8_encode_app_ascii s t : Forall (λ c, c < 128) s → utf8_encode (s ++ t) = s ++ utf8_encode t.
Proof.
  induction 1 as [| c s Hc Hs IH]; [done |].
  assert (is_high c = false) as E1 by (unfold is_high; apply andb_false_iff; rewrite !N.leb_gt; lia).
  assert (is_low c = false) as E2 by (unfold is_low; apply andb_false_iff; rewrite !N.leb_gt; lia).
  assert (encode_point c = [c]) as E3 by (unfold encode_point; by rewrite (proj2 (N.ltb_lt _ _) Hc)).
  cbn [app utf8_encode]. rewrite E1, E2. cbn [orb andb]. rewrite E3. cbn [app].
  rewrite <- IH. destruct (s ++ t); done.
Qed.
Lemma utf8_encode_ascii s : Forall (λ c, c < 128) s → utf8_encode s = s.
Proof. intros H. pose proof (utf8_encode_app_ascii s [] H) as E. by rewrite !app_nil_r in E. Qed.
Lemma encode_point_byte p : p < 1114112 → Forall (λ b, b < 256) (encode_point p).
Proof. intros H. unfold encode_point. repeat case_match; split_bools; repeat constructor; div_lia. Qed.
Lemma utf8_encode_byte s : Forall (λ c, c < 65536) s → Forall (λ b, b < 256) (utf8_encode s).
Proof.
  assert (∀ n, (length s <= n)%nat → Forall (λ c, c < 65536) s → Forall (λ b, b < 256) (utf8_encode s)) as G;
    [| by apply (G (length s))].
  intros n. revert s. induction n as [| n IH]; intros s Hn Hw; [by destruct s; [| simpl in Hn; lia] |].
  assert (∀ c, c < 65536 → Forall (λ b, b < 256) (encode_point (if is_high c || is_low c then replacement else c))) as Hp.
  { intros c Hc. apply encode_point_byte. case_match; unfold replacement; lia. }
  destruct s as [| c [| d s]]; [constructor | |]; cbn [utf8_encode length] in *.
  { inversion Hw; subst. by apply Hp. }
  inversion Hw as [| ?? Hc Hw']; subst. inversion Hw' as [| ?? Hd Hw'']; subst.
  case_match eqn:E; apply Forall_app; split.
  - apply andb_true_iff in E as [E1 E2]. apply encode_point_byte, pair_of_code; done.
  - apply IH; [lia | done].
  - by apply Hp.
  - apply (IH (d :: s)); [cbn [length]; lia | done].
Qed.

Lemma char_sextet_of v : v < 64 → char_sextet (sextet_char v) = Some v.
Proof.
  intros H. assert (In v (map N.of_nat (seq 0 64))) as Hi.
  { apply in_map_iff. exists (N.to_nat v). split; [lia | apply in_seq; lia]. }
  assert (forallb (λ v, bool_decide (char_sextet (sextet_char v) = Some v)) (map N.of_nat (seq 0 64)) = true) as G by by vm_compute.
  rewrite forallb_forall in G. by apply (bool_decide_eq_true_1 _), G.
Qed.
Lemma sextet_char_range v : v < 64 → sextet_char v < 128 ∧ sextet_char v ≠ 61 ∧ sextet_char v ≠ 46.
Proof. intros H. unfold sextet_char. repeat case_match; split_bools; lia. Qed.
Lemma to_sextets_small bs : Forall (λ b, b < 256) bs → Forall (λ v, v < 64) (to_sextets bs).
Proof.
  assert (∀ n, (length bs <= n)%nat → Forall (λ b, b < 256) bs → Forall (λ v, v < 64) (to_sextets bs)) as G; [| by apply (G (length bs))].
  intros n. revert bs. induction n as [| n IH]; intros bs Hn Hb; [by destruct bs; [| simpl in Hn; lia] |].
  destruct bs as [| a [| b [| c r]]]; cbn [to_sextets length app] in *;
    repeat match goal with H : Forall _ (_ :: _) |- _ => inversion H; clear H; subst end;
    repeat constructor; try div_lia. apply IH; [lia | done].
Qed.
Lemma of_to_sextets bs : Forall (λ b, b < 256) bs → of_sextets (to_sextets bs) = bs.
Proof.
  assert (∀ n, (length bs <= n)%nat → Forall (λ b, b < 256) bs → of_sextets (to_sextets bs) = bs) as G; [| by apply (G (length bs))].
  intros n. revert bs. induction n as [| n IH]; intros bs Hn Hb; [by destruct bs; [| simpl in Hn; lia] |].
  destruct bs as [| a [| b [| c r]]]; cbn [to_sextets of_sextets length app] in *;
    repeat match goal with H : Forall _ (_ :: _) |- _ => inversion H; clear H; subst end; [done | | |].
  1, 2: repeat f_equal; div_lia.
  f_equal; [div_lia |]. f_equal; [div_lia |]. f_equal; [div_lia |]. apply IH; [lia | done].
Qed.
Lemma base64url_chars bs : Forall (λ b, b < 256) bs → Forall (λ c, c < 128 ∧ c ≠ 61 ∧ c ≠ 46) (base64url bs).
Proof.
  intros H. apply Forall_map. eapply Forall_impl; [by apply to_sextets_small | intros v Hv; by apply sextet_char_range].
Qed.
Lemma before_padding_none s : Forall (λ c, c ≠ 61) s → before_padding s = s.
Proof. induction 1 as [| c s Hc Hs IH]; [done |]. simpl. rewrite (proj2 (N.eqb_neq _ _) Hc). by f_equal. Qed.
Lemma omap_sextets vs : Forall (λ v, v < 64) vs → omap char_sextet (map sextet_char vs) = vs.
Proof. induction 1 as [| v vs Hv Hvs IH]; [done |]. cbn [map omap list_omap]. rewrite char_sextet_of by done. by f_equal. Qed.

(** Bytes read back from their own base64. *)
Lemma base64_roundtrip bs : Forall (λ b, b < 256) bs → from_base64 (base64url bs) = bs.
Proof.
  intros H. unfold from_base64. rewrite before_padding_none.
  2: { eapply Forall_impl; [by apply base64url_chars | naive_solver]. }
  unfold base64url. rewrite omap_sextets; [by apply of_to_sextets | by apply to_sextets_small].
Qed.
Lemma base64url_nil bs : base64url bs = [] → bs = [].
Proof. by destruct bs as [| a [| b [| c r]]]. Qed.

Example decode_uri_ok : decodeURIComponent (js "a%20b%C3%A9=c") = Some (js "a b" ++ [233] ++ js "=c").
Proof. by vm_compute. Qed.
Example decode_uri_malformed : decodeURIComponent (js "100%") = None ∧ decodeURIComponent (js "%C3") = None.
Proof. by vm_compute. Qed.
Example base64_example : base64url (utf8_encode (js "user:pass")) = js "dXNlcjpwYXNz".
Proof. by vm_compute. Qed.

(** ** [encodeURIComponent] *)

Definition unreserved (c : N) : bool :=
  within 65 90 c || within 97 122 c || within 48 57 c || existsb (N.eqb c) (js "-_.!~*'()").
Definition hex_upper (d : N) : N := if d <? 10 then 48 + d else 55 + d.
Definition percent (b : N) : jsstr := [37; hex_upper (b / 16); hex_upper (b mod 16)].
(** [None] when it throws: a lone half of a pair. *)
Fixpoint encodeURIComponent (s : jsstr) : option jsstr :=
  match s with
  | [] => Some []
  | c :: s' =>
      if unreserved c then cons c <$> encodeURIComponent s'
      else match s' with
           | d :: s'' =>
               if is_high c && is_low d then
                 app (flat_map percent (encode_point (65536 + (c - 55296) * 1024 + (d - 56320)))) <$> encodeURIComponent s''
               else if is_high c || is_low c then None
               else app (flat_map percent (encode_point c)) <$> encodeURIComponent s'
           | [] => if is_high c || is_low c then None else Some (flat_map percent (encode_point c))
           end
  end.
Lemma encode_unreserved s : Forall (λ c, unreserved c = true) s → encodeURIComponent s = Some s.
Proof.
  induction 1 as [| c s Hc Hs IH]; [done |]. cbn [encodeURIComponent]. by rewrite Hc, IH.
Qed.
Lemma strict_decode_nil : strict_decode [] = Some [].
Proof. done. Qed.
Lemma decode_uri_cons c s : c ≠ 37 → decode_uri [] (c :: s) = (rest ← decode_uri [] s; Some (c :: rest)).
Proof.
  intros Hc. cbn [decode_uri]. change (reverse (@nil N)) with (@nil N). rewrite strict_decode_nil.
  destruct c as [| p]; [done |]. do 6 (destruct p as [p | p |]; try done).
Qed.
Lemma decode_unescaped s : Forall (λ c, c ≠ 37) s → decodeURIComponent s = Some s.
Proof.
  unfold decodeURIComponent. induction 1 as [| c s Hc Hs IH]; [done |]. by rewrite decode_uri_cons, IH.
Qed.
Lemma sextet_unreserved v : v < 64 → unreserved (sextet_char v) = true ∧ sextet_char v ≠ 37 ∧ is_space (sextet_char v) = false.
Proof.
  intros H. assert (In v (map N.of_nat (seq 0 64))) as Hi.
  { apply in_map_iff. exists (N.to_nat v). split; [lia | apply in_seq; lia]. }
  assert (forallb (λ v, unreserved (sextet_char v) && negb (sextet_char v =? 37) && negb (is_space (sextet_char v)))
    (map N.of_nat (seq 0 64)) = true) as G by by vm_compute.
  rewrite forallb_forall in G. specialize (G v Hi). simpl in G.
  rewrite !andb_true_iff, !negb_true_iff, N.eqb_neq in G. tauto.
Qed.
Example encode_uri_example : encodeURIComponent (js "a b/" ++ [233]) = Some (js "a%20b%2F%C3%A9").
Proof. by vm_compute. Qed.

(** *** Concatenation *)

Lemma well_formed_app s t : well_formed s = true → well_formed t = true → well_formed (s ++ t) = true.
Proof.
  intros Hs Ht. revert Hs.
  assert (∀ n, (length s <= n)%nat → well_formed s = true → well_formed (s ++ t) = true) as G; [| by apply (G (length s))].
  intros n. revert s. induction n as [| n IH]; intros s Hn Hw; [by destruct s; [| simpl in Hn; lia] |].
  destruct s as [| c [| d s]]; [done | |].
  - cbn [well_formed app] in *. apply andb_true_iff in Hw as [Hc Hw]. rewrite Hc. cbn [andb].
    destruct t as [| d t]; [done |]. rewrite Hw, Ht. cbn [andb]. apply negb_true_iff, orb_false_iff in Hw as [Hh _]. by rewrite Hh.
  - change (((c :: d :: s) ++ t)) with (c :: d :: (s ++ t)).
    change (well_formed (c :: d :: (s ++ t))) with ((c <? 65536) &&
      (if is_high c && is_low d then well_formed (s ++ t) else negb (is_high c || is_low c) && well_formed (d :: s ++ t))).
    change (well_formed (c :: d :: s)) with ((c <? 65536) &&
      (if is_high c && is_low d then well_formed s else negb (is_high c || is_low c) && well_formed (d :: s))) in Hw.
    cbn [length] in Hn. apply andb_true_iff in Hw as [Hc Hw]. rewrite Hc. cbn [andb]. case_match.
    + apply IH; [lia | done].
    + apply andb_true_iff in Hw as [H1 H2]. rewrite H1. cbn [andb]. apply (IH (d :: s)); [cbn [length]; lia | done].
Qed.
Lemma well_formed_ascii s : Forall (λ c, c < 128) s → well_formed s = true.
Proof.
  induction 1 as [| c s Hc Hs IH]; [done |].
  assert (is_high c = false) as E1 by (unfold is_high; apply andb_false_iff; rewrite !N.leb_gt; lia).
  assert (is_low c = false) as E2 by (unfold is_low; apply andb_false_iff; rewrite !N.leb_gt; lia).
  assert (c <? 65536 = true) as E3 by (apply N.ltb_lt; lia).
  cbn [well_formed]. rewrite E1, E2, E3. cbn [orb andb negb]. by destruct s.
Qed.
