(* ===== verification/WebAuth.v ===== *)
(** * Web sessions ([server/web-auth.ts], the first middleware of [server/app.ts], the handlers of [routes/global.ts])

    Signed session tokens, their cookie, revocation, the lockout of failed
    logins, and the check every request passes.  The keyed hash is an argument,
    bytes to bytes, and so are the check of a password by the system and the
    random bytes of a token.  A handler is one step up to the check of a
    password, which it awaits; each step has one clock.  A session is the value
    that the text of a token parses to, whatever it is. *)
From stdpp Require Import gmap.
From Stdlib Require Import QArith.
From S2P Require Import Prelude JsString JsNumber Json Bytes.
Open Scope Z_scope.

(** ** Values of the language *)

Definition property (k : jsstr) (v : json) : json :=
  match v with
  | JObj l => match find (λ kv : jsstr * json, bool_decide (kv.1 = k)) l with Some kv => kv.2 | None => JNull end
  | _ => JNull
  end.
Definition js_truthy (v : json) : bool :=
  match v with
  | JNull => false
  | JBool b => b
  | JNum n => negb (n =? 0)
  | JDec s => match parseFloat s with Some q => negb (Qeq_bool q 0) | None => true end
  | JStr s => negb (bool_decide (s = []))
  | JArr _ | JObj _ => true
  end.

(** *** [v <= t] for a number [t] *)

Definition minus_sign (s : jsstr) : bool := match s with 45%N :: _ => true | _ => false end.
Definition literal_le (s : jsstr) (t : Z) : bool :=
  match parseFloat s with Some q => Qle_bool q (inject_Z t) | None => minus_sign s end.
(** An unsigned decimal literal up to the end of the text. *)
Definition decimal_literal (s : jsstr) : bool :=
  let '(ds, r) := span_digits s in
  let '(fs, r') := match r with 46%N :: t => span_digits t | _ => ([], r) end in
  negb (bool_decide (ds ++ fs = [])) &&
  match r' with
  | [] => true
  | c :: e =>
      ((c =? 101) || (c =? 69))%N &&
      match span_digits (parse_sign e).2 with (_ :: _, []) => true | _ => false end
  end.
Fixpoint radix_value (radix acc : Z) (s : jsstr) : option Z :=
  match s with
  | [] => Some acc
  | c :: s => match hex_value c with Some d => if d <? radix then radix_value radix (acc * radix + d) s else None | None => None end
  end.
Definition radix_of (c : N) : option Z :=
  if ((c =? 120) || (c =? 88))%N then Some 16
  else if ((c =? 111) || (c =? 79))%N then Some 8
  else if ((c =? 98) || (c =? 66))%N then Some 2 else None.
Definition radix_literal (s : jsstr) : option Z :=
  match s with
  | 48%N :: c :: d :: r => match radix_of c with Some x => radix_value x 0 (d :: r) | None => None end
  | _ => None
  end.
(** What is not a number is less than nothing. *)
Definition text_le (s : jsstr) (t : Z) : bool :=
  let r := trim s in
  match radix_literal r with
  | Some v => v <=? t
  | None =>
      if bool_decide (r = []) then 0 <=? t
      else if bool_decide ((parse_sign r).2 = js "Infinity") then minus_sign r
      else decimal_literal (parse_sign r).2 && literal_le r t
  end.
Fixpoint js_le (v : json) (t : Z) : bool :=
  match v with
  | JNull => 0 <=? t
  | JBool b => (if b then 1 else 0) <=? t
  | JNum n => n <=? t
  | JDec s => literal_le s t
  | JStr s => text_le s t
  | JArr [] | JArr [JNull] => 0 <=? t
  | JArr [JBool _] => false
  | JArr [x] => js_le x t
  | JArr _ | JObj _ => false
  end.
Definition number_value (v : json) : option Q :=
  match v with JNum n => Some (inject_Z n) | JDec s => parseFloat s | _ => None end.
(** One key of a [Map]: an object just read is no other. *)
Definition same_key (a b : json) : bool :=
  match a, b with
  | JStr s, JStr t => bool_decide (s = t)
  | JBool x, JBool y => Bool.eqb x y
  | JNull, JNull => true
  | _, _ => match number_value a, number_value b with Some p, Some q => Qeq_bool p q | _, _ => false end
  end.

(** ** Requests, environment and state *)

(** The headers by their lower-case names; [location] is the scheme and the host
    name that the address parses to. *)
Record request := mkRequest {
  r_method : jsstr;
  r_path : jsstr;
  headers : gmap jsstr jsstr;
  location : option (jsstr * jsstr)
}.
Definition header (name : string) (r : request) : option jsstr := headers r !! js name.
(** A header that is there and not empty. *)
Definition given (h : option jsstr) : option jsstr := match h with Some [] => None | _ => h end.

Record environment := mkEnv {
  linux : bool;
  user_daemon_mode : option jsstr;
  sudo_user : option jsstr;
  logname : option jsstr;
  user : option jsstr;
  server_username : option jsstr;
  server_password : option jsstr;
  auth_secret : option jsstr;
  cli_token : option jsstr;
  per_user_daemon : option jsstr;
  trusted_loopback_user : option jsstr;
  own_username : option jsstr;
  daemons : list jsstr
}.

Record lock_state := mkLock { count : Z; lockedUntil : option Z }.
Record auth := mkAuth { revoked : list (json * json); lockout : gmap jsstr lock_state }.
Definition initial : auth := mkAuth [] ∅.

Definition SESSION_COOKIE : jsstr := js "opencode_session".
Definition SESSION_TTL_MS : Z := 30 * 24 * 60 * 60 * 1000.
Definition LOCK_THRESHOLD : Z := 5.
Definition LOCK_WINDOW_MS : Z := 5 * 60 * 1000.
Definition API_PREFIXES : list jsstr :=
  map js ["/api/v2"; "/global"; "/auth"; "/project"; "/pty"; "/config"; "/experimental"; "/session"; "/permission";
    "/question"; "/provider"; "/mcp"; "/tui"; "/account"; "/accounts"; "/rotation"; "/path"; "/vcs"; "/command"; "/log";
    "/agent"; "/skill"; "/lsp"; "/formatter"; "/event"; "/instance"; "/doc"; "/google-binding"].

(** *** Credentials *)

Definition or_else {A : Type} (x y : option A) : option A := match x with Some _ => x | None => y end.
Definition is_one (o : option jsstr) : bool := bool_decide (o = Some (js "1")).
Definition enabled (env : environment) : bool := if is_one (user_daemon_mode env) then false else linux env.
Definition usernameHint (env : environment) : jsstr :=
  default (js "opencode") (or_else (sudo_user env) (or_else (logname env) (or_else (user env) (server_username env)))).
Definition default_secret (user password : jsstr) : jsstr := user ++ js ":" ++ password ++ js ":opencode:web-auth:v1".
Definition secret (env : environment) : jsstr :=
  default (default_secret (usernameHint env) (default [] (server_password env))) (auth_secret env).

(** *** Expiry *)

(** The end of a lock that is set: zero counts as none. *)
Definition until (s : lock_state) : option Z := match lockedUntil s with Some u => if u =? 0 then None else Some u | None => None end.
Definition keep_lock (t : Z) (s : lock_state) : bool :=
  match until s with Some u => t <? u | None => 0 <? count s end.
Definition cleanup (t : Z) (a : auth) : auth :=
  mkAuth (filter (λ e : json * json, js_le e.2 t = false) (revoked a))
    (filter (λ e : jsstr * lock_state, keep_lock t e.2 = true) (lockout a)).
Definition is_revoked (sid : json) (a : auth) : bool := existsb (λ e : json * json, same_key e.1 sid) (revoked a).

(** ** Tokens *)

(** The text before the first comma, trimmed. *)
Definition first_item (s : jsstr) : jsstr := trim (hd [] (split_on 44 s)).

Section tokens.
Context (hmac : list N → list N → list N).

Definition sign (env : environment) (raw : jsstr) : jsstr :=
  base64url (hmac (utf8_encode (secret env)) (utf8_encode raw)).
Definition payload (username csrf sid : jsstr) (iat exp : Z) : json :=
  JObj [(js "username", JStr username); (js "csrf", JStr csrf); (js "sid", JStr sid); (js "iat", JNum iat); (js "exp", JNum exp)].
Definition body_of (p : json) : jsstr := base64url (utf8_encode (stringify p)).
Definition encode (env : environment) (p : json) : jsstr := body_of p ++ js "." ++ sign env (body_of p).

(** The first two pieces, when neither is empty. *)
Definition split_token (token : jsstr) : option (jsstr * jsstr) :=
  match split_on 46 token with
  | (_ :: _) as body :: ((_ :: _) as sig) :: _ => Some (body, sig)
  | _ => None
  end.
Definition signature_ok (env : environment) (body sig : jsstr) : bool :=
  bool_decide (utf8_encode sig = utf8_encode (sign env body)).
Definition live (t : Z) (a : auth) (p : json) : bool :=
  js_truthy (property (js "sid") p) && js_truthy (property (js "csrf") p) && js_truthy (property (js "exp") p) &&
  js_truthy (property (js "username") p) && negb (js_le (property (js "exp") p) t) && negb (is_revoked (property (js "sid") p) a).
Definition decode (env : environment) (t : Z) (a : auth) (token : option jsstr) : option json :=
  '(body, sig) ← token ≫= split_token;
  if signature_ok env body sig then
    p ← parse (utf8_decode (from_base64 body));
    if live t a p then Some p else None
  else None.

(** *** Cookies *)

(** [None] when a value cannot be decoded, which throws. *)
Definition parse_cookie (item : jsstr) : option (option (jsstr * jsstr)) :=
  match split_on 61 (trim item) with
  | [] | [] :: _ => Some None
  | name :: value => v ← decodeURIComponent (join (js "=") value); Some (Some (name, v))
  end.
Definition set_cookie (cookies : gmap jsstr jsstr) (item : jsstr) : option (gmap jsstr jsstr) :=
  c ← parse_cookie item;
  Some (match c with
        | Some (name, v) => if bool_decide (name = js "__proto__") then cookies else <[name := v]> cookies
        | None => cookies
        end).
Fixpoint set_cookies (cookies : gmap jsstr jsstr) (items : list jsstr) : option (gmap jsstr jsstr) :=
  match items with [] => Some cookies | i :: items => cookies ← set_cookie cookies i; set_cookies cookies items end.
Definition parseCookies (cookie : option jsstr) : option (gmap jsstr jsstr) :=
  match given cookie with Some h => set_cookies ∅ (split_on 59 h) | None => Some ∅ end.

Definition isSecureRequest (r : request) : bool :=
  match given (header "x-forwarded-proto" r) with
  | Some proto => bool_decide (first_item proto = js "https")
  | None => match location r with Some (protocol, _) => bool_decide (protocol = js "https:") | None => false end
  end.
Definition cookie_attributes (r : request) (maxAgeSeconds : Z) : jsstr :=
  js "; Path=/; HttpOnly; SameSite=Lax; Max-Age=" ++ show_Z maxAgeSeconds ++ (if isSecureRequest r then js "; Secure" else []).
Definition cookieHeader (r : request) (token : jsstr) (maxAgeSeconds : Z) : option jsstr :=
  v ← encodeURIComponent token; Some (SESSION_COOKIE ++ js "=" ++ v ++ cookie_attributes r maxAgeSeconds).
Definition clearCookieHeader (r : request) : jsstr := SESSION_COOKIE ++ js "=" ++ cookie_attributes r 0.

(** The state is cleaned before the cookies are read. *)
Definition readSession (env : environment) (t : Z) (r : request) (a : auth) : option (option json) * auth :=
  let a := cleanup t a in
  (cookies ← parseCookies (header "cookie" r); Some (decode env t a (cookies !! SESSION_COOKIE)), a).

(** *** Issue and revocation *)

Definition issue (env : environment) (t : Z) (csrf_bytes sid_bytes : list N) (user : jsstr) : json * jsstr :=
  let p := payload user (base64url csrf_bytes) (base64url sid_bytes) t (t + SESSION_TTL_MS) in (p, encode env p).
Definition invalidate (session : option json) (a : auth) : auth :=
  match session with
  | Some p =>
      let sid := property (js "sid") p in
      mkAuth (filter (λ e : json * json, same_key e.1 sid = false) (revoked a) ++ [(sid, property (js "exp") p)]) (lockout a)
  | None => a
  end.
End tokens.

(** ** Failed logins *)

Definition lockKey (r : request) (user : jsstr) : jsstr :=
  match header "x-forwarded-for" r with Some h => first_item h | None => js "unknown" end ++ js ":" ++ user.
(** The end of the lock and the seconds to wait, rounded up. *)
Definition lockStatus (t : Z) (r : request) (user : jsstr) (a : auth) : option (Z * Z) * auth :=
  let a := cleanup t a in
  (match lockout a !! lockKey r user with
   | Some s =>
       match until s with
       | Some u => if u - t <=? 0 then None else Some (u, - ((- (u - t)) / 1000))
       | None => None
       end
   | None => None
   end, a).
Definition markFailure (t : Z) (r : request) (user : jsstr) (a : auth) : auth :=
  let a := cleanup t a in
  let key := lockKey r user in
  let nextCount := match lockout a !! key with Some s => count s | None => 0 end + 1 in
  mkAuth (revoked a)
    (<[key := mkLock nextCount (if LOCK_THRESHOLD <=? nextCount then Some (t + LOCK_WINDOW_MS) else None)]> (lockout a)).
Definition markSuccess (r : request) (user : jsstr) (a : auth) : auth :=
  mkAuth (revoked a) (delete (lockKey r user) (lockout a)).

(** ** Which requests are let through *)

Definition isApiPath (pathname : jsstr) : bool :=
  existsb (λ prefix, bool_decide (pathname = prefix) || startsWith pathname (prefix ++ js "/")) API_PREFIXES.
Definition method_is (m : string) (r : request) : bool := bool_decide (r_method r = js m).
Definition path_is (p : string) (r : request) : bool := bool_decide (r_path r = js p).
Definition routePublic (r : request) : bool :=
  if method_is "OPTIONS" r then true
  else if path_is "/global/health" r then true
  else if path_is "/global/auth/login" r then true
  else if path_is "/global/auth/session" r then true
  else if path_is "/global/auth/logout" r then true
  else (method_is "GET" r || method_is "HEAD" r) && negb (isApiPath (r_path r)).

Definition isSome_given (h : option jsstr) : bool := match given h with Some _ => true | None => false end.
Definition loopback_names : list jsstr := map js ["127.0.0.1"; "localhost"; "::1"; "[::1]"].
Definition isTrustedLoopbackRequest (r : request) : bool :=
  if isSome_given (header "x-forwarded-for" r) || isSome_given (header "x-forwarded-proto" r) ||
     isSome_given (header "x-real-ip" r) || isSome_given (header "cf-connecting-ip" r) then false
  else match location r with
       | Some (_, hostname) => bool_decide (toLowerCase hostname ∈ loopback_names)
       | None => false
       end.
Definition shouldProtectMutation (r : request) : bool :=
  if method_is "GET" r || method_is "HEAD" r || method_is "OPTIONS" r then false
  else if path_is "/global/auth/login" r then false else true.

Definition parseBasicAuthorization (value : option jsstr) : option (jsstr * jsstr) :=
  v ← given value;
  if startsWith v (js "Basic ") then
    let encoded := trim (drop 6 v) in
    if bool_decide (encoded = []) then None
    else
      let decoded := utf8_decode (from_base64 encoded) in
      match indexOf decoded (js ":") with
      | Some (S _ as index) =>
          let user := take index decoded in
          let pass := drop (S index) decoded in
          if bool_decide (user = [] ∨ pass = []) then None else Some (user, pass)
      | _ => None
      end
  else None.

(** [/^[a-z_][a-z0-9_-]*[$]?$/i], and not root. *)
Definition is_letter (c : N) : bool := within 65 90 c || within 97 122 c.
Definition user_char (c : N) : bool := is_letter c || is_digit c || (c =? 95)%N || (c =? 45)%N.
Definition is_username (s : jsstr) : bool :=
  match s with
  | c :: r => (is_letter c || (c =? 95)%N) && forallb user_char (match reverse r with 36%N :: r' => r' | r' => r' end)
  | [] => false
  end.
Definition sanitizeUsername (username : option jsstr) : option jsstr :=
  u ← username; if is_username u then if bool_decide (u = js "root") then None else Some u else None.

Section server.
Context (hmac : list N → list N → list N) (pam : jsstr → jsstr → bool).

Definition verify (env : environment) (user pass : jsstr) : bool := if linux env then pam user pass else false.
Definition verifyBasicAuthUser (env : environment) (r : request) : option jsstr :=
  '(user, pass) ← parseBasicAuthorization (header "authorization" r);
  if verify env user pass then Some user else None.

(** Who the request runs as, when it goes on; or the answer; or an exception. *)
Inductive outcome := Proceed (who : option json) | Answer (status : Z) (code : jsstr) | Throws.

Definition as_user (u : option jsstr) : outcome := Proceed (JStr <$> u).
Definition loopback_user (env : environment) : option jsstr :=
  if is_one (per_user_daemon env) then
    match sanitizeUsername (trusted_loopback_user env) with
    | Some explicit => Some explicit
    | None => match daemons env with [only] => Some only | _ => None end
    end
  else None.
Definition bearer_ok (env : environment) (r : request) : bool :=
  match given (cli_token env) with
  | Some token => bool_decide (header "authorization" r = Some (js "Bearer " ++ token))
  | None => false
  end.
(** The header is the token of the session, a text that is not empty. *)
Definition csrf_ok (r : request) (session : json) : bool :=
  match given (header "x-opencode-csrf" r), property (js "csrf") session with
  | Some h, JStr csrf => bool_decide (h = csrf)
  | _, _ => false
  end.
Definition by_session (env : environment) (t : Z) (r : request) (a : auth) : outcome * auth :=
  let '(read, a') := readSession hmac env t r a in
  (match read with
   | None => Throws
   | Some None => Answer 401 (js "AUTH_REQUIRED")
   | Some (Some session) =>
       if shouldProtectMutation r && negb (csrf_ok r session) then Answer 403 (js "CSRF_INVALID")
       else Proceed (Some (property (js "username") session))
   end, a').
Definition authenticate (env : environment) (t : Z) (r : request) (a : auth) : outcome * auth :=
  if bearer_ok env r then
    (match sanitizeUsername (header "x-opencode-user" r) with
     | Some u => as_user (Some u)
     | None => Answer 401 (js "CLI_USER_REQUIRED")
     end, a)
  else if negb (enabled env) then (as_user (own_username env), a)
  else if routePublic r then (Proceed None, a)
  else if isTrustedLoopbackRequest r then (as_user (loopback_user env), a)
  else match verifyBasicAuthUser env r with
       | Some u => (as_user (Some u), a)
       | None => by_session env t r a
       end.

(** ** The handlers *)

(** A login that passed the lock waits for the password to be checked. *)
Inductive login := Refused (lockedUntil retryAfter : Z) | Verifying | Unneeded.
Definition login_start (env : environment) (t : Z) (r : request) (user : jsstr) (a : auth) : login * auth :=
  if negb (enabled env) then (Unneeded, a)
  else let '(lock, a') := lockStatus t r user a in
       (match lock with Some (u, s) => Refused u s | None => Verifying end, a').
(** [None] for a wrong password; else the session and the cookie that is set. *)
Definition login_end (env : environment) (t : Z) (r : request) (user : jsstr) (csrf sid : list N) (ok : bool) (a : auth) :
    option (json * option jsstr) * auth :=
  if ok then
    let '(p, token) := issue hmac env t csrf sid user in
    (Some (p, cookieHeader r token (60 * 60 * 8)), markSuccess r user a)
  else (None, markFailure t r user a).

(** The cookie that is set, none when nothing is, and whether it throws. *)
Definition logout (env : environment) (t : Z) (r : request) (a : auth) : option (option jsstr) * auth :=
  if enabled env then
    let '(read, a) := readSession hmac env t r a in
    match read with
    | None => (None, a)
    | Some session => (Some (Some (clearCookieHeader r)), invalidate session a)
    end
  else (Some None, a).

Inductive session_status :=
| Disabled
| Anonymous (hint : jsstr) (lock : option (Z * Z))
| LoggedIn (username csrfToken : json).
(** [None] when it throws. *)
Definition session_route (env : environment) (t : Z) (r : request) (a : auth) : option session_status * auth :=
  if negb (enabled env) then (Some Disabled, a)
  else
    let '(read, a) := readSession hmac env t r a in
    match read with
    | None => (None, a)
    | Some None =>
        let '(lock, a) := lockStatus t r (usernameHint env) a in
        (Some (Anonymous (usernameHint env) lock), a)
    | Some (Some s) => (Some (LoggedIn (property (js "username") s) (property (js "csrf") s)), a)
    end.
End server.

(** ** Requests in sequence *)

(** The kinds of step; the end of a login follows its start some time later. *)
Inductive event :=
| Check (r : request)
| Status (r : request)
| LoginStart (r : request) (user : jsstr)
| LoginEnd (r : request) (user : jsstr) (csrf sid : list N) (ok : bool)
| Logout (r : request).
Definition step (hmac : list N → list N → list N) (pam : jsstr → jsstr → bool) (env : environment) (t : Z) (e : event) (a : auth) : auth :=
  match e with
  | Check r => (authenticate hmac pam env t r a).2
  | Status r => (session_route hmac env t r a).2
  | LoginStart r user => (login_start env t r user a).2
  | LoginEnd r user csrf sid ok => (login_end hmac env t r user csrf sid ok a).2
  | Logout r => (logout hmac env t r a).2
  end.
Definition run hmac pam env (es : list (Z * event)) (a : auth) : auth := foldl (λ a e, step hmac pam env e.1 e.2 a) a es.
(** The clock does not go back from [t]. *)
Fixpoint clock_from (t : Z) (es : list (Z * event)) : Prop :=
  match es with [] => True | e :: es => t <= e.1 ∧ clock_from e.1 es end.
Definition clock_end (t : Z) (es : list (Z * event)) : Z := foldl (λ _ e, e.1) t es.

(** ** Texts of tokens *)

Definition token_char (c : N) : Prop := unreserved c = true ∧ c ≠ 37%N ∧ is_space c = false ∧ c ≠ 61%N ∧ c ≠ 59%N.
Definition sextet_text (s : jsstr) : Prop := Forall (λ c, token_char c ∧ c ≠ 46%N ∧ (c < 128)%N) s.

Lemma base64url_text bs : Forall (λ b, (b < 256)%N) bs → sextet_text (base64url bs).
Proof.
  intros H. apply Forall_map. eapply Forall_impl; [by apply to_sextets_small |]. intros v Hv.
  destruct (sextet_char_range v Hv) as (H1 & H2 & H3). destruct (sextet_unreserved v Hv) as (H4 & H5 & H6).
  assert (sextet_char v ≠ 59%N) by (intros E; by rewrite E in H4). by repeat split.
Qed.
Lemma trim_no_space s : Forall (λ c, is_space c = false) s → trim s = s.
Proof.
  intros H. assert (∀ l, Forall (λ c, is_space c = false) l → trimStart l = l) as G.
  { intros l Hl. destruct Hl; [done |]. by apply trimStart_nonspace. }
  unfold trim, trimEnd. rewrite (G s H), G, reverse_involutive; [done |]. by apply Forall_reverse.
Qed.
Lemma hex_char_ascii d : (d < 16)%N → (hex_char d < 128)%N.
Proof. intros H. unfold hex_char. case_match; lia. Qed.
Lemma quote_unit_well_formed c : (c < 65536)%N → well_formed (quote_unit c) = true.
Proof.
  intros Hc. unfold quote_unit.
  destruct ((c =? 34)%N || (c =? 92)%N) eqn:E1. { apply orb_true_iff in E1 as [->%N.eqb_eq | ->%N.eqb_eq]; done. }
  destruct (c =? 8)%N; [done |]. destruct (c =? 9)%N; [done |]. destruct (c =? 10)%N; [done |].
  destruct (c =? 12)%N; [done |]. destruct (c =? 13)%N; [done |]. destruct ((c <? 32)%N || is_high c || is_low c) eqn:E2.
  - apply well_formed_ascii. unfold unicode_escape. repeat constructor; apply hex_char_ascii; zify; Z.to_euclidean_division_equations; lia.
  - cbn [well_formed]. rewrite (proj2 (N.ltb_lt _ _) Hc). rewrite <- orb_assoc in E2.
    apply orb_false_iff in E2 as [_ E2]. by rewrite E2.
Qed.
Lemma quote_units_well_formed s : Forall (λ c, (c < 65536)%N) s → well_formed (quote_units s) = true.
Proof.
  assert (∀ n, (length s <= n)%nat → Forall (λ c, (c < 65536)%N) s → well_formed (quote_units s) = true) as G; [| by apply (G (length s))].
  intros n. revert s. induction n as [| n IH]; intros s Hn Hw; [by destruct s; [| simpl in Hn; lia] |].
  destruct s as [| c [| d s]]; [done | by apply quote_unit_well_formed; inversion Hw |].
  inversion Hw as [| ?? Hc Hw']; subst. inversion Hw' as [| ?? Hd Hw'']; subst. cbn [length] in Hn.
  change (quote_units (c :: d :: s)) with
    (if is_high c && is_low d then c :: d :: quote_units s else quote_unit c ++ quote_units (d :: s)).
  destruct (is_high c && is_low d) eqn:E.
  - change (well_formed (c :: d :: quote_units s)) with ((c <? 65536)%N &&
      (if is_high c && is_low d then well_formed (quote_units s)
       else negb (is_high c || is_low c) && well_formed (d :: quote_units s))).
    rewrite E, (proj2 (N.ltb_lt _ _) Hc), IH; [done | lia | done].
  - apply well_formed_app; [by apply quote_unit_well_formed |]. apply IH; [cbn [length]; lia | done].
Qed.
Lemma quote_well_formed s : Forall (λ c, (c < 65536)%N) s → well_formed (quote s) = true.
Proof.
  intros H. unfold quote. apply (well_formed_app [34%N]); [done |]. apply well_formed_app; [| done]. by apply quote_units_well_formed.
Qed.
Lemma show_Z_well_formed n : well_formed (show_Z n) = true.
Proof.
  assert (∀ ds, Forall (λ c, is_digit c = true) ds → Forall (λ c, (c < 128)%N) ds) as G.
  { intros ds H. eapply Forall_impl; [exact H |]. intros c Hc. unfold is_digit in Hc.
    apply andb_true_iff in Hc as [_ Hc%N.leb_le]. simpl. lia. }
  apply well_formed_ascii. unfold show_Z. destruct (Z.ltb_spec n 0).
  - destruct (show_nonneg (- n)) as (ds & -> & Hd & _); [lia |]. apply Forall_app; split; [by repeat constructor | by apply G].
  - destruct (show_nonneg n) as (ds & -> & Hd & _); [lia |]. by apply G.
Qed.
Lemma sextet_units s : sextet_text s → Forall (λ c, (c < 65536)%N) s.
Proof. intros H. eapply Forall_impl; [exact H |]. intros c (_ & _ & Hc). simpl. lia. Qed.
Lemma well_formed_units s : well_formed s = true → Forall (λ c, (c < 65536)%N) s.
Proof.
  assert (∀ n, (length s <= n)%nat → well_formed s = true → Forall (λ c, (c < 65536)%N) s) as G; [| by apply (G (length s))].
  intros n. revert s. induction n as [| n IH]; intros s Hn Hw; [by destruct s; [| simpl in Hn; lia] |].
  destruct s as [| c [| d s]]; [done | |].
  - cbn [well_formed] in Hw. apply andb_true_iff in Hw as [Hc%N.ltb_lt _]. by repeat constructor.
  - change (well_formed (c :: d :: s)) with ((c <? 65536)%N &&
      (if is_high c && is_low d then well_formed s else negb (is_high c || is_low c) && well_formed (d :: s))) in Hw.
    cbn [length] in Hn. apply andb_true_iff in Hw as [Hc%N.ltb_lt Hw]. constructor; [done |].
    destruct (is_high c && is_low d) eqn:E.
    + apply andb_true_iff in E as [_ E]. constructor; [| apply IH; [lia | done]].
      unfold is_low in E. apply andb_true_iff in E as [_ E%N.leb_le]. lia.
    + apply andb_true_iff in Hw as [_ Hw]. apply (IH (d :: s)); [cbn [length]; lia | done].
Qed.

Section session_payload.
Context (username csrf sid : jsstr) (iat exp : Z).
Context (Hu : Forall (λ c, (c < 65536)%N) username) (Hc : Forall (λ c, (c < 65536)%N) csrf) (Hs : Forall (λ c, (c < 65536)%N) sid).
Notation p := (payload username csrf sid iat exp).

Lemma payload_text : stringify p =
  js "{" ++ ((quote (js "username") ++ js ":" ++ quote username) ++ js "," ++ (quote (js "csrf") ++ js ":" ++ quote csrf) ++ js "," ++
  (quote (js "sid") ++ js ":" ++ quote sid) ++ js "," ++ (quote (js "iat") ++ js ":" ++ show_Z iat) ++ js "," ++
  (quote (js "exp") ++ js ":" ++ show_Z exp)) ++ js "}".
Proof. reflexivity. Qed.
Lemma payload_well_formed : well_formed (stringify p) = true.
Proof.
  rewrite payload_text.
  repeat first [by apply quote_well_formed | by apply show_Z_well_formed | apply well_formed_app | by vm_compute].
Qed.
Lemma payload_ok : json_ok p.
Proof. apply json_ok_obj. split; [by apply (bool_decide_unpack _); vm_compute | by repeat constructor]. Qed.
(** The payload is read back from the body of its token. *)
Lemma body_read : parse (utf8_decode (from_base64 (body_of p))) = Some p.
Proof.
  unfold body_of. rewrite base64_roundtrip by (by apply utf8_encode_byte, well_formed_units, payload_well_formed).
  rewrite utf8_roundtrip by apply payload_well_formed. by apply (parse_stringify false), payload_ok.
Qed.
Lemma body_text : sextet_text (body_of p) ∧ body_of p ≠ [].
Proof.
  split; [by apply base64url_text, utf8_encode_byte, well_formed_units, payload_well_formed |].
  unfold body_of. rewrite payload_text. intros E%base64url_nil.
  change (js "{") with [123%N] in E. rewrite utf8_encode_app_ascii in E by (by repeat constructor). done.
Qed.
Lemma payload_property :
  property (js "username") p = JStr username ∧ property (js "csrf") p = JStr csrf ∧ property (js "sid") p = JStr sid ∧
  property (js "exp") p = JNum exp.
Proof. done. Qed.
End session_payload.

Definition payload_live (username csrf sid : jsstr) (exp t : Z) (a : auth) : bool :=
  negb (bool_decide (username = [])) && negb (bool_decide (csrf = [])) && negb (bool_decide (sid = [])) && negb (exp =? 0) &&
  (t <? exp) && negb (is_revoked (JStr sid) a).
Lemma live_payload username csrf sid iat exp t a :
  live t a (payload username csrf sid iat exp) = payload_live username csrf sid exp t a.
Proof.
  unfold live. destruct (payload_property username csrf sid iat exp) as (-> & -> & -> & ->). unfold payload_live. cbn [js_truthy js_le].
  replace (negb (exp <=? t)) with (t <? exp) by (rewrite Z.ltb_antisym; done).
  destruct (bool_decide (username = [])), (bool_decide (csrf = [])), (bool_decide (sid = [])), (exp =? 0), (t <? exp); done.
Qed.

(** A keyed hash gives bytes, at least one. *)
Definition gives_bytes (hmac : list N → list N → list N) : Prop := ∀ k m, Forall (λ b, (b < 256)%N) (hmac k m) ∧ hmac k m ≠ [].

Section issued.
Context (hmac : list N → list N → list N) (Hh : gives_bytes hmac) (env : environment).
Context (username csrf sid : jsstr) (iat exp : Z).
Context (Hu : Forall (λ c, (c < 65536)%N) username) (Hc : Forall (λ c, (c < 65536)%N) csrf) (Hs : Forall (λ c, (c < 65536)%N) sid).
Notation p := (payload username csrf sid iat exp).

Lemma sign_text raw : sextet_text (sign hmac env raw) ∧ sign hmac env raw ≠ [].
Proof.
  destruct (Hh (utf8_encode (secret env)) (utf8_encode raw)) as [H1 H2]. unfold sign.
  split; [by apply base64url_text |]. by intros E%base64url_nil.
Qed.
Lemma sextet_no_dot s : sextet_text s → 46%N ∉ s.
Proof. intros H E. unfold sextet_text in H. rewrite Forall_forall in H. destruct (H _ E) as (_ & Hd & _). done. Qed.
Lemma split_issued body : sextet_text body → body ≠ [] →
  split_token (body ++ js "." ++ sign hmac env body) = Some (body, sign hmac env body).
Proof.
  intros Hb Hne. destruct (sign_text body) as [Hs1 Hs2]. unfold split_token. change (js "." ++ ?x) with (46%N :: x).
  rewrite split_app_no_sep by (by apply sextet_no_dot). rewrite split_no_sep_id by (by apply sextet_no_dot).
  destruct body; [done |]. destruct (sign hmac env _) eqn:E; [done |]. done.
Qed.
(** A token of the program is accepted as long as its session is live. *)
Lemma decode_encode t a : decode hmac env t a (Some (encode hmac env p)) = if payload_live username csrf sid exp t a then Some p else None.
Proof.
  destruct (body_text username csrf sid iat exp Hu Hc Hs) as [Hb1 Hb2]. unfold decode, encode. cbn [mbind option_bind].
  rewrite split_issued by done. cbn [mbind option_bind]. unfold signature_ok. rewrite bool_decide_true by done.
  rewrite body_read by done. cbn [mbind option_bind]. by rewrite live_payload.
Qed.
Lemma encode_text : Forall token_char (encode hmac env p).
Proof.
  destruct (body_text username csrf sid iat exp Hu Hc Hs) as [Hb _]. destruct (sign_text (body_of p)) as [Hg _].
  assert (∀ s, sextet_text s → Forall token_char s) as G by (intros s H; eapply Forall_impl; [exact H | naive_solver]).
  apply Forall_app; split; [by apply G |]. apply Forall_app; split; [by repeat constructor | by apply G].
Qed.
End issued.

(** *** Its cookie *)

Definition cookie_pair (token : jsstr) : jsstr := SESSION_COOKIE ++ js "=" ++ token.
Lemma cookie_header_pair r token m : Forall token_char token → cookieHeader r token m = Some (cookie_pair token ++ cookie_attributes r m).
Proof.
  intros H. unfold cookieHeader. rewrite encode_unreserved by (eapply Forall_impl; [exact H | unfold token_char; naive_solver]).
  unfold cookie_pair. cbn [mbind option_bind]. by rewrite <- !app_assoc.
Qed.
Lemma parse_cookie_pair token : Forall token_char token → parseCookies (Some (cookie_pair token)) = Some {[SESSION_COOKIE := token]}.
Proof.
  intros H. assert (Forall (λ c, c ≠ 59%N ∧ is_space c = false) (cookie_pair token)) as Hp.
  { unfold cookie_pair. apply Forall_app; split; [by repeat constructor |]. apply Forall_app; split; [by repeat constructor |].
    eapply Forall_impl; [exact H | unfold token_char; naive_solver]. }
  change (parseCookies (Some (cookie_pair token))) with (set_cookies ∅ (split_on 59 (cookie_pair token))).
  rewrite split_no_sep_id. 2: { intros E. rewrite Forall_forall in Hp. by destruct (Hp _ E). }
  cbn [set_cookies]. unfold set_cookie, parse_cookie.
  rewrite trim_no_space by (eapply Forall_impl; [exact Hp | naive_solver]).
  unfold cookie_pair. change (js "=" ++ token) with (61%N :: token).
  rewrite split_app_no_sep by (by apply (bool_decide_unpack _); vm_compute).
  rewrite split_no_sep_id. 2: { intros E. rewrite Forall_forall in H. destruct (H _ E) as (_ & _ & _ & E' & _). done. }
  cbn [join]. rewrite decode_unescaped by (eapply Forall_impl; [exact H | unfold token_char; naive_solver]).
  reflexivity.
Qed.

Lemma read_pair hmac env t r a token : Forall token_char token → header "cookie" r = Some (cookie_pair token) →
  readSession hmac env t r a = (Some (decode hmac env t (cleanup t a) (Some token)), cleanup t a).
Proof.
  intros Ht Hr. unfold readSession. rewrite Hr, parse_cookie_pair by done. cbn [mbind option_bind]. by rewrite lookup_singleton_eq.
Qed.

(** What the random bytes and the name of a login are. *)
Definition login_input (user : jsstr) (csrf sid : list N) : Prop :=
  user ≠ [] ∧ Forall (λ c, (c < 65536)%N) user ∧ csrf ≠ [] ∧ Forall (λ b, (b < 256)%N) csrf ∧ sid ≠ [] ∧ Forall (λ b, (b < 256)%N) sid.

Lemma issued_read hmac env t t' r a user csrf sid : gives_bytes hmac → login_input user csrf sid → 0 <= t →
  header "cookie" r = Some (cookie_pair (issue hmac env t csrf sid user).2) →
  (readSession hmac env t' r a).1 = Some
    (if (t' <? t + SESSION_TTL_MS) && negb (is_revoked (JStr (base64url sid)) (cleanup t' a))
     then Some (issue hmac env t csrf sid user).1 else None).
Proof.
  intros Hh (Hu & Hu' & Hc & Hc' & Hs & Hs') Ht Hr. unfold issue in *. cbn [fst snd] in *.
  pose proof (sextet_units _ (base64url_text csrf Hc')) as Tc. pose proof (sextet_units _ (base64url_text sid Hs')) as Ts.
  rewrite (read_pair hmac env t' r a _ (encode_text hmac Hh env user _ _ t (t + SESSION_TTL_MS) Hu' Tc Ts) Hr). cbn [fst]. rewrite decode_encode by done. f_equal.
  unfold payload_live. rewrite (bool_decide_false (user = [])) by done.
  rewrite bool_decide_false by (by intros E%base64url_nil). rewrite bool_decide_false by (by intros E%base64url_nil).
  rewrite (proj2 (Z.eqb_neq (t + SESSION_TTL_MS) 0)) by (unfold SESSION_TTL_MS; lia). done.
Qed.

(** A login that succeeds sets a cookie; a request that sends it back is
    that session, with the name and the token the login answered, until thirty
    days have passed or the session was revoked, and no longer. *)
Theorem login_opens_session hmac env t r user csrf sid a : gives_bytes hmac → login_input user csrf sid → 0 <= t →
  ∃ p pair,
    (login_end hmac env t r user csrf sid true a).1 = Some (p, Some (pair ++ cookie_attributes r 28800)) ∧
    property (js "username") p = JStr user ∧ property (js "csrf") p = JStr (base64url csrf) ∧
    ∀ t' r' a', header "cookie" r' = Some pair →
      (readSession hmac env t' r' a').1 = Some
        (if (t' <? t + SESSION_TTL_MS) && negb (is_revoked (JStr (base64url sid)) (cleanup t' a')) then Some p else None).
Proof.
  intros Hh Hi Ht. exists (issue hmac env t csrf sid user).1, (cookie_pair (issue hmac env t csrf sid user).2).
  split; [| split; [done | split; [done |]]].
  - unfold login_end, issue. cbn [fst snd]. f_equal. f_equal. destruct Hi as (Hu & Hu' & Hc & Hc' & Hs & Hs').
    apply cookie_header_pair, encode_text; [done | done | |]; by apply sextet_units, base64url_text.
  - intros t' r' a' Hr. by apply issued_read.
Qed.

(** ** Revocation *)

Lemma js_le_mono v t t' : t <= t' → js_le v t = true → js_le v t' = true.
Proof.
  intros Ht. assert (∀ q, Qle_bool q (inject_Z t) = true → Qle_bool q (inject_Z t') = true) as Gq.
  { intros q Hq. apply Qle_bool_iff in Hq. apply Qle_bool_iff. eapply Qle_trans; [exact Hq |]. by rewrite <- Zle_Qle. }
  assert (∀ s, literal_le s t = true → literal_le s t' = true) as Gl.
  { intros s. unfold literal_le. destruct (parseFloat s); [apply Gq | done]. }
  induction v as [| b | n | s | s | l Hl | l _] using json_nested_ind; cbn [js_le]; rewrite ?Z.leb_le; try done; try lia; [by apply Gl | |].
  - unfold text_le. destruct (radix_literal _); [rewrite !Z.leb_le; lia |]. destruct (bool_decide _); [rewrite !Z.leb_le; lia |].
    destruct (bool_decide _); [done |]. rewrite !andb_true_iff. intros [? ?]. split; [done | by apply Gl].
  - destruct l as [| x [| y l]]; [rewrite !Z.leb_le; lia | | by destruct x].
    inversion Hl; subst. by destruct x.
Qed.
Lemma same_key_text v s : same_key v (JStr s) = true ↔ v = JStr s.
Proof. destruct v; cbn [same_key number_value]; try (split; [done | intros; congruence]).
  - destruct (parseFloat literal); split; congruence.
  - rewrite bool_decide_eq_true. split; congruence.
Qed.

(** The token of a request's cookie, and what its text says, live or not. *)
Definition cookie_token (r : request) : option jsstr := cookies ← parseCookies (header "cookie" r); cookies !! SESSION_COOKIE.
Definition claims hmac env (token : option jsstr) : option json :=
  '(body, sig) ← token ≫= split_token;
  if signature_ok hmac env body sig then parse (utf8_decode (from_base64 body)) else None.
Lemma decode_claims hmac env t a token : decode hmac env t a token = (p ← claims hmac env token; if live t a p then Some p else None).
Proof.
  unfold decode, claims. destruct (token ≫= split_token) as [[body sig] |]; [| done]. cbn [mbind option_bind].
  by destruct (signature_ok hmac env body sig).
Qed.

(** A session with a number for its end is over or revoked. *)
Definition closed (s : jsstr) (exp t : Z) (a : auth) : Prop := exp <= t ∨ (JStr s, JNum exp) ∈ revoked a.
(** Another session that logs out under the same identifier ends at the same time. *)
Definition keeps_end hmac env (s : jsstr) (exp : Z) (e : event) : Prop :=
  match e with
  | Logout r => ∀ q, claims hmac env (cookie_token r) = Some q → property (js "sid") q = JStr s → property (js "exp") q = JNum exp
  | _ => True
  end.

Lemma cleanup_closed s exp t t' a : t <= t' → closed s exp t a → closed s exp t' (cleanup t' a).
Proof.
  intros Ht [H | H]; [left; lia |]. destruct (Z.le_gt_cases exp t'); [by left |]. right.
  unfold cleanup. cbn [revoked]. apply list_elem_of_filter. split; [| done]. cbn [snd js_le]. apply Z.leb_gt. lia.
Qed.
Lemma invalidate_closed s exp t q a : (property (js "sid") q = JStr s → property (js "exp") q = JNum exp) →
  closed s exp t a → closed s exp t (invalidate (Some q) a).
Proof.
  intros Hq [H | H]; [by left | right]. unfold invalidate. cbn [revoked]. apply elem_of_app.
  destruct (same_key (JStr s) (property (js "sid") q)) eqn:E.
  - right. apply list_elem_of_singleton. destruct (property (js "sid") q) as [| | | | s' | |] eqn:Ep; try done.
    cbn [same_key] in E. apply bool_decide_eq_true in E as ->. by rewrite Hq.
  - left. apply list_elem_of_filter. done.
Qed.
Lemma read_claims hmac env t r a session : (readSession hmac env t r a).1 = Some (Some session) →
  claims hmac env (cookie_token r) = Some session ∧ live t (cleanup t a) session = true.
Proof.
  unfold readSession, cookie_token. cbn [fst]. destruct (parseCookies _) as [c |]; [| done]. cbn [mbind option_bind].
  intros [= H]. rewrite decode_claims in H. destruct (claims _ _ _) as [q |]; [| done]. cbn [mbind option_bind] in H.
  destruct (live _ _ _) eqn:E; [| done]. by injection H as <-.
Qed.
Lemma readSession_state hmac env t r a : (readSession hmac env t r a).2 = cleanup t a.
Proof. done. Qed.
Lemma lockStatus_state t r user a : (lockStatus t r user a).2 = cleanup t a.
Proof. done. Qed.
Lemma step_closed hmac pam env s exp t t' e a : t <= t' → keeps_end hmac env s exp e →
  closed s exp t a → closed s exp t' (step hmac pam env t' e a).
Proof.
  intros Ht Hk Hc. pose proof (cleanup_closed s exp t t' a Ht Hc) as G.
  assert (closed s exp t' a) as Ga by (destruct Hc as [? | ?]; [left; lia | by right]).
  destruct e as [r | r | r user | r user csrf sid ok | r]; cbn [step].
  - unfold authenticate. by repeat case_match.
  - unfold session_route. destruct (negb (enabled env)); [done |].
    destruct (readSession hmac env t' r a) as [read a'] eqn:E. pose proof (readSession_state hmac env t' r a) as Es.
    rewrite E in Es. cbn [snd] in Es. subst a'. destruct read as [[q |] |]; [exact G | | exact G].
    unfold lockStatus. cbn [snd]. apply (cleanup_closed s exp t'); [lia | exact G].
  - unfold login_start. destruct (negb (enabled env)); done.
  - unfold login_end. destruct ok; [done | exact G].
  - unfold logout. destruct (enabled env); [| done].
    destruct (readSession hmac env t' r a) as [read a'] eqn:E. pose proof (readSession_state hmac env t' r a) as Es.
    rewrite E in Es. cbn [snd] in Es. subst a'. destruct read as [[q |] |]; [| done | done].
    cbn [snd]. apply invalidate_closed; [| done]. apply Hk. apply (read_claims hmac env t' r a q). by rewrite E.
Qed.
Lemma run_closed hmac pam env s exp es : ∀ t a, clock_from t es → Forall (λ e, keeps_end hmac env s exp e.2) es →
  closed s exp t a → closed s exp (clock_end t es) (run hmac pam env es a).
Proof.
  induction es as [| e es IH]; intros t a Hc Hk H; [done |]. destruct Hc as [Ht Hc]. inversion Hk; subst.
  apply (IH e.1); [done | done |]. by apply (step_closed _ _ _ _ _ t).
Qed.
Lemma closed_not_live s exp t t' a p : property (js "sid") p = JStr s → property (js "exp") p = JNum exp → t <= t' →
  closed s exp t a → live t' (cleanup t' a) p = false.
Proof.
  intros Hs He Ht Hc. unfold live. rewrite Hs, He. apply (cleanup_closed s exp t t') in Hc as [H | H]; [| | done].
  - cbn [js_le]. rewrite (proj2 (Z.leb_le exp t')) by done. cbn [negb]. by rewrite !andb_false_r.
  - assert (is_revoked (JStr s) (cleanup t' a) = true) as ->.
    { unfold is_revoked. apply existsb_exists. exists (JStr s, JNum exp). split; [by apply list_elem_of_In |].
      by apply same_key_text. }
    by rewrite andb_false_r.
Qed.

(** C5. After a logout the session is over for good: whatever requests follow,
    as long as the clock does not go back, the same cookie is no session again,
    although the record of the logout is thrown away when the token expires. *)
Theorem logout_is_final hmac pam env t r a p s exp es t' r' : enabled env = true →
  (readSession hmac env t r a).1 = Some (Some p) → property (js "sid") p = JStr s → property (js "exp") p = JNum exp →
  clock_from t es → Forall (λ e, keeps_end hmac env s exp e.2) es → clock_end t es <= t' →
  cookie_token r' = cookie_token r →
  (readSession hmac env t' r' (run hmac pam env es (logout hmac env t r a).2)).1 ≠ Some (Some p).
Proof.
  intros He Hr Hs Hx Hc Hk Ht Hr' H. apply read_claims in H as [_ H].
  rewrite (closed_not_live s exp (clock_end t es)) in H; [done | done | done | done |].
  apply run_closed; [done | done |]. right. unfold logout. rewrite He.
  destruct (readSession hmac env t r a) as [read a']. cbn [fst] in Hr. subst read. cbn [snd invalidate revoked].
  apply elem_of_app. right. rewrite Hs, Hx. by left.
Qed.

(** ** The rate of password checks *)

Lemma cleanup_lookup t a k : lockout (cleanup t a) !! k = (s ← lockout a !! k; if keep_lock t s then Some s else None).
Proof.
  unfold cleanup. cbn [lockout]. rewrite map_lookup_filter. destruct (lockout a !! k) as [s |]; [| done].
  cbn [mbind option_bind snd]. destruct (keep_lock t s); [by rewrite option_guard_True | by rewrite option_guard_False].
Qed.

(** Logins with one key, each started after the end of the one before, with a
    password that is right or not, among other requests. *)
Inductive item := Attempt (t1 t2 : Z) (r : request) (user : jsstr) (ok : bool) | Other (t : Z) (e : event).
Definition ends_key (k : jsstr) (e : event) : Prop :=
  match e with LoginEnd r user _ _ _ => lockKey r user = k | _ => False end.
Definition fits (k : jsstr) (i : item) : Prop :=
  match i with Attempt _ _ r user _ => lockKey r user = k | Other _ e => ¬ ends_key k e end.
Definition during (t0 t1 : Z) (i : item) : Prop :=
  match i with Attempt t t' _ _ _ => t0 <= t < t1 ∧ t0 <= t' < t1 | Other t _ => t0 <= t < t1 end.

(** How many passwords are checked that are wrong, and how many that are right. *)
Fixpoint tried (hmac : list N → list N → list N) (pam : jsstr → jsstr → bool) (env : environment) (its : list item) (a : auth) : nat * nat :=
  match its with
  | [] => (0, 0)
  | Other t e :: its => tried hmac pam env its (step hmac pam env t e a)
  | Attempt t1 t2 r user ok :: its =>
      let '(l, a) := login_start env t1 r user a in
      match l with
      | Verifying =>
          let '(wrongs, rights) := tried hmac pam env its (login_end hmac env t2 r user [] [] ok a).2 in
          if ok then (wrongs, S rights) else (S wrongs, rights)
      | _ => tried hmac pam env its a
      end
  end%nat.

(** How many checks a key has left before the time [e]. *)
Definition left_before (e : Z) (o : option lock_state) : nat :=
  match o with
  | None => 5
  | Some s =>
      match until s with
      | Some u => if e <=? u then 0 else 5
      | None => if 0 <? count s then Z.to_nat (Z.max 1 (5 - count s)) else 5
      end
  end.
Lemma left_cleanup e t a k : t < e → left_before e (lockout (cleanup t a) !! k) = left_before e (lockout a !! k).
Proof.
  intros Ht. rewrite cleanup_lookup. destruct (lockout a !! k) as [s |]; [| done]. cbn [mbind option_bind].
  unfold keep_lock. cbn [left_before]. destruct (until s) as [u |] eqn:E.
  - destruct (Z.ltb_spec t u); cbn [left_before]; rewrite ?E; [done |]. destruct (Z.leb_spec e u); [lia | done].
  - destruct (Z.ltb_spec 0 (count s)) as [H | H]; cbn [left_before]; rewrite ?E; [| done]. by rewrite (proj2 (Z.ltb_lt _ _) H).
Qed.
Lemma left_step hmac pam env e t ev a k : t < e → ¬ ends_key k ev →
  left_before e (lockout (step hmac pam env t ev a) !! k) = left_before e (lockout a !! k).
Proof.
  intros Ht Hk. pose proof (left_cleanup e t a k Ht) as G. pose proof (left_cleanup e t (cleanup t a) k Ht) as G2.
  destruct ev as [r | r | r user | r user csrf sid ok | r]; cbn [step].
  - unfold authenticate, by_session, readSession. repeat case_match; simplify_eq; done.
  - unfold session_route, readSession, lockStatus. repeat case_match; simplify_eq; try done; cbn [snd]; by rewrite G2.
  - unfold login_start, lockStatus. destruct (negb (enabled env)); done.
  - unfold login_end. cbn [ends_key] in Hk. destruct ok.
    + unfold issue. cbn [snd markSuccess lockout]. by rewrite lookup_delete_ne.
    + cbn [snd]. unfold markFailure. cbn [lockout]. by rewrite lookup_insert_ne.
  - unfold logout, readSession, invalidate. by repeat case_match; simplify_eq.
Qed.
Lemma left_failure e t r user a : t < e <= t + LOCK_WINDOW_MS → 0 <= t →
  (∀ s, lockout (cleanup t a) !! lockKey r user = Some s → until s = None) →
  (S (left_before e (lockout (markFailure t r user a) !! lockKey r user)) <= left_before e (lockout a !! lockKey r user))%nat.
Proof.
  intros Ht H0 Hu. rewrite <- (left_cleanup e t a) by lia. unfold markFailure. cbn [lockout]. rewrite lookup_insert_eq.
  set (o := lockout (cleanup t a) !! lockKey r user) in *.
  assert (∀ n, 1 <= n → left_before e (Some (mkLock n (if LOCK_THRESHOLD <=? n then Some (t + LOCK_WINDOW_MS) else None))) =
    Z.to_nat (Z.max 0 (5 - n))) as G.
  { intros n Hn. unfold LOCK_THRESHOLD, LOCK_WINDOW_MS in *. destruct (Z.leb_spec 5 n); unfold left_before, until; cbn [lockedUntil count].
    - rewrite (proj2 (Z.eqb_neq _ 0)) by lia. rewrite (proj2 (Z.leb_le e _)) by lia. lia.
    - rewrite (proj2 (Z.ltb_lt 0 n)) by lia. lia. }
  destruct o as [s |] eqn:E; cbv iota; [| rewrite G by lia; cbn; lia].
  assert (0 < count s) as Hc.
  { subst o. rewrite cleanup_lookup in E. destruct (lockout a !! _) as [s' |]; [| done]. cbn [mbind option_bind] in E.
    destruct (keep_lock t s') eqn:Ek; [| done]. injection E as ->. unfold keep_lock in Ek. rewrite (Hu s) in Ek by done. by apply Z.ltb_lt. }
  rewrite G by lia. cbn [left_before]. rewrite (Hu s), (proj2 (Z.ltb_lt _ _) Hc) by done. lia.
Qed.
(** A login whose password is checked found no lock, and it is checked after the state was cleaned. *)
Lemma verifying_unlocked env t r user a a' : login_start env t r user a = (Verifying, a') →
  a' = cleanup t a ∧ ∀ s, lockout a' !! lockKey r user = Some s → until s = None.
Proof.
  unfold login_start, lockStatus. destruct (negb (enabled env)); [done |].
  destruct (lockout (cleanup t a) !! _) as [s |] eqn:E; [| intros [= <-]; split; [done | congruence]].
  destruct (until s) as [u |] eqn:Eu; [| intros [= <-]; split; [done | congruence]].
  rewrite cleanup_lookup in E. destruct (lockout a !! _) as [s' |]; [| done]. cbn [mbind option_bind] in E.
  destruct (keep_lock t s') eqn:Ek; [| done]. injection E as ->. unfold keep_lock in Ek. rewrite Eu in Ek. apply Z.ltb_lt in Ek.
  rewrite (proj2 (Z.leb_gt (u - t) 0)) by lia. done.
Qed.
Lemma refused_state env t r user a l a' : login_start env t r user a = (l, a') → a' = a ∨ a' = cleanup t a.
Proof. unfold login_start, lockStatus. destruct (negb (enabled env)); intros [= _ <-]; auto. Qed.
Lemma left_found_open t e a k : (∀ s, lockout (cleanup t a) !! k = Some s → until s = None) → t < e →
  (1 <= left_before e (lockout a !! k))%nat.
Proof.
  intros Hu Ht. rewrite <- (left_cleanup e t a k Ht). destruct (lockout (cleanup t a) !! k) as [s |]; cbn [left_before]; [| lia].
  rewrite (Hu s) by done. destruct (Z.ltb_spec 0 (count s)); lia.
Qed.
Lemma left_success e r user a : left_before e (lockout (markSuccess r user a) !! lockKey r user) = 5%nat.
Proof. unfold markSuccess. cbn [lockout]. by rewrite lookup_delete_eq. Qed.
Lemma tried_left hmac pam env k t0 e its : 0 <= t0 → e <= t0 + LOCK_WINDOW_MS → ∀ a,
  Forall (fits k) its → Forall (during t0 e) its →
  ((tried hmac pam env its a).1 <= left_before e (lockout a !! k) + 4 * (tried hmac pam env its a).2)%nat.
Proof.
  intros H0 He. induction its as [| i its IH]; intros a Hf Hd; [cbn; lia |]. inversion Hf as [| ?? Hk Hf']; inversion Hd as [| ?? Ht Hd']; subst.
  destruct i as [t1 t2 r user ok | t ev]; cbn [tried fits during] in *.
  - destruct (login_start env t1 r user a) as [l a'] eqn:E. destruct l as [u s | |].
    + specialize (IH a' Hf' Hd'). destruct (refused_state _ _ _ _ _ _ _ E) as [-> | ->]; [done |]. by rewrite left_cleanup in IH by lia.
    + apply verifying_unlocked in E as [-> E]. rewrite Hk in E. specialize (IH (login_end hmac env t2 r user [] [] ok (cleanup t1 a)).2 Hf' Hd').
      destruct (tried hmac pam env its _) as [wrongs rights]. cbn [fst snd] in IH. destruct ok; cbn [login_end fst snd] in *.
      * unfold login_end, issue in IH. cbn [snd] in IH. rewrite <- Hk, left_success in IH.
        pose proof (left_found_open t1 e a k E ltac:(lia)) as G. lia.
      * pose proof (left_failure e t2 r user (cleanup t1 a) ltac:(lia) ltac:(lia)) as G. rewrite Hk, left_cleanup in G by lia.
        assert (∀ s, lockout (cleanup t2 (cleanup t1 a)) !! k = Some s → until s = None) as G'; [| specialize (G G'); lia].
        intros s Hs. rewrite cleanup_lookup in Hs. destruct (lockout (cleanup t1 a) !! _) as [s' |] eqn:E'; [| done].
        cbn [mbind option_bind] in Hs. destruct (keep_lock t2 s'); [| done]. injection Hs as <-. by apply E.
    + specialize (IH a' Hf' Hd'). destruct (refused_state _ _ _ _ _ _ _ E) as [-> | ->]; [done |]. by rewrite left_cleanup in IH by lia.
  - specialize (IH (step hmac pam env t ev a) Hf' Hd'). by rewrite left_step in IH by (done || lia).
Qed.

(** C6. Logins of one client and user that do not overlap have at most five
    wrong passwords checked in any five minutes, and four more for each right
    one that is checked in them, whatever state they find and whatever other
    requests come in between: without a right one at most five.  Passwords in
    an Authorization header are not counted, see [basic_not_locked]. *)
Theorem five_tries_in_five_minutes hmac pam env k t0 its a : 0 <= t0 →
  Forall (fits k) its → Forall (during t0 (t0 + LOCK_WINDOW_MS)) its →
  ((tried hmac pam env its a).1 <= 5 + 4 * (tried hmac pam env its a).2)%nat.
Proof.
  intros H0 Hf Hd. etransitivity; [by apply (tried_left hmac pam env k t0 (t0 + LOCK_WINDOW_MS)); [| lia | |] |].
  apply Nat.add_le_mono_r. unfold left_before. repeat case_match; lia.
Qed.

(** The lock is one of the login route: a name and a password in a header are
    checked whatever it says, and change it neither when they are right nor,
    past the clean-up of the session that is looked for next, when they are wrong. *)
Theorem basic_not_locked hmac pam env t r a u pass : bearer_ok env r = false → enabled env = true →
  routePublic r = false → isTrustedLoopbackRequest r = false →
  parseBasicAuthorization (header "authorization" r) = Some (u, pass) →
  if verify pam env u pass then authenticate hmac pam env t r a = (as_user (Some u), a)
  else lockout (authenticate hmac pam env t r a).2 = lockout (cleanup t a).
Proof.
  intros Hb He Hp Hl Ha. unfold authenticate, verifyBasicAuthUser. rewrite Hb, He, Hp, Hl, Ha. cbn [negb mbind option_bind].
  destruct (verify pam env u pass); [done |]. unfold by_session. destruct (readSession hmac env t r a) as [read a'] eqn:E.
  cbn [snd]. unfold readSession in E. by injection E as _ <-.
Qed.

(** Logins that start before the first of them is answered. *)
Fixpoint start_all (env : environment) (rs : list (Z * request * jsstr)) (a : auth) : list login * auth :=
  match rs with
  | [] => ([], a)
  | (t, r, user) :: rs => let '(l, a) := login_start env t r user a in let '(ls, a) := start_all env rs a in (l :: ls, a)
  end.
Lemma start_unlocked env t r user a : enabled env = true → lockout a = ∅ → ∃ a',
  login_start env t r user a = (Verifying, a') ∧ lockout a' = ∅.
Proof.
  intros He Ha. unfold login_start, lockStatus. rewrite He. cbn [negb]. exists (cleanup t a).
  assert (lockout (cleanup t a) = ∅) as E by (unfold cleanup; cbn [lockout]; by rewrite Ha, map_filter_empty).
  by rewrite E, lookup_empty.
Qed.

(** The bound is not one on requests that overlap: any number of logins that
    start before the first password check ends are all let through to theirs. *)
Theorem overlapping_logins_checked env rs a : enabled env = true → lockout a = ∅ →
  Forall (λ l, l = Verifying) (start_all env rs a).1 ∧ length (start_all env rs a).1 = length rs.
Proof.
  intros He. revert a. induction rs as [| [[t r] user] rs IH]; intros a Ha; [done |]. cbn [start_all].
  destruct (start_unlocked env t r user a He Ha) as (a' & -> & Ha'). specialize (IH a' Ha').
  destruct (start_all env rs a') as [ls a'']. cbn [fst length] in *. destruct IH as [H1 H2]. by rewrite Forall_cons, H2.
Qed.

(** *** Keys that the client chooses *)

(** The key starts with a header of the request: attempts that each name
    another client are all checked, however many and however close. *)
Theorem other_clients_checked hmac pam env rs user t a : enabled env = true → 0 <= t →
  NoDup (map (λ r, lockKey r user) rs) → Forall (λ r, lockout a !! lockKey r user = None) rs →
  tried hmac pam env (map (λ r, Attempt t t r user false) rs) a = (length rs, 0%nat).
Proof.
  intros He Ht. revert a. induction rs as [| r rs IH]; intros a Hd Hf; [done |].
  cbn [map] in Hd. apply NoDup_cons in Hd as [Hn Hd]. inversion Hf as [| ?? Hr Hf']; subst. cbn [map tried length].
  unfold login_start, lockStatus. rewrite He. cbn [negb]. rewrite cleanup_lookup, Hr. cbn [mbind option_bind].
  rewrite IH; [done | done |]. apply Forall_forall. intros r' Hr'. rewrite Forall_forall in Hf'. specialize (Hf' r' Hr').
  cbn [login_end snd]. unfold markFailure. cbn [lockout]. rewrite lookup_insert_ne.
  - rewrite !cleanup_lookup. by rewrite Hf'.
  - intros E. apply Hn. rewrite E. apply list_elem_of_fmap. by exists r'.
Qed.

(** ** Who is let through *)

(** Why a request goes on as [who]. *)
Definition reason hmac (pam : jsstr → jsstr → bool) (env : environment) (t : Z) (r : request) (a : auth) (who : option json) : Prop :=
  (∃ u, bearer_ok env r = true ∧ sanitizeUsername (header "x-opencode-user" r) = Some u ∧ who = Some (JStr u)) ∨
  enabled env = false ∨ routePublic r = true ∨ isTrustedLoopbackRequest r = true ∨
  (∃ u pass, parseBasicAuthorization (header "authorization" r) = Some (u, pass) ∧ pam u pass = true ∧ who = Some (JStr u)) ∨
  (∃ p, claims hmac env (cookie_token r) = Some p ∧ live t (cleanup t a) p = true ∧ who = Some (property (js "username") p) ∧
    (shouldProtectMutation r = true → ∃ csrf, header "x-opencode-csrf" r = Some csrf ∧ property (js "csrf") p = JStr csrf)).

(** C4. A request goes on only with the token of the command line and a name,
    when the check is off, when it is public or from this host, with a name and
    a password the system accepts, or with a signed, live token in its cookie;
    then, when it can change something, it carries the session's own token too. *)
Theorem let_through_for_a_reason hmac pam env t r a who a' :
  authenticate hmac pam env t r a = (Proceed who, a') → reason hmac pam env t r a who.
Proof.
  unfold authenticate, reason. destruct (bearer_ok env r).
  { destruct (sanitizeUsername _) as [u |]; intros [= <- _]; left; eauto. }
  destruct (enabled env) eqn:Ee; cbn [negb]; [| auto]. destruct (routePublic r); [auto |].
  destruct (isTrustedLoopbackRequest r); [auto 6 |].
  unfold verifyBasicAuthUser. destruct (parseBasicAuthorization _) as [[u pass] |]; cbn [mbind option_bind].
  1: unfold verify; destruct (linux env), (pam u pass) eqn:Ep; try (intros [= <- _]; do 4 right; left; by exists u, pass).
  all: intros H; do 5 right; revert H; unfold by_session; destruct (readSession hmac env t r a) as [read s] eqn:Er;
    destruct read as [[p |] |]; try done; destruct (shouldProtectMutation r && negb (csrf_ok r p)) eqn:Ec; try done;
    intros [= <- _]; exists p; assert (claims hmac env (cookie_token r) = Some p ∧ live t (cleanup t a) p = true) as [H1 H2]
      by (apply read_claims; by rewrite Er); split_and!; try done; intros Hm; rewrite Hm in Ec; cbn [andb] in Ec;
    apply negb_false_iff in Ec; unfold csrf_ok, given in Ec; repeat case_match; try done;
    apply bool_decide_eq_true in Ec as ->; simplify_eq; eauto.
Qed.

(** *** The default secret *)

(** The token that whoever knows the name shown to everyone can make. *)
Definition forge (hmac : list N → list N → list N) (hint : jsstr) (p : json) : jsstr :=
  body_of p ++ js "." ++ base64url (hmac (utf8_encode (default_secret hint [])) (utf8_encode (body_of p))).
Definition remote_request (env : environment) (r : request) : Prop :=
  bearer_ok env r = false ∧ routePublic r = false ∧ isTrustedLoopbackRequest r = false ∧
  parseBasicAuthorization (header "authorization" r) = None.
Lemma forge_encode hmac env p : auth_secret env = None → server_password env = None → forge hmac (usernameHint env) p = encode hmac env p.
Proof. intros H1 H2. unfold forge, encode, sign, secret. by rewrite H1, H2. Qed.
Lemma anonymous_hint hmac env t r a : enabled env = true → header "cookie" r = None → ∃ lock,
  (session_route hmac env t r a).1 = Some (Anonymous (usernameHint env) lock).
Proof.
  intros He Hr. unfold session_route, readSession. rewrite He, Hr. cbn [negb mbind option_bind parseCookies given].
  rewrite lookup_empty. cbn [decode mbind option_bind]. destruct (lockStatus t r _ _) as [lock s]. by exists lock.
Qed.
Lemma session_accepted hmac pam env t r a user csrf sid iat exp : gives_bytes hmac → enabled env = true → remote_request env r →
  Forall (λ c, (c < 65536)%N) user → Forall (λ c, (c < 65536)%N) csrf → Forall (λ c, (c < 65536)%N) sid →
  payload_live user csrf sid exp t (cleanup t a) = true →
  header "cookie" r = Some (cookie_pair (encode hmac env (payload user csrf sid iat exp))) →
  header "x-opencode-csrf" r = Some csrf →
  (authenticate hmac pam env t r a).1 = Proceed (Some (JStr user)).
Proof.
  intros Hh He (Hb & Hp & Hl & Ha) Hu Hc Hs Hv Hr Hx. unfold authenticate, verifyBasicAuthUser. rewrite Hb, He, Hp, Hl, Ha.
  cbn [negb mbind option_bind]. unfold by_session.
  rewrite (read_pair hmac env t r a _ (encode_text hmac Hh env user csrf sid iat exp Hu Hc Hs) Hr).
  rewrite decode_encode, Hv by done. cbv iota.
  destruct (payload_property user csrf sid iat exp) as (E1 & E2 & _). unfold csrf_ok. rewrite E1, E2, Hx.
  assert (csrf ≠ []) as Hne.
  { intros ->. unfold payload_live in Hv. rewrite (bool_decide_true ([] = [])) in Hv by done. by rewrite andb_false_r in Hv. }
  destruct csrf; [done |]. cbn [given]. rewrite bool_decide_true by done. by rewrite andb_false_r.
Qed.

(** Without a secret or a password in the environment the key of the tokens
    is made of a name that the session route tells anybody: with it a request
    from anywhere, for any path, runs as any user. *)
Theorem hint_forges_sessions hmac pam env t r0 a : gives_bytes hmac → enabled env = true →
  auth_secret env = None → server_password env = None → header "cookie" r0 = None →
  ∃ hint lock, (session_route hmac env t r0 a).1 = Some (Anonymous hint lock) ∧
  ∀ user csrf sid iat exp t' r a', remote_request env r →
    Forall (λ c, (c < 65536)%N) user → Forall (λ c, (c < 65536)%N) csrf → Forall (λ c, (c < 65536)%N) sid →
    payload_live user csrf sid exp t' (cleanup t' a') = true →
    header "cookie" r = Some (cookie_pair (forge hmac hint (payload user csrf sid iat exp))) →
    header "x-opencode-csrf" r = Some csrf →
    (authenticate hmac pam env t' r a').1 = Proceed (Some (JStr user)).
Proof.
  intros Hh He Hs Hp Hr. destruct (anonymous_hint hmac env t r0 a He Hr) as [lock H]. exists (usernameHint env), lock. split; [done |].
  intros user csrf sid iat exp t' r a' Hm Hu Hc Hi Hv Hk Hx. rewrite forge_encode in Hk by done.
  by apply (session_accepted hmac pam env t' r a' user csrf sid iat exp).
Qed.

(** *** Reads of paths that are not listed *)

(** Where [createApp] puts its routes, without the prefix of the second mount. *)
Definition mounts : list jsstr :=
  map js ["/global"; "/server"; "/doc"; "/project"; "/workspace"; "/pty"; "/config"; "/experimental"; "/session"; "/permission";
    "/question"; "/provider"; "/mcp"; "/tui"; "/account"; "/accounts"; "/rotation"; "/model"; "/admin/kill-switch"; "/cron";
    "/google-binding"; "/web-route"; "/working-cache"; "/skill"; "/completion"; "/gdrive"; "/find"; "/file"; "/instance";
    "/path"; "/vcs"; "/command"; "/log"; "/agent"; "/lsp"; "/formatter"; "/event"].
Definition unlisted : list jsstr := filter (λ m, isApiPath m = false) mounts.
Definition below (m path : jsstr) : Prop := ∃ rest, path = m ++ rest ∧ (rest = [] ∨ ∃ s, rest = js "/" ++ s).

Definition apart (m : jsstr) : bool :=
  forallb (λ prefix, negb (startsWith (prefix ++ js "/") (m ++ js "/")) && negb (startsWith (m ++ js "/") (prefix ++ js "/"))) API_PREFIXES.
Lemma apart_unlisted m path : apart m = true → below m path → isApiPath path = false.
Proof.
  intros Ha (rest & -> & Hr). apply not_true_iff_false. intros H. apply existsb_exists in H as (prefix & Hp & H).
  unfold apart in Ha. rewrite forallb_forall in Ha. specialize (Ha prefix Hp). simpl in Ha.
  rewrite andb_true_iff, !negb_true_iff in Ha. destruct Ha as [H1 H2]. unfold startsWith in *.
  apply bool_decide_eq_false in H1, H2.
  assert (prefix ++ js "/" `prefix_of` (m ++ rest) ++ js "/") as G.
  { rewrite orb_true_iff, !bool_decide_eq_true in H. destruct H as [-> | H]; [done | by apply prefix_app_r]. }
  assert (m ++ js "/" `prefix_of` (m ++ rest) ++ js "/") as G'.
  { destruct Hr as [-> | [s ->]]; [by rewrite app_nil_r |]. rewrite <- !app_assoc. apply prefix_app. by exists (s ++ js "/"). }
  destruct (prefix_weak_total _ _ _ G G'); done.
Qed.

(** The second mount of the routes, without a prefix, is not covered: a read
    at or below these paths goes on for anybody, with no name, and the same path
    under [/api/v2] does not. *)
Theorem unlisted_reads_public hmac pam env t r a m : enabled env = true → bearer_ok env r = false →
  m ∈ unlisted → method_is "GET" r || method_is "HEAD" r = true → below m (r_path r) →
  authenticate hmac pam env t r a = (Proceed None, a) ∧ isApiPath (js "/api/v2" ++ r_path r) = true ∧
  unlisted = map js ["/server"; "/workspace"; "/model"; "/admin/kill-switch"; "/cron"; "/web-route"; "/working-cache";
    "/completion"; "/gdrive"; "/find"; "/file"].
Proof.
  intros He Hb Hm Hr Hp.
  assert (isApiPath (r_path r) = false) as Ho.
  { apply (apart_unlisted m); [| done]. assert (forallb apart unlisted = true) as G by by vm_compute.
    rewrite forallb_forall in G. apply G. by apply list_elem_of_In. }
  split; [| split; [| by vm_compute]].
  - unfold authenticate. rewrite Hb, He. cbn [negb]. assert (routePublic r = true) as ->; [| done].
    unfold routePublic. rewrite Ho, Hr. repeat case_match; done.
  - assert (∃ s, r_path r = js "/" ++ s) as [s ->].
    { destruct Hp as (rest & -> & _). assert (forallb (λ m, startsWith m (js "/")) unlisted = true) as G by by vm_compute.
      rewrite forallb_forall in G. specialize (G m). rewrite <- list_elem_of_In in G. apply G in Hm.
      unfold startsWith in Hm. apply bool_decide_eq_true in Hm as [s ->]. exists (s ++ rest). by rewrite <- app_assoc. }
    unfold isApiPath. apply existsb_exists. exists (js "/api/v2"). split; [by left |].
    apply orb_true_iff. right. unfold startsWith. apply bool_decide_eq_true. exists s. by rewrite <- app_assoc.
Qed.

(** ** Examples *)

Definition toy_hmac (k m : list N) : list N := [N.modulo (foldl N.add 7%N (k ++ m)) 256].
Lemma toy_bytes : gives_bytes toy_hmac.
Proof. intros k m. unfold toy_hmac. split; [| done]. repeat constructor. by apply N.mod_lt. Qed.
Definition no_pam (user pass : jsstr) : bool := false.
Definition demo_env : environment := mkEnv true None None None (Some (js "ann")) None None None None None None None [].
Definition demo_request (m path : string) (hs : list (jsstr * jsstr)) : request :=
  mkRequest (js m) (js path) (list_to_map hs) (Some (js "https:", js "example.org")).
Definition demo_token : json * jsstr := issue toy_hmac demo_env 1000 [1%N] [2%N] (js "bob").
Definition demo_logout : request := demo_request "POST" "/global/auth/logout" [(js "cookie", cookie_pair demo_token.2)].
Lemma demo_input : login_input (js "bob") [1%N] [2%N].
Proof. by repeat split; try done; repeat constructor. Qed.

Lemma login_opens_session_witness : ∃ p pair,
  (login_end toy_hmac demo_env 1000 demo_logout (js "bob") [1%N] [2%N] true initial).1 = Some (p, Some (pair ++ cookie_attributes demo_logout 28800)) ∧
  property (js "username") p = JStr (js "bob") ∧ property (js "csrf") p = JStr (base64url [1%N]) ∧
  ∀ t' r' a', header "cookie" r' = Some pair →
    (readSession toy_hmac demo_env t' r' a').1 = Some
      (if (t' <? 1000 + SESSION_TTL_MS) && negb (is_revoked (JStr (base64url [2%N])) (cleanup t' a')) then Some p else None).
Proof. apply login_opens_session; [apply toy_bytes | apply demo_input | lia]. Defined.

Lemma logout_is_final_witness :
  (readSession toy_hmac demo_env 4000 demo_logout
    (run toy_hmac no_pam demo_env [(2000, Logout demo_logout); (3000, Check demo_logout)] (logout toy_hmac demo_env 1500 demo_logout initial).2)).1
  ≠ Some (Some demo_token.1).
Proof.
  apply (logout_is_final toy_hmac no_pam demo_env 1500 demo_logout initial demo_token.1 (base64url [2%N]) (1000 + SESSION_TTL_MS));
    [done | by vm_compute | by vm_compute | by vm_compute | cbn [clock_from fst]; lia | | cbn [clock_end foldl fst]; lia | done].
  apply Forall_cons. split; [| by apply Forall_cons; split; [| apply Forall_nil]]. cbn [keeps_end snd].
  assert (claims toy_hmac demo_env (cookie_token demo_logout) = Some demo_token.1) as -> by by vm_compute.
  intros q [= <-] _. by vm_compute.
Defined.

Definition demo_attempt (ok : bool) (t : Z) : item := Attempt t (t + 10) demo_logout (js "bob") ok.
Definition demo_times : list Z := [0; 100; 200; 300; 400; 500; 600; 700; 800; 900; 1000].
Definition demo_tries (oks : list bool) : list item := zip_with demo_attempt oks demo_times.
Lemma five_tries_in_five_minutes_witness :
  let its := demo_tries (replicate 7 false) in
  (tried toy_hmac no_pam demo_env its initial).2 = 0%nat ∧
  ((tried toy_hmac no_pam demo_env its initial).1 <= 5 + 4 * (tried toy_hmac no_pam demo_env its initial).2)%nat.
Proof.
  split; [by vm_compute |].
  apply (five_tries_in_five_minutes toy_hmac no_pam demo_env (lockKey demo_logout (js "bob")) 0); [lia | |];
    repeat (apply Forall_cons; split; [| try by apply Forall_nil]); try (by vm_compute); unfold LOCK_WINDOW_MS; cbn [during]; lia.
Defined.
Example five_of_seven : tried toy_hmac no_pam demo_env (demo_tries (replicate 7 false)) initial = (5, 0)%nat.
Proof. by vm_compute. Qed.
(** The right password lets the count begin again: the last bound is reached. *)
Example nine_around_a_right_one :
  tried toy_hmac no_pam demo_env (demo_tries (replicate 4 false ++ [true] ++ replicate 6 false)) initial = (9, 1)%nat.
Proof. by vm_compute. Qed.
(** A client and user that are locked out log in with the password in a header. *)
Definition demo_basic : request := demo_request "GET" "/session" [(js "authorization", js "Basic Ym9iOnB3")].
Example locked_out_gets_in :
  let a := foldl (λ a t, markFailure t demo_basic (js "bob") a) initial (take 5 demo_times) in
  (login_start demo_env 1000 demo_basic (js "bob") a).1 = Refused 300400 300 ∧
  (authenticate toy_hmac (λ u p, bool_decide (u = js "bob" ∧ p = js "pw")) demo_env 1000 demo_basic a).1 = Proceed (Some (JStr (js "bob"))).
Proof. by vm_compute. Qed.

Lemma overlapping_logins_checked_witness :
  let rs := replicate 100 (5, demo_logout, js "bob") in
  Forall (λ l, l = Verifying) (start_all demo_env rs initial).1 ∧ length (start_all demo_env rs initial).1 = length rs.
Proof. by apply overlapping_logins_checked. Defined.

Definition from_client (name : string) : request := demo_request "POST" "/global/auth/login" [(js "x-forwarded-for", js name)].
Lemma other_clients_checked_witness :
  tried toy_hmac no_pam demo_env (map (λ r, Attempt 5 5 r (js "bob") false) (map from_client ["a"; "b"; "c"; "d"; "e"; "f"; "g"])) initial = (7%nat, 0%nat).
Proof.
  apply (other_clients_checked toy_hmac no_pam demo_env (map from_client ["a"; "b"; "c"; "d"; "e"; "f"; "g"]) (js "bob") 5 initial);
    [done | lia | by apply (bool_decide_unpack _); vm_compute | by repeat constructor].
Defined.

Definition demo_change : request :=
  demo_request "POST" "/session" [(js "cookie", cookie_pair demo_token.2); (js "x-opencode-csrf", base64url [1%N])].
Lemma let_through_for_a_reason_witness : reason toy_hmac no_pam demo_env 2000 demo_change initial (Some (JStr (js "bob"))).
Proof. apply (let_through_for_a_reason toy_hmac no_pam demo_env 2000 demo_change initial _ initial). by vm_compute. Defined.
Example change_without_csrf :
  (authenticate toy_hmac no_pam demo_env 2000 (demo_request "POST" "/session" [(js "cookie", cookie_pair demo_token.2)]) initial).1 =
  Answer 403 (js "CSRF_INVALID").
Proof. by vm_compute. Qed.

Definition forged_request (hint : jsstr) : request :=
  mkRequest (js "POST") (js "/file/delete")
    (<[js "cookie" := cookie_pair (forge toy_hmac hint (payload (js "eve") (js "x") (js "y") 0 999999))]> {[js "x-opencode-csrf" := js "x"]})
    (Some (js "https:", js "example.org")).
Lemma hint_forges_sessions_witness : ∃ hint lock,
  (session_route toy_hmac demo_env 0 (demo_request "GET" "/global/auth/session" []) initial).1 = Some (Anonymous hint lock) ∧
  (authenticate toy_hmac no_pam demo_env 1 (forged_request hint) initial).1 = Proceed (Some (JStr (js "eve"))).
Proof.
  destruct (hint_forges_sessions toy_hmac no_pam demo_env 0 (demo_request "GET" "/global/auth/session" []) initial)
    as (hint & lock & H1 & H2); [apply toy_bytes | done | done | done | by vm_compute |].
  exists hint, lock. split; [done |].
  apply (H2 (js "eve") (js "x") (js "y") 0 999999); [| by repeat constructor | by repeat constructor | by repeat constructor | by vm_compute | |].
  - by split_and!; vm_compute.
  - unfold header, forged_request. cbn [headers]. by rewrite lookup_insert_eq.
  - unfold header, forged_request. cbn [headers]. by rewrite lookup_insert_ne, lookup_singleton_eq by (by vm_compute).
Defined.

Definition read_file : request := demo_request "GET" "/file/content" [].
Lemma unlisted_reads_public_witness :
  authenticate toy_hmac no_pam demo_env 0 read_file initial = (Proceed None, initial) ∧ isApiPath (js "/api/v2" ++ r_path read_file) = true ∧
  unlisted = map js ["/server"; "/workspace"; "/model"; "/admin/kill-switch"; "/cron"; "/web-route"; "/working-cache";
    "/completion"; "/gdrive"; "/find"; "/file"].
Proof.
  apply (unlisted_reads_public toy_hmac no_pam demo_env 0 read_file initial (js "/file"));
    [done | done | by apply (bool_decide_unpack _); vm_compute | done |].
  exists (js "/content"). split; [done |]. right. by exists (js "content").
Defined.
Example same_read_under_api :
  (authenticate toy_hmac no_pam demo_env 0 (demo_request "GET" "/api/v2/file/content" []) initial).1 = Answer 401 (js "AUTH_REQUIRED").
Proof. by vm_compute. Qed.
(** The name of the host is the client's to choose. *)
Example loopback_by_name :
  (authenticate toy_hmac no_pam demo_env 0 (mkRequest (js "POST") (js "/session") ∅ (Some (js "http:", js "localhost"))) initial).1 = Proceed None.
Proof. by vm_compute. Qed.
(** A cookie of anyone's that is no escape makes every check of it throw. *)
Example cookie_throws : (readSession toy_hmac demo_env 0 (demo_request "GET" "/session" [(js "cookie", js "theme=100%")]) initial).1 = None.
Proof. by vm_compute. Qed.
Example basic_credentials : parseBasicAuthorization (Some (js "Basic dXNlcjpwYTpz")) = Some (js "user", js "pa:s").
Proof. by vm_compute. Qed.
