(* ===== verification/Identifier.v ===== *)
(** * Identifiers ([id/id.ts])

    Identifiers are a prefix, forty-eight bits of time and counter, and random
    characters.  The generator keeps the last time and a counter, which are the
    state; the clock and the random bytes are arguments. *)
From stdpp Require Import list.
From S2P Require Import Prelude JsString Json.
Open Scope Z_scope.

(** ** The generator *)

Inductive kind := session | message | permission | question | user | part | pty | tool.
Definition prefixes (k : kind) : jsstr :=
  js (match k with
      | session => "ses" | message => "msg" | permission => "per" | question => "que"
      | user => "usr" | part => "prt" | pty => "pty" | tool => "tool"
      end).
Definition LENGTH : Z := 26.

Record generator := mkGenerator { lastTimestamp : Z; counter : Z }.
Definition fresh : generator := mkGenerator 0 0.

Definition base62 : jsstr := js "0123456789ABCDEFGHIJKLMNOPQRSTUVWXYZabcdefghijklmnopqrstuvwxyz".
(** One character for each random byte. *)
Definition randomBase62 (bytes : list N) : jsstr := map (λ b, nth (N.to_nat (b mod 62)) base62 48%N) bytes.

Definition byte_hex (b : Z) : jsstr := [hex_char (Z.to_N (b / 16)); hex_char (Z.to_N (b mod 16))].
Definition time_byte (now : Z) (i : Z) : Z := Z.land (Z.shiftr now (40 - 8 * i)) 255.
Definition time_hex (now : Z) : jsstr := flat_map (λ i, byte_hex (time_byte now i)) [0; 1; 2; 3; 4; 5].

(** The state after the counter was moved. *)
Definition tick (currentTimestamp : Z) (g : generator) : generator :=
  let g := if negb (currentTimestamp =? lastTimestamp g) then mkGenerator currentTimestamp 0 else g in
  mkGenerator (lastTimestamp g) (counter g + 1).
Definition stamp (currentTimestamp : Z) (g : generator) : Z := currentTimestamp * 4096 + counter g.
Definition create (prefix : kind) (descending : bool) (currentTimestamp : Z) (bytes : list N) (g : generator) : jsstr * generator :=
  let g := tick currentTimestamp g in
  let now := if descending then Z.lnot (stamp currentTimestamp g) else stamp currentTimestamp g in
  (prefixes prefix ++ js "_" ++ time_hex now ++ randomBase62 bytes, g).

(** A given identifier is only checked; an empty one counts as none. *)
Definition generateID (prefix : kind) (descending : bool) (given : option jsstr) (now : Z) (bytes : list N) (g : generator) :
    option jsstr * generator :=
  match given with
  | Some ((_ :: _) as id) => (if startsWith id (prefixes prefix) then Some id else None, g)
  | _ => let '(id, g) := create prefix descending now bytes g in (Some id, g)
  end.
Definition ascending (prefix : kind) := generateID prefix false.
Definition descending (prefix : kind) := generateID prefix true.

Fixpoint hex_number (acc : Z) (s : jsstr) : option Z :=
  match s with
  | [] => Some acc
  | c :: s => match hex_value c with Some d => hex_number (acc * 16 + d) s | None => None end
  end.
(** The time of an identifier; [None] when what should be the time is no number, which throws. *)
Definition timestamp (id : jsstr) : option Z :=
  let prefix := hd [] (split_on 95 id) in
  match trimEnd (take 12 (drop (length prefix + 1) id)) with
  | [] => None
  | hex => encoded ← hex_number 0 hex; Some (encoded / 4096)
  end.

(** ** Order of texts *)

Fixpoint text_lt (s t : jsstr) : bool :=
  match s, t with
  | _, [] => false
  | [], _ :: _ => true
  | c :: s, d :: t => if (c <? d)%N then true else if (d <? c)%N then false else text_lt s t
  end.

Lemma text_lt_app p s t : text_lt (p ++ s) (p ++ t) = text_lt s t.
Proof. induction p as [| c p IH]; [done |]. cbn [app text_lt]. by rewrite N.ltb_irrefl. Qed.
Lemma text_lt_head c d s t : (c < d)%N → text_lt (c :: s) (d :: t) = true.
Proof. intros H. cbn [text_lt]. by rewrite (proj2 (N.ltb_lt _ _) H). Qed.
Lemma text_lt_antisym s t : text_lt s t = true → text_lt t s = false.
Proof.
  revert t. induction s as [| c s IH]; intros [| d t]; cbn [text_lt]; try done.
  destruct (N.ltb_spec c d); [destruct (N.ltb_spec d c); [lia | done] |]. destruct (N.ltb_spec d c); [done | apply IH].
Qed.

Lemma hex_char_mono a b : (a < b < 16)%N → (hex_char a < hex_char b)%N.
Proof. intros H. unfold hex_char. repeat case_match; bool_to_prop; rewrite ?N.ltb_lt, ?N.ltb_ge in *; lia. Qed.
Lemma byte_lt a b s t : 0 <= a < b → b < 256 → text_lt (byte_hex a ++ s) (byte_hex b ++ t) = true.
Proof.
  intros Ha Hb. unfold byte_hex. cbn [app]. destruct (Z.lt_trichotomy (a / 16) (b / 16)) as [H | [H | H]].
  - apply text_lt_head, hex_char_mono. Z.to_euclidean_division_equations. lia.
  - rewrite H. cbn [text_lt]. rewrite N.ltb_irrefl.
    rewrite (proj2 (N.ltb_lt _ _)); [done |]. apply hex_char_mono. Z.to_euclidean_division_equations. lia.
  - Z.to_euclidean_division_equations. lia.
Qed.
Lemma byte_number acc b s : 0 <= b < 256 → hex_number acc (byte_hex b ++ s) = hex_number (acc * 256 + b) s.
Proof.
  intros Hb. unfold byte_hex. cbn [app hex_number]. rewrite !hex_value_char by (Z.to_euclidean_division_equations; lia).
  f_equal. Z.to_euclidean_division_equations. lia.
Qed.

(** *** Forty-eight bits *)

(** The last [n] bytes of a number, the highest first. *)
Fixpoint low_bytes (n : nat) (v : Z) : list Z :=
  match n with O => [] | S m => (v / 256 ^ Z.of_nat m) mod 256 :: low_bytes m v end.

Lemma time_hex_bytes now : time_hex now = flat_map byte_hex (low_bytes 6 now).
Proof.
  assert (∀ k, 0 <= k → Z.land (Z.shiftr now k) 255 = (now / 2 ^ k) mod 256) as G.
  { intros k Hk. change 255 with (Z.ones 8). by rewrite Z.land_ones, Z.shiftr_div_pow2 by lia. }
  unfold time_hex, time_byte. cbn [flat_map]. by rewrite !G by lia.
Qed.
(** A number that leaves a byte more has the byte and the rest. *)
Lemma mod_bytes m v : v mod 256 ^ Z.of_nat (S m) = (v / 256 ^ Z.of_nat m) mod 256 * 256 ^ Z.of_nat m + v mod 256 ^ Z.of_nat m.
Proof.
  rewrite Nat2Z.inj_succ, Z.pow_succ_r, (Z.mul_comm 256), Z.rem_mul_r by lia. lia.
Qed.
Lemma low_bytes_lt n v w s t : v mod 256 ^ Z.of_nat n < w mod 256 ^ Z.of_nat n →
  text_lt (flat_map byte_hex (low_bytes n v) ++ s) (flat_map byte_hex (low_bytes n w) ++ t) = true.
Proof.
  induction n as [| m IH]; intros H; [rewrite !Z.mod_1_r in H; lia |].
  cbn [low_bytes flat_map]. rewrite <- !app_assoc. rewrite !mod_bytes in H.
  pose proof (Z.mod_pos_bound (v / 256 ^ Z.of_nat m) 256 ltac:(lia)). pose proof (Z.mod_pos_bound (w / 256 ^ Z.of_nat m) 256 ltac:(lia)).
  pose proof (Z.mod_pos_bound v (256 ^ Z.of_nat m) ltac:(lia)). pose proof (Z.mod_pos_bound w (256 ^ Z.of_nat m) ltac:(lia)).
  destruct (Z.lt_trichotomy ((v / 256 ^ Z.of_nat m) mod 256) ((w / 256 ^ Z.of_nat m) mod 256)) as [E | [E | E]].
  - by apply byte_lt; lia.
  - rewrite E, text_lt_app. apply IH. rewrite E in H. lia.
  - nia.
Qed.
Lemma low_bytes_number n acc v : hex_number acc (flat_map byte_hex (low_bytes n v)) = Some (acc * 256 ^ Z.of_nat n + v mod 256 ^ Z.of_nat n).
Proof.
  revert acc. induction n as [| m IH]; intros acc; [cbn; rewrite Z.mod_1_r; f_equal; lia |].
  cbn [low_bytes flat_map]. pose proof (Z.mod_pos_bound (v / 256 ^ Z.of_nat m) 256 ltac:(lia)).
  rewrite byte_number, IH by lia. rewrite mod_bytes. rewrite Nat2Z.inj_succ, Z.pow_succ_r by lia. f_equal. ring.
Qed.
Lemma time_hex_lt a b s t : a mod 2 ^ 48 < b mod 2 ^ 48 → text_lt (time_hex a ++ s) (time_hex b ++ t) = true.
Proof. intros H. rewrite !time_hex_bytes. by apply low_bytes_lt. Qed.
Lemma time_hex_number now : hex_number 0 (time_hex now) = Some (now mod 2 ^ 48).
Proof. by rewrite time_hex_bytes, low_bytes_number. Qed.
Lemma time_hex_length now : length (time_hex now) = 12%nat.
Proof. done. Qed.

(** *** The time of an identifier *)

Lemma prefix_no_mark k : 95%N ∉ prefixes k.
Proof. destruct k; by_compute. Qed.
Lemma time_hex_ne now : time_hex now ≠ [].
Proof. done. Qed.
Lemma trimEnd_hex now : trimEnd (time_hex now) = time_hex now.
Proof.
  assert (∀ d, (d < 16)%N → is_space (hex_char d) = false) as G.
  { intros d Hd. assert (In d (map N.of_nat (seq 0 16))) as Hi by (apply in_map_iff; exists (N.to_nat d); split; [lia | apply in_seq; lia]).
    assert (forallb (λ d, negb (is_space (hex_char d))) (map N.of_nat (seq 0 16)) = true) as E by by vm_compute.
    rewrite forallb_forall in E. by apply negb_true_iff, E. }
  assert (∀ i, 0 <= time_byte now i < 256) as Hb.
  { intros i. unfold time_byte. change 255 with (Z.ones 8). rewrite Z.land_ones by lia. by apply Z.mod_pos_bound. }
  unfold time_hex. cbn [flat_map byte_hex app].
  apply (trimEnd_nonspace _ [_; _; _; _; _; _; _; _; _; _; _]), G. specialize (Hb 5). Z.to_euclidean_division_equations. lia.
Qed.

Lemma timestamp_create k now rest : timestamp (prefixes k ++ js "_" ++ time_hex now ++ rest) = Some (now mod 2 ^ 48 / 4096).
Proof.
  unfold timestamp. change (js "_" ++ ?x) with (95%N :: x). rewrite split_app_no_sep by apply prefix_no_mark. cbn [hd].
  assert (take 12 (drop (length (prefixes k) + 1) (prefixes k ++ 95%N :: time_hex now ++ rest)) = time_hex now) as ->.
  { rewrite drop_app_add. change (drop 1 (95%N :: ?x)) with x. by rewrite (take_app_length' _ _ 12). }
  rewrite trimEnd_hex. pose proof (time_hex_number now) as G. destruct (time_hex now) eqn:E; [by apply time_hex_ne in E |].
  by rewrite G.
Qed.

(** ** Identifiers made one after another *)

Record request := mkRequest { r_kind : kind; r_descending : bool; r_time : Z; r_bytes : list N }.
Fixpoint creates (rs : list request) (g : generator) : list jsstr :=
  match rs with
  | [] => []
  | r :: rs => let '(id, g) := create (r_kind r) (r_descending r) (r_time r) (r_bytes r) g in id :: creates rs g
  end.
(** The counter each of them has. *)
Fixpoint counters (rs : list request) (g : generator) : list Z :=
  match rs with [] => [] | r :: rs => let g := tick (r_time r) g in counter g :: counters rs g end.
Fixpoint stamps (rs : list request) (g : generator) : list Z :=
  match rs with [] => [] | r :: rs => let g := tick (r_time r) g in stamp (r_time r) g :: stamps rs g end.

Definition id_of (r : request) (v : Z) : jsstr :=
  prefixes (r_kind r) ++ js "_" ++ time_hex (if r_descending r then Z.lnot v else v) ++ randomBase62 (r_bytes r).
Lemma create_id r g : create (r_kind r) (r_descending r) (r_time r) (r_bytes r) g = (id_of r (stamp (r_time r) (tick (r_time r) g)), tick (r_time r) g).
Proof. reflexivity. Qed.
Lemma creates_zip rs : ∀ g, creates rs g = zip_with id_of rs (stamps rs g).
Proof.
  induction rs as [| r rs IH]; intros g; [done |]. cbn [creates stamps zip_with]. rewrite create_id. f_equal. apply IH.
Qed.
Lemma creates_lookup rs g i id : creates rs g !! i = Some id → ∃ r v, rs !! i = Some r ∧ stamps rs g !! i = Some v ∧ id = id_of r v.
Proof. rewrite creates_zip. intros (r & v & -> & H1 & H2)%lookup_zip_with_Some. by exists r, v. Qed.

(** The clock does not go back. *)
Fixpoint clock_from (t : Z) (rs : list request) : Prop :=
  match rs with [] => True | r :: rs => t <= r_time r ∧ clock_from (r_time r) rs end.
Lemma stamps_above rs : ∀ g, clock_from (lastTimestamp g) rs → 0 <= counter g < 4096 → Forall (λ c, c < 4096) (counters rs g) →
  Forall (λ v, lastTimestamp g * 4096 + counter g < v) (stamps rs g) ∧ StronglySorted Z.lt (stamps rs g).
Proof.
  induction rs as [| r rs IH]; intros g Hc H0 Hn; [split; constructor |]. destruct Hc as [Ht Hc]. cbn [counters stamps] in *.
  inversion Hn as [| ?? Hn1 Hn2]; subst. set (g' := tick (r_time r) g) in *.
  assert (lastTimestamp g' = r_time r ∧ 0 <= counter g' < 4096 ∧ lastTimestamp g * 4096 + counter g < stamp (r_time r) g') as (E & Hp & Hl).
  { subst g'. unfold tick, stamp in *. destruct (Z.eqb_spec (r_time r) (lastTimestamp g)) as [e | e]; cbn [negb lastTimestamp counter] in *; [lia |].
    lia. }
  destruct (IH g') as [H1 H2]; [by rewrite E | done | done |]. unfold stamp in *. rewrite E in H1. split.
  - constructor; [done |]. eapply Forall_impl; [exact H1 |]. intros v Hv. cbv beta in *. lia.
  - constructor; done.
Qed.
Lemma lnot_mod v : Z.lnot v mod 2 ^ 48 = 2 ^ 48 - 1 - v mod 2 ^ 48.
Proof. unfold Z.lnot. Z.to_euclidean_division_equations. lia. Qed.
Lemma id_of_lt r r' v v' : r_kind r = r_kind r' → r_descending r = r_descending r' → v mod 2 ^ 48 < v' mod 2 ^ 48 →
  (if r_descending r then text_lt (id_of r' v') (id_of r v) else text_lt (id_of r v) (id_of r' v')) = true.
Proof.
  intros Hk Hd H. unfold id_of. rewrite <- Hk, <- Hd. destruct (r_descending r); rewrite !text_lt_app; apply time_hex_lt; [| done].
  rewrite !lnot_mod. lia.
Qed.

(** The times of one stretch of 2^36 milliseconds, about 795 days. *)
Definition epoch (t : Z) : Z := t / 2 ^ 36.
Lemma stamp_epoch t c : 0 <= c < 4096 → (t * 4096 + c) / 2 ^ 48 = epoch t.
Proof. intros H. unfold epoch. Z.to_euclidean_division_equations. lia. Qed.
Lemma stamps_lookup rs : ∀ g i r v, rs !! i = Some r → stamps rs g !! i = Some v → ∃ c, counters rs g !! i = Some c ∧ v = r_time r * 4096 + c.
Proof.
  induction rs as [| r rs IH]; intros g i r' v Hr Hv; [done |]. destruct i as [| i]; [| by apply (IH (tick (r_time r) g) i)].
  injection Hr as <-. injection Hv as <-. by exists (counter (tick (r_time r) g)).
Qed.
Lemma counters_pos rs : ∀ g, 0 <= counter g → Forall (λ c, 0 <= c) (counters rs g).
Proof.
  induction rs as [| r rs IH]; intros g H; [constructor |]. cbn [counters].
  assert (0 <= counter (tick (r_time r) g)) by (unfold tick; case_match; cbn [counter]; lia). constructor; [done | by apply IH].
Qed.

Lemma sorted_lookup {A : Type} (R : A → A → Prop) l : StronglySorted R l → ∀ i j x y, l !! i = Some x → l !! j = Some y → (i < j)%nat → R x y.
Proof.
  induction 1 as [| a l Hl IH Ha]; intros i j x y Hi Hj Hij; [done |]. destruct j as [| j]; [lia |]. destruct i as [| i].
  - injection Hi as <-. rewrite Forall_lookup in Ha. by apply (Ha j).
  - apply (IH i j); [done | done | lia].
Qed.

(** While the clock does not go back and no millisecond has 4096 of them, of
    two identifiers of a kind the one made later comes later as a text when they
    ascend and earlier when they descend, if both are of the same epoch. *)
Theorem ids_ordered rs g i j r r' id id' : clock_from (lastTimestamp g) rs → 0 <= counter g < 4096 →
  Forall (λ c, c < 4096) (counters rs g) → (i < j)%nat → rs !! i = Some r → rs !! j = Some r' →
  creates rs g !! i = Some id → creates rs g !! j = Some id' →
  r_kind r = r_kind r' → r_descending r = r_descending r' → epoch (r_time r) = epoch (r_time r') →
  (if r_descending r then text_lt id' id else text_lt id id') = true.
Proof.
  intros Hc Hg Hn Hij Hr Hr' Hid Hid' Hk Hd He.
  apply creates_lookup in Hid as (r1 & v & H1 & Hv & ->). apply creates_lookup in Hid' as (r2 & v' & H2 & Hv' & ->). simplify_eq.
  destruct (stamps_above rs g Hc Hg Hn) as [_ Hs].
  assert (v < v') as Hlt by (by apply (sorted_lookup _ _ Hs i j)).
  destruct (stamps_lookup rs g i r v Hr Hv) as (c & Hci & ->). destruct (stamps_lookup rs g j r' v' Hr' Hv') as (c' & Hcj & ->).
  assert (0 <= c < 4096 ∧ 0 <= c' < 4096) as [B B'].
  { pose proof (counters_pos rs g ltac:(lia)) as Hp. rewrite Forall_lookup in Hp, Hn. split; split; eauto. }
  apply id_of_lt; [done | done |].
  pose proof (stamp_epoch (r_time r) c B). pose proof (stamp_epoch (r_time r') c' B'). rewrite He in *.
  rewrite !Z.mod_eq by done. lia.
Qed.

(** The time of an ascending identifier is read back without the epoch it
    was made in. *)
Theorem timestamp_of_id k t bytes g : 0 <= counter (tick t g) < 4096 →
  timestamp (create k false t bytes g).1 = Some (t mod 2 ^ 36).
Proof.
  intros H. unfold create. cbn [fst]. rewrite timestamp_create. f_equal. unfold stamp.
  change (2 ^ 48) with (2 ^ 36 * 4096). Z.to_euclidean_division_equations. lia.
Qed.

(** *** What the bounds are there for *)

(** At the end of an epoch the order turns around: the first identifier of the
    27th one, on 2026-08-14, is less than all of the two years before. *)
Example order_turns : let t := 26 * 2 ^ 36 in
  text_lt (create message false t [] fresh).1 (create message false (t - 1) [] fresh).1 = true ∧ t = 1786706395136.
Proof. by vm_compute. Qed.
(** A counter that runs over reaches into the next millisecond. *)
Example counter_runs_over :
  text_lt (create message false 1001 [] (mkGenerator 1000 4097)).1 (create message false 1000 [] (mkGenerator 1000 4097)).1 = true.
Proof. by vm_compute. Qed.
(** A clock that goes back for one identifier resets the counter of the others. *)
Example counter_reset :
  let '(a, g) := create tool false 1000 [9%N] fresh in
  let '(_, g) := create tool false 10 [] g in
  let '(b, _) := create tool false 1000 [5%N] g in
  text_lt b a = true.
Proof. by vm_compute. Qed.
Example id_demo : create session false 1700000000000 [0; 61; 62; 10]%N fresh = (js "ses_bcfe568000010z0A", mkGenerator 1700000000000 1).
Proof. by vm_compute. Qed.
Example given_id : (ascending session (Some (js "msg_1")) 0 [] fresh).1 = None ∧ (ascending session (Some (js "ses_1")) 0 [] fresh).1 = Some (js "ses_1").
Proof. by vm_compute. Qed.

Definition demo_requests : list request := [mkRequest message false 1000 []; mkRequest part true 1000 []; mkRequest message false 1002 []].
Lemma ids_ordered_witness : text_lt (js "msg_0000003e8001") (js "msg_0000003ea001") = true.
Proof.
  apply (ids_ordered demo_requests fresh 0 2 (mkRequest message false 1000 []) (mkRequest message false 1002 []));
    [cbn; lia | cbn; lia | repeat constructor | lia | done | done | by vm_compute | by vm_compute | done | done | done].
Defined.
Lemma timestamp_of_id_witness : timestamp (create tool false 1700000000000 [1%N] fresh).1 = Some (1700000000000 mod 2 ^ 36).
Proof. apply timestamp_of_id. cbn. lia. Defined.
