(* ===== verification/Truncation.v ===== *)
(** * Truncated tool output ([tool/truncation.ts])

    Large results go to a file and leave a preview; a job removes the files a
    day later, by the time in their names ([Identifier]).  Files are a list in
    the order a scan finds them; writing and removing succeed.  The folder of
    the data, the folder of a session and the rules of an agent are arguments. *)
From stdpp Require Import list.
From S2P Require Import Prelude JsString Tweaks ToolBudget Permission Identifier.
Open Scope Z_scope.

Definition MAX_LINES : Z := 2000.
Definition PREVIEW_TOKENS : Z := 600.
Definition RETENTION_MS : Z := 24 * 60 * 60 * 1000.

(** ** Files *)

Record file := mkFile { f_dir : jsstr; f_name : jsstr; f_text : jsstr }.
Definition same_file (f f' : file) : bool := bool_decide (f_dir f = f_dir f' ∧ f_name f = f_name f').
Definition write_file (f : file) (fs : list file) : list file :=
  if existsb (same_file f) fs then map (λ f', if same_file f f' then f else f') fs else fs ++ [f].
Definition f_path (f : file) : jsstr := f_dir f ++ js "/" ++ f_name f.

(** [path.join(data, "storage", "session")], and the folders below it. *)
Definition DIR (data : jsstr) : jsstr := data ++ js "/storage/session".
(** A folder of the pattern [**/output] there. *)
Definition output_dir (data dir : jsstr) : bool := startsWith dir (DIR data ++ js "/") && endsWith dir (js "/output").
(** A file of the pattern [**/output/output_*] there. *)
Definition in_glob (data : jsstr) (f : file) : bool := output_dir data (f_dir f) && startsWith (f_name f) (js "output_").

(** ** Removal *)

Definition identifier_of (name : jsstr) : jsstr := if startsWith name (js "output_") then drop 7 name else name.
(** Whether all were looked at, and the files that stay: a name without a time throws. *)
Fixpoint sweep (data : jsstr) (cutoff : Z) (fs : list file) : bool * list file :=
  match fs with
  | [] => (true, [])
  | f :: fs' =>
      if in_glob data f then
        match timestamp (identifier_of (f_name f)) with
        | None => (false, f :: fs')
        | Some t => let '(ok, kept) := sweep data cutoff fs' in (ok, if t <? cutoff then kept else f :: kept)
        end
      else let '(ok, kept) := sweep data cutoff fs' in (ok, f :: kept)
  end.
Definition occupied (fs : list file) (dirs : list jsstr) (dir : jsstr) : bool :=
  existsb (λ f, bool_decide (f_dir f = dir)) fs || existsb (λ d, startsWith d (dir ++ js "/")) dirs.
(** The folders are listed before the first is removed. *)
Definition remove_empty (data : jsstr) (fs : list file) (dirs : list jsstr) : list jsstr :=
  foldl (λ left d, if occupied fs left d then left else filter (λ d', d' ≠ d) left) dirs (filter (λ d, output_dir data d = true) dirs).
(** Whether it did not throw, the files, the folders and the generator. *)
Definition cleanup (data : jsstr) (now : Z) (bytes : list N) (g : generator) (fs : list file) (dirs : list jsstr) :
    bool * list file * list jsstr * generator :=
  let '(id, g) := create tool false (now - RETENTION_MS) bytes g in
  match timestamp id with
  | None => (false, fs, dirs, g)
  | Some cutoff =>
      let '(ok, kept) := sweep data cutoff fs in
      (ok, kept, if ok then remove_empty data kept dirs else dirs, g)
  end.

(** ** Output *)

Definition hasTaskTool (agent : option (option Ruleset)) : bool :=
  match agent with
  | Some (Some rules) => negb (bool_decide (action (evaluate (js "task") (js "*") [rules]) = deny))
  | _ => false
  end.

Record Options := mkOptions { o_maxLines : option Z; o_maxTokens : option Z; o_previewTokens : option Z; o_tail : bool }.
Inductive Result := Inline (content : jsstr) | Externalized (content outputPath : jsstr).

(** The lines that are taken, their tokens, and whether the next was too many;
    [i] lines were taken before. *)
Fixpoint take_lines (maxLines previewTokens i toks : Z) (lines : list jsstr) : list jsstr * Z * bool :=
  match lines with
  | [] => ([], toks, false)
  | l :: ls =>
      if i <? maxLines then
        let size := estimateTokens l + (if 0 <? i then 1 else 0) in
        if previewTokens <? toks + size then ([], toks, true)
        else let '(out, toks, hit) := take_lines maxLines previewTokens (i + 1) (toks + size) ls in (l :: out, toks, hit)
      else ([], toks, false)
  end.
Definition preview_lines (tail : bool) (maxLines previewTokens : Z) (lines : list jsstr) : list jsstr * Z * bool :=
  if tail then let '(out, toks, hit) := take_lines maxLines previewTokens 0 0 (reverse lines) in (reverse out, toks, hit)
  else take_lines maxLines previewTokens 0 0 lines.

Definition hint (task : bool) (filepath : jsstr) : jsstr :=
  js "The tool call succeeded but the output was truncated. Full output saved to: " ++ filepath ++ [newline] ++
  (if task then js "Use the Task tool to have explore agent process this file with Grep and Read (with offset/limit). Do NOT read the full file yourself - delegate to save context."
   else js "Use Grep to search the full content or Read with offset/limit to view specific sections.").
Definition blank : jsstr := [newline; newline].
Definition notice (removed : Z) (hitCap : bool) : jsstr :=
  js "..." ++ show_Z removed ++ js " " ++ js (if hitCap then "tokens" else "lines") ++ js " truncated...".

Definition fits (cfg : ToolOutputBudgetConfig) (text : jsstr) (o : Options) : bool :=
  (Z.of_nat (length (split_on newline text)) <=? default MAX_LINES (o_maxLines o)) &&
  (estimateTokens text <=? default (res_tokens (resolve cfg None None)) (o_maxTokens o)).
Definition output_folder (data : jsstr) (sessionDir : option jsstr) : jsstr :=
  match sessionDir with Some d => d ++ js "/output" | None => data ++ js "/storage/output" end.
Definition add_dir (d : jsstr) (dirs : list jsstr) : list jsstr := if bool_decide (d ∈ dirs) then dirs else dirs ++ [d].
Definition message (tail : bool) (preview note hint : jsstr) : jsstr :=
  if tail then note ++ blank ++ hint ++ blank ++ preview else preview ++ blank ++ note ++ blank ++ hint.

Definition output (cfg : ToolOutputBudgetConfig) (data : jsstr) (text : jsstr) (o : Options) (agent : option (option Ruleset))
    (sessionDir : option jsstr) (now : Z) (bytes : list N) (g : generator) (fs : list file) (dirs : list jsstr) :
    Result * list file * list jsstr * generator :=
  if fits cfg text o then (Inline text, fs, dirs, g)
  else
    let lines := split_on newline text in
    let '(out, toks, hitCap) :=
      preview_lines (o_tail o) (default MAX_LINES (o_maxLines o)) (default PREVIEW_TOKENS (o_previewTokens o)) lines in
    let removed := if hitCap then estimateTokens text - toks else Z.of_nat (length lines) - Z.of_nat (length out) in
    let '(id, g) := create tool false now bytes g in
    let dir := output_folder data sessionDir in
    let f := mkFile dir (js "output_" ++ id) text in
    (Externalized (message (o_tail o) (join [newline] out) (notice removed hitCap) (hint (hasTaskTool agent) (f_path f))) (f_path f),
     write_file f fs, add_dir dir dirs, g).

(** ** The preview *)

Lemma estimate_nonneg s : 0 <= estimateTokens s.
Proof. pose proof (estimate_bounds s). Z.to_euclidean_division_equations. lia. Qed.
Lemma estimate_nil : estimateTokens [] = 0.
Proof. done. Qed.
Lemma estimate_newline s : estimateTokens (newline :: s) <= estimateTokens s + 1.
Proof. pose proof (estimate_app [newline] s) as [H _]. change (estimateTokens [newline]) with 1 in H. cbn [app] in H. lia. Qed.

Lemma take_lines_spec maxLines previewTokens lines : ∀ i toks, 0 <= i → toks <= previewTokens →
  let '(out, toks', hit) := take_lines maxLines previewTokens i toks lines in
  out `prefix_of` lines ∧ (0 < Z.of_nat (length out) → i + Z.of_nat (length out) <= maxLines) ∧ toks' <= previewTokens ∧
  estimateTokens (join [newline] out) + (if (0 <? i) && negb (bool_decide (out = [])) then 1 else 0) <= toks' - toks ∧
  (hit = false → out ≠ lines → maxLines <= i + Z.of_nat (length out)) ∧ (hit = true → out ≠ lines).
Proof.
  induction lines as [| l ls IH]; intros i toks Hi Ht; cbn [take_lines].
  { split_and!; try done; cbn; try lia. rewrite estimate_nil, andb_false_r. lia. }
  destruct (Z.ltb_spec i maxLines) as [Hm | Hm].
  2: { split_and!; try done; cbn; try lia; [apply prefix_nil |]. rewrite estimate_nil, andb_false_r. lia. }
  set (size := estimateTokens l + (if 0 <? i then 1 else 0)).
  destruct (Z.ltb_spec previewTokens (toks + size)) as [Hp | Hp].
  { split_and!; try done; cbn; try lia; [apply prefix_nil |]. rewrite estimate_nil, andb_false_r. lia. }
  specialize (IH (i + 1) (toks + size) ltac:(lia) Hp).
  destruct (take_lines maxLines previewTokens (i + 1) (toks + size) ls) as [[out toks'] hit].
  destruct IH as (H1 & H2 & H3 & H4 & H5 & H6). rewrite (bool_decide_false (l :: out = [])) by done.
  cbn [length negb]. rewrite andb_true_r. split_and!.
  - by apply prefix_cons.
  - intros _. destruct out; cbn [length] in *; [lia |]. specialize (H2 ltac:(lia)). lia.
  - done.
  - rewrite (proj2 (Z.ltb_lt 0 (i + 1))) in H4 by lia. cbn [andb] in H4. subst size.
    destruct out as [| l' out].
    { change (join [newline] []) with (@nil N) in H4. rewrite estimate_nil, bool_decide_true in H4 by done.
      change (join [newline] [l]) with l. cbn [negb] in H4. destruct (0 <? i); lia. }
    rewrite bool_decide_false in H4 by done. cbn [negb] in H4.
    change (join [newline] (l :: l' :: out)) with (l ++ newline :: join [newline] (l' :: out)).
    pose proof (estimate_app l (newline :: join [newline] (l' :: out))) as [G _].
    pose proof (estimate_newline (join [newline] (l' :: out))). destruct (0 <? i); lia.
  - intros E Hne. specialize (H5 E). assert (out ≠ ls) by congruence. specialize (H5 H). lia.
  - intros E [= Hne]. by apply H6.
Qed.

(** *** Lines in the other order have as many tokens *)

Lemma count_wide_perm s t : s ≡ₚ t → count_wide s = count_wide t.
Proof. induction 1; cbn [count_wide]; lia. Qed.
Lemma estimate_perm s t : s ≡ₚ t → estimateTokens s = estimateTokens t.
Proof. intros H. unfold estimateTokens. by rewrite (count_wide_perm s t H), H. Qed.
Lemma join_perm c l l' : l ≡ₚ l' → join [c] l ≡ₚ join [c] l'.
Proof.
  induction 1 as [| x l l' Hl IH | x y l | l l' l'' H1 IH1 H2 IH2].
  - done.
  - destruct l as [| a l]; destruct l' as [| a' l'];
      [done | by apply Permutation_nil_cons in Hl | symmetry in Hl; by apply Permutation_nil_cons in Hl |].
    change (join [c] (x :: ?z)) with (x ++ [c] ++ join [c] z). by rewrite IH.
  - destruct l as [| a l]; cbn [join]; [solve_Permutation |].
    change (y ++ [c] ++ x ++ [c] ++ join [c] (a :: l) ≡ₚ x ++ [c] ++ y ++ [c] ++ join [c] (a :: l)). solve_Permutation.
  - by rewrite IH1.
Qed.

Lemma preview_lines_spec tail maxLines previewTokens lines out toks hit : 0 <= previewTokens →
  preview_lines tail maxLines previewTokens lines = (out, toks, hit) →
  (if tail then out `suffix_of` lines else out `prefix_of` lines) ∧ Z.of_nat (length out) <= Z.max 0 maxLines ∧
  estimateTokens (join [newline] out) <= toks <= previewTokens.
Proof.
  intros Hp. unfold preview_lines. destruct tail.
  - pose proof (take_lines_spec maxLines previewTokens (reverse lines) 0 0 ltac:(lia) Hp) as G.
    destruct (take_lines _ _ _ _ _) as [[out' toks'] hit']. intros [= <- <- <-]. destruct G as (H1 & H2 & H3 & H4 & _).
    split_and!; [| rewrite length_reverse; lia | | done].
    + destruct H1 as [k Hk]. exists (reverse k). by rewrite <- reverse_app, <- Hk, reverse_involutive.
    + rewrite (estimate_perm _ (join [newline] out')) by (apply join_perm, reverse_Permutation). cbn [Z.ltb andb] in H4. cbn in H4. lia.
  - pose proof (take_lines_spec maxLines previewTokens lines 0 0 ltac:(lia) Hp) as G. intros E. rewrite E in G.
    destruct G as (H1 & H2 & H3 & H4 & _). split_and!; [done | lia | cbn in H4; lia | done].
Qed.
Lemma write_file_in f fs : f ∈ write_file f fs.
Proof.
  unfold write_file. destruct (existsb _ fs) eqn:E; [| apply elem_of_app; right; by left].
  apply existsb_exists in E as (f' & Hin & Hs). apply list_elem_of_fmap. exists f'. rewrite Hs. split; [done | by apply list_elem_of_In].
Qed.

(** What is too long goes whole into a file, and what stays is the first or
    the last lines, at most as many as allowed and of no more tokens than the
    preview may have, with the path of the file. *)
Theorem output_preview cfg data text o agent sd now bytes g fs dirs content path fs' dirs' g' :
  output cfg data text o agent sd now bytes g fs dirs = (Externalized content path, fs', dirs', g') →
  0 <= default PREVIEW_TOKENS (o_previewTokens o) →
  fits cfg text o = false ∧ (∃ f, f ∈ fs' ∧ f_path f = path ∧ f_text f = text) ∧
  ∃ out note, content = message (o_tail o) (join [newline] out) note (hint (hasTaskTool agent) path) ∧
    (if o_tail o then out `suffix_of` split_on newline text else out `prefix_of` split_on newline text) ∧
    Z.of_nat (length out) <= Z.max 0 (default MAX_LINES (o_maxLines o)) ∧
    estimateTokens (join [newline] out) <= default PREVIEW_TOKENS (o_previewTokens o).
Proof.
  unfold output. destruct (fits cfg text o) eqn:Ef; [done |].
  destruct (preview_lines _ _ _ _) as [[out toks] hit] eqn:Ep. destruct (create _ _ _ _ _) as [id g1]. intros [= <- <- <- _ _] Hp.
  apply preview_lines_spec in Ep as (H1 & H2 & H3 & H4); [| done]. split; [done |]. split.
  - eexists. split; [apply write_file_in | done].
  - do 2 eexists. split; [reflexivity |]. split_and!; [done | done | lia].
Qed.

(** ** Which files are removed *)

(** A file that the program made at a time. *)
Definition made (f : file) (t : Z) : Prop :=
  ∃ bytes g, f_name f = js "output_" ++ (create tool false t bytes g).1 ∧ 0 <= counter (tick t g) < 4096.

Lemma identifier_of_output id : identifier_of (js "output_" ++ id) = id.
Proof. unfold identifier_of. by rewrite startsWith_app. Qed.
Lemma made_time f t : made f t → timestamp (identifier_of (f_name f)) = Some (t mod 2 ^ 36).
Proof.
  intros (bytes & g & Hn & Hc). rewrite Hn, identifier_of_output. unfold create. cbn [fst]. rewrite timestamp_create. f_equal.
  unfold stamp. change (2 ^ 48) with (2 ^ 36 * 4096). Z.to_euclidean_division_equations. lia.
Qed.
Lemma epoch_order a b : epoch a = epoch b → (a mod 2 ^ 36 <? b mod 2 ^ 36) = (a <? b).
Proof.
  intros E. unfold epoch in E. rewrite !Z.mod_eq, E by done. destruct (Z.ltb_spec a b), (Z.ltb_spec (a - 2 ^ 36 * (b / 2 ^ 36)) (b - 2 ^ 36 * (b / 2 ^ 36))); lia.
Qed.
Definition stays (data : jsstr) (cutoff : Z) (p : file * Z) : bool := negb (in_glob data p.1 && (p.2 <? cutoff)).
Lemma sweep_made data cutoff (ps : list (file * Z)) : Forall (λ p, in_glob data p.1 = true → made p.1 p.2 ∧ epoch p.2 = epoch cutoff) ps →
  sweep data (cutoff mod 2 ^ 36) (map fst ps) = (true, map fst (filter (λ p, stays data cutoff p = true) ps)).
Proof.
  induction 1 as [| [f t] ps Hp Hps IH]; [done |]. cbn [map fst snd sweep] in *. rewrite filter_cons.
  assert (stays data cutoff (f, t) = negb (in_glob data f && (t <? cutoff))) as Es by done.
  destruct (in_glob data f).
  - destruct (Hp eq_refl) as [Hm He]. rewrite (made_time f t Hm), IH, epoch_order by done. cbn [andb] in Es.
    destruct (t <? cutoff); [by rewrite decide_False by (by rewrite Es) | by rewrite decide_True by (by rewrite Es)].
  - rewrite IH. by rewrite decide_True by (by rewrite Es).
Qed.

(** When all output files were made by the program, and in the epoch of the
    day before now, exactly those older than a day are removed, and then the
    output folders that are empty. *)
Theorem cleanup_removes_old data now bytes g (ps : list (file * Z)) dirs :
  0 <= counter (tick (now - RETENTION_MS) g) < 4096 →
  Forall (λ p, in_glob data p.1 = true → made p.1 p.2 ∧ epoch p.2 = epoch (now - RETENTION_MS)) ps →
  let kept := map fst (filter (λ p, stays data (now - RETENTION_MS) p = true) ps) in
  ∃ g', cleanup data now bytes g (map fst ps) dirs = (true, kept, remove_empty data kept dirs, g').
Proof.
  intros Hc Hps kept. exists (tick (now - RETENTION_MS) g). unfold cleanup.
  destruct (create tool false (now - RETENTION_MS) bytes g) as [id g1] eqn:E.
  assert (timestamp id = Some ((now - RETENTION_MS) mod 2 ^ 36)) as ->.
  { assert (id = (create tool false (now - RETENTION_MS) bytes g).1) as -> by (by rewrite E). unfold create. cbn [fst].
    rewrite timestamp_create. f_equal. unfold stamp. change (2 ^ 48) with (2 ^ 36 * 4096). Z.to_euclidean_division_equations. lia. }
  rewrite sweep_made by done. subst kept. assert (g1 = tick (now - RETENTION_MS) g) as -> by (change g1 with (id, g1).2; by rewrite <- E). done.
Qed.

(** *** The bounds are needed *)

Definition demo_data : jsstr := js "/data".
Definition demo_dir : jsstr := js "/data/storage/session/p/s/output".
Definition demo_file (t : Z) : file := mkFile demo_dir (js "output_" ++ (create tool false t [] fresh).1) (js "x").
Definition new_epoch : Z := 26 * 2 ^ 36.
(** Around the end of an epoch a file made a moment ago is removed, and one made
    a week ago is kept. *)
Example new_file_removed :
  (cleanup demo_data (new_epoch + 60000) [] fresh [demo_file (new_epoch + 1000)] [demo_dir]).1.1 = (true, []).
Proof. by vm_compute. Qed.
Example old_file_kept : let week := 7 * 24 * 60 * 60 * 1000 in
  (cleanup demo_data (new_epoch + week) [] fresh [demo_file (new_epoch - 1000)] [demo_dir]).1.1 = (true, [demo_file (new_epoch - 1000)]).
Proof. by vm_compute. Qed.
(** A file whose name is no identifier ends every cleanup before the files after it. *)
Example foreign_file_stops :
  (cleanup demo_data 1700000000000 [] fresh [mkFile demo_dir (js "output_x") []; demo_file 1600000000000] [demo_dir]).1.1 =
  (false, [mkFile demo_dir (js "output_x") []; demo_file 1600000000000]).
Proof. by vm_compute. Qed.
(** Files of no session are in a folder that is never looked at. *)
Example sessionless_kept :
  let f := mkFile (output_folder demo_data None) (js "output_" ++ (create tool false 1600000000000 [] fresh).1) [] in
  (cleanup demo_data 1700000000000 [] fresh [f] []).1.1 = (true, [f]).
Proof. by vm_compute. Qed.
(** A cleanup resets the counter of the identifiers of the same millisecond. *)
Example cleanup_resets_counter :
  let '(a, g) := create tool false 1700000000000 [9%N] fresh in
  let '(_, g) := cleanup demo_data 1700000000000 [] g [] [] in
  let '(b, _) := create tool false 1700000000000 [5%N] g in
  text_lt b a = true.
Proof. by vm_compute. Qed.

Definition demo_files : list (file * Z) := map (λ t, (demo_file t, t)) [1699900000000; 1699950000000].
Lemma cleanup_removes_old_witness : ∃ g',
  cleanup demo_data 1700000000000 [] fresh (map fst demo_files) [demo_dir] = (true, [demo_file 1699950000000], [demo_dir], g').
Proof.
  apply (cleanup_removes_old demo_data 1700000000000 [] fresh demo_files [demo_dir]); [split; by vm_compute |].
  repeat (apply Forall_cons; split; [intros _; split; [exists [], fresh; split; [done | split; by vm_compute] | by vm_compute] |]). by apply Forall_nil.
Defined.

Definition demo_options : Options := mkOptions (Some 2) None None false.
Lemma output_preview_witness : ∃ content path fs' dirs' g',
  output TOOL_OUTPUT_BUDGET_DEFAULTS demo_data (join [newline] [js "a"; js "b"; js "c"]) demo_options None None 1700000000000 [] fresh [] [] =
    (Externalized content path, fs', dirs', g') ∧
  (∃ f, f ∈ fs' ∧ f_path f = path ∧ f_text f = join [newline] [js "a"; js "b"; js "c"]).
Proof.
  destruct (output TOOL_OUTPUT_BUDGET_DEFAULTS demo_data (join [newline] [js "a"; js "b"; js "c"]) demo_options None None 1700000000000 [] fresh [] [])
    as [[[[c | c p] fs'] dirs'] g'] eqn:E; [by vm_compute in E |].
  exists c, p, fs', dirs', g'. split; [done |]. apply output_preview in E as (_ & H & _); [exact H | by vm_compute].
Defined.
Example output_demo :
  (output TOOL_OUTPUT_BUDGET_DEFAULTS demo_data (join [newline] [js "a"; js "b"; js "c"]) demo_options None None 1700000000000 [] fresh [] []).1.1.1 =
  Externalized (join [newline] [js "a"; js "b"; []; js "...1 lines truncated..."; [];
    hint false (js "/data/storage/output/output_tool_bcfe56800001")]) (js "/data/storage/output/output_tool_bcfe56800001").
Proof. by vm_compute. Qed.
