(* ===== verification/PromptRuntime.v ===== *)
(** * Runs of prompts ([session/prompt-runtime.ts], [session/status.ts], the entry of [runLoop] and [shell])

    The registry of running loops, the status of sessions, and the callers that
    wait for a slot, start and end.  A caller is a call of [runLoop] or [shell];
    its steps are the stretches between two suspensions, and it ends when its
    loop returns or throws.  The states of an instance are disposed of in two steps
    ([State.dispose] of [project/state.ts]), between which anything may happen.  The random identifier of a run is an argument and
    does not repeat; it also stands for the run's abort signal.  What runs inside
    of a loop may set the status of its session. *)
From stdpp Require Import gmap.
From S2P Require Import Prelude JsString.
Open Scope nat_scope.

(** ** The registry *)

Inductive CancelReason :=
| manual_stop | rate_limit_fallback | monitor_watchdog | instance_dispose | replaced | session_switch | killswitch
| parent_abort | runaway_guard | unknown.
Inductive Status := idle | retry (attempt : Z) (msg : jsstr) (next : Z) | busy.
#[export] Instance Status_eq_dec : EqDecision Status.
Proof. solve_decision. Defined.

Record RuntimeEntry := mkEntry { runID : N; callbacks : list N; slotWaiters : list N }.

(** [attempt] counts the slots waited for before; a caller whose wait is over is
    released, and goes on in a later step. *)
Inductive phase := Waiting (attempt : nat) | Released (attempt : nat) | Running (id : N) | Refused | Ended.
Record caller := mkCaller { c_session : jsstr; c_phase : phase }.

(** The disposals of the instance that are under way, the runs that were started
    while one was, and the callers that wait in a registry that was dropped. *)
Record disposal := mkDisposal { under_way : nat; late : gset N; stranded : gset N }.
(** [signals] has the runs ever started and why each was aborted, if it was. *)
Record system := mkSystem {
  entries : gmap jsstr RuntimeEntry;
  signals : gmap N (option CancelReason);
  statuses : gmap jsstr Status;
  children : gset jsstr;
  callers : gmap N caller;
  disposed : disposal
}.
Definition initial : system := mkSystem ∅ ∅ ∅ ∅ ∅ (mkDisposal 0 ∅ ∅).

Definition with_entries (m : gmap jsstr RuntimeEntry) (σ : system) : system :=
  mkSystem m (signals σ) (statuses σ) (children σ) (callers σ) (disposed σ).
Definition with_signals (m : gmap N (option CancelReason)) (σ : system) : system :=
  mkSystem (entries σ) m (statuses σ) (children σ) (callers σ) (disposed σ).
Definition with_statuses (m : gmap jsstr Status) (σ : system) : system :=
  mkSystem (entries σ) (signals σ) m (children σ) (callers σ) (disposed σ).
Definition with_children (m : gset jsstr) (σ : system) : system :=
  mkSystem (entries σ) (signals σ) (statuses σ) m (callers σ) (disposed σ).
Definition with_callers (m : gmap N caller) (σ : system) : system :=
  mkSystem (entries σ) (signals σ) (statuses σ) (children σ) m (disposed σ).

Definition with_disposed (d : disposal) (σ : system) : system :=
  mkSystem (entries σ) (signals σ) (statuses σ) (children σ) (callers σ) d.

(** An idle session has no entry. *)
Definition get_status (s : jsstr) (σ : system) : Status := default idle (statuses σ !! s).
Definition set_status (s : jsstr) (st : Status) (σ : system) : system :=
  with_statuses (match st with idle => delete s (statuses σ) | _ => <[s := st]> (statuses σ) end) σ.

(** A signal that is aborted keeps its reason. *)
Definition abort (id : N) (reason : CancelReason) (σ : system) : system :=
  with_signals (<[id := Some (match signals σ !! id with Some (Some r) => r | _ => reason end)]> (signals σ)) σ.

(** A run gets a signal that is not aborted. *)
Definition new_signal (id : N) (σ : system) : system :=
  let d := disposed σ in
  with_disposed (mkDisposal (under_way d) (if under_way d =? 0 then late d else {[id]} ∪ late d) (stranded d)) (with_signals (<[id := None]> (signals σ)) σ).

Definition assertNotBusy (s : jsstr) (σ : system) : bool := bool_decide (entries σ !! s = None).
Definition isRuntimeRegistered (s : jsstr) (σ : system) : bool := match entries σ !! s with Some _ => true | None => false end.
(** In no particular order. *)
Definition listActiveSessionIDs (σ : system) : list jsstr := (map_to_list (entries σ)).*1.
Definition activeChildChecker (s : jsstr) (σ : system) : bool := bool_decide (s ∈ children σ).

Definition start (s : jsstr) (replace : bool) (id : N) (σ : system) : option N * system :=
  match entries σ !! s with
  | Some current =>
      if replace then
        let σ := abort (runID current) replaced σ in
        let σ := new_signal id σ in
        (Some id, with_entries (<[s := mkEntry id (callbacks current) (slotWaiters current)]> (entries σ)) σ)
      else (None, σ)
  | None =>
      let σ := new_signal id σ in
      (Some id, with_entries (<[s := mkEntry id [] []]> (entries σ)) σ)
  end.

(** Whether it resolves at once. *)
Definition waitForSlot (s : jsstr) (c : N) (σ : system) : bool * system :=
  match entries σ !! s with
  | None => (true, σ)
  | Some e => (false, with_entries (<[s := mkEntry (runID e) (callbacks e) (slotWaiters e ++ [c])]> (entries σ)) σ)
  end.
(** [None] when it throws. *)
Definition enqueueCallback (s : jsstr) (callback : N) (σ : system) : option system :=
  match entries σ !! s with
  | None => None
  | Some e => Some (with_entries (<[s := mkEntry (runID e) (callbacks e ++ [callback]) (slotWaiters e)]> (entries σ)) σ)
  end.
Definition consumeCallbacks (s : jsstr) (σ : system) : list N := match entries σ !! s with Some e => callbacks e | None => [] end.

Definition cancel (s : jsstr) (reason : CancelReason) (σ : system) : system :=
  match entries σ !! s with
  | None => set_status s idle σ
  | Some e => abort (runID e) reason σ
  end.

Definition release (c : N) (σ : system) : system :=
  match callers σ !! c with
  | Some (mkCaller s (Waiting n)) => with_callers (<[c := mkCaller s (Released n)]> (callers σ)) σ
  | _ => σ
  end.
Definition finish (s : jsstr) (id : N) (σ : system) : system :=
  match entries σ !! s with
  | None => if bool_decide (get_status s σ = idle) then σ else set_status s idle σ
  | Some e =>
      if negb (runID e =? id)%N then σ
      else
        let σ := with_entries (delete s (entries σ)) σ in
        let σ := if activeChildChecker s σ then σ else set_status s idle σ in
        foldl (λ σ c, release c σ) σ (slotWaiters e)
  end.
(** Every registered run is aborted. *)
Definition cleanupState (σ : system) : system :=
  foldl (λ σ e, abort (runID e.2) instance_dispose σ) σ (map_to_list (entries σ)).

(** ** Disposing of the instance *)

(** The callbacks of a disposal are called, and waited for; then every state of
    the instance is dropped, and the next access makes a new one. *)
Definition dispose_begin (σ : system) : system :=
  let σ := cleanupState σ in let d := disposed σ in with_disposed (mkDisposal (S (under_way d)) (late d) (stranded d)) σ.
Definition waiters (m : gmap jsstr RuntimeEntry) : gset N := list_to_set (flat_map (λ e, slotWaiters e.2) (map_to_list m)).
Definition dispose_end (σ : system) : system :=
  let d := disposed σ in
  mkSystem ∅ (signals σ) ∅ ∅ (callers σ) (mkDisposal (pred (under_way d)) (late d) (waiters (entries σ) ∪ stranded d)).

(** ** Callers *)

Definition set_phase (c : N) (s : jsstr) (p : phase) (σ : system) : system := with_callers (<[c := mkCaller s p]> (callers σ)) σ.

(** A caller waits for its [attempt]-th slot. *)
Definition wait (c : N) (s : jsstr) (attempt : nat) (σ : system) : system :=
  let '(now, σ) := waitForSlot s c σ in set_phase c s (if now then Released attempt else Waiting attempt) σ.
(** [runLoop] up to its first suspension. *)
Definition enter (c : N) (s : jsstr) (replaceRuntime : bool) (id : N) (σ : system) : system :=
  match start s replaceRuntime id σ with
  | (Some id, σ) => set_phase c s (Running id) σ
  | (None, σ) => wait c s 0 σ
  end.
(** [runLoop] after a slot: three waits, then the run that is there is replaced. *)
Definition wake (c : N) (s : jsstr) (attempt : nat) (id : N) (σ : system) : system :=
  match start s false id σ with
  | (Some id, σ) => set_phase c s (Running id) σ
  | (None, σ) =>
      if attempt + 1 <? 3 then wait c s (attempt + 1) σ
      else match start s true id σ with
           | (Some id, σ) => set_phase c s (Running id) σ
           | (None, σ) => match enqueueCallback s c σ with Some σ => σ | None => set_phase c s Refused σ end
           end
  end.
Definition shell (c : N) (s : jsstr) (id : N) (σ : system) : system :=
  match start s false id σ with
  | (Some id, σ) => set_phase c s (Running id) σ
  | (None, σ) => set_phase c s Refused σ
  end.
(** The event of a session's child, attached or gone, and its subscriber. *)
Definition child_event (s : jsstr) (attached : bool) (σ : system) : system :=
  if attached then
    let σ := with_children ({[s]} ∪ children σ) σ in
    if bool_decide (get_status s σ = busy) then σ else set_status s busy σ
  else
    let σ := with_children (children σ ∖ {[s]}) σ in
    if isRuntimeRegistered s σ then σ else set_status s idle σ.

Inductive action :=
| Prompt (c : N) (s : jsstr) (replaceRuntime : bool) (id : N)
| Shell (c : N) (s : jsstr) (id : N)
| Wake (c id : N)
| SetStatus (c : N) (st : Status)
| End_ (c : N)
| Cancel (s : jsstr) (reason : CancelReason)
| Child (s : jsstr) (attached : bool)
| DisposeBegin
| DisposeEnd.

Definition unused {A} (k : N) (m : gmap N A) : bool := bool_decide (m !! k = None).
Definition step (a : action) (σ : system) : option system :=
  match a with
  | Prompt c s replaceRuntime id =>
      if unused c (callers σ) && unused id (signals σ) then Some (enter c s replaceRuntime id σ) else None
  | Shell c s id => if unused c (callers σ) && unused id (signals σ) then Some (shell c s id σ) else None
  | Wake c id =>
      match callers σ !! c with
      | Some (mkCaller s (Released n)) => if unused id (signals σ) then Some (wake c s n id σ) else None
      | _ => None
      end
  | SetStatus c st =>
      match callers σ !! c with Some (mkCaller s (Running _)) => Some (set_status s st σ) | _ => None end
  | End_ c =>
      match callers σ !! c with
      | Some (mkCaller s (Running id)) => Some (set_phase c s Ended (finish s id σ))
      | _ => None
      end
  | Cancel s reason => Some (cancel s reason σ)
  | Child s attached => Some (child_event s attached σ)
  | DisposeBegin => Some (dispose_begin σ)
  | DisposeEnd => if under_way (disposed σ) =? 0 then None else Some (dispose_end σ)
  end.

(** ** The invariant *)

Definition runs (c : N) (s : jsstr) (id : N) (σ : system) : Prop := callers σ !! c = Some (mkCaller s (Running id)).
Definition aborted (id : N) (σ : system) : Prop := ∃ r, signals σ !! id = Some (Some r).

(** Told to stop, or started too late to be told. *)
Definition gone (id : N) (σ : system) : Prop := aborted id σ ∨ id ∈ late (disposed σ).
Record inv (σ : system) : Prop := {
  i_owner : ∀ s e, entries σ !! s = Some e → ∃ c, runs c s (runID e) σ;
  i_live : ∀ c s id, runs c s id σ → (∃ e, entries σ !! s = Some e ∧ runID e = id) ∨ gone id σ;
  i_disposing : ∀ s e, under_way (disposed σ) ≠ 0 → entries σ !! s = Some e → gone (runID e) σ;
  i_signal : ∀ c s id, runs c s id σ → is_Some (signals σ !! id);
  i_unique : ∀ c c' s s' id, runs c s id σ → runs c' s' id σ → c = c';
  i_waiting : ∀ c s n, callers σ !! c = Some (mkCaller s (Waiting n)) → n < 3 ∧ (c ∈ stranded (disposed σ) ∨ ∃ e, entries σ !! s = Some e ∧ c ∈ slotWaiters e);
  i_slots : ∀ s e c, entries σ !! s = Some e → c ∈ slotWaiters e → ∃ n, callers σ !! c = Some (mkCaller s (Waiting n));
  i_stranded : ∀ c, c ∈ stranded (disposed σ) →
    (∃ s n, callers σ !! c = Some (mkCaller s (Waiting n))) ∧ ∀ s e, entries σ !! s = Some e → c ∉ slotWaiters e;
  i_released : ∀ c s n, callers σ !! c = Some (mkCaller s (Released n)) → n < 3;
  i_busy : ∀ s, get_status s σ ≠ idle → s ∈ children σ ∨ ∃ c id, runs c s id σ;
  i_callbacks : ∀ s e, entries σ !! s = Some e → callbacks e = []
}.

(** No run and no waiter is overwritten. *)
Definition free (c : N) (σ : system) : Prop := ∀ s p, callers σ !! c = Some (mkCaller s p) → ∃ n, p = Released n.
Lemma free_not_running c c' s id σ : free c σ → runs c' s id σ → c' ≠ c.
Proof. intros Hf Hr ->. destruct (Hf _ _ Hr) as [n H]. done. Qed.
Lemma free_not_waiting c c' s n σ : free c σ → callers σ !! c' = Some (mkCaller s (Waiting n)) → c' ≠ c.
Proof. intros Hf Hr ->. destruct (Hf _ _ Hr) as [m H]. done. Qed.

Lemma get_status_set s s' st σ : get_status s' (set_status s st σ) = if decide (s' = s) then st else get_status s' σ.
Proof.
  unfold get_status, set_status, with_statuses. cbn [statuses]. destruct (decide (s' = s)) as [-> | Hn].
  - destruct st; by rewrite ?lookup_delete_eq, ?lookup_insert_eq.
  - destruct st; by rewrite ?lookup_delete_ne, ?lookup_insert_ne by done.
Qed.

Lemma inv_initial : inv initial.
Proof. split; unfold runs, get_status; cbn; intros *; rewrite ?lookup_empty; done. Qed.

Lemma inv_status s st σ : inv σ → (st ≠ idle → s ∈ children σ ∨ ∃ c id, runs c s id σ) → inv (set_status s st σ).
Proof.
  intros [] H. split; try done. intros s'. rewrite get_status_set. destruct (decide (s' = s)) as [-> |]; [exact H | apply i_busy0].
Qed.
Lemma aborted_abort id id' r σ : aborted id σ → aborted id (abort id' r σ).
Proof.
  intros [r' H]. unfold aborted, abort. cbn [with_signals signals]. destruct (decide (id' = id)) as [-> |].
  - rewrite lookup_insert_eq. eauto.
  - rewrite lookup_insert_ne by done. eauto.
Qed.
Lemma gone_abort id id' r σ : gone id σ → gone id (abort id' r σ).
Proof. intros [? | ?]; [left; by apply aborted_abort | by right]. Qed.
Lemma inv_abort id r σ : inv σ → is_Some (signals σ !! id) → inv (abort id r σ).
Proof.
  intros [] H. split; try done.
  - intros c s id' Hr. destruct (i_live0 c s id' Hr) as [? | ?]; [by left | right; by apply gone_abort].
  - intros s e Hu He. by apply gone_abort, (i_disposing0 s e).
  - intros c s id' Hr. unfold abort. cbn [with_signals signals]. destruct (decide (id = id')) as [-> |];
      [rewrite lookup_insert_eq; eauto | rewrite lookup_insert_ne by done; by apply (i_signal0 c s)].
Qed.
Lemma owner_signal s e σ : inv σ → entries σ !! s = Some e → is_Some (signals σ !! runID e).
Proof. intros [] H. destruct (i_owner0 s e H) as [c Hc]. by apply (i_signal0 c s). Qed.

(** A new run takes the slot, the one before is aborted. *)
Lemma start_result s replace id σ : (start s replace id σ).1 = if replace || assertNotBusy s σ then Some id else None.
Proof. unfold start, assertNotBusy. destruct (entries σ !! s); by destruct replace. Qed.
Lemma start_effect s replace id σ σ' : inv σ → signals σ !! id = None → start s replace id σ = (Some id, σ') →
  ∃ e', entries σ' = <[s := e']> (entries σ) ∧ runID e' = id ∧ callbacks e' = [] ∧ statuses σ' = statuses σ ∧
    children σ' = children σ ∧ callers σ' = callers σ ∧ (∀ e, entries σ !! s = Some e → slotWaiters e' = slotWaiters e ∧ aborted (runID e) σ') ∧
    (∀ id', id' ≠ id → is_Some (signals σ !! id') → is_Some (signals σ' !! id')) ∧ is_Some (signals σ' !! id) ∧
    (∀ id', id' ≠ id → gone id' σ → gone id' σ') ∧ under_way (disposed σ') = under_way (disposed σ) ∧ stranded (disposed σ') = stranded (disposed σ) ∧
    (under_way (disposed σ) ≠ 0 → gone id σ') ∧ (entries σ !! s = None → slotWaiters e' = []).
Proof.
  intros HI Hid Hs. pose proof HI as [].
  assert (∀ τ, (∀ id', id' ≠ id → gone id' τ → gone id' (new_signal id τ)) ∧ (under_way (disposed τ) ≠ 0 → gone id (new_signal id τ))) as Hnew.
  { intros τ. unfold gone, aborted, new_signal. cbn [with_disposed with_signals signals disposed late]. destruct (Nat.eqb_spec (under_way (disposed τ)) 0) as [Hu | Hu].
    - split; [| done]. intros id' Hn. by rewrite lookup_insert_ne.
    - split; [intros id' Hn; rewrite lookup_insert_ne by done | intros _; right]; set_solver. }
  unfold start in Hs. destruct (entries σ !! s) as [cur |] eqn:Ec.
  - destruct replace; [| done]. injection Hs as <-. exists (mkEntry id (callbacks cur) (slotWaiters cur)).
    assert (runID cur ≠ id) as Hc by (intros Ee; destruct (owner_signal s cur σ HI Ec) as [? Hx]; rewrite Ee in Hx; congruence).
    destruct (Hnew (abort (runID cur) replaced σ)) as [N1 N2].
    split_and!; try done; [exact (i_callbacks0 s cur Ec) | | | unfold new_signal; cbn; rewrite lookup_insert_eq; eauto |].
    + intros e [= <-]. split; [done |]. unfold aborted, new_signal. cbn [with_entries with_disposed with_signals signals].
      rewrite lookup_insert_ne by done. unfold abort. cbn [with_signals signals]. rewrite lookup_insert_eq. eauto.
    + intros id' Hn Hi. unfold new_signal, abort. cbn [with_entries with_disposed with_signals signals]. rewrite lookup_insert_ne by done.
      destruct (decide (runID cur = id')) as [-> |]; [rewrite lookup_insert_eq; eauto | by rewrite lookup_insert_ne].
    + intros id' Hn Ha. by apply N1, gone_abort.
  - destruct (Hnew σ) as [N1 N2].
    assert (σ' = with_entries (<[s := mkEntry id [] []]> (entries σ)) (new_signal id σ)) as -> by by injection Hs.
    exists (mkEntry id [] []). split_and!; try done; unfold new_signal; cbn [with_entries with_disposed with_signals signals]; [| rewrite lookup_insert_eq; eauto].
    intros id' Hn Hi. by rewrite lookup_insert_ne.
Qed.
Lemma start_inv c s replace id σ σ' : inv σ → free c σ → signals σ !! id = None → start s replace id σ = (Some id, σ') →
  inv (set_phase c s (Running id) σ').
Proof.
  intros HI Hf Hid Hs. pose proof HI as [].
  assert (∀ c' s' id', runs c' s' id' σ → id' ≠ id) as Hne by (intros c' s' id' Hr ->; destruct (i_signal0 c' s' id Hr); congruence).
  destruct (start_effect s replace id σ σ' HI Hid Hs) as (e' & E1 & E2 & E3 & E4 & E5 & E6 & E7 & E8 & E9 & E10 & E11 & E12 & E13 & E14).
  split; unfold runs, set_phase, get_status; cbn [with_callers entries signals statuses children callers disposed]; rewrite ?E1, ?E4, ?E5, ?E6, ?E11, ?E12.
  - intros s' e. rewrite lookup_insert_Some. intros [[<- <-] | [Hn He]].
    + exists c. by rewrite E2, lookup_insert_eq.
    + destruct (i_owner0 s' e He) as [c' Hc']. exists c'. rewrite lookup_insert_ne; [done |]. pose proof (free_not_running _ _ _ _ _ Hf Hc'). congruence.
  - intros c' s' id'. rewrite lookup_insert_Some. intros [[<- [= <- <-]] | [Hn Hr]]; [left; rewrite lookup_insert_eq; eauto |].
    destruct (i_live0 c' s' id' Hr) as [(e & He & Hi) | Ha]; [| right; apply (E10 id'); [by apply (Hne c' s') | done]].
    destruct (decide (s' = s)) as [-> |].
    + right. left. destruct (E7 e He) as [_ G]. by rewrite Hi in G.
    + left. rewrite lookup_insert_ne by done. eauto.
  - intros s' e Hu. rewrite lookup_insert_Some. intros [[<- <-] | [Hn He]]; [rewrite E2; by apply E13 |].
    apply (E10 (runID e)); [| by apply (i_disposing0 s')]. destruct (i_owner0 s' e He) as [c' Hc']. by apply (Hne c' s').
  - intros c' s' id'. rewrite lookup_insert_Some. intros [[<- [= <- <-]] | [Hn Hr]]; [done |].
    apply E8; [by apply (Hne c' s') | by apply (i_signal0 c' s')].
  - intros c1 c2 s1 s2 id'. rewrite !lookup_insert_Some.
    intros [[<- [= <- <-]] | [Hn Hr]] [[<- [= H1]] | [Hn' Hr']]; [done | | | by apply (i_unique0 _ _ s1 s2 id')].
    + by apply Hne in Hr'.
    + subst. by apply Hne in Hr.
  - intros c' s' n. rewrite lookup_insert_Some. intros [[_ ?] | [Hn Hr]]; [done |]. destruct (i_waiting0 c' s' n Hr) as (H1 & [Hs' | (e & He & Hi)]); (split; [done |]); [by left | right].
    destruct (decide (s' = s)) as [-> |].
    + rewrite lookup_insert_eq. exists e'. split; [done |]. destruct (E7 e He) as [-> _]. done.
    + rewrite lookup_insert_ne by done. eauto.
  - intros s' e c'. rewrite lookup_insert_Some. intros [[<- <-] | [Hn He]] Hi.
    + destruct (entries σ !! s) as [e0 |] eqn:E0; [| rewrite E14 in Hi by done; by apply not_elem_of_nil in Hi].
      destruct (E7 e0 eq_refl) as [Hw _]. rewrite Hw in Hi. destruct (i_slots0 s e0 c' E0 Hi) as [n Hc]. exists n.
      rewrite lookup_insert_ne; [done |]. pose proof (free_not_waiting _ _ _ _ _ Hf Hc). congruence.
    + destruct (i_slots0 s' e c' He Hi) as [n Hc]. exists n. rewrite lookup_insert_ne; [done |]. pose proof (free_not_waiting _ _ _ _ _ Hf Hc). congruence.
  - intros c' Hc. destruct (i_stranded0 c' Hc) as [(s' & n & Hw) Hno]. split.
    + exists s', n. rewrite lookup_insert_ne; [done |]. pose proof (free_not_waiting _ _ _ _ _ Hf Hw). congruence.
    + intros s1 e1. rewrite lookup_insert_Some. intros [[<- <-] | [_ He]]; [| by apply (Hno s1)].
      destruct (entries σ !! s) as [e0 |] eqn:E0; [destruct (E7 e0 eq_refl) as [-> _]; by apply (Hno s) | rewrite E14 by done; apply not_elem_of_nil].
  - intros c' s' n. rewrite lookup_insert_Some. intros [[_ ?] | [Hn Hr]]; [done | by apply (i_released0 c' s')].
  - intros s' Hst. destruct (i_busy0 s' Hst) as [? | (c' & id' & Hr)]; [by left | right]. exists c', id'.
    pose proof (free_not_running _ _ _ _ _ Hf Hr). by rewrite lookup_insert_ne.
  - intros s' e. rewrite lookup_insert_Some. intros [[<- <-] | [Hn He]]; [done | by apply (i_callbacks0 s')].
Qed.

(** A caller is set to what neither runs nor waits. *)
Lemma free_not_queued c σ s e : inv σ → free c σ → entries σ !! s = Some e → c ∉ slotWaiters e.
Proof. intros [] Hf He Hi. destruct (i_slots0 s e c He Hi) as [n Hc]. by apply (free_not_waiting _ _ _ _ _ Hf Hc). Qed.
Lemma free_not_stranded c σ : inv σ → free c σ → c ∉ stranded (disposed σ).
Proof. intros [] Hf Hc. destruct (i_stranded0 c Hc) as [(s & n & Hw) _]. by apply (free_not_waiting _ _ _ _ _ Hf Hw). Qed.
Lemma phase_inv c s p σ : inv σ → free c σ → (∀ id, p ≠ Running id) → (∀ n, p ≠ Waiting n) → (∀ n, p = Released n → n < 3) → inv (set_phase c s p σ).
Proof.
  intros [] Hf Hr Hw Hn. unfold set_phase.
  split; unfold runs, get_status; cbn [with_callers entries signals statuses children callers disposed].
  - intros s' e He. destruct (i_owner0 s' e He) as [c' Hc']. exists c'. pose proof (free_not_running _ _ _ _ _ Hf Hc'). by rewrite lookup_insert_ne.
  - intros c' s' id'. rewrite lookup_insert_Some. intros [[_ [= _ H]] | [_ H]]; [by apply Hr in H | by apply (i_live0 c')].
  - exact i_disposing0.
  - intros c' s' id'. rewrite lookup_insert_Some. intros [[_ [= _ H]] | [_ H]]; [by apply Hr in H | by apply (i_signal0 c' s')].
  - intros c1 c2 s1 s2 id'. rewrite !lookup_insert_Some.
    intros [[_ [= _ H]] | [_ H]] [[_ [= _ H']] | [_ H']]; [by apply Hr in H | by apply Hr in H | by apply Hr in H' | by apply (i_unique0 _ _ s1 s2 id')].
  - intros c' s' m. rewrite lookup_insert_Some. intros [[_ [= _ H]] | [_ H]]; [by apply Hw in H | by apply i_waiting0].
  - intros s' e c' He Hi. destruct (i_slots0 s' e c' He Hi) as [m Hc]. exists m. pose proof (free_not_waiting _ _ _ _ _ Hf Hc). by rewrite lookup_insert_ne.
  - intros c' Hc. destruct (i_stranded0 c' Hc) as [(s' & m & Hm) Hno]. split; [| done]. exists s', m.
    pose proof (free_not_waiting _ _ _ _ _ Hf Hm). by rewrite lookup_insert_ne.
  - intros c' s' m. rewrite lookup_insert_Some. intros [[<- [= <- ->]] | [_ H]]; [by apply Hn | by apply (i_released0 c' s')].
  - intros s' Hs. destruct (i_busy0 s' Hs) as [? | (c' & id' & H)]; [by left | right]. exists c', id'.
    pose proof (free_not_running _ _ _ _ _ Hf H). by rewrite lookup_insert_ne.
  - apply i_callbacks0.
Qed.
(** A caller is put in the queue of an entry. *)
Lemma enqueue_inv c s n e σ : inv σ → free c σ → n < 3 → entries σ !! s = Some e →
  inv (set_phase c s (Waiting n) (with_entries (<[s := mkEntry (runID e) (callbacks e) (slotWaiters e ++ [c])]> (entries σ)) σ)).
Proof.
  intros HI Hf Hn Ee. pose proof HI as []. unfold set_phase.
  split; unfold runs, get_status; cbn [with_callers with_entries entries signals statuses children callers disposed].
  - intros s' e'. rewrite lookup_insert_Some. intros He.
    assert (∃ c', runs c' s' (runID e') σ) as [c' Hc'] by (destruct He as [[<- <-] | [_ He]]; [exact (i_owner0 s e Ee) | exact (i_owner0 s' e' He)]).
    exists c'. pose proof (free_not_running _ _ _ _ _ Hf Hc'). by rewrite lookup_insert_ne.
  - intros c' s' id'. rewrite lookup_insert_Some. intros [[_ ?] | [_ H]]; [done |].
    destruct (i_live0 c' s' id' H) as [(e' & He & Hi) | Ha]; [left | by right]. destruct (decide (s' = s)) as [-> |].
    + rewrite lookup_insert_eq. eexists. split; [done |]. cbn. congruence.
    + rewrite lookup_insert_ne by done. eauto.
  - intros s' e' Hu. rewrite lookup_insert_Some. intros [[<- <-] | [_ He]]; [exact (i_disposing0 s e Hu Ee) | exact (i_disposing0 s' e' Hu He)].
  - intros c' s' id'. rewrite lookup_insert_Some. intros [[_ ?] | [_ H]]; [done | by apply (i_signal0 c' s')].
  - intros c1 c2 s1 s2 id'. rewrite !lookup_insert_Some. intros [[_ ?] | [_ H]] [[_ ?] | [_ H']]; try done. by apply (i_unique0 _ _ s1 s2 id').
  - intros c' s' m. rewrite lookup_insert_Some. intros [[<- [= <- <-]] | [_ H]].
    + split; [done |]. right. rewrite lookup_insert_eq. eexists. split; [done |]. apply elem_of_app. right. by left.
    + destruct (i_waiting0 c' s' m H) as (Hm & [Hs | (e' & He & Hi)]); (split; [done |]); [by left | right]. destruct (decide (s' = s)) as [-> |].
      * rewrite lookup_insert_eq. eexists. split; [done |]. cbn [slotWaiters]. apply elem_of_app. left. congruence.
      * rewrite lookup_insert_ne by done. eauto.
  - intros s' e' c'. rewrite lookup_insert_Some. intros He Hi. destruct (decide (c' = c)) as [-> | Hc].
    + rewrite lookup_insert_eq. destruct He as [[<- _] | [_ He]]; [by exists n |]. by destruct (free_not_queued c σ s' e' HI Hf He Hi).
    + rewrite lookup_insert_ne by done. destruct He as [[<- <-] | [_ He]]; [| by apply (i_slots0 s' e')]. cbn [slotWaiters] in Hi.
      apply elem_of_app in Hi as [Hi | ?%list_elem_of_singleton]; [by apply (i_slots0 s e) | done].
  - intros c' Hc'. destruct (i_stranded0 c' Hc') as [(s' & m & Hm) Hno]. pose proof (free_not_waiting _ _ _ _ _ Hf Hm). split.
    + exists s', m. by rewrite lookup_insert_ne.
    + intros s1 e1. rewrite lookup_insert_Some. intros [[<- <-] | [_ He]]; [| by apply (Hno s1)]. cbn [slotWaiters].
      intros [Hi | ?%list_elem_of_singleton]%elem_of_app; [by apply (Hno s e) | done].
  - intros c' s' m. rewrite lookup_insert_Some. intros [[_ ?] | [_ H]]; [done | by apply (i_released0 c' s')].
  - intros s' Hs. destruct (i_busy0 s' Hs) as [? | (c' & id' & H)]; [by left | right]. exists c', id'.
    pose proof (free_not_running _ _ _ _ _ Hf H). by rewrite lookup_insert_ne.
  - intros s' e'. rewrite lookup_insert_Some. intros [[<- <-] | [_ He]]; [exact (i_callbacks0 s e Ee) | by apply (i_callbacks0 s')].
Qed.
Lemma wait_inv c s n σ : inv σ → free c σ → n < 3 → inv (wait c s n σ).
Proof.
  intros HI Hf Hn. unfold wait, waitForSlot. destruct (entries σ !! s) as [e |] eqn:Ee; [by apply enqueue_inv |].
  apply phase_inv; [done | done | done | done |]. by intros m [= <-].
Qed.

(** *** The end of a run *)

Lemma release_callers c c' σ : callers (release c σ) !! c' =
  match callers σ !! c' with
  | Some (mkCaller s (Waiting n)) => if decide (c' = c) then Some (mkCaller s (Released n)) else callers σ !! c'
  | o => o
  end.
Proof.
  unfold release. destruct (decide (c' = c)) as [-> | Hn].
  - destruct (callers σ !! c) as [[s [n | n | id | |]] |] eqn:E; cbn [with_callers callers]; by rewrite ?lookup_insert_eq, ?E.
  - destruct (callers σ !! c) as [[s [n | n | id | |]] |] eqn:E; cbn [with_callers callers]; rewrite ?lookup_insert_ne by done;
      destruct (callers σ !! c') as [[s' [n' | n' | id' | |]] |]; done.
Qed.
Lemma release_others c σ : entries (release c σ) = entries σ ∧ signals (release c σ) = signals σ ∧ statuses (release c σ) = statuses σ ∧
  children (release c σ) = children σ ∧ disposed (release c σ) = disposed σ.
Proof. unfold release. by destruct (callers σ !! c) as [[s [n | n | id | |]] |]. Qed.
Definition release_all (ws : list N) (σ : system) : system := foldl (λ σ c, release c σ) σ ws.
Lemma release_all_others ws : ∀ σ, entries (release_all ws σ) = entries σ ∧ signals (release_all ws σ) = signals σ ∧
  statuses (release_all ws σ) = statuses σ ∧ children (release_all ws σ) = children σ ∧ disposed (release_all ws σ) = disposed σ.
Proof.
  induction ws as [| c ws IH]; intros σ; [done |]. destruct (IH (release c σ)) as (H1 & H2 & H3 & H4 & H5).
  destruct (release_others c σ) as (G1 & G2 & G3 & G4 & G5). cbn [release_all foldl] in *. split_and!; etransitivity; eauto.
Qed.
Lemma release_all_callers ws : ∀ σ c', callers (release_all ws σ) !! c' =
  match callers σ !! c' with
  | Some (mkCaller s (Waiting n)) => if decide (c' ∈ ws) then Some (mkCaller s (Released n)) else callers σ !! c'
  | o => o
  end.
Proof.
  induction ws as [| c ws IH]; intros σ c'.
  - cbn [release_all foldl]. destruct (callers σ !! c') as [[s [n | n | id | |]] |]; try done.
  - change (release_all (c :: ws) σ) with (release_all ws (release c σ)). rewrite IH, release_callers.
    destruct (callers σ !! c') as [[s [n | n | id | |]] |]; try done. destruct (decide (c' = c)) as [-> | Hn].
    + rewrite decide_True by by left. done.
    + destruct (decide (c' ∈ ws)); [rewrite decide_True by by right | rewrite decide_False by (by intros [? | ?]%elem_of_cons)]; done.
Qed.

(** A run that lost its slot ends, and nobody needs it as the reason of a status. *)
Lemma stop_inv c s id σ : inv σ → runs c s id σ → (∀ e, entries σ !! s = Some e → runID e ≠ id) →
  (get_status s σ ≠ idle → s ∈ children σ ∨ ∃ c' id', c' ≠ c ∧ runs c' s id' σ) → inv (set_phase c s Ended σ).
Proof.
  intros HI Hr He Hb. pose proof HI as []. unfold set_phase.
  split; unfold runs, get_status in *; cbn [with_callers entries signals statuses children callers disposed].
  - intros s' e H. destruct (i_owner0 s' e H) as [c' Hc']. exists c'. rewrite lookup_insert_ne; [done |].
    intros <-. assert (s = s' ∧ id = runID e) as [<- ->] by (split; congruence). by apply (He e).
  - intros c' s' id'. rewrite lookup_insert_Some. intros [[_ ?] | [_ H]]; [done | by apply (i_live0 c')].
  - exact i_disposing0.
  - intros c' s' id'. rewrite lookup_insert_Some. intros [[_ ?] | [_ H]]; [done | by apply (i_signal0 c' s')].
  - intros c1 c2 s1 s2 id'. rewrite !lookup_insert_Some. intros [[_ ?] | [_ H]] [[_ ?] | [_ H']]; try done. by apply (i_unique0 _ _ s1 s2 id').
  - intros c' s' m. rewrite lookup_insert_Some. intros [[_ ?] | [_ H]]; [done | by apply i_waiting0].
  - intros s' e c' H1 H2. destruct (i_slots0 s' e c' H1 H2) as [m Hm]. exists m. rewrite lookup_insert_ne; [done |]. unfold runs in Hr. congruence.
  - intros c' Hc. destruct (i_stranded0 c' Hc) as [(s' & m & Hm) Hno]. split; [| done]. exists s', m. rewrite lookup_insert_ne; [done |]. unfold runs in Hr. congruence.
  - intros c' s' m. rewrite lookup_insert_Some. intros [[_ ?] | [_ H]]; [done | by apply (i_released0 c' s')].
  - intros s' Hs. destruct (decide (s' = s)) as [-> | Hn].
    + destruct (Hb Hs) as [? | (c' & id' & Hc & H)]; [by left | right]. exists c', id'. by rewrite lookup_insert_ne.
    + destruct (i_busy0 s' Hs) as [? | (c' & id' & H)]; [by left | right]. exists c', id'. rewrite lookup_insert_ne; [done |]. congruence.
  - apply i_callbacks0.
Qed.
(** What the end of the run that has the slot leaves. *)
Lemma finish_own s e σ : entries σ !! s = Some e →
  entries (finish s (runID e) σ) = delete s (entries σ) ∧ signals (finish s (runID e) σ) = signals σ ∧
  children (finish s (runID e) σ) = children σ ∧ disposed (finish s (runID e) σ) = disposed σ ∧
  (∀ s', get_status s' (finish s (runID e) σ) = if decide (s' = s ∧ s ∉ children σ) then idle else get_status s' σ) ∧
  (∀ c, callers (finish s (runID e) σ) !! c = match callers σ !! c with
    | Some (mkCaller s' (Waiting n)) => if decide (c ∈ slotWaiters e) then Some (mkCaller s' (Released n)) else callers σ !! c
    | o => o end).
Proof.
  intros He. unfold finish. rewrite He, N.eqb_refl. cbn [negb].
  set (σ1 := with_entries (delete s (entries σ)) σ). fold (release_all (slotWaiters e) (if activeChildChecker s σ1 then σ1 else set_status s idle σ1)).
  set (σ2 := if activeChildChecker s σ1 then σ1 else set_status s idle σ1).
  destruct (release_all_others (slotWaiters e) σ2) as (-> & -> & H3 & -> & ->).
  assert (entries σ2 = delete s (entries σ) ∧ signals σ2 = signals σ ∧ children σ2 = children σ ∧ disposed σ2 = disposed σ ∧ callers σ2 = callers σ) as (H4 & H5 & H6 & H8 & H7)
    by (unfold σ2; by destruct (activeChildChecker s σ1)).
  split_and!; [done | done | done | done | |].
  - intros s'. unfold get_status at 1. rewrite H3. fold (get_status s' σ2). unfold σ2, activeChildChecker. cbn [σ1 with_entries children].
    destruct (bool_decide_reflect (s ∈ children σ)) as [Hc | Hc].
    + rewrite decide_False by tauto. done.
    + rewrite get_status_set. destruct (decide (s' = s)) as [-> |]; [by rewrite decide_True | by rewrite decide_False by tauto].
  - intros c. by rewrite release_all_callers, H7.
Qed.
Lemma end_own_inv c s e σ : inv σ → entries σ !! s = Some e → runs c s (runID e) σ → inv (set_phase c s Ended (finish s (runID e) σ)).
Proof.
  intros HI He Hr. pose proof HI as []. destruct (finish_own s e σ He) as (E1 & E2 & E3 & E6 & E4 & E5). unfold set_phase.
  set (σ' := finish s (runID e) σ) in *.
  assert (∀ c' s' id', callers σ' !! c' = Some (mkCaller s' (Running id')) ↔ runs c' s' id' σ) as Er.
  { intros c' s' id'. rewrite E5. unfold runs. destruct (callers σ !! c') as [[s1 [n | n | i | |]] |]; try done. destruct (decide _); split; intros; simplify_eq. }
  split; unfold runs, get_status; cbn [with_callers entries signals statuses children callers disposed]; fold (get_status) in *; rewrite ?E1, ?E2, ?E3, ?E6.
  - intros s' e'. rewrite lookup_delete_Some. intros [Hn H]. destruct (i_owner0 s' e' H) as [c' Hc']. exists c'.
    rewrite lookup_insert_ne; [by apply Er |]. unfold runs in *. congruence.
  - intros c' s' id'. rewrite lookup_insert_Some, Er. intros [[_ ?] | [Hc H]]; [done |].
    destruct (i_live0 c' s' id' H) as [(e' & He' & Hi) | Ha]; [left | right].
    + exists e'. rewrite lookup_delete_ne; [done |]. intros <-. simplify_eq. apply Hc, (i_unique0 _ _ s s (runID e)); done.
    + unfold gone, aborted in *. cbn [with_callers signals disposed]. by rewrite E2, E6.
  - intros s' e' Hu. rewrite lookup_delete_Some. intros [_ H]. pose proof (i_disposing0 s' e' Hu H) as Hg.
    unfold gone, aborted in *. cbn [with_callers signals disposed]. by rewrite E2, E6.
  - intros c' s' id'. rewrite lookup_insert_Some, Er. intros [[_ ?] | [Hc H]]; [done | by apply (i_signal0 c' s')].
  - intros c1 c2 s1 s2 id'. rewrite !lookup_insert_Some, !Er. intros [[_ ?] | [_ H]] [[_ ?] | [_ H']]; try done. by apply (i_unique0 _ _ s1 s2 id').
  - intros c' s' m. rewrite lookup_insert_Some, E5. intros [[_ ?] | [Hc H]]; [done |].
    destruct (callers σ !! c') as [[s1 [n | n | i | |]] |] eqn:Ec; try done. case_decide as Hw; [done |]. injection H as -> ->.
    destruct (i_waiting0 c' s' m Ec) as (Hm & [Hs | (e' & He' & Hi)]); (split; [done |]); [by left | right]. exists e'. rewrite lookup_delete_ne; [done |]. intros <-. congruence.
  - intros s' e' c'. rewrite lookup_delete_Some. intros [Hn H1] H2. destruct (i_slots0 s' e' c' H1 H2) as [m Hm]. exists m.
    rewrite lookup_insert_ne by (unfold runs in Hr; congruence). rewrite E5, Hm, decide_False; [done |].
    intros Hq. destruct (i_slots0 s e c' He Hq) as [m' Hm']. congruence.
  - intros c' Hc. destruct (i_stranded0 c' Hc) as [(s' & m & Hm) Hno]. split.
    + exists s', m. rewrite lookup_insert_ne by (unfold runs in Hr; congruence). rewrite E5, Hm, decide_False; [done | by apply (Hno s)].
    + intros s1 e1. rewrite lookup_delete_Some. intros [_ H]. by apply (Hno s1).
  - intros c' s' m. rewrite lookup_insert_Some, E5. intros [[_ ?] | [Hc H]]; [done |].
    destruct (callers σ !! c') as [[s1 [n | n | i | |]] |] eqn:Ec; try done.
    + case_decide; [| done]. injection H as -> ->. by destruct (i_waiting0 c' s' m Ec).
    + injection H as -> ->. by apply (i_released0 c' s').
  - intros s' Hs. change (get_status s' σ' ≠ idle) in Hs. rewrite E4 in Hs. case_decide as Hd; [done |].
    destruct (i_busy0 s' Hs) as [? | (c' & id' & H)]; [by left |]. destruct (decide (s' = s)) as [-> | Hn]; [left; destruct (decide (s ∈ children σ)); tauto |].
    right. exists c', id'. rewrite lookup_insert_ne; [by apply Er |]. unfold runs in *. congruence.
  - intros s' e'. rewrite lookup_delete_Some. intros [_ H]. by apply (i_callbacks0 s').
Qed.
Lemma end_inv c s id σ : inv σ → runs c s id σ → inv (set_phase c s Ended (finish s id σ)).
Proof.
  intros HI Hr. pose proof HI as []. destruct (entries σ !! s) as [e |] eqn:Ee.
  - destruct (decide (runID e = id)) as [<- | Hn]; [by apply end_own_inv |].
    unfold finish. rewrite Ee, (proj2 (N.eqb_neq _ _)) by done. cbn [negb]. apply (stop_inv c s id); [done | done | congruence |].
    intros _. right. destruct (i_owner0 s e Ee) as [c' Hc']. exists c', (runID e). split; [| done]. unfold runs in *. congruence.
  - unfold finish. rewrite Ee. apply (stop_inv c s id).
    + case_bool_decide; [done |]. by apply inv_status.
    + by case_bool_decide.
    + case_bool_decide; cbn [set_status with_statuses entries]; congruence.
    + case_bool_decide; [done |]. rewrite get_status_set, decide_True by done. done.
Qed.

(** *** Every step keeps the invariant *)

Lemma child_inv s attached σ : inv σ → inv (child_event s attached σ).
Proof.
  intros HI. pose proof HI as []. unfold child_event. destruct attached.
  - assert (inv (with_children ({[s]} ∪ children σ) σ)) as HI'.
    { split; try done. cbn [with_children children]. intros s' Hs. destruct (i_busy0 s' Hs) as [? | ?]; [left; set_solver | by right]. }
    case_bool_decide; [done |]. apply inv_status; [done |]. intros _. left. cbn [with_children children]. set_solver.
  - unfold isRuntimeRegistered. cbn [with_children entries].
    assert (∀ s', s' ≠ s → s' ∈ children σ → s' ∈ children σ ∖ {[s]}) as G by set_solver.
    destruct (entries σ !! s) as [e |] eqn:Ee; split; try done; cbn [with_children set_status with_statuses children].
    + intros s' Hs. destruct (decide (s' = s)) as [-> | Hn].
      * right. destruct (i_owner0 s e Ee) as [c Hc]. by exists c, (runID e).
      * destruct (i_busy0 s' Hs) as [? | ?]; [left; by apply G | by right].
    + intros s' Hs. rewrite get_status_set in Hs. case_decide as Hd; [done |].
      destruct (i_busy0 s' Hs) as [? | ?]; [left; by apply G | by right].
Qed.
Lemma abort_entries id r σ : entries (abort id r σ) = entries σ ∧ callers (abort id r σ) = callers σ.
Proof. done. Qed.
Lemma abort_signals id id' r σ : is_Some (signals σ !! id') → is_Some (signals (abort id r σ) !! id').
Proof.
  intros H. unfold abort. cbn [with_signals signals]. destruct (decide (id = id')) as [-> |];
    [rewrite lookup_insert_eq; eauto | by rewrite lookup_insert_ne].
Qed.
Lemma cleanup_inv σ : inv σ → inv (cleanupState σ).
Proof.
  intros HI. unfold cleanupState. assert (Forall (λ e : jsstr * RuntimeEntry, is_Some (signals σ !! runID e.2)) (map_to_list (entries σ))) as H.
  { apply Forall_forall. intros [s e] Hin%elem_of_map_to_list. by apply (owner_signal s e). }
  revert H. generalize (map_to_list (entries σ)). intros l. revert σ HI. induction l as [| e l IH]; intros σ HI H; [done |].
  inversion H; subst. cbn [foldl]. apply IH; [by apply inv_abort |].
  eapply Forall_impl; [done |]. intros e' He'. by apply abort_signals.
Qed.
Definition abort_all (l : list (jsstr * RuntimeEntry)) (σ : system) : system := foldl (λ σ e, abort (runID e.2) instance_dispose σ) σ l.
Lemma abort_all_spec l : ∀ σ, entries (abort_all l σ) = entries σ ∧ disposed (abort_all l σ) = disposed σ ∧
  (∀ id, aborted id σ → aborted id (abort_all l σ)) ∧ ∀ e, e ∈ l → aborted (runID e.2) (abort_all l σ).
Proof.
  induction l as [| e l IH]; intros σ; [split_and!; try done; by intros e ?%not_elem_of_nil |].
  destruct (IH (abort (runID e.2) instance_dispose σ)) as (H1 & H2 & H3 & H4). cbn [abort_all foldl] in *. split_and!; [done | done | |].
  - intros id Ha. by apply H3, aborted_abort.
  - intros e' [-> | He]%elem_of_cons; [| by apply H4]. apply H3. unfold aborted, abort. cbn [with_signals signals]. rewrite lookup_insert_eq. eauto.
Qed.
Lemma dispose_begin_inv σ : inv σ → inv (dispose_begin σ).
Proof.
  intros HI. destruct (cleanup_inv σ HI) as []. destruct (abort_all_spec (map_to_list (entries σ)) σ) as (H1 & H2 & _ & H4).
  split; try done. intros s e _ He. left. change (entries (abort_all (map_to_list (entries σ)) σ) !! s = Some e) in He. rewrite H1 in He.
  by apply (H4 (s, e)), elem_of_map_to_list.
Qed.
Lemma elem_of_waiters c m : c ∈ waiters m ↔ ∃ s e, m !! s = Some e ∧ c ∈ slotWaiters e.
Proof.
  unfold waiters. rewrite elem_of_list_to_set, elem_of_flat_map. split.
  - intros ([s e] & Hin%elem_of_map_to_list & Hc). by exists s, e.
  - intros (s & e & He & Hc). exists (s, e). split; [by apply elem_of_map_to_list | done].
Qed.
Lemma dispose_end_inv σ : inv σ → under_way (disposed σ) ≠ 0 → inv (dispose_end σ).
Proof.
  intros [] Hu. split; unfold runs, get_status; cbn [dispose_end entries signals statuses children callers disposed stranded].
  - intros s e. by rewrite lookup_empty.
  - intros c s id Hr. right. destruct (i_live0 c s id Hr) as [(e & He & <-) | Hg]; [| exact Hg]. exact (i_disposing0 s e Hu He).
  - intros s e _. by rewrite lookup_empty.
  - exact i_signal0.
  - exact i_unique0.
  - intros c s n Hc. destruct (i_waiting0 c s n Hc) as (Hn & [Hs | (e & He & Hi)]); (split; [done |]); left; apply elem_of_union; [by right | left].
    apply elem_of_waiters. eauto.
  - intros s e c. by rewrite lookup_empty.
  - intros c [(s & e & He & Hi)%elem_of_waiters | Hs]%elem_of_union; (split; [| intros s1 e1; by rewrite lookup_empty]); [| by apply i_stranded0].
    exists s. by apply (i_slots0 s e).
  - exact i_released0.
  - intros s. by rewrite lookup_empty.
  - intros s e. by rewrite lookup_empty.
Qed.
Lemma start_some s replace id σ id' σ' : start s replace id σ = (Some id', σ') → id' = id.
Proof. unfold start. destruct (entries σ !! s); [destruct replace |]; by intros [= <- _]. Qed.
Lemma start_none s replace id σ σ' : start s replace id σ = (None, σ') → σ' = σ.
Proof. unfold start. destruct (entries σ !! s); [destruct replace |]; by intros [= <-]. Qed.
(** A start that replaces always starts: the callback of last resort is never queued. *)
Lemma start_replaces s id σ : ∃ σ', start s true id σ = (Some id, σ').
Proof. unfold start. destruct (entries σ !! s); eauto. Qed.
Lemma unused_free c id σ : unused c (callers σ) && unused id (signals σ) = true → free c σ ∧ signals σ !! id = None.
Proof.
  unfold unused. rewrite andb_true_iff, !bool_decide_eq_true. intros [H1 H2]. split; [| done]. intros s p H. congruence.
Qed.
Lemma step_keeps_inv a σ σ' : inv σ → step a σ = Some σ' → inv σ'.
Proof.
  intros HI. destruct a as [c s r id | c s id | c id | c st | c | s reason | s attached | |]; cbn [step].
  - destruct (_ && _) eqn:E; [| done]. apply unused_free in E as [Hf Hid]. intros [= <-]. unfold enter.
    destruct (start s r id σ) as [[id' |] σ1] eqn:Es.
    + pose proof (start_some _ _ _ _ _ _ Es) as ->. by apply (start_inv c s r id σ).
    + apply start_none in Es as ->. apply wait_inv; [done | done | lia].
  - destruct (_ && _) eqn:E; [| done]. apply unused_free in E as [Hf Hid]. intros [= <-]. unfold shell.
    destruct (start s false id σ) as [[id' |] σ1] eqn:Es.
    + pose proof (start_some _ _ _ _ _ _ Es) as ->. by apply (start_inv c s false id σ).
    + apply start_none in Es as ->. by apply phase_inv.
  - destruct (callers σ !! c) as [[s [n | n | i | |]] |] eqn:Ec; try done. destruct (unused id (signals σ)) eqn:E; [| done].
    intros [= <-]. unfold unused in E. apply bool_decide_eq_true in E.
    assert (free c σ) as Hf by (intros s' p H; rewrite Ec in H; injection H as <- <-; eauto).
    unfold wake. destruct (start s false id σ) as [[id' |] σ1] eqn:Es.
    + pose proof (start_some _ _ _ _ _ _ Es) as ->. by apply (start_inv c s false id σ).
    + apply start_none in Es as ->. destruct (Nat.ltb_spec (n + 1) 3); [by apply wait_inv |].
      destruct (start_replaces s id σ) as [σ2 Es2]. rewrite Es2. by apply (start_inv c s true id σ).
  - destruct (callers σ !! c) as [[s [n | n | i | |]] |] eqn:Ec; try done. intros [= <-]. apply inv_status; [done |].
    intros _. right. by exists c, i.
  - destruct (callers σ !! c) as [[s [n | n | i | |]] |] eqn:Ec; try done. intros [= <-]. by apply end_inv.
  - intros [= <-]. unfold cancel. destruct (entries σ !! s) as [e |] eqn:Ee; [| by apply inv_status].
    apply inv_abort; [done | by apply (owner_signal s)].
  - intros [= <-]. by apply child_inv.
  - intros [= <-]. by apply dispose_begin_inv.
  - destruct (Nat.eqb_spec (under_way (disposed σ)) 0); [done |]. intros [= <-]. by apply dispose_end_inv.
Qed.
Lemma reachable_keeps_inv σ : reachable step initial σ → inv σ.
Proof. apply reachable_ind_inv; [apply inv_initial | intros a s s'; apply step_keeps_inv]. Qed.

(** ** What holds of every sequence of steps *)

(** C7. Of the runs of a session that were not started while the instance was
    disposed of at most one is not aborted: every other that still runs has been
    told to stop. *)
Theorem one_live_run σ c c' s id id' : reachable step initial σ → runs c s id σ → runs c' s id' σ →
  ¬ aborted id σ → ¬ aborted id' σ → id ∉ late (disposed σ) → id' ∉ late (disposed σ) → c = c' ∧ id = id'.
Proof.
  intros []%reachable_keeps_inv H H' Ha Ha' Hl Hl'. destruct (i_live0 c s id H) as [(e & He & Hi) | [? | ?]]; [| done | done].
  destruct (i_live0 c' s id' H') as [(e' & He' & Hi') | [? | ?]]; [| done | done]. simplify_eq. split; [by eapply i_unique0 | done].
Qed.

Lemma wake_free c s n id σ : callers σ !! c = Some (mkCaller s (Released n)) → signals σ !! id = None → entries σ !! s = None →
  ∃ σ', step (Wake c id) σ = Some σ' ∧ runs c s id σ'.
Proof.
  intros Hc Hid He. cbn [step]. rewrite Hc. unfold unused. rewrite bool_decide_true by done. eexists. split; [done |].
  unfold wake, start. rewrite He. unfold runs, set_phase. cbn [with_callers callers]. by rewrite lookup_insert_eq.
Qed.
(** C8. A prompt that waits in a registry that was not dropped is never forgotten:
    the slot it waits for is taken by a run that goes on; when that run ends the
    prompt is released, and runs if it is the first to be woken.  A prompt that was
    released and finds the slot taken waits again, and after three waits it runs
    all the same. *)
Theorem prompt_starts σ c s n : reachable step initial σ →
  (callers σ !! c = Some (mkCaller s (Waiting n)) → c ∉ stranded (disposed σ) →
    n < 3 ∧ ∃ c' id, runs c' s id σ ∧ (∃ e, entries σ !! s = Some e ∧ runID e = id) ∧
      ∃ σ', step (End_ c') σ = Some σ' ∧ callers σ' !! c = Some (mkCaller s (Released n)) ∧
        ∀ id', signals σ' !! id' = None → ∃ σ'', step (Wake c id') σ' = Some σ'' ∧ runs c s id' σ'') ∧
  (callers σ !! c = Some (mkCaller s (Released n)) → n < 3 ∧ ∀ id, signals σ !! id = None →
    ∃ σ', step (Wake c id) σ = Some σ' ∧
      if isRuntimeRegistered s σ && (n <? 2) then callers σ' !! c = Some (mkCaller s (Waiting (n + 1))) else runs c s id σ').
Proof.
  intros HI%reachable_keeps_inv. pose proof HI as []. split.
  - intros Hc Hns. destruct (i_waiting0 c s n Hc) as (Hn & [? | (e & He & Hin)]); [done |]. split; [done |]. destruct (i_owner0 s e He) as [c' Hc'].
    exists c', (runID e). split; [done |]. split; [eauto |]. cbn [step]. rewrite Hc'. eexists. split; [done |].
    destruct (finish_own s e σ He) as (Ee & _ & _ & _ & _ & Ec).
    assert (callers (set_phase c' s Ended (finish s (runID e) σ)) !! c = Some (mkCaller s (Released n))) as Hrel.
    { unfold set_phase. cbn [with_callers callers]. rewrite lookup_insert_ne by (unfold runs in Hc'; congruence). by rewrite Ec, Hc, decide_True. }
    split; [exact Hrel |]. intros id' Hid. apply (wake_free c s n); [exact Hrel | exact Hid |].
    unfold set_phase. cbn [with_callers entries]. by rewrite Ee, lookup_delete_eq.
  - intros Hc. split; [by apply (i_released0 c s) |]. intros id Hid. unfold isRuntimeRegistered.
    destruct (entries σ !! s) as [e |] eqn:Ee; cbn [andb]; [| by apply (wake_free c s n)].
    cbn [step]. rewrite Hc. unfold unused. rewrite bool_decide_true by done. eexists. split; [done |].
    unfold wake. assert (start s false id σ = (None, σ)) as -> by (unfold start; by rewrite Ee). destruct (Nat.ltb_spec n 2).
    + rewrite (proj2 (Nat.ltb_lt _ _)) by lia. unfold wait, waitForSlot. rewrite Ee.
      unfold set_phase. cbn [with_callers callers]. by rewrite lookup_insert_eq.
    + rewrite (proj2 (Nat.ltb_ge _ _)) by lia. destruct (start_replaces s id σ) as [σ2 ->]. unfold runs, set_phase. cbn [with_callers callers]. by rewrite lookup_insert_eq.
Qed.

(** Nobody calls a prompt that waits in a registry that was dropped. *)
Lemma step_strands a σ σ' : step a σ = Some σ' → stranded (disposed σ) ⊆ stranded (disposed σ').
Proof.
  assert (∀ s r id τ, stranded (disposed (start s r id τ).2) = stranded (disposed τ)) as Hst
    by (intros s r id τ; unfold start; destruct (entries τ !! s); [by destruct r | done]).
  assert (∀ c s n τ, stranded (disposed (wait c s n τ)) = stranded (disposed τ)) as Hw
    by (intros c s n τ; unfold wait, waitForSlot; by destruct (entries τ !! s)).
  assert (∀ s st τ, disposed (set_status s st τ) = disposed τ) as Hss by done.
  assert (∀ s id τ, disposed (finish s id τ) = disposed τ) as Hfi.
  { intros s id τ. unfold finish. destruct (entries τ !! s); [| by case_bool_decide]. case_match; [done |].
    assert (∀ ws τ', disposed (foldl (λ σ c, release c σ) τ' ws) = disposed τ') as -> by (intros; apply release_all_others). by destruct (activeChildChecker _ _). }
  destruct a as [c s r id | c s id | c id | c st | c | s reason | s attached | |]; cbn [step].
  - case_match; [| done]. intros [= <-]. unfold enter. pose proof (Hst s r id σ) as E. destruct (start s r id σ) as [[i |] τ]; cbn in *; [by rewrite <- E | by rewrite Hw, <- E].
  - case_match; [| done]. intros [= <-]. unfold shell. pose proof (Hst s false id σ) as E. destruct (start s false id σ) as [[i |] τ]; cbn in *; by rewrite <- E.
  - destruct (callers σ !! c) as [[s [n | n | i | |]] |]; try done. case_match; [| done]. intros [= <-]. unfold wake.
    pose proof (Hst s false id σ) as E. destruct (start s false id σ) as [[i |] τ]; cbn in *; [by rewrite <- E |].
    rewrite <- E. case_match; [by rewrite Hw |]. pose proof (Hst s true id τ) as E2. destruct (start_replaces s id τ) as [τ' E3]. rewrite E3 in *. cbn in *. by rewrite <- E2.
  - destruct (callers σ !! c) as [[s [n | n | i | |]] |]; try done. by intros [= <-].
  - destruct (callers σ !! c) as [[s [n | n | i | |]] |]; try done. intros [= <-]. unfold set_phase. cbn [with_callers disposed]. by rewrite Hfi.
  - intros [= <-]. unfold cancel. by destruct (entries σ !! s).
  - intros [= <-]. unfold child_event. destruct attached; by case_match.
  - intros [= <-]. change (stranded (disposed σ) ⊆ stranded (disposed (abort_all (map_to_list (entries σ)) σ))).
    by destruct (abort_all_spec (map_to_list (entries σ)) σ) as (_ & -> & _).
  - case_match; [done |]. intros [= <-]. cbn. set_solver.
Qed.
Theorem stranded_waits σ acts σ' c : reachable step initial σ → c ∈ stranded (disposed σ) → run step acts σ = Some σ' →
  ∃ s n, callers σ' !! c = Some (mkCaller s (Waiting n)).
Proof.
  intros Hr Hc Hrun. assert (stranded (disposed σ) ⊆ stranded (disposed σ')) as Hsub.
  { clear Hr Hc. revert σ Hrun. induction acts as [| a acts IH]; intros σ; cbn [run]; [by intros [= <-] |]. destruct (step a σ) as [τ |] eqn:E; [| done].
    intros H. etransitivity; [by eapply step_strands | by apply IH]. }
  pose proof (run_reachable _ _ _ _ _ Hr Hrun) as []%reachable_keeps_inv. by apply i_stranded0, Hsub.
Qed.

(** A session is shown as busy or retrying only while a run of it goes on or
    a subagent is attached to it. *)
Theorem busy_has_reason σ s : reachable step initial σ → get_status s σ ≠ idle →
  s ∈ children σ ∨ ∃ c id, runs c s id σ.
Proof. intros []%reachable_keeps_inv. apply i_busy0. Qed.

(** The callbacks of a runtime are never used. *)
Theorem no_callbacks σ s : reachable step initial σ → consumeCallbacks s σ = [].
Proof. intros []%reachable_keeps_inv. unfold consumeCallbacks. destruct (entries σ !! s) eqn:E; [by apply (i_callbacks0 s) | done]. Qed.

(** ** What happens to prompts that queue up *)

Definition after_steps (acts : list action) : system := default initial (run step acts initial).
Lemma after_reachable acts : reachable step initial (after_steps acts).
Proof.
  unfold after_steps. destruct (run step acts initial) as [σ |] eqn:E; [| apply reach_init].
  cbn [default]. eapply run_reachable; [apply reach_init | exact E].
Qed.

(** Whoever lost the slot three times replaces the run that has it, however
    short that run has been going. *)
Theorem third_loser_aborts σ c s e id : reachable step initial σ → callers σ !! c = Some (mkCaller s (Released 2)) →
  entries σ !! s = Some e → signals σ !! id = None →
  ∃ σ', step (Wake c id) σ = Some σ' ∧ runs c s id σ' ∧ aborted (runID e) σ'.
Proof.
  intros HI%reachable_keeps_inv Hc He Hid. cbn [step]. rewrite Hc. unfold unused. rewrite bool_decide_true by done. eexists. split; [done |].
  unfold wake. assert (start s false id σ = (None, σ)) as -> by (unfold start; by rewrite He). cbn [Nat.add Nat.ltb Nat.leb].
  destruct (start_replaces s id σ) as [σ2 Es]. rewrite Es. split.
  - unfold runs, set_phase. cbn [with_callers callers]. by rewrite lookup_insert_eq.
  - destruct (start_effect s true id σ σ2 HI Hid Es) as (e' & _ & _ & _ & _ & _ & _ & H & _). destruct (H e He) as [_ [r Hr]]. by exists r.
Qed.

Definition the_session : jsstr := js "ses".
(** Five prompts one after the other, each run ending in turn. *)
Definition five_prompts : list action :=
  let s := the_session in
  [Prompt 0 s false 100; Prompt 1 s false 101; Prompt 2 s false 102; Prompt 3 s false 103; Prompt 4 s false 104;
   End_ 0; Wake 1 201; Wake 2 202; Wake 3 203; Wake 4 204;
   End_ 1; Wake 2 302; Wake 3 303; Wake 4 304;
   End_ 2; Wake 3 403].
(** No run hangs, and the fifth prompt aborts the fourth, whose run has just begun. *)
Example fifth_aborts_fourth : let σ := after_steps five_prompts in let σ' := after_steps (five_prompts ++ [Wake 4 404]) in
  signals σ !! 403%N = Some None ∧ signals σ' !! 403%N = Some (Some replaced) ∧ callers σ' !! 4%N = Some (mkCaller the_session (Running 404)).
Proof. by vm_compute. Qed.
(** A run that was replaced and ends last shows the session as idle although a
    subagent is attached. *)
Example idle_with_subagent : let s := the_session in
  let σ := after_steps [Prompt 0 s false 100; Prompt 1 s true 101; SetStatus 1 busy; Child s true; End_ 1] in
  let σ' := after_steps [Prompt 0 s false 100; Prompt 1 s true 101; SetStatus 1 busy; Child s true; End_ 1; End_ 0] in
  get_status s σ = busy ∧ get_status s σ' = idle ∧ activeChildChecker s σ' = true.
Proof. by vm_compute. Qed.

(** A run that is started while the instance is disposed of is told nothing, and
    its registry is dropped: another is started beside it, and a prompt that waits
    for it is not called when it ends. *)
Definition disposed_meanwhile : list action :=
  let s := the_session in [Prompt 0 s false 100; DisposeBegin; End_ 0; Prompt 1 s false 101; Prompt 2 s false 102; DisposeEnd; Prompt 3 s false 103].
Example two_live_runs : let σ := after_steps disposed_meanwhile in
  callers σ !! 1%N = Some (mkCaller the_session (Running 101)) ∧ signals σ !! 101%N = Some None ∧
  callers σ !! 3%N = Some (mkCaller the_session (Running 103)) ∧ signals σ !! 103%N = Some None.
Proof. by vm_compute. Qed.
Example waits_for_ever : let σ := after_steps (disposed_meanwhile ++ [End_ 1; End_ 3]) in
  callers σ !! 2%N = Some (mkCaller the_session (Waiting 0)) ∧ entries σ !! the_session = None ∧ bool_decide (2%N ∈ stranded (disposed σ)) = true.
Proof. by vm_compute. Qed.
Lemma third_loser_aborts_witness : let σ := after_steps five_prompts in
  ∃ σ', step (Wake 4 404) σ = Some σ' ∧ runs 4 the_session 404 σ' ∧ aborted 403 σ'.
Proof.
  intros σ. apply (third_loser_aborts σ 4 the_session (mkEntry 403 [] []) 404); [apply after_reachable | by vm_compute | by vm_compute | by vm_compute].
Defined.
(** The replaced run of the fourth prompt goes on for a while; no run but that of
    the fifth is not told to stop. *)
Lemma one_live_run_witness : let σ := after_steps (five_prompts ++ [Wake 4 404]) in
  runs 3 the_session 403 σ ∧ runs 4 the_session 404 σ ∧ ∀ c id, runs c the_session id σ → ¬ aborted id σ → c = 4%N ∧ id = 404%N.
Proof.
  intros σ. assert (runs 4 the_session 404 σ) as H4 by by vm_compute. split; [by vm_compute |]. split; [exact H4 |]. intros c id Hr Ha.
  assert (late (disposed σ) = ∅) as Hl by by vm_compute.
  apply (one_live_run σ c 4 the_session id 404); [apply after_reachable | exact Hr | exact H4 | exact Ha | | rewrite Hl; apply not_elem_of_empty | rewrite Hl; apply not_elem_of_empty].
  intros [r H]. by vm_compute in H.
Defined.
Lemma prompt_starts_witness : let σ := after_steps (take 8 five_prompts) in
  callers σ !! 2%N = Some (mkCaller the_session (Waiting 1)) ∧
  (callers σ !! 2%N = Some (mkCaller the_session (Waiting 1)) →
    1 < 3 ∧
    ∃ c' id, runs c' the_session id σ ∧ (∃ e, entries σ !! the_session = Some e ∧ runID e = id) ∧
      ∃ σ', step (End_ c') σ = Some σ' ∧ callers σ' !! 2%N = Some (mkCaller the_session (Released 1)) ∧
        ∀ id', signals σ' !! id' = None → ∃ σ'', step (Wake 2 id') σ' = Some σ'' ∧ runs 2 the_session id' σ'').
Proof.
  intros σ. split; [by vm_compute |]. intros H. apply (prompt_starts σ 2 the_session 1); [apply after_reachable | exact H |].
  assert (stranded (disposed σ) = ∅) as -> by by vm_compute. apply not_elem_of_empty.
Defined.
Lemma busy_has_reason_witness : let σ := after_steps [Prompt 0 the_session false 100; SetStatus 0 busy] in
  the_session ∈ children σ ∨ ∃ c id, runs c the_session id σ.
Proof. intros σ. apply (busy_has_reason σ); [apply after_reachable | by vm_compute]. Defined.
