(* ===== verification/RequestMonitor.v ===== *)
(** * Requests of the last minute and of the day ([account/monitor.ts])

    The usage of each provider, account and model: a window of the last sixty
    seconds and the totals since the last reset of the quota day.  Reading the
    file gives its entries in order, or nothing; writing it has no effect here. *)
From stdpp Require Import gmap.
From S2P Require Import Prelude JsString RotationState.
Open Scope Z_scope.

Record DailyStats := mkDaily { lastReset : Z; requests : Z; tokens : Z }.
Record WindowEntry := mkWindow { ts : Z; w_tokens : Z }.
Record UsageEntry := mkUsage { window : list WindowEntry; daily : DailyStats }.
Record UsageStats := mkStats { rpm : Z; tpm : Z; rpd : Z; tpd : Z }.
Record ModelLimits := mkLimits { l_rpm : Z; l_tpm : Z; l_rpd : Z }.
Notation monitor := (gmap jsstr UsageEntry).

Definition DEFAULT_LIMITS : ModelLimits := mkLimits 10 1000000 1000.
Definition GEMINI_LIMITS : list (jsstr * ModelLimits) :=
  [(js "gemini-3-pro", mkLimits 2 32000 250); (js "gemini-2.5-pro", mkLimits 2 32000 1000);
   (js "gemini-2.0-pro-exp-02-05", mkLimits 2 32000 50); (js "gemini-2.5-flash", mkLimits 15 1000000 10000);
   (js "gemini-1.5-pro", mkLimits 2 32000 50); (js "gemini-1.5-flash", mkLimits 15 1000000 1500);
   (js "gemini-2.0-flash-exp", mkLimits 10 4000000 1500); (js "gemini-3-flash", mkLimits 15 1000000 10000)].

(** The longest names first, in the order of the table when they are as long. *)
Definition longer (a b : jsstr * ModelLimits) : Z := Z.of_nat (length b.1) - Z.of_nat (length a.1).
Definition getModelLimits (providerId modelId : jsstr) : ModelLimits :=
  if bool_decide (providerId = js "gemini-cli") || bool_decide (providerId = js "google-api") then
    let id := if startsWith modelId (js "models/") then drop 7 modelId else modelId in
    match find (λ e : jsstr * ModelLimits, bool_decide (e.1 = id)) GEMINI_LIMITS with
    | Some e => e.2
    | None =>
        match find (λ e : jsstr * ModelLimits, includes id e.1) (sort_by longer GEMINI_LIMITS) with
        | Some e => e.2
        | None => DEFAULT_LIMITS
        end
    end
  else DEFAULT_LIMITS.

Definition getKey (providerId accountId modelId : jsstr) : jsstr := providerId ++ js ":" ++ accountId ++ js ":" ++ modelId.

Fixpoint prune (now : Z) (w : list WindowEntry) : list WindowEntry :=
  match w with e :: w' => if ts e <? now - 60 * 1000 then prune now w' else w | [] => [] end.
(** The totals of the day, empty when the day is over. *)
Definition of_day (dayStart : Z) (d : DailyStats) : DailyStats := if lastReset d <? dayStart then mkDaily dayStart 0 0 else d.
(** [now1] is the clock of the quota day. *)
Definition recordRequest (providerId accountId modelId : jsstr) (n : Z) (now now1 : Z) (mem : monitor) : monitor :=
  let key := getKey providerId accountId modelId in
  let dayStart := getQuotaDayStart now1 in
  let entry := default (mkUsage [] (mkDaily dayStart 0 0)) (mem !! key) in
  let d := of_day dayStart (daily entry) in
  <[key := mkUsage (prune now (window entry ++ [mkWindow now n])) (mkDaily (lastReset d) (requests d + 1) (tokens d + n))]> mem.
Definition getStats (providerId accountId modelId : jsstr) (now now1 : Z) (mem : monitor) : UsageStats * monitor :=
  let key := getKey providerId accountId modelId in
  match mem !! key with
  | None => (mkStats 0 0 0 0, mem)
  | Some entry =>
      let w := prune now (window entry) in
      let d := daily entry in
      let total := foldl (λ sum item, sum + w_tokens item) 0 w in
      (if lastReset d <? getQuotaDayStart now1 then mkStats (Z.of_nat (length w)) total 0 0
       else mkStats (Z.of_nat (length w)) total (requests d) (tokens d),
       <[key := mkUsage w d]> mem)
  end.

Inductive status := healthy | at_rpm | at_rpd.
Definition getStatus (providerId accountId modelId : jsstr) (now now1 : Z) (mem : monitor) : status * monitor :=
  let '(stats, mem) := getStats providerId accountId modelId now now1 mem in
  let limits := getModelLimits providerId modelId in
  (if l_rpd limits <=? rpd stats then at_rpd else if l_rpm limits <=? rpm stats then at_rpm else healthy, mem).

(** [load]: what the file holds is added to what was counted before it was read. *)
Definition load_entry (mem : monitor) (e : jsstr * DailyStats) : monitor :=
  match mem !! e.1 with
  | None => <[e.1 := mkUsage [] e.2]> mem
  | Some entry =>
      let d := daily entry in
      if lastReset d =? lastReset e.2
      then <[e.1 := mkUsage (window entry) (mkDaily (lastReset d) (requests d + requests e.2) (tokens d + tokens e.2))]> mem
      else mem
  end.
Definition load (file : list (jsstr * DailyStats)) (mem : monitor) : monitor := foldl load_entry mem file.
Definition sync_entry (mem : monitor) (e : jsstr * DailyStats) : monitor :=
  <[e.1 := mkUsage (match mem !! e.1 with Some entry => window entry | None => [] end) e.2]> mem.
Definition sync (file : list (jsstr * DailyStats)) (mem : monitor) : monitor := foldl sync_entry mem file.
Definition save (mem : monitor) : gmap jsstr DailyStats := daily <$> mem.

(** ** What is counted *)

Record call := mkCall { c_provider : jsstr; c_account : jsstr; c_model : jsstr; c_tokens : Z; c_now : Z; c_now1 : Z }.
Definition recordAll (cs : list call) (mem : monitor) : monitor :=
  foldl (λ mem c, recordRequest (c_provider c) (c_account c) (c_model c) (c_tokens c) (c_now c) (c_now1 c) mem) mem cs.
Definition key_of (c : call) : jsstr := getKey (c_provider c) (c_account c) (c_model c).
Definition mine (key : jsstr) (c : call) : bool := bool_decide (key_of c = key).
Fixpoint clock_from (t : Z) (cs : list call) : Prop :=
  match cs with [] => True | c :: cs => t <= c_now c ∧ clock_from (c_now c) cs end.
Definition clock_end (t : Z) (cs : list call) : Z := foldl (λ _ c, c_now c) t cs.
Definition recent (now : Z) (w : list WindowEntry) : list WindowEntry := filter (λ e, now - 60 * 1000 <= ts e) w.

Lemma window_recent now w : StronglySorted (λ a b, ts a <= ts b) w → prune now w = recent now w.
Proof.
  induction 1 as [| e w Hw IH He]; [done |]. cbn [prune]. unfold recent. rewrite filter_cons. destruct (Z.ltb_spec (ts e) (now - 60 * 1000)).
  - rewrite decide_False by lia. exact IH.
  - rewrite decide_True by lia. f_equal. symmetry. apply filter_all. eapply Forall_impl; [exact He |]. intros x Hx. simpl in *. lia.
Qed.
Lemma window_sorted now w : StronglySorted (λ a b, ts a <= ts b) w → StronglySorted (λ a b, ts a <= ts b) (prune now w).
Proof. induction 1 as [| e w Hw IH He]; [constructor |]. cbn [prune]. case_match; [done | by constructor]. Qed.
Lemma recent_recent now now' w : now <= now' → recent now' (recent now w) = recent now' w.
Proof.
  intros H. unfold recent. rewrite list_filter_filter. apply list_filter_ext_in. intros e _. lia.
Qed.
Lemma window_snoc w e : StronglySorted (λ a b, ts a <= ts b) w → Forall (λ x, ts x <= ts e) w → StronglySorted (λ a b, ts a <= ts b) (w ++ [e]).
Proof.
  induction 1 as [| x w Hw IH Hx]; intros H; [by repeat constructor |]. inversion H; subst. cbn [app]. constructor; [by apply IH |].
  apply Forall_app. split; [done | by repeat constructor].
Qed.

(** The window of a key holds the recent ones of its calls. *)
Definition entries_of (key : jsstr) (cs : list call) : list WindowEntry :=
  map (λ c, mkWindow (c_now c) (c_tokens c)) (filter (λ c, mine key c = true) cs).
Definition window_at (key : jsstr) (mem : monitor) : list WindowEntry := match mem !! key with Some e => window e | None => [] end.
Definition tracks (key : jsstr) (t : Z) (seen : list WindowEntry) (mem : monitor) : Prop :=
  StronglySorted (λ a b, ts a <= ts b) (window_at key mem) ∧ Forall (λ e, ts e <= t) (window_at key mem) ∧
  ∀ now, t <= now → recent now (window_at key mem) = recent now seen.
Lemma record_tracks key t seen c mem : t <= c_now c → tracks key t seen mem →
  tracks key (c_now c) (seen ++ entries_of key [c])
    (recordRequest (c_provider c) (c_account c) (c_model c) (c_tokens c) (c_now c) (c_now1 c) mem).
Proof.
  intros Ht (Hs & Hf & Hr). assert (Forall (λ e, ts e <= c_now c) (window_at key mem)) as Hf' by (eapply Forall_impl; [exact Hf |]; simpl; lia).
  unfold tracks, window_at, recordRequest, entries_of, mine. fold (key_of c). rewrite filter_cons, filter_nil.
  destruct (decide (key_of c = key)) as [<- | Hn].
  - rewrite lookup_insert_eq, bool_decide_true, decide_True by done. cbn [window map].
    set (w := window (default _ (mem !! key_of c))). assert (w = window_at (key_of c) mem) as -> by (unfold w, window_at; by destruct (mem !! key_of c)).
    set (w := window_at (key_of c) mem) in *. assert (StronglySorted (λ a b, ts a <= ts b) (w ++ [mkWindow (c_now c) (c_tokens c)])) as Hs2 by (by apply window_snoc).
    split_and!; [by apply window_sorted | |].
    + rewrite window_recent by done. unfold recent. apply Forall_forall. intros x [_ Hx]%list_elem_of_filter.
      apply elem_of_app in Hx as [Hx | ->%list_elem_of_singleton]; [| done]. rewrite Forall_forall in Hf'. by apply Hf'.
    + intros now Hn. rewrite window_recent, recent_recent by done. unfold recent. rewrite !filter_app. f_equal. apply Hr. lia.
  - rewrite lookup_insert_ne by done. rewrite bool_decide_false, decide_False by done. cbn [map]. rewrite app_nil_r.
    split_and!; [done | done |]. intros now Hn'. apply Hr. lia.
Qed.
Lemma all_tracks key cs : ∀ t seen mem, clock_from t cs → tracks key t seen mem →
  tracks key (clock_end t cs) (seen ++ entries_of key cs) (recordAll cs mem).
Proof.
  induction cs as [| c cs IH]; intros t seen mem Hc H.
  - unfold entries_of. cbn. by rewrite app_nil_r.
  - destruct Hc as [Ht Hc]. apply (record_tracks key t seen c mem Ht) in H. apply IH in H; [| done].
    assert (entries_of key [c] ++ entries_of key cs = entries_of key (c :: cs)) as <-; [| by rewrite app_assoc].
    unfold entries_of. rewrite !filter_cons, filter_nil. by case_decide.
Qed.

(** The requests a minute that are reported are those of the last sixty
    seconds, and their tokens are summed, as long as the clock does not go back. *)
Theorem rpm_counts_last_minute cs t now now1 p a m : clock_from t cs → clock_end t cs <= now →
  let calls := filter (λ c, mine (getKey p a m) c = true ∧ now - 60 * 1000 <= c_now c) cs in
  let stats := (getStats p a m now now1 (recordAll cs ∅)).1 in
  rpm stats = Z.of_nat (length calls) ∧ tpm stats = foldl Z.add 0 (map c_tokens calls).
Proof.
  intros Hc Hn calls stats. set (key := getKey p a m) in *.
  destruct (all_tracks key cs t [] ∅ Hc) as (Hs & _ & Hr).
  { unfold tracks, window_at. rewrite lookup_empty. by repeat constructor. }
  assert (recent now (entries_of key cs) = map (λ c, mkWindow (c_now c) (c_tokens c)) calls) as Hw.
  { unfold calls, entries_of, recent. clear. induction cs as [| c cs IH]; [done |]. rewrite !filter_cons.
    destruct (decide (mine key c = true)) as [E | E]; [| rewrite decide_False by tauto; exact IH].
    cbn [map]. rewrite filter_cons. cbn [ts]. destruct (decide (now - 60 * 1000 <= c_now c)).
    - rewrite decide_True by done. cbn [map]. by f_equal.
    - rewrite decide_False by tauto. exact IH. }
  assert (prune now (window_at key (recordAll cs ∅)) = map (λ c, mkWindow (c_now c) (c_tokens c)) calls) as Hp.
  { rewrite window_recent by done. rewrite Hr by done. exact Hw. }
  unfold stats, getStats. fold key. unfold window_at in Hp. destruct (recordAll cs ∅ !! key) as [entry |].
  - rewrite Hp. assert (∀ acc, foldl (λ sum item, sum + w_tokens item) acc (map (λ c, mkWindow (c_now c) (c_tokens c)) calls) =
      foldl Z.add acc (map c_tokens calls)) as G.
    { clear. induction calls as [| c cs0 IH]; intros acc; [done |]. cbn [map foldl]. by rewrite IH. }
    cbn [fst]. case_match; cbn [rpm tpm]; by rewrite length_map, G.
  - symmetry in Hp. apply map_eq_nil in Hp. by rewrite Hp.
Qed.

Definition demo_calls : list call :=
  let c := mkCall (js "gemini-cli") (js "a") (js "gemini-3-pro-preview") 10 in [c 1000 1000; c 50000 50000; c 70000 70000].
Lemma rpm_counts_last_minute_witness :
  let stats := (getStats (js "gemini-cli") (js "a") (js "gemini-3-pro-preview") 80000 80000 (recordAll demo_calls ∅)).1 in
  rpm stats = 2 ∧ tpm stats = 20.
Proof.
  apply (rpm_counts_last_minute demo_calls 0 80000 80000 (js "gemini-cli") (js "a") (js "gemini-3-pro-preview")); cbn; lia.
Defined.
(** A name is looked for inside of the model's, the longest first. *)
Example limits_inside : getModelLimits (js "gemini-cli") (js "models/gemini-2.0-pro-exp-02-05-x") = mkLimits 2 32000 50 ∧
  getModelLimits (js "google-api") (js "gemini-3-pro-preview") = mkLimits 2 32000 250 ∧ getModelLimits (js "openai") (js "gemini-3-pro") = DEFAULT_LIMITS.
Proof. by vm_compute. Qed.
(** A day that the file knows under another reset is not added. *)
Example load_other_day : save (load [(js "k", mkDaily 5 3 30)] {[js "k" := mkUsage [] (mkDaily 7 1 10)]}) = {[js "k" := mkDaily 7 1 10]}.
Proof. by vm_compute. Qed.
