(* ===== verification/Judge.v ===== *)
(** * The judge of rate limits ([account/rate-limit-judge.ts])

    What an error leads to: its reason and wait ([ErrorClass], [Backoff]), the
    wait of the provider's strategy ([RequestMonitor], the quota of the account),
    and the marks in the trackers ([RateLimits], [Health]), which share one file.
    [judge] and [markRateLimited] await the quota in between, so each is two
    steps.  An end of a limit is only compared with whole milliseconds, so waits
    are rounded up when they are stored.  Events are left out. *)
From Stdlib Require Import QArith Qround Qminmax.
From stdpp Require Import gmap.
From S2P Require Import Prelude JsString RotationState Backoff RateLimits Health ErrorClass RequestMonitor.
Open Scope Z_scope.

(** ** The shared state *)

Record trackers := mkTrackers { limits_of : rate_limits; scores_of : health_map; state_file : disk; requests_of : monitor }.
Definition tracker_of (σ : trackers) : tracker := Tracker (limits_of σ) (state_file σ).
Definition health_of (σ : trackers) : health := Health (scores_of σ) (state_file σ).
Definition with_tracker (t : tracker) (σ : trackers) : trackers := mkTrackers (limits t) (scores_of σ) (store t) (requests_of σ).
Definition with_health (h : health) (σ : trackers) : trackers := mkTrackers (limits_of σ) (scores h) (file_of h) (requests_of σ).
Definition with_requests (m : monitor) (σ : trackers) : trackers := mkTrackers (limits_of σ) (scores_of σ) (state_file σ) m.

(** ** Strategies *)

Definition PROVIDER_COOLDOWN_MIN_MS : Z := 5 * 60 * 60 * 1000.
Definition MODEL_CAPACITY_MIN_BACKOFF_MS : Z := 15000.
Definition shouldPromoteToProviderCooldown (why : RateLimitReason) (backoffMs : Q) : bool :=
  match why with
  | QUOTA_EXHAUSTED | RATE_LIMIT_LONG | TOKEN_REFRESH_FAILED => true
  | RATE_LIMIT_EXCEEDED => Qle_bool (inject_Z PROVIDER_COOLDOWN_MIN_MS) backoffMs
  | _ => false
  end.

Inductive BackoffStrategy := cockpit | counter | passive.
#[export] Instance BackoffStrategy_eq_dec : EqDecision BackoffStrategy.
Proof. solve_decision. Defined.
Definition getBackoffStrategy (providerId : jsstr) : BackoffStrategy :=
  if bool_decide (providerId = js "openai") || bool_decide (providerId = js "codex") then cockpit
  else if bool_decide (providerId = js "gemini-cli") || bool_decide (providerId = js "google-api") then counter
  else passive.
Definition COCKPIT_WHAM_USAGE_FAMILIES : list jsstr := map js ["openai"; "codex"]%string.

Inductive judge_source := error_response | rpm_inference | rpd_inference | from_cockpit.
Record JudgeResult := mkResult { j_reason : RateLimitReason; j_backoffMs : Q; j_source : judge_source; j_dailyFailures : Z }.

(** What asking for the quota gives: an exception, nothing, or a quota. *)
Record quota := mkQuota { weeklyRemaining : Q; hourlyRemaining : Q; hasHourlyWindow : option bool }.
Inductive quota_answer := QuotaThrows | NoQuota | Quota (q : quota).
Definition weeks_wait : Z := 7 * 24 * 60 * 60 * 1000.
Definition hours_wait : Z := 5 * 60 * 60 * 1000.
Definition fetchCockpitBackoff (providerId : jsstr) (answer : quota_answer) (fallbackBackoffMs : Q) : Q * bool :=
  if negb (bool_decide (providerId ∈ COCKPIT_WHAM_USAGE_FAMILIES)) then (fallbackBackoffMs, false)
  else match answer with
  | QuotaThrows | NoQuota => (fallbackBackoffMs, false)
  | Quota q =>
      if Qle_bool (weeklyRemaining q) 0 then (Qmax fallbackBackoffMs (inject_Z weeks_wait), true)
      else if negb (bool_decide (hasHourlyWindow q = Some false)) && Qle_bool (hourlyRemaining q) 0
      then (Qmax fallbackBackoffMs (inject_Z hours_wait), true)
      else (fallbackBackoffMs, false)
  end.

(** [now] and [now1] are the clocks of [getStats], [now2] and [now3] those of the wait until the reset. *)
Record infer_clocks := mkInfer { i_now : Z; i_now1 : Z; i_now2 : Z; i_now3 : Z }.
Definition inferFromRequestLog (providerId accountId modelId : jsstr) (why : RateLimitReason) (currentBackoffMs : Q)
    (c : infer_clocks) (mem : monitor) : (Q * judge_source * bool) * monitor :=
  let '(stats, mem) := getStats providerId accountId modelId (i_now c) (i_now1 c) mem in
  let limits := getModelLimits providerId modelId in
  if (rpm stats <? l_rpm limits) && negb (bool_decide (why = RATE_LIMIT_SHORT))
  then ((inject_Z (Z.max (getNextQuotaReset (i_now2 c) - i_now3 c) 60000), rpd_inference, true), mem)
  else ((currentBackoffMs, rpm_inference, false), mem).

(** ** Classification: up to the quota *)

Record pending := mkPending { p_reason : RateLimitReason; p_daily : Z; p_backoff : Q }.
(** Two clocks for the counter of the day, two for the wait until the next reset, and a random number. *)
Record count_clocks := mkCount { k_now1 : Z; k_now2 : Z; k_now3 : Z; k_now4 : Z; k_random : Q }.
Definition classify (providerId accountId modelId : jsstr) (details : RateLimitReason * option Q) (k : count_clocks) (σ : trackers) :
    pending * trackers :=
  let '(daily, t) := incrementDailyFailureCount accountId providerId (Some modelId) (k_now1 k) (k_now2 k) (tracker_of σ) in
  let σ := with_tracker t σ in
  let '(failures, h) := getConsecutiveFailures accountId providerId (Some modelId) (health_of σ) in
  (mkPending details.1 daily (calculateBackoffMs details.1 failures details.2 daily (k_now3 k) (k_now4 k) (k_random k)), with_health h σ).
Definition judge_start (providerId accountId modelId : jsstr) (error : thrown) (k : count_clocks) (σ : trackers) : pending * trackers :=
  classify providerId accountId modelId (extractRateLimitDetails error) k σ.

(** [None] when no error is given. *)
Definition isTemporary (why : RateLimitReason) : bool :=
  match why with
  | RATE_LIMIT_EXCEEDED | RATE_LIMIT_SHORT | RATE_LIMIT_LONG | QUOTA_EXHAUSTED | SERVICE_UNAVAILABLE_503 | SITE_OVERLOADED_529
  | MODEL_CAPACITY_EXHAUSTED | SERVER_ERROR | UNKNOWN => true
  | _ => false
  end.
(** [None] when it is over: the vector is limited already or the error will not pass. *)
Definition mark_start (providerId accountId modelId : jsstr) (error : option thrown) (n1 n2 n3 : Z) (k : count_clocks) (σ : trackers) :
    option pending * trackers :=
  let '(limited, t) := isRateLimited accountId providerId (Some modelId) n1 n2 n3 (tracker_of σ) in
  let σ := with_tracker t σ in
  if limited then (None, σ)
  else
    let details := match error with Some e => extractRateLimitDetails e | None => (RATE_LIMIT_EXCEEDED, None) end in
    if isTemporary details.1 then
      let '(p, σ) := classify providerId accountId modelId details k σ in (Some p, σ)
    else (None, σ).

(** ** The wait: after the quota *)

Definition at_capacity (why : RateLimitReason) : bool :=
  match why with SERVICE_UNAVAILABLE_503 | SITE_OVERLOADED_529 | MODEL_CAPACITY_EXHAUSTED => true | _ => false end.
Definition guardrail (why : RateLimitReason) (backoffMs : Q) : Q :=
  if at_capacity why && negb (Qle_bool (inject_Z MODEL_CAPACITY_MIN_BACKOFF_MS) backoffMs)
  then inject_Z MODEL_CAPACITY_MIN_BACKOFF_MS else backoffMs.
Definition apply_strategy (providerId accountId modelId : jsstr) (p : pending) (answer : quota_answer) (c : infer_clocks) (σ : trackers) :
    JudgeResult * trackers :=
  match getBackoffStrategy providerId with
  | cockpit =>
      let '(b, used) :=
        if bool_decide (p_reason p = TOKEN_REFRESH_FAILED) then (p_backoff p, false) else fetchCockpitBackoff providerId answer (p_backoff p) in
      (mkResult (p_reason p) (guardrail (p_reason p) b) (if used then from_cockpit else error_response) (p_daily p), σ)
  | counter =>
      let '((b, s, adjusted), mem) := inferFromRequestLog providerId accountId modelId (p_reason p) (p_backoff p) c (requests_of σ) in
      (mkResult (p_reason p) (guardrail (p_reason p) (if adjusted then b else p_backoff p)) (if adjusted then s else error_response) (p_daily p),
       with_requests mem σ)
  | passive => (mkResult (p_reason p) (guardrail (p_reason p) (p_backoff p)) error_response (p_daily p), σ)
  end.

Section judge.
Context (config : HealthScoreConfig).

(** [Account.recordRateLimit]: two clocks for the score, one for the mark. *)
Definition recordRateLimit (accountId provider : jsstr) (why : RateLimitReason) (backoffMs : Q) (m : option jsstr) (h1 h2 n : Z)
    (σ : trackers) : trackers :=
  let σ := with_health (Health.recordRateLimit config accountId provider m h1 h2 (health_of σ)) σ in
  with_tracker (RateLimits.markRateLimited accountId provider why (Qceiling backoffMs) m n (tracker_of σ)) σ.
Definition judge_end (providerId accountId modelId : jsstr) (p : pending) (answer : quota_answer) (c : infer_clocks) (h1 h2 n : Z)
    (σ : trackers) : JudgeResult * trackers :=
  let '(r, σ) := apply_strategy providerId accountId modelId p answer c σ in
  (r, recordRateLimit accountId providerId (j_reason r) (j_backoffMs r) (Some modelId) h1 h2 n σ).
(** The mark of the model, and that of the provider when the reason calls for it; one clock each. *)
Definition mark_end (providerId accountId modelId : jsstr) (p : pending) (answer : quota_answer) (c : infer_clocks) (n n' : Z)
    (σ : trackers) : JudgeResult * trackers :=
  let '(r, σ) := apply_strategy providerId accountId modelId p answer c σ in
  let t := RateLimits.markRateLimited accountId providerId (j_reason r) (Qceiling (j_backoffMs r)) (Some modelId) n (tracker_of σ) in
  let t := if shouldPromoteToProviderCooldown (j_reason r) (j_backoffMs r)
    then RateLimits.markRateLimited accountId providerId (j_reason r) (Qceiling (Qmax (j_backoffMs r) (inject_Z PROVIDER_COOLDOWN_MIN_MS))) None n' t
    else t in
  (r, with_tracker t σ).

Definition recordSuccess (providerId accountId modelId : jsstr) (h1 h2 : Z) (σ : trackers) : trackers :=
  let σ := with_health (Health.recordSuccess config accountId providerId None h1 h2 (health_of σ)) σ in
  with_tracker (RateLimits.clear accountId providerId (Some modelId) (tracker_of σ)) σ.
(** Also says whether the account is to be marked as one that needs a login. *)
Definition recordAuthFailure (providerId accountId modelId : jsstr) (error : thrown) (h1 h2 n : Z) (σ : trackers) : bool * trackers :=
  let σ := with_health (Health.recordFailure config accountId providerId None h1 h2 (health_of σ)) σ in
  (isTokenInvalidated error,
   with_tracker (RateLimits.markRateLimited accountId providerId AUTH_FAILED 3600000 (Some modelId) n (tracker_of σ)) σ).
End judge.

Definition formatRateLimitReason (why : RateLimitReason) : jsstr :=
  js (match why with
      | QUOTA_EXHAUSTED => "Quota exhausted" | RATE_LIMIT_EXCEEDED => "Rate limit exceeded" | RATE_LIMIT_SHORT => "RPM/TPM limit"
      | RATE_LIMIT_LONG => "Daily limit" | SERVICE_UNAVAILABLE_503 => "Service unavailable (503)"
      | SITE_OVERLOADED_529 => "Site overloaded (529)" | MODEL_CAPACITY_EXHAUSTED => "Model at capacity"
      | SERVER_ERROR => "Server error" | AUTH_FAILED => "Authentication failed" | TOKEN_REFRESH_FAILED => "Token refresh failed"
      | _ => "Rate limited"
      end)%string.

(** ** What each tracker leaves of the other's part of the file *)

Lemma tracker_persist_frame t : accountHealth (seen (store (persistToFile t))) = accountHealth (seen (store t)).
Proof.
  unfold persistToFile. pose proof (seen_read (store t)) as Hs. unfold seen in Hs at 2.
  destruct (readUnifiedState (store t)) as [s d] eqn:E. simpl in *. destruct (writable d) eqn:Ew.
  - rewrite seen_write by done. unfold seen. by rewrite E.
  - unfold writeUnifiedState. rewrite Ew, Hs. unfold seen. by rewrite E.
Qed.
Lemma tracker_load_frame t : accountHealth (seen (store (loadFromFile t))) = accountHealth (seen (store t)).
Proof. unfold loadFromFile. pose proof (seen_read (store t)) as Hs. destruct (readUnifiedState (store t)) as [s d]. simpl in *. by rewrite Hs. Qed.
Lemma mark_frame a p w b m n t : accountHealth (seen (store (RateLimits.markRateLimited a p w b m n t))) = accountHealth (seen (store t)).
Proof. unfold RateLimits.markRateLimited. rewrite tracker_persist_frame. apply tracker_load_frame. Qed.
Lemma clear_frame a p m t : accountHealth (seen (store (RateLimits.clear a p m t))) = accountHealth (seen (store t)).
Proof. unfold RateLimits.clear. case_match; [rewrite tracker_persist_frame |]; apply tracker_load_frame. Qed.

Lemma health_persist_frame h : rateLimits (seen (file_of (persist h))) = rateLimits (seen (file_of h)) ∧
  writable (file_of (persist h)) = writable (file_of h).
Proof.
  unfold persist. pose proof (seen_read (file_of h)) as Hs. pose proof (writable_read (file_of h)) as Hw. unfold seen in Hs at 2.
  destruct (readUnifiedState (file_of h)) as [s d] eqn:E. simpl in *. rewrite writable_write. split; [| done]. destruct (writable d) eqn:Ew.
  - rewrite seen_write by done. unfold seen. by rewrite E.
  - unfold writeUnifiedState. rewrite Ew, Hs. unfold seen. by rewrite E.
Qed.
Lemma health_load_frame h : rateLimits (seen (file_of (Health.load h))) = rateLimits (seen (file_of h)) ∧
  writable (file_of (Health.load h)) = writable (file_of h).
Proof.
  unfold Health.load. pose proof (seen_read (file_of h)) as Hs. pose proof (writable_read (file_of h)) as Hw.
  destruct (readUnifiedState (file_of h)) as [s d]. simpl in *. by rewrite Hs.
Qed.
Lemma health_getScore_frame cfg a p m now h : rateLimits (seen (file_of (getScore cfg a p m now h).2)) = rateLimits (seen (file_of h)) ∧
  writable (file_of (getScore cfg a p m now h).2) = writable (file_of h).
Proof. apply health_load_frame. Qed.
Lemma penalty_frame cfg q a p m n n' h : rateLimits (seen (file_of (record_penalty cfg q a p m n n' h))) = rateLimits (seen (file_of h)) ∧
  writable (file_of (record_penalty cfg q a p m n n' h)) = writable (file_of h).
Proof.
  unfold record_penalty. pose proof (health_getScore_frame cfg a p m n' (Health.load h)) as [G1 G2]. pose proof (health_load_frame h) as [L1 L2].
  destruct (getScore cfg a p m n' (Health.load h)) as [c h2]. cbn [snd] in *.
  match goal with |- context [persist ?x] => destruct (health_persist_frame x) as [-> ->] end. cbn [file_of]. by rewrite G1, G2.
Qed.
Lemma shows_frame now t t' A : rateLimits (seen (store t')) = rateLimits (seen (store t)) → writable (store t') = writable (store t) →
  shows now t A → shows now t' A.
Proof. intros H1 H2 [Hw Ha]. split; [by rewrite H2 | by rewrite H1]. Qed.
Lemma apply_strategy_file p a m pd answer c σ : state_file (apply_strategy p a m pd answer c σ).2 = state_file σ.
Proof.
  unfold apply_strategy. destruct (getBackoffStrategy p); [| | done].
  - destruct (if bool_decide _ then _ else _) as [b u]. done.
  - destruct (inferFromRequestLog _ _ _ _ _ _ _) as [[[b s] adj] mem]. done.
Qed.

(** ** Theorems *)

(** The mark that a judgement leaves. *)
Definition mark_of (p a m : jsstr) (r : JudgeResult) (n : Z) : entries → entries :=
  put (makeKey p a) (modelKey p (Some m)) (Some (RateLimit (n + Qceiling (j_backoffMs r)) (j_reason r) (Some m))).
Lemma judge_end_shows cfg p a m pd answer c h1 h2 n now σ A : shows now (tracker_of σ) A → now <= n →
  shows n (tracker_of (judge_end cfg p a m pd answer c h1 h2 n σ).2) (mark_of p a m (judge_end cfg p a m pd answer c h1 h2 n σ).1 n A).
Proof.
  intros Hs Hn. unfold judge_end. pose proof (apply_strategy_file p a m pd answer c σ) as Hf.
  destruct (apply_strategy p a m pd answer c σ) as [r σ1]. cbn [fst snd] in *. unfold recordRateLimit, with_tracker, tracker_of. cbn [limits store].
  set (h := Health.recordRateLimit cfg a p (Some m) h1 h2 (health_of σ1)).
  pose proof (mark_shows now a p (j_reason r) (Qceiling (j_backoffMs r)) (Some m) n (Tracker (limits_of (with_health h σ1)) (state_file (with_health h σ1))) A) as G.
  cbn [spec_after] in G. unfold mark_of. eapply shows_frame; [| | apply G; [| done]]; [done | done |].
  destruct (penalty_frame cfg (rateLimitPenalty cfg) a p (Some m) h1 h2 (health_of σ1)) as [F1 F2].
  eapply shows_frame; [| | exact Hs]; cbn [with_health state_file store tracker_of].
  - unfold h, Health.recordRateLimit. rewrite F1. cbn [health_of file_of]. by rewrite Hf.
  - unfold h, Health.recordRateLimit. rewrite F2. cbn [health_of file_of]. by rewrite Hf.
Qed.

(** An error that was judged limits its vector at once, so the mark that
    follows the fallback does nothing as long as that limit lasts: it is not
    counted twice, and neither does it limit the account for all models, whatever
    the reason of the error. *)
Theorem judged_not_promoted cfg p a m pd answer c h1 h2 n now σ A err n1 n2 n3 k :
  shows now (tracker_of σ) A → now <= n → m ≠ [] → n <= n1 → n1 <= n2 → n1 <= n3 →
  let '(r, σ') := judge_end cfg p a m pd answer c h1 h2 n σ in
  n2 < n + Qceiling (j_backoffMs r) →
  let '(marked, σ'') := mark_start p a m err n1 n2 n3 k σ' in
  marked = None ∧ shows n1 (tracker_of σ'') (mark_of p a m r n A) ∧ mark_of p a m r n A (makeKey p a) p = A (makeKey p a) p.
Proof.
  intros Hs Hn Hm H1 H2 H3. pose proof (judge_end_shows cfg p a m pd answer c h1 h2 n now σ A Hs Hn) as G.
  destruct (judge_end cfg p a m pd answer c h1 h2 n σ) as [r σ']. cbn [fst snd] in G. intros Hb. unfold mark_start.
  destruct (check_spec n a p (Some m) n1 n2 n3 (tracker_of σ') _ G H1 H2 H3) as [E Hs'].
  destruct (isRateLimited a p (Some m) n1 n2 n3 (tracker_of σ')) as [limited t]. cbn [fst snd] in *.
  assert (given (Some m) = Some m) as Hg by (by destruct m). cbn [spec_obs] in E. unfold spec_model in E. rewrite Hg in E.
  assert (mark_of p a m r n A (makeKey p a) (modelKey p (Some m)) = Some (RateLimit (n + Qceiling (j_backoffMs r)) (j_reason r) (Some m))) as Em
    by (unfold mark_of, put; by rewrite bool_decide_true).
  assert (limited = true) as ->.
  { injection E as ->. apply orb_true_iff. left. apply bool_decide_eq_true. rewrite Em. unfold alive. cbn [mbind option_bind].
    unfold live. cbn [resetTime]. rewrite (proj2 (Z.ltb_lt _ _) Hb). eauto. }
  split; [done |]. split; [done |]. unfold mark_of, put. rewrite bool_decide_false; [done |].
  intros [_ Ek]. unfold modelKey in Ek. rewrite Hg in Ek. apply (f_equal length) in Ek. rewrite !length_app in Ek. cbn in Ek. lia.
Qed.

(** A mark with a reason for it limits the account for every model of the
    provider for at least five hours. *)
Theorem promotion_covers_models p a m pd answer c n n' now σ A : shows now (tracker_of σ) A → now <= n → n <= n' →
  let '(r, σ') := mark_end p a m pd answer c n n' σ in
  shouldPromoteToProviderCooldown (j_reason r) (j_backoffMs r) = true →
  ∀ m' c1 c2 c3, n' <= c1 → c1 <= c2 → c1 <= c3 → c3 < n' + PROVIDER_COOLDOWN_MIN_MS →
  (isRateLimited a p m' c1 c2 c3 (tracker_of σ')).1 = true.
Proof.
  intros Hs Hn Hn'. unfold mark_end. pose proof (apply_strategy_file p a m pd answer c σ) as Hf.
  destruct (apply_strategy p a m pd answer c σ) as [r σ1]. cbn [fst snd] in *. intros ->.
  assert (shows now (tracker_of σ1) A) as Hs1 by (eapply shows_frame; [| | exact Hs]; cbn; by rewrite Hf).
  set (b := Qceiling (Qmax (j_backoffMs r) (inject_Z PROVIDER_COOLDOWN_MIN_MS))).
  assert (PROVIDER_COOLDOWN_MIN_MS <= b) as Hb.
  { unfold b. rewrite <- (Qceiling_Z PROVIDER_COOLDOWN_MIN_MS) at 1. apply Qceiling_resp_le, Q.le_max_r. }
  pose proof (mark_shows now a p (j_reason r) (Qceiling (j_backoffMs r)) (Some m) n (tracker_of σ1) A Hs1 Hn) as G.
  apply (mark_shows n a p (j_reason r) b None n') in G; [| done].
  intros m' c1 c2 c3 H1 H2 H3 H4. match type of G with shows _ ?t ?B => set (t1 := t) in *; set (B1 := B) in * end.
  assert (shows n' (tracker_of (with_tracker t1 σ1)) B1) as G' by (eapply shows_frame; [| | exact G]; done).
  destruct (check_spec n' a p m' c1 c2 c3 _ B1 G' H1 H2 H3) as [E _].
  injection E as E. rewrite E. apply orb_true_iff. right. apply bool_decide_eq_true.
  assert (B1 (makeKey p a) p = Some (RateLimit (n' + b) (j_reason r) None)) as ->.
  { unfold B1. cbn [spec_after]. unfold put at 1. change (modelKey p None) with p. by rewrite bool_decide_true. }
  unfold alive. cbn [mbind option_bind]. unfold live. cbn [resetTime]. rewrite (proj2 (Z.ltb_lt _ _)) by lia. eauto.
Qed.

(** A key with a model is longer than one without. *)
Lemma healthKey_model p a m : m ≠ [] → healthKey p a None ≠ healthKey p a (Some m).
Proof.
  intros Hm E. assert (given (Some m) = Some m) as Hg by (by destruct m). unfold healthKey in E. rewrite Hg in E. cbn [given] in E.
  assert (length m ≠ 0)%nat by (by destruct m). apply (f_equal length) in E. unfold makeKey in E.
  destruct (_ || _); rewrite ?length_app in E; cbn in E; lia.
Qed.
(** A success of a model does not end the row of its failures, which chooses
    the next wait: it is recorded under the account, the failures under the model. *)
Theorem success_keeps_failures cfg p a m h1 h2 σ : writable (state_file σ) = true → m ≠ [] →
  (getConsecutiveFailures a p (Some m) (health_of (recordSuccess cfg p a m h1 h2 σ))).1 =
  (getConsecutiveFailures a p (Some m) (health_of σ)).1.
Proof.
  intros Hw Hm. assert (∀ h, (getConsecutiveFailures a p (Some m) h).1 =
    match on_file h !! healthKey p a (Some m) with Some s => consecutiveFailures s | None => 0 end) as G.
  { intros h. unfold getConsecutiveFailures. cbn [fst]. by destruct (load_on_file h) as [-> _]. }
  rewrite !G. set (h := Health.recordSuccess cfg a p None h1 h2 (health_of σ)).
  assert (on_file (health_of (recordSuccess cfg p a m h1 h2 σ)) = on_file h) as ->.
  { unfold on_file, recordSuccess, with_tracker, health_of, tracker_of. cbn [file_of state_file]. apply clear_frame. }
  destruct (record_on_file cfg (Health.Success a p None h1 h2) (health_of σ) Hw) as [E _]. cbn [record] in E. fold h in E. rewrite E.
  cbn [key_of Health.key_of]. rewrite lookup_partial_alter_ne; [done |]. by apply healthKey_model.
Qed.

(** At a provider whose requests are counted, any error but one that names a
    limit a minute waits for the reset of the day when the minute is not full: an
    overload of seconds too, and whatever the provider said to wait. *)
Theorem counted_waits_for_reset p a m pd answer c σ : getBackoffStrategy p = counter → p_reason pd ≠ RATE_LIMIT_SHORT →
  rpm (getStats p a m (i_now c) (i_now1 c) (requests_of σ)).1 < l_rpm (getModelLimits p m) →
  j_backoffMs (apply_strategy p a m pd answer c σ).1 = inject_Z (Z.max (getNextQuotaReset (i_now2 c) - i_now3 c) 60000).
Proof.
  intros Hp Hr Hl. unfold apply_strategy, inferFromRequestLog. rewrite Hp. destruct (getStats _ _ _ _ _ _) as [stats mem]. cbn [fst] in Hl.
  rewrite (proj2 (Z.ltb_lt _ _) Hl), bool_decide_false by done. cbn [andb negb fst j_backoffMs]. unfold guardrail.
  assert (Qle_bool (inject_Z MODEL_CAPACITY_MIN_BACKOFF_MS) (inject_Z (Z.max (getNextQuotaReset (i_now2 c) - i_now3 c) 60000)) = true) as ->.
  { apply Qle_bool_iff. rewrite <- Zle_Qle. unfold MODEL_CAPACITY_MIN_BACKOFF_MS. lia. }
  by rewrite andb_false_r.
Qed.

(** ** Witnesses *)

Definition demo_trackers : trackers := mkTrackers ∅ ∅ (Disk Absent Absent Absent true) ∅.
Definition demo_clocks : infer_clocks := mkInfer 0 0 0 0.
Lemma empty_shows : shows 0 (tracker_of demo_trackers) (λ _ _, None).
Proof. split; [done |]. intros k i n _. unfold look. by vm_compute. Qed.

Lemma judged_not_promoted_witness :
  let p := js "codex" in let a := js "a" in let m := js "gpt-5" in let pd := mkPending QUOTA_EXHAUSTED 1 60000 in
  let q := Quota (mkQuota 0 50 None) in
  let '(r, σ') := judge_end DEFAULT_HEALTH_SCORE_CONFIG p a m pd q demo_clocks 0 0 10 demo_trackers in
  let '(marked, σ'') := mark_start p a m None 20 20 20 (mkCount 0 0 0 0 0) σ' in
  marked = None ∧ shows 20 (tracker_of σ'') (mark_of p a m r 10 (λ _ _, None)) ∧
  mark_of p a m r 10 (λ _ _, None) (makeKey p a) p = None.
Proof.
  cbv zeta. pose proof (judged_not_promoted DEFAULT_HEALTH_SCORE_CONFIG (js "codex") (js "a") (js "gpt-5") (mkPending QUOTA_EXHAUSTED 1 60000)
    (Quota (mkQuota 0 50 None)) demo_clocks 0 0 10 0 demo_trackers (λ _ _, None) None 20 20 20 (mkCount 0 0 0 0 0) empty_shows) as G.
  assert (20 < 10 + Qceiling (j_backoffMs (judge_end DEFAULT_HEALTH_SCORE_CONFIG (js "codex") (js "a") (js "gpt-5") (mkPending QUOTA_EXHAUSTED 1 60000)
    (Quota (mkQuota 0 50 None)) demo_clocks 0 0 10 demo_trackers).1)) as Hb by (by vm_compute).
  destruct (judge_end _ _ _ _ _ _ _ _ _ _ _) as [r σ']. apply G; [lia | done | lia | lia | lia | exact Hb].
Defined.

Lemma promotion_covers_models_witness :
  (isRateLimited (js "a") (js "claude-cli") (Some (js "another")) 9000000 9000000 9000000
    (tracker_of (mark_end (js "claude-cli") (js "a") (js "opus") (mkPending QUOTA_EXHAUSTED 1 60000) NoQuota demo_clocks 10 10 demo_trackers).2)).1
  = true.
Proof.
  pose proof (promotion_covers_models (js "claude-cli") (js "a") (js "opus") (mkPending QUOTA_EXHAUSTED 1 60000) NoQuota demo_clocks 10 10 0
    demo_trackers (λ _ _, None) empty_shows) as G.
  assert (shouldPromoteToProviderCooldown
    (j_reason (mark_end (js "claude-cli") (js "a") (js "opus") (mkPending QUOTA_EXHAUSTED 1 60000) NoQuota demo_clocks 10 10 demo_trackers).1)
    (j_backoffMs (mark_end (js "claude-cli") (js "a") (js "opus") (mkPending QUOTA_EXHAUSTED 1 60000) NoQuota demo_clocks 10 10 demo_trackers).1)
    = true) as Hp by done.
  destruct (mark_end _ _ _ _ _ _ _ _ _) as [r σ']. apply G; [lia | lia | exact Hp | lia | lia | lia | by vm_compute].
Defined.

(** Two overloads in a row, a success, and the row goes on. *)
Definition two_overloads : trackers :=
  let judged n := judge_end DEFAULT_HEALTH_SCORE_CONFIG (js "copilot") (js "a") (js "m") (mkPending SITE_OVERLOADED_529 1 20000) NoQuota demo_clocks n n n in
  (judged 100000 (judged 0 demo_trackers).2).2.
Lemma success_keeps_failures_witness :
  (getConsecutiveFailures (js "a") (js "copilot") (Some (js "m"))
    (health_of (recordSuccess DEFAULT_HEALTH_SCORE_CONFIG (js "copilot") (js "a") (js "m") 200000 200000 two_overloads))).1 =
  (getConsecutiveFailures (js "a") (js "copilot") (Some (js "m")) (health_of two_overloads)).1.
Proof. apply success_keeps_failures; [by vm_compute | done]. Defined.
Example two_in_a_row : (getConsecutiveFailures (js "a") (js "copilot") (Some (js "m"))
  (health_of (recordSuccess DEFAULT_HEALTH_SCORE_CONFIG (js "copilot") (js "a") (js "m") 200000 200000 two_overloads))).1 = 2.
Proof. by vm_compute. Qed.

(** Overloaded for a moment at midnight UTC: eight hours of waiting. *)
Lemma counted_waits_for_reset_witness :
  j_backoffMs (apply_strategy (js "gemini-cli") (js "a") (js "gemini-3-pro-preview") (mkPending SITE_OVERLOADED_529 1 20000) NoQuota demo_clocks
    demo_trackers).1 = inject_Z (8 * 60 * 60 * 1000).
Proof.
  etransitivity; [apply counted_waits_for_reset; [reflexivity | done | by vm_compute] | by vm_compute].
Defined.
