(* ===== verification/Dialog.v ===== *)
(** * Messages and the dialog of an anchor ([session/dialog-serializer.ts])

    The messages of a session as far as the compaction of its context looks at
    them, and the text that older rounds are replaced by.  Part identifiers are
    left out: the parts of a message are in their order. *)
From stdpp Require Import base list.
From S2P Require Import Prelude JsString Json.
Open Scope Z_scope.

(** ** Messages ([session/message-v2.ts]) *)

Inductive role := user | assistant.
#[export] Instance role_eq_dec : EqDecision role.
Proof. solve_decision. Defined.
Inductive finish_reason := stop | tool_calls | length_limit | other_finish (name : jsstr).
#[export] Instance finish_reason_eq_dec : EqDecision finish_reason.
Proof. solve_decision. Defined.
Record token_counts := mkTokens { total : option Z; input : Z; output : Z; cache_read : Z; cache_write : Z }.
Definition no_tokens : token_counts := mkTokens None 0 0 0 0.

Inductive tool_status := pending | running | completed | errored | aborted.
Record tool_part := mkTool {
  callID : jsstr; tool : jsstr; status : tool_status; tool_input : option json; tool_output : option jsstr; tool_error : option jsstr
}.
(** A text that was replayed after an anchor is tagged; [Compaction] has the
    rounds that stay as they are before the anchor. *)
Inductive part :=
| Text (text : jsstr) (replayed : bool)
| Tool (t : tool_part)
| CompactionRequest
| Compaction (rawTail : option Z)
| OtherPart.

(** The last three only mean something for an assistant. *)
Record info := mkInfo {
  id : jsstr; msg_role : role; created : Z; summary : bool; finish : option finish_reason; tokens : token_counts
}.
Record message := mkMessage { msg_info : info; parts : list part }.
Definition role_of (m : message) : role := msg_role (msg_info m).
Definition id_of (m : message) : jsstr := id (msg_info m).

(** ** Rounds *)

Definition part_text (p : part) : list jsstr := match p with Text ((_ :: _) as t) _ => [t] | _ => [] end.
Definition userMessageText (m : message) : jsstr := trim (join [newline] (flat_map part_text (parts m))).
Definition collectText (ps : list part) : jsstr := trim (join [newline] (flat_map part_text ps)).
Definition renderAssistantParts (m : message) : list jsstr :=
  match collectText (parts m) with [] => [] | t => [js "**Assistant**"; t] end.

Record RoundDraft := mkRound { number : Z; userMessage : message; assistantMessages : list message }.
Definition blank_line : jsstr := [newline; newline].
Definition round_header (n : Z) : jsstr := js "## Round " ++ show_Z n.
Definition renderRound (r : RoundDraft) : jsstr :=
  join blank_line ([round_header (number r); js "**User**";
    match userMessageText (userMessage r) with [] => js "_(empty)_" | t => t end] ++ flat_map renderAssistantParts (assistantMessages r)).

Definition opened (current : option RoundDraft) : list RoundDraft := match current with Some r => [r] | None => [] end.
(** Messages before the first of a user are in no round. *)
Fixpoint rounds_from (n : Z) (current : option RoundDraft) (ms : list message) : list RoundDraft :=
  match ms with
  | [] => opened current
  | m :: ms' =>
      match role_of m with
      | user => opened current ++ rounds_from (n + 1) (Some (mkRound n m [])) ms'
      | assistant =>
          rounds_from n ((λ r, mkRound (number r) (userMessage r) (assistantMessages r ++ [m])) <$> current) ms'
      end
  end.

Record SerializeOptions := mkSerialize { startRound : Z; excludeUserMessageID : option jsstr; omitLastRounds : Z }.
Record SerializeResult := mkSerialized { text : jsstr; lastRound : Z; messagesEmitted : Z }.
Definition eligible (exclude : option jsstr) (rs : list RoundDraft) : list RoundDraft :=
  match exclude with
  | Some ((_ :: _) as e) => filter (λ r, id_of (userMessage r) ≠ e) rs
  | _ => rs
  end.
Definition drop_last (n : Z) (rs : list RoundDraft) : list RoundDraft := take (length rs - Z.to_nat n) rs.
Definition round_messages (r : RoundDraft) : Z := 1 + Z.of_nat (length (assistantMessages r)).
Definition serializeRedactedDialog (ms : list message) (o : SerializeOptions) : SerializeResult :=
  let start := Z.max 1 (startRound o) in
  let rs := drop_last (omitLastRounds o) (eligible (excludeUserMessageID o) (rounds_from start None ms)) in
  let lst := foldl (λ _ r, number r) (start - 1) rs in
  mkSerialized (join blank_line (map renderRound rs)) (if lst <? start - 1 then 0 else Z.max lst 0)
    (foldl (λ k r, k + round_messages r) 0 rs).

(** ** What is not answered yet *)

(** The index of the last message of a user from [start] on. *)
Definition last_user_from (start : nat) (ms : list message) : option nat :=
  foldl (λ found i, match ms !! i with Some m => if bool_decide (role_of m = user) then Some i else found | None => found end)
    None (seq start (length ms - start)).
Definition findUnansweredUserMessageId (ms : list message) (prevAnchorIdx : option nat) : option jsstr :=
  let start := match prevAnchorIdx with Some i => S i | None => O end in
  match last_user_from start ms with
  | None => None
  | Some i =>
      match find (λ m, bool_decide (role_of m = assistant)) (drop (S i) ms) with
      | Some child =>
          match finish (msg_info child) with
          | Some stop | Some tool_calls | Some length_limit => None
          | _ => id_of <$> ms !! i
          end
      | None => id_of <$> ms !! i
      end
  end.

(** ** Round numbers in a text *)

(** Where [^] and [$] of a multi-line pattern match. *)
Definition is_terminator (c : N) : bool := ((c =? 10) || (c =? 13) || (c =? 8232) || (c =? 8233))%N.
Fixpoint text_lines (s : jsstr) : list jsstr :=
  match s with
  | [] => [[]]
  | c :: s' =>
      if is_terminator c then [] :: text_lines s'
      else match text_lines s' with l :: ls => (c :: l) :: ls | [] => [[c]] end
  end.
(** A line that [/^## Round (\d+)\s*$/] matches, and the number; that [\s*] may
    also take the lines that follow changes nothing. *)
Definition header_number (l : jsstr) : option Z :=
  if startsWith l (js "## Round ") then
    let '(ds, rest) := span_digits (drop 9 l) in
    match ds with
    | [] => None
    | _ => if forallb is_space rest then Some (digits_value 0 ds) else None
    end
  else None.
Definition parsePrevLastRound (body : jsstr) : Z := foldl Z.max 0 (omap header_number (text_lines body)).

(** ** The body of the next anchor ([compaction.ts], [tryLocalRedactedDialog]) *)

Definition or_text (a b : jsstr) : jsstr := match a with [] => b | _ => a end.
(** The text of the anchor before, and what was written since. *)
Definition narrative_body (prevBody : jsstr) (tail : list message) (unanswered : option jsstr) (omit : Z) : jsstr :=
  let tailText := text (serializeRedactedDialog tail (mkSerialize (parsePrevLastRound prevBody + 1) unanswered omit)) in
  match prevBody, tailText with
  | _ :: _, _ :: _ => prevBody ++ blank_line ++ tailText
  | _, _ => or_text prevBody tailText
  end.

(** ** Lines and headers *)

Definition headers (s : jsstr) : list Z := omap header_number (text_lines s).
Lemma text_lines_ne s : text_lines s ≠ [].
Proof. destruct s as [| c s]; cbn; [done |]. destruct (is_terminator c); [done |]. by destruct (text_lines s). Qed.
Lemma text_lines_app a t b : is_terminator t = true → text_lines (a ++ t :: b) = text_lines a ++ text_lines b.
Proof.
  intros Ht. induction a as [| c a IH]; cbn [app text_lines]; [by rewrite Ht |].
  rewrite IH. destruct (is_terminator c); [done |]. pose proof (text_lines_ne a). by destruct (text_lines a).
Qed.
Lemma text_lines_flat s : Forall (λ c, is_terminator c = false) s → text_lines s = [s].
Proof. induction 1 as [| c s Hc Hs IH]; [done |]. cbn [text_lines]. by rewrite Hc, IH. Qed.
Lemma headers_app a b : headers (a ++ newline :: b) = headers a ++ headers b.
Proof. unfold headers. by rewrite text_lines_app, omap_app. Qed.
Lemma headers_nil : headers [] = [].
Proof. done. Qed.
Lemma headers_blank a b : headers (a ++ blank_line ++ b) = headers a ++ headers b.
Proof. unfold blank_line. cbn [app]. rewrite headers_app. change (newline :: b) with ([] ++ newline :: b). by rewrite headers_app. Qed.
Lemma headers_join ls : headers (join blank_line ls) = flat_map headers ls.
Proof.
  induction ls as [| l ls IH]; [done |]. destruct ls as [| l' ls]; [cbn; by rewrite app_nil_r |].
  change (join blank_line (l :: l' :: ls)) with (l ++ blank_line ++ join blank_line (l' :: ls)). by rewrite headers_blank, IH.
Qed.
Lemma digit_flat c : is_digit c = true → is_terminator c = false.
Proof. unfold is_digit, is_terminator. intros [H1%N.leb_le H2%N.leb_le]%andb_true_iff. rewrite !orb_false_iff, !N.eqb_neq. lia. Qed.
Lemma show_Z_digits n : 0 <= n → Forall (λ c, is_digit c = true) (show_Z n) ∧ digits_value 0 (show_Z n) = n ∧ show_Z n ≠ [].
Proof.
  intros Hn. unfold show_Z. rewrite (proj2 (Z.ltb_ge _ _)) by lia.
  destruct (show_nonneg n Hn) as (ds & -> & Hd & Hv & Hne). split; [done |]. split; [done |]. by destruct ds.
Qed.
Lemma headers_round n : 0 <= n → headers (round_header n) = [n].
Proof.
  intros Hn. destruct (show_Z_digits n Hn) as (Hd & Hv & Hne). unfold headers, round_header. rewrite text_lines_flat.
  - cbn [omap list_omap]. unfold header_number. rewrite startsWith_app. change (drop 9 (js "## Round " ++ show_Z n)) with (show_Z n).
    rewrite span_digits_all by done. destruct (show_Z n); [done |]. cbn [forallb]. by rewrite Hv.
  - apply Forall_app. split; [by repeat constructor |]. eapply Forall_impl; [exact Hd | apply digit_flat].
Qed.

(** Nothing that was said looks like a header. *)
Definition quiet_message (m : message) : Prop := headers (collectText (parts m)) = [].
Lemma headers_assistants ms : Forall quiet_message ms → flat_map headers (flat_map renderAssistantParts ms) = [].
Proof.
  induction 1 as [| m ms Hm Hms IH]; [done |]. cbn [flat_map]. rewrite flat_map_app, IH, app_nil_r.
  unfold renderAssistantParts. unfold quiet_message in Hm. destruct (collectText (parts m)) eqn:E; [done |]. cbn [flat_map]. by rewrite Hm.
Qed.
Definition quiet_round (r : RoundDraft) : Prop := quiet_message (userMessage r) ∧ Forall quiet_message (assistantMessages r).
Lemma headers_render r : 0 <= number r → quiet_round r → headers (renderRound r) = [number r].
Proof.
  intros Hn [Hu Ha]. unfold renderRound. rewrite headers_join, flat_map_app, headers_assistants by done.
  cbn [flat_map]. rewrite headers_round by done.
  change (headers (userMessageText (userMessage r)) = []) in Hu.
  destruct (userMessageText (userMessage r)); [done |]. by rewrite Hu.
Qed.

(** ** The rounds of a longer history *)

Fixpoint users (ms : list message) : Z :=
  match ms with [] => 0 | m :: ms' => (match role_of m with user => 1 | assistant => 0 end) + users ms' end.
Definition starts_user (ms : list message) : Prop := match ms with [] => True | m :: _ => role_of m = user end.
Lemma users_nonneg ms : 0 <= users ms.
Proof. induction ms as [| m ms IH]; cbn; [done |]. destruct (role_of m); lia. Qed.
Lemma starts_user_none ms : starts_user ms → users ms = 0 → ms = [].
Proof. destruct ms as [| m ms]; [done |]. cbn. intros ->. pose proof (users_nonneg ms). lia. Qed.
Lemma rounds_app n cur a b : starts_user b → rounds_from n cur (a ++ b) = rounds_from n cur a ++ rounds_from (n + users a) None b.
Proof.
  intros Hb. revert n cur. induction a as [| m a IH]; intros n cur.
  - cbn [app rounds_from users]. rewrite Z.add_0_r. destruct b as [| m b]; cbn [rounds_from] in *; [by rewrite app_nil_r |].
    cbn in Hb. by rewrite Hb.
  - cbn [app rounds_from users]. destruct (role_of m); rewrite IH; [rewrite <- app_assoc, Z.add_assoc | rewrite Z.add_0_l]; done.
Qed.
Lemma rounds_numbers n cur ms : map number (rounds_from n cur ms) = map number (opened cur) ++ seqZ n (users ms).
Proof.
  revert n cur. induction ms as [| m ms IH]; intros n cur; cbn [rounds_from users]; [by rewrite app_nil_r |].
  destruct (role_of m).
  - rewrite map_app, IH. cbn. rewrite (seqZ_cons n) by (pose proof (users_nonneg ms); lia). by rewrite Z.pred_succ || (do 3 f_equal; lia).
  - rewrite IH. by destruct cur.
Qed.
Lemma rounds_quiet n cur ms : Forall quiet_message ms → Forall quiet_round (opened cur) → Forall quiet_round (rounds_from n cur ms).
Proof.
  intros Hms. revert n cur. induction Hms as [| m ms Hm Hms IH]; intros n cur Hc; cbn [rounds_from]; [done |]. destruct (role_of m).
  - apply Forall_app. split; [done |]. apply IH. repeat constructor; done.
  - apply IH. destruct cur as [r |]; [| done]. cbn in *. inversion_clear Hc as [| ? ? [Hu Ha] _]. repeat constructor; [done |].
    apply Forall_app. by repeat constructor.
Qed.
Lemma drop_last_0 rs : drop_last 0 rs = rs.
Proof. unfold drop_last. by rewrite Nat.sub_0_r, firstn_all. Qed.
Lemma serialize_text ms n : text (serializeRedactedDialog ms (mkSerialize n None 0)) =
  join blank_line (map renderRound (rounds_from (Z.max 1 n) None ms)).
Proof. unfold serializeRedactedDialog. cbn [text excludeUserMessageID omitLastRounds startRound eligible]. by rewrite drop_last_0. Qed.
Lemma headers_serialized ms n : Forall quiet_message ms → 1 <= n →
  headers (text (serializeRedactedDialog ms (mkSerialize n None 0))) = seqZ n (users ms).
Proof.
  intros Hq Hn. rewrite serialize_text, Z.max_r, headers_join by done.
  transitivity (map number (rounds_from n None ms)); [| by rewrite rounds_numbers].
  assert (Forall (λ r, quiet_round r ∧ 0 <= number r) (rounds_from n None ms)) as H.
  { apply Forall_and. split; [by apply rounds_quiet |]. apply Forall_forall. intros r Hr.
    assert (number r ∈ map number (rounds_from n None ms)) as Hin by (by apply list_elem_of_fmap_2).
    rewrite rounds_numbers in Hin. apply elem_of_seqZ in Hin. lia. }
  induction H as [| r rs [Hr Hr0] Hrs IH]; [done |]. cbn [map flat_map]. by rewrite headers_render, IH.
Qed.
Lemma max_seqZ acc n k : 0 <= k → acc <= n → foldl Z.max acc (seqZ n k) = if k =? 0 then acc else n + k - 1.
Proof.
  intros Hk. revert acc n. pattern k. apply natlike_ind; [done | | done]. clear k Hk. intros k Hk IH acc n Ha.
  rewrite seqZ_cons by lia. rewrite Z.pred_succ. cbn [foldl]. rewrite IH by lia.
  destruct (Z.eqb_spec k 0), (Z.eqb_spec (Z.succ k) 0); lia.
Qed.
Lemma render_ne r : renderRound r ≠ [].
Proof. by unfold renderRound. Qed.
Lemma join_blank_nil rs : join blank_line (map renderRound rs) = [] → rs = [].
Proof.
  destruct rs as [| r rs]; [done |]. intros E. exfalso. apply (render_ne r). cbn [map] in E.
  destruct (map renderRound rs); [done |]. cbn [join] in E. by apply app_eq_nil in E as [-> _].
Qed.
Lemma join_app_sep sep (l1 l2 : list jsstr) : l1 ≠ [] → l2 ≠ [] → join sep (l1 ++ l2) = join sep l1 ++ sep ++ join sep l2.
Proof.
  intros H1 H2. induction l1 as [| x l1 IH]; [done |]. destruct l1 as [| y l1]; [cbn [app]; by rewrite join_cons_ne |].
  change ((x :: y :: l1) ++ l2) with (x :: (y :: l1) ++ l2). rewrite join_cons_ne by done. rewrite IH by done.
  change (join sep (x :: y :: l1)) with (x ++ sep ++ join sep (y :: l1)). by rewrite <- !app_assoc.
Qed.
Lemma split_join_app c ls r : Forall (λ l, c ∉ l) ls → ls ≠ [] → split_on c (join [c] ls ++ c :: r) = ls ++ split_on c r.
Proof.
  intros H Hne. induction H as [| l ls Hl Hls IH]; [done |]. destruct ls as [| l' ls]; [by apply split_app_no_sep |].
  change (join [c] (l :: l' :: ls)) with (l ++ c :: join [c] (l' :: ls)). rewrite <- app_assoc. cbn [app].
  rewrite split_app_no_sep by done. f_equal. by apply IH.
Qed.
Lemma parse_nonneg p : 0 <= parsePrevLastRound p.
Proof.
  unfold parsePrevLastRound. change (omap header_number (text_lines p)) with (headers p).
  assert (∀ l acc, acc <= foldl Z.max acc l) as H by (induction l as [| x l IH]; intros acc; cbn; [lia | etransitivity; [| apply IH]; lia]).
  apply H.
Qed.
Lemma parse_extended p ms : Forall quiet_message ms → ms ≠ [] → starts_user ms →
  let t := text (serializeRedactedDialog ms (mkSerialize (parsePrevLastRound p + 1) None 0)) in
  t ≠ [] ∧ parsePrevLastRound (match p with [] => t | _ => p ++ blank_line ++ t end) = parsePrevLastRound p + users ms.
Proof.
  intros Hq Hne Hs t. pose proof (parse_nonneg p) as Hp. pose proof (users_nonneg ms) as Hu. split.
  - subst t. rewrite serialize_text. intros E%join_blank_nil. apply Hne, starts_user_none; [done |].
    assert (map number (rounds_from (Z.max 1 (parsePrevLastRound p + 1)) None ms) = []) as E' by (by rewrite E).
    rewrite rounds_numbers in E'. cbn in E'. apply (f_equal length) in E'. rewrite length_seqZ in E'. cbn in E'. lia.
  - assert (∀ acc, acc = parsePrevLastRound p → foldl Z.max acc (headers t) = parsePrevLastRound p + users ms) as G.
    { intros acc ->. subst t. rewrite headers_serialized, max_seqZ by (done || lia). destruct (Z.eqb_spec (users ms) 0); lia. }
    destruct p as [| c p]; [by apply G |]. unfold parsePrevLastRound at 1. change (omap header_number (text_lines ?x)) with (headers x).
    rewrite headers_blank, foldl_app. by apply G.
Qed.
Lemma narrative_nil p o k : narrative_body p [] o k = p.
Proof.
  unfold narrative_body. assert (text (serializeRedactedDialog [] (mkSerialize (parsePrevLastRound p + 1) o k)) = []) as ->; [| by destruct p].
  unfold serializeRedactedDialog. cbn [text rounds_from opened excludeUserMessageID]. by destruct o as [[|]|].
Qed.


(** ** Examples *)

Definition msg (i : string) (r : role) (f : option finish_reason) (t : string) : message :=
  mkMessage (mkInfo (js i) r 0 false f no_tokens) [Text (js t) false].
Definition asked (i t : string) : message := msg i user None t.
Definition answered (i t : string) : message := msg i assistant (Some stop) t.
Definition first_turn : list message := [asked "m1" "hello"; answered "m2" "hi"].
Definition second_turn : list message := [asked "m3" "bye"; answered "m4" "ciao"].
Example two_turns : narrative_body (narrative_body [] first_turn None 0) second_turn None 0 =
  join blank_line (map js ["## Round 1"; "**User**"; "hello"; "**Assistant**"; "hi"; "## Round 2"; "**User**"; "bye"; "**Assistant**"; "ciao"]%string).
Proof. by vm_compute. Qed.
(** A line of a user that looks like a header moves the numbers on. *)
Example spoofed_round :
  narrative_body (narrative_body [] [asked "m1" "## Round 40"] None 0) [asked "m2" "next"] None 0 =
  join blank_line (map js ["## Round 1"; "**User**"; "## Round 40"; "## Round 41"; "**User**"; "next"]%string).
Proof. by vm_compute. Qed.
