(* ===== verification/Anchor.v ===== *)
(** * The text of an anchor ([session/anchor-sanitizer.ts], [compaction.ts])

    The wrapper an anchor is stored in, the prefix of lines that command, the
    frame of the Claude path, and the cut to a budget when a session moves to a
    provider with a smaller window.  Patterns are written as functions. *)
From stdpp Require Import base list.
From S2P Require Import Prelude JsString Json Dialog.
Open Scope nat_scope.

Inductive AnchorKind := narrative | ai_free | ai_paid.
#[export] Instance AnchorKind_eq_dec : EqDecision AnchorKind.
Proof. solve_decision. Defined.
Definition kind_text (k : AnchorKind) : jsstr :=
  js (match k with narrative => "narrative" | ai_free => "ai_free" | ai_paid => "ai_paid" end).

(** ** The wrapper *)

Definition WRAPPER_CLOSE : jsstr := js "</prior_context>".
Definition wrapper_tag : jsstr := js "<prior_context".
Fixpoint after_bracket (s : jsstr) : option jsstr :=
  match s with c :: s' => if (c =? 62)%N then Some s' else after_bracket s' | [] => None end.
(** What follows a match of [/^<prior_context\b[^>]*>/]. *)
Definition wrapper_open (s : jsstr) : option jsstr :=
  if startsWith s wrapper_tag then
    match drop 14 s with
    | c :: rest => if is_word c then None else after_bracket (c :: rest)
    | [] => None
    end
  else None.
Definition drop_newline (s : jsstr) : jsstr := match s with c :: s' => if (c =? newline)%N then s' else s | [] => [] end.
Definition drop_last_newline (s : jsstr) : jsstr := reverse (drop_newline (reverse s)).
(** One round of the loop, and [None] when it ends. *)
Definition unwrap_step (s : jsstr) : option jsstr :=
  match wrapper_open s with
  | None => None
  | Some rest =>
      let rest := drop_newline rest in
      if endsWith rest WRAPPER_CLOSE then
        Some (drop_last_newline (drop_newline (drop_last_newline (take (length rest - 16) rest))))
      else
        match indexOf rest WRAPPER_CLOSE with
        | None => None
        | Some k =>
            let inner := drop_last_newline (drop_newline (take k rest)) in
            match drop_newline (drop (k + 16) rest) with
            | [] => Some inner
            | after => Some (inner ++ newline :: after)
            end
        end
  end.
Fixpoint unwrap_loop (fuel : nat) (s : jsstr) : jsstr :=
  match fuel with
  | O => s
  | S fuel => match unwrap_step s with Some s' => unwrap_loop fuel s' | None => s end
  end.
Definition unwrapPriorContext (text : jsstr) : jsstr := unwrap_loop (length text) text.

(** ** Lines that command *)

Definition SOFT_PREFIX : jsstr := js "Note from prior context: ".
Definition imperatives : list jsstr :=
  map js ["you must"; "you should"; "always"; "never"; "do not"; "don't"; "rule:"; "rules:"; "important:"; "system:"]%string.
Definition is_imperative (line : jsstr) : bool := existsb (startsWith (asciiLower (trimStart line))) imperatives.
Definition soften_line (line : jsstr) : jsstr :=
  if is_imperative line then take (length line - length (trimStart line)) line ++ SOFT_PREFIX ++ trimStart line else line.
Definition soften (text : jsstr) : jsstr := join [newline] (map soften_line (split_on newline text)).

(** The source is the name of a kind, or what a stored body has there. *)
Definition open_tag (source attributes : jsstr) : jsstr :=
  wrapper_tag ++ js " source=" ++ [34%N] ++ source ++ [34%N] ++ attributes ++ js ">".
Definition wrap (source attributes body : jsstr) : jsstr :=
  open_tag source attributes ++ newline :: body ++ newline :: WRAPPER_CLOSE.
Definition supersedePreamble : jsstr :=
  js "[This summarizes the EARLIER portion of this conversation. Messages that appear AFTER this block are more recent and authoritative " ++
  [8212%N] ++ js " treat them as the current state and reconcile against them; do NOT assume this summary reflects anything that happened after it.]".
Definition superseded : jsstr := js " superseded_by_recent=" ++ [34%N] ++ js "true" ++ [34%N].
Definition sanitizeAnchorToString (text source : jsstr) (claudeSupersede : bool) : jsstr :=
  let softened := soften (unwrapPriorContext text) in
  if claudeSupersede then wrap source superseded (supersedePreamble ++ newline :: softened) else wrap source [] softened.

(** The value of the attribute [source] of the opening tag, the last when there
    are more. *)
Fixpoint until_quote (s : jsstr) : option jsstr :=
  match s with
  | c :: s' => if (c =? 34)%N then Some [] else name ← until_quote s'; Some (c :: name)
  | [] => None
  end.
Definition source_here (before : option N) (s : jsstr) : option jsstr :=
  if match before with Some c => is_word c | None => true end then None
  else if startsWith s (js "source=" ++ [34%N]) then
    match until_quote (drop 8 s) with Some ((_ :: _) as name) => Some name | _ => None end
  else None.
Fixpoint last_source (before : option N) (s : jsstr) : option jsstr :=
  match s with
  | [] => None
  | c :: s' => some_or (if (c =? 62)%N then None else last_source (Some c) s') (source_here before s)
  end.
Definition source_of (body : jsstr) : option jsstr :=
  if startsWith body wrapper_tag then
    match drop 14 body with c :: rest => if is_word c then None else last_source None (c :: rest) | [] => None end
  else None.
Definition reframeAnchorBodyForClaude (storedBody : jsstr) : jsstr :=
  sanitizeAnchorToString (unwrapPriorContext storedBody) (default (kind_text narrative) (source_of storedBody)) true.

(** ** The cut to a budget *)

Definition elision : jsstr :=
  [newline; newline; 8230%N] ++ js "(older rounds elided " ++ [8212%N] ++ js " use `session_recall` to query them)" ++ [8230%N; newline; newline].
(** Whether [/^## Round \d+ \((?:user|assistant)\)$/m] matches at a line's start. *)
Definition line_end (s : jsstr) : bool := match s with c :: _ => is_terminator c | [] => true end.
Definition round_here (s : jsstr) : bool :=
  if startsWith s (js "## Round ") then
    let '(ds, rest) := span_digits (drop 9 s) in
    match ds with
    | [] => false
    | _ => startsWith rest (js " (user)") && line_end (drop 7 rest) || startsWith rest (js " (assistant)") && line_end (drop 12 rest)
    end
  else false.
(** What is before the first round, and the rounds. *)
Fixpoint cut_rounds (at_start : bool) (s : jsstr) : jsstr * list jsstr :=
  match s with
  | [] => ([], [])
  | c :: s' =>
      let '(p, ps) := cut_rounds (is_terminator c) s' in
      if at_start && round_here s then ([], (c :: p) :: ps) else (c :: p, ps)
  end.
(** The rounds that are kept, from the newest; [size] were taken before. *)
Fixpoint keep_newest (tailBudget size : nat) (kept : list jsstr) (older : list jsstr) : list jsstr :=
  match older with
  | [] => kept
  | r :: older' =>
      if negb (bool_decide (kept = [])) && (tailBudget <? size + length r) then kept
      else keep_newest tailBudget (size + length r) (r :: kept) older'
  end.
Definition truncateAnchorBodyToBudget (body : jsstr) (budgetChars : nat) : jsstr :=
  if (budgetChars =? 0) || (length body <=? budgetChars) then body
  else
    let '(head, rounds) := cut_rounds true body in
    match rounds with
    | [] => take (budgetChars - length elision) body ++ elision
    | _ =>
        if budgetChars <=? length head + length elision then take (budgetChars - length elision) head ++ elision
        else
          let kept := keep_newest (budgetChars - length head - length elision) 0 [] (reverse rounds) in
          if length kept =? length rounds then body else head ++ elision ++ concat kept
    end.

(** ** The wrapper comes off again *)

Definition flat_source (source : jsstr) : Prop := 62%N ∉ source ∧ 34%N ∉ source ∧ source ≠ [].
Lemma after_bracket_app s t : 62%N ∉ s → after_bracket (s ++ 62%N :: t) = Some t.
Proof.
  induction s as [| c s IH]; cbn; [done |]. intros H. apply not_elem_of_cons in H as [Hc Hs].
  rewrite (proj2 (N.eqb_neq _ _)) by congruence. by apply IH.
Qed.
Lemma wrapper_open_tag source attributes rest : 62%N ∉ source → 62%N ∉ attributes →
  wrapper_open (open_tag source attributes ++ rest) = Some rest.
Proof.
  intros Hs Ha. unfold wrapper_open, open_tag. rewrite <- !app_assoc, startsWith_app.
  change (drop 14 (wrapper_tag ++ ?x)) with x. change (js " source=" ++ ?x) with (32%N :: js "source=" ++ x). cbn [app is_word].
  change (is_word 32) with false. cbn iota.
  transitivity (after_bracket ((js " source=" ++ [34%N] ++ source ++ [34%N] ++ attributes) ++ 62%N :: rest)).
  { f_equal. rewrite <- !app_assoc. cbn [js app]. done. }
  apply after_bracket_app. rewrite !not_elem_of_app. repeat split; try done; by_compute.
Qed.
Lemma drop_last_newline_snoc s : drop_last_newline (s ++ [newline]) = s.
Proof. unfold drop_last_newline. rewrite reverse_app. change (reverse [newline]) with [newline]. cbn [app drop_newline].
  change ((newline =? newline)%N) with true. cbn iota. apply reverse_involutive.
Qed.
(** No line break at either end. *)
Definition trimmed_ends (s : jsstr) : Prop := drop_newline s = s ∧ drop_last_newline s = s.
Lemma unwrap_step_wrap source attributes body : 62%N ∉ source → 62%N ∉ attributes → trimmed_ends body →
  unwrap_step (wrap source attributes body) = Some body.
Proof.
  intros Hs Ha [H1 H2]. unfold unwrap_step, wrap. rewrite wrapper_open_tag by done. cbn [drop_newline].
  change ((newline =? newline)%N) with true. cbn iota.
  assert (endsWith (body ++ newline :: WRAPPER_CLOSE) WRAPPER_CLOSE = true) as ->.
  { apply bool_decide_eq_true. exists (body ++ [newline]). by rewrite <- app_assoc. }
  do 2 f_equal. assert (take (length (body ++ newline :: WRAPPER_CLOSE) - 16) (body ++ newline :: WRAPPER_CLOSE) = body ++ [newline]) as ->.
  { change (newline :: WRAPPER_CLOSE) with ([newline] ++ WRAPPER_CLOSE). rewrite app_assoc, take_app_length'; [done |].
    rewrite length_app. change (length WRAPPER_CLOSE) with 16. lia. }
  by rewrite drop_last_newline_snoc, H1, H2.
Qed.
Lemma after_bracket_shorter s r : after_bracket s = Some r → length r < length s.
Proof. induction s as [| c s IH]; cbn; [done |]. destruct (c =? 62)%N; [intros [= ->]; lia | intros H%IH; lia]. Qed.
Lemma wrapper_open_shorter s r : wrapper_open s = Some r → length r < length s.
Proof.
  unfold wrapper_open. destruct (startsWith s wrapper_tag); [| done]. pose proof (length_drop s 14).
  destruct (drop 14 s) as [| c rest]; [done |]. destruct (is_word c); [done |]. intros Hr%after_bracket_shorter. lia.
Qed.
Lemma drop_newline_length s : length (drop_newline s) ≤ length s.
Proof. destruct s as [| c s]; cbn; [done |]. destruct (c =? newline)%N; cbn; lia. Qed.
Lemma drop_last_newline_length s : length (drop_last_newline s) ≤ length s.
Proof. unfold drop_last_newline. rewrite length_reverse. etransitivity; [apply drop_newline_length |]. by rewrite length_reverse. Qed.
Lemma edges_length s : length (drop_last_newline (drop_newline s)) ≤ length s.
Proof. etransitivity; [apply drop_last_newline_length | apply drop_newline_length]. Qed.
Lemma unwrap_step_shorter s s' : unwrap_step s = Some s' → length s' < length s.
Proof.
  unfold unwrap_step. destruct (wrapper_open s) as [rest |] eqn:E; [| done]. apply wrapper_open_shorter in E.
  pose proof (drop_newline_length rest) as Hr. set (r := drop_newline rest) in *. destruct (endsWith r WRAPPER_CLOSE).
  - intros [= <-]. pose proof (edges_length (drop_last_newline (take (length r - 16) r))) as H1.
    pose proof (drop_last_newline_length (take (length r - 16) r)) as H2. rewrite length_take in H2. lia.
  - destruct (indexOf r WRAPPER_CLOSE) as [k |]; [| done]. pose proof (edges_length (take k r)) as H1. rewrite length_take in H1.
    pose proof (drop_newline_length (drop (k + 16) r)) as H2. rewrite length_drop in H2.
    destruct (drop_newline (drop (k + 16) r)) as [| c after]; intros [= <-]; [lia |]. rewrite length_app. cbn in *. lia.
Qed.
(** The loop ends with nothing left to unwrap. *)
Lemma unwrap_finishes text : unwrap_step (unwrapPriorContext text) = None.
Proof.
  unfold unwrapPriorContext. assert (∀ fuel s, length s ≤ fuel → unwrap_step (unwrap_loop fuel s) = None) as H; [| by apply H].
  induction fuel as [| fuel IH]; intros s Hs; cbn [unwrap_loop]; [by destruct s; [| cbn in Hs; lia] |].
  destruct (unwrap_step s) as [s' |] eqn:E; [| done]. apply IH. apply unwrap_step_shorter in E. lia.
Qed.
Lemma unwrap_none text : unwrap_step text = None → unwrapPriorContext text = text.
Proof. unfold unwrapPriorContext. destruct (length text); [done |]. cbn [unwrap_loop]. by intros ->. Qed.
Lemma unwrap_loop_more fuel s : length s ≤ fuel → unwrap_loop fuel s = unwrapPriorContext s.
Proof.
  unfold unwrapPriorContext. generalize (Nat.le_refl (length s)). generalize (length s) at 2 4 as g. intros g.
  revert s g. induction fuel as [| fuel IH]; intros s g Hg Hf.
  - destruct s; [| cbn in Hf; lia]. by destruct g.
  - cbn [unwrap_loop]. destruct g as [| g]; [destruct s; [done | cbn in Hg; lia] |]. cbn [unwrap_loop].
    destruct (unwrap_step s) as [s' |] eqn:E; [| done]. apply unwrap_step_shorter in E. apply IH; lia.
Qed.
Lemma unwrap_next s s' : unwrap_step s = Some s' → unwrapPriorContext s = unwrapPriorContext s'.
Proof.
  intros E. pose proof (unwrap_step_shorter s s' E). unfold unwrapPriorContext at 1. destruct (length s) eqn:El; [lia |].
  cbn [unwrap_loop]. rewrite E. apply unwrap_loop_more. lia.
Qed.

(** ** Softening *)

Lemma trimStart_split l : l = take (length l - length (trimStart l)) l ++ trimStart l ∧
  Forall (λ c, is_space c = true) (take (length l - length (trimStart l)) l).
Proof.
  induction l as [| c l [IH1 IH2]]; [done |]. cbn [trimStart]. destruct (is_space c) eqn:E.
  - pose proof (suffix_length _ _ (trimStart_suffix l)) as Hl. cbn [length]. rewrite Nat.sub_succ_l by lia. cbn [take app]. split.
    + by rewrite IH1 at 1.
    + by constructor.
  - by rewrite Nat.sub_diag.
Qed.
Lemma soft_prefix_plain t : existsb (startsWith (asciiLower (SOFT_PREFIX ++ t))) imperatives = false.
Proof.
  unfold asciiLower. rewrite map_app. apply not_true_is_false. intros H%existsb_exists. destruct H as (i & Hi & [r E]%bool_decide_eq_true).
  repeat (destruct Hi as [<- | Hi]; [by apply (f_equal (take 3)) in E |]). done.
Qed.
Lemma soften_line_idempotent l : soften_line (soften_line l) = soften_line l.
Proof.
  unfold soften_line at 2 3. destruct (is_imperative l) eqn:E; [| unfold soften_line; by rewrite E].
  destruct (trimStart_split l) as [_ Hs]. unfold soften_line, is_imperative at 1. rewrite trimStart_app_space by done.
  assert (trimStart (SOFT_PREFIX ++ trimStart l) = SOFT_PREFIX ++ trimStart l) as -> by (by apply (trimStart_nonspace 78%N)).
  by rewrite soft_prefix_plain.
Qed.
Lemma soften_line_flat l : newline ∉ l → newline ∉ soften_line l.
Proof.
  intros Hl. unfold soften_line. destruct (is_imperative l); [| done]. destruct (trimStart_split l) as [E _].
  rewrite !not_elem_of_app. rewrite E in Hl. apply not_elem_of_app in Hl as [H1 H2]. split; [done |]. split; [by_compute | done].
Qed.
Lemma soften_lines text : split_on newline (soften text) = map soften_line (split_on newline text).
Proof.
  unfold soften. apply split_join; [by destruct (split_on newline text) eqn:E; [apply split_on_nonempty in E |] |].
  apply Forall_fmap, Forall_forall. intros l Hl. by apply soften_line_flat, (split_no_sep _ text).
Qed.
Lemma soften_idempotent text : soften (soften text) = soften text.
Proof.
  unfold soften at 1. rewrite soften_lines, map_map. unfold soften. f_equal. apply map_ext. apply soften_line_idempotent.
Qed.
Lemma soften_app a b : soften (a ++ newline :: b) = soften a ++ newline :: soften b.
Proof.
  unfold soften. assert (split_on newline (a ++ newline :: b) = split_on newline a ++ split_on newline b) as ->.
  { rewrite <- (join_split newline a) at 1. apply split_join_app; [apply Forall_forall, split_no_sep | apply split_on_nonempty]. }
  rewrite map_app. apply join_app_sep.
  - intros E%map_eq_nil. by apply split_on_nonempty in E.
  - intros E%map_eq_nil. by apply split_on_nonempty in E.
Qed.

(** ** Extending a stored anchor *)

Definition stored (k : AnchorKind) (u : jsstr) : jsstr := wrap (kind_text k) [] u.
Definition open_text (u : jsstr) : Prop := ∀ pre, ¬ occurs u WRAPPER_CLOSE pre.
(** A text in the form that anchors are stored in; it may end with a line break,
    as a table does. *)
Record framed (u : jsstr) : Prop := {
  f_start : match u with c :: _ => c ≠ 60%N ∧ c ≠ newline | [] => False end;
  f_open : open_text u;
  f_soft : soften u = u
}.
Record settled (u : jsstr) : Prop := {
  s_framed : framed u;
  s_end : last u ≠ Some newline
}.
Definition s_soft (u : jsstr) (H : settled u) : soften u = u := f_soft u (s_framed u H).
Lemma drop_last_id u : last u ≠ Some newline → drop_last_newline u = u.
Proof.
  destruct u as [| d u _] using rev_ind; [done |]. rewrite last_snoc. intros Hd. unfold drop_last_newline. rewrite reverse_snoc.
  cbn [drop_newline]. rewrite (proj2 (N.eqb_neq _ _)) by congruence. by rewrite <- reverse_snoc, reverse_involutive.
Qed.
Lemma kind_flat k : 62%N ∉ kind_text k.
Proof. destruct k; by_compute. Qed.
Lemma settled_ends u : settled u → trimmed_ends u.
Proof.
  intros [[H1 _ _] H2]. split; [| by apply drop_last_id]. destruct u as [| c u]; [done |]. cbn. by rewrite (proj2 (N.eqb_neq _ _)) by apply H1.
Qed.
Lemma framed_unwrap u v : framed u → unwrapPriorContext (u ++ v) = u ++ v.
Proof.
  intros [H1 _ _]. apply unwrap_none. unfold unwrap_step, wrapper_open. destruct u as [| c u]; [done |].
  unfold startsWith. rewrite bool_decide_false; [done |]. intros [r E]. apply (f_equal head) in E. cbn in E. injection E as ->. by destruct H1.
Qed.
Lemma settled_unwrap u : settled u → unwrapPriorContext u = u.
Proof. intros [H _]. rewrite <- (app_nil_r u). by apply framed_unwrap. Qed.
Lemma unwrap_stored u source attributes : settled u → 62%N ∉ source → 62%N ∉ attributes →
  unwrapPriorContext (wrap source attributes u) = u.
Proof. intros Hu Hs Ha. rewrite (unwrap_next _ u); [by apply settled_unwrap |]. by apply unwrap_step_wrap, settled_ends. Qed.
Lemma close_flat : newline ∉ WRAPPER_CLOSE.
Proof. by_compute. Qed.
Lemma endsWith_line a b needle : newline ∉ needle → endsWith (a ++ newline :: b) needle = true → endsWith b needle = true.
Proof.
  intros Hf [p E]%bool_decide_eq_true. apply bool_decide_eq_true.
  destruct (app_eq_app _ _ _ _ E) as (l & [[Hl1 Hl2] | [Hl1 Hl2]]).
  - exfalso. apply Hf. rewrite Hl2. apply elem_of_app. right. by left.
  - destruct l as [| c l]; [cbn in Hl2; exfalso; apply Hf; rewrite <- Hl2; by left |]. injection Hl2 as <- Hl2. by exists l.
Qed.
Lemma occurs_line a b pre needle : newline ∉ needle → occurs (a ++ newline :: b) needle pre → needle ≠ [] →
  occurs a needle pre ∨ ∃ pre', pre = a ++ newline :: pre'.
Proof.
  intros Hf [post E] Hne. destruct (app_eq_app _ _ _ _ E) as (l & [[Hl1 Hl2] | [Hl1 Hl2]]).
  - left. destruct (app_eq_app _ _ _ _ Hl2) as (l' & [[H1 H2] | [H1 H2]]).
    + destruct l' as [| c l']; [exists []; by rewrite app_nil_r, Hl1, H1, app_nil_r |]. exfalso. apply Hf. rewrite H1.
      injection H2 as <- _. apply elem_of_app. right. by left.
    + exists l'. by rewrite Hl1, H1.
  - destruct l as [| c l]; [| injection Hl2 as <- _; right; by exists l].
    exfalso. destruct needle as [| c needle]; [done |]. cbn in Hl2. injection Hl2 as <- _. apply Hf. by left.
Qed.

Lemma indexOf_needle_line a b needle : newline ∉ needle → needle ≠ [] → (∀ pre, ¬ occurs a needle pre) →
  indexOf (a ++ newline :: needle ++ b) needle = Some (length a + 1).
Proof.
  intros Hf Hne Ha. assert (occurs (a ++ newline :: needle ++ b) needle (a ++ [newline])) as Ho by (exists b; by rewrite <- app_assoc).
  destruct (occurs_indexOf _ _ _ Ho) as [k Hk]. rewrite Hk. f_equal. apply indexOf_occurs in Hk as (Hl & Hocc & Hmin).
  specialize (Hmin _ Ho). rewrite length_app in Hmin. cbn in Hmin.
  destruct (occurs_line _ _ _ _ Hf Hocc Hne) as [Hin | [pre' E]]; [by destruct (Ha _ Hin) |].
  apply (f_equal length) in E. rewrite length_take, !length_app in E. cbn in E, Hl. rewrite !length_app in E. cbn in E. lia.
Qed.
Lemma drop_close x : drop 16 (WRAPPER_CLOSE ++ x) = x.
Proof. done. Qed.
Lemma unwrap_extended k u tail : framed u → tail ≠ [] → endsWith tail WRAPPER_CLOSE = false →
  unwrapPriorContext (stored k u ++ blank_line ++ tail) = u ++ blank_line ++ tail.
Proof.
  intros Hu Hne Ht. pose proof Hu as [H1 H3 _].
  rewrite (unwrap_next _ (u ++ blank_line ++ tail)); [by apply framed_unwrap |].
  unfold unwrap_step, stored, wrap. rewrite <- !app_assoc, wrapper_open_tag by (apply kind_flat || by_compute).
    cbn [app drop_newline]. change ((newline =? newline)%N) with true. cbn iota. rewrite <- !app_assoc. cbn [app].
    rewrite indexOf_needle_line by (apply close_flat || done). set (r := u ++ newline :: WRAPPER_CLOSE ++ blank_line ++ tail).
    assert (endsWith r WRAPPER_CLOSE = false) as ->.
    { apply not_true_is_false. intros E. rewrite <- not_true_iff_false in Ht. apply Ht, (endsWith_line (u ++ newline :: WRAPPER_CLOSE ++ [newline]));
        [apply close_flat |]. rewrite <- app_assoc. exact E. }
    assert (r = (u ++ [newline]) ++ WRAPPER_CLOSE ++ blank_line ++ tail) as Er by (unfold r; by rewrite <- app_assoc).
    assert (length u + 1 = length (u ++ [newline])) as El by (rewrite length_app; done). rewrite El, Er.
    rewrite take_app_length, drop_app_add, drop_close. unfold blank_line. cbn [app drop_newline]. change ((newline =? newline)%N) with true. cbn iota.
    assert (drop_last_newline (drop_newline (u ++ [newline])) = u) as ->; [| done].
    assert (drop_newline (u ++ [newline]) = u ++ [newline]) as ->; [| apply drop_last_newline_snoc].
    destruct u as [| c u]; [done |]. cbn. by rewrite (proj2 (N.eqb_neq _ _)) by apply H1.
Qed.

(** Softening writes no tag that closes a wrapper. *)
Lemma occurs_skip c needle x b pre : c ∉ x → occurs (x ++ b) (c :: needle) pre → ∃ pre', occurs b (c :: needle) pre'.
Proof.
  revert pre. induction x as [| d x IH]; intros pre Hc H; [by exists pre |]. apply not_elem_of_cons in Hc as [Hd Hc].
  destruct H as [post E]. destruct pre as [| e pre]; cbn [app] in E; [by injection E as -> _ |]. injection E as <- E.
  apply (IH pre Hc). by exists post.
Qed.
Lemma soften_line_open l : open_text l → open_text (soften_line l).
Proof.
  intros Hl pre. unfold soften_line. destruct (is_imperative l); [| by apply Hl]. destruct (trimStart_split l) as [E Hs]. intros H.
  rewrite app_assoc in H. apply (occurs_skip 60%N (tail WRAPPER_CLOSE)) in H as [pre' [post Hp]].
  - apply (Hl (take (length l - length (trimStart l)) l ++ pre')). exists post. rewrite <- app_assoc, E at 1. f_equal. exact Hp.
  - apply not_elem_of_app. split; [| by_compute]. intros Hi. rewrite Forall_forall in Hs. by apply Hs in Hi.
Qed.
Lemma open_join ls : open_text (join [newline] ls) ↔ Forall open_text ls.
Proof.
  induction ls as [| l [| l' ls] IH].
  - split; [by constructor |]. intros _ pre [post E]. by destruct pre.
  - rewrite Forall_singleton. done.
  - change (join [newline] (l :: l' :: ls)) with (l ++ newline :: join [newline] (l' :: ls)). rewrite Forall_cons, <- IH. split.
    + intros H. split; intros pre [post E].
      * apply (H pre). exists (post ++ newline :: join [newline] (l' :: ls)). rewrite E, <- !app_assoc. done.
      * apply (H (l ++ newline :: pre)). exists post. rewrite E, <- app_assoc. done.
    + intros [H1 H2] pre Hp. pose proof Hp as Ho. apply occurs_line in Ho as [Ho | [pre' ->]]; [by apply H1 in Ho | | apply close_flat | done].
      apply (H2 pre'). destruct Hp as [post E]. exists post. rewrite <- app_assoc in E. apply app_inv_head in E. by injection E.
Qed.
Lemma soften_open t : open_text t → open_text (soften t).
Proof.
  intros H. unfold soften. rewrite <- (join_split newline t), open_join in H. apply open_join, Forall_fmap.
  eapply Forall_impl; [exact H | apply soften_line_open].
Qed.
Lemma soften_blank a b : soften (a ++ blank_line ++ b) = soften a ++ blank_line ++ soften b.
Proof. unfold blank_line. cbn [app]. rewrite soften_app. change (newline :: b) with ([] ++ newline :: b). by rewrite soften_app. Qed.
Lemma framed_app u t : framed u → open_text t → soften t = t → framed (u ++ newline :: t).
Proof.
  intros [H1 H2 H3] Ho Hs. split.
  - by destruct u.
  - apply (open_join [u; t]). by repeat constructor.
  - by rewrite soften_app, H3, Hs.
Qed.
Lemma framed_extends u t : framed u → open_text t → framed (u ++ blank_line ++ soften t).
Proof.
  intros Hu Ho. apply (framed_app u (newline :: soften t)); [done | |].
  - apply (open_join [[]; soften t]). repeat constructor; [| by apply soften_open]. by intros [] [post E].
  - change (newline :: soften t) with ([] ++ newline :: soften t). by rewrite soften_app, soften_idempotent.
Qed.
Lemma open_ends t : open_text t → endsWith t WRAPPER_CLOSE = false.
Proof. intros H. apply not_true_is_false. intros [pre E]%bool_decide_eq_true. apply (H pre). exists []. by rewrite app_nil_r. Qed.
Lemma stored_extended k k' u tail : framed u → tail ≠ [] → endsWith tail WRAPPER_CLOSE = false →
  sanitizeAnchorToString (stored k u ++ blank_line ++ tail) (kind_text k') false = stored k' (u ++ blank_line ++ soften tail).
Proof. intros Hu Hne Ht. unfold sanitizeAnchorToString. by rewrite unwrap_extended, soften_blank, (f_soft u Hu). Qed.

(** ** The frame of the Claude path *)

Lemma source_of_wrap k attributes body : attributes = [] ∨ attributes = superseded → source_of (wrap (kind_text k) attributes body) = Some (kind_text k).
Proof. by intros [-> | ->]; destruct k. Qed.
Definition claude_frame (k : AnchorKind) (body : jsstr) : jsstr := wrap (kind_text k) superseded body.
Lemma preamble_framed : framed supersedePreamble.
Proof.
  split; [done | | by vm_compute]. intros pre Ho. destruct (occurs_indexOf _ _ _ Ho) as [j Hj]. by vm_compute in Hj.
Qed.
Lemma preamble_settled u : settled u → settled (supersedePreamble ++ newline :: u).
Proof.
  intros [H1 H2]. split; [by apply framed_app; [apply preamble_framed | apply f_open | apply f_soft] |].
  destruct u as [| c u]; [by destruct H1 |]. change (newline :: c :: u) with ([newline] ++ c :: u). by rewrite app_assoc, last_app_cons.
Qed.
(** Framing an anchor for the Claude path shows its text after the sentence
    that later messages supersede it; framing the result again adds the sentence
    once more. *)
Theorem frames_add_up k u : settled u →
  reframeAnchorBodyForClaude (stored k u) = claude_frame k (supersedePreamble ++ newline :: u) ∧
  reframeAnchorBodyForClaude (reframeAnchorBodyForClaude (stored k u)) =
    claude_frame k (supersedePreamble ++ newline :: supersedePreamble ++ newline :: u).
Proof.
  intros Hu. assert (∀ v attributes, settled v → attributes = [] ∨ attributes = superseded →
    reframeAnchorBodyForClaude (wrap (kind_text k) attributes v) = claude_frame k (supersedePreamble ++ newline :: v)) as G.
  { intros v attributes Hv Ha. unfold reframeAnchorBodyForClaude. rewrite source_of_wrap by done. cbn [default].
    rewrite unwrap_stored by (done || apply kind_flat || (destruct Ha as [-> | ->]; by_compute)).
    unfold sanitizeAnchorToString. rewrite settled_unwrap by done. by rewrite (s_soft v Hv). }
  unfold stored. rewrite (G u) by auto. split; [done |]. unfold claude_frame. rewrite G; [done | by apply preamble_settled | by right].
Qed.

(** ** What the cut keeps *)

Lemma cut_rounds_concat at_start s : (cut_rounds at_start s).1 ++ concat (cut_rounds at_start s).2 = s.
Proof.
  revert at_start. induction s as [| c s IH]; intros at_start; [done |]. cbn [cut_rounds]. specialize (IH (is_terminator c)).
  destruct (cut_rounds (is_terminator c) s) as [p ps]. cbn [fst snd] in IH. destruct (at_start && round_here (c :: s)); cbn; by rewrite IH.
Qed.
Lemma keep_newest_spec budget size kept older : ∃ taken left, older = taken ++ left ∧
  keep_newest budget size kept older = reverse taken ++ kept ∧
  (kept ≠ [] → taken ≠ [] → size + length (concat taken) ≤ budget) ∧
  (∀ r, left = r :: drop 1 left → budget < size + length (concat taken) + length r ∧ (kept ≠ [] ∨ taken ≠ [])).
Proof.
  revert size kept. induction older as [| r older IH]; intros size kept; cbn [keep_newest].
  - exists [], []. by repeat split.
  - destruct (negb (bool_decide (kept = [])) && (budget <? size + length r)) eqn:E.
    + apply andb_true_iff in E as [E1%negb_true_iff%bool_decide_eq_false E2%Nat.ltb_lt]. exists [], (r :: older). split; [done |]. split; [done |].
      split; [done |]. intros r' [= <-]. split; [cbn; lia | by left].
    + destruct (IH (size + length r) (r :: kept)) as (taken & left & -> & -> & H1 & H2). exists (r :: taken), left. split; [done |].
      split; [by rewrite reverse_cons, <- app_assoc |]. cbn [concat]. rewrite length_app. split.
      * intros Hk _. destruct taken as [| t taken]; [| specialize (H1 ltac:(done) ltac:(done)); lia].
        apply andb_false_iff in E as [E%negb_false_iff%bool_decide_eq_true | E%Nat.ltb_ge]; [done | cbn; lia].
      * intros r' E'. destruct (H2 r' E') as [H3 _]. split; [lia | by right].
Qed.

Lemma length_concat_reverse {A} (l : list (list A)) : length (concat (reverse l)) = length (concat l).
Proof. induction l as [| x l IH]; [done |]. rewrite reverse_cons, concat_app, !length_app, IH. cbn. rewrite app_nil_r, length_app. lia. Qed.

(** C30. A cut of a text with lines that the pattern takes for headers of rounds
    keeps, when what is before the first of them fits, all of that and the newest
    rounds, as many as fit into the budget, and at least one; the length is within
    the budget unless the newest round alone is not.  When it does not fit only
    its start is kept, and without such lines the start of the text is. *)
Theorem truncation_keeps_newest body n head rounds : cut_rounds true body = (head, rounds) → n < length body → 0 < n →
  let out := truncateAnchorBodyToBudget body n in
  (rounds = [] → out = take (n - length elision) body ++ elision) ∧
  (rounds ≠ [] → n <= length head + length elision → out = take (n - length elision) head ++ elision) ∧
  (rounds ≠ [] → length head + length elision < n →
    ∃ older kept, rounds = older ++ kept ∧ kept ≠ [] ∧
      (older ≠ [] → out = head ++ elision ++ concat kept) ∧ (older = [] → out = body ∧ ∃ r, rounds = [r] ∧ n < length out) ∧
      (length kept = 1 ∨ length out ≤ n) ∧
      (∀ older' r, older = older' ++ [r] → n < length out + length r)).
Proof.
  intros Hc Hn Hn0 out. subst out. unfold truncateAnchorBodyToBudget. rewrite (proj2 (Nat.eqb_neq _ _)), (proj2 (Nat.leb_gt _ _)) by lia.
  cbn [orb]. rewrite Hc. split; [by intros -> |]. split.
  { intros Hr Hh. destruct rounds as [| r0 rounds0]; [done |]. by rewrite (proj2 (Nat.leb_le _ _)) by lia. }
  intros Hr Hh. destruct rounds as [| r0 rounds0] eqn:Er; [done |]. rewrite <- Er in *. clear Er.
  rewrite (proj2 (Nat.leb_gt _ _)) by lia. set (budget := n - length head - length elision).
  pose proof (cut_rounds_concat true body) as Hb. rewrite Hc in Hb. cbn [fst snd] in Hb.
  destruct (reverse rounds) as [| r rs] eqn:Hrev; [apply (f_equal reverse) in Hrev; by rewrite reverse_involutive in Hrev |].
  cbn [keep_newest bool_decide]. rewrite bool_decide_true by done. cbn [negb andb]. rewrite Nat.add_0_l.
  destruct (keep_newest_spec budget (length r) [r] rs) as (taken & left & -> & -> & H1 & H2).
  assert (rounds = reverse left ++ reverse taken ++ [r]) as Hrounds.
  { rewrite <- (reverse_involutive rounds), Hrev, reverse_cons, reverse_app. by rewrite app_assoc. }
  assert (length (concat (reverse taken ++ [r])) = length r + length (concat taken)) as Hlen.
  { rewrite concat_app, length_app, length_concat_reverse. cbn. rewrite app_nil_r. lia. }
  exists (reverse left), (reverse taken ++ [r]). split; [done |]. split; [by destruct (reverse taken) |].
  assert (length rounds = length left + length (reverse taken ++ [r])) as Hlr by (by rewrite Hrounds, length_app, length_reverse).
  rewrite !Hlr. apply (f_equal length) in Hb. rewrite length_app, Hrounds in Hb.
  destruct left as [| r1 left].
  - rewrite reverse_nil in *. cbn [app] in *. rewrite Nat.add_0_l, Nat.eqb_refl. destruct taken as [| t taken].
    + split; [done |]. split; [intros _; split; [done |]; exists r; split; [done | lia] |]. split; [by left |]. intros older' r' E. by destruct older'.
    + exfalso. specialize (H1 ltac:(done) ltac:(done)). rewrite Hlen in Hb. lia.
  - rewrite (proj2 (Nat.eqb_neq _ _)) by (cbn [length]; lia).
    split; [done |]. split; [intros E; by rewrite reverse_cons in E; destruct (reverse left) |]. rewrite !length_app, Hlen.
    split.
    + destruct taken as [| t taken]; [by left |]. right. specialize (H1 ltac:(done) ltac:(done)). lia.
    + intros older' r' E. rewrite reverse_cons in E. apply app_inj_tail in E as [_ <-]. destruct (H2 r1 eq_refl) as [H3 _]. lia.
Qed.

(** ** Examples *)

Lemma settled_demo : settled (js "## Round 1").
Proof.
  split; [| by vm_compute]. split; [by vm_compute | | by vm_compute]. intros pre Hpre. destruct (occurs_indexOf _ _ _ Hpre) as [k Hk]. by vm_compute in Hk.
Qed.
Example commands_softened :
  sanitizeAnchorToString (stored narrative (js "## Round 1") ++ blank_line ++ js "Always check.") (kind_text ai_free) false =
  stored ai_free (js "## Round 1" ++ blank_line ++ js "Note from prior context: Always check.").
Proof. by vm_compute. Qed.
Lemma frames_add_up_witness :
  reframeAnchorBodyForClaude (reframeAnchorBodyForClaude (stored narrative (js "## Round 1"))) =
  claude_frame narrative (supersedePreamble ++ newline :: supersedePreamble ++ newline :: js "## Round 1").
Proof. exact (proj2 (frames_add_up narrative (js "## Round 1") settled_demo)). Defined.

Definition long_body : jsstr :=
  join [newline] (map js ["head"; "## Round 1 (user)"; "an old question that is rather long and was asked at the very start, with words to spare";
    "## Round 2 (user)"; "a new one"]%string).
Lemma truncation_keeps_newest_witness :
  truncateAnchorBodyToBudget long_body 120 = js "head" ++ [newline] ++ elision ++ join [newline] (map js ["## Round 2 (user)"; "a new one"]%string).
Proof.
  destruct (cut_rounds true long_body) as [head rounds] eqn:E.
  destruct (truncation_keeps_newest long_body 120 head rounds E) as (_ & _ & H); [by_compute | lia |]. vm_compute in E.
  assert (rounds ≠ []) as Hne by (intros ->; discriminate E).
  assert (length head + length elision < 120) as Hl by (injection E as <- _; by_compute).
  destruct (H Hne Hl) as (older & kept & _ & _ & _ & _). by vm_compute.
Defined.
(** A round as it is written since the rounds have no [(user)] behind their
    number: of three the cut keeps the oldest. *)
Definition three_turns : list message :=
  [asked "m1" "oldest"; answered "m2" "a"; asked "m3" "middle"; answered "m4" "b"; asked "m5" "newest"; answered "m6" "c"].
Example newest_round_dropped :
  let body := stored narrative (narrative_body [] three_turns None 0) in
  let out := truncateAnchorBodyToBudget body 150 in
  (cut_rounds true body).2 = [] ∧ includes out (js "oldest") = true ∧ includes out (js "newest") = false.
Proof. by vm_compute. Qed.
(** And the wrapper is cut open. *)
Example wrapper_cut_open :
  endsWith (truncateAnchorBodyToBudget (stored narrative (narrative_body [] three_turns None 0)) 150) WRAPPER_CLOSE = false.
Proof. by vm_compute. Qed.
