(* ===== verification/ToolIndex.v ===== *)
(** * The index of tool calls ([session/tool-index.ts])

    A table at the end of an anchor with the calls whose results can still be
    fetched: read from the messages and from the anchor before, merged, cut to a
    budget, printed.  Patterns are written as functions. *)
From stdpp Require Import base list.
From S2P Require Import Prelude JsString Json Bytes Dialog.
Open Scope Z_scope.

Inductive entry_status := ok | error | abort | unknown.
#[export] Instance entry_status_eq_dec : EqDecision entry_status.
Proof. solve_decision. Defined.
Record ToolIndexEntry := mkEntry {
  tool_call_id : jsstr; tool_name : jsstr; args_brief : jsstr; e_status : entry_status; output_chars : Z
}.
Definition ARGS_BRIEF_MAX : nat := 80.
Definition SECTION_MARKER : jsstr := js "## TOOL_INDEX".

(** ** From the messages *)

Definition truncate (s : jsstr) (max : nat) : jsstr := if (length s <=? max)%nat then s else take (max - 1) s ++ [8230%N].
Definition briefArgs (input : option json) : jsstr :=
  match input with
  | None | Some JNull => []
  | Some (JStr s) => truncate s ARGS_BRIEF_MAX
  | Some v => truncate (stringify v) ARGS_BRIEF_MAX
  end.
Definition status_of (s : tool_status) : entry_status :=
  match s with completed => ok | errored => error | aborted => abort | _ => unknown end.
Definition output_of (t : tool_part) : jsstr := default (default [] (tool_error t)) (tool_output t).
Definition entry_of (p : part) : list ToolIndexEntry :=
  match p with
  | Tool t =>
      match callID t with
      | [] => []
      | _ => [mkEntry (callID t) (tool t) (briefArgs (tool_input t)) (status_of (status t)) (Z.of_nat (length (output_of t)))]
      end
  | _ => []
  end.
Definition extractFromJournal (ms : list message) : list ToolIndexEntry := flat_map (λ m, flat_map entry_of (parts m)) ms.

(** ** From a body *)

Definition bar : N := 124%N.
Definition status_text (s : entry_status) : jsstr :=
  js (match s with ok => "ok" | error => "error" | abort => "abort" | unknown => "unknown" end).
Definition read_status (s : jsstr) : entry_status :=
  if bool_decide (s = js "ok") then ok else if bool_decide (s = js "error") then error
  else if bool_decide (s = js "abort") then abort else unknown.
(** The cells that the pattern of a row takes, trimmed; the bars are no part of a cell. *)
Definition row_cells (line : jsstr) : option (jsstr * jsstr * jsstr * jsstr * Z) :=
  match split_on bar line with
  | [[]; c1; c2; c3; c4; c5; []] =>
      match trim c1, trim c5 with
      | _ :: _, (_ :: _) as ds => if forallb is_digit ds then Some (trim c1, trim c2, trim c3, trim c4, digits_value 0 ds) else None
      | _, _ => None
      end
  | _ => None
  end.
Definition is_separator (line : jsstr) : bool :=
  match line with c :: rest => (c =? bar)%N && startsWith (trimStart rest) (js "-") | [] => false end.
Definition read_row (line : jsstr) : option ToolIndexEntry :=
  let trimmed := trim line in
  if negb (startsWith trimmed [bar]) || is_separator trimmed then None
  else
    '(c1, c2, c3, c4, n) ← row_cells trimmed;
    if bool_decide (toLowerCase c1 = js "tool_call_id") || startsWith c1 (js "(") then None
    else Some (mkEntry c1 c2 c3 (read_status c4) n).
(** [/\r?\n/] *)
Definition drop_return (l : jsstr) : jsstr := match reverse l with 13%N :: r => reverse r | _ => l end.
Fixpoint drop_returns (ls : list jsstr) : list jsstr :=
  match ls with [] => [] | [l] => [l] | l :: ls' => drop_return l :: drop_returns ls' end.
Definition split_lines (s : jsstr) : list jsstr := drop_returns (split_on newline s).
(** A match of [/^#{2,3}\s+TOOL_INDEX\s*$/im] at the start of a line. *)
Fixpoint blank_to_end (s : jsstr) : bool :=
  match s with c :: s' => is_terminator c || (is_space c && blank_to_end s') | [] => true end.
Definition marker_after (s : jsstr) : bool :=
  match s with
  | c :: s' =>
      is_space c && let rest := trimStart s' in startsWith (asciiLower rest) (js "tool_index") && blank_to_end (drop 10 rest)
  | [] => false
  end.
Definition marker_here (s : jsstr) : bool :=
  startsWith s (js "##") && (marker_after (drop 2 s) || startsWith s (js "###") && marker_after (drop 3 s)).
Fixpoint marker_from (at_start : bool) (s : jsstr) : option nat :=
  if at_start && marker_here s then Some O
  else match s with c :: s' => S <$> marker_from (is_terminator c) s' | [] => None end.
Definition findMarkerIndex (body : jsstr) : option nat := marker_from true body.
Definition parseFromBody (body : jsstr) : list ToolIndexEntry :=
  match findMarkerIndex body with None => [] | Some i => omap read_row (split_lines (drop i body)) end.

(** ** Merging, printing and cutting *)

Definition merge (prior fresh : list ToolIndexEntry) : list ToolIndexEntry :=
  filter (λ e, tool_call_id e ∉ map tool_call_id fresh) prior ++ fresh.
Fixpoint escape_bars (s : jsstr) : jsstr :=
  match s with c :: s' => if (c =? bar)%N then 92%N :: c :: escape_bars s' else c :: escape_bars s' | [] => [] end.
Definition dash : jsstr := [8212%N].
Definition render_row (e : ToolIndexEntry) : jsstr :=
  js "| " ++ join (js " | ") [tool_call_id e; tool_name e; escape_bars (args_brief e); status_text (e_status e); show_Z (output_chars e)] ++ js " |".
Definition table_head : list jsstr :=
  [SECTION_MARKER; []; js "| tool_call_id | tool_name | args_brief | status | output_chars |"; js "|---|---|---|---|---|"].
Definition empty_row : jsstr := js "| (no tool calls in this period) | " ++ dash ++ js " | " ++ dash ++ js " | " ++ dash ++ js " | 0 |".
Definition renderSection (entries : list ToolIndexEntry) : jsstr :=
  join [newline] (table_head ++ (match entries with [] => [empty_row] | _ => map render_row entries end) ++ [[]]).

Definition RETAIN_RECENT_MIN : nat := 10.
Definition section_bytes (entries : list ToolIndexEntry) : Z := Z.of_nat (length (utf8_encode (renderSection entries))).
(** The entries that are left and how many were dropped; at least [floor] stay. *)
Fixpoint trim_oldest (maxBytes : Z) (floor : nat) (entries : list ToolIndexEntry) (truncated : nat) : list ToolIndexEntry * nat :=
  match entries with
  | [] => ([], truncated)
  | _ :: rest =>
      if (length entries <=? floor)%nat || (section_bytes entries <=? maxBytes) then (entries, truncated)
      else trim_oldest maxBytes floor rest (S truncated)
  end.
Definition strip_detail (e : ToolIndexEntry) : ToolIndexEntry := mkEntry (tool_call_id e) (tool_name e) dash (e_status e) 0.
Definition placeholder (truncated kept : nat) : ToolIndexEntry :=
  mkEntry (js "(truncated " ++ show_Z (Z.of_nat truncated) ++ [32%N] ++ js "earlier entries " ++ dash ++ js " recent " ++
    show_Z (Z.of_nat kept) ++ js " kept below; older recall by narrative)") dash dash unknown 0.
Definition applyBudget (entries : list ToolIndexEntry) (maxBytes : Z) : list ToolIndexEntry * nat :=
  let '(trimmed, truncated) := trim_oldest maxBytes (Nat.min RETAIN_RECENT_MIN (length entries)) entries O in
  let trimmed := if (0 <? truncated)%nat && (maxBytes <? section_bytes trimmed) then map strip_detail trimmed else trimmed in
  ((if (0 <? truncated)%nat then placeholder truncated (length trimmed) :: trimmed else trimmed), truncated).

(** Whether a section was found, its entries and bytes. *)
Definition validate (body : jsstr) : bool * nat * Z :=
  match parseFromBody body, findMarkerIndex body with
  | [], i => (match i with Some _ => true | None => false end, O, 0)
  | es, Some i => (true, length es, Z.of_nat (length (utf8_encode (drop i body))))
  | es, None => (true, length es, 0)
  end.

(** ** Taking sections out *)

Fixpoint drop_newlines (s : jsstr) : jsstr := match s with c :: s' => if (c =? newline)%N then drop_newlines s' else s | [] => [] end.
(** [/^\r?\n+/] *)
Definition drop_breaks (s : jsstr) : jsstr :=
  match s with
  | 13%N :: ((10%N :: _) as s') => drop_newlines s'
  | _ => drop_newlines s
  end.
Fixpoint skip_lines (p : jsstr → bool) (ls : list jsstr) : nat :=
  match ls with l :: ls' => if p l then S (skip_lines p ls') else O | [] => O end.
Definition is_blank_line (l : jsstr) : bool := bool_decide (trim l = []).
Definition is_table_line (l : jsstr) : bool := startsWith (trim l) [bar].
(** The lines of a section, from its marker on. *)
Definition section_lines (ls : list jsstr) : nat :=
  let blanks := S (skip_lines is_blank_line (drop 1 ls)) in (blanks + skip_lines is_table_line (drop blanks ls))%nat.
Definition strip_at (i : nat) (s : jsstr) : jsstr :=
  let ls := split_lines (drop i s) in
  let consumed := length (join [newline] (take (section_lines ls) ls)) in
  let before := trimEnd (take i s) in
  let after := drop_breaks (drop (i + consumed) s) in
  before ++ (match before, after with _ :: _, _ :: _ => blank_line | _, _ => [] end) ++ after.
Fixpoint strip_loop (safety : nat) (s : jsstr) : jsstr :=
  match safety with
  | O => s
  | S safety => match findMarkerIndex s with None => s | Some i => strip_loop safety (strip_at i s) end
  end.
Definition stripAllSections (body : jsstr) : jsstr := strip_loop 100 body.

(** ** A row is read back *)

Definition clean_cell (s : jsstr) : Prop := trim s = s ∧ bar ∉ s ∧ newline ∉ s.
Record clean (e : ToolIndexEntry) : Prop := {
  c_id : clean_cell (tool_call_id e);
  c_name : clean_cell (tool_name e);
  c_args : clean_cell (args_brief e);
  c_head : match tool_call_id e with c :: _ => c ≠ 45%N ∧ c ≠ 40%N | [] => False end;
  c_label : toLowerCase (tool_call_id e) ≠ js "tool_call_id";
  c_chars : 0 <= output_chars e
}.
Lemma escape_none s : bar ∉ s → escape_bars s = s.
Proof.
  induction s as [| c s IH]; cbn; [done |]. intros [Hc Hs]%not_elem_of_cons. rewrite (proj2 (N.eqb_neq _ _)) by congruence. by rewrite IH.
Qed.
Lemma trim_cell s : trim s = s → trim (32%N :: s ++ [32%N]) = s.
Proof. intros E. change (32%N :: s ++ [32%N]) with ([32%N] ++ s ++ [32%N]). rewrite trim_pad; [done | by repeat constructor | by repeat constructor]. Qed.
Lemma trim_dense s : Forall (λ c, is_space c = false) s → trim s = s.
Proof.
  intros H. unfold trim. assert (∀ t, Forall (λ c, is_space c = false) t → trimStart t = t) as G.
  { intros t Ht. destruct Ht as [| c t Hc Ht]; [done |]. by apply trimStart_nonspace. }
  rewrite G by done. unfold trimEnd. rewrite G; [apply reverse_involutive |]. by apply Forall_reverse.
Qed.
Lemma digits_cell s : Forall (λ c, is_digit c = true) s → clean_cell s.
Proof.
  intros H. assert (∀ c, is_digit c = true → (48 <= c <= 57)%N) as G by (intros c [?%N.leb_le ?%N.leb_le]%andb_true_iff; lia).
  assert (∀ c, c ∈ s → (48 <= c <= 57)%N) as G' by (intros c Hc; eapply G; by eapply Forall_forall in H).
  split; [apply trim_dense; eapply Forall_impl; [exact H |] | split; intros Hc%G'; unfold bar, newline in Hc; lia].
  intros c Hc%G. unfold is_space. rewrite !orb_false_iff, !andb_false_iff, !N.eqb_neq, !N.leb_gt. lia.
Qed.
Lemma status_cell st : clean_cell (status_text st) ∧ read_status (status_text st) = st.
Proof. destruct st; (split; [split; [by vm_compute | split; by_compute] | by vm_compute]). Qed.
Definition row_of (c1 c2 c3 c4 c5 : jsstr) : jsstr :=
  bar :: (32%N :: c1 ++ [32%N]) ++ bar :: (32%N :: c2 ++ [32%N]) ++ bar :: (32%N :: c3 ++ [32%N]) ++ bar :: (32%N :: c4 ++ [32%N]) ++ bar ::
  (32%N :: c5 ++ [32%N]) ++ [bar].
Lemma render_row_of e : render_row e =
  row_of (tool_call_id e) (tool_name e) (escape_bars (args_brief e)) (status_text (e_status e)) (show_Z (output_chars e)).
Proof.
  unfold render_row, row_of. cbn [join]. change (js "| " ++ ?x) with (bar :: 32%N :: x). change (js " |") with [32%N; bar].
  change (js " | ") with [32%N; bar; 32%N]. repeat (rewrite <- !app_assoc; cbn [app]). done.
Qed.
Lemma padded_flat c x : c ≠ 32%N → c ∉ x → c ∉ 32%N :: x ++ [32%N].
Proof. intros Hc Hx. rewrite not_elem_of_cons, not_elem_of_app. repeat split; [done | done |]. by intros ?%list_elem_of_singleton. Qed.
Lemma row_trimmed c1 c2 c3 c4 c5 : trim (row_of c1 c2 c3 c4 c5) = row_of c1 c2 c3 c4 c5.
Proof.
  unfold row_of. match goal with |- trim (bar :: ?a ++ bar :: ?b ++ bar :: ?c ++ bar :: ?d ++ bar :: ?x ++ [bar]) = _ =>
    assert (∀ q, bar :: a ++ bar :: b ++ bar :: c ++ bar :: d ++ bar :: x ++ q = bar :: (a ++ bar :: b ++ bar :: c ++ bar :: d ++ bar :: x) ++ q)
      as E by (intros q; f_equal; by rewrite <- !app_assoc; cbn [app]; rewrite <- !app_assoc; cbn [app]; rewrite <- !app_assoc; cbn [app];
        rewrite <- !app_assoc; cbn [app]; rewrite <- !app_assoc) end.
  rewrite E. by apply trim_id.
Qed.
Lemma row_cells_of c1 c2 c3 c4 c5 : Forall (λ c, bar ∉ c) [c1; c2; c3; c4; c5] →
  split_on bar (row_of c1 c2 c3 c4 c5) =
  [[]; 32%N :: c1 ++ [32%N]; 32%N :: c2 ++ [32%N]; 32%N :: c3 ++ [32%N]; 32%N :: c4 ++ [32%N]; 32%N :: c5 ++ [32%N]; []].
Proof.
  rewrite !Forall_cons. intros (H1 & H2 & H3 & H4 & H5 & _). unfold row_of. change (bar :: ?x) with ([] ++ bar :: x) at 1.
  rewrite !split_app_no_sep by (apply padded_flat || by_compute; done). done.
Qed.
Lemma row_not_separator c1 c2 c3 c4 c5 : match c1 with c :: _ => c ≠ 45%N ∧ is_space c = false | [] => False end →
  is_separator (row_of c1 c2 c3 c4 c5) = false.
Proof.
  destruct c1 as [| c c1]; [done |]. intros [Hc Hs]. unfold is_separator, row_of. cbn [app]. change ((bar =? bar)%N) with true. cbn [andb trimStart].
  change (is_space 32) with true. cbn iota. rewrite Hs. apply bool_decide_eq_false. intros [r E]. by injection E as ->.
Qed.
Lemma clean_head s : trim s = s → match s with c :: _ => is_space c = false | [] => True end.
Proof.
  intros E. destruct s as [| c s]; [done |]. destruct (is_space c) eqn:Ec; [| done]. exfalso. rewrite trim_space in E by done.
  apply (f_equal length) in E. pose proof (trim_length s). cbn in E. lia.
Qed.
Lemma read_render e : clean e → read_row (render_row e) = Some e.
Proof.
  intros [[T1 [B1 N1]] [T2 [B2 N2]] [T3 [B3 N3]] Hh Hl Hn]. rewrite render_row_of, escape_none by done.
  destruct (show_Z_digits (output_chars e) Hn) as (Hd & Hv & Hne). destruct (digits_cell _ Hd) as (T5 & B5 & N5).
  destruct (status_cell (e_status e)) as [(T4 & B4 & N4) Hst].
  assert (tool_call_id e ≠ []) as Hid by (by destruct (tool_call_id e)).
  unfold read_row. rewrite row_trimmed, row_not_separator.
  2: { pose proof (clean_head _ T1). destruct (tool_call_id e); [done |]. by destruct Hh. }
  unfold row_of at 1. change (startsWith (bar :: ?x) [bar]) with (startsWith ([bar] ++ x) [bar]). rewrite startsWith_app. cbn [negb orb].
  unfold row_cells. rewrite row_cells_of by (by repeat constructor). rewrite !trim_cell by done.
  destruct (tool_call_id e) as [| c cid] eqn:Ei; [done |]. destruct (show_Z (output_chars e)) as [| d ds] eqn:Es; [done |].
  assert (forallb is_digit (d :: ds) = true) as Hf by (apply forallb_forall; intros x Hx%list_elem_of_In; by eapply Forall_forall in Hd).
  rewrite Hf. cbn [mbind option_bind]. rewrite bool_decide_false by done.
  assert (startsWith (c :: cid) (js "(") = false) as -> by (apply bool_decide_eq_false; intros [r E]; destruct Hh as [_ Hh]; by injection E as ->).
  cbn [orb]. rewrite Hv, Hst, <- Ei. by destruct e.
Qed.

(** ** A section is found again *)

Lemma startsWith_line a b needle : newline ∉ needle → startsWith (a ++ newline :: b) needle = startsWith a needle.
Proof.
  intros Hf. apply Bool.eq_iff_eq_true. unfold startsWith. rewrite !bool_decide_eq_true. split; [| by intros [r ->]; exists (r ++ newline :: b); rewrite app_assoc].
  intros [r E]. destruct (app_eq_app _ _ _ _ E) as (l & [[H1 H2] | [H1 H2]]); [by exists l |].
  destruct l as [| c l]; [exists []; rewrite app_nil_r in H1 |- *; done |]. exfalso. apply Hf. rewrite H1.
  injection H2 as <- _. apply elem_of_app. right. by left.
Qed.
Lemma blank_to_end_line q w w' : blank_to_end (q ++ newline :: w) = blank_to_end (q ++ newline :: w').
Proof. induction q as [| c q IH]; [done |]. cbn. by rewrite IH. Qed.
(** What follows a section of text does not start as the name does. *)
Definition apart (y : jsstr) : Prop := match y with c :: _ => is_space c = false ∧ startsWith (asciiLower y) (js "tool_index") = false | [] => True end.
Lemma marker_after_line s y y' : apart y → apart y' → marker_after (s ++ blank_line ++ y) = marker_after (s ++ blank_line ++ y').
Proof.
  intros Hy Hy'. assert (∀ y, apart y → trimStart (newline :: newline :: y) = y) as G.
  { intros z Hz. cbn. destruct z as [| c z]; [done |]. cbn. destruct Hz as [-> _]. done. }
  assert (∀ y, apart y → startsWith (asciiLower y) (js "tool_index") = false) as F by (intros [| c z] Hz; [done | apply Hz]).
  unfold blank_line. cbn [app]. destruct s as [| c s]; cbn [app marker_after].
  - change (trimStart (newline :: ?z)) with (trimStart (newline :: newline :: z)). by rewrite !G, !F.
  - f_equal. rewrite !trimStart_app, !G by done. destruct (trimStart s) as [| d s'] eqn:Es; [by rewrite !F |].
    unfold asciiLower. rewrite !map_app. change (map ?f (newline :: ?z)) with (newline :: map f z).
    rewrite !startsWith_line by by_compute. destruct (startsWith _ (js "tool_index")) eqn:Ep; [| done]. cbn [andb].
    apply bool_decide_eq_true in Ep. apply prefix_length in Ep. rewrite length_map in Ep. change (length (js "tool_index")) with 10%nat in Ep.
    rewrite !drop_app_le by done. apply blank_to_end_line.
Qed.
Lemma marker_context s y y' : apart y → apart y' → marker_here (s ++ blank_line ++ y) = marker_here (s ++ blank_line ++ y').
Proof.
  intros Hy Hy'. unfold marker_here. assert (∀ needle z, newline ∉ needle → startsWith (s ++ blank_line ++ z) needle = startsWith s needle) as G
    by (intros needle z Hn; by apply (startsWith_line s)). rewrite !G by by_compute.
  assert (∀ k needle, length needle = k → startsWith s needle = true → marker_after (drop k (s ++ blank_line ++ y)) = marker_after (drop k (s ++ blank_line ++ y'))) as F.
  { intros k needle <- Hp%bool_decide_eq_true%prefix_length. rewrite !drop_app_le by done. by apply marker_after_line. }
  destruct (startsWith s (js "##")) eqn:E2; [| done]. rewrite (F 2%nat (js "##")) by done. f_equal. f_equal.
  destruct (startsWith s (js "###")) eqn:E3; [| done]. by rewrite (F 3%nat (js "###")).
Qed.
Lemma marker_found s y b : apart y → marker_here y = true → marker_from b (s ++ blank_line) = None →
  marker_from b (s ++ blank_line ++ y) = Some (length s + 2)%nat.
Proof.
  intros Ha Hm. revert b. induction s as [| c s IH]; intros b.
  - intros _. cbn [app blank_line marker_from]. change (marker_here (newline :: ?z)) with false. rewrite andb_false_r.
    change (is_terminator newline) with true. change (marker_here (newline :: ?z)) with false. cbn [andb fmap option_fmap option_map].
    destruct y as [| c y]; [done |]. cbn [marker_from]. by rewrite Hm.
  - cbn [app marker_from]. pose proof (marker_context (c :: s) y [] Ha I) as Hc. rewrite app_nil_r in Hc. cbn [app] in Hc. rewrite Hc.
    destruct (b && marker_here (c :: s ++ blank_line)); [done |]. intros E. rewrite IH; [done |].
    by destruct (marker_from (is_terminator c) (s ++ blank_line)).
Qed.

Definition body_rows (es : list ToolIndexEntry) : list jsstr := match es with [] => [empty_row] | _ => map render_row es end.
Lemma row_flat c1 c2 c3 c4 c5 : Forall (λ c, newline ∉ c) [c1; c2; c3; c4; c5] → newline ∉ row_of c1 c2 c3 c4 c5.
Proof.
  rewrite !Forall_cons. intros (H1 & H2 & H3 & H4 & H5 & _). unfold row_of, bar.
  rewrite !not_elem_of_cons, !not_elem_of_app, !not_elem_of_cons, !not_elem_of_app. set_unfold. naive_solver.
Qed.
Lemma render_row_flat e : clean e → newline ∉ render_row e.
Proof.
  intros [[T1 [B1 N1]] [T2 [B2 N2]] [T3 [B3 N3]] _ _ Hn]. rewrite render_row_of, escape_none by done. apply row_flat.
  destruct (show_Z_digits (output_chars e) Hn) as (Hd & _). destruct (digits_cell _ Hd) as (_ & _ & N5).
  destruct (status_cell (e_status e)) as [(_ & _ & N4) _]. by repeat constructor.
Qed.
Lemma section_lines_flat es : Forall clean es → Forall (λ l, newline ∉ l) (table_head ++ body_rows es ++ [[]]).
Proof.
  intros H. rewrite !Forall_app. split; [by_compute | split; [| by_compute]]. unfold body_rows. destruct es; [by_compute |].
  apply Forall_fmap. eapply Forall_impl; [exact H | apply render_row_flat].
Qed.
Lemma drop_returns_app A B : B ≠ [] → drop_returns (A ++ B) = map drop_return A ++ drop_returns B.
Proof.
  intros HB. induction A as [| a A IH]; [done |]. cbn [app map]. rewrite <- IH. destruct (A ++ B) eqn:E; [| done].
  by apply app_eq_nil in E as [_ ->].
Qed.
Lemma drop_return_row l : drop_return (l ++ [bar]) = l ++ [bar].
Proof. unfold drop_return. by rewrite reverse_snoc. Qed.
Lemma drop_return_render e : drop_return (render_row e) = render_row e.
Proof.
  unfold render_row. set (c := join _ _). change (js " |") with ([32%N] ++ [bar]). rewrite !app_assoc. apply drop_return_row.
Qed.
Lemma section_rows es : Forall clean es → omap read_row (map drop_return (table_head ++ body_rows es ++ [[]])) = es.
Proof.
  intros H. rewrite !map_app, !omap_app. change (omap read_row (map drop_return table_head)) with (@nil ToolIndexEntry).
  change (omap read_row (map drop_return [[]])) with (@nil ToolIndexEntry). rewrite app_nil_r. cbn [app].
  destruct es as [| e es]; [by vm_compute |]. unfold body_rows. rewrite map_map. erewrite map_ext; [| apply drop_return_render].
  induction H as [| x xs Hx Hxs IH]; [done |]. cbn [map omap list_omap]. rewrite read_render by done. by rewrite IH.
Qed.
Lemma section_split es r : Forall clean es → split_lines (renderSection es ++ newline :: r) =
  map drop_return (table_head ++ body_rows es ++ [[]]) ++ split_lines r.
Proof.
  intros H. unfold split_lines. rewrite <- drop_returns_app by apply split_on_nonempty. f_equal.
  unfold renderSection. fold (body_rows es). apply split_join_app; [by apply section_lines_flat | done].
Qed.
Lemma section_marker es r : apart (renderSection es ++ newline :: r) ∧ marker_here (renderSection es ++ newline :: r) = true.
Proof. by destruct es. Qed.

(** An index is read back behind a text without one. *)
Lemma index_read_back prose es rest : Forall clean es → findMarkerIndex (prose ++ blank_line) = None →
  omap read_row (split_lines rest) = [] →
  parseFromBody (prose ++ blank_line ++ renderSection es ++ newline :: rest) = es.
Proof.
  intros Hes Hp Hr. destruct (section_marker es rest) as [Ha Hm]. unfold parseFromBody, findMarkerIndex in *. rewrite marker_found by done.
  assert (drop (length prose + 2) (prose ++ blank_line ++ renderSection es ++ newline :: rest) = renderSection es ++ newline :: rest) as ->
    by (by rewrite drop_app_add).
  by rewrite section_split, omap_app, Hr, app_nil_r, section_rows.
Qed.

(** ** A section is taken out *)

Lemma table_line_row l : is_table_line (bar :: l) = true.
Proof.
  unfold is_table_line. apply bool_decide_eq_true. destruct (trim_prefix bar l eq_refl) as [r E]. unfold trim in *.
  cbn [trimStart] in *. change (is_space bar) with false in *. cbn iota in *.
  destruct (trimEnd (bar :: l)) as [| c t] eqn:Et; [| exists t; cbn in E; by injection E as -> _].
  exfalso. change (bar :: l) with ([] ++ bar :: l) in Et. by rewrite trimEnd_app_nonspace in Et.
Qed.
Lemma skip_lines_app p A B : Forall (λ l, p l = true) A → match B with l :: _ => p l = false | [] => True end →
  skip_lines p (A ++ B) = length A.
Proof. intros HA HB. induction HA as [| a A Ha HA IH]; [destruct B as [| l B]; cbn; [done | by rewrite HB] |]. cbn. by rewrite Ha, IH. Qed.
Lemma body_rows_table es : Forall (λ l, is_table_line l = true) (body_rows es).
Proof.
  destruct es as [| e es]; [by repeat constructor |]. apply Forall_fmap, Forall_true. intros x. apply table_line_row.
Qed.
Lemma map_drop_return es : map drop_return (table_head ++ body_rows es) = table_head ++ body_rows es.
Proof.
  rewrite map_app. f_equal. destruct es as [| e es]; [done |]. unfold body_rows. rewrite map_map. apply map_ext. apply drop_return_render.
Qed.
Lemma strip_section prose es rest : Forall clean es →
  strip_at (length prose + 2) (prose ++ blank_line ++ renderSection es ++ newline :: rest) =
  trimEnd prose ++ (match trimEnd prose, drop_newlines rest with _ :: _, _ :: _ => blank_line | _, _ => [] end) ++ drop_newlines rest.
Proof.
  intros Hes. unfold strip_at. set (s := prose ++ _).
  assert (drop (length prose + 2) s = renderSection es ++ newline :: rest) as E1 by (unfold s; by rewrite drop_app_add).
  assert (trimEnd (take (length prose + 2) s) = trimEnd prose) as ->.
  { unfold s. rewrite take_app_add. change (take 2 (blank_line ++ ?x)) with blank_line. apply trimEnd_app_space. by repeat constructor. }
  rewrite E1, section_split by done. rewrite (app_assoc table_head), map_app, map_drop_return. cbn [map]. change (drop_return []) with (@nil N).
  set (table := table_head ++ body_rows es). rewrite <- app_assoc.
  assert (section_lines (table ++ [[]] ++ split_lines rest) = length table) as ->.
  { unfold section_lines, table. change (drop 1 ((table_head ++ ?x) ++ ?y)) with ([[]] ++ drop 2 table_head ++ x ++ y).
    rewrite (skip_lines_app is_blank_line [[]]) by (by repeat constructor).
    change (drop (S (length [[]])) ((table_head ++ ?x) ++ ?y)) with ((drop 2 table_head ++ x) ++ y).
    rewrite skip_lines_app; [rewrite !length_app; cbn; lia | | done].
    apply Forall_app. split; [by repeat constructor | apply body_rows_table]. }
  rewrite take_app_length. assert (renderSection es = join [newline] table ++ [newline]) as E2.
  { unfold renderSection. fold (body_rows es). rewrite app_assoc. fold table. rewrite join_app_sep by done. cbn [join]. by rewrite app_nil_r. }
  set (consumed := length (join [newline] table)).
  assert (drop (length prose + 2 + consumed) s = newline :: newline :: rest) as ->.
  { rewrite <- drop_drop, E1, E2, <- app_assoc. apply drop_app_length. }
  done.
Qed.

(** ** The body that is stored ([compaction.ts], [defaultWriteAnchor]) *)

Definition index_bytes : Z := 30000.
Definition inject (summaryText : jsstr) (messages : list message) : jsstr :=
  match merge (parseFromBody summaryText) (extractFromJournal messages) with
  | [] => summaryText
  | merged => trimEnd (stripAllSections summaryText) ++ blank_line ++ renderSection (applyBudget merged index_bytes).1
  end.
Lemma budget_fits es n : section_bytes es <= n → applyBudget es n = (es, O).
Proof.
  intros H. unfold applyBudget. assert (trim_oldest n (Nat.min RETAIN_RECENT_MIN (length es)) es 0 = (es, O)) as ->; [| done].
  destruct es as [| e es]; [done |]. cbn [trim_oldest]. by rewrite (proj2 (Z.leb_le _ _) H), orb_true_r.
Qed.
Lemma inject_section prose es rest messages : let fresh := extractFromJournal messages in
  let plain := trimEnd prose ++ (match trimEnd prose, drop_newlines rest with _ :: _, _ :: _ => blank_line | _, _ => [] end) ++ drop_newlines rest in
  Forall clean es → findMarkerIndex (prose ++ blank_line) = None → omap read_row (split_lines rest) = [] →
  findMarkerIndex plain = None → merge es fresh ≠ [] → section_bytes (merge es fresh) <= index_bytes →
  inject (prose ++ blank_line ++ renderSection es ++ newline :: rest) messages = trimEnd plain ++ blank_line ++ renderSection (merge es fresh).
Proof.
  intros fresh plain Hes Hp Hr Hplain Hne Hb. unfold inject. fold fresh.
  rewrite index_read_back by done.
  destruct (merge es fresh) as [| e merged] eqn:Em; [done |]. rewrite budget_fits by done. cbn [fst]. do 2 f_equal.
  assert (∀ k, strip_loop k plain = plain) as G by (intros [| k]; cbn [strip_loop]; [done | by rewrite Hplain]).
  destruct (section_marker es rest) as [Ha Hm]. unfold stripAllSections. change (strip_loop 100 ?s) with (match findMarkerIndex s with None => s | Some i => strip_loop 99 (strip_at i s) end).
  unfold findMarkerIndex in *.
  rewrite marker_found, strip_section by done. fold plain. apply G.
Qed.
Lemma merge_clean prior fresh : Forall clean prior → Forall clean fresh → Forall clean (merge prior fresh).
Proof. intros Hp Hf. unfold merge. apply Forall_app. split; [| done].
  apply Forall_forall. intros e [_ He]%list_elem_of_filter. by eapply Forall_forall in Hp.
Qed.

(** C24. Storing an anchor replaces the index inside of its text by one at its
    end: the old text without the table, what was written after it, and the
    entries of the old index that were not called again, then the new ones.  They
    are read back there.  All this when the cells are clean (no bar or line break
    is in them, as in [clean]), no other text has an index or a row, and the new
    index is within its budget. *)
Theorem index_replaced prose es rest messages closing : let fresh := extractFromJournal messages in
  let plain := trimEnd prose ++ (match trimEnd prose, drop_newlines rest with _ :: _, _ :: _ => blank_line | _, _ => [] end) ++ drop_newlines rest in
  Forall clean es → findMarkerIndex (prose ++ blank_line) = None → omap read_row (split_lines rest) = [] →
  findMarkerIndex plain = None → merge es fresh ≠ [] → section_bytes (merge es fresh) <= index_bytes →
  let out := inject (prose ++ blank_line ++ renderSection es ++ newline :: rest) messages in
  out = trimEnd plain ++ blank_line ++ renderSection (merge es fresh) ∧
  (Forall clean fresh → findMarkerIndex (trimEnd plain ++ blank_line) = None → omap read_row (split_lines closing) = [] →
    parseFromBody (out ++ newline :: closing) = merge es fresh).
Proof.
  intros fresh plain Hes Hp Hr Hplain Hne Hb out.
  assert (out = trimEnd plain ++ blank_line ++ renderSection (merge es fresh)) as -> by (by apply inject_section). split; [done |].
  intros Hf Ht Hc. rewrite <- !app_assoc. apply index_read_back; [by apply merge_clean | done | done].
Qed.

(** A bar in the arguments of a call is escaped when its row is printed, but the
    pattern that reads rows knows no escapes: the row is not read. *)
Definition bars (s : jsstr) : nat := length (filter (λ c, c = bar) s).
Lemma bars_app s t : bars (s ++ t) = (bars s + bars t)%nat.
Proof. unfold bars. by rewrite filter_app, length_app. Qed.
Lemma bars_cons c s : bars (c :: s) = ((if (c =? bar)%N then 1 else 0) + bars s)%nat.
Proof. unfold bars. rewrite filter_cons. destruct (N.eqb_spec c bar); [by rewrite decide_True | by rewrite decide_False]. Qed.
Lemma split_bars s : length (split_on bar s) = S (bars s).
Proof.
  induction s as [| c s IH]; [done |]. cbn [split_on]. rewrite bars_cons. destruct (c =? bar)%N; [cbn; by rewrite IH |].
  destruct (split_on bar s); [done |]. exact IH.
Qed.
Lemma escape_more s : (bars s <= bars (escape_bars s))%nat.
Proof.
  induction s as [| c s IH]; [done |]. cbn [escape_bars]. destruct (c =? bar)%N eqn:E; rewrite !bars_cons, E; cbn; lia.
Qed.
Theorem bars_lost e : bar ∈ args_brief e → read_row (render_row e) = None.
Proof.
  intros Hin. assert (0 < bars (args_brief e))%nat as Hb.
  { unfold bars. assert (bar ∈ filter (λ c, c = bar) (args_brief e)) as H by (by apply list_elem_of_filter). destruct (filter _ _); [by apply not_elem_of_nil in H | cbn; lia]. }
  pose proof (escape_more (args_brief e)) as He. unfold read_row. rewrite render_row_of, row_trimmed. destruct (_ || _); [done |].
  unfold row_cells. match goal with |- context [split_on bar ?r] => pose proof (split_bars r) as Hl; assert (6 < bars r)%nat as Hr end.
  { unfold row_of. set (x := escape_bars _) in *. repeat (rewrite bars_cons || rewrite bars_app). change ((bar =? bar)%N) with true. cbn iota. lia. }
  set (k := bars _) in Hl, Hr. clearbody k.
  destruct (split_on bar _) as [| l0 [| l1 [| l2 [| l3 [| l4 [| l5 [| l6 [| l7 ls]]]]]]]]; cbn in Hl; first [lia | by destruct l0, l6].
Qed.

(** ** What the cut keeps *)

Lemma trim_oldest_spec n floor es k : (floor <= length es)%nat → ∃ dropped, es = dropped ++ (trim_oldest n floor es k).1 ∧
  (trim_oldest n floor es k).2 = (length dropped + k)%nat ∧ (floor <= length (trim_oldest n floor es k).1)%nat ∧
  (section_bytes (trim_oldest n floor es k).1 <= n ∨ length (trim_oldest n floor es k).1 = floor).
Proof.
  revert k. induction es as [| e es IH]; intros k Hf; cbn [trim_oldest].
  - exists []. cbn in *. split; [done |]. split; [done |]. split; [lia | right; lia].
  - destruct ((length (e :: es) <=? floor)%nat || (section_bytes (e :: es) <=? n)) eqn:E.
    + exists []. split; [done |]. split; [done |]. split; [done |]. cbn [fst].
      apply orb_true_iff in E as [E%Nat.leb_le | E%Z.leb_le]; [right; lia | by left].
    + apply orb_false_iff in E as [E%Nat.leb_gt _]. destruct (IH (S k)) as (dropped & He & Hk & Hl & Hb); [cbn in E; lia |].
      exists (e :: dropped). split; [by rewrite He at 1 |]. split; [rewrite Hk; cbn; lia | done].
Qed.
(** A cut index keeps the newest calls, ten at least when there are so many,
    with their names and how they ended; it loses their details only when these
    ten alone are too long, and a first row tells how many were dropped. *)
Theorem budget_keeps_recent es n : let '(out, truncated) := applyBudget es n in
  ∃ dropped kept, es = dropped ++ kept ∧ length dropped = truncated ∧ (Nat.min RETAIN_RECENT_MIN (length es) <= length kept)%nat ∧
    (section_bytes kept <= n ∨ length kept = Nat.min RETAIN_RECENT_MIN (length es)) ∧
    (truncated = O → out = es) ∧
    (truncated ≠ O → out = placeholder truncated (length kept) :: (if n <? section_bytes kept then map strip_detail kept else kept)).
Proof.
  destruct (trim_oldest_spec n (Nat.min RETAIN_RECENT_MIN (length es)) es 0) as (dropped & He & Hk & Hl & Hb); [lia |].
  unfold applyBudget. destruct (trim_oldest n _ es 0) as [kept truncated]. cbn [fst snd] in *. rewrite Nat.add_0_r in Hk. subst truncated.
  exists dropped, kept. split; [done |]. split; [done |]. split; [done |]. split; [done |]. destruct dropped as [| d ds].
  - cbn [length app]. change ((0 <? 0)%nat) with false. cbn [andb]. split; [by intros _ | done].
  - cbn [length]. change ((0 <? S (length ds))%nat) with true. cbn [andb]. split; [done |]. intros _. f_equal. f_equal.
    destruct (n <? section_bytes kept); [by rewrite length_map | done].
Qed.

(** ** Examples *)

Definition call (i name input : string) : part := Tool (mkTool (js i) (js name) completed (Some (JStr (js input))) (Some (js "out")) None).
Definition calls (ps : list part) : list message := [mkMessage (mkInfo (js "m") assistant 0 false (Some tool_calls) no_tokens) ps].
Definition read_entry (i : string) : ToolIndexEntry := mkEntry (js i) (js "read") (js "src/a.ts") ok 3.
Lemma clean_demo i : Forall (λ c, is_space c = false ∧ c ≠ bar ∧ c ≠ newline) (js i) → match js i with c :: _ => c ≠ 45%N ∧ c ≠ 40%N | [] => False end →
  toLowerCase (js i) ≠ js "tool_call_id" → clean (read_entry i).
Proof.
  intros H Hh Hl. split; try done; [| split; [by vm_compute | split; by_compute] | split; [by vm_compute | split; by_compute]].
  split; [apply trim_dense; eapply Forall_impl; [exact H | by intros c (? & _)] |].
  rewrite Forall_forall in H. split; intros Hc; by destruct (H _ Hc) as (_ & ? & ?).
Qed.
Definition old_index : list ToolIndexEntry := [read_entry "c1"; read_entry "c2"].
Lemma old_clean : Forall clean old_index.
Proof. repeat (apply Forall_cons; split; [apply clean_demo; by_compute |]). by apply Forall_nil. Qed.
Definition old_prose : jsstr := js "<prior_context source=x>" ++ [newline] ++ js "## Round 1".
Definition next_part : jsstr := js "</prior_context>" ++ blank_line ++ js "## Round 2".
Definition new_calls : list message := calls [call "c2" "read" "src/a.ts"; call "c3" "read" "src/a.ts"].
Lemma index_replaced_witness :
  inject (old_prose ++ blank_line ++ renderSection old_index ++ newline :: next_part) new_calls =
    old_prose ++ blank_line ++ next_part ++ blank_line ++ renderSection (map read_entry ["c1"; "c2"; "c3"]%string) ∧
  parseFromBody (inject (old_prose ++ blank_line ++ renderSection old_index ++ newline :: next_part) new_calls ++ newline :: js "</prior_context>") =
    map read_entry ["c1"; "c2"; "c3"]%string.
Proof.
  destruct (index_replaced old_prose old_index next_part new_calls (js "</prior_context>")) as [-> H];
    [apply old_clean | by vm_compute | by vm_compute | by vm_compute | by vm_compute | by vm_compute |].
  split; [by vm_compute |]. etransitivity; [apply H | by vm_compute]; [| by vm_compute | by vm_compute].
  repeat (apply Forall_cons; split; [apply (clean_demo "c2") || apply (clean_demo "c3"); by_compute |]). by apply Forall_nil.
Defined.
Lemma bars_lost_witness : read_row (render_row (mkEntry (js "c1") (js "bash") (js "ls | wc") ok 3)) = None.
Proof. apply bars_lost. by_compute. Defined.
(** So the call is not in the index that the next anchor takes over. *)
Example pipe_forgotten :
  parseFromBody (inject (js "## Round 1") (calls [call "c1" "bash" "ls | wc"; call "c2" "read" "src/a.ts"]) ++ newline :: js "</prior_context>") =
  [read_entry "c2"].
Proof. by vm_compute. Qed.
(** Ten calls or fewer keep their details however long they are. *)
Example few_not_stripped :
  applyBudget old_index 10 = (old_index, O) ∧ 10 < section_bytes old_index.
Proof. by vm_compute. Qed.
