(* ===== verification/AnchorText.v ===== *)
(** * What an anchor says from one compaction to the next ([session/compaction.ts], [defaultWriteAnchor])

    The body that is stored: the index of calls goes to the end, then the
    wrapper and the prefix of commands.  An anchor that is extended again and
    again stays one text with one index. *)
From stdpp Require Import base list.
From S2P Require Import Prelude JsString Json Dialog Anchor ToolIndex.
Open Scope nat_scope.

Definition augmented (k : AnchorKind) (summaryText : jsstr) (ms : list message) : jsstr :=
  match k with ai_free => summaryText | _ => inject summaryText ms end.
Definition stored_body (k : AnchorKind) (summaryText : jsstr) (ms : list message) : jsstr :=
  sanitizeAnchorToString (augmented k summaryText ms) (kind_text k) false.

(** ** Texts without an index *)

Definition absent (needle t : jsstr) : Prop := ∀ pre, ¬ occurs t needle pre.
Lemma absent_sep c needle a b : c ∉ needle → needle ≠ [] → absent needle a → absent needle b → absent needle (a ++ c :: b).
Proof.
  intros Hc Hne Ha Hb pre [post E]. destruct (app_eq_app _ _ _ _ E) as (l & [[H1 H2] | [H1 H2]]).
  - destruct (app_eq_app _ _ _ _ H2) as (l' & [[H3 H4] | [H3 H4]]).
    + destruct l' as [| d l']; [| injection H4 as <- _; apply Hc; rewrite H3; apply elem_of_app; right; by left].
      apply (Ha pre). exists []. by rewrite H1, H3, !app_nil_r.
    + apply (Ha pre). exists l'. by rewrite H1, H3.
  - destruct l as [| d l]; [| injection H2 as <- H2; apply (Hb l); by exists post].
    destruct needle as [| d needle]; [done |]. cbn in H2. injection H2 as <- _. apply Hc. by left.
Qed.
Lemma absent_suffix needle a b : absent needle (a ++ b) → absent needle b.
Proof. intros H pre [post ->]. apply (H (a ++ pre)). exists post. by rewrite <- app_assoc. Qed.
Definition index_name : jsstr := js "tool_index".
(** The name of an index, in letters of whatever case, is nowhere in a text. *)
Definition unindexed (t : jsstr) : Prop := absent index_name (asciiLower t).
Lemma unindexed_line a b : unindexed a → unindexed b → unindexed (a ++ newline :: b).
Proof.
  intros Ha Hb. unfold unindexed, asciiLower. rewrite map_app. change (map ?f (newline :: b)) with (newline :: map f b).
  apply absent_sep; [by_compute | done | done | done].
Qed.
Lemma unindexed_nil : unindexed [].
Proof. by intros [] [post E]. Qed.
Lemma unindexed_blank a b : unindexed a → unindexed b → unindexed (a ++ blank_line ++ b).
Proof. intros Ha Hb. apply (unindexed_line a (newline :: b)); [done |]. by apply (unindexed_line []); [apply unindexed_nil |]. Qed.
Lemma unindexed_suffix a b : unindexed (a ++ b) → unindexed b.
Proof. unfold unindexed, asciiLower. rewrite map_app. apply absent_suffix. Qed.
Lemma marker_after_named s : marker_after s = true → ¬ unindexed s.
Proof.
  destruct s as [| c s]; [done |]. intros [_ H]%andb_true_iff Hu. apply andb_true_iff in H as [[post E]%bool_decide_eq_true _].
  destruct (trimStart_suffix s) as [p Ep]. rewrite Ep in Hu. change (c :: p ++ trimStart s) with ((c :: p) ++ trimStart s) in Hu.
  apply unindexed_suffix in Hu. apply (Hu []). by exists post.
Qed.
Lemma marker_here_named s : marker_here s = true → ¬ unindexed s.
Proof.
  intros [_ H]%andb_true_iff Hu. assert (∀ k, unindexed (drop k s)) as G by (intros k; apply (unindexed_suffix (take k s)); by rewrite take_drop).
  apply orb_true_iff in H as [H | [_ H]%andb_true_iff]; by apply marker_after_named in H; destruct H.
Qed.
Lemma unindexed_marker t : unindexed t → findMarkerIndex t = None.
Proof.
  unfold findMarkerIndex. generalize true. induction t as [| c t IH]; intros b Hu.
  - cbn. by destruct b.
  - cbn [marker_from]. destruct (b && marker_here (c :: t)) eqn:E; [apply andb_true_iff in E as [_ E]; by apply marker_here_named in E |].
    rewrite IH; [done |]. by apply (unindexed_suffix [c]).
Qed.
Lemma soften_line_unindexed l : unindexed l → unindexed (soften_line l).
Proof.
  intros Hl. unfold soften_line. destruct (is_imperative l); [| done]. destruct (trimStart_split l) as [E Hs].
  set (a := take _ l) in *. rewrite E in Hl. apply unindexed_suffix in Hl. unfold unindexed, asciiLower in *. rewrite !map_app.
  change (map _ SOFT_PREFIX) with (js "note from prior context:" ++ [32%N]). rewrite <- app_assoc, app_assoc.
  change ([32%N] ++ ?x) with (32%N :: x). apply absent_sep; [by_compute | done | | done]. intros pre Ho.
  apply (occurs_skip 116%N (tail index_name)) in Ho as [pre' Ho].
  - destruct (occurs_indexOf _ _ _ Ho) as [j Hj]. by vm_compute in Hj.
  - intros (c & Ec & Hc)%list_elem_of_fmap. rewrite Forall_forall in Hs. apply Hs in Hc. revert Ec. case_match; [| by intros <-].
    intros Ec. by assert (c = 84%N) as -> by lia.
Qed.
Lemma unindexed_join ls : Forall unindexed ls → unindexed (join [newline] ls).
Proof.
  induction 1 as [| l [| l' ls] Hl _ IH]; [apply unindexed_nil | done |].
  change (join [newline] (l :: l' :: ls)) with (l ++ newline :: join [newline] (l' :: ls)). by apply unindexed_line.
Qed.
Lemma unindexed_join_inv ls : unindexed (join [newline] ls) → Forall unindexed ls.
Proof.
  induction ls as [| l [| l' ls] IH]; [by constructor | by constructor |].
  change (join [newline] (l :: l' :: ls)) with (l ++ newline :: join [newline] (l' :: ls)). intros H. constructor.
  - intros pre [post E]. apply (H pre). exists (post ++ newline :: asciiLower (join [newline] (l' :: ls))).
    unfold asciiLower in *. rewrite map_app, E, <- !app_assoc. done.
  - apply IH. by apply (unindexed_suffix (l ++ [newline])); rewrite <- app_assoc.
Qed.
Lemma soften_unindexed t : unindexed t → unindexed (soften t).
Proof.
  intros H. rewrite <- (join_split newline t) in H. apply unindexed_join_inv in H. unfold soften. apply unindexed_join, Forall_fmap.
  eapply Forall_impl; [exact H | apply soften_line_unindexed].
Qed.

(** ** Texts that do not end with white space *)

Definition dense (t : jsstr) : Prop := match last t with Some c => is_space c = false | None => False end.
Lemma dense_nonempty t : dense t → t ≠ [].
Proof. by destruct t. Qed.
Lemma dense_app s t : dense t → dense (s ++ t).
Proof. unfold dense. rewrite last_app. by destruct (last t). Qed.
Lemma dense_trim t : dense t → trimEnd t = t.
Proof. destruct t as [| c t _] using rev_ind; [done |]. unfold dense. rewrite last_snoc. apply trimEnd_nonspace. Qed.
Lemma soften_line_last l : last (soften_line l) = last l.
Proof.
  unfold soften_line. destruct (is_imperative l) eqn:E; [| done]. destruct (trimStart_split l) as [El _]. rewrite El at 5.
  rewrite !last_app. destruct (last (trimStart l)) eqn:Et; [done |]. apply last_None in Et. unfold is_imperative in E. rewrite Et in E.
  by vm_compute in E.
Qed.
Lemma soft_join_last ls : last (join [newline] (map soften_line ls)) = last (join [newline] ls).
Proof.
  induction ls as [| l [| l' ls] IH]; [done | apply soften_line_last |].
  change (last (soften_line l ++ newline :: join [newline] (map soften_line (l' :: ls))) = last (l ++ newline :: join [newline] (l' :: ls))).
  rewrite !last_app, !last_cons, IH. by destruct (last (join [newline] (l' :: ls))).
Qed.
Lemma soften_dense t : dense t → dense (soften t).
Proof. unfold dense, soften. by rewrite soft_join_last, join_split. Qed.

(** ** One extension *)

Lemma table_line_soft l : soften_line (bar :: l) = bar :: l.
Proof. unfold soften_line, is_imperative. by change (trimStart (bar :: l)) with (bar :: l). Qed.
Lemma section_soft es : Forall clean es → soften (renderSection es) = renderSection es.
Proof.
  intros H. unfold soften, renderSection. fold (body_rows es). rewrite split_join by (done || by apply section_lines_flat). f_equal.
  rewrite !map_app. f_equal. f_equal. destruct es as [| e es]; [done |]. unfold body_rows. rewrite map_map. apply map_ext. intros x. apply table_line_soft.
Qed.
Lemma section_end es : ∃ s, renderSection es = s ++ [newline].
Proof.
  unfold renderSection. rewrite app_assoc. rewrite join_app_sep by done. by eexists.
Qed.
Lemma not_closed s : endsWith (s ++ [newline]) WRAPPER_CLOSE = false.
Proof. apply not_true_is_false. intros H%endsWith_line; [| apply close_flat]. done. Qed.
Lemma rows_after_close t : omap read_row (split_lines t) = [] → omap read_row (split_lines (WRAPPER_CLOSE ++ blank_line ++ t)) = [].
Proof.
  intros H. unfold split_lines, blank_line in *. cbn [app]. rewrite !split_app_no_sep by apply close_flat.
  change (newline :: t) with ([] ++ newline :: t). rewrite split_app_no_sep by apply not_elem_of_nil.
  change (drop_returns (WRAPPER_CLOSE :: [] :: ?x)) with (drop_returns ([WRAPPER_CLOSE; []] ++ x)).
  rewrite drop_returns_app by apply split_on_nonempty. by rewrite omap_app, H.
Qed.
Lemma merge_nonempty es fresh : es ≠ [] → merge es fresh ≠ [].
Proof.
  intros He. unfold merge. destruct fresh as [| f fresh]; [| by destruct (filter _ es)].
  rewrite filter_all by (apply Forall_forall; intros x _; apply not_elem_of_nil). by rewrite app_nil_r.
Qed.

(** A text, and the calls in its index. *)
Definition content : Type := jsstr * list ToolIndexEntry.
Definition shown (c : content) : jsstr := match c.2 with [] => c.1 | es => c.1 ++ blank_line ++ renderSection es end.
(** What is said since comes after the old text; the index goes to the end, where
    it was a line break is left. *)
Definition grown (c : content) (t : jsstr) (fresh : list ToolIndexEntry) : content :=
  (c.1 ++ (match c.2 with [] => [] | _ => [newline] end) ++ blank_line ++ soften t, merge c.2 fresh).
Record good_text (u : jsstr) : Prop := {
  g_framed : framed u;
  g_dense : dense u;
  g_unindexed : unindexed u
}.
Record good_tail (t : jsstr) : Prop := {
  t_dense : dense t;
  t_open : open_text t;
  t_unindexed : unindexed t;
  t_rows : omap read_row (split_lines t) = []
}.
Section Extension.
Context (k k' : AnchorKind) (u t : jsstr) (es : list ToolIndexEntry) (ms : list message).
Context (Hk : k' ≠ ai_free) (Hu : good_text u) (Ht : good_tail t).
Let fresh := extractFromJournal ms.
Lemma tag_unindexed : unindexed (open_tag (kind_text k) []).
Proof. destruct k; intros pre Ho; destruct (occurs_indexOf _ _ _ Ho) as [j Hj]; by vm_compute in Hj. Qed.
Lemma close_unindexed : unindexed WRAPPER_CLOSE.
Proof. intros pre Ho; destruct (occurs_indexOf _ _ _ Ho) as [j Hj]; by vm_compute in Hj. Qed.
Lemma stored_unindexed v : unindexed v → unindexed (stored k v ++ blank_line ++ t).
Proof.
  intros Hv. apply unindexed_blank; [| by apply t_unindexed]. unfold stored, wrap. apply unindexed_line; [apply tag_unindexed |].
  apply unindexed_line; [done | apply close_unindexed].
Qed.
Lemma grown_good : good_text (grown (u, es) t fresh).1.
Proof.
  destruct Hu as [H1 H2 H3], Ht as [T1 T2 T3 _]. unfold grown. cbn [fst snd].
  assert (∀ nl, nl = [] ∨ nl = [newline] → good_text (u ++ nl ++ blank_line ++ soften t)) as G; [| destruct es; apply G; auto].
  intros nl Hn. split.
  - rewrite app_assoc. apply framed_extends; [| done]. destruct Hn as [-> | ->]; [by rewrite app_nil_r |].
    apply (framed_app u []); [done | by intros [] [post E] | done].
  - rewrite !(app_assoc _ _ (soften t)). by apply dense_app, soften_dense.
  - destruct Hn as [-> | ->]; [apply unindexed_blank | apply (unindexed_line u), (unindexed_blank [])]; try done; try apply unindexed_nil; by apply soften_unindexed.
Qed.
Lemma unindexed_injected : findMarkerIndex (stored k u ++ blank_line ++ t) = None →
  inject (stored k u ++ blank_line ++ t) ms =
  stored k u ++ blank_line ++ t ++ (match fresh with [] => [] | _ => blank_line ++ renderSection (applyBudget fresh index_bytes).1 end).
Proof.
  intros E. unfold inject, parseFromBody, stripAllSections. cbn [strip_loop]. rewrite E. fold fresh. change (merge [] fresh) with fresh.
  destruct fresh; [by rewrite app_nil_r |]. rewrite dense_trim by (rewrite app_assoc; apply dense_app, Ht). by rewrite <- !app_assoc.
Qed.
Lemma indexed_injected : es ≠ [] → Forall clean es → (section_bytes (merge es fresh) <= index_bytes)%Z →
  inject (stored k (u ++ blank_line ++ renderSection es) ++ blank_line ++ t) ms =
  stored k (u ++ [newline]) ++ blank_line ++ t ++ blank_line ++ renderSection (merge es fresh).
Proof.
  intros Hne Hes Hb. pose proof (stored_unindexed (u ++ [newline])) as Hplain.
  set (prose := open_tag (kind_text k) [] ++ newline :: u). set (rest := WRAPPER_CLOSE ++ blank_line ++ t).
  assert (stored k (u ++ blank_line ++ renderSection es) ++ blank_line ++ t = prose ++ blank_line ++ renderSection es ++ newline :: rest) as ->.
  { unfold stored, wrap, prose, rest. rewrite <- !app_assoc. cbn [app]. by rewrite <- !app_assoc. }
  assert (stored k (u ++ [newline]) ++ blank_line ++ t = prose ++ blank_line ++ rest) as Ep.
  { unfold stored, wrap, prose, rest. rewrite <- !app_assoc. cbn [app]. by rewrite <- !app_assoc. }
  assert (trimEnd prose = prose) as Et.
  { apply dense_trim. unfold prose. change (newline :: u) with ([newline] ++ u). rewrite app_assoc. apply dense_app, Hu. }
  assert (prose ++ blank_line ++ rest = trimEnd prose ++ (match trimEnd prose, drop_newlines rest with _ :: _, _ :: _ => blank_line | _, _ => [] end) ++
    drop_newlines rest) as Es by (by rewrite Et).
  rewrite inject_section; rewrite <- ?Es, <- ?Ep; try done.
  - rewrite dense_trim by (rewrite app_assoc; apply dense_app, Ht). by rewrite <- !app_assoc.
  - apply unindexed_marker, (unindexed_line prose [newline]); [| apply (unindexed_line []); apply unindexed_nil].
    apply unindexed_line; [apply tag_unindexed | apply Hu].
  - apply rows_after_close, Ht.
  - apply unindexed_marker, Hplain, (unindexed_line u []); [apply Hu | apply unindexed_nil].
  - by apply merge_nonempty.
Qed.
Lemma stored_grown : Forall clean es → Forall clean fresh → (section_bytes (merge es fresh) <= index_bytes)%Z →
  stored_body k' (stored k (shown (u, es)) ++ blank_line ++ t) ms = stored k' (shown (grown (u, es) t fresh)).
Proof.
  intros Hes Hf Hb. unfold stored_body. assert (∀ s, augmented k' s ms = inject s ms) as -> by (by destruct k').
  pose proof (g_framed u Hu) as Fu. pose proof (dense_nonempty t (t_dense t Ht)) as Hne. destruct es as [| e es'] eqn:Ees.
  - cbn [shown fst snd] in *. rewrite unindexed_injected by (apply unindexed_marker, stored_unindexed, Hu).
    unfold grown. cbn [fst snd app] in *. change (merge [] fresh) with fresh in *. unfold shown. cbn [fst snd].
    destruct fresh as [| f fresh'] eqn:Ef; [rewrite app_nil_r; apply stored_extended; [done.. | apply open_ends, Ht] |].
    rewrite budget_fits by done. cbn [fst]. destruct (section_end (f :: fresh')) as [s Hs]. rewrite stored_extended; [| done | by destruct t |].
    + by rewrite soften_blank, section_soft, <- !app_assoc.
    + rewrite Hs, !app_assoc. apply not_closed.
  - rewrite <- Ees in *. assert (es ≠ []) as He by (by rewrite Ees). assert (shown (u, es) = u ++ blank_line ++ renderSection es) as -> by (by rewrite Ees).
    rewrite indexed_injected by done. destruct (section_end (merge es fresh)) as [s Hs].
    rewrite stored_extended; [| apply (framed_app u []); [done | by intros [] [post E] | done] | by destruct t | rewrite Hs, !app_assoc; apply not_closed].
    rewrite soften_blank, section_soft by (by apply merge_clean). unfold grown, shown. cbn [fst snd]. pose proof (merge_nonempty es fresh He).
    assert (match es with [] => [] | _ => [newline] end = [newline]) as -> by (by rewrite Ees). destruct (merge es fresh); [done |].
    f_equal. by rewrite <- !app_assoc.
Qed.
End Extension.

(** ** Again and again *)

Record extension := mkExtension { x_kind : AnchorKind; x_tail : jsstr; x_messages : list message }.
Definition x_fresh (x : extension) : list ToolIndexEntry := extractFromJournal (x_messages x).
Definition extend (body : jsstr) (x : extension) : jsstr := stored_body (x_kind x) (body ++ blank_line ++ x_tail x) (x_messages x).
Definition grow (c : content) (x : extension) : content := grown c (x_tail x) (x_fresh x).
(** Texts of rounds, and calls whose cells are read back, and fit. *)
Record plain_extension (x : extension) : Prop := {
  x_indexed : x_kind x ≠ ai_free;
  x_good : good_tail (x_tail x);
  x_clean : Forall clean (x_fresh x)
}.
Fixpoint indexes_fit (es : list ToolIndexEntry) (xs : list extension) : Prop :=
  match xs with
  | [] => True
  | x :: xs => (section_bytes (merge es (x_fresh x)) <= index_bytes)%Z ∧ indexes_fit (merge es (x_fresh x)) xs
  end.


(** ** Examples *)

Definition first_text : jsstr := js "## Round 1" ++ blank_line ++ js "**User**" ++ blank_line ++ js "Always check.".
Definition second_round : extension := mkExtension narrative (js "## Round 2" ++ blank_line ++ js "You must stop.") (calls [call "c1" "read" "src/a.ts"; call "c2" "read" "src/a.ts"]).
Definition third_round : extension := mkExtension narrative (js "## Round 3") (calls [call "c2" "read" "src/a.ts"; call "c3" "read" "src/a.ts"]).
Lemma demo_absent needle t : indexOf t needle = None → absent needle t.
Proof. intros E pre Ho. destruct (occurs_indexOf _ _ _ Ho) as [k Hk]. congruence. Qed.
Lemma first_good : good_text (soften first_text).
Proof. split; [split; [by vm_compute | by apply demo_absent; vm_compute | by vm_compute] | by vm_compute | by apply demo_absent; vm_compute]. Qed.
Lemma rounds_plain : Forall plain_extension [second_round; third_round].
Proof.
  assert (∀ x, x ∈ [second_round; third_round] → good_tail (x_tail x) ∧ Forall clean (x_fresh x) ∧ x_kind x = narrative) as G.
  { intros x Hx. rewrite !elem_of_cons in Hx. destruct Hx as [-> | [-> | Hx]]; [| | no_member];
      (split; [split; [by vm_compute | by apply demo_absent; vm_compute.. | by vm_compute] | split; [| done]]);
      (repeat (apply Forall_cons; split; [apply (clean_demo "c1") || apply (clean_demo "c2") || apply (clean_demo "c3"); by_compute |]); by apply Forall_nil). }
  apply Forall_forall. intros x Hx. destruct (G x Hx) as (H1 & H2 & H3). split; [by rewrite H3 | done | done].
Qed.
