(* ===== verification/MessageStream.v ===== *)
(** * The messages of a session and the part of them that a model sees

    The table of messages ([session/storage/sqlite.ts]), the view from the newest
    anchor on ([filterCompacted] of [session/message-v2.ts]), and the question
    that is still open when a context is compacted: finding it and asking it again
    ([session/compaction.ts]).  Files, events and usage counts are left out; a
    part is always new. *)
From stdpp Require Import base list.
From S2P Require Import Prelude JsString Identifier Dialog.
Open Scope Z_scope.

(** ** The table, oldest message first *)

Definition store := list message.
Definition earlier (a b : info) : bool :=
  (created a <? created b) || (created a =? created b) && text_lt (Dialog.id a) (Dialog.id b).
Fixpoint place (m : message) (ms : store) : store :=
  match ms with
  | [] => [m]
  | x :: ms' => if earlier (msg_info m) (msg_info x) then m :: ms else x :: place m ms'
  end.
Definition removeMessage (i : jsstr) (ms : store) : store := filter (λ m, Dialog.id_of m ≠ i) ms.
Definition get (i : jsstr) (ms : store) : option message := find (λ m, bool_decide (Dialog.id_of m = i)) ms.
Definition updateMessage (i : info) (ms : store) : store :=
  place (mkMessage i (from_option parts [] (get (Dialog.id i) ms))) (removeMessage (Dialog.id i) ms).
Definition updatePart (messageID : jsstr) (p : part) (ms : store) : store :=
  map (λ m, if bool_decide (Dialog.id_of m = messageID) then mkMessage (msg_info m) (parts m ++ [p]) else m) ms.
(** A message and its parts one after the other. *)
Definition write (i : info) (ps : list part) (ms : store) : store :=
  foldl (λ ms p, updatePart (Dialog.id i) p ms) (updateMessage i ms) ps.

(** ** The view from the newest anchor on *)

Fixpoint compaction_part (ps : list part) : option (option Z) :=
  match ps with [] => None | Compaction r :: _ => Some r | _ :: ps' => compaction_part ps' end.
Definition is_anchor_row (m : message) : bool := match compaction_part (parts m) with Some _ => true | None => false end.
(** Newest first, as the rows arrive. *)
Fixpoint collect_tail (rounds collectedRounds : Z) (hasAssistantForRound : bool) (stream : list message) : list message :=
  match stream with
  | [] => []
  | m :: stream' =>
      if is_anchor_row m then []
      else match role_of m with
      | user =>
          if negb hasAssistantForRound then collect_tail rounds collectedRounds false stream'
          else if rounds <=? collectedRounds + 1 then [m]
          else m :: collect_tail rounds (collectedRounds + 1) false stream'
      | assistant => m :: collect_tail rounds collectedRounds true stream'
      end
  end.
Definition collectRawTailAfterAnchor (stream : list message) (rounds : Z) : list message := collect_tail rounds 0 false stream.
(** In quarters of a token: the text of a user counts a quarter for each unit. *)
Definition text_units (p : part) : Z := match p with Text t _ => Z.of_nat (length t) | _ => 0 end.
Definition token_count (t : token_counts) : Z := default (input t + output t + cache_read t + cache_write t) (total t).
Definition msgTokens (m : message) : Z :=
  match role_of m with
  | assistant => 4 * token_count (tokens (msg_info m))
  | user => foldl (λ k p, k + text_units p) 0 (parts m)
  end.
Definition tokenBudget (contextLimit : Z) : Z := contextLimit * 28 / 10.
Fixpoint scan (budget : option Z) (accumulated : Z) (result stream : list message) : list message * bool :=
  match stream with
  | [] => (reverse result, false)
  | m :: stream' =>
      match compaction_part (parts m) with
      | Some (Some r) =>
          if 0 <? r then (m :: reverse (collectRawTailAfterAnchor stream' r) ++ reverse result, false) else (reverse (result ++ [m]), false)
      | Some None => (reverse (result ++ [m]), false)
      | None =>
          let accumulated := accumulated + msgTokens m in
          match budget with
          | Some b => if b <? accumulated then (reverse (result ++ [m]), true) else scan budget accumulated (result ++ [m]) stream'
          | None => scan budget accumulated (result ++ [m]) stream'
          end
      end
  end.
Definition filterCompacted (contextLimit : option Z) (ms : store) : list message * bool :=
  scan (tokenBudget <$> contextLimit) 0 [] (reverse ms).

(** ** The open question *)

Inductive Observed :=
| overflow | cache_aware | rebind | continuation_invalidated | provider_switched | stall_recovery | manual | idle | empty_response | reload.
#[export] Instance observed_eq_dec : EqDecision Observed.
Proof. solve_decision. Defined.
Record UserMessageSnapshot := mkSnapshot { snap_info : info; snap_parts : list part; emptyAssistantID : option jsstr }.
Definition is_request (p : part) : bool := match p with CompactionRequest => true | _ => false end.
Definition is_placeholder (m : message) : bool := match parts m with [] => false | ps => forallb is_request ps end.
Definition is_user (m : message) : bool := bool_decide (role_of m = user).
Definition is_assistant (m : message) : bool := bool_decide (role_of m = assistant).
(** The last message of a user that is more than a request to compact, and what
    follows it. *)
Fixpoint last_real_user (ms : store) : option (message * list message) :=
  match ms with
  | [] => None
  | m :: ms' => some_or (last_real_user ms') (if is_user m && negb (is_placeholder m) then Some (m, ms') else None)
  end.
Fixpoint take_while (p : message → bool) (ms : list message) : list message :=
  match ms with m :: ms' => if p m then m :: take_while p ms' else [] | [] => [] end.
Definition finish_of (m : message) : option finish_reason := finish (msg_info m).
Definition finished_stop (m : message) : bool := bool_decide (finish_of m = Some stop).
Definition child_answers (o : Observed) (chain : list message) (child : message) : bool :=
  let toolCallsInterrupted := bool_decide (finish_of child = Some tool_calls) && negb (existsb finished_stop chain) in
  let toolCallsAnswered := bool_decide (finish_of child = Some tool_calls) && negb toolCallsInterrupted in
  finished_stop child || toolCallsAnswered || (bool_decide (o ≠ overflow) && bool_decide (finish_of child = Some length_limit)).
Definition snapshotUnansweredUserMessage (o : Observed) (ms : store) : option UserMessageSnapshot :=
  '(u, after) ← last_real_user ms;
  let chain := take_while is_assistant after in
  match chain with
  | child :: _ => if child_answers o chain child then None else Some (mkSnapshot (msg_info u) (parts u) (Some (Dialog.id_of child)))
  | [] => Some (mkSnapshot (msg_info u) (parts u) None)
  end.

(** ** Asking again *)

Definition replay_part (p : part) : part := match p with Text t _ => Text t true | _ => p end.
Inductive ReplayResult := replayed (newUserID : jsstr) | already_after_anchor | snapshot_already_consumed | feature_flag_disabled.
Definition has_id (i : jsstr) (ms : list message) : bool := existsb (λ m, bool_decide (Dialog.id_of m = i)) ms.
Definition replay_info (i : info) (newUserID : jsstr) (now : Z) : info :=
  mkInfo newUserID (msg_role i) now (summary i) (finish i) (tokens i).
Definition remove_child (child : option jsstr) (ms : store) : store := match child with Some ((_ :: _) as c) => removeMessage c ms | _ => ms end.
Definition replayUnansweredUserMessage (enableUserMsgReplay : bool) (snap : UserMessageSnapshot) (newUserID : jsstr) (now : Z) (ms : store) :
    store * ReplayResult :=
  let originalUserID := Dialog.id (snap_info snap) in
  if negb enableUserMsgReplay then (ms, feature_flag_disabled)
  else if has_id originalUserID (filterCompacted None ms).1 then (ms, already_after_anchor)
  else if negb (has_id originalUserID ms) then (ms, snapshot_already_consumed)
  else
    let ms := write (replay_info (snap_info snap) newUserID now) (map replay_part (snap_parts snap)) ms in
    (removeMessage originalUserID (remove_child (emptyAssistantID snap) ms), replayed newUserID).

(** ** Writing at the end *)

Definition fresh_info (i : info) (ms : store) : Prop := Forall (λ m, earlier (msg_info m) i = true ∧ Dialog.id_of m ≠ Dialog.id i) ms.
Lemma earlier_antisym a b : earlier a b = true → earlier b a = false.
Proof.
  unfold earlier. rewrite !orb_true_iff, !andb_true_iff, !Z.ltb_lt, !Z.eqb_eq. intros [H | [H1 H2]].
  - rewrite (proj2 (Z.ltb_ge _ _)), (proj2 (Z.eqb_neq _ _)) by lia. done.
  - rewrite H1, Z.ltb_irrefl, Z.eqb_refl. by rewrite (text_lt_antisym _ _ H2).
Qed.
Lemma place_last m ms : Forall (λ x, earlier (msg_info x) (msg_info m) = true) ms → place m ms = ms ++ [m].
Proof. induction 1 as [| x ms Hx Hms IH]; [done |]. cbn [place app]. by rewrite (earlier_antisym _ _ Hx), IH. Qed.
Lemma removeMessage_absent i ms : Forall (λ m, Dialog.id_of m ≠ i) ms → removeMessage i ms = ms.
Proof. apply filter_all. Qed.
Lemma removeMessage_app i ms ms' : removeMessage i (ms ++ ms') = removeMessage i ms ++ removeMessage i ms'.
Proof. apply filter_app. Qed.
Lemma fresh_absent i ms : fresh_info i ms → Forall (λ m, Dialog.id_of m ≠ Dialog.id i) ms.
Proof. intros H. eapply Forall_impl; [exact H |]. by intros m [_ Hm]. Qed.
Lemma get_absent i ms : Forall (λ m, Dialog.id_of m ≠ i) ms → get i ms = None.
Proof. induction 1 as [| m ms Hm Hms IH]; [done |]. unfold get in *. cbn [find]. by rewrite bool_decide_false. Qed.
Lemma updateMessage_new i ms : fresh_info i ms → updateMessage i ms = ms ++ [mkMessage i []].
Proof.
  intros H. unfold updateMessage. pose proof (fresh_absent _ _ H) as Ha. rewrite removeMessage_absent, get_absent by done. cbn [from_option].
  apply place_last. eapply Forall_impl; [exact H |]. by intros m [Hm _].
Qed.
Lemma updatePart_last i ps p ms : Forall (λ m, Dialog.id_of m ≠ Dialog.id i) ms →
  updatePart (Dialog.id i) p (ms ++ [mkMessage i ps]) = ms ++ [mkMessage i (ps ++ [p])].
Proof.
  intros H. unfold updatePart. rewrite map_app. cbn [map msg_info parts]. unfold Dialog.id_of at 2. cbn [msg_info]. rewrite bool_decide_true by done.
  f_equal. induction H as [| m ms Hm Hms IH]; [done |]. cbn [map]. by rewrite bool_decide_false, IH.
Qed.
Lemma write_new i ps ms : fresh_info i ms → write i ps ms = ms ++ [mkMessage i ps].
Proof.
  intros H. unfold write. rewrite updateMessage_new by done. pose proof (fresh_absent _ _ H) as Ha. clear H.
  assert (∀ qs, foldl (λ ms p, updatePart (Dialog.id i) p ms) (ms ++ [mkMessage i qs]) ps = ms ++ [mkMessage i (qs ++ ps)]) as G; [| apply (G [])].
  induction ps as [| p ps IH]; intros qs; cbn [foldl]; [by rewrite app_nil_r |].
  rewrite updatePart_last by done. rewrite IH. by rewrite <- app_assoc.
Qed.
Lemma fresh_app i ms ms' : fresh_info i (ms ++ ms') ↔ fresh_info i ms ∧ fresh_info i ms'.
Proof. apply Forall_app. Qed.
Lemma fresh_sub i ms ms' : ms' ⊆ ms → fresh_info i ms → fresh_info i ms'.
Proof. unfold fresh_info. rewrite !Forall_forall. eauto. Qed.
Lemma fresh_remove i j ms : fresh_info i ms → fresh_info i (removeMessage j ms).
Proof. apply fresh_sub. intros m. unfold removeMessage. rewrite list_elem_of_filter. by intros [_ H]. Qed.

(** ** The view *)

Lemma scan_app acc result post rest : Forall (λ m, is_anchor_row m = false) post →
  scan None acc result (post ++ rest) = scan None (acc + foldl (λ k m, k + msgTokens m) 0 post) (result ++ post) rest.
Proof.
  intros H. revert acc result. induction H as [| m post Hm Hpost IH]; intros acc result; cbn [app foldl]; [by rewrite app_nil_r, Z.add_0_r |].
  cbn [scan]. unfold is_anchor_row in Hm. destruct (compaction_part (parts m)); [done |]. rewrite IH, <- app_assoc. cbn [app].
  f_equal. assert (∀ l k, foldl (λ k m, k + msgTokens m) k l = k + foldl (λ k m, k + msgTokens m) 0 l) as G.
  { induction l as [| y l IHl]; intros k; cbn [foldl]; [lia |]. rewrite IHl, (IHl (0 + _)). lia. }
  rewrite (G _ (0 + _)). lia.
Qed.
Definition raw_part (a : message) (old : store) : list message :=
  match compaction_part (parts a) with
  | Some (Some r) => if 0 <? r then reverse (collectRawTailAfterAnchor (reverse old) r) else []
  | _ => []
  end.
Lemma view_at old a post : is_anchor_row a = true → Forall (λ m, is_anchor_row m = false) post →
  filterCompacted None (old ++ a :: post) = (a :: raw_part a old ++ post, false).
Proof.
  intros Ha Hp. unfold filterCompacted. rewrite reverse_app, reverse_cons, <- app_assoc. cbn [fmap option_fmap option_map].
  rewrite scan_app by (by apply Forall_reverse). cbn [app scan]. unfold is_anchor_row in Ha. unfold raw_part.
  destruct (compaction_part (parts a)) as [[r |] |]; [| by rewrite reverse_app, reverse_involutive | done].
  destruct (0 <? r); by rewrite ?reverse_app, ?reverse_involutive.
Qed.
Lemma view_none post : Forall (λ m, is_anchor_row m = false) post → filterCompacted None post = (post, false).
Proof.
  intros H. unfold filterCompacted. cbn [fmap option_fmap option_map]. rewrite <- (app_nil_r (reverse post)), scan_app by (by apply Forall_reverse).
  cbn [scan app]. by rewrite reverse_involutive.
Qed.
Fixpoint users_in (ms : list message) : Z := match ms with [] => 0 | m :: ms' => (if is_user m then 1 else 0) + users_in ms' end.
Lemma users_in_app a b : users_in (a ++ b) = users_in a + users_in b.
Proof. induction a as [| m a IH]; cbn [app users_in]; [done |]. rewrite IH. lia. Qed.
(** What rounds are made of: the messages of assistants, and those of users that
    an assistant follows; [after] tells whether one follows at the end. *)
Definition assistant_next (after : bool) (ms : list message) : bool := match ms with n :: _ => is_assistant n | [] => after end.
Fixpoint in_rounds (after : bool) (ms : list message) : list message :=
  match ms with
  | [] => []
  | m :: ms' => if is_user m && negb (assistant_next after ms') then in_rounds after ms' else m :: in_rounds after ms'
  end.
Lemma in_rounds_snoc after ms m :
  in_rounds after (ms ++ [m]) = in_rounds (is_assistant m) ms ++ (if is_user m && negb after then [] else [m]).
Proof.
  induction ms as [| x ms IH]; [done |]. cbn [app in_rounds]. rewrite IH.
  assert (assistant_next after (ms ++ [m]) = assistant_next (is_assistant m) ms) as -> by by destruct ms.
  by destruct (is_user x && negb (assistant_next (is_assistant m) ms)).
Qed.
(** The newest [k] rounds of a list, all of it if there are not as many. *)
Definition newest_rounds (k : Z) (l raw : list message) : Prop :=
  ∃ cut, l = cut ++ raw ∧ ((users_in raw = k ∧ starts_user raw) ∨ (users_in raw < k ∧ cut = [])).
Definition unanchored (ms : list message) : Prop := Forall (λ m, is_anchor_row m = false) ms.
Lemma collect_tail_spec rounds after seg rest : unanchored seg → from_option is_anchor_row true (head rest) = true → ∀ k, k < rounds →
  newest_rounds (rounds - k) (in_rounds after seg) (reverse (collect_tail rounds k after (reverse seg ++ rest))).
Proof.
  intros Hs Hr. revert after Hs. induction seg as [| m seg IH] using rev_ind; intros after Hs k Hk.
  - exists []. assert (collect_tail rounds k after (reverse [] ++ rest) = []) as ->; [| split; [done | right; split; [change (0 < rounds - k); lia | done]]].
    destruct rest as [| a rest]; [done |]. cbn [from_option head] in Hr. cbn. by rewrite Hr.
  - apply Forall_app in Hs as [Hs [Hm _]%Forall_cons]. rewrite reverse_snoc. cbn [app collect_tail]. rewrite Hm, in_rounds_snoc.
    assert (∀ k' : Z, k' < rounds → newest_rounds (rounds - k') (in_rounds (is_assistant m) seg)
      (reverse (collect_tail rounds k' (is_assistant m) (reverse seg ++ rest)))) as G by (intros k' Hk'; by apply IH). clear IH.
    assert (is_user m = match role_of m with user => true | assistant => false end) as Eu by (unfold is_user; by destruct (role_of m)).
    assert (is_assistant m = match role_of m with user => false | assistant => true end) as Ea by (unfold is_assistant; by destruct (role_of m)).
    assert (∀ l, l ≠ [] → starts_user l → starts_user (l ++ [m])) as Gs by (by intros []).
    destruct (role_of m) eqn:Er; rewrite Eu, Ea in *; cbn [andb].
    + destruct after; cbn [negb]; [| rewrite app_nil_r; by apply G]. destruct (Z.leb_spec rounds (k + 1)).
      * exists (in_rounds false seg). split; [done |]. left. cbn. rewrite Eu. split; [lia | done].
      * destruct (G (k + 1)) as (cut & E & D); [lia |]. exists cut. rewrite reverse_cons, E, <- app_assoc. split; [done |].
        rewrite users_in_app. cbn [users_in]. rewrite Eu. destruct D as [[D1 D2] | [D1 D2]]; [left | right; split; [lia | done]].
        split; [lia |]. apply Gs; [intros E'; rewrite E' in D1; cbn in D1; lia | done].
    + destruct (G k Hk) as (cut & E & D). exists cut. rewrite reverse_cons, E, <- app_assoc. split; [done |].
      rewrite users_in_app. cbn [users_in]. rewrite Eu. destruct D as [[D1 D2] | [D1 D2]]; [left | right; split; [lia | done]].
      split; [lia |]. apply Gs; [intros E'; rewrite E' in D1; cbn in D1; lia | done].
Qed.
Lemma is_anchor_dec_last ms : (∃ old a post, ms = old ++ a :: post ∧ is_anchor_row a = true ∧ Forall (λ m, is_anchor_row m = false) post) ∨
  Forall (λ m, is_anchor_row m = false) ms.
Proof.
  induction ms as [| m ms IH] using rev_ind; [by right |]. destruct (is_anchor_row m) eqn:E.
  - left. by exists ms, m, [].
  - destruct IH as [(old & a & post & -> & Ha & Hp) | H].
    + left. exists old, a, (post ++ [m]). rewrite <- app_assoc. split; [done |]. split; [done |]. apply Forall_app. by repeat constructor.
    + right. apply Forall_app. by repeat constructor.
Qed.

(** What is before the newest anchor, up to the anchor before it. *)
Lemma last_segment ms : ∃ before seg, ms = before ++ seg ∧ unanchored seg ∧ from_option is_anchor_row true (last before) = true.
Proof.
  destruct (is_anchor_dec_last ms) as [(old & a & post & -> & Ha & Hp) | H]; [| by exists [], ms].
  exists (old ++ [a]), post. rewrite <- app_assoc, last_snoc. done.
Qed.
Lemma raw_part_newest a before seg : is_anchor_row a = true → unanchored seg → from_option is_anchor_row true (last before) = true →
  newest_rounds (Z.max 0 (default 0 (mjoin (compaction_part (parts a))))) (in_rounds false seg) (raw_part a (before ++ seg)).
Proof.
  intros Ha Hs Hb. unfold raw_part.
  assert (∀ k, k <= 0 → newest_rounds (Z.max 0 k) (in_rounds false seg) []) as G.
  { intros k Hk. exists (in_rounds false seg). rewrite app_nil_r. split; [done |]. left. split; [change (0 = Z.max 0 k); lia | done]. }
  destruct (compaction_part (parts a)) as [[r |] |]; [change (default 0 (mjoin (Some (Some r)))) with r | by apply (G 0)..].
  destruct (Z.ltb_spec 0 r) as [Hr | Hr]; [| by apply G]. replace (Z.max 0 r) with (r - 0) by lia.
  unfold collectRawTailAfterAnchor. rewrite reverse_app. apply collect_tail_spec; [done | | done].
  by rewrite head_reverse.
Qed.

(** *** A limit of the context *)

Definition total_tokens (ms : list message) : Z := foldr (λ m k, msgTokens m + k) 0 ms.
Lemma total_tokens_app a b : total_tokens (a ++ b) = total_tokens a + total_tokens b.
Proof. induction a as [| m a IH]; [done |]. change (msgTokens m + total_tokens (a ++ b) = msgTokens m + total_tokens a + total_tokens b). lia. Qed.
(** Every end of the list up to an anchor is within a budget. *)
Definition within_budget (b : Z) (ms : list message) : Prop := ∀ p s, ms = p ++ s → s ≠ [] → unanchored s → total_tokens s <= b.
Lemma within_anchor b ms m seen : is_anchor_row m = true → within_budget b seen → within_budget b (ms ++ m :: seen).
Proof.
  intros Hm Hb p s E Hne Hs. change (m :: seen) with ([m] ++ seen) in E. rewrite app_assoc in E.
  apply app_eq_inv in E as [(k & E1 & ->) | (k & -> & ->)]; [| by apply (Hb k)].
  destruct k as [| x k _] using rev_ind; [by apply (Hb []) |]. rewrite app_assoc in E1. apply app_inj_tail in E1 as [_ <-].
  unfold unanchored in Hs. rewrite !Forall_app in Hs. destruct Hs as [[_ Hs] _]. inversion Hs; congruence.
Qed.
Lemma within_cons b m seen : total_tokens (m :: seen) <= b → within_budget b seen → within_budget b (m :: seen).
Proof. intros Hm Hb [| x p] s E Hne Hs; [by cbn in E; subst | cbn in E; injection E as _ E; by apply (Hb p)]. Qed.
Lemma scan_budget b ms : ∀ seen, within_budget b seen →
  (within_budget b (ms ++ seen) ∧ scan (Some b) (total_tokens seen) (reverse seen) (reverse ms) = scan None (total_tokens seen) (reverse seen) (reverse ms)) ∨
  ∃ before m after, ms = before ++ m :: after ∧ unanchored (m :: after) ∧ within_budget b (after ++ seen) ∧ b < total_tokens (m :: after ++ seen) ∧
    scan (Some b) (total_tokens seen) (reverse seen) (reverse ms) = (m :: after ++ seen, true).
Proof.
  induction ms as [| m ms IH] using rev_ind; intros seen Hb; [by left |]. rewrite reverse_snoc. cbn [scan]. rewrite <- app_assoc. cbn [app].
  destruct (compaction_part (parts m)) eqn:Em.
  - left. split; [apply within_anchor; [by unfold is_anchor_row; rewrite Em | done] | done].
  - assert (is_anchor_row m = false) as Hm by (unfold is_anchor_row; by rewrite Em). rewrite <- reverse_cons.
    replace (total_tokens seen + msgTokens m) with (total_tokens (m :: seen)) by (change (msgTokens m + total_tokens seen = total_tokens seen + msgTokens m); lia).
    destruct (Z.ltb_spec b (total_tokens (m :: seen))) as [H | H].
    + right. exists ms, m, []. rewrite reverse_involutive. split; [done |]. split; [by repeat constructor |]. done.
    + destruct (IH (m :: seen)) as [H' | (before & x & after & -> & H1 & H2 & H3 & H4)]; [by apply within_cons | by left | right].
      exists before, x, (after ++ [m]). rewrite <- !app_assoc. split; [done |]. split; [| done].
      apply (Forall_app _ (x :: after) [m]). split; [done | by repeat constructor].
Qed.

(** C21. A model sees everything when there is no anchor, and otherwise the newest
    anchor, the newest of the rounds between it and the anchor before, as many as
    it left as they are, and everything after it.  A round is what assistants say
    and the message of a user before.  With a limit of the context a model sees
    that too, unless what follows the newest anchor is over the budget: then the
    shortest end of it that is. *)
Theorem view_from_anchor ms :
  ((unanchored ms ∧ filterCompacted None ms = (ms, false)) ∨
   ∃ before seg a post raw, ms = before ++ seg ++ a :: post ∧ is_anchor_row a = true ∧ unanchored post ∧
     unanchored seg ∧ from_option is_anchor_row true (last before) = true ∧
     newest_rounds (Z.max 0 (default 0 (mjoin (compaction_part (parts a))))) (in_rounds false seg) raw ∧
     filterCompacted None ms = (a :: raw ++ post, false)) ∧
  ∀ limit, (within_budget (tokenBudget limit) ms ∧ filterCompacted (Some limit) ms = filterCompacted None ms) ∨
    ∃ before m after, ms = before ++ m :: after ∧ unanchored (m :: after) ∧ within_budget (tokenBudget limit) after ∧
      tokenBudget limit < total_tokens (m :: after) ∧ filterCompacted (Some limit) ms = (m :: after, true).
Proof.
  split.
  - destruct (is_anchor_dec_last ms) as [(old & a & post & -> & Ha & Hp) | H]; [right | left; split; [done | by apply view_none]].
    destruct (last_segment old) as (before & seg & -> & Hs & Hb). exists before, seg, a, post, (raw_part a (before ++ seg)).
    split; [by rewrite <- app_assoc |]. do 4 (split; [done |]). split; [by apply raw_part_newest | by apply view_at].
  - intros limit. destruct (scan_budget (tokenBudget limit) ms []) as [[H1 H2] | (before & m & after & E & H1 & H2 & H3 & H4)].
    + by intros [] [].
    + left. by rewrite app_nil_r in H1.
    + right. rewrite app_nil_r in *. by exists before, m, after.
Qed.

(** ** The open question after an anchor *)

Lemma has_id_In i ms : has_id i ms = true ↔ ∃ m, m ∈ ms ∧ Dialog.id_of m = i.
Proof. unfold has_id. rewrite existsb_exists. setoid_rewrite list_elem_of_In. setoid_rewrite bool_decide_eq_true. done. Qed.
Lemma has_id_absent i ms : Forall (λ m, Dialog.id_of m ≠ i) ms → has_id i ms = false.
Proof. intros H. apply not_true_is_false. rewrite has_id_In. intros (m & Hm & E). rewrite Forall_forall in H. by destruct (H m Hm). Qed.
Lemma remove_child_last c ms m : (∀ i, c = Some i → Dialog.id_of m ≠ i) → remove_child c (ms ++ [m]) = remove_child c ms ++ [m].
Proof.
  intros H. destruct c as [[| x c] |]; [done | | done]. cbn [remove_child]. rewrite removeMessage_app. f_equal.
  apply removeMessage_absent. repeat constructor. by apply H.
Qed.
Lemma replay_after_anchor snap old a newUserID now :
  is_anchor_row a = true → mjoin (compaction_part (parts a)) = None →
  has_id (Dialog.id (snap_info snap)) old = true → Dialog.id_of a ≠ Dialog.id (snap_info snap) →
  (∀ i, emptyAssistantID snap = Some i → Dialog.id_of a ≠ i ∧ newUserID ≠ i) → newUserID ≠ Dialog.id (snap_info snap) →
  compaction_part (snap_parts snap) = None →
  fresh_info (replay_info (snap_info snap) newUserID now) (old ++ [a]) →
  let asked := mkMessage (replay_info (snap_info snap) newUserID now) (map replay_part (snap_parts snap)) in
  replayUnansweredUserMessage true snap newUserID now (old ++ [a]) =
    (removeMessage (Dialog.id (snap_info snap)) (remove_child (emptyAssistantID snap) old) ++ [a; asked], replayed newUserID) ∧
  filterCompacted None (removeMessage (Dialog.id (snap_info snap)) (remove_child (emptyAssistantID snap) old) ++ [a; asked]) = ([a; asked], false).
Proof.
  intros Ha Hr Hin Hne Hc Hn Hp Hf asked.
  assert (raw_part a old = []) as Hraw by (unfold raw_part; by destruct (compaction_part (parts a)) as [[r |] |]).
  assert (filterCompacted None (old ++ [a]) = ([a], false)) as Hv by (rewrite view_at by done; by rewrite Hraw).
  split.
  - unfold replayUnansweredUserMessage. cbn [negb]. rewrite Hv. cbn [fst]. rewrite (has_id_absent _ [a]) by (by repeat constructor).
    unfold has_id. rewrite existsb_app. unfold has_id in Hin. rewrite Hin. cbn [negb orb]. f_equal.
    rewrite write_new by done. rewrite remove_child_last by (intros i Hi; by apply (Hc i)).
    rewrite remove_child_last by (intros i Hi; by apply (Hc i)).
    rewrite <- app_assoc, removeMessage_app. cbn [app]. f_equal. apply removeMessage_absent. by repeat constructor.
  - rewrite view_at; [| done |].
    + unfold raw_part. by destruct (compaction_part (parts a)) as [[r |] |].
    + repeat constructor. unfold is_anchor_row. cbn [parts]. assert (∀ ps, compaction_part ps = None → compaction_part (map replay_part ps) = None) as G.
      { induction ps as [| p ps IH]; [done |]. by destruct p. }
      unfold asked. cbn [parts]. by rewrite G.
Qed.

(** Whom a snapshot is of. *)
Lemma last_real_user_spec ms u after : last_real_user ms = Some (u, after) ↔
  ∃ before, ms = before ++ u :: after ∧ is_user u = true ∧ is_placeholder u = false ∧
    Forall (λ m, is_user m && negb (is_placeholder m) = false) after.
Proof.
  assert (∀ l, last_real_user l = None ↔ Forall (λ m, is_user m && negb (is_placeholder m) = false) l) as Hnone.
  { induction l as [| m l IH]; [done |]. cbn [last_real_user]. rewrite Forall_cons, <- IH. destruct (last_real_user l); cbn [some_or]; [naive_solver |].
    destruct (is_user m && negb (is_placeholder m)); naive_solver. }
  revert u after. induction ms as [| m ms IH]; intros u after; cbn [last_real_user].
  { split; [done |]. by intros ([| ? before] & [=] & _). }
  destruct (last_real_user ms) as [[u' after'] |] eqn:E; cbn [some_or].
  - split.
    + intros [= -> ->]. destruct (proj1 (IH _ _) eq_refl) as (before & -> & H). by exists (m :: before).
    + intros ([| m' before] & [= -> ->] & H1 & H2 & H3); [apply Hnone in H3; congruence |]. apply IH. by exists before.
  - apply Hnone in E. split.
    + destruct (is_user m && negb (is_placeholder m)) eqn:Em; [| done]. intros [= -> ->]. apply andb_true_iff in Em as [E1 E2%negb_true_iff]. by exists [].
    + intros ([| m' before] & [= -> ->] & H1 & H2 & H3); [by rewrite H1, H2 |]. exfalso. apply Forall_app in E as [_ [E _]%Forall_cons].
      by rewrite H1, H2 in E.
Qed.
