(* ===== verification/ModelMessages.v ===== *)
(** * The messages that go to the model that compacts ([session/compaction.ts])

    Calls of tools and their results must come in pairs
    ([sanitizeOrphanedToolCalls]), and the history must fit into a small window
    ([truncateModelMessagesForSmallContext]).  The conversion of stored messages
    to the messages of a model is a library's: these are arguments. *)
From stdpp Require Import base list.
From S2P Require Import Prelude JsString Json.
Open Scope Z_scope.

(** ** Pairs of calls and results *)

Inductive model_role := system | user | assistant | tool.
#[export] Instance model_role_eq_dec : EqDecision model_role.
Proof. solve_decision. Defined.
Inductive content_part := ToolCall (toolCallId : jsstr) (rest : json) | ToolResult (toolCallId : jsstr) (rest : json) | TextContent (text : jsstr) | OtherContent (rest : json).
Inductive content := Plain (text : jsstr) | Parts (ps : list content_part).
Record ModelMessage := mkModelMessage { mm_role : model_role; mm_content : content }.
Definition content_parts (m : ModelMessage) : list content_part := match mm_content m with Parts ps => ps | Plain _ => [] end.
Definition call_id (p : content_part) : list jsstr := match p with ToolCall i _ => [i] | _ => [] end.
Definition result_id (p : content_part) : list jsstr := match p with ToolResult i _ => [i] | _ => [] end.
Definition callIds (ms : list ModelMessage) : list jsstr := flat_map (λ m, flat_map call_id (content_parts m)) ms.
Definition resultIds (ms : list ModelMessage) : list jsstr := flat_map (λ m, flat_map result_id (content_parts m)) ms.
Definition missingResults (ms : list ModelMessage) : list jsstr := filter (λ i, i ∉ resultIds ms) (callIds ms).
Definition missingCalls (ms : list ModelMessage) : list jsstr := filter (λ i, i ∉ callIds ms) (resultIds ms).
Definition missing_text (i : jsstr) : jsstr := js "[tool result missing: " ++ i ++ js "]".
Definition has_orphan (missing : list jsstr) (ps : list content_part) : bool :=
  existsb (λ p, match p with ToolResult i _ => bool_decide (i ∈ missing) | _ => false end) ps.
Definition sanitize_part (missing : list jsstr) (p : content_part) : content_part :=
  match p with ToolCall i _ => if bool_decide (i ∈ missing) then TextContent (missing_text i) else p | _ => p end.
Definition sanitize_message (noResult noCall : list jsstr) (m : ModelMessage) : option ModelMessage :=
  match mm_content m with
  | Plain _ => Some m
  | Parts ps =>
      if decide (mm_role m = tool) then (if has_orphan noCall ps then None else Some m)
      else Some (mkModelMessage (mm_role m) (Parts (map (sanitize_part noResult) ps)))
  end.
Definition sanitizeOrphanedToolCalls (ms : list ModelMessage) : list ModelMessage :=
  match missingResults ms, missingCalls ms with
  | [], [] => ms
  | noResult, noCall => omap (sanitize_message noResult noCall) ms
  end.

(** ** Fitting a small window *)

Definition SMALL_CONTEXT_MAX : Z := 128000.
Definition SMALL_CONTEXT_RESERVED_TOKENS : Z := 5000.
Definition CHARS_PER_TOKEN : Z := 4.
Definition size_of (v : json) : Z := Z.of_nat (length (stringify v)).
(** From the newest message on; the list is newest first. *)
Fixpoint keep_fitting (budget size : Z) (kept : list json) (older : list json) : list json :=
  match older with
  | [] => kept
  | m :: older' =>
      let messageSize := size_of m + 1 in
      match kept with
      | _ :: _ => if budget <? size + messageSize then kept else keep_fitting budget (size + messageSize) (m :: kept) older'
      | [] => keep_fitting budget (size + messageSize) [m] older'
      end
  end.
Definition member (k : jsstr) (v : json) : option json :=
  match v with JObj l => snd <$> find (λ kv, bool_decide (kv.1 = k)) l | _ => None end.
Definition text_of_part (p : json) : option jsstr :=
  match member (js "type") p, member (js "text") p with
  | Some (JStr t), Some (JStr ((_ :: _) as s)) => if bool_decide (t = js "text") then Some s else None
  | _, _ => None
  end.
Definition half (s : jsstr) : jsstr := if (length s <=? 512)%nat then [] else drop (length s - length s / 2) s.
Definition with_member (k : jsstr) (x v : json) : json := match v with JObj l => JObj (set_key k x l) | _ => v end.
Fixpoint halve_first (ps : list json) : option (list json) :=
  match ps with
  | [] => None
  | p :: ps' =>
      match text_of_part p with
      | Some s => Some (with_member (js "text") (JStr (half s)) p :: ps')
      | None => (λ ps', p :: ps') <$> halve_first ps'
      end
  end.
Definition halve_message (m : json) : option json :=
  match member (js "parts") m with
  | Some (JArr ps) => (λ ps, with_member (js "parts") (JArr ps) m) <$> halve_first ps
  | _ => None
  end.
(** Each round halves a text, or empties it. *)
Fixpoint shrink (fuel : nat) (budget : Z) (m : json) : json :=
  match fuel with
  | O => m
  | S fuel => if budget <? size_of (JArr [m]) then match halve_message m with Some m' => shrink fuel budget m' | None => m end else m
  end.
Definition text_total (ps : list json) : nat := foldr (λ p k, (from_option length 0 (text_of_part p) + k)%nat) 0%nat ps.
Definition shrink_fuel (m : json) : nat := match member (js "parts") m with Some (JArr ps) => text_total ps | _ => 0%nat end.
Record TruncateResult := mkTruncated { tr_messages : list json; truncated : bool; safeCharBudget : Z }.
Definition truncateModelMessagesForSmallContext (contextLimit : Z) (modelMessages : list json) : TruncateResult :=
  let smallContextLimit := Z.min contextLimit SMALL_CONTEXT_MAX in
  let budget := (smallContextLimit - SMALL_CONTEXT_RESERVED_TOKENS) * CHARS_PER_TOKEN in
  if (smallContextLimit =? 0) || (budget <=? 0) then mkTruncated modelMessages false 0
  else if size_of (JArr modelMessages) <=? budget then mkTruncated modelMessages false budget
  else
    let kept := keep_fitting budget 2 [] (reverse modelMessages) in
    match kept with
    | [m] => mkTruncated [if budget <? size_of (JArr [m]) then shrink (shrink_fuel m) budget m else m] true budget
    | _ => mkTruncated kept true budget
    end.

(** ** What the window holds *)

Lemma list_map_ext_in {A B} (f g : A → B) l : (∀ x, x ∈ l → f x = g x) → map f l = map g l.
Proof. intros H. apply map_ext_in. intros x Hx. apply H. by apply list_elem_of_In. Qed.
Lemma stringify_flat v : ∀ level, stringify_at false level v = stringify v.
Proof.
  induction v as [| b | n | l | s | l IH | l IH] using json_nested_ind; intros level; try done.
  - destruct l as [| x l]; [done |]. unfold stringify. rewrite !stringify_arr. do 2 f_equal. f_equal. apply list_map_ext_in. intros y Hy. f_equal.
    rewrite Forall_forall in IH. by rewrite !IH.
  - destruct l as [| x l]; [done |]. unfold stringify. rewrite !stringify_obj. do 2 f_equal. f_equal. apply list_map_ext_in. intros y Hy. do 3 f_equal.
    rewrite Forall_forall in IH. by rewrite !IH.
Qed.
Fixpoint sizes (l : list json) : Z := match l with [] => 0 | m :: l' => size_of m + 1 + sizes l' end.
Lemma sizes_nonneg l : 0 <= sizes l.
Proof. induction l as [| m l IH]; cbn [sizes]; [done |]. unfold size_of. lia. Qed.
Lemma length_join_comma ls : ls ≠ [] → Z.of_nat (length (join (js ",") ls)) + 1 = foldr (λ l k, Z.of_nat (length l) + 1 + k) 0 ls.
Proof.
  intros H. destruct ls as [| l ls]; [done |]. clear H. revert l. induction ls as [| l' ls IH]; intros l; [cbn; lia |].
  change (join (js ",") (l :: l' :: ls)) with (l ++ js "," ++ join (js ",") (l' :: ls)). rewrite !length_app. cbn [foldr] in *.
  change (Z.of_nat (length (js ","))) with 1. specialize (IH l'). change (length (js ",")) with 1%nat. lia.
Qed.
Lemma size_array l : l ≠ [] → size_of (JArr l) = 1 + sizes l.
Proof.
  intros Hl. unfold size_of. destruct l as [| m l]; [done |]. unfold stringify. cbn [stringify_at line_break]. rewrite !length_app. cbn [app].
  assert (map (λ x, stringify_at false 1 x) (m :: l) = map stringify (m :: l)) as -> by (apply map_ext; intros x; apply stringify_flat).
  pose proof (length_join_comma (map stringify (m :: l)) ltac:(done)) as H.
  assert (∀ xs, foldr (λ l k, Z.of_nat (length l) + 1 + k) 0 (map stringify xs) = sizes xs) as G by (induction xs as [| x xs IHxs]; cbn [map foldr sizes]; [done | rewrite IHxs; unfold size_of; lia]).
  rewrite G in H. change (map _ (m :: l)) with (map stringify (m :: l)). set (j := join _ _) in *.
  change (Z.of_nat (1 + (length j + (0 + 1))) = 1 + sizes (m :: l)). lia.
Qed.
Lemma keep_fitting_spec budget size kept older : ∃ taken left, older = taken ++ left ∧ keep_fitting budget size kept older = reverse taken ++ kept ∧
  ((2 <= length taken)%nat ∨ kept ≠ [] ∧ taken ≠ [] → size + sizes taken <= budget) ∧
  (left ≠ [] → kept ≠ [] ∨ taken ≠ []) ∧ (∀ m left', left = m :: left' → budget < size + sizes taken + size_of m + 1).
Proof.
  revert size kept. induction older as [| m older IH]; intros size kept; [exists [], []; split; [done |]; split; [done |]; split; [cbn; intros [? | [_ ?]]; [lia | done] | done] |]. cbn [keep_fitting].
  assert (∃ taken left, m :: older = taken ++ left ∧ keep_fitting budget (size + (size_of m + 1)) (m :: kept) older = reverse taken ++ kept ∧
    ((2 <= length taken)%nat ∨ size + (size_of m + 1) <= budget → size + sizes taken <= budget) ∧
    (left ≠ [] → kept ≠ [] ∨ taken ≠ []) ∧ (∀ m left', left = m :: left' → budget < size + sizes taken + size_of m + 1)) as H.
  { destruct (IH (size + (size_of m + 1)) (m :: kept)) as (taken & left & -> & -> & H1 & H2 & H3). exists (m :: taken), left. split; [done |].
    split; [by rewrite reverse_cons, <- app_assoc |]. cbn [sizes length]. split; [| split; [by right |]].
    - intros Hb. destruct taken as [| t taken]; [cbn in *; destruct Hb; lia |]. specialize (H1 ltac:(by right)). lia.
    - intros m' left' E. specialize (H3 _ _ E). lia. }
  destruct kept as [| k kept].
  - destruct H as (taken & left & H1 & H2 & H3 & H4). exists taken, left. split; [done |]. split; [done |]. split; [| done].
    intros [Hl | [Hk _]]; [apply H3; by left | done].
  - destruct (Z.ltb_spec budget (size + (size_of m + 1))).
    + exists [], (m :: older). split; [done |]. split; [done |]. split; [cbn; intros [? | [_ ?]]; [lia | done] |]. split; [by left |]. intros m' left' [= <- <-]. cbn [sizes]. lia.
    + destruct H as (taken & left & H1 & H2 & H3 & H4). exists taken, left. split; [done |]. split; [done |]. split; [| done].
      intros _. apply H3. right. lia.
Qed.
Lemma sizes_app a b : sizes (a ++ b) = sizes a + sizes b.
Proof. induction a as [| m a IH]; cbn [app sizes]; lia. Qed.
Lemma sizes_reverse l : sizes (reverse l) = sizes l.
Proof. induction l as [| m l IH]; [done |]. rewrite reverse_cons, sizes_app, IH. cbn [sizes]. lia. Qed.

Lemma member_set k k' x l : member k (JObj (set_key k' x l)) = if bool_decide (k' = k) then Some x else member k (JObj l).
Proof.
  induction l as [| [k1 v] l IH]; cbn [set_key member find]; cbn [fst].
  - by destruct (bool_decide (k' = k)).
  - destruct (bool_decide_reflect (k1 = k')) as [-> | Hk]; cbn [find fst member].
    + destruct (bool_decide (k' = k)); done.
    + unfold member in IH. destruct (bool_decide_reflect (k1 = k)) as [-> |].
      * by rewrite bool_decide_false by (intros E; by apply Hk).
      * apply IH.
Qed.
Lemma half_less s : s ≠ [] → (length (half s) < length s)%nat.
Proof.
  intros Hs. unfold half. destruct (Nat.leb_spec (length s) 512); [destruct s; [done | cbn; lia] |].
  rewrite length_drop. pose proof (Nat.div_lt (length s) 2). lia.
Qed.
Lemma halve_first_less ps ps' : halve_first ps = Some ps' → (text_total ps' < text_total ps)%nat.
Proof.
  revert ps'. induction ps as [| p ps IH]; intros ps' H; [done |]. cbn [halve_first] in H. destruct (text_of_part p) as [s |] eqn:E.
  - injection H as <-. unfold text_total. cbn [foldr]. rewrite E. cbn [from_option].
    assert (s ≠ [] ∧ from_option length 0%nat (text_of_part (with_member (js "text") (JStr (half s)) p)) = length (half s)) as [Hs ->];
      [| pose proof (half_less s Hs); lia].
    unfold text_of_part in E. destruct p as [| | | | | | l]; try done.
    destruct (member (js "type") (JObj l)) as [[| | | | t | |] |] eqn:E1; try done.
    destruct (member (js "text") (JObj l)) as [[| | | | [| c s'] | |] |] eqn:E2; try done. case_bool_decide as Et; [| done]. injection E as <-.
    split; [done |]. unfold text_of_part. cbn [with_member]. rewrite !member_set.
    rewrite (bool_decide_false (js "text" = js "type")) by done. rewrite E1, (bool_decide_true (js "text" = js "text")) by done.
    destruct (half (c :: s')) eqn:Eh; [done |]. by rewrite bool_decide_true.
  - destruct (halve_first ps) as [ps1 |] eqn:E1; [| done]. injection H as <-. unfold text_total in *. cbn [foldr]. rewrite E. specialize (IH _ eq_refl). cbn [from_option]. lia.
Qed.
Lemma halve_message_less m m' : halve_message m = Some m' → (shrink_fuel m' < shrink_fuel m)%nat.
Proof.
  unfold halve_message, shrink_fuel. destruct (member (js "parts") m) as [[| | | | | ps |] |] eqn:E; try done.
  destruct (halve_first ps) as [ps' |] eqn:E1; [| done]. intros [= <-]. destruct m as [| | | | | | l]; try done. cbn [with_member].
  rewrite member_set, bool_decide_true by done. by apply halve_first_less.
Qed.
(** The loop ends: the message fits, or no text is left in it. *)
Lemma shrink_settles budget m : ∀ fuel, (shrink_fuel m <= fuel)%nat →
  size_of (JArr [shrink fuel budget m]) <= budget ∨ halve_message (shrink fuel budget m) = None.
Proof.
  intros fuel. revert m. induction fuel as [| fuel IH]; intros m Hf; cbn [shrink].
  - right. destruct (halve_message m) eqn:E; [| done]. apply halve_message_less in E. lia.
  - destruct (Z.ltb_spec budget (size_of (JArr [m]))); [| by left]. destruct (halve_message m) as [m' |] eqn:E; [| by right].
    apply IH. apply halve_message_less in E. lia.
Qed.
Lemma shrink_partless fuel budget m : member (js "parts") m = None → shrink fuel budget m = m.
Proof. intros H. destruct fuel as [| fuel]; [done |]. cbn [shrink]. unfold halve_message. rewrite H. by destruct (budget <? _). Qed.

(** C32. A history that is cut for a small window is its newest messages, as many
    as fit, at least one; together they fit.  If it is only one, its texts are
    halved until it fits or has none, and texts are looked for in [parts] alone:
    a message without them, as the conversion makes it, stays as long as it is. *)
Theorem small_window_fits contextLimit ms : let r := truncateModelMessagesForSmallContext contextLimit ms in
  truncated r = true → ∃ older kept, ms = older ++ kept ∧ kept ≠ [] ∧
    ((2 <= length kept)%nat → tr_messages r = kept ∧ size_of (JArr kept) <= safeCharBudget r) ∧
    (∀ m, kept = [m] → ∃ m', tr_messages r = [m'] ∧ (size_of (JArr [m']) <= safeCharBudget r ∨ halve_message m' = None) ∧
      (member (js "parts") m = None → m' = m)) ∧
    (∀ older' m, older = older' ++ [m] → safeCharBudget r <= size_of (JArr (m :: kept))).
Proof.
  cbn zeta. unfold truncateModelMessagesForSmallContext. set (budget := (Z.min contextLimit SMALL_CONTEXT_MAX - _) * _).
  destruct ((Z.min contextLimit SMALL_CONTEXT_MAX =? 0) || (budget <=? 0)) eqn:Eb; [done |]. apply orb_false_iff in Eb as [_ Hb%Z.leb_gt].
  destruct (Z.leb_spec (size_of (JArr ms)) budget) as [| Hs]; [done |].
  destruct (keep_fitting_spec budget 2 [] (reverse ms)) as (taken & left & Hms & -> & H2 & Hl & Hmax). rewrite app_nil_r.
  apply (f_equal reverse) in Hms. rewrite reverse_involutive, reverse_app in Hms. intros _.
  assert (ms ≠ []) as Hne.
  { intros ->. change (size_of (JArr [])) with 2 in Hs. unfold budget, CHARS_PER_TOKEN in *. lia. }
  assert (taken ≠ []) as Htaken.
  { intros ->. destruct left as [| m left]; [by apply Hne |]. by destruct Hl as [Hl | Hl]. }
  assert (reverse taken ≠ []) as Hr by (intros E; apply (f_equal reverse) in E; by rewrite reverse_involutive in E).
  exists (reverse left), (reverse taken). split; [done |]. split; [done |]. rewrite <- (length_reverse taken), <- (sizes_reverse taken) in *.
  assert (∀ older' m, reverse left = older' ++ [m] → budget <= size_of (JArr (m :: reverse taken))) as Hmax'.
  { intros older' m E. apply (f_equal reverse) in E. rewrite reverse_involutive, reverse_app in E. specialize (Hmax m (reverse older') E).
    rewrite size_array by done. cbn [sizes]. lia. }
  destruct (reverse taken) as [| m1 [| m2 kept]]; [done | |]; cbn [safeCharBudget tr_messages]; (split; [| split; [| done]]).
  - cbn. lia.
  - intros m [= <-]. eexists. split; [done |]. split.
    + destruct (Z.ltb_spec budget (size_of (JArr [m1]))); [by apply shrink_settles | by left].
    + intros Hp. destruct (budget <? _); [by apply shrink_partless | done].
  - intros _. split; [done |]. rewrite size_array by done. specialize (H2 ltac:(left; cbn; lia)). lia.
  - by intros m [=].
Qed.

(** ** What is left after sanitizing *)

(** Only assistants call, only messages of tools hold results, and no such
    message mixes a result whose call is missing with one whose call is there. *)
Definition well_placed (m : ModelMessage) : Prop :=
  if decide (mm_role m = tool) then flat_map call_id (content_parts m) = [] else flat_map result_id (content_parts m) = [].
Definition unmixed (noCall : list jsstr) (m : ModelMessage) : Prop :=
  mm_role m = tool → has_orphan noCall (content_parts m) = true → Forall (λ i, i ∈ noCall) (flat_map result_id (content_parts m)).
Lemma has_orphan_spec missing ps : has_orphan missing ps = false ↔ Forall (λ i, i ∉ missing) (flat_map result_id ps).
Proof.
  unfold has_orphan. induction ps as [| p ps IH]; [done |]. cbn [existsb flat_map]. rewrite orb_false_iff, IH, Forall_app.
  destruct p; cbn [result_id]; rewrite ?Forall_nil, ?Forall_singleton, ?bool_decide_eq_false; naive_solver.
Qed.
Lemma calls_sanitized missing ps : flat_map call_id (map (sanitize_part missing) ps) = filter (λ i, i ∉ missing) (flat_map call_id ps).
Proof.
  induction ps as [| p ps IH]; [done |]. cbn [map flat_map]. rewrite filter_app, IH. f_equal. destruct p; try done. cbn [sanitize_part call_id].
  case_bool_decide; cbn [call_id]; [by rewrite filter_cons_False by naive_solver | by rewrite filter_cons_True].
Qed.
Lemma results_sanitized missing ps : flat_map result_id (map (sanitize_part missing) ps) = flat_map result_id ps.
Proof.
  induction ps as [| p ps IH]; [done |]. cbn [map flat_map]. rewrite IH. f_equal. destruct p; try done. cbn [sanitize_part]. by case_bool_decide.
Qed.
Lemma sanitized_ids noResult noCall ms : Forall well_placed ms → Forall (unmixed noCall) ms →
  callIds (omap (sanitize_message noResult noCall) ms) = filter (λ i, i ∉ noResult) (callIds ms) ∧
  resultIds (omap (sanitize_message noResult noCall) ms) = filter (λ i, i ∉ noCall) (resultIds ms).
Proof.
  intros Hw Hu. revert Hu. induction Hw as [| m ms Hm _ IH]; intros Hu; [done |]. apply Forall_cons in Hu as [Hum Hu]. destruct (IH Hu) as [IH1 IH2].
  unfold callIds, resultIds in *. cbn [flat_map]. rewrite !filter_app. cbn [omap list_omap]. destruct m as [r c].
  unfold well_placed, unmixed, sanitize_message in *. cbn [mm_role mm_content content_parts] in *. destruct c as [t | ps]; cbn [mm_content].
  - cbn [flat_map content_parts mm_content app filter list_filter]. by rewrite IH1, IH2.
  - unfold content_parts in *. cbn [mm_content] in *. destruct (decide (r = tool)) as [-> | Hr].
    + destruct (has_orphan noCall ps) eqn:E.
      * rewrite IH1, IH2, Hm. specialize (Hum eq_refl eq_refl). rewrite (filter_none _ (flat_map result_id ps)); [done |].
        eapply Forall_impl; [exact Hum |]. by intros i Hi Hni.
      * cbn [flat_map mm_content]. rewrite IH1, IH2, Hm. apply has_orphan_spec in E. by rewrite (filter_all _ (flat_map result_id ps)).
    + cbn [flat_map mm_content]. rewrite IH1, IH2, calls_sanitized, results_sanitized, Hm. done.
Qed.
(** C25. When no message of results has some whose call is there and some whose
    call is missing: after sanitizing, a call has a result exactly when a result
    has a call, the ones that had both keep both, and the others are gone. *)
Theorem sanitized_pairs ms : Forall well_placed ms → Forall (unmixed (missingCalls ms)) ms →
  let out := sanitizeOrphanedToolCalls ms in
  ∀ i, (i ∈ callIds out ↔ i ∈ resultIds out) ∧ (i ∈ callIds out ↔ i ∈ callIds ms ∧ i ∈ resultIds ms).
Proof.
  intros Hw Hu out i. assert (callIds out = filter (λ i, i ∉ missingResults ms) (callIds ms) ∧ resultIds out = filter (λ i, i ∉ missingCalls ms) (resultIds ms)) as [-> ->].
  { unfold out, sanitizeOrphanedToolCalls. destruct (missingResults ms) eqn:E1; [destruct (missingCalls ms) eqn:E2 |].
    - rewrite !filter_all by (apply Forall_forall; intros x _; apply not_elem_of_nil). done.
    - rewrite <- E1, <- E2 in *. by apply sanitized_ids.
    - rewrite <- E1 in *. by apply sanitized_ids. }
  unfold missingResults, missingCalls. rewrite !list_elem_of_filter. destruct (decide (i ∈ callIds ms)), (decide (i ∈ resultIds ms)); naive_solver.
Qed.

(** ** Examples *)

Definition calls (ids : list string) : ModelMessage := mkModelMessage assistant (Parts (map (λ i, ToolCall (js i) JNull) ids)).
Definition results (ids : list string) : ModelMessage := mkModelMessage tool (Parts (map (λ i, ToolResult (js i) JNull) ids)).
Definition history : list ModelMessage := [results ["a"%string]; calls ["b"; "c"]%string; results ["b"%string]].
Lemma sanitized_pairs_witness : callIds (sanitizeOrphanedToolCalls history) = [js "b"] ∧
  (js "b" ∈ callIds (sanitizeOrphanedToolCalls history) ↔ js "b" ∈ resultIds (sanitizeOrphanedToolCalls history)).
Proof.
  split; [by vm_compute |]. refine (proj1 (sanitized_pairs history _ _ (js "b"))).
  - by repeat constructor.
  - repeat (apply Forall_cons; split); [| | | by apply Forall_nil]; intros H1 H2; by_compute || by vm_compute in H2.
Defined.
(** A message with a result whose call is missing goes away as a whole: the
    result of a call that is still there goes with it. *)
Example matched_result_dropped :
  let out := sanitizeOrphanedToolCalls [calls ["b"%string]; results ["a"; "b"]%string] in
  callIds out = [js "b"] ∧ resultIds out = [].
Proof. by vm_compute. Qed.

Definition old_messages : list json := map (JStr ∘ js) ["a long message from the start"; "a question"; "its answer"]%string.
Lemma small_window_fits_witness :
  tr_messages (truncateModelMessagesForSmallContext 5008 old_messages) = drop 1 old_messages ∧
  ∃ older kept, old_messages = older ++ kept ∧ kept ≠ [] .
Proof.
  split; [by vm_compute |]. destruct (small_window_fits 5008 old_messages) as (older & kept & H1 & H2 & _); [by vm_compute |]. by exists older, kept.
Defined.
(** One message as the conversion makes it, far over the budget of 32 units. *)
Definition converted : json := JObj [(js "role", JStr (js "user")); (js "content", JArr [JObj [(js "type", JStr (js "text")); (js "text", JStr (js "a long message"))]])].
Example content_not_cut :
  let r := truncateModelMessagesForSmallContext 5008 [converted] in
  truncated r = true ∧ tr_messages r = [converted] ∧ safeCharBudget r < size_of (JArr (tr_messages r)).
Proof. by vm_compute. Qed.
