(* ===== verification/ContextBudget.v ===== *)
(** * When a context is compacted ([session/compaction.ts], [context-policy.ts])

    The budget of a model, the causes of a compaction, what a provider's policy
    and strategy decide, the watch on the system block of a session
    ([cache-miss-diagnostic.ts]) and the intake of [compaction-manager.ts].
    Fractions are rational numbers.  Hashing is an argument; logs and events are
    left out. *)
From stdpp Require Import base gmap list.
From Stdlib Require Import QArith Qround.
From S2P Require Import Prelude JsString Dialog Anchor MessageStream.
Close Scope Q_scope.
Open Scope Z_scope.

(** ** Providers *)

Inductive ContextPolicy := GeneralPolicy | ClaudePolicy.
Definition CLAUDE_CONTEXT_PROVIDERS : list jsstr := [js "claude-cli"].
Definition resolvePolicy (providerId : option jsstr) : ContextPolicy :=
  match providerId with Some p => if bool_decide (p ∈ CLAUDE_CONTEXT_PROVIDERS) then ClaudePolicy else GeneralPolicy | None => GeneralPolicy end.
Definition CLAUDE_NOOP_OBSERVED : list Observed := [provider_switched; rebind; continuation_invalidated].
Definition skipEventCompaction (p : ContextPolicy) (o : Observed) : bool :=
  match p with ClaudePolicy => bool_decide (o ∈ CLAUDE_NOOP_OBSERVED) | GeneralPolicy => false end.
Definition coldCacheBGate (p : ContextPolicy) (promptTotal bCompactTokens : Z) : bool :=
  match p with ClaudePolicy => bCompactTokens <? promptTotal | GeneralPolicy => false end.
Definition itemOverflowThreshold (codex claude : Z) (p : ContextPolicy) : Z := match p with ClaudePolicy => claude | GeneralPolicy => codex end.
Definition itemOverflowTrigger (codex claude : Z) (p : ContextPolicy) (itemCount : Z) : bool := itemOverflowThreshold codex claude p <? itemCount.
Definition shouldEnrichAnchor (anchorTokens aFloorTokens : Z) : bool := aFloorTokens <=? anchorTokens.
(** One and a half times, rounded up. *)
Definition undercount_cap (estimate : Z) : Z := - (- (estimate * 3) / 2).
Definition gateAnchorTokens (p : ContextPolicy) (estimateTokens realPromptTokens systemReserveTokens : Z) : Z :=
  match p with
  | GeneralPolicy => estimateTokens
  | ClaudePolicy => Z.min (Z.max estimateTokens (realPromptTokens - systemReserveTokens)) (undercount_cap estimateTokens)
  end.
Definition reframe_part (p : part) : part := match p with Text t r => Text (reframeAnchorBodyForClaude t) r | _ => p end.
Definition projectAnchors (p : ContextPolicy) (ms : list message) : list message :=
  match p with
  | GeneralPolicy => ms
  | ClaudePolicy => map (λ m, if is_anchor_row m then mkMessage (msg_info m) (map reframe_part (parts m)) else m) ms
  end.
Definition real_tokens (m : message) : Z := let t := tokens (msg_info m) in input t + cache_read t + cache_write t.
Definition latestRealPromptTokens (ms : list message) : Z :=
  from_option real_tokens 0 (findLast (λ m, is_assistant m && negb (summary (msg_info m)) && (0 <? real_tokens m)) ms).

Inductive ProviderClass := claude | codex | general.
#[export] Instance ProviderClass_eq_dec : EqDecision ProviderClass.
Proof. solve_decision. Defined.
Definition classifyProvider (providerId : option jsstr) : ProviderClass :=
  match providerId with
  | Some p => if bool_decide (p = js "claude-cli") then claude else if bool_decide (p = js "codex") then codex else general
  | None => general
  end.
Definition strategy_takeover (c : ProviderClass) : bool := match c with claude => false | codex | general => true end.
(** [wired] when the strategies were registered. *)
Definition shouldCompactOnTakeover (wired : bool) (providerId : option jsstr) : bool :=
  if wired then strategy_takeover (classifyProvider providerId) else true.

(** ** The budget *)

Record Model := mkModel { providerId : jsstr; cost_input : Q; limit_context : Z; limit_input : option Z; limit_output : Z }.
Record CompactionConfig := mkConfig {
  auto : option bool; headroom : option Z; reserved : option Z; overflowThreshold : option Q; cooldownRounds : option Z; opportunisticThreshold : option Q
}.
Definition COMPACTION_BUFFER : Z := 20000.
Definition DEFAULT_HEADROOM : Z := 8000.
Definition DEFAULT_COOLDOWN_ROUNDS : Z := 8.
Definition EMERGENCY_CEILING : Z := 2000.
Definition BY_TOKEN_HEADROOM : Z := 80000.
Definition BY_TOKEN_COOLDOWN_ROUNDS : Z := 4.
Definition isByTokenBilling (m : Model) : bool := negb (Qle_bool (cost_input m) 0).
Definition canSummarize (m : Model) : bool := 16000 <=? limit_context m.
Definition or_zero (a b : Z) : Z := if a =? 0 then b else a.
(** [ProviderTransform.maxOutputTokens] for a model without thinking. *)
Definition maxOutputTokens (modelLimit globalLimit : Z) : Z := Z.min (or_zero modelLimit globalLimit) globalLimit.
Definition max_output (OUTPUT_TOKEN_MAX : Z) (m : Model) : Z := maxOutputTokens (or_zero (limit_output m) 32000) OUTPUT_TOKEN_MAX.
Definition input_limit (m : Model) : option Z := match limit_input m with Some 0 => None | l => l end.
Definition used_tokens (t : token_counts) : Z := or_zero (default 0 (total t)) (input t + output t + cache_read t + cache_write t).
Record Budget := mkBudget {
  b_auto : bool; b_reserved : Z; b_usable : Z; b_count : Z; b_overflow : bool; b_emergency : bool; b_cooldownRounds : Z; b_byToken : bool
}.
Definition inspectBudget (OUTPUT_TOKEN_MAX : Z) (config : CompactionConfig) (t : token_counts) (m : Model) : Budget :=
  let context := limit_context m in
  let count := used_tokens t in
  let byToken := isByTokenBilling m in
  let room := default (if byToken then BY_TOKEN_HEADROOM else DEFAULT_HEADROOM) (headroom config) in
  let res := default (Z.max room (Z.min COMPACTION_BUFFER (max_output OUTPUT_TOKEN_MAX m))) (reserved config) in
  let reservedBasedUsable := match input_limit m with Some l => l - res | None => context - max_output OUTPUT_TOKEN_MAX m end in
  let usable := match overflowThreshold config with Some q => Qfloor (inject_Z context * q)%Q | None => reservedBasedUsable end in
  let emergencyCeiling := default context (input_limit m) - EMERGENCY_CEILING in
  let on := negb (bool_decide (auto config = Some false)) in
  mkBudget on res usable count (on && negb (context =? 0) && (usable <=? count)) (on && negb (context =? 0) && (emergencyCeiling <=? count))
    (default (if byToken then BY_TOKEN_COOLDOWN_ROUNDS else DEFAULT_COOLDOWN_ROUNDS) (cooldownRounds config)) byToken.
Definition isOverflow (freerun : bool) (b : Budget) : bool :=
  if freerun then false else if negb (b_overflow b) then false else if b_emergency b then true else true.
(** [count / usable < n / d]. *)
Definition below (count usable n d : Z) : bool := if 0 <? usable then d * count <? n * usable else 0 <? n.
Definition CACHE_AWARE_MIN_INPUT : Z := 40000.
Definition shouldCacheAwareCompact (freerun : bool) (b : Budget) (t : token_counts) (diagnosis : option bool) : bool :=
  if freerun then false
  else if negb (b_auto b) || negb (b_byToken b) then false
  else if below (b_count b) (b_usable b) 2 5 then false
  else
    let totalInput := input t + cache_read t in
    if totalInput <? CACHE_AWARE_MIN_INPUT then false
    else if negb (below (cache_read t) totalInput 2 5) then false
    else default true diagnosis.
Definition shouldCompactOnPredictedCacheLoss (cacheLossFloor : Q) (minUncachedTokens currentInputTokens cacheRead window : Z) : bool :=
  let ratio := if 0 <? window then (inject_Z currentInputTokens / inject_Z window)%Q else 0%Q in
  if Qle_bool ratio cacheLossFloor then false else minUncachedTokens <=? Z.max 0 (currentInputTokens - cacheRead).

(** ** The watch on the system block *)

Definition hashes := gmap jsstr (list jsstr).
Definition WINDOW_SIZE : nat := 3.
Section Watch.
Context (sha256 : jsstr → jsstr).
Definition recordSystemBlockHash (sessionID systemBlockText : jsstr) (h : hashes) : hashes :=
  let arr := default [] (h !! sessionID) ++ [sha256 systemBlockText] in
  <[sessionID := drop (length arr - WINDOW_SIZE) arr]> h.
Definition sessionDeleted (sessionID : jsstr) (h : hashes) : hashes := delete sessionID h.
Inductive CacheMissDiagnosisKind := system_prefix_churn | conversation_growth | neither.
Definition diagnoseCacheMiss (sessionID : jsstr) (conversationTailTokens : Z) (minTailTokens : option Z) (h : hashes) : CacheMissDiagnosisKind * bool :=
  match default [] (h !! sessionID) with
  | (first :: _ :: _) as last =>
      if forallb (λ x, bool_decide (x = first)) last
      then (if default 40000 minTailTokens <? conversationTailTokens then (conversation_growth, true) else (neither, false))
      else (system_prefix_churn, false)
  | _ => (neither, false)
  end.
End Watch.

(** ** The intake of what follows an anchor *)

Record manager := mkManager { lastEnrichedAnchor : gmap jsstr jsstr; lastPublishedAnchor : gmap jsstr jsstr }.
Definition ENRICH_ELIGIBLE_OBSERVED : list Observed :=
  [overflow; cache_aware; manual; rebind; continuation_invalidated; provider_switched; stall_recovery].
Definition truthy_id (i : option jsstr) : option jsstr := match i with Some [] => None | _ => i end.
(** Whether a request is carried out, and the slot it takes. *)
Definition requestEnrich (sessionID : jsstr) (anchorId : option jsstr) (o : Observed) (s : manager) : bool * manager :=
  if negb (bool_decide (o ∈ ENRICH_ELIGIBLE_OBSERVED)) then (false, s)
  else match truthy_id anchorId with
  | None => (true, s)
  | Some i =>
      if bool_decide (lastEnrichedAnchor s !! sessionID = Some i) then (false, s)
      else (true, mkManager (<[sessionID := i]> (lastEnrichedAnchor s)) (lastPublishedAnchor s))
  end.
(** Whether it is a duplicate; it is carried out all the same. *)
Definition requestPublish (sessionID : jsstr) (anchorId : option jsstr) (s : manager) : bool * manager :=
  match truthy_id anchorId with
  | None => (false, s)
  | Some i =>
      (bool_decide (lastPublishedAnchor s !! sessionID = Some i), mkManager (lastEnrichedAnchor s) (<[sessionID := i]> (lastPublishedAnchor s)))
  end.
Definition forget (sessionID : jsstr) (s : manager) : manager :=
  mkManager (delete sessionID (lastEnrichedAnchor s)) (delete sessionID (lastPublishedAnchor s)).

(** ** Room for the answer *)

(** A context that is not over its budget leaves room for what the model may
    answer, or for the reserve below a limit on the input; with a threshold of its
    own it only is below that share of the window. *)
Theorem room_for_answer n config t m : auto config ≠ Some false → limit_context m ≠ 0 →
  let b := inspectBudget n config t m in
  isOverflow false b = false →
  match overflowThreshold config, input_limit m with
  | None, None => used_tokens t + max_output n m < limit_context m
  | None, Some l => used_tokens t + b_reserved b < l
  | Some q, _ => (inject_Z (used_tokens t) < inject_Z (limit_context m) * q)%Q
  end.
Proof.
  intros Ha Hc b H. assert (b_overflow b = false) as Hb.
  { unfold isOverflow in H. destruct (b_overflow b); [| done]. by destruct (b_emergency b). }
  subst b. unfold inspectBudget in *. cbn [b_overflow b_reserved] in *. rewrite bool_decide_false in Hb by done. cbn [negb andb] in Hb.
  rewrite (proj2 (Z.eqb_neq _ _)) in Hb by done. cbn [negb andb] in Hb. apply Z.leb_gt in Hb.
  destruct (overflowThreshold config) as [q |].
  - eapply Qlt_le_trans; [| apply Qfloor_le]. by rewrite <- Zlt_Qlt.
  - destruct (input_limit m); lia.
Qed.
(** The estimate that decides about enriching an anchor is never lowered, and
    raised to one and a half times at most. *)
Theorem gate_bounded p e real reserve : 0 <= e → e <= gateAnchorTokens p e real reserve /\ 2 * gateAnchorTokens p e real reserve <= 3 * e + 1.
Proof.
  intros He. destruct p; cbn [gateAnchorTokens]; [lia |]. unfold undercount_cap. Z.to_euclidean_division_equations. lia.
Qed.

(** ** The last three system blocks *)

Definition record_all (sha256 : jsstr → jsstr) (sessionID : jsstr) (ts : list jsstr) (h : hashes) : hashes :=
  foldl (λ h t, recordSystemBlockHash sha256 sessionID t h) h ts.
Definition last_three {A} (l : list A) : list A := drop (length l - WINDOW_SIZE) l.
Lemma last_three_app {A} (l : list A) x : last_three (last_three l ++ [x]) = last_three (l ++ [x]).
Proof.
  unfold last_three, WINDOW_SIZE. rewrite !length_app, length_drop. cbn [length].
  destruct (Nat.leb_spec (length l) 3) as [H | H].
  - rewrite (proj2 (Nat.sub_0_le (length l) 3)) by lia. by rewrite Nat.sub_0_r.
  - rewrite <- drop_app_le by lia. rewrite drop_drop. f_equal. lia.
Qed.
Lemma record_all_lookup sha256 s ts h : record_all sha256 s ts h !! s = if decide (ts = []) then h !! s else Some (last_three (default [] (h !! s) ++ map sha256 ts)).
Proof.
  induction ts as [| t ts IH] using rev_ind; [done |]. rewrite decide_False by (by destruct ts). unfold record_all. rewrite foldl_app. cbn [foldl].
  fold (record_all sha256 s ts h). 
  unfold recordSystemBlockHash at 1. cbn zeta.
  etransitivity; [apply (lookup_insert_eq (M := gmap jsstr)) |]. rewrite IH. f_equal.
  change (last_three (default [] (if decide (ts = []) then h !! s else Some (last_three (default [] (h !! s) ++ map sha256 ts))) ++ [sha256 t]) = last_three (default [] (h !! s) ++ map sha256 (ts ++ [t]))).
  rewrite map_app, app_assoc. cbn [map]. destruct (decide (ts = [])) as [-> | Hts]; [by rewrite app_nil_r |]. cbn [default from_option]. apply last_three_app.
Qed.
(** A cache that misses is blamed on the conversation exactly when at least
    two system blocks were sent in a session, the last three at most are the same,
    and the conversation is long; the session has no history before. *)
Theorem growth_iff_stable sha256 s ts n h : h !! s = None →
  (diagnoseCacheMiss s n None (record_all sha256 s ts h)).2 = true ↔
  40000 < n ∧ (2 <= length ts)%nat ∧ ∃ x, Forall (λ t, sha256 t = x) (last_three ts).
Proof.
  intros Hs. unfold diagnoseCacheMiss. rewrite record_all_lookup, Hs. cbn [default from_option app].
  assert (last_three (map sha256 ts) = map sha256 (last_three ts)) as Hm by (unfold last_three; by rewrite length_map, skipn_map).
  assert (length (last_three ts) = Nat.min 3 (length ts)) as Hl by (unfold last_three, WINDOW_SIZE; rewrite length_drop; lia).
  assert ((∃ x, Forall (λ t, sha256 t = x) (last_three ts)) ↔ ∃ x, Forall (λ y, y = x) (map sha256 (last_three ts))) as ->.
  { by setoid_rewrite Forall_map. }
  destruct (decide (ts = [])) as [-> | Hts]; [cbn; split; [done | lia] |]. cbn [default from_option]. rewrite Hm.
  rewrite <- (length_map sha256) in Hl. destruct (map sha256 (last_three ts)) as [| a [| b l]]; cbn [length] in Hl.
  - destruct ts; [done | cbn in Hl; lia].
  - split; [done | lia].
  - unfold Datatypes.id. cbn iota. destruct (forallb (λ x, bool_decide (x = a)) (a :: b :: l)) eqn:E.
    + destruct (Z.ltb_spec 40000 n); split; try done; [| lia]. intros _. split; [done |]. split; [lia |]. exists a.
      apply Forall_forall. intros x Hx. apply list_elem_of_In in Hx. by apply (proj1 (bool_decide_eq_true _) (proj1 (forallb_forall _ _) E x Hx)).
    + split; [done |]. intros (_ & _ & x & Hx). exfalso. apply not_true_iff_false in E. apply E. apply forallb_forall. intros y Hy.
      apply list_elem_of_In in Hy. rewrite Forall_forall in Hx. apply bool_decide_eq_true. rewrite (Hx y Hy). symmetry. apply Hx. by left.
Qed.

(** ** Each anchor in turn *)

(** The anchors that are enriched when requests come in this order. *)
Fixpoint enriched (sessionID : jsstr) (reqs : list (jsstr * Observed)) (s : manager) : list jsstr :=
  match reqs with
  | [] => []
  | (i, o) :: reqs' => let '(done, s') := requestEnrich sessionID (Some i) o s in (if done then [i] else []) ++ enriched sessionID reqs' s'
  end.
Definition eligible_cause (o : Observed) : bool := bool_decide (o ∈ ENRICH_ELIGIBLE_OBSERVED).
(** The requests for one anchor after those for another. *)
Definition requests (groups : list (jsstr * list Observed)) : list (jsstr * Observed) := flat_map (λ g, map (pair g.1) g.2) groups.
Lemma enriched_again s i os rest m : i ≠ [] → lastEnrichedAnchor m !! s = Some i →
  enriched s (map (pair i) os ++ rest) m = enriched s rest m.
Proof.
  intros Hi Hm. induction os as [| o os IH]; [done |]. cbn [map app enriched]. unfold requestEnrich. destruct i as [| c i]; [done |].
  destruct (bool_decide (o ∈ _)); cbn [negb truthy_id]; [| exact IH]. rewrite bool_decide_true by done. exact IH.
Qed.
Lemma enriched_group s i os rest m : i ≠ [] → lastEnrichedAnchor m !! s ≠ Some i →
  enriched s (map (pair i) os ++ rest) m =
    if existsb eligible_cause os then i :: enriched s rest (mkManager (<[s := i]> (lastEnrichedAnchor m)) (lastPublishedAnchor m)) else enriched s rest m.
Proof.
  intros Hi Hm. induction os as [| o os IH]; [done |]. cbn [map app enriched existsb]. unfold requestEnrich, eligible_cause at 1.
  destruct i as [| c i]; [done |]. destruct (bool_decide (o ∈ _)); cbn [negb truthy_id orb]; [| exact IH]. rewrite bool_decide_false by done.
  cbn [app]. f_equal. apply enriched_again; [done |]. cbn [lastEnrichedAnchor]. by rewrite lookup_insert_eq.
Qed.
(** When the anchors of a session follow one another, each is enriched exactly
    once if one of the requests for it has a cause that allows it, however many
    there are, and not at all otherwise. *)
Theorem enriched_once s groups m : Forall (λ i, i ≠ []) (map fst groups) → NoDup (map fst groups) →
  (∀ i, lastEnrichedAnchor m !! s = Some i → i ∉ map fst groups) →
  enriched s (requests groups) m = map fst (filter (λ g, existsb eligible_cause g.2 = true) groups).
Proof.
  intros Hne Hnd Hm. revert m Hm. induction groups as [| [i os] groups IH]; intros m Hm; [done |]. cbn [map fst] in *.
  apply Forall_cons in Hne as [Hi Hne]. apply NoDup_cons in Hnd as [Hin Hnd]. unfold requests. cbn [flat_map fst snd].
  fold (requests groups). rewrite enriched_group; [| done |].
  - rewrite filter_cons. cbn [snd]. destruct (existsb eligible_cause os).
    + rewrite decide_True by done. cbn [map fst]. f_equal. apply IH; [done | done |]. cbn [lastEnrichedAnchor].
      intros i'. rewrite lookup_insert_eq. by intros [= <-].
    + rewrite decide_False by done. apply IH; [done | done |]. intros i' H'. specialize (Hm _ H'). rewrite not_elem_of_cons in Hm. by destruct Hm.
  - intros H'. apply (Hm _ H'). by left.
Qed.

(** ** Examples *)

Definition demo_model : Model := mkModel (js "codex") (1 # 10)%Q 200000 None 32000.
Definition demo_config : CompactionConfig := mkConfig None None None None None None.
Definition used (n : Z) : token_counts := mkTokens (Some n) 0 0 0 0.
Lemma room_for_answer_witness : used_tokens (used 167999) + max_output 32000 demo_model < 200000.
Proof. refine (room_for_answer 32000 demo_config (used 167999) demo_model _ _ _); by vm_compute. Defined.
Lemma gate_bounded_witness : 100 <= gateAnchorTokens ClaudePolicy 100 90000 20000 /\ 2 * gateAnchorTokens ClaudePolicy 100 90000 20000 <= 301.
Proof. apply (gate_bounded ClaudePolicy 100). lia. Defined.
Lemma growth_iff_stable_witness :
  (diagnoseCacheMiss (js "s") 50000 None (record_all Datatypes.id (js "s") [js "a"; js "b"; js "b"; js "b"] ∅)).2 = true ↔
  40000 < 50000 ∧ (2 <= 4)%nat ∧ ∃ x, Forall (λ t, t = x) [js "b"; js "b"; js "b"].
Proof. apply (growth_iff_stable Datatypes.id (js "s") [js "a"; js "b"; js "b"; js "b"] 50000 ∅). by vm_compute. Defined.
Lemma enriched_once_witness :
  enriched (js "s") (requests [(js "a", [idle; overflow; overflow]); (js "b", [idle]); (js "c", [manual])]) (mkManager ∅ ∅) = [js "a"; js "c"].
Proof.
  refine (enriched_once (js "s") [(js "a", [idle; overflow; overflow]); (js "b", [idle]); (js "c", [manual])] (mkManager ∅ ∅) _ _ _).
  - by_compute.
  - by_compute.
  - intros i H. by vm_compute in H.
Defined.
(** One slot holds the last anchor only. *)
Example anchor_enriched_again : enriched (js "s") [(js "a", overflow); (js "b", overflow); (js "a", overflow)] (mkManager ∅ ∅) = [js "a"; js "b"; js "a"].
Proof. by vm_compute. Qed.
(** With a threshold of the whole window a context in the last 2,000 tokens is an
    emergency, but is not compacted. *)
Example emergency_unreached :
  let b := inspectBudget 32000 (mkConfig None None None (Some 1%Q) None None) (used 199999) demo_model in b_emergency b = true ∧ isOverflow false b = false.
Proof. by vm_compute. Qed.
