(* ===== verification/CompactionRun.v ===== *)
(** * Compacting a context ([run] of [session/compaction.ts])

    The kinds of compaction that a cause allows, the anchor that is written, the
    open question after it and the request to continue.  What a model that writes
    a summary answers and the plugin of a server are arguments, as are the clock and fresh
    identifiers.  Of the skills only the record that is put on the anchor is here
    ([Skills.v] has the rest); enrichment, events and usage counts are left out. *)
From stdpp Require Import base list.
From S2P Require Import Prelude JsString Json Identifier ToolBudget Dialog Anchor ToolIndex AnchorText MessageStream ContextBudget.
Open Scope Z_scope.

Definition KIND_CHAIN (o : Observed) : list AnchorKind :=
  match o with overflow | cache_aware => [narrative; ai_paid] | _ => [narrative] end.
Definition resolveKindChain (byRequest : bool) (o : Observed) : list AnchorKind :=
  if byRequest && bool_decide (o ∈ [overflow; cache_aware]) then KIND_CHAIN o ++ [ai_paid] else KIND_CHAIN o.
Definition isLocalKind (k : AnchorKind) : bool := bool_decide (k = narrative).
Definition INJECT_CONTINUE (o : Observed) : bool :=
  match o with overflow | cache_aware | idle | continuation_invalidated | empty_response => true | _ => false end.

(** ** Anchors in the table *)

Definition is_summary (m : message) : bool := is_assistant m && summary (msg_info m).
Definition most_recent_anchor (ms : store) : option message := findLast is_summary ms.
Definition readMostRecentAnchorId (ms : store) : option jsstr := Dialog.id_of <$> most_recent_anchor ms.
Definition COOLDOWN_MS : Z := 30000.
Definition shouldThrottle (now : Z) (ms : store) : bool :=
  match most_recent_anchor ms with
  | None => false
  | Some a => let anchorTime := created (msg_info a) in negb (anchorTime =? 0) && (now - anchorTime <? COOLDOWN_MS)
  end.
Definition any_text (p : part) : list jsstr := match p with Text t _ => [t] | _ => [] end.
Definition extractAnchorTextBody (a : message) : jsstr := trim (join [newline] (flat_map any_text (parts a))).
Definition demoted (i : info) : info := mkInfo (Dialog.id i) (msg_role i) (created i) false (finish i) (tokens i).
Definition demote (l : list message) (ms : store) : store := foldl (λ ms m, updateMessage (demoted (msg_info m)) ms) ms l.
Definition has_text_body (m : message) : bool := existsb (λ p, match p with Text t _ => bool_decide (trim t ≠ []) | _ => false end) (parts m).
(** Of the messages that were read, which may be older than the table. *)
Definition demoteStubAnchors (read ms : store) : store := demote (filter (λ m, is_summary m && negb (has_text_body m) = true) read) ms.

(** ** Writing an anchor *)

Definition continueText : jsstr :=
  js "Compaction completed. Continue from where you left off and follow your existing plan. " ++
  js "Do NOT re-establish work the runtime already tracks (todos, loaded skills, child sessions, " ++
  js "working cache) " ++ [8212%N] ++ js " only call setup/establishing tools when introducing genuinely new structure. " ++
  js "If there is no further work, stop with a brief summary.".
Record stamps := mkStamps { anchorID : jsstr; anchorTime : Z; userID : jsstr; userTime : Z; continueID : jsstr; continueTime : Z }.
Definition anchor_info (st : stamps) : info := mkInfo (anchorID st) assistant (anchorTime st) true None no_tokens.
Definition continue_info (st : stamps) : info := mkInfo (continueID st) user (continueTime st) false None no_tokens.
Definition has_user (ms : store) : bool := existsb is_user ms.
Definition injectContinueAfterAnchor (st : stamps) (ms : store) : store :=
  if has_user ms then write (continue_info st) [Text continueText false] ms else ms.
Definition remove_anchor (a : option message) (ms : store) : store := match a with Some a => removeMessage (Dialog.id_of a) ms | None => ms end.
Definition writeAnchorFromBody (snapshot : jsstr) (auto : bool) (rawTail : option Z) (st : stamps) (ms : store) : store :=
  if negb (has_user ms) then ms
  else
    let prevAnchor := most_recent_anchor ms in
    let ms := remove_anchor prevAnchor (write (anchor_info st) [Text snapshot false; Compaction rawTail] ms) in
    if auto then write (continue_info st) [Text continueText false] ms else ms.
Definition shouldInjectContinue (o : Observed) (chainInit : bool) (anchorMessageID : jsstr) (ms : store) : bool :=
  (INJECT_CONTINUE o || chainInit) && negb (existsb (λ m, is_user m && text_lt anchorMessageID (Dialog.id_of m)) ms).
Definition gated_continue (o : Observed) (chainInit : bool) (st : stamps) (ms : store) : store :=
  match readMostRecentAnchorId ms with
  | Some i => if shouldInjectContinue o chainInit i ms then injectContinueAfterAnchor st ms else ms
  | None => ms
  end.
(** The record of the skills is written over the part, with the raw tail in it. *)
Fixpoint annotated (ps : list part) : list part :=
  match ps with
  | [] => []
  | Compaction _ :: ps' => Compaction None :: ps'
  | CompactionRequest :: _ => ps
  | p :: ps' => p :: annotated ps'
  end.
Definition persist_snapshot (ms : store) : store :=
  match readMostRecentAnchorId ms with
  | Some i => map (λ m, if bool_decide (Dialog.id_of m = i) then mkMessage (msg_info m) (annotated (parts m)) else m) ms
  | None => ms
  end.
Definition anchor_and_question (replayEnabled chainInit : bool) (o : Observed) (k : AnchorKind) (summaryText : jsstr) (rawTail : option Z)
    (snap : option UserMessageSnapshot) (st : stamps) (ms : store) : store :=
  let body := stored_body k summaryText ms in
  let ms := match k with narrative => ms | _ => demote (filter (λ m, is_summary m = true) ms) ms end in
  let prevAnchorId := readMostRecentAnchorId ms in
  let ms := writeAnchorFromBody body (if replayEnabled then false else INJECT_CONTINUE o) rawTail st ms in
  let ms :=
    match snap, readMostRecentAnchorId ms with
    | Some s, Some newAnchorId =>
        if bool_decide (Some newAnchorId = prevAnchorId) then ms else (replayUnansweredUserMessage replayEnabled s (userID st) (userTime st) ms).1
    | _, _ => ms
    end in
  if replayEnabled then gated_continue o chainInit st ms else ms.
Definition defaultWriteAnchor (replayEnabled chainInit : bool) (o : Observed) (k : AnchorKind) (summaryText : jsstr) (rawTail : option Z)
    (snap : option UserMessageSnapshot) (st : stamps) (ms : store) : store :=
  persist_snapshot (anchor_and_question replayEnabled chainInit o k summaryText rawTail snap st ms).

(** ** The kinds *)

Inductive KindAttempt := Failed | Attempt (summaryText : jsstr) (kind : AnchorKind) (anchorWritten truncated : bool) (rawTailProjection : option Z).
Record Fadeout := mkFadeout { enabled : bool; bTailRounds : Z }.
Definition raw_tail (f : Fadeout) (model : option Model) : option Z :=
  match model with
  | Some m => match resolvePolicy (Some (providerId m)) with
              | ClaudePolicy => if enabled f && (0 <? bTailRounds f) then Some (bTailRounds f) else None
              | GeneralPolicy => None
              end
  | None => None
  end.
Definition index_of (i : jsstr) (ms : store) : option nat := findIndex (λ m, bool_decide (Dialog.id_of m = i)) ms.
Definition too_big (prevBody : jsstr) (model : option Model) : bool :=
  match prevBody, model with
  | _ :: _, Some m => (0 <? limit_context m) && (limit_context m <=? 2 * estimateTokens prevBody)
  | _, _ => false
  end.
Definition tryLocalRedactedDialog (f : Fadeout) (model : option Model) (ms : store) : KindAttempt :=
  match ms with
  | [] => Failed
  | _ =>
      let prevAnchor := most_recent_anchor ms in
      let prevAnchorIdx := prevAnchor ≫= λ a, index_of (Dialog.id_of a) ms in
      let prevBody := from_option extractAnchorTextBody [] prevAnchor in
      if too_big prevBody model then Failed
      else
        let unansweredId := findUnansweredUserMessageId ms prevAnchorIdx in
        let tail := drop (from_option S O prevAnchorIdx) ms in
        let rawTail := raw_tail f model in
        let emitted := messagesEmitted (serializeRedactedDialog tail (mkSerialize (parsePrevLastRound prevBody + 1) unansweredId (default 0 rawTail))) in
        if (emitted =? 0) && bool_decide (prevBody = []) then Failed
        else Attempt (narrative_body prevBody tail unansweredId (default 0 rawTail)) narrative false false rawTail
  end.
(** Whether a server would be sent anything. *)
Definition is_item (p : part) : bool := match p with Text _ _ => true | _ => false end.
Definition is_done_tool (p : part) : bool := match p with Tool t => match status t with completed => true | _ => false end | _ => false end.
Definition has_items (ms : store) : bool :=
  existsb (λ m, negb (is_summary m) && (existsb is_item (parts m) || is_assistant m && existsb is_done_tool (parts m))) ms.
(** What a model that writes a summary does: it is not found; its context is too
    small; it writes texts and ends, fails, or the run is broken off. *)
Inductive processed := Unavailable | TooSmall | Streamed (texts : list jsstr) | Errored (texts : list jsstr) | Crashed (texts : list jsstr).
Inductive agent_answer := Answered (summaryText : jsstr) | Threw.
(** Written before the model is asked, and the texts that it writes into it. *)
Definition agent_stub (st : stamps) (texts : list jsstr) (ms : store) : store :=
  write (anchor_info st) (map (λ t, Text t false) texts) (demote (filter (λ m, is_summary m = true) ms) ms).
Definition runLlmCompactionAgent (process : store → processed) (st : stamps) (ms : store) : store * agent_answer :=
  match process ms with
  | Unavailable => (ms, Threw)
  | TooSmall => (ms, Answered [])
  | Errored texts => (agent_stub st texts ms, Answered [])
  | Crashed texts => (agent_stub st texts ms, Threw)
  | Streamed texts =>
      let texts := map (λ t, sanitizeAnchorToString t (kind_text ai_paid) false) texts in
      (updatePart (anchorID st) (Compaction None) (agent_stub st texts ms), Answered (join [newline] texts))
  end.
Inductive RunResult := continue | stop.
Record run_env := mkEnv {
  now : Z; model : option Model; rich : bool; enableUserMsgReplay : bool; fadeout : Fadeout; chainInitPending : bool; stamps_of : stamps
}.
Section Run.
(** The summary of the plugin, if it handles the request, and the model. *)
Context (plugin : store → option jsstr) (process : store → processed).
Definition tryLowCostServer (model : option Model) (ms : store) : KindAttempt :=
  match model with
  | None => Failed
  | Some _ =>
      if negb (has_user ms) || negb (has_items ms) then Failed
      else match plugin ms with
      | None => Failed
      | Some summary => Attempt (or_text summary (js "[Server-compacted conversation history]")) ai_free false false None
      end
  end.
Definition tryLlmAgent (st : stamps) (ms : store) : store * KindAttempt :=
  if negb (has_user ms) then (ms, Failed)
  else match runLlmCompactionAgent process st ms with
  | (ms', Answered []) => (demoteStubAnchors ms ms', Failed)
  | (ms', Answered t) => (ms', Attempt t ai_paid true false None)
  | (ms', Threw) => (demoteStubAnchors ms' ms', Failed)
  end.
Definition tryKind (e : run_env) (k : AnchorKind) (ms : store) : store * KindAttempt :=
  match k with
  | narrative => (ms, tryLocalRedactedDialog (fadeout e) (model e) ms)
  | ai_free => (ms, tryLowCostServer (model e) ms)
  | ai_paid => tryLlmAgent (stamps_of e) ms
  end.
(** What follows an anchor that the agent wrote. *)
Definition after_inline_anchor (e : run_env) (o : Observed) (snap : option UserMessageSnapshot) (ms : store) : store :=
  let ms :=
    match snap, readMostRecentAnchorId ms with
    | Some s, Some _ => (replayUnansweredUserMessage (enableUserMsgReplay e) s (userID (stamps_of e)) (userTime (stamps_of e)) ms).1
    | _, _ => ms
    end in
  if enableUserMsgReplay e then gated_continue o (chainInitPending e) (stamps_of e) ms
  else if INJECT_CONTINUE o then injectContinueAfterAnchor (stamps_of e) ms else ms.
Fixpoint walk (e : run_env) (o : Observed) (snap : option UserMessageSnapshot) (chain : list AnchorKind) (ms : store) : store * RunResult :=
  match chain with
  | [] => (ms, stop)
  | k :: later =>
      match tryKind e k ms with
      | (ms, Failed) => walk e o snap later ms
      | (ms, Attempt text kind anchorWritten truncated rawTail) =>
          if negb anchorWritten && isLocalKind kind && truncated && existsb (λ k, negb (isLocalKind k)) later then walk e o snap later ms
          else if anchorWritten then (after_inline_anchor e o snap ms, continue)
          else match model e with
          | Some _ => (defaultWriteAnchor (enableUserMsgReplay e) (chainInitPending e) o kind text rawTail snap (stamps_of e) ms, continue)
          | None => (ms, continue)
          end
      end
  end.
Definition by_request (e : run_env) : bool := match model e with Some m => negb (isByTokenBilling m) | None => false end.
Definition chain_of (e : run_env) (o : Observed) : list AnchorKind :=
  if bool_decide (o = manual) && (rich e || by_request e) then [ai_paid] else resolveKindChain (by_request e) o.
Definition run (e : run_env) (o : Observed) (ms : store) : store * RunResult :=
  if shouldThrottle (now e) ms then (ms, continue)
  else if skipEventCompaction (resolvePolicy (providerId <$> model e)) o then (ms, continue)
  else walk e o (if enableUserMsgReplay e then snapshotUnansweredUserMessage o ms else None) (chain_of e o) ms.
End Run.

(** ** While a session is idle *)

Definition in_flight (m : message) : list jsstr :=
  if is_assistant m then flat_map (λ p, match p with Tool t => match status t with pending | running => [callID t] | _ => [] end | _ => [] end) (parts m) else [].
Definition checkCleanTail (windowSize : nat) (ms : store) : bool :=
  match flat_map in_flight (drop (length ms - windowSize) ms) with [] => true | _ => false end.
Definition getLastAssistantTokens (ms : store) : option token_counts := (λ m, tokens (msg_info m)) <$> findLast is_assistant ms.
Definition utilization (b : Budget) : QArith_base.Q := if 0 <? b_usable b then QArith_base.Qdiv (QArith_base.inject_Z (b_count b)) (QArith_base.inject_Z (b_usable b)) else QArith_base.inject_Z 0.
Definition idle_threshold (config : CompactionConfig) (byToken : bool) : QArith_base.Q :=
  default (if byToken then QArith_base.Qmake 3 5 else QArith_base.Qmake 1 1) (opportunisticThreshold config).
Definition idleCompaction (plugin : store → option jsstr) (process : store → processed) (OUTPUT_TOKEN_MAX : Z) (config : CompactionConfig) (m : Model)
    (e : run_env) (ms : store) : store :=
  match getLastAssistantTokens ms with
  | None => ms
  | Some t =>
      let b := inspectBudget OUTPUT_TOKEN_MAX config t m in
      if negb (b_auto b) then ms
      else if negb (QArith_base.Qle_bool (idle_threshold config (b_byToken b)) (utilization b)) then ms
      else if negb (checkCleanTail 2 ms) then ms
      else if from_option is_user false (last ms) then ms
      else (run plugin process e idle ms).1
  end.

(** ** Stamps that are later than the table *)

Lemma text_lt_trans s t u : text_lt s t = true → text_lt t u = true → text_lt s u = true.
Proof.
  revert t u. induction s as [| c s IH]; intros [| d t] [| e u]; cbn [text_lt]; try done.
  destruct (N.ltb_spec c d), (N.ltb_spec d c), (N.ltb_spec d e), (N.ltb_spec e d), (N.ltb_spec c e), (N.ltb_spec e c); try done; try lia; eauto.
Qed.
Lemma text_lt_ne s t : text_lt s t = true → s ≠ t.
Proof. intros H ->. pose proof (text_lt_antisym _ _ H). congruence. Qed.
Record stamps_later (st : stamps) (ms : store) : Prop := {
  sl_table : Forall (λ m, created (msg_info m) <= anchorTime st ∧ text_lt (Dialog.id_of m) (anchorID st) = true) ms;
  sl_user : anchorTime st <= userTime st ∧ text_lt (anchorID st) (userID st) = true;
  sl_continue : anchorTime st <= continueTime st ∧ text_lt (anchorID st) (continueID st) = true
}.
Lemma earlier_of i j : created i <= created j → text_lt (Dialog.id i) (Dialog.id j) = true → earlier i j = true.
Proof. unfold earlier. intros H1 ->. destruct (Z.ltb_spec (created i) (created j)); [done |]. rewrite (proj2 (Z.eqb_eq _ _)) by lia. done. Qed.
Lemma later_fresh st ms i : stamps_later st ms → anchorTime st <= created i → Dialog.id i = anchorID st ∨ text_lt (anchorID st) (Dialog.id i) = true →
  fresh_info i ms.
Proof.
  intros [H _ _] Ht Hi. eapply Forall_impl; [exact H |]. intros m [Hc Hm].
  assert (text_lt (Dialog.id_of m) (Dialog.id i) = true) as Hlt by (destruct Hi as [-> | Hi]; [done | by eapply text_lt_trans]).
  split; [by apply earlier_of; [lia |] | by apply text_lt_ne].
Qed.
Lemma later_sub st ms ms' : ms' ⊆ ms → stamps_later st ms → stamps_later st ms'.
Proof. intros Hs [H1 H2 H3]. split; [| done | done]. rewrite Forall_forall in *. auto. Qed.
Lemma removed_sub i ms : removeMessage i ms ⊆ ms.
Proof. intros m. unfold removeMessage. rewrite list_elem_of_filter. by intros [_ H]. Qed.
Lemma remove_anchor_sub a ms : remove_anchor a ms ⊆ ms.
Proof. destruct a; [apply removed_sub | done]. Qed.
Lemma kept_sub i child a ms : removeMessage i (remove_child child (remove_anchor a ms)) ⊆ ms.
Proof.
  etransitivity; [apply removed_sub |]. etransitivity; [| apply remove_anchor_sub].
  destruct child as [[| x c] |]; cbn [remove_child]; [reflexivity | apply removed_sub | reflexivity].
Qed.
Lemma later_ids st ms m : stamps_later st ms → m ∈ ms → Dialog.id_of m ≠ anchorID st ∧ text_lt (anchorID st) (Dialog.id_of m) = false.
Proof. intros [H _ _] Hm. rewrite Forall_forall in H. destruct (H m Hm) as [_ Hlt]. split; [by apply text_lt_ne | by apply text_lt_antisym]. Qed.

(** ** The table after an anchor *)

Definition the_anchor (st : stamps) (body : jsstr) (rawTail : option Z) : message := mkMessage (anchor_info st) [Text body false; Compaction rawTail].
Lemma most_recent_spec ms a : most_recent_anchor ms = Some a → a ∈ ms ∧ is_summary a = true.
Proof. unfold most_recent_anchor. by intros [H1 H2]%findLast_Some. Qed.
Lemma most_recent_last ms a post : is_summary a = true → Forall (λ m, is_summary m = false) post → most_recent_anchor (ms ++ a :: post) = Some a.
Proof.
  intros Ha Hp. unfold most_recent_anchor. rewrite findLast_app. assert (findLast is_summary (a :: post) = Some a) as ->; [| done].
  cbn [findLast]. assert (findLast is_summary post = None) as ->; [| by rewrite Ha]. clear Ha. induction Hp as [| m post Hm _ IH]; [done |].
  cbn [findLast]. by rewrite IH, Hm.
Qed.
Lemma persist_same st body pre post : Forall (λ m, Dialog.id_of m ≠ anchorID st) (pre ++ post) → Forall (λ m, is_summary m = false) post →
  persist_snapshot (pre ++ the_anchor st body None :: post) = pre ++ the_anchor st body None :: post.
Proof.
  intros [Hpre Hpost]%Forall_app Hs. unfold persist_snapshot, readMostRecentAnchorId. rewrite most_recent_last by done. cbn [fmap option_fmap option_map].
  assert (∀ l, Forall (λ m, Dialog.id_of m ≠ anchorID st) l →
    map (λ m, if bool_decide (Dialog.id_of m = anchorID st) then mkMessage (msg_info m) (annotated (parts m)) else m) l = l) as G.
  { induction 1 as [| m l Hm _ IH]; [done |]. cbn [map]. by rewrite bool_decide_eq_false_2, IH. }
  rewrite map_app. cbn [map]. change (Dialog.id_of (the_anchor st body None)) with (anchorID st). rewrite bool_decide_eq_true_2 by done. by rewrite !G by done.
Qed.
Lemma write_anchor_spec body rawTail st ms : has_user ms = true → stamps_later st ms →
  writeAnchorFromBody body false rawTail st ms = remove_anchor (most_recent_anchor ms) ms ++ [the_anchor st body rawTail].
Proof.
  intros Hu Hl. unfold writeAnchorFromBody. rewrite Hu. cbn [negb]. rewrite write_new by (eapply later_fresh; [done | cbn; lia | by left]).
  destruct (most_recent_anchor ms) as [p |] eqn:E; [| done]. apply most_recent_spec in E as [Hp _]. cbn [remove_anchor].
  rewrite removeMessage_app. f_equal. apply removeMessage_absent. repeat constructor. intros Heq. by destruct (later_ids _ _ _ Hl Hp) as [H _].
Qed.

Definition asked_again (st : stamps) (snap : UserMessageSnapshot) : message :=
  mkMessage (replay_info (snap_info snap) (userID st) (userTime st)) (map replay_part (snap_parts snap)).
Definition continue_message (st : stamps) : message := mkMessage (continue_info st) [Text continueText false].
Lemma snapshot_spec o ms s : snapshotUnansweredUserMessage o ms = Some s → ∃ before u after, ms = before ++ u :: after ∧ is_user u = true ∧
  snap_info s = msg_info u ∧ snap_parts s = parts u ∧ ∀ i, emptyAssistantID s = Some i → ∃ c, c ∈ after ∧ Dialog.id_of c = i.
Proof.
  unfold snapshotUnansweredUserMessage. destruct (last_real_user ms) as [[u after] |] eqn:E; [| done]. cbn [mbind option_bind].
  apply last_real_user_spec in E as (before & -> & Hu & _). intros H. exists before, u, after. split; [done |]. split; [done |].
  destruct after as [| c after]; cbn [take_while] in H; [by injection H as <- |].
  destruct (is_assistant c); [| by injection H as <-]. destruct (child_answers _ _ c); [done |]. injection H as <-. split; [done |]. split; [done |].
  intros i [= <-]. exists c. split; [by left | done].
Qed.
Lemma is_user_assistant m : is_user m = true → is_assistant m = false.
Proof. unfold is_user, is_assistant. intros ->%bool_decide_eq_true. done. Qed.
Lemma user_kept ms u a : NoDup (map Dialog.id_of ms) → u ∈ ms → is_user u = true → most_recent_anchor ms = Some a → Dialog.id_of u ≠ Dialog.id_of a.
Proof.
  intros Hn Hu Hr [Ha Hs]%most_recent_spec Heq. assert (u = a) as ->.
  { apply list_elem_of_lookup in Hu as [i Hi]. apply list_elem_of_lookup in Ha as [j Hj].
    assert (i = j) as ->; [| congruence]. eapply (NoDup_lookup (map Dialog.id_of ms)); [done | |]; rewrite list_lookup_fmap; [by rewrite Hi | by rewrite Hj, Heq]. }
  unfold is_summary in Hs. by rewrite (is_user_assistant a Hr) in Hs.
Qed.
Lemma kept_in ms u : NoDup (map Dialog.id_of ms) → u ∈ ms → is_user u = true → u ∈ remove_anchor (most_recent_anchor ms) ms.
Proof.
  intros Hn Hu Hr. destruct (most_recent_anchor ms) as [a |] eqn:E; [| done]. cbn [remove_anchor]. unfold removeMessage. apply list_elem_of_filter.
  split; [by eapply user_kept | done].
Qed.
Lemma has_user_spec ms : has_user ms = true ↔ ∃ u, u ∈ ms ∧ is_user u = true.
Proof. unfold has_user. rewrite existsb_exists. by setoid_rewrite list_elem_of_In. Qed.
Section Written.
Context (o : Observed) (chainInit : bool) (text : jsstr) (st : stamps) (ms : store)
  (Hn : NoDup (map Dialog.id_of ms)) (Hl : stamps_later st ms) (Hu : has_user ms = true).
Let old := remove_anchor (most_recent_anchor ms) ms.
Let body := stored_body narrative text ms.
Let a := the_anchor st body None.
Lemma later_old : stamps_later st old.
Proof. eapply later_sub; [apply remove_anchor_sub | done]. Qed.
Lemma ids_differ pre post : pre ⊆ ms → Forall (λ m, text_lt (anchorID st) (Dialog.id_of m) = true) post →
  Forall (λ m, Dialog.id_of m ≠ anchorID st) (pre ++ post).
Proof.
  intros Hpre Hpost. apply Forall_app. split.
  - apply Forall_forall. intros m Hm. by destruct (later_ids _ _ _ Hl (Hpre _ Hm)).
  - eapply Forall_impl; [exact Hpost |]. intros m Hm E. symmetry in E. by apply text_lt_ne in Hm.
Qed.
Lemma fresh_after_anchor i : anchorTime st <= created i → text_lt (anchorID st) (Dialog.id i) = true → fresh_info i (old ++ [a]).
Proof.
  intros Ht Hi. apply fresh_app. split; [eapply later_fresh; [apply later_old | done | by right] |]. repeat constructor; [by apply earlier_of | by apply text_lt_ne].
Qed.
Lemma new_anchor_id : bool_decide (Some (anchorID st) = readMostRecentAnchorId ms) = false.
Proof.
  apply bool_decide_eq_false. unfold readMostRecentAnchorId. destruct (most_recent_anchor ms) as [p |] eqn:E; [| done]. intros [= Heq].
  apply most_recent_spec in E as [Hp _]. by destruct (later_ids _ _ _ Hl Hp).
Qed.
Lemma written_question s : snapshotUnansweredUserMessage o ms = Some s → compaction_part (snap_parts s) = None →
  let kept := removeMessage (Dialog.id (snap_info s)) (remove_child (emptyAssistantID s) old) in
  defaultWriteAnchor true chainInit o narrative text None (Some s) st ms = kept ++ [a; asked_again st s] ∧
  filterCompacted None (kept ++ [a; asked_again st s]) = ([a; asked_again st s], false) ∧
  most_recent_anchor (kept ++ [a; asked_again st s]) = Some a.
Proof.
  intros Hs Hp kept. pose proof (snapshot_spec _ _ _ Hs) as (before & u & after & Hms & Hru & Hi & Hps & Hc).
  assert (u ∈ ms) as Hin by (rewrite Hms; apply elem_of_app; right; by left).
  assert (is_summary (asked_again st s) = false) as Hsum by (unfold is_summary, asked_again; rewrite is_user_assistant; [done |]; unfold is_user, role_of; cbn; by rewrite Hi).
  destruct (replay_after_anchor s old a (userID st) (userTime st)) as [Hreplay Hview]; try done.
  - unfold has_id. apply existsb_exists. exists u. rewrite Hi. split; [apply list_elem_of_In; by apply kept_in | by apply bool_decide_eq_true].
  - rewrite Hi. intros E. by destruct (later_ids _ _ _ Hl Hin) as [H _].
  - intros i E. destruct (Hc i E) as (c & Hca & <-). assert (c ∈ ms) as Hcm by (rewrite Hms; apply elem_of_app; right; by right).
    destruct (later_ids _ _ _ Hl Hcm) as [H _]. split; [done |]. intros E'. pose proof (sl_user _ _ Hl) as [_ H2]. rewrite E' in H2.
    destruct (later_ids _ _ _ Hl Hcm) as [_ H3]. congruence.
  - intros E. rewrite Hi in E. pose proof (sl_user _ _ Hl) as [_ H2]. rewrite E in H2. destruct (later_ids _ _ _ Hl Hin) as [_ H3]. unfold Dialog.id_of in H3. congruence.
  - apply fresh_after_anchor; apply (sl_user _ _ Hl).
  - split; [| split; [done | apply most_recent_last; [done | by repeat constructor]]].
    assert (kept ⊆ ms) as Hkept by apply kept_sub.
    unfold defaultWriteAnchor.
    assert (anchor_and_question true chainInit o narrative text None (Some s) st ms = kept ++ [a; asked_again st s]) as ->; [| apply persist_same; [apply ids_differ; [exact Hkept | by repeat constructor; apply (sl_user _ _ Hl)] | by repeat constructor]].
    unfold anchor_and_question. cbv zeta. rewrite write_anchor_spec by done. fold old body a.
    unfold readMostRecentAnchorId at 1. rewrite (most_recent_last old a []) by done. cbn [fmap option_fmap option_map].
    change (Dialog.id_of a) with (anchorID st). rewrite new_anchor_id, Hreplay. cbn [fst]. unfold gated_continue, readMostRecentAnchorId.
    rewrite (most_recent_last _ a [_]) by (done || by repeat constructor). cbn [fmap option_fmap option_map]. unfold shouldInjectContinue.
    rewrite existsb_app. cbn [existsb]. assert (is_user (asked_again st s) = true) as Hask by (unfold is_user, role_of; cbn; rewrite Hi; exact Hru).
    fold (asked_again st s). rewrite Hask. change (Dialog.id_of (asked_again st s)) with (userID st). change (Dialog.id_of a) with (anchorID st).
    rewrite (proj2 (sl_user _ _ Hl)). cbn [andb orb]. rewrite !orb_true_r. cbn [negb]. by rewrite andb_false_r.
Qed.
Lemma written_alone :
  let out := old ++ a :: if INJECT_CONTINUE o || chainInit then [continue_message st] else [] in
  defaultWriteAnchor true chainInit o narrative text None None st ms = out ∧
  filterCompacted None out = (a :: (if INJECT_CONTINUE o || chainInit then [continue_message st] else []), false) ∧ most_recent_anchor out = Some a.
Proof.
  intros out. split; [| split; [subst out; rewrite view_at; destruct (INJECT_CONTINUE o || chainInit); by repeat constructor | subst out; apply most_recent_last; destruct (INJECT_CONTINUE o || chainInit); by repeat constructor]].
  unfold defaultWriteAnchor.
  assert (anchor_and_question true chainInit o narrative text None None st ms = out) as ->.
  2: { apply persist_same; [apply ids_differ; [apply remove_anchor_sub | destruct (INJECT_CONTINUE o || chainInit); repeat constructor; apply (sl_continue _ _ Hl)] | destruct (INJECT_CONTINUE o || chainInit); by repeat constructor]. }
  unfold anchor_and_question. cbv zeta. rewrite write_anchor_spec by done. fold old body a. unfold gated_continue, readMostRecentAnchorId.
  rewrite (most_recent_last old a []) by done. cbn [fmap option_fmap option_map]. unfold shouldInjectContinue. change (Dialog.id_of a) with (anchorID st).
  assert (existsb (λ m, is_user m && text_lt (anchorID st) (Dialog.id_of m)) (old ++ [a]) = false) as ->.
  { apply not_true_iff_false. intros H. apply existsb_exists in H as (m & Hm%list_elem_of_In & [H1 H2]%andb_true_iff).
    apply elem_of_app in Hm as [Hm | Hm%list_elem_of_singleton]; [| by subst m]. destruct (later_ids _ _ _ later_old Hm) as [_ H3]. congruence. }
  cbn [negb]. rewrite andb_true_r. subst out. destruct (INJECT_CONTINUE o || chainInit); [| done]. unfold injectContinueAfterAnchor.
  assert (has_user (old ++ [a]) = true) as ->.
  { apply has_user_spec in Hu as (u & Hin & Hr). apply has_user_spec. exists u. split; [| done]. apply elem_of_app. left. by apply kept_in. }
  rewrite write_new by (apply fresh_after_anchor; apply (sl_continue _ _ Hl)). by rewrite <- app_assoc.
Qed.
End Written.

(** ** A compaction by narrative *)

(** Provider other than Claude's, table in order, a first kind that has
    something to write, and no anchor of the last half minute. *)
Record can_compact (e : run_env) (o : Observed) (ms : store) : Prop := {
  cc_ids : NoDup (map Dialog.id_of ms);
  cc_later : stamps_later (stamps_of e) ms;
  cc_user : has_user ms = true;
  cc_plain : Forall (λ m, is_user m = true → is_anchor_row m = false) ms;
  cc_replay : enableUserMsgReplay e = true;
  cc_free : shouldThrottle (now e) ms = false;
  cc_model : ∃ m, model e = Some m ∧ resolvePolicy (Some (providerId m)) = GeneralPolicy;
  cc_chain : o = manual → rich e = false ∧ by_request e = false;
  cc_narrative : tryLocalRedactedDialog (fadeout e) (model e) ms ≠ Failed
}.
Definition after_anchor (e : run_env) (o : Observed) (ms : store) : list message :=
  match snapshotUnansweredUserMessage o ms with
  | Some s => [asked_again (stamps_of e) s]
  | None => if INJECT_CONTINUE o || chainInitPending e then [continue_message (stamps_of e)] else []
  end.
Lemma chain_narrative e o : (o = manual → rich e = false ∧ by_request e = false) → ∃ later, chain_of e o = narrative :: later.
Proof.
  intros H. unfold chain_of. destruct (bool_decide (o = manual) && _) eqn:E.
  - apply andb_true_iff in E as [->%bool_decide_eq_true E]. destruct (H eq_refl) as [H1 H2]. rewrite H1, H2 in E. done.
  - unfold resolveKindChain. destruct (by_request e && bool_decide (o ∈ [overflow; cache_aware])); destruct o; (eexists; reflexivity).
Qed.
Lemma narrative_attempt f m ms : (∀ m', m = Some m' → resolvePolicy (Some (providerId m')) = GeneralPolicy) → tryLocalRedactedDialog f m ms ≠ Failed →
  ∃ text, tryLocalRedactedDialog f m ms = Attempt text narrative false false None.
Proof.
  intros Hm. assert (raw_tail f m = None) as Hr by (unfold raw_tail; destruct m as [m |]; [by rewrite (Hm m eq_refl) | done]).
  unfold tryLocalRedactedDialog. destruct ms; [done |]. destruct (too_big _ _); [done |]. cbv zeta. destruct (_ && _); [done |]. rewrite Hr. by eexists.
Qed.
Lemma run_narrative plugin process e o ms : can_compact e o ms → ∃ kept body,
  run plugin process e o ms = (kept ++ the_anchor (stamps_of e) body None :: after_anchor e o ms, continue) ∧ kept ⊆ ms ∧
  filterCompacted None (kept ++ the_anchor (stamps_of e) body None :: after_anchor e o ms) = (the_anchor (stamps_of e) body None :: after_anchor e o ms, false) ∧
  most_recent_anchor (kept ++ the_anchor (stamps_of e) body None :: after_anchor e o ms) = Some (the_anchor (stamps_of e) body None).
Proof.
  intros [Hn Hl Hu Hp Hr Hf (m & Hm & Hpol) Hc Ht]. destruct (chain_narrative e o Hc) as [later Hch].
  destruct (narrative_attempt (fadeout e) (model e) ms) as [text Htext]; [intros m'; rewrite Hm; by intros [= <-] | done |].
  assert (run plugin process e o ms =
    (defaultWriteAnchor true (chainInitPending e) o narrative text None (snapshotUnansweredUserMessage o ms) (stamps_of e) ms, continue)) as ->.
  { unfold run. rewrite Hf, Hr, Hch, Hm. cbn [fmap option_fmap option_map]. rewrite Hpol. cbn [skipEventCompaction walk tryKind]. rewrite Htext. cbn [negb andb].
    rewrite andb_false_r, andb_false_l, Hm, Hr. done. }
  unfold after_anchor. destruct (snapshotUnansweredUserMessage o ms) as [s |] eqn:Es.
  - pose proof (snapshot_spec _ _ _ Es) as (before & u & after & Hms & Hru & _ & Hps & _).
    assert (compaction_part (snap_parts s) = None) as Hplain.
    { rewrite Forall_forall in Hp. specialize (Hp u ltac:(rewrite Hms; apply elem_of_app; right; by left) Hru). unfold is_anchor_row in Hp. rewrite Hps. by destruct (compaction_part (parts u)). }
    destruct (written_question o (chainInitPending e) text (stamps_of e) ms Hn Hl Hu s Es Hplain) as (H1 & H2 & H3). rewrite H1. eexists _, _.
    split; [reflexivity |]. split; [apply kept_sub | by split].
  - destruct (written_alone o (chainInitPending e) text (stamps_of e) ms Hn Hl Hu) as (H1 & H2 & H3). rewrite H1. eexists _, _.
    split; [reflexivity |]. split; [apply remove_anchor_sub | by split].
Qed.
(** C1. For every provider but Claude's, a compaction whose first kind is the
    narrative and finds something to tell, with asking again switched on, no anchor in the last half minute and
    stamps later than the table: after it a model sees the new anchor and, when a
    question was open, that question, asked again; if none was, the request to
    continue when the cause asks for one, and otherwise nothing. *)
Theorem question_survives plugin process e o ms : can_compact e o ms → ∃ ms' anchor,
  run plugin process e o ms = (ms', continue) ∧ is_anchor_row anchor = true ∧ Dialog.id_of anchor = anchorID (stamps_of e) ∧
  filterCompacted None ms' = (anchor :: after_anchor e o ms, false) ∧
  (∀ u after, last_real_user ms = Some (u, after) → snapshotUnansweredUserMessage o ms ≠ None →
    ∃ m, after_anchor e o ms = [m] ∧ role_of m = user ∧ parts m = map replay_part (parts u)).
Proof.
  intros H. destruct (run_narrative plugin process e o ms H) as (kept & body & H1 & _ & H2 & _). eexists _, (the_anchor (stamps_of e) body None). split; [exact H1 |]. split; [done |]. split; [done |].
  split; [exact H2 |]. intros u after Hu Hs. unfold after_anchor, snapshotUnansweredUserMessage in *. rewrite Hu in *. cbn [mbind option_bind] in *.
  apply last_real_user_spec in Hu as (before & -> & Hru & _). apply bool_decide_eq_true in Hru.
  destruct (take_while is_assistant after) as [| c chain]; [| destruct (child_answers o (c :: chain) c); [done |]];
    (eexists; split; [reflexivity |]; split; [exact Hru | reflexivity]).
Qed.
(** C26. In a table whose newest anchor is less than half a minute old [run]
    changes nothing, for whatever cause; and such a table is the one that a
    compaction as in [can_compact] leaves.  The enrichment of an anchor in the
    background does not go through [run]. *)
Theorem second_run_waits plugin process e' o' :
  (∀ ms a, most_recent_anchor ms = Some a → created (msg_info a) ≠ 0 → now e' < created (msg_info a) + COOLDOWN_MS →
    run plugin process e' o' ms = (ms, continue)) ∧
  ∀ e o ms, can_compact e o ms → anchorTime (stamps_of e) ≠ 0 → now e' < anchorTime (stamps_of e) + COOLDOWN_MS →
    let ms' := (run plugin process e o ms).1 in run plugin process e' o' ms' = (ms', continue).
Proof.
  split.
  { intros ms a Ha H0 Hnow. unfold run, shouldThrottle. rewrite Ha, (proj2 (Z.eqb_neq _ _)), (proj2 (Z.ltb_lt _ _)) by lia. done. }
  intros e o ms H H0 Hnow ms'. subst ms'. destruct (run_narrative plugin process e o ms H) as (kept & body & -> & _ & _ & H3). cbn [fst].
  unfold run, shouldThrottle. rewrite H3. cbn [the_anchor msg_info anchor_info created]. rewrite (proj2 (Z.eqb_neq _ _)), (proj2 (Z.ltb_lt _ _)) by lia. done.
Qed.

(** Nothing that waits for an answer or a result is folded while a session is idle. *)
Lemma idle_waits plugin process n config m e ms : from_option is_user false (last ms) = true ∨ checkCleanTail 2 ms = false →
  idleCompaction plugin process n config m e ms = ms.
Proof.
  intros H. unfold idleCompaction. destruct (getLastAssistantTokens ms); [| done]. repeat (case_match; [done |]).
  destruct H as [H | H]; [by rewrite H in * |]. by rewrite H in *.
Qed.

(** ** Examples *)

Definition by_token (p : string) : Model := mkModel (js p) (QArith_base.Qmake 1 10) 200000 None 32000.
Definition stamps_at (t : Z) (a u c : string) : stamps := mkStamps (js a) t (js u) (t + 1) (js c) (t + 2).
Definition env (p : string) (f : Fadeout) (r : bool) (t : Z) (a u c : string) : run_env :=
  mkEnv t (Some (by_token p)) r true f false (stamps_at t a u c).
Definition no_tail : Fadeout := mkFadeout false 0.
Definition no_plugin : store → option jsstr := λ _, None.
Definition no_model : store → processed := λ _, Unavailable.
Definition open_table : store := first_turn ++ [asked "m3" "bye"].
Definition at_first : run_env := env "openai" no_tail false 100000 "m4" "m5" "m6".
Lemma can_compact_demo : can_compact at_first overflow open_table.
Proof.
  split; [by_compute | | by vm_compute | | done | by vm_compute | by eexists | done | by vm_compute].
  - split; [| by vm_compute | by vm_compute]. repeat (apply Forall_cons; split; [split; by vm_compute |]). by apply Forall_nil.
  - repeat (apply Forall_cons; split; [done |]). by apply Forall_nil.
Qed.
Lemma question_survives_witness : ∃ ms' anchor, run no_plugin no_model at_first overflow open_table = (ms', continue) ∧
  filterCompacted None ms' = ([anchor; mkMessage (mkInfo (js "m5") user 100001 false None no_tokens) [Text (js "bye") true]], false).
Proof.
  destruct (question_survives no_plugin no_model at_first overflow open_table can_compact_demo) as (ms' & anchor & H1 & _ & _ & H2 & _). by exists ms', anchor.
Defined.
Lemma second_run_waits_witness : let ms' := (run no_plugin no_model at_first overflow open_table).1 in
  run no_plugin no_model (env "openai" no_tail false 129999 "m7" "m8" "m9") overflow ms' = (ms', continue).
Proof.
  apply (proj2 (second_run_waits no_plugin no_model (env "openai" no_tail false 129999 "m7" "m8" "m9") overflow) at_first overflow open_table);
    [apply can_compact_demo | done | by vm_compute].
Defined.

Definition seen (ms : store) (t : string) : bool := existsb (λ x, includes x (js t)) (flat_map (λ m, flat_map any_text (parts m)) (filterCompacted None ms).1).
(** A chain of calls that was broken off: the anchor tells the question as one
    that was answered, the question comes again after it, and the first answer
    with its calls is no longer in the table. *)
Definition broken_off : store := [asked "m1" "commit it"; mkMessage (mkInfo (js "m2") assistant 0 false (Some tool_calls) no_tokens) [Text (js "on it") false; call "c1" "bash" "git status"]].
Example question_twice :
  let ms := (run no_plugin no_model at_first overflow broken_off).1 in
  map (λ m, includes (extractAnchorTextBody m) (js "commit it")) ms = [true; true] ∧ map Dialog.id_of ms = map js ["m4"; "m5"]%string.
Proof. by vm_compute. Qed.
(** A round that the Claude path means to leave as it is comes neither into the
    anchor nor after it: the record of skills takes the place of the raw tail. *)
Definition claude_env : run_env := env "claude-cli" (mkFadeout true 1) false 100000 "m5" "m6" "m7".
Definition third_turn : list message := map (λ m, mkMessage (mkInfo (Dialog.id_of m) (role_of m) 200000 false (finish_of m) no_tokens) (parts m)) [asked "m8" "again"; answered "m9" "yes"].
Example raw_round_lost :
  let ms := (run no_plugin no_model claude_env manual (first_turn ++ second_turn)).1 in
  seen ms "hello" = true ∧ seen ms "bye" = false ∧
  (let a := anchor_and_question true false manual narrative [] (Some 1) None (stamps_of claude_env) (first_turn ++ second_turn) in seen a "bye" = true).
Proof. by vm_compute. Qed.
(** Whether a question must be asked again is found while the raw tail still
    stands: it is not, and then it is in no place that a model sees. *)
Example claude_question_lost :
  let table := first_turn ++ second_turn ++ [asked "m5" "again"; mkMessage (mkInfo (js "m6") assistant 0 false None no_tokens) []] in
  let ms := (run no_plugin no_model (env "claude-cli" (mkFadeout true 1) false 100000 "m7" "m8" "m9") manual table).1 in
  seen table "again" = true ∧ seen ms "again" = false ∧ map is_user (filterCompacted None ms).1 = [false] ∧ seen ms "hello" = true.
Proof. by vm_compute. Qed.
(** A summary that failed leaves an anchor without text, because the messages in
    which it is looked for are from before it was written: the next anchor starts
    after it and tells nothing of what was before. *)
Example stub_hides_history :
  let ms := (run no_plugin (λ _, Errored []) (env "openai" no_tail true 100000 "m5" "m6" "m7") manual (first_turn ++ second_turn)).1 in
  readMostRecentAnchorId ms = Some (js "m5") ∧
  let ms := (run no_plugin no_model (env "openai" no_tail false 300000 "n1" "n2" "n3") manual (ms ++ third_turn)).1 in
  seen ms "again" = true ∧ seen ms "hello" = false ∧ seen ms "bye" = false.
Proof. by vm_compute. Qed.
(** Identifiers are compared to find a question after the anchor; if they turned
    over in between, the request to continue follows the question. *)
Example continue_after_question :
  let e := mkEnv 100000 (Some (by_token "openai")) false true no_tail false (mkStamps (js "m9") 100000 (js "a1") 100001 (js "a2") 100002) in
  map Dialog.id_of (filterCompacted None (run no_plugin no_model e overflow open_table).1).1 = map js ["m9"; "a1"; "a2"]%string.
Proof. by vm_compute. Qed.
(** For a provider that is paid by request the paid kind is tried twice. *)
Example paid_twice : resolveKindChain true overflow = [narrative; ai_paid; ai_paid].
Proof. by vm_compute. Qed.
(** Before a summary of a model every anchor is demoted; then no anchor is found
    whose skills could be released. *)
Example no_anchor_to_release :
  let ms := (run no_plugin no_model at_first overflow open_table).1 in
  readMostRecentAnchorId ms = Some (js "m4") ∧ readMostRecentAnchorId (demote (filter (λ m, is_summary m = true) ms) ms) = None.
Proof. by vm_compute. Qed.
