(* ===== verification/Skills.v ===== *)
(** * Skills in the context of a session ([session/skill-layer-registry.ts])

    Which skills a session has loaded, how they fade when they are not used, and
    how an anchor pins the ones it names ([annotateAnchorWithSkillState] of
    [session/compaction.ts]).  An entry is an object that is changed in place;
    here it is replaced in the list of its session, in the order of loading.
    Comparing names for display is an argument. *)
From stdpp Require Import base gmap list.
From S2P Require Import Prelude JsString.
Open Scope Z_scope.

Inductive runtime_state := active | idle | sticky | summarized | unloaded.
Inductive desired_state := full | summary | absent.
#[export] Instance runtime_state_eq_dec : EqDecision runtime_state.
Proof. solve_decision. Defined.
#[export] Instance desired_state_eq_dec : EqDecision desired_state.
Proof. solve_decision. Defined.
Record SkillLayerResidue := mkResidue { r_skillName : jsstr; r_purpose : jsstr; r_keepRules : list jsstr; r_lastReason : jsstr; r_loadedAt : Z; r_lastUsedAt : Z }.
Record SkillLayerEntry := mkEntry {
  name : jsstr; content : jsstr; purpose : jsstr; keepRules : list jsstr; loadedAt : Z; lastUsedAt : Z;
  runtimeState : runtime_state; desiredState : desired_state; pinned : bool; lastReason : jsstr; residue : option SkillLayerResidue;
  pinnedByAnchors : gset jsstr
}.
Definition IDLE_SUMMARY_MS : Z := 10 * 60 * 1000.
Definition IDLE_UNLOAD_MS : Z := 30 * 60 * 1000.
Definition buildResidue (e : SkillLayerEntry) (reason : jsstr) : SkillLayerResidue :=
  mkResidue (name e) (purpose e) (keepRules e) reason (loadedAt e) (lastUsedAt e).

(** ** The entries of a session *)

Definition entries := list SkillLayerEntry.
Definition peek (n : jsstr) (es : entries) : option SkillLayerEntry := find (λ e, bool_decide (name e = n)) es.
Definition update (n : jsstr) (f : SkillLayerEntry → SkillLayerEntry) (es : entries) : entries := map (λ e, if bool_decide (name e = n) then f e else e) es.
(** [None] when there is no such entry: the code throws. *)
Definition change (n : jsstr) (f : SkillLayerEntry → SkillLayerEntry) (es : entries) : option entries :=
  match peek n es with Some _ => Some (update n f es) | None => None end.
Definition put (e : SkillLayerEntry) (es : entries) : entries := match peek (name e) es with Some _ => update (name e) (λ _, e) es | None => es ++ [e] end.
Definition full_state (pin : bool) : runtime_state := if pin then sticky else active.
Definition with_state (rs : runtime_state) (ds : desired_state) (why : jsstr) (used : Z) (res : option SkillLayerResidue) (e : SkillLayerEntry) : SkillLayerEntry :=
  mkEntry (name e) (content e) (purpose e) (keepRules e) (loadedAt e) used rs ds (pinned e) why res (pinnedByAnchors e).
Definition with_pins (pin : bool) (anchors : gset jsstr) (e : SkillLayerEntry) : SkillLayerEntry :=
  mkEntry (name e) (content e) (purpose e) (keepRules e) (loadedAt e) (lastUsedAt e) (runtimeState e) (desiredState e) pin (lastReason e) (residue e) anchors.

(** The anchors of an entry that is loaded again are not taken over. *)
Definition loaded (n body : jsstr) (purp : option jsstr) (rules : option (list jsstr)) (now : Z) (current : option SkillLayerEntry) : SkillLayerEntry :=
  let pin := from_option pinned false current in
  mkEntry n body (match trim (default [] purp) with [] => js "skill_runtime_layer" | p => p end) (default (from_option keepRules [] current) rules)
    (from_option loadedAt now current) now (full_state pin) full pin (js "loaded") None ∅.
Definition recordLoaded (n body : jsstr) (purp : option jsstr) (rules : option (list jsstr)) (now : Z) (es : entries) : entries :=
  put (loaded n body purp rules now (peek n es)) es.
Definition recordUsed (n reason : jsstr) (now : Z) : entries → option entries :=
  change n (λ e, with_state (full_state (pinned e)) full reason now None e).
Definition pin (n : jsstr) (now : Z) : entries → option entries :=
  change n (λ e, with_pins true (pinnedByAnchors e) (with_state sticky full (js "pinned") now None e)).
Definition unpin (n : jsstr) : entries → option entries :=
  change n (λ e, with_pins false (pinnedByAnchors e) (with_state idle (desiredState e) (js "unpinned") (lastUsedAt e) (residue e) e)).
Definition pinForAnchor (n anchorId reason : jsstr) (now : Z) : entries → option entries :=
  change n (λ e, with_pins true (pinnedByAnchors e ∪ {[anchorId]}) (with_state sticky full (reason ++ js ":" ++ anchorId) now None e)).
Definition release (anchorId : jsstr) (e : SkillLayerEntry) : SkillLayerEntry :=
  if bool_decide (anchorId ∈ pinnedByAnchors e) then
    let rest := pinnedByAnchors e ∖ {[anchorId]} in
    if bool_decide (rest = ∅)
    then with_pins false rest (with_state idle (desiredState e) (js "unpinned-by-anchor-supersede:" ++ anchorId) (lastUsedAt e) (residue e) e)
    else with_pins (pinned e) rest (with_state (runtimeState e) (desiredState e) (js "unpinned-partial-by-anchor:" ++ anchorId) (lastUsedAt e) (residue e) e)
  else e.
Definition is_released (anchorId : jsstr) (e : SkillLayerEntry) : bool := bool_decide (pinnedByAnchors e = {[anchorId]}).
Definition unpinByAnchor (anchorId : jsstr) (es : entries) : entries * list jsstr :=
  (map (release anchorId) es, map name (filter (λ e, is_released anchorId e = true) es)).
Definition setDesiredState (n : jsstr) (ds : desired_state) (reason : jsstr) (now : Z) : entries → option entries :=
  change n (λ e, match ds with
    | full => with_state (full_state (pinned e)) full reason now None e
    | summary => with_state summarized summary reason (lastUsedAt e) (Some (buildResidue e reason)) e
    | absent => with_state unloaded absent reason (lastUsedAt e) (Some (buildResidue e reason)) e
    end).
Definition touch (n : jsstr) (now : Z) (es : entries) : entries * bool :=
  match peek n es with
  | Some _ => (update n (λ e, with_state (runtimeState e) (desiredState e) (lastReason e) now (residue e) e) es, true)
  | None => (es, false)
  end.

(** ** Fading *)

Definition relevance_tokens (e : SkillLayerEntry) : list jsstr :=
  filter (λ t, t ≠ []) (map toLowerCase (name e :: purpose e :: keepRules e)).
Definition relevant (latestUserText : jsstr) (e : SkillLayerEntry) : bool := existsb (λ t, includes latestUserText t) (relevance_tokens e).
Definition inject_entry (latestUserText : jsstr) (now : Z) (e : SkillLayerEntry) : SkillLayerEntry :=
  if relevant latestUserText e then with_state (full_state (pinned e)) full (js "relevance_keep_full") now None e
  else if pinned e then with_state sticky full (js "session_pinned_keep_full") (lastUsedAt e) None e
  else
    let idleMs := now - lastUsedAt e in
    if IDLE_UNLOAD_MS <=? idleMs then with_state unloaded absent (js "idle_unload") (lastUsedAt e) (Some (buildResidue e (js "idle_unload"))) e
    else if IDLE_SUMMARY_MS <=? idleMs then with_state summarized summary (js "idle_summarize") (lastUsedAt e) (Some (buildResidue e (js "idle_summarize"))) e
    else with_state active full (js "recently_used") (lastUsedAt e) None e.
Section Listing.
Context (localeCompare : jsstr → jsstr → Z).
Definition by_name (a b : SkillLayerEntry) : Z := localeCompare (name a) (name b).
Definition list_entries (es : entries) : entries := sort_by by_name es.
(** The entries as they are after it, and the list that is returned. *)
Definition listForInjection (latestUserText : option jsstr) (now : Z) (es : entries) : entries * entries :=
  let es := map (inject_entry (toLowerCase (default [] latestUserText)) now) es in (es, list_entries es).
Record preface := mkPreface { pf_pinned : entries; pf_active : entries; pf_summarized : list (SkillLayerEntry * jsstr); pf_dropped : list jsstr }.
Definition is_dropped (e : SkillLayerEntry) : bool := bool_decide (runtimeState e = unloaded) || bool_decide (desiredState e = absent).
Definition is_summarized (e : SkillLayerEntry) : bool := bool_decide (runtimeState e = summarized) || bool_decide (desiredState e = summary).
Definition summary_body (e : SkillLayerEntry) : jsstr :=
  match residue e with
  | Some r => js "purpose: " ++ r_purpose r ++ newline :: js "keepRules:" ++ newline :: join [newline] (map (λ k, js "  - " ++ k) (r_keepRules r))
  | None => js "purpose: " ++ purpose e
  end.
Definition partitionForPreface (es : entries) : preface :=
  let kept := filter (λ e, is_dropped e = false) es in
  let loose := filter (λ e, pinned e = false) kept in
  mkPreface (sort_by by_name (filter (λ e, pinned e = true) kept)) (sort_by by_name (filter (λ e, is_summarized e = false) loose))
    (map (λ e, (e, summary_body e)) (sort_by by_name (filter (λ e, is_summarized e = true) loose))) (map name (filter (λ e, is_dropped e = true) es)).
End Listing.
Definition is_present (e : SkillLayerEntry) : bool := pinned e || bool_decide (runtimeState e = active) || bool_decide (runtimeState e = sticky).
Definition presentSkillNames (es : entries) : gset jsstr := list_to_set (map name (filter (λ e, is_present e = true) es)).

(** ** What an anchor names *)

(** A unit of [[A-Za-z0-9_-]]; letters are compared without their case, ASCII ones only. *)
Definition is_name_unit (c : N) : bool := is_word c || (c =? 45)%N.
Definition name_ends (rest : jsstr) : bool := match rest with c :: _ => negb (is_name_unit c) | [] => true end.
Fixpoint mentions (free : bool) (n text : jsstr) : bool :=
  free && startsWith text n && name_ends (drop (length n) text) ||
  match text with c :: text' => mentions (negb (is_name_unit c)) n text' | [] => false end.
Definition scanReferences (text : jsstr) (knownNames : list jsstr) : list jsstr :=
  match text with [] => [] | _ => filter (λ n, mentions true (asciiLower n) (asciiLower text) = true) knownNames end.
Definition pin_all (names : list jsstr) (anchorId : jsstr) (now : Z) (es : entries) : entries :=
  foldl (λ es n, default es (pinForAnchor n anchorId (js "referenced-by-anchor") now es)) es names.
(** An anchor takes the place of the one before. *)
Definition annotate (localeCompare : jsstr → jsstr → Z) (newAnchorId : jsstr) (prevAnchorId : option jsstr) (summaryText : jsstr) (now : Z) (es : entries) :
    entries * list jsstr :=
  let matched := scanReferences summaryText (map name (list_entries localeCompare es)) in
  let es := pin_all matched newAnchorId now es in
  let es := match prevAnchorId with
    | Some ((_ :: _) as p) => if bool_decide (p = newAnchorId) then es else (unpinByAnchor p es).1
    | _ => es
    end in
  (es, matched).

(** ** A session between its requests *)

Record session := mkSession { skills : entries; anchor : option jsstr; named : list jsstr }.
(** What is done to the entries of a session, and the anchors of the narrative
    kind that are written for it.  A skill that the last anchor names is not loaded again, and nobody
    pins by hand; both are looked at below. *)
Inductive step (localeCompare : jsstr → jsstr → Z) : session → session → Prop :=
| step_loaded s n body purp rules now : n ∉ named s →
    step localeCompare s (mkSession (recordLoaded n body purp rules now (skills s)) (anchor s) (named s))
| step_used s n reason now es : recordUsed n reason now (skills s) = Some es → step localeCompare s (mkSession es (anchor s) (named s))
| step_desired s n ds reason now es : setDesiredState n ds reason now (skills s) = Some es → step localeCompare s (mkSession es (anchor s) (named s))
| step_touched s n now : step localeCompare s (mkSession (touch n now (skills s)).1 (anchor s) (named s))
| step_injected s text now : step localeCompare s (mkSession (listForInjection localeCompare text now (skills s)).1 (anchor s) (named s))
| step_anchor s i text now : i ≠ [] → anchor s ≠ Some i →
    let r := annotate localeCompare i (anchor s) text now (skills s) in step localeCompare s (mkSession r.1 (Some i) r.2).
Definition empty_session : session := mkSession [] None [].

(** An entry is pinned by the last anchor, and by it alone, when that names it. *)
Definition pins_of (s : session) (e : SkillLayerEntry) : Prop :=
  pinned e = bool_decide (name e ∈ named s) ∧
  pinnedByAnchors e = if decide (name e ∈ named s) then from_option (λ a, {[a]}) ∅ (anchor s) else ∅.
Record pins_ok (s : session) : Prop := {
  po_entries : Forall (pins_of s) (skills s);
  po_named : named s ⊆ map name (skills s);
  po_anchor : anchor s ≠ Some [];
  po_none : anchor s = None → named s = []
}.

(** ** Changes that leave the pins alone *)

Definition same_pins (e e' : SkillLayerEntry) : Prop := name e' = name e ∧ pinned e' = pinned e ∧ pinnedByAnchors e' = pinnedByAnchors e.
Lemma same_pins_of s e e' : same_pins e e' → pins_of s e → pins_of (mkSession (skills s) (anchor s) (named s)) e'.
Proof. intros (Hn & Hp & Ha) [H1 H2]. split; cbn; by rewrite ?Hn, ?Hp, ?Ha. Qed.
Lemma names_map f es : (∀ e, name (f e) = name e) → map name (map f es) = map name es.
Proof. intros H. rewrite map_map. apply map_ext. exact H. Qed.
Lemma same_pins_map s f : (∀ e, same_pins e (f e)) → pins_ok s → pins_ok (mkSession (map f (skills s)) (anchor s) (named s)).
Proof.
  intros Hf [H1 H2 H3 H4]. split; cbn [skills anchor named]; [| | done | done].
  - apply Forall_map. eapply Forall_impl; [exact H1 |]. intros e He. eapply same_pins_of in He; [exact He | apply Hf].
  - rewrite names_map by apply Hf. exact H2.
Qed.
Lemma with_state_pins rs ds why used res e : same_pins e (with_state rs ds why used res e).
Proof. done. Qed.
Lemma change_Some n f es es' : change n f es = Some es' → es' = update n f es.
Proof. unfold change. destruct (peek n es); [by intros [= <-] | done]. Qed.
Lemma update_absent n f es : peek n es = None → update n f es = es.
Proof.
  unfold peek, update. induction es as [| e es IH]; [done |]. cbn [find map]. destruct (bool_decide (name e = n)); [done |]. intros H. by rewrite IH.
Qed.
Lemma default_change n f es : default es (change n f es) = update n f es.
Proof. unfold change. destruct (peek n es) eqn:E; [done | by rewrite update_absent]. Qed.
Lemma same_pins_update s n f : (∀ e, same_pins e (f e)) → pins_ok s → pins_ok (mkSession (update n f (skills s)) (anchor s) (named s)).
Proof. intros Hf. apply same_pins_map. intros e. by case_bool_decide. Qed.
Lemma same_pins_inject t now e : same_pins e (inject_entry t now e).
Proof. unfold inject_entry. cbv zeta. repeat case_match; done. Qed.

(** ** What an anchor does to the pins *)

Definition pin_one (i : jsstr) (now : Z) (e : SkillLayerEntry) : SkillLayerEntry :=
  with_pins true (pinnedByAnchors e ∪ {[i]}) (with_state sticky full (js "referenced-by-anchor" ++ js ":" ++ i) now None e).
Definition pin_if (i : jsstr) (now : Z) (e : SkillLayerEntry) (n : jsstr) : SkillLayerEntry := if bool_decide (name e = n) then pin_one i now e else e.
Lemma pin_all_map names i now es : pin_all names i now es = map (λ e, foldl (pin_if i now) e names) es.
Proof.
  revert es. induction names as [| n names IH]; intros es; [symmetry; apply map_id |]. unfold pin_all in *. cbn [foldl]. unfold pinForAnchor at 2.
  rewrite default_change, IH. unfold update. rewrite map_map. done.
Qed.
Lemma pin_if_spec i now names e : let e' := foldl (pin_if i now) e names in
  name e' = name e ∧ pinned e' = pinned e || bool_decide (name e ∈ names) ∧
  pinnedByAnchors e' = pinnedByAnchors e ∪ if decide (name e ∈ names) then {[i]} else ∅.
Proof.
  revert e. induction names as [| n names IH]; intros e; cbn [foldl]; cbv zeta.
  - rewrite bool_decide_eq_false_2, orb_false_r, decide_False by apply not_elem_of_nil. split; [done |]. split; [done | set_solver].
  - destruct (IH (pin_if i now e n)) as (H1 & H2 & H3). rewrite H1, H2, H3. clear H1 H2 H3 IH. unfold pin_if.
    destruct (decide (name e = n)) as [E | E]; [rewrite (bool_decide_eq_true_2 (name e = n)) by done | rewrite (bool_decide_eq_false_2 (name e = n)) by done]; (split; [done |]).
    + cbn. rewrite (bool_decide_eq_true_2 (name e ∈ n :: names)), (decide_True (P := name e ∈ n :: names)) by (subst n; by left). rewrite orb_true_r.
      split; [done |]. destruct (decide (name e ∈ names)); set_solver.
    + split; [f_equal; apply bool_decide_ext; set_solver |]. destruct (decide (name e ∈ names)), (decide (name e ∈ n :: names)); set_solver.
Qed.
Lemma released_entry p e : let e' := release p e in
  name e' = name e ∧ pinnedByAnchors e' = pinnedByAnchors e ∖ {[p]} ∧
  pinned e' = if decide (p ∈ pinnedByAnchors e) then negb (bool_decide (pinnedByAnchors e ∖ {[p]} = ∅)) && pinned e else pinned e.
Proof.
  unfold release. destruct (decide (p ∈ pinnedByAnchors e)) as [H | H].
  - rewrite (bool_decide_eq_true_2 (p ∈ _)) by done. by case_bool_decide.
  - rewrite (bool_decide_eq_false_2 (p ∈ _)) by done. split; [done |]. split; [set_solver | done].
Qed.
(** The entry after an anchor [i] that names [names] and takes the place of [prev]. *)
Definition superseded (prev : option jsstr) (e : SkillLayerEntry) : SkillLayerEntry := match prev with Some p => release p e | None => e end.
Lemma annotated_entry s i names now e : anchor s ≠ Some i → (anchor s = None → named s = []) → pins_of s e →
  let e' := superseded (anchor s) (foldl (pin_if i now) e names) in
  name e' = name e ∧ ∀ es', pins_of (mkSession es' (Some i) names) e'.
Proof.
  intros Hi H0 [Hp Ha] e'. subst e'. destruct (pin_if_spec i now names e) as (H1 & H2 & H3). set (e1 := foldl (pin_if i now) e names) in *. clearbody e1.
  rewrite Ha in H3. rewrite Hp in H2. clear Ha Hp. unfold pins_of. cbn [named anchor from_option]. destruct (anchor s) as [p |]; cbn [superseded from_option] in *.
  - assert (p ≠ i) as Hpi by congruence. destruct (released_entry p e1) as (R1 & R2 & R3). rewrite R1, R2, R3, H1, H2, H3. split; [done |]. intros _.
    destruct (decide (name e ∈ names)) as [Hn | Hn], (decide (name e ∈ named s)) as [Hs | Hs]; rewrite ?(bool_decide_eq_true_2 _ Hn), ?(bool_decide_eq_false_2 _ Hn), ?(bool_decide_eq_true_2 _ Hs), ?(bool_decide_eq_false_2 _ Hs).
    + assert ((({[p]} ∪ {[i]}) ∖ {[p]} : gset jsstr) = {[i]}) as -> by set_solver. rewrite decide_True by set_solver. by rewrite bool_decide_eq_false_2 by set_solver.
    + assert (((∅ ∪ {[i]}) ∖ {[p]} : gset jsstr) = {[i]}) as -> by set_solver. by rewrite decide_False by set_solver.
    + assert ((({[p]} ∪ ∅) ∖ {[p]} : gset jsstr) = ∅) as -> by set_solver. rewrite decide_True by set_solver. by rewrite bool_decide_eq_true_2 by done.
    + assert (((∅ ∪ ∅) ∖ {[p]} : gset jsstr) = ∅) as -> by set_solver. by rewrite decide_False by set_solver.
  - rewrite H1, H2, H3, H0 by done. split; [done |]. intros _. destruct (decide (name e ∈ [])) as [Hx | _]; [by apply not_elem_of_nil in Hx |].
    rewrite (bool_decide_eq_false_2 (name e ∈ [])) by apply not_elem_of_nil. split; [done | set_solver].
Qed.
Lemma scanReferences_known text names : scanReferences text names ⊆ names.
Proof. unfold scanReferences. destruct text as [| c t]; [intros n Hn; by apply not_elem_of_nil in Hn |]. intros n. rewrite list_elem_of_filter. by intros [_ H]. Qed.
Lemma annotate_map lc i prev text now es : prev ≠ Some [] → prev ≠ Some i →
  annotate lc i prev text now es = let names := scanReferences text (map name (list_entries lc es)) in
    (map (λ e, superseded prev (foldl (pin_if i now) e names)) es, names).
Proof.
  intros H0 Hi. unfold annotate. rewrite pin_all_map. destruct prev as [[| c p] |]; [done | | done].
  rewrite bool_decide_eq_false_2 by congruence. unfold unpinByAnchor. cbn [fst]. by rewrite map_map.
Qed.

(** ** Sessions that are reached *)

Lemma loaded_ok s n body purp rules now : n ∉ named s → pins_ok s → pins_ok (mkSession (recordLoaded n body purp rules now (skills s)) (anchor s) (named s)).
Proof.
  intros Hn [H1 H2 H3 H4]. unfold recordLoaded.
  assert (from_option pinned false (peek n (skills s)) = false) as Hpin.
  { destruct (peek n (skills s)) as [e |] eqn:E; [| done]. apply find_Some in E as [En%bool_decide_eq_true Hin].
    rewrite Forall_forall in H1. destruct (H1 e Hin) as [Hp _]. cbn [from_option]. rewrite Hp. apply bool_decide_eq_false_2. by rewrite En. }
  assert (∀ es', pins_of (mkSession es' (anchor s) (named s)) (loaded n body purp rules now (peek n (skills s)))) as Hnew.
  { intros es'. unfold pins_of. cbn [loaded pinned pinnedByAnchors name named]. rewrite Hpin. cbn [named].
    rewrite bool_decide_eq_false_2 by done. rewrite decide_False by done. done. }
  unfold put. cbn [loaded name]. set (new := loaded _ _ _ _ _ _) in *. destruct (peek n (skills s)) eqn:E.
  - split; cbn [skills anchor named]; [| | done | done].
    + unfold update. apply Forall_map. eapply Forall_impl; [exact H1 |]. intros e He. cbn. case_bool_decide; [apply Hnew | exact He].
    + unfold update. rewrite map_map. intros m Hm%H2. apply list_elem_of_fmap in Hm as (e & -> & He). apply list_elem_of_fmap. exists e.
      split; [| done]. case_bool_decide as En; [by rewrite En | done].
  - split; cbn [skills anchor named]; [| | done | done].
    + apply Forall_app. split; [exact H1 | by repeat constructor; apply Hnew].
    + rewrite map_app. set_solver.
Qed.
Lemma pins_ok_step lc s s' : step lc s s' → pins_ok s → pins_ok s'.
Proof.
  intros Hstep Hok. destruct Hstep as [s n body purp rules now Hn | s n reason now es E%change_Some | s n ds reason now es E%change_Some | s n now | s text now | s i text now H0 Hi r].
  - by apply loaded_ok.
  - subst es. by apply same_pins_update.
  - subst es. apply same_pins_update; [by intros e; destruct ds | done].
  - unfold touch. destruct (peek n (skills s)); [by apply same_pins_update | by destruct s].
  - apply (same_pins_map s (inject_entry _ _)); [apply same_pins_inject | done].
  - destruct Hok as [H1 H2 H3 H4]. subst r. rewrite annotate_map by done. cbn [fst snd]. set (names := scanReferences _ _).
    split; cbn [skills anchor named]; [| | congruence | done].
    + apply Forall_map. eapply Forall_impl; [exact H1 |]. intros e He. by eapply annotated_entry.
    + rewrite map_map. etransitivity; [apply scanReferences_known |]. intros m Hm. apply list_elem_of_fmap in Hm as (e & -> & He).
      apply elem_of_sort_by in He. apply list_elem_of_fmap. exists e. split; [| done]. rewrite Forall_forall in H1.
      symmetry. by apply (annotated_entry s i names now e Hi H4 (H1 e He)).
Qed.
Lemma pins_ok_reached lc s : rtc (step lc) empty_session s → pins_ok s.
Proof.
  intros H. apply (rtc_ind_r (R := step lc) (λ s, pins_ok s) empty_session); [| | done].
  - split; cbn; [apply Forall_nil; done | done | done | done].
  - intros y z _ Hstep. by apply pins_ok_step with lc.
Qed.
Lemma inject_pinned t now e : pinned e = true → is_dropped (inject_entry t now e) = false.
Proof. intros H. unfold inject_entry. rewrite H. by destruct (relevant t e). Qed.
(** C31. After any sequence of narrative anchors, loads of skills that the last
    anchor does not name, uses, touches, changes of what is desired and
    injections, and with no skill pinned by hand, the skills that a request
    carries as pinned are those that the last anchor names. *)
Theorem pins_follow_anchor lc s text now : rtc (step lc) empty_session s →
  ∀ n, n ∈ map name (pf_pinned (partitionForPreface lc (listForInjection lc text now (skills s)).2)) ↔ n ∈ named s.
Proof.
  intros [H1 H2 _ _]%pins_ok_reached n. unfold listForInjection, partitionForPreface. cbn [snd pf_pinned]. rewrite Forall_forall in H1.
  set (t := toLowerCase _). rewrite list_elem_of_fmap. setoid_rewrite elem_of_sort_by. setoid_rewrite list_elem_of_filter. setoid_rewrite list_elem_of_filter.
  unfold list_entries. setoid_rewrite elem_of_sort_by. setoid_rewrite list_elem_of_fmap. split.
  - intros (e' & -> & Hp & _ & e & -> & He). destruct (same_pins_inject t now e) as (Hn & Hp' & _). rewrite Hp', (proj1 (H1 e He)) in Hp.
    rewrite Hn. by apply bool_decide_eq_true in Hp.
  - intros Hn. pose proof (H2 _ Hn) as Hm. apply list_elem_of_fmap in Hm as (e & -> & He). destruct (same_pins_inject t now e) as (Hn' & Hp' & _).
    assert (pinned e = true) as Hp by (rewrite (proj1 (H1 e He)); by apply bool_decide_eq_true).
    exists (inject_entry t now e). split; [done |]. split; [by rewrite Hp' |]. split; [by apply inject_pinned |]. by exists e.
Qed.

(** ** Fading *)

(** An entry that is not pinned and that no text names keeps its full text for
    ten minutes after its last use, a summary for twenty more, and is left out
    then. *)
Lemma fades t now e : pinned e = false → relevant t e = false →
  let e' := inject_entry t now e in let idle := now - lastUsedAt e in
  is_dropped e' = (IDLE_UNLOAD_MS <=? idle) ∧ is_present e' = (idle <? IDLE_SUMMARY_MS) ∧
  lastUsedAt e' = lastUsedAt e ∧ pinned e' = false.
Proof.
  intros Hp Hr. cbv zeta. unfold inject_entry. rewrite Hr, Hp. cbv zeta.
  assert (IDLE_SUMMARY_MS <= IDLE_UNLOAD_MS) by by vm_compute.
  destruct (Z.leb_spec IDLE_UNLOAD_MS (now - lastUsedAt e)); [| destruct (Z.leb_spec IDLE_SUMMARY_MS (now - lastUsedAt e))];
    unfold is_present, is_dropped; cbn; rewrite Hp; repeat split; symmetry; first [by apply Z.ltb_lt; lia | by apply Z.ltb_ge; lia].
Qed.

(** ** Examples *)

Definition compare_length (a b : jsstr) : Z := Z.of_nat (length a) - Z.of_nat (length b).
Definition load (n : string) (now : Z) : entries → entries := recordLoaded (js n) (js "body") None None now.
Definition two_skills : session := mkSession (load "docx" 0 (load "plan" 0 [])) None [].
Definition after_anchors (s : session) (l : list (string * string)) : session :=
  foldl (λ s '(i, text), let r := annotate compare_length (js i) (anchor s) (js text) 1000 (skills s) in mkSession r.1 (Some (js i)) r.2) s l.
Definition pinned_names (s : session) : list jsstr := map name (filter (λ e, pinned e = true) (skills s)).
Lemma pins_follow_anchor_witness :
  let s := after_anchors two_skills [("a1", "we used DOCX."); ("a2", "then plan")]%string in
  let l := map name (pf_pinned (partitionForPreface compare_length (listForInjection compare_length None 10000000 (skills s)).2)) in
  l = [js "plan"] ∧ (js "docx" ∈ l ↔ js "docx" ∈ named s).
Proof.
  split; [by vm_compute |]. apply (pins_follow_anchor compare_length (after_anchors two_skills [("a1", "we used DOCX."); ("a2", "then plan")]%string)).
  eapply rtc_l; [apply (step_loaded _ empty_session (js "plan") (js "body") None None 0); apply not_elem_of_nil |].
  eapply rtc_l; [apply (step_loaded _ (mkSession _ _ _) (js "docx") (js "body") None None 0); apply not_elem_of_nil |].
  eapply rtc_l; [apply (step_anchor _ two_skills (js "a1") (js "we used DOCX.") 1000); done |].
  eapply rtc_l; [apply (step_anchor _ (after_anchors two_skills [("a1", "we used DOCX.")]%string) (js "a2") (js "then plan") 1000); by vm_compute |].
  apply rtc_refl.
Defined.
(** A skill that an anchor pinned and that is loaded again stays pinned, but the
    anchors it is pinned by are gone: no later anchor lets it go. *)
Example reload_pins_forever :
  let s := after_anchors two_skills [("a1", "we used docx")]%string in
  let s := mkSession (load "docx" 2000 (skills s)) (anchor s) (named s) in
  pinned_names (after_anchors s [("a2", "nothing"); ("a3", "nothing")]%string) = [js "docx"].
Proof. by vm_compute. Qed.
(** An anchor that a model or a server writes is told of no anchor before it. *)
Example paid_anchor_keeps_pins :
  let s := after_anchors two_skills [("a1", "we used docx")]%string in
  let es := (annotate compare_length (js "a2") None (js "nothing") 2000 (skills s)).1 in
  pinned_names (mkSession es (Some (js "a2")) []) = [js "docx"] ∧
  pinned_names (after_anchors (mkSession es (Some (js "a2")) []) [("a3", "nothing")]%string) = [js "docx"].
Proof. by vm_compute. Qed.
(** A pin that was set by hand goes with the anchor that named the skill as well. *)
Example manual_pin_lost :
  let s := mkSession (default [] (pin (js "docx") 500 (skills two_skills))) None [] in
  pinned_names s = [js "docx"] ∧ pinned_names (after_anchors s [("a1", "nothing"); ("a2", "nothing")]%string) = [js "docx"] ∧
  pinned_names (after_anchors s [("a1", "we used docx"); ("a2", "nothing")]%string) = [].
Proof. by vm_compute. Qed.
