(* ===== verification/Question.v ===== *)
(** * Questions to the user ([question/index.ts], [sdk/js/src/v2/question-normalize.ts]
    and the question tool)

    The shapes of input that are taken for a list of questions, and the questions
    that wait: an answer, a dismissal or an abort settles each once.  What a
    request says beside its texts is an argument, and identifiers are as well. *)
From S2P Require Import Prelude JsString Json FreerunNode.
Open Scope nat_scope.

(** ** The input of the tool *)

(** A property that is a string. *)
Definition str_prop (k : string) (l : list (jsstr * json)) : option jsstr := match assoc (js k) l with Some (JStr s) => Some s | _ => None end.
Definition set_prop (k : string) (v : json) (l : list (jsstr * json)) : list (jsstr * json) := set_key (js k) v l.
Definition first_of {A} (a b : option A) : option A := match a with Some _ => a | None => b end.
Definition option_label (o : list (jsstr * json)) : option jsstr := first_of (str_prop "label" o) (str_prop "value" o).
Definition option_description (o : list (jsstr * json)) : option jsstr :=
  first_of (str_prop "description" o) (first_of (str_prop "detail" o) (first_of (str_prop "explanation" o) (option_label o))).
Definition normalizeOption (opt : json) : json :=
  match opt with
  | JStr s => JObj [(js "label", JStr s); (js "description", JStr s)]
  | JObj o =>
      match option_label o with
      | Some label => JObj (set_prop "description" (JStr (default label (option_description o))) (set_prop "label" (JStr label) o))
      | None => opt
      end
  | _ => opt
  end.
Definition normalizeFields (q : list (jsstr * json)) : list (jsstr * json) :=
  let q := match str_prop "question" q, str_prop "header" q with Some s, None => set_prop "header" (JStr (take 30 s)) q | _, _ => q end in
  match assoc (js "options") q with Some (JArr os) => set_prop "options" (JArr (map normalizeOption os)) q | _ => q end.
(** The properties of an array are its indices. *)
Definition indexed (l : list json) : list (jsstr * json) := imap (λ i x, (show_Z (Z.of_nat i), x)) l.
Definition normalizeSingleQuestion (raw : json) : json :=
  match raw with
  | JObj l => JObj (normalizeFields l)
  | JArr l => JObj (indexed l)
  | _ => raw
  end.
Definition normalizeQuestionInput (raw : json) : json :=
  match raw with
  | JObj l =>
      match assoc (js "questions") l, str_prop "question" l with
      | Some (JArr qs), _ => JObj (set_prop "questions" (JArr (map normalizeSingleQuestion qs)) l)
      | _, Some _ => JObj [(js "questions", JArr [normalizeSingleQuestion (JObj l)])]
      | _, _ => raw
      end
  | _ => raw
  end.

(** ** The schema *)

Record Choice := mkChoice { label : jsstr; description : jsstr }.
Record Info := mkInfo { question : jsstr; header : jsstr; options : list Choice; multiple : option bool }.
Definition z_bool (v : json) : option bool := match v with JBool b => Some b | _ => None end.
Definition z_option (v : json) : option Choice :=
  l ← required (z_string 0) "label" v; d ← required (z_string 0) "description" v; Some (mkChoice l d).
Definition z_info (v : json) : option Info :=
  q ← required (z_string 0) "question" v; h ← required (z_string 0) "header" v;
  os ← required (z_array z_option) "options" v; m ← optional z_bool "multiple" v; Some (mkInfo q h os m).
(** The questions, or [None] when the tool answers with the shape that it wants. *)
Definition parameters (raw : json) : option (list Info) := required (z_array z_info) "questions" (normalizeQuestionInput raw).

(** ** What the tool tells the model *)

Definition format (answer : option (list jsstr)) : jsstr :=
  match answer with Some ((_ :: _) as l) => join (js ", ") l | _ => js "Unanswered" end.
Definition quoted (s : jsstr) : jsstr := 34%N :: s ++ [34%N].
Definition formatted (qs : list Info) (answers : list (list jsstr)) : jsstr :=
  join (js ", ") (imap (λ i q, quoted (question q) ++ js "=" ++ quoted (format (answers !! i))) qs).
Definition title (qs : list Info) : jsstr := js "Asked " ++ show_Z (Z.of_nat (length qs)) ++ js " question" ++ if 1 <? length qs then js "s" else [].
Definition output (qs : list Info) (answers : list (list jsstr)) : jsstr :=
  js "User has answered your questions: " ++ formatted qs answers ++ js ". You can now continue with the user's answers in mind.".

(** ** Inputs that are taken *)

(** The first of some properties that is a string. *)
Definition first_string (ks : list string) (o : list (jsstr * json)) : option jsstr := head (omap (λ k, str_prop k o) ks).
Definition LABELS : list string := ["label"; "value"]%string.
Definition DESCRIPTIONS : list string := ["description"; "detail"; "explanation"; "label"; "value"]%string.
Definition is_label (v : json) : bool :=
  match v with JStr _ => true | JObj o => bool_decide (is_Some (first_string LABELS o)) | _ => false end.
(** A text, choices that have a label, and nothing but a truth value for
    [multiple]. *)
Definition askable (v : json) : bool :=
  match v with
  | JObj l =>
      bool_decide (is_Some (str_prop "question" l)) &&
      match assoc (js "options") l with Some (JArr os) => forallb is_label os | _ => false end &&
      match assoc (js "multiple") l with Some (JBool _) | None => true | _ => false end
  | _ => false
  end.
Definition acceptable (raw : json) : bool :=
  match raw with
  | JObj l => match assoc (js "questions") l with Some (JArr qs) => forallb askable qs | _ => askable raw end
  | _ => false
  end.
Definition choice_of (v : json) : Choice :=
  match v with
  | JStr s => mkChoice s s
  | JObj o => mkChoice (default [] (first_string LABELS o)) (default [] (first_string DESCRIPTIONS o))
  | _ => mkChoice [] []
  end.
Definition info_of (v : json) : Info :=
  match v with
  | JObj l =>
      let text := default [] (str_prop "question" l) in
      mkInfo text (default (take 30 text) (str_prop "header" l))
        match assoc (js "options") l with Some (JArr os) => map choice_of os | _ => [] end
        match assoc (js "multiple") l with Some (JBool b) => Some b | _ => None end
  | _ => mkInfo [] [] [] None
  end.
(** A question that is not in a list is a list of itself. *)
Definition questions_of (raw : json) : list json :=
  match raw with JObj l => match assoc (js "questions") l with Some (JArr qs) => qs | _ => [raw] end | _ => [] end.

Ltac other_key := first [congruence | by vm_compute].
Lemma assoc_set_same k v l : assoc k (set_key k v l) = Some v.
Proof. induction l as [| kv l IH]; cbn; [by rewrite bool_decide_eq_true_2 |]. case_bool_decide; cbn; [by rewrite bool_decide_eq_true_2 | by rewrite bool_decide_eq_false_2]. Qed.
Lemma assoc_set_ne k k' v l : k' ≠ k → assoc k (set_key k' v l) = assoc k l.
Proof.
  intros Hne. induction l as [| kv l IH]; cbn; [by rewrite bool_decide_eq_false_2 |].
  destruct (decide (kv.1 = k')) as [E | E].
  - rewrite bool_decide_eq_true_2 by done. cbn. by rewrite !bool_decide_eq_false_2 by congruence.
  - rewrite bool_decide_eq_false_2 by done. cbn. by rewrite IH.
Qed.
Lemma str_set_same k s l : str_prop k (set_prop k (JStr s) l) = Some s.
Proof. unfold str_prop, set_prop. by rewrite assoc_set_same. Qed.
Lemma str_set_ne k k' v l : js k' ≠ js k → str_prop k (set_prop k' v l) = str_prop k l.
Proof. intros H. unfold str_prop, set_prop. by rewrite assoc_set_ne by other_key. Qed.
Lemma required_string k l : required (z_string 0) k (JObj l) = str_prop k l.
Proof. unfold required, field, str_prop. destruct (assoc (js k) l) as [[] |]; done. Qed.
Lemma mapM_decided {A B} (f : A → option B) (p : A → bool) (g : A → B) l : (∀ x, f x = if p x then Some (g x) else None) →
  mapM f l = if forallb p l then Some (map g l) else None.
Proof.
  intros H. induction l as [| x l IH]; [done |]. cbn [mapM forallb map]. rewrite H. destruct (p x); [| done]. cbn [andb]. rewrite IH. by destruct (forallb p l).
Qed.
Lemma mapM_map {A B C} (f : B → option C) (g : A → B) l : mapM f (map g l) = mapM (λ x, f (g x)) l.
Proof. induction l as [| x l IH]; [done |]. cbn [map mapM]. by rewrite IH. Qed.
Lemma label_first o : option_label o = first_string LABELS o.
Proof. unfold option_label, first_of, first_string. cbn [LABELS omap list_omap]. by destruct (str_prop "label" o), (str_prop "value" o). Qed.
Lemma description_first o : option_description o = first_string DESCRIPTIONS o.
Proof.
  unfold option_description, option_label, first_of, first_string. cbn [DESCRIPTIONS omap list_omap].
  by destruct (str_prop "description" o), (str_prop "detail" o), (str_prop "explanation" o), (str_prop "label" o), (str_prop "value" o).
Qed.
Lemma labelled_described o lb : first_string LABELS o = Some lb → ∃ d, first_string DESCRIPTIONS o = Some d.
Proof.
  unfold first_string. cbn [LABELS DESCRIPTIONS omap list_omap].
  destruct (str_prop "description" o), (str_prop "detail" o), (str_prop "explanation" o), (str_prop "label" o), (str_prop "value" o); eauto.
Qed.
Lemma option_taken v : z_option (normalizeOption v) = if is_label v then Some (choice_of v) else None.
Proof.
  destruct v as [| | | | s | | o]; try done. unfold z_option. cbn [normalizeOption is_label choice_of]. rewrite label_first, description_first. destruct (first_string LABELS o) as [lb |] eqn:E.
  - rewrite !required_string. rewrite (str_set_ne "label") by other_key. rewrite !str_set_same. cbn [mbind option_bind].
    rewrite bool_decide_eq_true_2 by by eexists. by destruct (labelled_described o lb E) as [d ->].
  - rewrite !required_string. unfold first_string in E. cbn [LABELS omap list_omap] in E. destruct (str_prop "label" o); [done |].
    by rewrite bool_decide_eq_false_2 by (intros [? ?]; congruence).
Qed.
Lemma indexed_absent k l : match js k with c :: _ => is_digit c = false | [] => True end → assoc (js k) (indexed l) = None.
Proof.
  intros Hk. assert (∀ kv, kv ∈ indexed l → kv.1 ≠ js k) as H.
  { intros kv Hkv. unfold indexed in Hkv. apply elem_of_lookup_imap in Hkv as (i & x & -> & _). cbn [fst]. intros Hs.
    destruct (show_nonneg (Z.of_nat i)) as (ds & Hd & Hf & _ & Hz); [lia |]. unfold show_Z in Hs.
    rewrite (proj2 (Z.ltb_ge _ _)) in Hs by lia. rewrite Hd in Hs. subst ds. destruct (js k) as [| c s]; [done |].
    apply Forall_cons in Hf as [Hc _]. congruence. }
  induction (indexed l) as [| kv m IH]; [done |]. cbn. rewrite bool_decide_eq_false_2 by (apply H; by left). apply IH. intros. apply H. by right.
Qed.
Lemma assoc_fields k l : k ≠ js "header" → k ≠ js "options" → assoc k (normalizeFields l) = assoc k l.
Proof.
  intros Hh Ho. unfold normalizeFields. cbv zeta.
  assert (assoc k (match str_prop "question" l, str_prop "header" l with Some s, None => set_prop "header" (JStr (take 30 s)) l | _, _ => l end) = assoc k l) as H.
  { destruct (str_prop "question" l), (str_prop "header" l); try done. unfold set_prop. by rewrite assoc_set_ne by other_key. }
  set (q := match str_prop "question" l with Some _ => _ | None => _ end) in *. clearbody q.
  destruct (assoc (js "options") q) as [[] |]; try exact H. unfold set_prop. by rewrite assoc_set_ne by other_key.
Qed.
Lemma header_fields l : is_Some (str_prop "question" l) →
  str_prop "header" (normalizeFields l) = Some (default (take 30 (default [] (str_prop "question" l))) (str_prop "header" l)).
Proof.
  intros [s Hs]. unfold normalizeFields. rewrite Hs. cbv zeta. cbn [default].
  set (q := match str_prop "header" l with Some _ => _ | None => _ end).
  assert (str_prop "header" q = Some (default (take 30 s) (str_prop "header" l))) as H.
  { subst q. destruct (str_prop "header" l) eqn:E; [done | by rewrite str_set_same]. }
  clearbody q. destruct (assoc (js "options") q) as [[] |]; try exact H. by rewrite str_set_ne by other_key.
Qed.
Lemma options_fields l : assoc (js "options") (normalizeFields l) =
  match assoc (js "options") l with Some (JArr os) => Some (JArr (map normalizeOption os)) | o => o end.
Proof.
  unfold normalizeFields. cbv zeta.
  assert (assoc (js "options") (match str_prop "question" l, str_prop "header" l with Some s, None => set_prop "header" (JStr (take 30 s)) l | _, _ => l end) =
    assoc (js "options") l) as H.
  { destruct (str_prop "question" l), (str_prop "header" l); try done. unfold set_prop. by rewrite assoc_set_ne by other_key. }
  set (q := match str_prop "question" l with Some _ => _ | None => _ end) in *. clearbody q. rewrite <- H.
  destruct (assoc (js "options") q) as [[] |] eqn:E; try exact E. unfold set_prop. by rewrite assoc_set_same.
Qed.
Lemma question_taken_one v : z_info (normalizeSingleQuestion v) = if askable v then Some (info_of v) else None.
Proof.
  destruct v as [| | | | | l | l]; try done; cbn [normalizeSingleQuestion askable info_of]; unfold z_info; rewrite !required_string.
  - assert (str_prop "question" (indexed l) = None) as ->; [| done]. unfold str_prop. by rewrite indexed_absent by by vm_compute.
  - assert (str_prop "question" (normalizeFields l) = str_prop "question" l) as -> by (unfold str_prop; by rewrite assoc_fields by other_key).
    destruct (str_prop "question" l) as [s |] eqn:Eq; [| by rewrite bool_decide_eq_false_2 by (intros [? ?]; congruence)].
    rewrite bool_decide_eq_true_2 by by eexists. rewrite header_fields, Eq by by eexists. cbn [mbind option_bind default andb].
    unfold required at 1. cbn [field]. rewrite options_fields. destruct (assoc (js "options") l) as [[| | | | | os | os] |]; try done.
    cbn [mbind option_bind z_array]. rewrite mapM_map, (mapM_decided _ is_label choice_of) by apply option_taken.
    destruct (forallb is_label os); [| done]. cbn [mbind option_bind andb]. unfold optional. cbn [field]. rewrite assoc_fields by other_key.
    by destruct (assoc (js "multiple") l) as [[] |].
Qed.
(** C34. Exactly the inputs that name a text and choices with a label are taken, in
    a list or alone; of each the heading is its own or the start of its text, and
    a choice without description is described by its label. *)
Theorem question_taken raw : parameters raw = if acceptable raw then Some (map info_of (questions_of raw)) else None.
Proof.
  unfold parameters, required. destruct raw as [| | | | | | l]; try done. cbn [normalizeQuestionInput acceptable questions_of].
  assert (Halone : ∀ s, str_prop "question" l = Some s →
    field (js "questions") (JObj [(js "questions", JArr [normalizeSingleQuestion (JObj l)])]) ≫= z_array z_info =
    if askable (JObj l) then Some (map info_of [JObj l]) else None).
  { intros s Hs. cbn [field assoc]. rewrite bool_decide_eq_true_2 by done. cbn [mbind option_bind snd z_array].
    change [normalizeSingleQuestion (JObj l)] with (map normalizeSingleQuestion [JObj l]).
    rewrite mapM_map, (mapM_decided _ askable info_of) by apply question_taken_one. cbn [forallb]. by rewrite andb_true_r. }
  assert (Hnone : str_prop "question" l = None → askable (JObj l) = false).
  { intros H. cbn [askable]. rewrite H. by rewrite bool_decide_eq_false_2 by (intros [? ?]; congruence). }
  destruct (assoc (js "questions") l) as [[| | | | | qs | qs] |] eqn:Eqs;
    try (destruct (str_prop "question" l) as [text |]; [by apply (Halone text) | rewrite Hnone by done; cbn [field]; by rewrite Eqs]).
  cbn [field]. unfold set_prop. rewrite assoc_set_same. cbn [mbind option_bind snd z_array].
  by rewrite mapM_map, (mapM_decided _ askable info_of) by apply question_taken_one.
Qed.

(** ** Questions that wait *)

(** [signal] is the one that aborts the turn that asked. *)
Record Request := mkRequest { id : jsstr; sessionID : jsstr; asked : list Info; signal : option N }.
(** The listeners are those that questions put on signals; an aborted signal has
    the label of its reason. *)
Record state := mkState { pending : list Request; listeners : list (N * jsstr); aborted : gmap N jsstr }.
Inductive effect :=
| PublishAsked (info : Request)
| PublishReplied (sid requestID : jsstr) (answers : list (list jsstr))
| PublishRejected (sid requestID : jsstr)
| Resolve (requestID : jsstr) (answers : list (list jsstr))
| Reject (requestID : jsstr) (message : jsstr).
Definition RejectedError (detail : option jsstr) : jsstr :=
  match detail with Some ((_ :: _) as d) => js "The question was dismissed (" ++ d ++ js ")" | _ => js "The user dismissed this question" end.
Definition lookup_pending (i : jsstr) (ps : list Request) : option Request := find (λ r, bool_decide (id r = i)) ps.
Definition remove_pending (i : jsstr) (ps : list Request) : list Request := filter (λ r, id r ≠ i) ps.
Fixpoint put_pending (info : Request) (ps : list Request) : list Request :=
  match ps with [] => [info] | p :: ps' => if bool_decide (id p = id info) then info :: ps' else p :: put_pending info ps' end.
Definition listener_of (info : Request) : list (N * jsstr) := match signal info with Some g => [(g, id info)] | None => [] end.
Definition ask (info : Request) (s : state) : state * list effect :=
  match signal info ≫= λ g, aborted s !! g with
  | Some reason => (s, [PublishRejected (sessionID info) (id info); Reject (id info) (RejectedError (Some (js "pre-aborted: " ++ reason)))])
  | None => (mkState (put_pending info (pending s)) (listeners s ++ listener_of info) (aborted s), [PublishAsked info])
  end.
Definition dispose (info : Request) (ls : list (N * jsstr)) : list (N * jsstr) := filter (λ l, l ∉ listener_of info) ls.
(** What answers and dismissals have in common. *)
Definition take_out (requestID : jsstr) (tell : Request → list effect) (s : state) : state * list effect :=
  match lookup_pending requestID (pending s) with
  | None => (s, [])
  | Some info => (mkState (remove_pending requestID (pending s)) (dispose info (listeners s)) (aborted s), tell info)
  end.
Definition reply (requestID : jsstr) (answers : list (list jsstr)) : state → state * list effect :=
  take_out requestID (λ info, [PublishReplied (sessionID info) (id info) answers; Resolve (id info) answers]).
Definition reject (requestID : jsstr) : state → state * list effect :=
  take_out requestID (λ info, [PublishRejected (sessionID info) (id info); Reject (id info) (RejectedError None)]).
Definition onAbort (reason i : jsstr) (ps : list Request) : list Request * list effect :=
  match lookup_pending i ps with
  | None => (ps, [])
  | Some info => (remove_pending i ps, [PublishRejected (sessionID info) i; Reject i (RejectedError (Some (js "aborted: " ++ reason)))])
  end.
Fixpoint fire (reason : jsstr) (ids : list jsstr) (ps : list Request) : list Request * list effect :=
  match ids with
  | [] => (ps, [])
  | i :: ids' => let '(ps, e) := onAbort reason i ps in let '(ps, e') := fire reason ids' ps in (ps, e ++ e')
  end.
(** A signal is aborted once, and takes its listeners off. *)
Definition abort (g : N) (reason : jsstr) (s : state) : state * list effect :=
  match aborted s !! g with
  | Some _ => (s, [])
  | None =>
      let '(ps, e) := fire reason (map snd (filter (λ l, l.1 = g) (listeners s))) (pending s) in
      (mkState ps (filter (λ l, l.1 ≠ g) (listeners s)) (<[g := reason]> (aborted s)), e)
  end.
Definition list_pending (s : state) : list Request := pending s.

Inductive call := CAsk (info : Request) | CReply (i : jsstr) (answers : list (list jsstr)) | CReject (i : jsstr) | CAbort (g : N) (reason : jsstr).
Definition perform (c : call) : state → state * list effect :=
  match c with CAsk info => ask info | CReply i answers => reply i answers | CReject i => reject i | CAbort g reason => abort g reason end.
Fixpoint history (cs : list call) (s : state) : state * list effect :=
  match cs with
  | [] => (s, [])
  | c :: cs' => let '(s, e) := perform c s in let '(s, e') := history cs' s in (s, e ++ e')
  end.
Definition no_questions : state := mkState [] [] ∅.
Definition asked_by (c : call) : list jsstr := match c with CAsk info => [id info] | _ => [] end.
Definition settled (es : list effect) : list jsstr := flat_map (λ e, match e with Resolve i _ => [i] | Reject i _ => [i] | _ => [] end) es.
Definition closed (es : list effect) : list jsstr := flat_map (λ e, match e with PublishReplied _ i _ => [i] | PublishRejected _ i => [i] | _ => [] end) es.

(** Listeners are those of the questions that wait, and none of these was
    asked for an aborted turn. *)
Record waits_ok (s : state) : Prop := {
  wo_ids : NoDup (map id (pending s));
  wo_listeners : ∀ g i, (g, i) ∈ listeners s ↔ ∃ r, r ∈ pending s ∧ id r = i ∧ signal r = Some g;
  wo_live : ∀ r g, r ∈ pending s → signal r = Some g → aborted s !! g = None
}.
Lemma lookup_pending_Some i ps info : lookup_pending i ps = Some info → info ∈ ps ∧ id info = i.
Proof. unfold lookup_pending. intros [H%bool_decide_eq_true Hin]%find_Some. done. Qed.
Lemma lookup_pending_None i ps : lookup_pending i ps = None → i ∉ map id ps.
Proof.
  unfold lookup_pending. induction ps as [| p ps IH]; cbn; [intros _; apply not_elem_of_nil |]. case_bool_decide as E; [done |].
  intros H%IH. rewrite not_elem_of_cons. by split; [congruence |].
Qed.
Lemma put_fresh info ps : id info ∉ map id ps → put_pending info ps = ps ++ [info].
Proof. induction ps as [| p ps IH]; [done |]. cbn. rewrite not_elem_of_cons. intros [H1 H2]. by rewrite bool_decide_eq_false_2, IH. Qed.
Lemma remove_ids i ps : i ∈ map id ps → NoDup (map id ps) → map id (remove_pending i ps) ++ [i] ≡ₚ map id ps.
Proof.
  unfold remove_pending. induction ps as [| p ps IH]; [by intros ?%not_elem_of_nil |]. cbn [map]. rewrite NoDup_cons, filter_cons. intros Hi [Hp Hn].
  destruct (decide (id p ≠ i)) as [H | H%dec_stable].
  - cbn [map app]. constructor. apply IH; [| done]. by apply elem_of_cons in Hi as [-> |].
  - subst i. assert (filter (λ r, id r ≠ id p) ps = ps) as ->; [| by rewrite Permutation_app_comm].
    clear -Hp. induction ps as [| q ps IH]; [done |]. cbn [map] in Hp. rewrite not_elem_of_cons in Hp. destruct Hp as [H1 H2].
    rewrite filter_cons, decide_True by congruence. by rewrite IH.
Qed.
Lemma elem_remove r i ps : r ∈ remove_pending i ps ↔ r ∈ ps ∧ id r ≠ i.
Proof. unfold remove_pending. rewrite list_elem_of_filter. tauto. Qed.
Lemma remove_nodup i ps : NoDup (map id ps) → NoDup (map id (remove_pending i ps)).
Proof. intros H. eapply sublist_NoDup; [exact H |]. apply fmap_sublist, sublist_filter. Qed.
Lemma same_id ps p q : NoDup (map id ps) → p ∈ ps → q ∈ ps → id p = id q → p = q.
Proof.
  intros Hn Hp Hq He. apply list_elem_of_lookup in Hp as [i Hi]. apply list_elem_of_lookup in Hq as [j Hj].
  assert (i = j) as ->; [| congruence]. eapply (NoDup_lookup (map id ps)); [done | |]; rewrite list_lookup_fmap; [by rewrite Hi | by rewrite Hj, He].
Qed.
(** What an operation does to the identifiers that wait. *)
Definition conserves (before : list jsstr) (ps : list Request) (e : list effect) : Prop := map id ps ++ settled e ≡ₚ before ∧ closed e = settled e.
Lemma onAbort_spec reason i ps : NoDup (map id ps) → let r := onAbort reason i ps in
  NoDup (map id r.1) ∧ (∀ q, q ∈ r.1 ↔ q ∈ ps ∧ id q ≠ i) ∧ conserves (map id ps) r.1 r.2.
Proof.
  intros Hn. unfold onAbort, conserves. destruct (lookup_pending i ps) as [info |] eqn:E; cbn.
  - apply lookup_pending_Some in E as [Hin Hi]. split; [by apply remove_nodup |]. split; [intros; apply elem_remove |]. split; [| done].
    apply remove_ids; [| done]. rewrite <- Hi. by apply list_elem_of_fmap_2.
  - apply lookup_pending_None in E. rewrite app_nil_r. split; [done |]. split; [| done]. intros q. split; [| by intros [? _]].
    intros Hq. split; [done |]. intros <-. by apply E, list_elem_of_fmap_2.
Qed.
Lemma conserves_seq before ps e ps' e' : conserves before ps e → conserves (map id ps) ps' e' → conserves before ps' (e ++ e').
Proof.
  unfold conserves, settled, closed. rewrite !flat_map_app. intros [H1 ->] [H2 ->]. split; [| done].
  rewrite <- H1, <- H2. rewrite <- app_assoc. f_equiv. apply Permutation_app_comm.
Qed.
Lemma fire_spec reason ids ps : NoDup (map id ps) → let r := fire reason ids ps in
  NoDup (map id r.1) ∧ (∀ q, q ∈ r.1 ↔ q ∈ ps ∧ id q ∉ ids) ∧ conserves (map id ps) r.1 r.2.
Proof.
  revert ps. induction ids as [| i ids IH]; intros ps Hn; cbn [fire].
  - split; [done |]. split; [intros q; split; [intros; split; [done | apply not_elem_of_nil] | by intros [? _]] |]. split; [cbn; by rewrite app_nil_r | done].
  - pose proof (onAbort_spec reason i ps Hn) as (H1 & H2 & H3). destruct (onAbort reason i ps) as [ps1 e1]. cbn [fst snd] in *.
    pose proof (IH ps1 H1) as (G1 & G2 & G3). destruct (fire reason ids ps1) as [ps2 e2]. cbn [fst snd] in *.
    split; [done |]. split; [intros q; rewrite G2, H2, not_elem_of_cons; tauto | by eapply conserves_seq].
Qed.
Lemma take_out_spec i tell s : waits_ok s → (∀ info, settled (tell info) = [id info] ∧ closed (tell info) = [id info]) →
  let r := take_out i tell s in waits_ok r.1 ∧ conserves (map id (pending s)) (pending r.1) r.2.
Proof.
  intros [H1 H2 H3] Ht. unfold take_out, conserves. destruct (lookup_pending i (pending s)) as [info |] eqn:E; cbn [fst snd pending].
  2: { split; [by split |]. cbn. by rewrite app_nil_r. }
  apply lookup_pending_Some in E as [Hin Hi]. split; [split; cbn [pending listeners aborted] |].
  - by apply remove_nodup.
  - intros g j. unfold dispose. rewrite list_elem_of_filter, H2. setoid_rewrite elem_remove. split.
    + intros (Hl & r & Hr & <- & Hs). exists r. split; [| done]. split; [done |]. intros Hri.
      apply Hl. unfold listener_of. assert (r = info) as -> by (eapply same_id; [done | done | done | by rewrite Hi]). rewrite Hs. by apply list_elem_of_singleton.
    + intros (r & [Hr Hri] & <- & Hs). split; [| by exists r]. unfold listener_of. destruct (signal info); [| apply not_elem_of_nil].
      rewrite list_elem_of_singleton. intros [= _ He]. congruence.
  - intros r g [Hr _]%elem_remove. by apply H3.
  - destruct (Ht info) as [-> ->]. split; [| done]. rewrite Hi. apply remove_ids; [| done]. rewrite <- Hi. by apply list_elem_of_fmap_2.
Qed.
Lemma ask_spec info s : waits_ok s → id info ∉ map id (pending s) →
  let r := ask info s in waits_ok r.1 ∧ conserves (map id (pending s) ++ [id info]) (pending r.1) r.2.
Proof.
  intros [H1 H2 H3] Hi. unfold ask, conserves. destruct (signal info ≫= _) as [reason |] eqn:E; cbn [fst snd pending]; [done |].
  rewrite put_fresh by done. split; [split; cbn [pending listeners aborted] |].
  - rewrite map_app. apply NoDup_app. split; [done |]. split; [| apply NoDup_singleton]. intros j Hj ->%list_elem_of_singleton. done.
  - intros g j. rewrite elem_of_app, H2. setoid_rewrite elem_of_app. setoid_rewrite list_elem_of_singleton. unfold listener_of. split.
    + intros [(r & Hr & Hrest) | Hl]; [exists r; tauto |]. exists info. destruct (signal info); [| by apply not_elem_of_nil in Hl].
      apply list_elem_of_singleton in Hl as [= -> ->]. tauto.
    + intros (r & [Hr | ->] & <- & Hs); [left; by exists r |]. right. rewrite Hs. by apply list_elem_of_singleton.
  - intros r g [Hr | ->%list_elem_of_singleton]%elem_of_app Hs; [by apply (H3 r) |]. by rewrite Hs in E.
  - rewrite map_app. cbn. by rewrite app_nil_r.
Qed.
Lemma abort_spec g reason s : waits_ok s →
  let r := abort g reason s in waits_ok r.1 ∧ conserves (map id (pending s)) (pending r.1) r.2.
Proof.
  intros [H1 H2 H3]. unfold abort. destruct (aborted s !! g) eqn:E; cbn [fst snd].
  { split; [by split |]. unfold conserves. cbn. by rewrite app_nil_r. }
  set (ids := map snd _). pose proof (fire_spec reason ids (pending s) H1) as (F1 & F2 & F3). destruct (fire reason ids (pending s)) as [ps e]. cbn [fst snd] in *.
  assert (∀ r, r ∈ pending s → id r ∈ ids ↔ signal r = Some g) as Hids.
  { intros r Hr. subst ids. rewrite list_elem_of_fmap. setoid_rewrite list_elem_of_filter. split.
    - intros ([g' j] & Hj & Hg & Hl). cbn in *. subst. apply H2 in Hl as (q & Hq & He & Hs). by rewrite (same_id _ _ _ H1 Hr Hq).
    - intros Hs. exists (g, id r). split; [done |]. split; [done |]. apply H2. by exists r. }
  split; [split; cbn [pending listeners aborted] | done]; [done | |].
  - intros g' j. rewrite list_elem_of_filter, H2. setoid_rewrite F2. cbn. split.
    + intros (Hg & r & Hr & <- & Hs). exists r. split; [| done]. split; [done |]. rewrite Hids by done. congruence.
    + intros (r & [Hr Hn] & <- & Hs). rewrite Hids in Hn by done. split; [congruence | by exists r].
  - intros r g' [Hr Hn]%F2 Hs. rewrite Hids in Hn by done. rewrite lookup_insert_ne by congruence. by apply (H3 r).
Qed.
Lemma perform_spec c s : waits_ok s → Forall (λ i, i ∉ map id (pending s)) (asked_by c) →
  let r := perform c s in waits_ok r.1 ∧ conserves (map id (pending s) ++ asked_by c) (pending r.1) r.2.
Proof.
  intros Hs Hf. destruct c; cbn [perform asked_by] in *; rewrite ?app_nil_r.
  - apply ask_spec; [done |]. by apply Forall_cons in Hf as [? _].
  - by apply take_out_spec.
  - by apply take_out_spec.
  - by apply abort_spec.
Qed.
Lemma perm_chain {A} (p0 p1 p2 a r s1 s2 : list A) : p1 ++ s1 ≡ₚ p0 ++ a → p2 ++ s2 ≡ₚ p1 ++ r → p2 ++ s1 ++ s2 ≡ₚ p0 ++ a ++ r.
Proof.
  intros H1 H2. rewrite (Permutation_app_comm s1 s2), (app_assoc p2), H2, (app_assoc p0), <- H1, <- !app_assoc. f_equiv. apply Permutation_app_comm.
Qed.
Lemma history_spec cs s : waits_ok s → NoDup (map id (pending s) ++ flat_map asked_by cs) →
  let r := history cs s in waits_ok r.1 ∧ conserves (map id (pending s) ++ flat_map asked_by cs) (pending r.1) r.2.
Proof.
  revert s. induction cs as [| c cs IH]; intros s Hs Hn; cbn [history flat_map] in *.
  { split; [done |]. unfold conserves. cbn. by rewrite !app_nil_r. }
  rewrite app_assoc in Hn. pose proof Hn as (Hn1 & Hd & _)%NoDup_app.
  destruct (perform_spec c s Hs) as [P1 P2].
  { apply NoDup_app in Hn1 as (_ & Hx & _). apply Forall_forall. intros i Hi Hp. by apply (Hx i). }
  destruct (perform c s) as [s1 e1]. cbn [fst snd] in *. destruct P2 as [P2 P3].
  destruct (IH s1 P1) as [I1 I2].
  { rewrite <- P2 in Hn. rewrite <- app_assoc in Hn. eapply sublist_NoDup; [exact Hn |].
    apply sublist_app; [done |]. apply sublist_inserts_l. done. }
  destruct (history cs s1) as [s2 e2]. cbn [fst snd] in *. split; [done |]. destruct I2 as [I2 I3].
  unfold conserves, settled, closed in *. rewrite !flat_map_app, P3, I3. split; [| done].
  by eapply perm_chain.
Qed.
(** C33. Each question waits or was settled once, and what was told of it says so
    as often; a question that waits is not of an aborted turn, and no signal
    keeps a listener of a question that does not wait. *)
Theorem question_settles_once cs : NoDup (flat_map asked_by cs) → let '(s, es) := history cs no_questions in
  map id (pending s) ++ settled es ≡ₚ flat_map asked_by cs ∧ closed es = settled es ∧
  (∀ r g, r ∈ pending s → signal r = Some g → aborted s !! g = None) ∧
  (∀ g i, (g, i) ∈ listeners s ↔ ∃ r, r ∈ pending s ∧ id r = i ∧ signal r = Some g).
Proof.
  intros Hn. destruct (history_spec cs no_questions) as [[_ H2 H3] [C1 C2]].
  - split; cbn; [apply NoDup_nil_2 | | by intros r g ?%not_elem_of_nil]. intros g i. split; [by intros ?%not_elem_of_nil | by intros (r & ?%not_elem_of_nil & _)].
  - exact Hn.
  - destruct (history cs no_questions). done.
Qed.

(** ** Examples *)

Definition some_question (i : string) (g : option N) : Request := mkRequest (js i) (js "s") [] g.
Definition some_calls : list call :=
  [CAsk (some_question "q1" (Some 1%N)); CAsk (some_question "q2" None); CReply (js "q2") [[js "yes"]]; CReply (js "q2") [];
   CAbort 1 (js "stop"); CReject (js "q1"); CAsk (some_question "q3" (Some 1%N)); CAsk (some_question "q4" (Some 2%N))].
Lemma question_settles_once_witness : let '(s, es) := history some_calls no_questions in
  map id (pending s) ++ settled es ≡ₚ map js ["q1"; "q2"; "q3"; "q4"]%string ∧ settled es = map js ["q2"; "q1"; "q3"]%string.
Proof.
  pose proof (question_settles_once some_calls) as H. split; [| by vm_compute]. apply H. by_compute.
Defined.
Example flat_question_taken :
  parameters (JObj [(js "question", JStr (js "Which of these many colours do you like?")); (js "options", JArr [JStr (js "red"); JObj [(js "value", JStr (js "blue")); (js "detail", JStr (js "a hue"))]])]) =
  Some [mkInfo (js "Which of these many colours do you like?") (js "Which of these many colours do") [mkChoice (js "red") (js "red"); mkChoice (js "blue") (js "a hue")] None].
Proof. by vm_compute. Qed.
(** The answers are set in quotes, but quotes in them are not told apart: one
    answer reads as two. *)
Example answer_reads_as_two :
  let q t := mkInfo (js t) [] [] None in
  let said := [65; 34; 44; 32; 34; 66; 34; 61; 34; 67]%N in
  formatted [q "Q"%string] [[said]] = formatted [q "Q"%string; q "B"%string] [[js "A"]; [js "C"]].
Proof. by vm_compute. Qed.
(** A list in the place of a question is not left as it is. *)
Example list_made_an_object : normalizeSingleQuestion (JArr [JStr (js "Why?")]) = JObj [(js "0", JStr (js "Why?"))].
Proof. by vm_compute. Qed.
