(* ===== verification/Observe.v ===== *)
(** * Why a turn compacts its context ([session/prompt.ts], [provider/chain-semantics.ts])

    [deriveObservedCondition] with the health of the server's cache, which it
    follows from turn to turn.  What a row says beside its [info], the two budget
    checks and the tweaks are arguments; what only informs is left out. *)
From stdpp Require Import base gmap list.
From Stdlib Require Import QArith.
From S2P Require Import Prelude JsString Dialog Anchor MessageStream ContextBudget CompactionRun.
Close Scope Q_scope.
Open Scope Z_scope.

(** ** Chains on the server *)

Inductive ProviderChainClass := SS | SL.
Definition CHAIN_SEMANTICS : list (string * ProviderChainClass) :=
  [("openai", SS); ("codex", SS); ("github-copilot", SS); ("copilot-cli", SS); ("claude-cli", SL); ("google-api", SL); ("gemini-cli", SL);
   ("openrouter", SL); ("vercel", SL); ("gitlab", SL); ("gmicloud", SL); ("opencode", SL)]%string.
(** [None] for a provider that is not registered. *)
Definition chain_class (providerId : jsstr) : option ProviderChainClass := snd <$> find (λ kv, bool_decide (js kv.1 = providerId)) CHAIN_SEMANTICS.

(** ** What a request would hold *)

Definition is_filled_text (p : part) : bool := match p with Text (_ :: _) _ => true | _ => false end.
Definition tool_items (p : part) : Z := match p with Tool t => match status t with completed | errored => 2 | _ => 1 end | _ => 0 end.
Definition items_of (m : message) : Z :=
  match role_of m with
  | user => 1
  | assistant => (if existsb is_filled_text (parts m) then 1 else 0) + foldr (λ p k, tool_items p + k) 0 (parts m)
  end.
Definition estimateTransportItemCount (ms : list message) : Z := foldr (λ m k, items_of m + k) 0 ms.
(** The same body once more. *)
Definition estimateCodexItemCount : list message → Z := estimateTransportItemCount.

(** ** The cache of the last turn *)

Record CacheReadState := mkCache {
  cacheRead : Z; s_accountId : option jsstr; s_providerId : jsstr; s_continuationInvalidatedAt : option Z; ts : Z; selfInvalidated : bool
}.
Definition CLAUDE_CACHE_TTL_MS : Z := 60 * 60 * 1000.
Record limits := mkLimits {
  codexItems : Z; claudeItems : Z; bCompactTokens : Z; stallRecoveryConsecutiveEmpty : Z; stallRecoveryFloor : Q; cacheLossFloor : Q; minUncachedTokens : Z
}.
(** [table] is all that the session has, [msgs] what the loop works on. *)
Record observe_input := mkObserve {
  table : list message; msgs : list message; lastFinished : option message; pinnedProviderId : jsstr; pinnedAccountId : option jsstr;
  hasUnprocessedCompactionRequest : bool; compactionRequestAuto : bool; isSubagent : bool; continuationInvalidatedAt : option Z; predictedMiss : bool;
  currentInputTokens : option Z; modelContextWindow : option Z; paralysisItemThreshold : option Z; rebindPreemptive : bool;
  isOverflow : bool; isCacheAware : bool; checkedAt : Z; observedAt : Z; idleAt : Z; strategiesWired : bool
}.
Inductive planned_source :=
| self_invalidate_echo | account_switch | provider_switch | continuation_invalidated_event | anchor_account_drift | anchor_provider_drift
| recent_compaction | compaction_shrinkage.
Inductive effect := InvalidateContinuationFamily | AccountSwitch (previousAccountId accountId providerId : jsstr).
Definition truthy (s : option jsstr) : option jsstr := match s with Some [] => None | _ => s end.
Definition differ (a b : option jsstr) : bool := match truthy a, truthy b with Some a, Some b => negb (bool_decide (a = b)) | _, _ => false end.
Definition after_ts (t since : Z) : bool := negb (t =? 0) && (since <? t).

Section Observe.
Context (lim : limits) (providerId_of : info → jsstr) (accountId_of : info → option jsstr) (completed_of : info → option Z) (reasons : message → bool).

Definition has_model_content (m : message) : bool := existsb (λ p, match p with Text _ _ | Tool _ => true | _ => false end) (parts m) || reasons m.
(** Of the newest messages; [None] when no message of a user comes before. *)
Fixpoint trailing_empty (newest_first : list message) : option Z :=
  match newest_first with
  | [] => None
  | m :: older =>
      if is_user m then Some 0
      else if has_model_content m then None
      else let t := tokens (msg_info m) in if (input t <=? 0) || (0 <? output t) then None else Z.succ <$> trailing_empty older
  end.
Definition countTrailingEmptyAssistantResponses (ms : list message) : Z := default 0 (trailing_empty (rev ms)).
Definition anchor_drift (a : info) (i : observe_input) : bool :=
  match truthy (Some (providerId_of a)) with Some p => negb (bool_decide (p = pinnedProviderId i)) | None => false end.

(** The caches of a provider that keeps nothing: a compaction is due when a large
    prompt is cold, but not as the echo of the last one. *)
Definition evaluateSlCacheHealth (i : observe_input) (finished : message) (prev : option CacheReadState) : option Observed :=
  let t := tokens (msg_info finished) in
  let promptTotal := input t + cache_read t + cache_write t in
  if coldCacheBGate (resolvePolicy (Some (pinnedProviderId i))) promptTotal (bCompactTokens lim) then
    let mostlyUncached := if 0 <? promptTotal then 2 * cache_read t <? promptTotal else true in
    let lastCompletedAt := default (created (msg_info finished)) (completed_of (msg_info finished)) in
    let idleMs := if 0 <? lastCompletedAt then idleAt i - lastCompletedAt else 0 in
    let idleColdResume := CLAUDE_CACHE_TTL_MS <? idleMs in
    if mostlyUncached || idleColdResume then
      let postCompactionEcho :=
        negb idleColdResume && match prev, most_recent_anchor (msgs i) with Some p, Some a => after_ts (created (msg_info a)) (ts p) | _, _ => false end in
      if postCompactionEcho then None else Some cache_aware
    else None
  else None.
(** Why a drop was to be expected. *)
Definition plannedSources (i : observe_input) (p : CacheReadState) : list planned_source :=
  map snd (filter (λ bs, bs.1 = true) ([
    (selfInvalidated p, self_invalidate_echo);
    (negb (bool_decide (s_accountId p = pinnedAccountId i)), account_switch);
    (negb (bool_decide (s_providerId p = pinnedProviderId i)), provider_switch);
    (match continuationInvalidatedAt i with Some t => negb (bool_decide (Some t = s_continuationInvalidatedAt p)) | None => false end, continuation_invalidated_event)
   ] ++ (match most_recent_anchor (msgs i) with
    | Some a => [
       (differ (accountId_of (msg_info a)) (pinnedAccountId i), anchor_account_drift);
       (anchor_drift (msg_info a) i, anchor_provider_drift);
       (after_ts (created (msg_info a)) (ts p), recent_compaction)]
    | None => [] end) ++ [
    (match currentInputTokens i with Some n => n <? cacheRead p | None => false end, compaction_shrinkage)])).
Definition is_cliff (currentCache : Z) (p : CacheReadState) : bool := (50000 <? cacheRead p) && (2 * currentCache <? cacheRead p).
(** Whether the chain is reset. *)
Definition evaluateSsCacheHealth (i : observe_input) (currentCache : Z) (prev : option CacheReadState) : bool :=
  match prev with
  | Some p => is_cliff currentCache p && match plannedSources i p with [] => true | _ => false end
  | None => false
  end.
Definition nextState (i : observe_input) (finished : message) (reset : bool) : CacheReadState :=
  mkCache (cache_read (tokens (msg_info finished))) (pinnedAccountId i) (pinnedProviderId i) (continuationInvalidatedAt i) (observedAt i) reset.

(** ** The cause *)

Definition result : Type := option CacheReadState * list effect * option Observed.
Definition fresh_invalidation (i : observe_input) : bool :=
  match continuationInvalidatedAt i with
  | Some t => negb (t =? 0) && match most_recent_anchor (msgs i) with Some a => created (msg_info a) <? t | None => true end
  | None => false
  end.
Definition token_pressure (i : observe_input) : option Observed :=
  match lastFinished i with
  | None => None
  | Some finished =>
      let t := tokens (msg_info finished) in
      let window := default 0 (modelContextWindow i) in
      let current := default (input t) (currentInputTokens i) in
      let ctxRatio := if 0 <? window then Qdiv (inject_Z current) (inject_Z window) else inject_Z 0 in
      if isOverflow i then Some overflow
      else if (stallRecoveryConsecutiveEmpty lim <=? countTrailingEmptyAssistantResponses (msgs i)) && negb (Qle_bool ctxRatio (stallRecoveryFloor lim)) then Some stall_recovery
      else if predictedMiss i && shouldCompactOnPredictedCacheLoss (cacheLossFloor lim) (minUncachedTokens lim) current (cache_read t) window then Some cache_aware
      else if isCacheAware i then Some cache_aware
      else None
  end.
(** The checks after the health of the cache. *)
Definition later_causes (i : observe_input) : list effect * option Observed :=
  let policy := resolvePolicy (Some (pinnedProviderId i)) in
  if match paralysisItemThreshold i with Some n => n <? estimateTransportItemCount (msgs i) | None => false end then ([], Some overflow)
  else if rebindPreemptive i then ([], Some rebind)
  else if itemOverflowTrigger (codexItems lim) (claudeItems lim) policy (estimateCodexItemCount (msgs i)) then ([], Some overflow)
  else if fresh_invalidation i then ([], Some continuation_invalidated)
  else match most_recent_anchor (msgs i) with
  | Some a =>
      if anchor_drift (msg_info a) i && shouldCompactOnTakeover (strategiesWired i) (Some (pinnedProviderId i)) then ([], Some provider_switched)
      else match truthy (accountId_of (msg_info a)), truthy (pinnedAccountId i) with
      | Some x, Some y => if bool_decide (x = y) then ([], token_pressure i) else ([AccountSwitch x y (providerId_of (msg_info a))], None)
      | _, _ => ([], token_pressure i)
      end
  | None => ([], token_pressure i)
  end.
Definition deriveObservedCondition (i : observe_input) (prev : option CacheReadState) : result :=
  if shouldThrottle (checkedAt i) (table i) then (prev, [], None)
  else if hasUnprocessedCompactionRequest i && negb (isSubagent i) then (prev, [], Some (if compactionRequestAuto i then overflow else manual))
  else
    let later state := let '(es, o) := later_causes i in (state, es, o) in
    match lastFinished i with
    | None => later prev
    | Some finished =>
        match chain_class (pinnedProviderId i) with
        | Some SL =>
            let state := Some (nextState i finished false) in
            match evaluateSlCacheHealth i finished prev with Some o => (state, [], Some o) | None => later state end
        | _ =>
            let reset := evaluateSsCacheHealth i (cache_read (tokens (msg_info finished))) prev in
            let state := Some (nextState i finished reset) in
            if reset then (state, [InvalidateContinuationFamily], None) else later state
        end
    end.
End Observe.

(** ** What follows from a cause *)

Section Caused.
Context (lim : limits) (providerId_of : info → jsstr) (accountId_of : info → option jsstr) (completed_of : info → option Z) (reasons : message → bool).
Notation derive := (deriveObservedCondition lim providerId_of accountId_of completed_of reasons).
Notation later := (later_causes lim providerId_of accountId_of reasons).

Lemma later_no_reset i : InvalidateContinuationFamily ∉ (later i).1.
Proof.
  unfold later_causes. repeat (case_match; cbn [fst]; try apply not_elem_of_nil). all: by rewrite list_elem_of_singleton.
Qed.
Lemma pressure_cause i o : token_pressure lim reasons i = Some o → o = overflow ∨ o = stall_recovery ∨ o = cache_aware.
Proof.
  unfold token_pressure. destruct (lastFinished i); [| done]. cbv zeta.
  destruct (isOverflow i); [intros [= <-]; auto |]. destruct (_ && _); [intros [= <-]; auto |]. destruct (_ && _); [intros [= <-]; auto |].
  destruct (isCacheAware i); [intros [= <-]; auto | done].
Qed.
(** The causes that a provider of Claude's policy lets pass. *)
Definition told_away (i : observe_input) (o : Observed) : Prop :=
  (o = rebind ∧ rebindPreemptive i = true) ∨ (o = continuation_invalidated ∧ fresh_invalidation i = true).
Lemma claude_takes_nothing_over p : resolvePolicy (Some p) = ClaudePolicy → shouldCompactOnTakeover true (Some p) = false.
Proof.
  unfold resolvePolicy, shouldCompactOnTakeover, classifyProvider. case_bool_decide as H; [| done]. apply list_elem_of_singleton in H as ->. done.
Qed.
Lemma later_cause i o : (later i).2 = Some o → strategiesWired i = true → skipEventCompaction (resolvePolicy (Some (pinnedProviderId i))) o = true → told_away i o.
Proof.
  intros Ho Hw Hskip. unfold skipEventCompaction in Hskip. destruct (resolvePolicy _) eqn:Hpol; [done |]. apply bool_decide_eq_true in Hskip.
  assert (o ∉ [overflow; stall_recovery; cache_aware]) as Hnot by (unfold CLAUDE_NOOP_OBSERVED in Hskip; set_solver). clear Hskip.
  assert (token_pressure lim reasons i ≠ Some o) as Hpress by (intros [-> | [-> | ->]]%pressure_cause; set_solver).
  revert Ho. unfold later_causes. rewrite Hw, (claude_takes_nothing_over _ Hpol), Hpol. cbv zeta.
  case_match; [cbn; intros [= <-]; set_solver |].
  destruct (rebindPreemptive i) eqn:Hr; [cbn; intros [= <-]; by left |].
  destruct (itemOverflowTrigger _ _ _ _); [cbn; intros [= <-]; set_solver |].
  destruct (fresh_invalidation i) eqn:Hf; [cbn; intros [= <-]; by right |].
  destruct (most_recent_anchor (msgs i)) as [a |]; [| done]. rewrite andb_false_r. repeat (case_match; try done).
Qed.
(** C36. With the strategies registered, a cause that is found is one that a
    compaction acts on, but for a chain that the server has refused and a session
    that is taken up again: a turn does not go round for a provider that was
    switched to and lets the switch pass. *)
Theorem cause_acted_on i prev o : (deriveObservedCondition lim providerId_of accountId_of completed_of reasons i prev).2 = Some o → strategiesWired i = true →
  skipEventCompaction (resolvePolicy (Some (pinnedProviderId i))) o = true → told_away i o.
Proof.
  unfold deriveObservedCondition. destruct (shouldThrottle _ _); [done |].
  destruct (hasUnprocessedCompactionRequest i && _).
  { intros [= <-] _ Hskip. unfold skipEventCompaction in Hskip. destruct (resolvePolicy (Some (pinnedProviderId i))); [done |]. by destruct (compactionRequestAuto i). }
  assert (∀ st : option CacheReadState, (let '(es, o) := later i in (st, es, o)).2 = (later i).2) as Hl by (intros; by destruct (later i)).
  cbv zeta. destruct (lastFinished i) as [finished |]; [| rewrite Hl; apply later_cause].
  assert (∀ st e, ((st, e, Some cache_aware) : result).2 = Some o → skipEventCompaction (resolvePolicy (Some (pinnedProviderId i))) o = true → told_away i o) as Hc.
  { intros st e [= <-] Hskip. unfold skipEventCompaction in Hskip. by destruct (resolvePolicy _). }
  destruct (chain_class (pinnedProviderId i)) as [[] |]; try (destruct (evaluateSsCacheHealth _ _ _ _ _); [done | rewrite Hl; apply later_cause]).
  destruct (evaluateSlCacheHealth _ _ _ _ _) as [o' |] eqn:E; [| rewrite Hl; apply later_cause].
  assert (o' = cache_aware) as -> by (revert E; unfold evaluateSlCacheHealth; repeat case_match; congruence). intros H _. by eapply Hc.
Qed.

(** ** One reset for a lost chain *)

Lemma self_is_planned i p : selfInvalidated p = true → plannedSources providerId_of accountId_of i p ≠ [].
Proof. intros H. unfold plannedSources. by rewrite H. Qed.
Lemma reset_spec i prev : InvalidateContinuationFamily ∈ (derive i prev).1.2 →
  (∃ p, prev = Some p ∧ selfInvalidated p = false ∧ 50000 < cacheRead p) ∧ (derive i prev).2 = None ∧ ∃ p, (derive i prev).1.1 = Some p ∧ selfInvalidated p = true.
Proof.
  unfold deriveObservedCondition. destruct (shouldThrottle _ _); [by intros ?%not_elem_of_nil |].
  destruct (hasUnprocessedCompactionRequest i && _); [by intros ?%not_elem_of_nil |]. cbv zeta.
  assert (∀ st : option CacheReadState, InvalidateContinuationFamily ∉ (let '(es, o) := later i in (st, es, o)).1.2) as Hl
    by (intros st; pose proof (later_no_reset i); by destruct (later i)).
  destruct (lastFinished i) as [finished |]; [| by intros ?%Hl].
  assert (∀ c, evaluateSsCacheHealth providerId_of accountId_of i c prev = true → ∃ p, prev = Some p ∧ selfInvalidated p = false ∧ 50000 < cacheRead p) as Hss.
  { intros c H. unfold evaluateSsCacheHealth in H. destruct prev as [p |]; [| done]. apply andb_true_iff in H as [[Hc _]%andb_true_iff Hp].
    exists p. split; [done |]. split; [| by apply Z.ltb_lt]. destruct (selfInvalidated p) eqn:E; [| done]. pose proof (self_is_planned i p E). by destruct (plannedSources _ _ i p). }
  destruct (chain_class _) as [[] |].
  2: { destruct (evaluateSlCacheHealth _ _ _ _ _); [by intros ?%not_elem_of_nil | by intros ?%Hl]. }
  all: destruct (evaluateSsCacheHealth _ _ i _ prev) eqn:E; [| by intros ?%Hl]; intros _; split; [by eapply Hss |]; split; [done | by eexists].
Qed.
(** C35. A lost chain is reset and nothing is compacted for it; and whatever the
    next turn reports, it does not reset the chain again. *)
Theorem chain_reset_once i prev j : let derive := deriveObservedCondition lim providerId_of accountId_of completed_of reasons in
  InvalidateContinuationFamily ∈ (derive i prev).1.2 →
  (derive i prev).2 = None ∧ InvalidateContinuationFamily ∉ (derive j (derive i prev).1.1).1.2.
Proof.
  cbv zeta. intros H. apply reset_spec in H as (_ & Hn & p & Hp & Hs). split; [done |]. rewrite Hp. intros Hj.
  apply reset_spec in Hj as ((q & [= <-] & Hq & _) & _). congruence.
Qed.
(** The half minute after a compaction: no cause is looked for. *)
Lemma no_cause_after_run plugin process e o ms i prev : can_compact e o ms → anchorTime (stamps_of e) ≠ 0 →
  table i = (run plugin process e o ms).1 → checkedAt i < anchorTime (stamps_of e) + COOLDOWN_MS → derive i prev = (prev, [], None).
Proof.
  intros H H0 Ht Hnow. unfold deriveObservedCondition. rewrite Ht.
  destruct (run_narrative plugin process e o ms H) as (kept & body & -> & _ & _ & H3). cbn [fst].
  unfold shouldThrottle. rewrite H3. cbn [the_anchor msg_info anchor_info created]. by rewrite (proj2 (Z.eqb_neq _ _)), (proj2 (Z.ltb_lt _ _)) by lia.
Qed.
End Caused.

(** ** Examples *)

Definition some_limits : limits := mkLimits 250 2000 200000 2 (Qmake 1 2) (Qmake 7 10) 40000.
Definition turn_of (id : string) (t : Z) (read inp : Z) : message := mkMessage (mkInfo (js id) assistant t false (Some Dialog.stop) (mkTokens None inp 10 read 0)) [Text (js "done") false].
Definition observe_at (provider : string) (ms : list message) (now : Z) (invalidated : option Z) (wired : bool) : observe_input :=
  mkObserve ms ms (findLast is_assistant ms) (js provider) None false false false invalidated false (Some 300000) (Some 400000) None false false false now now now wired.
Definition of_codex : info → jsstr := λ _, js "codex".
Definition derive_codex : observe_input → option CacheReadState → result := deriveObservedCondition some_limits of_codex (λ _, None) (λ _, None) (λ _, false).
Definition lost_chain : observe_input := observe_at "codex" [asked "m1" "go"; turn_of "m2" 1000 3000 0] 2000 None true.
Definition cached : CacheReadState := mkCache 190000 None (js "codex") None 500 false.
Lemma chain_reset_once_witness :
  derive_codex lost_chain (Some cached) = (Some (mkCache 3000 None (js "codex") None 2000 true), [InvalidateContinuationFamily], None) ∧
  InvalidateContinuationFamily ∉ (derive_codex lost_chain (derive_codex lost_chain (Some cached)).1.1).1.2.
Proof.
  split; [by vm_compute |]. apply (chain_reset_once some_limits of_codex (λ _, None) (λ _, None) (λ _, false) lost_chain (Some cached) lost_chain).
  apply list_elem_of_singleton. by vm_compute.
Defined.
(** An anchor that codex wrote, read by Claude's provider. *)
Definition codex_anchor : message := mkMessage (mkInfo (js "m1") assistant 1000 true None no_tokens) [Text (js "what was") false; Compaction None].
Definition taken_over (invalidated : option Z) (wired : bool) : observe_input :=
  observe_at "claude-cli" [codex_anchor; asked "m2" "go"; turn_of "m3" 2000 100 10] 100000 invalidated wired.
Example takeover_lets_pass : (derive_codex (taken_over None true) None).2 = None ∧ (derive_codex (taken_over None false) None).2 = Some provider_switched.
Proof. by vm_compute. Qed.
Lemma cause_acted_on_witness :
  (derive_codex (taken_over (Some 3000) true) None).2 = Some continuation_invalidated ∧ told_away (taken_over (Some 3000) true) continuation_invalidated.
Proof.
  split; [by vm_compute |]. apply (cause_acted_on some_limits of_codex (λ _, None) (λ _, None) (λ _, false) (taken_over (Some 3000) true) None); by vm_compute.
Defined.
(** A chain that is refused while Claude's provider is in use: the cause is found,
    nothing is compacted, the turn starts anew, and all is as it was. *)
Example claude_goes_round :
  let i := taken_over (Some 3000) true in
  let e := env "claude-cli" no_tail false 100000 "m7" "m8" "m9" in
  (derive_codex i None).2 = Some continuation_invalidated ∧ run no_plugin no_model e continuation_invalidated (table i) = (table i, continue) ∧
  (derive_codex i (derive_codex i None).1.1).2 = Some continuation_invalidated.
Proof. by vm_compute. Qed.
(** The two counts of items are one. *)
Example items_counted : estimateTransportItemCount (first_turn ++ [turn_of "m3" 0 0 0; mkMessage (mkInfo (js "m4") assistant 0 false None no_tokens) [Tool (mkTool (js "c1") (js "bash") completed None None None)]]) = 5.
Proof. by vm_compute. Qed.
